(* ===== verification/_CoqProject ===== *)
-Q . S2P
Prelude.v
Wire.v
Control.v
Block.v
Hash.v
Bits.v
Window.v
Receiver.v
Registry.v
Setup.v
Handshake.v
Reassembly.v
Congestion.v
SendQueue.v
SpscRing.v
Packet.v
Orchestrator.v
Ranges.v
FileSink.v
SessionCrypto.v
Digest.v
Peer.v
Returns.v
Status.v
Sinks.v
Pipeline.v
RecvLane.v
RecvSystem.v
RecvSafety.v
RecvLanes.v
ReceiveEntry.v
SendLane.v
SendPlan.v
SendStart.v
SendEntry.v
EndToEnd.v
WholeTransfer.v
MuxRecv.v
MuxSend.v
MuxSystem.v
MuxEntry.v
SdkConn.v
SdkInv.v
SdkSystem.v
SdkLink.v
SdkEntry.v
Http.v
