(* ===== verification/Prelude.v ===== *)
(** * Verification of the Fuse datagram transport

    Fuse moves a buffer or a file between two hosts over UDP: it cuts the data into
    blocks, acknowledges and retransmits them itself, optionally encrypts them, and
    can resume an interrupted file.  This library models that program as executable
    definitions translated from the sources under [src/] and proves what makes it
    correct.  This file holds what the others share: machine integers, the [res] type,
    lists indexed by [Z], tactics and hint databases.

    ** The program and the files that model it

    Formats and data structures:
    - Wire.v, Control.v, Block.v: the wire primitives with the extension area
      ([include/fuse/proto/wire.hpp]), every control message
      ([src/proto/control.cpp]) and the DATA datagram ([src/proto/block.cpp]).  A codec
      is an instance of the class [WireCodec] and its correctness of [CodecLaws].
    - Packet.v: the long header and varints of [src/packet.c] and [src/varint.c].
    - Hash.v, Bits.v, Window.v: the hashes of [include/fuse/proto/hash.hpp], the bit
      rings, and the set of sequence numbers such a ring stands for.
    - Receiver.v, Registry.v, Reassembly.v: the receive window, the retransmission
      registry and reassembly ([src/proto/receiver.cpp], [registry.cpp],
      [reassembly.cpp]).
    - Congestion.v, SendQueue.v, SpscRing.v: [congestion.hpp], [send_queue.hpp] and
      [spsc_ring.hpp] of [include/fuse/proto/].
    - Setup.v, Handshake.v: the SETUP configuration and both state machines
      ([src/proto/setup.cpp]), and the two of them joined by a network.
    - SessionCrypto.v, Digest.v: [src/proto/session_crypto.cpp] and
      [src/proto/digest.cpp] over classes that stand for the cryptographic library.
    - Orchestrator.v: the worker pool of [src/proto/orchestrator.cpp].

    A transfer ([src/proto/transfer.cpp]):
    - Peer.v, Returns.v: peer addresses, address tokens, path validation, signing; a
      calculus for handlers that return.
    - Status.v, Sinks.v, FileSink.v, Ranges.v: statuses and statistics, the [Sink]
      interface with its two implementations, the resumable partial file, and the
      agreement on the ranges a session sends.
    - Pipeline.v, RecvLane.v: the consumers of the receive pipeline and the reader of
      a lane, one definition per handler; RecvSystem.v, RecvSafety.v and RecvLanes.v
      interleave them, for one lane and for all of them; ReceiveEntry.v is the end of
      [receive_to_sink], [receive_buffer] and [receive_file].
    - SendLane.v: all of [send_lane]; SendPlan.v and SendStart.v prove its loop and its
      handshake; SendEntry.v is [send_impl], [send_buffer] and [send_file].
    - EndToEnd.v, WholeTransfer.v: a send lane and a receive lane, and [send_impl] and
      all receive lanes, over one network.

    A multiplexed transfer ([src/proto/mux_transfer.cpp]):
    - MuxRecv.v, MuxSend.v: the streams of both ends and their handlers.
    - MuxSystem.v: both ends over a network, under every interleaving of their workers.
    - MuxEntry.v: the SETUP loops, the workers' tasks and both entry points.

    The message API ([src/proto/sdk.cpp], [src/proto/http.cpp]):
    - SdkConn.v: a connection, the handlers and one pass of its pump thread, and the calls
      of the application; SdkInv.v: their invariant, over what the blocks and the
      received messages are to satisfy.
    - SdkSystem.v: one side with its calls, fed with any datagrams; SdkLink.v: the two
      sides of a connection over a network.
    - SdkEntry.v: HELLO and HELLO-ACK, [fuse_listen], [fuse_accept], [fuse_connect].
    - Http.v: requests and responses over it, header lookup, client and server.

    ** How the model corresponds to the code

    A struct is a record, an enum an inductive type, and a function or handler a
    definition that takes the state and returns the new one.  An integer of [w] bits is
    a [Z] whose wrap-around is written out ([u8], [u16], [u32], [u64]).  Code that can
    fail is in the type [res]: [Ok] is a normal return, [Reject] a decoder that returns
    false, and [Fault] undefined behaviour, that is a read or write outside a buffer, a
    division by zero, a loop that used up its fuel or a library call with its
    precondition broken; a theorem that a handler returns [Ok] excludes all of these.

    What the operating system and the libraries do is an argument: clock readings, random
    numbers, the datagrams received, and how each system call and allocation ended.  AES-GCM,
    HKDF and SHA-256 are classes ([CryptoBackend], [Sha256]) whose laws are their
    documented behaviour, with a concrete instance of each class.

    Threads are interleaved: a critical section or an operation of the lock-free ring is
    one atomic step, and the systems (Handshake.v, SpscRing.v, Digest.v, RecvSystem.v,
    RecvLanes.v, MuxSystem.v, SdkLink.v, Orchestrator.v) are step relations whose reachable states
    are shown to satisfy an invariant.  Networks are lists of the datagrams sent so far,
    from which any may be delivered, any number of times, in any order; EndToEnd.v and
    SdkLink.v add forged ones.  On a connection of the message API whatever happens
    between two waits of a call is one step, since it holds the connection's mutex.

    ** What the theorems show

    - Codecs: encoding and decoding round trip, decoders accept exactly the layout
      written down separately, and no access leaves its buffer.
    - Data structures: the receive window, the send queue and the ring refine sets and
      lists; an Ack frees exactly the blocks the receiver has; a gap is NACKed; a
      complete reassembly is the source; the congestion window stays in its bounds.
    - SETUP: a completed handshake agrees on one valid configuration; retries end.
    - Cryptography: sealed blocks and control datagrams open at the other end, nonces
      do not repeat.
    - Resuming: a complete chunk holds the source's bytes, a resumed session asks for
      exactly what is missing, and both ends agree on the plan.
    - Receiving: handlers return on any datagram, every block an Ack covers is in the
      output, a source that has not validated its address commits no state, and
      [receive_to_sink] with Ok gives the caller the transfer byte for byte.
    - Sending: the blocks sent tile the session, stay within windows and path MTU, and
      the handshake, the loop and [send_impl] end with the status whose cause occurred.
    - End to end: a send that reports Ok has been received; the same for multiplexed
      transfers, whose statuses are characterised on both ends.
    - The message API: no datagram makes a handler leave its buffers; messages arrive
      whole, in order and once as long as no [fuse_send] follows a failed one, and a run
      shows the damage otherwise; both ends of a handshake agree on session and key; a
      lost HELLO-ACK is not repaired.  HTTP requests and responses round trip.
    - The worker pool stays within its bounds.

    ** Bounds and fuel

    A loop whose length is fixed by a machine bound takes that bound as fuel: the words of
    a ring, the 4096 epochs of [poll], the slots of a window, the [min_workers] of the pool.
    The theorems show that it suffices, since running out is [Fault].  Loops that wait
    for the network run over the list of what each turn finds, of any length; a list that
    ends before the loop does gives a state that is still running, of which nothing is claimed
    but the invariant.  Sequence numbers are taken to stay below 2^63 where the code would
    otherwise have to send 2^63 blocks.

    ** Not modelled

    - Sockets ([src/proto/udp_linux.cpp], [udp_darwin.cpp], the rest of
      [udp_common.cpp], [src/socket.c]): system calls; their outcomes are arguments.
    - [src/crypto.c], [src/proto/dtls.cpp]: calls of wolfSSL, whose state is not visible.
    - Of the message API: freeing a connection once no call is inside it ([fuse_close]
      after its notification), printing addresses and statuses, null handles.
    - Benchmarks and examples: command-line drivers that call the library and print.
    - Floating point: durations in seconds, rates, the pacing interval in
      [long double] and the utilisation of the worker pool.
    - Sleeps, and the memory order of the lock-free code beyond sequential consistency. *)

From Stdlib Require Export ZArith Lia.
From stdpp Require Export base list numbers option gmap sorting.

#[global] Open Scope Z_scope.

(** ** Machine integers

    A w-bit unsigned integer is a [Z]; [u8] ... [u64] are the conversions the
    C++ code performs implicitly on assignment and on unsigned arithmetic. *)

Definition u8 (x : Z) : Z := x mod 2 ^ 8.
Definition u16 (x : Z) : Z := x mod 2 ^ 16.
Definition u32 (x : Z) : Z := x mod 2 ^ 32.
Definition u64 (x : Z) : Z := x mod 2 ^ 64.

Definition is_u8 (x : Z) : Prop := 0 <= x < 2 ^ 8.
Definition is_u16 (x : Z) : Prop := 0 <= x < 2 ^ 16.
Definition is_u32 (x : Z) : Prop := 0 <= x < 2 ^ 32.
Definition is_u64 (x : Z) : Prop := 0 <= x < 2 ^ 64.

(** Linear arithmetic with [/] and [mod] by constants. *)
Ltac mlia := Z.to_euclidean_division_equations; lia.

(** Linear arithmetic seeing through the machine-integer definitions. *)
Ltac ulia :=
  unfold is_u8, is_u16, is_u32, is_u64, u8, u16, u32, u64 in *; mlia.

Lemma u8_small x : is_u8 x -> u8 x = x.
Proof. apply Z.mod_small. Qed.

Lemma u16_small x : is_u16 x -> u16 x = x.
Proof. apply Z.mod_small. Qed.

Lemma u32_small x : is_u32 x -> u32 x = x.
Proof. apply Z.mod_small. Qed.

Lemma u64_small x : is_u64 x -> u64 x = x.
Proof. apply Z.mod_small. Qed.

Lemma u8_range x : is_u8 (u8 x).
Proof. by apply Z.mod_pos_bound. Qed.

Lemma u16_range x : is_u16 (u16 x).
Proof. by apply Z.mod_pos_bound. Qed.

Lemma u32_range x : is_u32 (u32 x).
Proof. by apply Z.mod_pos_bound. Qed.

Lemma u64_range x : is_u64 (u64 x).
Proof. by apply Z.mod_pos_bound. Qed.

Create HintDb fuse discriminated.
Create Rewrite HintDb wrap.
Create Rewrite HintDb len.
#[export] Hint Resolve u8_range u16_range u32_range u64_range : fuse.

#[export] Hint Rewrite u8_small u16_small u32_small u64_small
  using (unfold is_u8, is_u16, is_u32, is_u64 in *; lia) : wrap.

(** Removes the conversions whose argument is in range. *)
Ltac unwrap := autorewrite with wrap in *.

(** ** Case analysis on the code's conditions *)

(** Turns the boolean tests of the hypotheses and the goal into arithmetic. *)
Ltac bool_hyps :=
  repeat match goal with
  | H : (_ && _)%bool = true |- _ => apply andb_prop in H as [? ?]
  | H : (_ || _)%bool = false |- _ => apply orb_false_elim in H as [? ?]
  | H : (_ || _)%bool = true |- _ => apply orb_prop in H
  | H : (_ && _)%bool = false |- _ => apply andb_false_iff in H
  | H : negb _ = true |- _ => apply negb_true_iff in H
  | H : negb _ = false |- _ => apply negb_false_iff in H
  | H : (_ <? _) = true |- _ => apply Z.ltb_lt in H
  | H : (_ <? _) = false |- _ => apply Z.ltb_ge in H
  | H : (_ <=? _) = true |- _ => apply Z.leb_le in H
  | H : (_ <=? _) = false |- _ => apply Z.leb_gt in H
  | H : (_ >? _) = true |- _ => rewrite Z.gtb_ltb in H
  | H : (_ >? _) = false |- _ => rewrite Z.gtb_ltb in H
  | H : (_ >=? _) = true |- _ => rewrite Z.geb_leb in H
  | H : (_ >=? _) = false |- _ => rewrite Z.geb_leb in H
  | H : (_ =? _) = true |- _ => apply Z.eqb_eq in H
  | H : (_ =? _) = false |- _ => apply Z.eqb_neq in H
  end.

(** Splits the innermost condition of the goal and records its outcome. *)
Ltac split_if :=
  match goal with
  | |- context [if ?b then _ else _] =>
      lazymatch b with
      | context [if _ then _ else _] => fail
      | _ => let E := fresh "Hif" in destruct b eqn:E; bool_hyps
      end
  end.

(** Decides that a concrete list is within a machine width. *)
Ltac all_in_range := repeat (constructor; [unfold is_u8, is_u16, is_u32, is_u64; lia |]); constructor.

Ltac split_if_in H :=
  match type of H with
  | context [if ?b then _ else _] =>
      lazymatch b with
      | context [if _ then _ else _] => fail
      | _ => let E := fresh "Hif" in destruct b eqn:E; bool_hyps
      end
  end.

(** ** Outcomes of code that touches raw memory

    [Fault] is an access outside the buffer the code was given (undefined
    behaviour in C++), [Reject] the code's own failure return and [Ok] a
    normal return. *)

Inductive res (A : Type) : Type :=
| Fault
| Reject
| Ok (a : A).
Arguments Fault {A}.
Arguments Reject {A}.
Arguments Ok {A} a.

Lemma Ok_inj {A} (a b : A) : Ok a = Ok b -> a = b.
Proof. by intros [= ->]. Qed.

Definition res_bind {A B} (m : res A) (k : A -> res B) : res B :=
  match m with
  | Fault => Fault
  | Reject => Reject
  | Ok a => k a
  end.

(** What one [pread], [pwrite] or [pwritev] call reports. *)
Inductive io := IoIntr | IoError | IoBytes (n : Z).

(** ** Buffers and arrays indexed by [Z] *)

Abbreviation bytes := (list Z).

Definition lenZ {A} (l : list A) : Z := Z.of_nat (length l).

(** A checked read of a raw buffer. *)
Definition nthZ {A} (l : list A) (i : Z) : option A :=
  if i <? 0 then None else l !! Z.to_nat i.

(** Element [i] of a fixed-size array of integers ([0] past its end; the
    code's indices are reduced modulo the array's size). *)
Definition getZ (l : list Z) (i : Z) : Z := nth (Z.to_nat i) l 0.
Definition setZ {A} (l : list A) (i : Z) (v : A) : list A := <[Z.to_nat i := v]> l.

(** [memcpy] of [bs] at offset [off] of [buf]. *)
Definition splice (buf : bytes) (off : Z) (bs : bytes) : bytes :=
  take (Z.to_nat off) buf ++ bs ++ drop (Z.to_nat off + length bs) buf.

Definition slice {A} (l : list A) (off n : Z) : list A :=
  take (Z.to_nat n) (drop (Z.to_nat off) l).

Lemma lenZ_nonneg {A} (l : list A) : 0 <= lenZ l.
Proof. unfold lenZ. lia. Qed.

Lemma lenZ_app {A} (l1 l2 : list A) : lenZ (l1 ++ l2) = lenZ l1 + lenZ l2.
Proof. unfold lenZ. rewrite length_app. lia. Qed.

Lemma lenZ_cons {A} (x : A) l : lenZ (x :: l) = 1 + lenZ l.
Proof. unfold lenZ. simpl length. lia. Qed.

Lemma lenZ_nil {A} : lenZ (@nil A) = 0.
Proof. done. Qed.

Lemma lenZ_setZ {A} (l : list A) i v : lenZ (setZ l i v) = lenZ l.
Proof. unfold lenZ, setZ. by rewrite length_insert. Qed.

#[export] Hint Rewrite @lenZ_app @lenZ_cons @lenZ_nil @lenZ_setZ : len.

Lemma nthZ_lookup {A} (l : list A) i : 0 <= i -> nthZ l i = l !! Z.to_nat i.
Proof. intros. unfold nthZ. split_if; [lia | done]. Qed.

Lemma nthZ_Some {A} (l : list A) i : 0 <= i < lenZ l -> exists x, nthZ l i = Some x.
Proof.
  intros. rewrite nthZ_lookup by lia. apply lookup_lt_is_Some. unfold lenZ in *. lia.
Qed.

Lemma nthZ_app_r {A} (l1 l2 : list A) i :
  lenZ l1 <= i -> nthZ (l1 ++ l2) i = nthZ l2 (i - lenZ l1).
Proof.
  intros. pose proof (lenZ_nonneg l1). rewrite !nthZ_lookup by lia.
  rewrite lookup_app_r by (unfold lenZ in *; lia). f_equal. unfold lenZ. lia.
Qed.

Lemma nthZ_app_l {A} (l1 l2 : list A) i :
  i < lenZ l1 -> nthZ (l1 ++ l2) i = nthZ l1 i.
Proof.
  intros. unfold nthZ. split_if; [done |]. apply lookup_app_l. unfold lenZ in *. lia.
Qed.

Lemma lenZ_replicate {A} (x : A) n : lenZ (replicate (Z.to_nat n) x) = Z.max 0 n.
Proof. unfold lenZ. rewrite length_replicate. lia. Qed.

Lemma nthZ_setZ {A} (l : list A) i j v :
  0 <= i < lenZ l -> 0 <= j -> nthZ (setZ l i v) j = if i =? j then Some v else nthZ l j.
Proof.
  intros Hi Hj. rewrite !nthZ_lookup by lia. unfold setZ, lenZ in *.
  destruct (Z.eqb_spec i j) as [<- | Hne].
  - by rewrite list_lookup_insert_eq by lia.
  - by rewrite list_lookup_insert_ne by lia.
Qed.

Lemma nthZ_inv {A} (l : list A) i x : nthZ l i = Some x -> 0 <= i < lenZ l /\ l !! Z.to_nat i = Some x.
Proof.
  unfold nthZ. split_if; [done |]. intros Hl. split; [| done].
  apply lookup_lt_Some in Hl. unfold lenZ. lia.
Qed.

Lemma getZ_lookup l i x : 0 <= i -> l !! Z.to_nat i = Some x -> getZ l i = x.
Proof. intros ? Hl. unfold getZ. by apply nth_lookup_Some. Qed.

Lemma getZ_setZ l i j v :
  0 <= i < lenZ l -> 0 <= j -> getZ (setZ l i v) j = if i =? j then v else getZ l j.
Proof.
  intros Hi Hj. unfold getZ, setZ, lenZ in *. rewrite !nth_lookup.
  destruct (Z.eqb_spec i j) as [<- | Hne].
  - by rewrite list_lookup_insert_eq by lia.
  - by rewrite list_lookup_insert_ne by lia.
Qed.

Lemma drop_pre {A} (pre suf : list A) k :
  0 <= k -> drop (Z.to_nat (lenZ pre + k)) (pre ++ suf) = drop (Z.to_nat k) suf.
Proof.
  intros. unfold lenZ. rewrite drop_app, drop_ge by lia. simpl. f_equal. lia.
Qed.

Lemma drop_pre_0 {A} (pre suf : list A) : drop (Z.to_nat (lenZ pre)) (pre ++ suf) = suf.
Proof. unfold lenZ. by rewrite Nat2Z.id, drop_app_length. Qed.

Lemma take_all_lenZ {A} (l rest : list A) : take (Z.to_nat (lenZ l)) (l ++ rest) = l.
Proof. unfold lenZ. by rewrite Nat2Z.id, take_app_length. Qed.

Lemma lenZ_take {A} (l : list A) n : 0 <= n <= lenZ l -> lenZ (take (Z.to_nat n) l) = n.
Proof. unfold lenZ. rewrite length_take. lia. Qed.

Lemma lenZ_drop {A} (l : list A) n : 0 <= n <= lenZ l -> lenZ (drop (Z.to_nat n) l) = lenZ l - n.
Proof. unfold lenZ. rewrite length_drop. lia. Qed.

Lemma splice_length buf off bs :
  0 <= off -> off + lenZ bs <= lenZ buf -> lenZ (splice buf off bs) = lenZ buf.
Proof.
  intros. unfold splice, lenZ in *. rewrite !length_app, length_take, length_drop. lia.
Qed.

Lemma splice_nil buf off : splice buf off [] = buf.
Proof.
  unfold splice. simpl. rewrite Nat.add_0_r. apply take_drop.
Qed.

Lemma splice_splice buf off bs1 bs2 :
  0 <= off -> off + lenZ bs1 + lenZ bs2 <= lenZ buf ->
  splice (splice buf off bs1) (off + lenZ bs1) bs2 = splice buf off (bs1 ++ bs2).
Proof.
  intros Hoff Hlen. unfold splice, lenZ in *.
  assert (length (take (Z.to_nat off) buf) = Z.to_nat off) as Ht by (rewrite length_take; lia).
  replace (Z.to_nat (off + Z.of_nat (length bs1))) with (Z.to_nat off + length bs1)%nat by lia.
  rewrite (app_assoc _ bs1), take_app_length' by (rewrite length_app; lia).
  rewrite <- !app_assoc. do 3 f_equal.
  rewrite (app_assoc _ bs1), drop_app.
  rewrite drop_ge by (rewrite length_app; lia). simpl.
  rewrite drop_drop, !length_app, Ht. f_equal. lia.
Qed.

Lemma splice_0 buf bs :
  splice buf 0 bs = bs ++ drop (length bs) buf.
Proof. done. Qed.

Lemma splice_lookup buf off bs (i : nat) :
  0 <= off -> off + lenZ bs <= lenZ buf ->
  splice buf off bs !! i =
  if (off <=? Z.of_nat i) && (Z.of_nat i <? off + lenZ bs) then bs !! (i - Z.to_nat off)%nat else buf !! i.
Proof.
  intros Hoff Hlen. unfold splice, lenZ in *.
  assert (length (take (Z.to_nat off) buf) = Z.to_nat off) as Ht by (rewrite length_take; lia).
  destruct (Z.leb_spec off (Z.of_nat i)); cbn [andb].
  - rewrite lookup_app_r by lia. rewrite Ht. destruct (Z.ltb_spec (Z.of_nat i) (off + Z.of_nat (length bs))).
    + rewrite lookup_app_l by lia. done.
    + rewrite lookup_app_r by lia. rewrite lookup_drop. f_equal. lia.
  - rewrite lookup_app_l by lia. apply lookup_take_lt. lia.
Qed.

Lemma slice_lookup {A} (l : list A) off n (i : nat) :
  0 <= off -> Z.of_nat i < n -> slice l off n !! i = l !! (Z.to_nat off + i)%nat.
Proof. intros. unfold slice. rewrite lookup_take_lt by lia. by rewrite lookup_drop. Qed.

Lemma lenZ_slice {A} (l : list A) off n :
  0 <= off -> 0 <= n -> off + n <= lenZ l -> lenZ (slice l off n) = n.
Proof. intros. unfold slice, lenZ in *. rewrite length_take, length_drop. lia. Qed.

(** A one-byte store. *)
Lemma splice_single buf off b :
  0 <= off < lenZ buf -> setZ buf off b = splice buf off [b].
Proof.
  intros. unfold setZ, splice, lenZ in *.
  rewrite insert_take_drop by lia. simpl. f_equal. f_equal. f_equal. lia.
Qed.

(** ** Counting loops *)

(** [for (i = lo; i < lo + n; ++i) s = body i s]. *)
Fixpoint for_up {S : Type} (n : nat) (lo : Z) (body : Z -> S -> S) (s : S) : S :=
  match n with
  | O => s
  | Datatypes.S m => for_up m (lo + 1) body (body lo s)
  end.

Lemma for_up_ind {S : Type} (P : Z -> S -> Prop) n lo body (s : S) :
  P lo s ->
  (forall i s, lo <= i < lo + Z.of_nat n -> P i s -> P (i + 1) (body i s)) ->
  P (lo + Z.of_nat n) (for_up n lo body s).
Proof.
  revert lo s. induction n as [| n IH]; intros lo s H0 Hstep; simpl for_up.
  - by rewrite Z.add_0_r.
  - replace (lo + Z.of_nat (Datatypes.S n)) with (lo + 1 + Z.of_nat n) by lia.
    apply IH; [apply Hstep; [lia | done] | intros; apply Hstep; [lia | done]].
Qed.

Lemma for_up_foldl {S : Type} n lo body (s : S) :
  for_up n lo body s = foldl (fun s i => body i s) s (seqZ lo (Z.of_nat n)).
Proof.
  revert lo s. induction n as [| n IH]; intros lo s; [done |].
  rewrite seqZ_cons by lia. cbn [for_up foldl]. rewrite IH. f_equal. f_equal; lia.
Qed.

(** ** Sums over a list *)

Definition sumZ {A} (f : A -> Z) (l : list A) : Z := foldr (fun x n => f x + n) 0 l.

Lemma sumZ_app {A} (f : A -> Z) l1 l2 : sumZ f (l1 ++ l2) = sumZ f l1 + sumZ f l2.
Proof. induction l1 as [| x l1 IH]; simpl; [done | unfold sumZ in *; lia]. Qed.

Lemma sumZ_perm {A} (f : A -> Z) l1 l2 : l1 ≡ₚ l2 -> sumZ f l1 = sumZ f l2.
Proof. unfold sumZ. induction 1; cbn [foldr]; lia. Qed.

Lemma sumZ_insert {A} (f : A -> Z) l i x y :
  l !! i = Some x -> sumZ f (<[i := y]> l) = sumZ f l - f x + f y.
Proof.
  revert i. induction l as [| z l IH]; intros [| i] Hl; simplify_eq/=; [lia |].
  rewrite (IH i) by done. lia.
Qed.

Lemma sumZ_bounds {A} (f : A -> Z) (l : list A) b :
  (forall x, x ∈ l -> 0 <= f x <= b) -> 0 <= sumZ f l <= lenZ l * b.
Proof.
  induction l as [| x l IH]; intros Hf; [unfold lenZ; cbn; lia |].
  rewrite lenZ_cons. cbn [sumZ foldr]. pose proof (Hf x (list_elem_of_here x l)).
  specialize (IH ltac:(intros; apply Hf; by right)). unfold sumZ in IH. lia.
Qed.

Lemma sumZ_nonneg {A} (f : A -> Z) (l : list A) : (forall x, x ∈ l -> 0 <= f x) -> 0 <= sumZ f l.
Proof.
  induction l as [| x l IH]; intros Hf; [done |]. cbn [sumZ foldr].
  pose proof (Hf x (list_elem_of_here x l)). specialize (IH ltac:(intros; apply Hf; by right)).
  unfold sumZ in IH. lia.
Qed.

(** ** Sorted lists *)

Lemma seqZ_sorted lo n : StronglySorted Z.lt (seqZ lo n).
Proof.
  destruct (Z.le_gt_cases n 0); [rewrite seqZ_nil by lia; constructor |].
  rewrite <- (Z2Nat.id n) by lia. generalize (Z.to_nat n). clear. intros n. revert lo.
  induction n as [| n IH]; intros lo; [constructor |]. rewrite seqZ_cons by lia.
  replace (Z.pred (Z.of_nat (S n))) with (Z.of_nat n) by lia. constructor; [apply IH |].
  apply list.Forall_forall. intros x Hx%elem_of_seqZ. lia.
Qed.

Lemma filter_sorted (P : Z -> Prop) `{!forall x, Decision (P x)} l :
  StronglySorted Z.lt l -> StronglySorted Z.lt (filter P l).
Proof.
  induction 1 as [| x l Hs IH Hx]; [constructor |]. rewrite filter_cons.
  destruct (decide (P x)); [| done]. constructor; [done |].
  apply list.Forall_forall. intros y [_ Hy]%list_elem_of_filter.
  by apply (proj1 (list.Forall_forall _ _) Hx).
Qed.

(** ** Single bits *)

Lemma land_pow2 a n : 0 <= n -> Z.land a (2 ^ n) = if Z.testbit a n then 2 ^ n else 0.
Proof.
  intros Hn. apply Z.bits_inj'; intros i Hi.
  rewrite Z.land_spec, Z.pow2_bits_eqb by lia.
  destruct (Z.eqb_spec n i) as [<- | Hne]; rewrite ?andb_true_r, ?andb_false_r.
  - destruct (Z.testbit a n) eqn:E; [by rewrite Z.pow2_bits_true by lia | by rewrite Z.bits_0].
  - destruct (Z.testbit a n); [by rewrite Z.pow2_bits_false by lia | by rewrite Z.bits_0].
Qed.

Lemma land_pow2_eqb a n : 0 <= n -> (Z.land a (2 ^ n) =? 0) = negb (Z.testbit a n).
Proof.
  intros Hn. rewrite land_pow2 by done. pose proof (Z.pow_pos_nonneg 2 n).
  destruct (Z.testbit a n); simpl; [apply Z.eqb_neq; lia | done].
Qed.

Lemma testbit_ge_false a n i : 0 <= a < 2 ^ n -> 0 <= n <= i -> Z.testbit a i = false.
Proof.
  intros Ha Hi. rewrite <- (Z.mod_small a (2 ^ n)) by lia. apply Z.mod_pow2_bits_high. lia.
Qed.

Lemma testbit_top a n : 0 <= n -> 0 <= a < 2 ^ (n + 1) -> Z.testbit a n = (2 ^ n <=? a).
Proof.
  intros Hn Ha. rewrite Z.pow_add_r in Ha by lia. pose proof (Z.pow_pos_nonneg 2 n).
  pose proof (Z.testbit_spec' a n Hn) as Hs.
  destruct (Z.leb_spec (2 ^ n) a) as [Hle | Hlt].
  - assert (a / 2 ^ n = 1) as E
      by (symmetry; apply (Z.div_unique _ _ _ (a - 2 ^ n)); lia).
    rewrite E in Hs. by destruct (Z.testbit a n).
  - rewrite Z.div_small in Hs by lia. by destruct (Z.testbit a n).
Qed.

(** Two [w]-bit words are equal when their [w] bits are. *)
Lemma bits_eq_below a b w :
  0 <= w -> 0 <= a < 2 ^ w -> 0 <= b < 2 ^ w ->
  (forall i, 0 <= i < w -> Z.testbit a i = Z.testbit b i) -> a = b.
Proof.
  intros Hw Ha Hb Hbits. apply Z.bits_inj'; intros i Hi.
  destruct (Z.lt_ge_cases i w); [apply Hbits; lia |].
  by rewrite !(testbit_ge_false _ w) by lia.
Qed.

(** A word fits in [w] bits when no higher bit is set. *)
Lemma lt_pow2_bits x w :
  0 <= w -> (forall i, w <= i -> Z.testbit x i = false) -> 0 <= x < 2 ^ w.
Proof.
  intros Hw Hbits. replace x with (x mod 2 ^ w); [apply Z.mod_pos_bound, Z.pow_pos_nonneg; lia |].
  apply Z.bits_inj'; intros i Hi. destruct (Z.lt_ge_cases i w).
  - by rewrite Z.mod_pow2_bits_low by lia.
  - rewrite Z.mod_pow2_bits_high, Hbits by lia. done.
Qed.

Lemma land_range a b w : 0 <= w -> 0 <= a < 2 ^ w -> 0 <= Z.land a b < 2 ^ w.
Proof.
  intros Hw Ha. apply lt_pow2_bits; [done |]. intros i Hi.
  by rewrite Z.land_spec, (testbit_ge_false a w) by lia.
Qed.

Lemma lor_range a b w : 0 <= w -> 0 <= a < 2 ^ w -> 0 <= b < 2 ^ w -> 0 <= Z.lor a b < 2 ^ w.
Proof.
  intros Hw Ha Hb. apply lt_pow2_bits; [done |]. intros i Hi.
  by rewrite Z.lor_spec, (testbit_ge_false a w), (testbit_ge_false b w) by lia.
Qed.

Lemma take_pre {A} (pre suf : list A) k :
  lenZ pre <= k ->
  take (Z.to_nat k) (pre ++ suf) = pre ++ take (Z.to_nat (k - lenZ pre)) suf.
Proof.
  intros. unfold lenZ in *. rewrite take_app, take_ge by lia. do 2 f_equal. lia.
Qed.

(** Distinct offsets below the capacity of a ring have distinct slots. *)
Lemma ring_index_inj h n i j :
  0 < n -> 0 <= i < n -> 0 <= j < n -> (h + i) mod n = (h + j) mod n -> i = j.
Proof.
  intros Hn Hi Hj E. assert ((i - j) mod n = 0) as Hm.
  { replace (i - j) with ((h + i) - (h + j)) by lia. rewrite Zminus_mod, E, Z.sub_diag. by apply Z.mod_0_l; lia. }
  apply Z.mod_divide in Hm; [| lia]. destruct Hm as [k Hk]. assert (k = 0) as -> by nia. lia.
Qed.
