(* ===== verification/Wire.v ===== *)
(** * Wire foundation (include/fuse/proto/wire.hpp)

    Constants, message types, the big-endian [put_*]/[get_*] primitives and
    the v8 extension area.  A decoder's cursor [in + off] is the suffix of the
    datagram still to be read; an encoder's cursor [out + off] is the suffix of
    the caller's buffer still to be written.  Reading or writing past the end
    of that suffix is [Fault]. *)

From S2P Require Import Prelude.

Definition kProtocolVersion : Z := 8.
Definition kDefaultPayloadSize : Z := 1200.
Definition kMaxPayloadSize : Z := 16384.
Definition kMaxWindow : Z := 1024.
Definition kMaskWords : Z := (kMaxWindow + 63) / 64.

Module MsgType.

Inductive MsgType :=
| Data | Heartbeat | Ack | Nack | SetupData | SetupHashReply | SetupFinAck
| StreamStart | Hello | HelloAck | Close | StreamClose | ResumeRanges
| FileDigest | Retry | PathChallenge | PathResponse.

#[export] Instance MsgType_eq_dec : EqDecision MsgType.
Proof. solve_decision. Defined.

(** [static_cast<uint8_t>(type)]. *)
Definition code (t : MsgType) : Z :=
  match t with
  | Data => 0 | Heartbeat => 1 | Ack => 2 | Nack => 3 | SetupData => 4
  | SetupHashReply => 5 | SetupFinAck => 6 | StreamStart => 7 | Hello => 8
  | HelloAck => 9 | Close => 10 | StreamClose => 11 | ResumeRanges => 12
  | FileDigest => 13 | Retry => 14 | PathChallenge => 15 | PathResponse => 16
  end.

Lemma code_inj t1 t2 : code t1 = code t2 -> t1 = t2.
Proof. destruct t1, t2; done. Qed.

Lemma code_u8 t : is_u8 (code t).
Proof. destruct t; unfold is_u8; simpl; lia. Qed.

End MsgType.

Definition kFlagRetransmission : Z := 1.
Definition kFlagLastBlock : Z := 2.

Definition kOuterHeaderSize : Z := 2.
Definition kBlockHeaderSize : Z := 21.
Definition kSendTimeSize : Z := 8.
Definition kDataPrefixSize : Z := kOuterHeaderSize + kBlockHeaderSize + kSendTimeSize.
Definition kMaxDatagramSize : Z := kDataPrefixSize + kMaxPayloadSize.

Definition kMaxExtensionBytes : Z := 256.
Definition kExtensionCritical : Z := 32768.

(** ** Readers *)

(** A reader consumes a prefix of the remaining input. *)
Definition rd (A : Type) : Type := bytes -> res (A * bytes).

Definition rd_ret {A} (a : A) : rd A := fun rest => Ok (a, rest).
Definition rd_bind {A B} (m : rd A) (k : A -> rd B) : rd B :=
  fun rest => res_bind (m rest) (fun '(a, rest') => k a rest').
Definition rd_fail {A} : rd A := fun _ => Reject.

Declare Scope wire_scope.
Delimit Scope wire_scope with wire.
#[global] Open Scope wire_scope.
Notation "x <~ m ;; k" := (rd_bind m (fun x => k))
  (at level 100, m at next level, right associativity) : wire_scope.

Definition get_u8 : rd Z :=
  fun rest => match rest with [] => Fault | b :: rest' => Ok (b, rest') end.

Definition get_u16 : rd Z :=
  p0 <~ get_u8 ;; p1 <~ get_u8 ;; rd_ret (u16 (Z.lor (Z.shiftl p0 8) p1)).

(** [for (i < n) out = (out << 8) | p[i]] at the width of [wrap]. *)
Fixpoint get_loop (wrap : Z -> Z) (n : nat) (out : Z) : rd Z :=
  match n with
  | O => rd_ret out
  | S m => b <~ get_u8 ;; get_loop wrap m (Z.lor (wrap (Z.shiftl out 8)) b)
  end.

Definition get_u32 : rd Z := get_loop u32 4 0.
Definition get_u64 : rd Z := get_loop u64 8 0.

(** [memcpy(dst, in + off, n)]. *)
Definition get_bytes (n : Z) : rd bytes :=
  fun rest =>
    if lenZ rest <? n then Fault
    else Ok (take (Z.to_nat n) rest, drop (Z.to_nat n) rest).

(** [for (i < n) dst[i] = get(in + off)]: a counted array of fields. *)
Fixpoint get_array {A} (get : rd A) (n : nat) : rd (list A) :=
  match n with
  | O => rd_ret []
  | S m => x <~ get ;; xs <~ get_array get m ;; rd_ret (x :: xs)
  end.

(** ** Writers *)

(** A writer overwrites a prefix of the remaining buffer: the bytes it wrote
    and the buffer left behind them. *)
Definition wr : Type := bytes -> res (bytes * bytes).

Definition wr_nop : wr := fun rest => Ok ([], rest).
Definition wr_seq (w1 w2 : wr) : wr :=
  fun rest =>
    res_bind (w1 rest) (fun '(b1, rest1) =>
    res_bind (w2 rest1) (fun '(b2, rest2) => Ok (b1 ++ b2, rest2))).
Notation "w1 ;;; w2" := (wr_seq w1 w2) (at level 100, right associativity) : wire_scope.

Definition put_u8 (v : Z) : wr :=
  fun rest => match rest with [] => Fault | _ :: rest' => Ok ([u8 v], rest') end.

Definition put_u16 (v : Z) : wr := put_u8 (Z.shiftr v 8) ;;; put_u8 v.

(** [for (i < n) p[i] = (uint8_t)(v >> (8 * (n - 1) - 8 * i))]. *)
Fixpoint put_loop (n : nat) (v : Z) : wr :=
  match n with
  | O => wr_nop
  | S m => put_u8 (Z.shiftr v (8 * Z.of_nat m)) ;;; put_loop m v
  end.

Definition put_u32 (v : Z) : wr := put_loop 4 v.
Definition put_u64 (v : Z) : wr := put_loop 8 v.

(** [memcpy(out + off, bs, size)]. *)
Definition put_bytes (bs : bytes) : wr :=
  fun rest =>
    if lenZ rest <? lenZ bs then Fault else Ok (bs, drop (length bs) rest).

Fixpoint put_array {A} (put : A -> wr) (xs : list A) : wr :=
  match xs with
  | [] => wr_nop
  | x :: xs' => put x ;;; put_array put xs'
  end.

(** Runs a writer from the start of the caller's buffer: the buffer as the
    caller finds it afterwards and the length the encoder returns. *)
Definition run_wr (w : wr) (out : bytes) : res (bytes * Z) :=
  res_bind (w out) (fun '(b, rest) => Ok (b ++ rest, lenZ b)).

(** ** Extensions *)

Record Extension := mkExtension {
  ext_type : Z;
  ext_value : bytes;
}.

(** The entry at [off] of the area and the offset after it; [Reject] at the end
    or on a malformed entry.  ([ext->len] is the length of [ext_value].) *)
Definition next_extension (area : bytes) (off : Z) : res (Extension * Z) :=
  if lenZ area <? off + 4 then Reject
  else
    res_bind (get_u16 (drop (Z.to_nat off) area)) (fun '(type, _) =>
    res_bind (get_u16 (drop (Z.to_nat (off + 2)) area)) (fun '(len, _) =>
    if lenZ area - off - 4 <? len then Reject
    else
      Ok (mkExtension type (slice area (off + 4) len), off + (4 + len)))).

(** Appends one entry to the [used] bytes of an area of [cap = lenZ area]
    bytes: the area and the new used length, 0 if the entry does not fit. *)
Definition append_extension (area : bytes) (used type : Z) (value : bytes) : res (bytes * Z) :=
  let cap := lenZ area in
  let len := lenZ value in
  if (cap <? used) || (cap - used <? 4 + len) then Ok (area, 0)
  else
    res_bind ((put_u16 type ;;; put_u16 len ;;; put_array put_u8 value)
                (drop (Z.to_nat used) area))
      (fun '(b, rest) => Ok (take (Z.to_nat used) area ++ b ++ rest, used + 4 + len)).

(** The [while (off < area_len)] loop; running out of fuel is a [Fault]. *)
Fixpoint extensions_loop (fuel : nat) (area : bytes) (off : Z) : res bool :=
  match fuel with
  | O => Fault
  | S fuel' =>
      if off <? lenZ area then
        match next_extension area off with
        | Fault => Fault
        | Reject => Ok false
        | Ok (ext, off') =>
            if negb (Z.land (ext_type ext) kExtensionCritical =? 0) then Ok false
            else extensions_loop fuel' area off'
        end
      else Ok true
  end.

Definition extensions_acceptable (area : bytes) : res bool :=
  extensions_loop (S (length area)) area 0.

(** ** The big-endian layout *)

(** The [n] bytes of [v], most significant first. *)
Fixpoint be (n : nat) (v : Z) : bytes :=
  match n with
  | O => []
  | S m => u8 (Z.shiftr v (8 * Z.of_nat m)) :: be m v
  end.

Arguments be : simpl never.

Lemma be_S n v : be (S n) v = u8 (Z.shiftr v (8 * Z.of_nat n)) :: be n v.
Proof. done. Qed.

Lemma be_length n v : length (be n v) = n.
Proof. induction n as [| n IH]; [done |]. rewrite be_S. simpl. congruence. Qed.

Lemma lenZ_be n v : lenZ (be n v) = Z.of_nat n.
Proof. unfold lenZ. by rewrite be_length. Qed.

#[export] Hint Rewrite lenZ_be : len.

Lemma be_bytes n v : Forall is_u8 (be n v).
Proof. induction n; [constructor |]. rewrite be_S. constructor; auto with fuse. Qed.
#[export] Hint Resolve be_bytes : fuse.

Lemma land_shiftl_small a b n : 0 <= n -> 0 <= b < 2 ^ n -> Z.land (Z.shiftl a n) b = 0.
Proof.
  intros Hn Hb. apply Z.bits_inj'; intros i Hi.
  rewrite Z.land_spec, Z.bits_0, Z.shiftl_spec by lia. destruct (Z.lt_ge_cases i n).
  - by rewrite (Z.testbit_neg_r a) by lia.
  - rewrite <- (Z.mod_small b (2 ^ n)), Z.mod_pow2_bits_high by lia. apply andb_false_r.
Qed.

Lemma shiftl_lor a b n : 0 <= n -> 0 <= b < 2 ^ n -> Z.lor (Z.shiftl a n) b = 2 ^ n * a + b.
Proof.
  intros. rewrite <- Z.lxor_lor, <- Z.add_nocarry_lxor by (by apply land_shiftl_small).
  rewrite Z.shiftl_mul_pow2 by lia. lia.
Qed.

(** The value of a big-endian byte string. *)
Definition unbe (bs : bytes) : Z := foldl (fun acc b => 256 * acc + b) 0 bs.

Lemma foldl_be n v acc :
  0 <= acc -> foldl (fun acc b => 256 * acc + b) acc (be n v) =
  acc * 2 ^ (8 * Z.of_nat n) + v mod 2 ^ (8 * Z.of_nat n).
Proof.
  revert acc. induction n as [| n IH]; intros acc Hacc.
  - simpl. rewrite Z.mod_1_r. lia.
  - rewrite be_S. simpl foldl.
    pose proof (u8_range (Z.shiftr v (8 * Z.of_nat n))) as Hb. unfold is_u8 in Hb.
    rewrite IH by lia. clear IH.
    rewrite Z.shiftr_div_pow2 by lia. unfold u8.
    replace (8 * Z.of_nat (S n)) with (8 * Z.of_nat n + 8) by lia.
    rewrite Z.pow_add_r by lia.
    rewrite (Z.rem_mul_r v (2 ^ (8 * Z.of_nat n)) (2 ^ 8)) by (try apply Z.pow_nonzero; lia).
    ring.
Qed.

Lemma unbe_be n v : 0 <= v < 2 ^ (8 * Z.of_nat n) -> unbe (be n v) = v.
Proof.
  intros. unfold unbe. rewrite foldl_be by lia. rewrite Z.mod_small; lia.
Qed.

Lemma be_inj n v w :
  0 <= v < 2 ^ (8 * Z.of_nat n) -> 0 <= w < 2 ^ (8 * Z.of_nat n) -> be n v = be n w -> v = w.
Proof. intros ?? E. rewrite <- (unbe_be n v), <- (unbe_be n w) by done. by rewrite E. Qed.

(** ** What the primitives do *)

Lemma get_loop_be wrap n v out k rest :
  (forall x, 0 <= x < 2 ^ (8 * (Z.of_nat k + Z.of_nat n)) -> wrap x = x) ->
  0 <= out < 2 ^ (8 * Z.of_nat k) ->
  get_loop wrap n out (be n v ++ rest) =
  Ok (foldl (fun acc b => 256 * acc + b) out (be n v), rest).
Proof.
  revert out k. induction n as [| n IH]; intros out k Hwrap Hout; [done |].
  rewrite be_S. simpl app. simpl get_loop. unfold rd_bind. simpl res_bind. simpl foldl.
  pose proof (u8_range (Z.shiftr v (8 * Z.of_nat n))) as Hb. unfold is_u8 in Hb.
  assert (2 ^ (8 * (Z.of_nat k + 1)) = 256 * 2 ^ (8 * Z.of_nat k)) as Hp1.
  { replace (8 * (Z.of_nat k + 1)) with (8 * Z.of_nat k + 8) by lia. rewrite Z.pow_add_r; lia. }
  assert (2 ^ (8 * (Z.of_nat k + 1)) <= 2 ^ (8 * (Z.of_nat k + Z.of_nat (S n)))) as Hle
    by (apply Z.pow_le_mono_r; lia).
  rewrite Hwrap by (rewrite Z.shiftl_mul_pow2 by lia; lia).
  rewrite shiftl_lor by lia. rewrite (IH _ (S k)); [done | |].
  - intros x Hx. apply Hwrap. by replace (Z.of_nat k + Z.of_nat (S n)) with (Z.of_nat (S k) + Z.of_nat n) by lia.
  - rewrite Nat2Z.inj_succ, <- Z.add_1_r, Hp1. lia.
Qed.

Lemma get_u8_spec b rest : get_u8 (b :: rest) = Ok (b, rest).
Proof. done. Qed.

Lemma get_u16_be v rest : is_u16 v -> get_u16 (be 2 v ++ rest) = Ok (v, rest).
Proof.
  intros Hv. rewrite !be_S. unfold get_u16, rd_bind, rd_ret. simpl. do 2 f_equal.
  pose proof (u8_range v). pose proof (u8_range (Z.shiftr v 8)).
  unfold is_u8 in *. change (8 * Z.of_nat 1) with 8 in *. change (8 * Z.of_nat 0) with 0 in *.
  rewrite Z.shiftr_0_r, shiftl_lor by lia. rewrite Z.shiftr_div_pow2 by lia. ulia.
Qed.

Lemma get_u32_be v rest : is_u32 v -> get_u32 (be 4 v ++ rest) = Ok (v, rest).
Proof.
  intros Hv. unfold get_u32. rewrite (get_loop_be _ _ _ _ 0); [| |done].
  - by rewrite (unbe_be 4) by exact Hv.
  - intros. by apply u32_small.
Qed.

Lemma get_u64_be v rest : is_u64 v -> get_u64 (be 8 v ++ rest) = Ok (v, rest).
Proof.
  intros Hv. unfold get_u64. rewrite (get_loop_be _ _ _ _ 0); [| |done].
  - by rewrite (unbe_be 8) by exact Hv.
  - intros. by apply u64_small.
Qed.

Lemma get_bytes_app bs rest n : n = lenZ bs -> get_bytes n (bs ++ rest) = Ok (bs, rest).
Proof.
  intros ->. unfold get_bytes. autorewrite with len. pose proof (lenZ_nonneg rest).
  split_if; [lia |]. unfold lenZ. rewrite Nat2Z.id, take_app_length, drop_app_length. done.
Qed.

(** A reader of fixed-size fields: given [n] bytes it does not fault and
    consumes exactly [n]. *)
Definition reads {A} (m : rd A) (n : Z) : Prop :=
  forall rest, n <= lenZ rest ->
    match m rest with
    | Fault => False
    | Reject => True
    | Ok (_, rest') => rest' = drop (Z.to_nat n) rest /\ lenZ rest' = lenZ rest - n
    end.

(** A writer that produces exactly [bs] whenever there is room for it. *)
Definition writes (w : wr) (bs : bytes) : Prop :=
  forall rest, lenZ bs <= lenZ rest -> w rest = Ok (bs, drop (length bs) rest).

Lemma reads_ret {A} (a : A) : reads (rd_ret a) 0.
Proof. intros rest _. simpl. rewrite drop_0. split; [done | lia]. Qed.

Lemma reads_bind {A B} (m : rd A) (k : A -> rd B) n1 n2 :
  0 <= n1 -> 0 <= n2 -> reads m n1 -> (forall a, reads (k a) n2) -> reads (rd_bind m k) (n1 + n2).
Proof.
  intros H1 H2 Hm Hk rest Hlen. unfold rd_bind. specialize (Hm rest ltac:(lia)).
  destruct (m rest) as [| | [a rest']]; simpl in *; [done .. |].
  destruct Hm as [-> Hl]. specialize (Hk a _ ltac:(rewrite Hl; lia)).
  destruct (k a _) as [| | [b rest'']]; [done .. |]. destruct Hk as [-> Hl2].
  rewrite Hl2, drop_drop. split; [f_equal; lia | lia].
Qed.

Lemma reads_u8 : reads get_u8 1.
Proof.
  intros [| b rest] Hlen; autorewrite with len in *; cbn; [lia |].
  split; [done | unfold lenZ; simpl length; lia].
Qed.

Lemma reads_loop wrap n out : reads (get_loop wrap n out) (Z.of_nat n).
Proof.
  revert out. induction n as [| n IH]; intros out; simpl get_loop; [apply reads_ret |].
  replace (Z.of_nat (S n)) with (1 + Z.of_nat n) by lia.
  apply reads_bind; [lia .. | apply reads_u8 | auto].
Qed.

Lemma reads_u16 : reads get_u16 2.
Proof.
  apply (reads_bind _ _ 1 1); [lia .. | apply reads_u8 | intros].
  apply (reads_bind _ _ 1 0); [lia .. | apply reads_u8 | intros; apply reads_ret].
Qed.

Lemma reads_u32 : reads get_u32 4.
Proof. apply reads_loop. Qed.

Lemma reads_u64 : reads get_u64 8.
Proof. apply reads_loop. Qed.

Lemma reads_bytes n : 0 <= n -> reads (get_bytes n) n.
Proof.
  intros Hn rest Hlen. unfold get_bytes. split_if; [lia |]. split; [done |].
  unfold lenZ in *. rewrite length_drop. lia.
Qed.

Lemma reads_array {A} (get : rd A) n k :
  0 <= k -> reads get k -> reads (get_array get n) (Z.of_nat n * k).
Proof.
  intros Hk Hget. induction n as [| n IH]; simpl get_array; [apply reads_ret |].
  replace (Z.of_nat (S n) * k) with (k + (Z.of_nat n * k + 0)) by lia.
  repeat (apply reads_bind; [lia .. | auto | intros]). apply reads_ret.
Qed.

Lemma writes_nop : writes wr_nop [].
Proof. intros rest _. unfold wr_nop. simpl. by rewrite drop_0. Qed.

Lemma writes_seq w1 w2 b1 b2 : writes w1 b1 -> writes w2 b2 -> writes (w1 ;;; w2) (b1 ++ b2).
Proof.
  intros H1 H2 rest Hlen. autorewrite with len in Hlen.
  pose proof (lenZ_nonneg b2). unfold wr_seq. rewrite H1 by lia. simpl.
  rewrite H2 by (unfold lenZ in *; rewrite length_drop; lia). simpl.
  by rewrite drop_drop, length_app.
Qed.

Lemma writes_u8 v : writes (put_u8 v) [u8 v].
Proof. intros [| b rest]; autorewrite with len; simpl; [lia | by rewrite drop_0]. Qed.

Lemma writes_loop n v : writes (put_loop n v) (be n v).
Proof.
  induction n as [| n IH]; [apply writes_nop |]. rewrite be_S.
  apply (writes_seq _ _ [_]); [apply writes_u8 | done].
Qed.

Lemma writes_u16 v : writes (put_u16 v) (be 2 v).
Proof.
  rewrite !be_S, Z.shiftr_0_r. apply (writes_seq _ _ [_] [_]); apply writes_u8.
Qed.

Lemma writes_u32 v : writes (put_u32 v) (be 4 v).
Proof. apply writes_loop. Qed.

Lemma writes_u64 v : writes (put_u64 v) (be 8 v).
Proof. apply writes_loop. Qed.

Lemma writes_bytes bs : writes (put_bytes bs) bs.
Proof. intros rest Hlen. unfold put_bytes. split_if; [lia | done]. Qed.

Lemma writes_array {A} (put : A -> wr) (enc : A -> bytes) xs :
  (forall x, writes (put x) (enc x)) -> writes (put_array put xs) (mjoin (enc <$> xs)).
Proof.
  intros Hput. induction xs as [| x xs IH]; simpl; [apply writes_nop |].
  by apply writes_seq.
Qed.

Create HintDb codec discriminated.
#[export] Hint Resolve reads_ret reads_u8 reads_u16 reads_u32 reads_u64 : codec.
#[export] Hint Resolve writes_nop writes_u8 writes_u16 writes_u32 writes_u64 writes_bytes : codec.

Lemma run_wr_writes w bs out :
  writes w bs -> lenZ bs <= lenZ out ->
  run_wr w out = Ok (bs ++ drop (length bs) out, lenZ bs).
Proof. intros Hw Hlen. unfold run_wr. by rewrite Hw. Qed.

(** ** The extension grammar *)

Definition wf_ext (e : Extension) : Prop :=
  is_u16 (ext_type e) /\ is_u16 (lenZ (ext_value e)) /\ Forall is_u8 (ext_value e).

Definition ext_bytes (e : Extension) : bytes :=
  be 2 (ext_type e) ++ be 2 (lenZ (ext_value e)) ++ ext_value e.

Definition ext_area (es : list Extension) : bytes := mjoin (ext_bytes <$> es).

(** An entry this version may skip: well formed and not critical. *)
Definition skippable (e : Extension) : Prop := wf_ext e /\ ext_type e < kExtensionCritical.

Lemma get_u16_pair a b rest :
  is_u8 a -> is_u8 b -> get_u16 (a :: b :: rest) = Ok (256 * a + b, rest).
Proof.
  intros Ha Hb. unfold get_u16, rd_bind, rd_ret. simpl. do 2 f_equal.
  unfold is_u8 in *. rewrite shiftl_lor by lia. rewrite u16_small; unfold is_u16; lia.
Qed.

Lemma be_2_pair a b : is_u8 a -> is_u8 b -> be 2 (256 * a + b) = [a; b].
Proof.
  intros Ha Hb. rewrite !be_S. change (8 * Z.of_nat 1) with 8. change (8 * Z.of_nat 0) with 0.
  rewrite Z.shiftr_0_r, Z.shiftr_div_pow2 by lia. repeat f_equal; ulia.
Qed.

Lemma critical_bit t : is_u16 t -> (Z.land t kExtensionCritical =? 0) = (t <? kExtensionCritical).
Proof.
  intros Ht. unfold is_u16 in Ht. change kExtensionCritical with (2 ^ 15).
  rewrite land_pow2_eqb, testbit_top by lia.
  rewrite Z.leb_antisym, negb_involutive. done.
Qed.

(** [next_extension] at the end of a prefix reads one entry of what follows. *)
Lemma next_extension_entry pre e rest :
  wf_ext e ->
  next_extension (pre ++ ext_bytes e ++ rest) (lenZ pre) =
  Ok (e, lenZ pre + lenZ (ext_bytes e)).
Proof.
  intros (Ht & Hl & Hv). unfold next_extension, ext_bytes.
  pose proof (lenZ_nonneg rest). pose proof (lenZ_nonneg pre).
  autorewrite with len. split_if; [unfold is_u16 in *; lia |].
  rewrite drop_pre_0, <- !app_assoc, get_u16_be by done. cbn [res_bind].
  rewrite drop_pre by lia. change (Z.to_nat 2) with (length (be 2 (ext_type e))).
  rewrite drop_app_length, get_u16_be by done. cbn [res_bind].
  split_if; [lia |]. unfold slice. rewrite drop_pre by lia. rewrite app_assoc.
  change (Z.to_nat 4) with (length (be 2 (ext_type e) ++ be 2 (lenZ (ext_value e)))).
  rewrite drop_app_length, take_all_lenZ. destruct e; simpl. do 2 f_equal. lia.
Qed.

(** Whatever [next_extension] accepts is such an entry. *)
Lemma next_extension_inv pre suf e off' :
  Forall is_u8 suf -> next_extension (pre ++ suf) (lenZ pre) = Ok (e, off') ->
  wf_ext e /\ exists rest, suf = ext_bytes e ++ rest /\ off' = lenZ pre + lenZ (ext_bytes e).
Proof.
  intros Hsuf. unfold next_extension. autorewrite with len. split_if; [done |].
  rewrite drop_pre_0.
  destruct suf as [| t0 [| t1 [| l0 [| l1 rest]]]]; try (unfold lenZ in *; simpl in *; lia).
  inversion_clear Hsuf as [| ?? H0 Hs1]. inversion_clear Hs1 as [| ?? H1 Hs2].
  inversion_clear Hs2 as [| ?? H2 Hs3]. inversion_clear Hs3 as [| ?? H3 Hr].
  rewrite get_u16_pair by done. cbn [res_bind].
  rewrite drop_pre by lia. change (Z.to_nat 2) with 2%nat. simpl drop.
  rewrite get_u16_pair by done. cbn [res_bind].
  autorewrite with len in *. unfold is_u8 in *. split_if; [done |]. intros [= <- <-].
  unfold slice. rewrite drop_pre by lia. change (Z.to_nat 4) with 4%nat. simpl drop. rewrite ?drop_0.
  assert (lenZ (take (Z.to_nat (256 * l0 + l1)) rest) = 256 * l0 + l1) as Hlen
    by (apply lenZ_take; lia).
  split.
  - unfold wf_ext, is_u16. simpl. rewrite Hlen. split_and!; try lia. by apply Forall_take.
  - exists (drop (Z.to_nat (256 * l0 + l1)) rest). unfold ext_bytes. simpl ext_type. simpl ext_value.
    rewrite Hlen, !be_2_pair by (unfold is_u8; lia). split.
    + simpl. by rewrite take_drop.
    + autorewrite with len. rewrite Hlen. lia.
Qed.

Lemma next_extension_no_fault area off : 0 <= off -> next_extension area off <> Fault.
Proof.
  intros Hoff. unfold next_extension. split_if; [done |].
  pose proof (reads_u16 (drop (Z.to_nat off) area)) as H1.
  pose proof (reads_u16 (drop (Z.to_nat (off + 2)) area)) as H2.
  unfold lenZ in H1, H2, Hif. rewrite length_drop in H1, H2.
  specialize (H1 ltac:(lia)). specialize (H2 ltac:(lia)).
  destruct (get_u16 (drop (Z.to_nat off) area)) as [| | [t r1]]; [done .. |]. simpl.
  destruct (get_u16 (drop (Z.to_nat (off + 2)) area)) as [| | [l r2]]; [done .. |]. simpl.
  by split_if.
Qed.

Lemma ext_bytes_pos e : 4 <= lenZ (ext_bytes e).
Proof. unfold ext_bytes. autorewrite with len. pose proof (lenZ_nonneg (ext_value e)). lia. Qed.

Lemma ext_area_cons e es : ext_area (e :: es) = ext_bytes e ++ ext_area es.
Proof. done. Qed.

Lemma lenZ_pos_not_nil {A} (l : list A) : 0 < lenZ l -> l <> [].
Proof. by intros ? ->. Qed.

(** The grammar is unambiguous: the first entry of an area is determined. *)
Lemma ext_area_head e rest es :
  wf_ext e -> Forall skippable es -> ext_bytes e ++ rest = ext_area es ->
  exists es', es = e :: es' /\ rest = ext_area es'.
Proof.
  intros Hwf Hes Harea. pose proof (ext_bytes_pos e) as Hpos. destruct es as [| e' es].
  - apply app_eq_nil in Harea as [Hnil _]. rewrite Hnil in Hpos. unfold lenZ in Hpos.
    simpl in Hpos. lia.
  - apply Forall_cons_1 in Hes as [[Hwf' _] _]. rewrite ext_area_cons in Harea.
    pose proof (next_extension_entry [] e rest Hwf) as N1. rewrite Harea in N1.
    rewrite next_extension_entry in N1 by done.
    injection N1 as -> _. apply app_inv_head in Harea. eauto.
Qed.

Lemma extensions_loop_correct fuel pre suf :
  Forall is_u8 suf -> (length suf < fuel)%nat ->
  exists b, extensions_loop fuel (pre ++ suf) (lenZ pre) = Ok b /\
  (b = true <-> exists es, suf = ext_area es /\ Forall skippable es).
Proof.
  revert pre suf. induction fuel as [| fuel IH]; intros pre suf Hb Hfuel; [lia |].
  simpl extensions_loop. autorewrite with len. split_if.
  2:{ assert (suf = []) as -> by (destruct suf; [done | unfold lenZ in *; simpl in *; lia]).
      eexists. split; [done |]. split; [| done]. intros _. by exists []. }
  destruct (next_extension (pre ++ suf) (lenZ pre)) as [| | [e off']] eqn:E.
  - exfalso. eapply next_extension_no_fault, E. apply lenZ_nonneg.
  - eexists. split; [done |]. split; [done |]. intros ([| e es] & -> & Hes).
    + unfold lenZ in *. simpl in *. lia.
    + apply Forall_cons_1 in Hes as [[Hwf _] _]. rewrite ext_area_cons in E.
      by rewrite next_extension_entry in E.
  - apply next_extension_inv in E as (Hwf & rest & -> & ->); [| done].
    pose proof Hwf as (Ht & _). rewrite critical_bit by done.
    apply Forall_app in Hb as [Hbe Hbr].
    destruct (Z.ltb_spec (ext_type e) kExtensionCritical) as [Hcrit | Hcrit]; simpl.
    + pose proof (ext_bytes_pos e) as Hpos. rewrite length_app in Hfuel.
      destruct (IH (pre ++ ext_bytes e) rest Hbr) as (b & Hloop & Hiff);
        [unfold lenZ in Hpos; lia |].
      exists b. rewrite <- app_assoc, lenZ_app in Hloop. split; [done |]. rewrite Hiff. split.
      * intros (es & -> & Hes). exists (e :: es). split; [done |].
        constructor; [by split | done].
      * intros (es & Harea & Hes).
        destruct (ext_area_head _ _ _ Hwf Hes Harea) as (es' & -> & ->).
        apply Forall_cons_1 in Hes as [_ Hes]. eauto.
    + exists false. split; [done |]. split; [done |]. intros (es & Harea & Hes).
      destruct (ext_area_head _ _ _ Hwf Hes Harea) as (es' & -> & ->).
      apply Forall_cons_1 in Hes as [[_ Hlt] _]. lia.
Qed.

Lemma extensions_acceptable_correct area :
  Forall is_u8 area ->
  exists b, extensions_acceptable area = Ok b /\
  (b = true <-> exists es, area = ext_area es /\ Forall skippable es).
Proof.
  intros Hb. apply (extensions_loop_correct _ [] area Hb). lia.
Qed.

Lemma extensions_acceptable_area es :
  Forall skippable es -> extensions_acceptable (ext_area es) = Ok true.
Proof.
  intros Hes. destruct (extensions_acceptable_correct (ext_area es)) as (b & -> & Hb).
  - induction Hes as [| e es [(_ & _ & Hv) _] Hes IH]; [constructor |].
    rewrite ext_area_cons. unfold ext_bytes. rewrite !Forall_app. auto with fuse.
  - f_equal. apply Hb. eauto.
Qed.

Lemma append_extension_spec area used t v :
  0 <= used -> wf_ext (mkExtension t v) -> used + 4 + lenZ v <= lenZ area ->
  append_extension area used t v =
  Ok (take (Z.to_nat used) area ++ ext_bytes (mkExtension t v) ++
      drop (Z.to_nat (used + 4 + lenZ v)) area, used + 4 + lenZ v).
Proof.
  intros Hu (Ht & Hl & Hv) Hfit. pose proof (lenZ_nonneg v). unfold append_extension.
  split_if; [lia |]. simpl in *.
  assert (writes (put_u16 t ;;; put_u16 (lenZ v) ;;; put_array put_u8 v)
            (ext_bytes (mkExtension t v))) as Hw.
  { apply writes_seq; [auto with codec |]. apply writes_seq; [auto with codec |].
    replace v with (mjoin ((fun b => [u8 b]) <$> v)) at 2;
      [apply writes_array; auto with codec |].
    clear - Hv. induction Hv as [| b v Hb Hv IH]; [done |]. simpl.
    rewrite u8_small by done. f_equal. exact IH. }
  rewrite Hw.
  - cbn [res_bind]. rewrite drop_drop.
    replace (Z.to_nat used + length (ext_bytes (mkExtension t v)))%nat
      with (Z.to_nat (used + 4 + lenZ v)); [done |].
    unfold ext_bytes. rewrite !length_app, !be_length. unfold lenZ. simpl ext_value. lia.
  - rewrite lenZ_drop by lia. unfold ext_bytes. autorewrite with len. simpl. lia.
Qed.

(** ** Codec automation *)

Lemma bind_ret {A B} (a : A) (k : A -> rd B) rest : rd_bind (rd_ret a) k rest = k a rest.
Proof. done. Qed.

Lemma bind_u8 {B} v (k : Z -> rd B) rest : rd_bind get_u8 k (v :: rest) = k v rest.
Proof. done. Qed.

Lemma bind_u8_wr {B} v (k : Z -> rd B) rest :
  is_u8 v -> rd_bind get_u8 k ([u8 v] ++ rest) = k v rest.
Proof. intros. simpl app. rewrite bind_u8. by rewrite u8_small. Qed.

Lemma bind_u16 {B} v (k : Z -> rd B) rest :
  is_u16 v -> rd_bind get_u16 k (be 2 v ++ rest) = k v rest.
Proof. intros. unfold rd_bind. by rewrite get_u16_be. Qed.

Lemma bind_u32 {B} v (k : Z -> rd B) rest :
  is_u32 v -> rd_bind get_u32 k (be 4 v ++ rest) = k v rest.
Proof. intros. unfold rd_bind. by rewrite get_u32_be. Qed.

Lemma bind_u64 {B} v (k : Z -> rd B) rest :
  is_u64 v -> rd_bind get_u64 k (be 8 v ++ rest) = k v rest.
Proof. intros. unfold rd_bind. by rewrite get_u64_be. Qed.

Lemma bind_bytes {B} n bs (k : bytes -> rd B) rest :
  n = lenZ bs -> rd_bind (get_bytes n) k (bs ++ rest) = k bs rest.
Proof. intros. unfold rd_bind. by rewrite get_bytes_app. Qed.

Lemma get_array_wire {A} (get : rd A) (enc : A -> bytes) xs rest :
  (forall x rest, x ∈ xs -> get (enc x ++ rest) = Ok (x, rest)) ->
  get_array get (length xs) (mjoin (enc <$> xs) ++ rest) = Ok (xs, rest).
Proof.
  induction xs as [| x xs IH]; intros Hget; [done |].
  cbn [get_array length]. unfold rd_bind.
  change (mjoin (enc <$> x :: xs)) with (enc x ++ mjoin (enc <$> xs)).
  rewrite <- app_assoc, Hget by left. cbn [res_bind].
  rewrite IH by (intros; apply Hget; by right). done.
Qed.

Lemma bind_array {A B} (get : rd A) (enc : A -> bytes) n xs (k : list A -> rd B) rest :
  n = length xs -> (forall x rest, x ∈ xs -> get (enc x ++ rest) = Ok (x, rest)) ->
  rd_bind (get_array get n) k (mjoin (enc <$> xs) ++ rest) = k xs rest.
Proof. intros -> Hget. unfold rd_bind. by rewrite get_array_wire. Qed.

Lemma get_u64_each xs : Forall is_u64 xs ->
  forall x rest, x ∈ xs -> get_u64 (be 8 x ++ rest) = Ok (x, rest).
Proof. intros Hxs x rest Hx. apply get_u64_be. rewrite list.Forall_forall in Hxs. auto. Qed.

Lemma lenZ_array {A} (enc : A -> bytes) xs k :
  (forall x, lenZ (enc x) = k) -> lenZ (mjoin (enc <$> xs)) = lenZ xs * k.
Proof.
  intros Hk. induction xs as [| x xs IH]; [done |].
  change (mjoin (enc <$> x :: xs)) with (enc x ++ mjoin (enc <$> xs)).
  autorewrite with len. rewrite IH, Hk. lia.
Qed.

(** A prefix of a longer byte string is a truncated datagram. *)
Lemma reads_run {A} (m : rd A) n rest :
  reads m n -> n <= lenZ rest -> res_bind (m rest) (fun '(a, _) => Ok a) <> Fault.
Proof.
  intros Hm Hn. specialize (Hm rest Hn). by destruct (m rest) as [| | [a r]].
Qed.

(** Discharges [reads] goals field by field. *)
Ltac solve_reads :=
  lazymatch goal with
  | |- reads (rd_bind _ _) _ => eapply reads_bind; [| | solve_reads | intros; solve_reads]
  | |- reads (get_array _ _) _ => eapply reads_array; [| solve_reads]
  | |- reads (get_bytes _) _ => eapply reads_bytes
  | |- reads _ _ => solve [eauto with codec]
  | |- _ => idtac
  end.

(** Discharges [writes] goals field by field. *)
Ltac solve_writes :=
  lazymatch goal with
  | |- writes (wr_seq _ _) _ => apply writes_seq; [solve_writes | solve_writes]
  | |- writes (put_array _ _) _ => apply writes_array; intros; solve_writes
  | |- writes _ _ => solve [eauto with codec]
  end.

(** ** Reading backwards: what an accepted field was *)

Lemma rd_bind_inv {A B} (m : rd A) (k : A -> rd B) rest b rest'' :
  rd_bind m k rest = Ok (b, rest'') ->
  exists a rest', m rest = Ok (a, rest') /\ k a rest' = Ok (b, rest'').
Proof. unfold rd_bind. destruct (m rest) as [| | [a r]]; simpl; [done .. | eauto]. Qed.

Lemma rd_ret_inv {A} (a b : A) rest rest' : rd_ret a rest = Ok (b, rest') -> a = b /\ rest = rest'.
Proof. by intros [= -> ->]. Qed.

(** Every byte string is the big-endian form of its value. *)
Lemma unbe_app bs b : unbe (bs ++ [b]) = 256 * unbe bs + b.
Proof. unfold unbe. by rewrite foldl_app. Qed.

Lemma unbe_range bs : Forall is_u8 bs -> 0 <= unbe bs < 2 ^ (8 * lenZ bs).
Proof.
  induction bs as [| b bs IH] using rev_ind; intros Hbs; [done |].
  apply Forall_app in Hbs as [Hbs Hb]. apply list.Forall_cons in Hb as [Hb _].
  rewrite unbe_app. specialize (IH Hbs). unfold is_u8 in Hb. rewrite lenZ_app.
  change (lenZ [b]) with 1. replace (8 * (lenZ bs + 1)) with (8 * lenZ bs + 8) by lia.
  pose proof (lenZ_nonneg bs). rewrite Z.pow_add_r by lia. lia.
Qed.

Lemma be_snoc n v : be (S n) v = be n (v / 256) ++ [u8 v].
Proof.
  revert v. induction n as [| n IH]; intros v.
  - rewrite !be_S. simpl. by rewrite Z.shiftr_0_r.
  - rewrite be_S, IH, (be_S n (v / 256)). rewrite <- app_comm_cons. f_equal.
    rewrite !Z.shiftr_div_pow2, Z.div_div by (try apply Z.pow_pos_nonneg; lia).
    replace (8 * Z.of_nat (S n)) with (8 + 8 * Z.of_nat n) by lia. by rewrite Z.pow_add_r by lia.
Qed.

Lemma be_unbe bs n : n = length bs -> Forall is_u8 bs -> be n (unbe bs) = bs.
Proof.
  intros ->. induction bs as [| b bs IH] using rev_ind; intros Hbs; [done |].
  apply Forall_app in Hbs as [Hbs Hb]. apply list.Forall_cons in Hb as [Hb _].
  rewrite length_app, Nat.add_1_r, be_snoc, unbe_app. unfold is_u8 in Hb.
  replace ((256 * unbe bs + b) / 256) with (unbe bs) by mlia. rewrite IH by done.
  do 2 f_equal. ulia.
Qed.

Lemma split_bytes (bs : bytes) n :
  0 <= n <= lenZ bs -> exists b1 b2, bs = b1 ++ b2 /\ lenZ b1 = n.
Proof.
  intros. exists (take (Z.to_nat n) bs), (drop (Z.to_nat n) bs). rewrite take_drop.
  split; [done | by apply lenZ_take].
Qed.

(** The shape of an accepted multi-byte field, given that the reader returns a
    big-endian value it is offered. *)
Lemma get_be_inv (get : rd Z) n rest v rest' :
  (forall v rest, 0 <= v < 2 ^ (8 * Z.of_nat n) -> get (be n v ++ rest) = Ok (v, rest)) ->
  (forall r, lenZ r < Z.of_nat n -> get r = Fault) ->
  Forall is_u8 rest -> get rest = Ok (v, rest') ->
  rest = be n v ++ rest' /\ 0 <= v < 2 ^ (8 * Z.of_nat n) /\ Forall is_u8 rest'.
Proof.
  intros Hget Hshort Hb E. destruct (Z.lt_ge_cases (lenZ rest) (Z.of_nat n)) as [Hlt | Hge].
  - by rewrite Hshort in E.
  - destruct (split_bytes rest (Z.of_nat n)) as (b1 & b2 & -> & Hl); [lia |].
    apply Forall_app in Hb as [Hb1 Hb2]. pose proof (unbe_range _ Hb1) as Hr. rewrite Hl in Hr.
    rewrite <- (be_unbe b1 n) in E by (try done; unfold lenZ in Hl; lia).
    rewrite Hget in E by done. injection E as <- <-.
    rewrite be_unbe by (try done; unfold lenZ in Hl; lia). done.
Qed.

Lemma get_loop_short wrap n out r : lenZ r < Z.of_nat n -> get_loop wrap n out r = Fault.
Proof.
  revert out r. induction n as [| n IH]; intros out r Hr; [pose proof (lenZ_nonneg r); lia |].
  destruct r as [| b r]; [done |]. rewrite lenZ_cons in Hr. simpl. unfold rd_bind. simpl.
  apply IH. lia.
Qed.

Lemma get_u8_inv rest v rest' :
  Forall is_u8 rest -> get_u8 rest = Ok (v, rest') -> rest = [u8 v] ++ rest' /\ is_u8 v /\ Forall is_u8 rest'.
Proof.
  intros Hb. destruct rest as [| b rest]; [done |]. intros [= -> ->].
  apply list.Forall_cons in Hb as [Hb Hr]. by rewrite u8_small.
Qed.

Lemma get_u16_inv rest v rest' :
  Forall is_u8 rest -> get_u16 rest = Ok (v, rest') -> rest = be 2 v ++ rest' /\ is_u16 v /\ Forall is_u8 rest'.
Proof.
  apply (get_be_inv _ 2); [intros; by apply get_u16_be |].
  intros [| a [| b r]]; try done. intros H. rewrite !lenZ_cons in H. pose proof (lenZ_nonneg r). lia.
Qed.

Lemma get_u32_inv rest v rest' :
  Forall is_u8 rest -> get_u32 rest = Ok (v, rest') -> rest = be 4 v ++ rest' /\ is_u32 v /\ Forall is_u8 rest'.
Proof. apply (get_be_inv _ 4); intros; [by apply get_u32_be | by apply get_loop_short]. Qed.

Lemma get_u64_inv rest v rest' :
  Forall is_u8 rest -> get_u64 rest = Ok (v, rest') -> rest = be 8 v ++ rest' /\ is_u64 v /\ Forall is_u8 rest'.
Proof. apply (get_be_inv _ 8); intros; [by apply get_u64_be | by apply get_loop_short]. Qed.

Lemma get_bytes_inv n rest bs rest' :
  0 <= n -> Forall is_u8 rest -> get_bytes n rest = Ok (bs, rest') ->
  rest = bs ++ rest' /\ lenZ bs = n /\ Forall is_u8 bs /\ Forall is_u8 rest'.
Proof.
  intros Hn Hb. unfold get_bytes. split_if; [done |]. intros [= <- <-].
  rewrite take_drop, lenZ_take by lia. split_and!; [done | done | by apply Forall_take | by apply Forall_drop].
Qed.

Lemma get_array_inv {A} (get : rd A) (enc : A -> bytes) (P : A -> Prop) n rest xs rest' :
  (forall rest x rest', Forall is_u8 rest -> get rest = Ok (x, rest') ->
     rest = enc x ++ rest' /\ P x /\ Forall is_u8 rest') ->
  Forall is_u8 rest -> get_array get n rest = Ok (xs, rest') ->
  rest = mjoin (enc <$> xs) ++ rest' /\ lenZ xs = Z.of_nat n /\ Forall P xs /\ Forall is_u8 rest'.
Proof.
  intros Hget. revert rest xs. induction n as [| n IH]; intros rest xs Hb E.
  - apply rd_ret_inv in E as [<- <-]. done.
  - cbn [get_array] in E. apply rd_bind_inv in E as (x & r1 & E1 & E).
    apply rd_bind_inv in E as (ys & r2 & E2 & E). apply rd_ret_inv in E as [<- <-].
    apply Hget in E1 as (-> & Hx & Hb1); [| done]. apply IH in E2 as (-> & Hl & Hys & Hb2); [| done].
    change (mjoin (enc <$> x :: ys)) with (enc x ++ mjoin (enc <$> ys)).
    rewrite <- app_assoc. split_and!; [done | rewrite lenZ_cons; lia | by constructor | done].
Qed.

(** An array filled from the front: its first elements are new, the others those
    it had. *)
Lemma filled_array {A} (P : A -> Prop) (xs d : list A) n :
  lenZ xs = n -> n <= lenZ d -> Forall P xs -> Forall P d ->
  let ys := xs ++ drop (Z.to_nat n) d in
  lenZ ys = lenZ d /\ Forall P ys /\ take (Z.to_nat n) ys = xs /\
  drop (Z.to_nat n) ys = drop (Z.to_nat n) d.
Proof.
  intros <- Hn Hxs Hd. cbn zeta. pose proof (lenZ_nonneg xs). rewrite lenZ_app, take_all_lenZ, drop_pre_0, lenZ_drop by lia.
  split_and!; [lia | | done ..]. apply Forall_app. auto using Forall_drop.
Qed.

(** Opens an accepted sequence of fields. *)
Ltac inv_fields :=
  repeat match goal with
  | H : rd_bind _ _ _ = Ok _ |- _ =>
      let a := fresh "v" in let r := fresh "r" in let E := fresh "E" in
      apply rd_bind_inv in H as (a & r & E & H)
  | H : rd_ret _ _ = Ok _ |- _ => apply rd_ret_inv in H as [? ?]; simplify_eq
  | H : get_u8 _ = Ok _ |- _ => apply get_u8_inv in H as (? & ? & ?); [subst | assumption]
  | H : get_u16 _ = Ok _ |- _ => apply get_u16_inv in H as (? & ? & ?); [subst | assumption]
  | H : get_u32 _ = Ok _ |- _ => apply get_u32_inv in H as (? & ? & ?); [subst | assumption]
  | H : get_u64 _ = Ok _ |- _ => apply get_u64_inv in H as (? & ? & ?); [subst | assumption]
  | H : get_array get_u64 _ _ = Ok _ |- _ =>
      apply (get_array_inv _ (be 8) is_u64) in H as (? & ? & ? & ?);
      [subst | intros; by apply get_u64_inv | assumption]
  | H : get_bytes _ _ = Ok _ |- _ =>
      apply get_bytes_inv in H as (? & ? & ? & ?); [subst | solve [lia | done] | assumption]
  end.

(** ** What a message promises to the code that sends and receives it *)

Class WireCodec (M : Type) := {
  wf_msg : M -> Prop;
  wire : M -> bytes;
  encode : M -> bytes -> res (bytes * Z);
  decode : bytes -> res M;
}.

Class CodecLaws (M : Type) `{WireCodec M} := {
  encode_wire : forall m out, wf_msg m -> lenZ (wire m) <= lenZ out ->
    encode m out = Ok (wire m ++ drop (length (wire m)) out, lenZ (wire m));
  encode_too_small : forall m out, wf_msg m -> lenZ out < lenZ (wire m) ->
    encode m out = Ok (out, 0);
  decode_wire : forall m tail, wf_msg m -> decode (wire m ++ tail) = Ok m;
  decode_sound : forall inp m, Forall is_u8 inp -> decode inp = Ok m ->
    wf_msg m /\ exists tail, inp = wire m ++ tail;
  decode_no_fault : forall inp, Forall is_u8 inp -> decode inp <> Fault;
  decode_truncated : forall m k, wf_msg m -> 0 <= k < lenZ (wire m) ->
    decode (take (Z.to_nat k) (wire m)) = Reject;
}.

(** Encoding into any large enough buffer and decoding the bytes sent, with
    anything appended behind them, gives the message back. *)
Definition roundtrips (M : Type) `{WireCodec M} : Prop :=
  forall m out tail, wf_msg m -> lenZ (wire m) <= lenZ out ->
  exists buf n, encode m out = Ok (buf, n) /\ n = lenZ (wire m) /\ lenZ buf = lenZ out /\
    decode (take (Z.to_nat n) buf ++ tail) = Ok m.

Lemma codec_roundtrips (M : Type) `{CodecLaws M} : roundtrips M.
Proof.
  intros m out tail Hwf Hroom. eexists _, _. split; [by apply encode_wire |].
  split; [done |]. split.
  - rewrite lenZ_app. unfold lenZ in *. rewrite length_drop. lia.
  - rewrite take_all_lenZ. by apply decode_wire.
Qed.

(** The decoder accepts exactly the datagrams that start with a message's wire
    layout, and gives that message. *)
Definition decodes_exactly (M : Type) `{WireCodec M} : Prop :=
  forall inp m, Forall is_u8 inp ->
  (decode inp = Ok m <-> wf_msg m /\ exists tail, inp = wire m ++ tail).

Lemma codec_decodes_exactly (M : Type) `{CodecLaws M} : decodes_exactly M.
Proof.
  intros inp m Hb. split; [by apply decode_sound |].
  intros (Hwf & tail & ->). by apply decode_wire.
Qed.

(** The decoder stays inside the datagram whatever the bytes are. *)
Definition decodes_safely (M : Type) `{WireCodec M} : Prop :=
  forall inp, Forall is_u8 inp -> decode inp <> Fault.

(** The encoder stays inside the caller's buffer, keeps its length, leaves what
    is behind the message alone, and refuses a buffer that is too small. *)
Definition encodes_safely (M : Type) `{WireCodec M} : Prop :=
  forall m out, wf_msg m ->
  exists buf n, encode m out = Ok (buf, n) /\ lenZ buf = lenZ out /\ 0 <= n <= lenZ out /\
    drop (Z.to_nat n) buf = drop (Z.to_nat n) out /\
    (n = if lenZ out <? lenZ (wire m) then 0 else lenZ (wire m)).

Lemma codec_encodes_safely (M : Type) `{CodecLaws M} : encodes_safely M.
Proof.
  intros m out Hwf. pose proof (lenZ_nonneg out). pose proof (lenZ_nonneg (wire m)).
  destruct (Z.ltb_spec (lenZ out) (lenZ (wire m))).
  - exists out, 0. rewrite encode_too_small by done. split_and!; done || lia.
  - eexists _, _. split; [by apply encode_wire |]. split_and!; [| lia .. | | done].
    + rewrite lenZ_app. unfold lenZ in *. rewrite length_drop. lia.
    + rewrite drop_pre_0. unfold lenZ. by rewrite Nat2Z.id.
Qed.

(** A datagram cut short anywhere is refused. *)
Definition rejects_truncation (M : Type) `{WireCodec M} : Prop :=
  forall m k, wf_msg m -> 0 <= k < lenZ (wire m) -> decode (take (Z.to_nat k) (wire m)) = Reject.

(** ** The extension area *)

Lemma ext_area_snoc es e : ext_area (es ++ [e]) = ext_area es ++ ext_bytes e.
Proof. unfold ext_area. rewrite fmap_app, join_app. simpl. by rewrite app_nil_r. Qed.

Lemma lenZ_ext_bytes e : lenZ (ext_bytes e) = 4 + lenZ (ext_value e).
Proof. unfold ext_bytes. autorewrite with len. lia. Qed.

(** [extensions_acceptable] terminates inside the area on any bytes, and
    accepts it exactly when it is a sequence of type-length-value extensions
    none of which is an unknown critical one. *)
Theorem extension_area_acceptance area :
  Forall is_u8 area ->
  exists b, extensions_acceptable area = Ok b /\
  (b = true <-> exists es, area = ext_area es /\ Forall skippable es).
Proof. apply extensions_acceptable_correct. Qed.

Lemma extension_area_acceptance_witness :
  exists b, extensions_acceptable [0; 9; 0; 1; 77] = Ok b /\
  (b = true <-> exists es, [0; 9; 0; 1; 77] = ext_area es /\ Forall skippable es).
Proof. apply (extension_area_acceptance [0; 9; 0; 1; 77]). all_in_range. Defined.

(** Extensions appended with [append_extension] behind an acceptable area are
    read back in order: the area grows by exactly the new entry, stays inside
    its buffer, and a peer of this version accepts it. *)
Theorem append_extension_acceptable buf es t v :
  Forall skippable es -> skippable (mkExtension t v) ->
  take (Z.to_nat (lenZ (ext_area es))) buf = ext_area es ->
  lenZ (ext_area es) + 4 + lenZ v <= lenZ buf ->
  exists buf' used', append_extension buf (lenZ (ext_area es)) t v = Ok (buf', used') /\
    lenZ buf' = lenZ buf /\
    take (Z.to_nat used') buf' = ext_area (es ++ [mkExtension t v]) /\
    extensions_acceptable (take (Z.to_nat used') buf') = Ok true.
Proof.
  intros Hes He Htake Hfit. pose proof (lenZ_nonneg (ext_area es)). pose proof (lenZ_nonneg v).
  eexists _, _. split; [apply append_extension_spec; [lia | by apply He | lia] |].
  rewrite Htake, app_assoc, <- ext_area_snoc.
  assert (lenZ (ext_area es) + 4 + lenZ v = lenZ (ext_area (es ++ [mkExtension t v]))) as ->
    by (rewrite ext_area_snoc, lenZ_app, lenZ_ext_bytes; simpl; lia).
  rewrite take_all_lenZ. rewrite lenZ_app.
  assert (lenZ (ext_area (es ++ [mkExtension t v])) <= lenZ buf)
    by (rewrite ext_area_snoc, lenZ_app, lenZ_ext_bytes; simpl; lia).
  rewrite lenZ_drop by (split; [apply lenZ_nonneg | done]).
  split_and!; [lia | done |]. apply extensions_acceptable_area, Forall_app. auto.
Qed.

Lemma append_extension_acceptable_witness :
  exists buf' used', append_extension (replicate 8 0) 0 9 [77] = Ok (buf', used') /\
    lenZ buf' = 8 /\ take (Z.to_nat used') buf' = ext_area [mkExtension 9 [77]] /\
    extensions_acceptable (take (Z.to_nat used') buf') = Ok true.
Proof.
  apply (append_extension_acceptable (replicate 8 0) [] 9 [77]); [constructor | | done | done].
  split; [| done]. split_and!; [done | done |]. all_in_range.
Defined.
