(* ===== verification/Control.v ===== *)
(** * Control messages (include/fuse/proto/control.hpp, src/proto/control.cpp)

    The nine control datagrams with their encoders and decoders, the wire
    layout of each as an independent specification ([*_wire]), and the
    theorems that relate them.  An encoder takes the caller's buffer (its
    length is [out_cap]) and gives back the buffer and the length it returns;
    a decoder of a message that holds an array takes the struct it fills, since
    array elements past the received count keep their old value. *)

From S2P Require Import Prelude Wire.

(** ** Message structs *)

Record Heartbeat := mkHeartbeat {
  hb_stream_id : Z;
  hb_highest_seq_no : Z;
}.

Record StreamStart := mkStreamStart {
  ss_stream_id : Z;
  ss_total_blocks : Z;
  ss_block_size : Z;
  ss_total_bytes : Z;
  ss_session_salt : bytes;          (* uint8_t[16] *)
  ss_nonce : Z;
  ss_stream_base_offset : Z;
  ss_file_total_bytes : Z;
  ss_file_id : Z;
  ss_token : Z;
  ss_ext_len : Z;
  ss_ext : bytes;                   (* uint8_t[kMaxExtensionBytes] *)
}.

Record Retry := mkRetry {
  rt_stream_id : Z;
  rt_nonce : Z;
  rt_token : Z;
}.

Record PathProbe := mkPathProbe {
  pp_stream_id : Z;
  pp_nonce : Z;
  pp_challenge : Z;
}.

Definition kRwndUnlimited : Z := 2 ^ 32 - 1.

Record Ack := mkAck {
  ack_stream_id : Z;
  ack_base_seq_no : Z;
  ack_received_bitmask : list Z;    (* uint64_t[kMaskWords] *)
  ack_echoed_send_time : Z;
  ack_nonce : Z;
  ack_rwnd : Z;
}.

Record Nack := mkNack {
  nack_stream_id : Z;
  nack_count : Z;
  nack_missing : list Z;            (* uint64_t[kMaxWindow] *)
}.

Definition kStreamCloseFinished : Z := 0.
Definition kStreamCloseAborted : Z := 1.
Definition kStreamCloseAuthFailed : Z := 2.

Record StreamClose := mkStreamClose {
  sc_stream_id : Z;
  sc_nonce : Z;
  sc_reason : Z;
}.

Definition kResumeFlagResumed : Z := 1.
Definition kMaxResumeRangesPerMsg : Z := 64.

Record ResumeRange := mkResumeRange {
  rr_offset : Z;
  rr_length : Z;
}.

Record ResumeRanges := mkResumeRanges {
  rrs_stream_id : Z;
  rrs_nonce : Z;
  rrs_flags : Z;
  rrs_part : Z;
  rrs_parts : Z;
  rrs_count : Z;
  rrs_ranges : list ResumeRange;    (* ResumeRange[kMaxResumeRangesPerMsg] *)
}.

Definition kDigestLen : Z := 32.

Record DigestMessage := mkDigestMessage {
  dm_stream_id : Z;
  dm_nonce : Z;
  dm_digest : bytes;                (* uint8_t[kDigestLen] *)
}.

Definition kMaxAuxDatagramSize : Z := kOuterHeaderSize + 2 + 2 + kMaxWindow * 8.

(** ** Encoders and decoders *)

Definition put_outer (type : MsgType.MsgType) : wr :=
  put_u8 kProtocolVersion ;;; put_u8 (MsgType.code type).

(** The datagram past its outer header; [Reject] on a version, type or length
    mismatch. *)
Definition check_outer (inp : bytes) (expected : MsgType.MsgType) : res bytes :=
  if lenZ inp <? kOuterHeaderSize then Reject
  else
    match nthZ inp 0, nthZ inp 1 with
    | Some v, Some t =>
        if negb (v =? kProtocolVersion) then Reject
        else if negb (t =? MsgType.code expected) then Reject
        else Ok (drop (Z.to_nat kOuterHeaderSize) inp)
    | _, _ => Fault
    end.

(** Reads the fields behind the outer header. *)
Definition run_rd {A} (m : rd A) (rest : bytes) : res A :=
  res_bind (m rest) (fun '(a, _) => Ok a).

Definition encode_heartbeat (hb : Heartbeat) (out : bytes) : res (bytes * Z) :=
  let total := kOuterHeaderSize + 2 + 8 in
  if lenZ out <? total then Ok (out, 0)
  else
    run_wr (put_outer MsgType.Heartbeat ;;;
            put_u16 (hb_stream_id hb) ;;;
            put_u64 (hb_highest_seq_no hb)) out.

Definition decode_heartbeat (inp : bytes) : res Heartbeat :=
  res_bind (check_outer inp MsgType.Heartbeat) (fun rest =>
  if lenZ inp <? kOuterHeaderSize + 2 + 8 then Reject
  else
    run_rd (sid <~ get_u16 ;;
            seq <~ get_u64 ;;
            rd_ret (mkHeartbeat sid seq)) rest).

Definition kStreamStartFixed : Z :=
  kOuterHeaderSize + 2 + 8 + 2 + 8 + 16 + 8 + 8 + 8 + 8 + 8.

Definition encode_stream_start (ss : StreamStart) (out : bytes) : res (bytes * Z) :=
  if kMaxExtensionBytes <? ss_ext_len ss then Ok (out, 0)
  else
    let total := kStreamStartFixed + 2 + ss_ext_len ss in
    if lenZ out <? total then Ok (out, 0)
    else
      run_wr (put_outer MsgType.StreamStart ;;;
              put_u16 (ss_stream_id ss) ;;;
              put_u64 (ss_total_blocks ss) ;;;
              put_u16 (ss_block_size ss) ;;;
              put_u64 (ss_total_bytes ss) ;;;
              put_bytes (ss_session_salt ss) ;;;
              put_u64 (ss_nonce ss) ;;;
              put_u64 (ss_stream_base_offset ss) ;;;
              put_u64 (ss_file_total_bytes ss) ;;;
              put_u64 (ss_file_id ss) ;;;
              put_u64 (ss_token ss) ;;;
              put_u16 (ss_ext_len ss) ;;;
              put_bytes (take (Z.to_nat (ss_ext_len ss)) (ss_ext ss))) out.

Definition decode_stream_start (inp : bytes) (ss0 : StreamStart) : res StreamStart :=
  res_bind (check_outer inp MsgType.StreamStart) (fun rest =>
  if lenZ inp <? kStreamStartFixed + 2 then Reject
  else
    res_bind
      ((sid <~ get_u16 ;;
        blocks <~ get_u64 ;;
        bsize <~ get_u16 ;;
        tbytes <~ get_u64 ;;
        salt <~ get_bytes 16 ;;
        nonce <~ get_u64 ;;
        base <~ get_u64 ;;
        ftotal <~ get_u64 ;;
        fid <~ get_u64 ;;
        token <~ get_u64 ;;
        ext_len <~ get_u16 ;;
        rd_ret (fun ext => mkStreamStart sid blocks bsize tbytes salt nonce base ftotal fid
                                         token ext_len ext, ext_len)) rest)
      (fun '((mk, ext_len), tail) =>
        if (kMaxExtensionBytes <? ext_len) || (lenZ tail <? ext_len) then Reject
        else
          res_bind (extensions_acceptable (take (Z.to_nat ext_len) tail)) (fun acceptable =>
          if negb acceptable then Reject
          else
            run_rd (ext <~ get_bytes ext_len ;;
                    rd_ret (mk (ext ++ drop (Z.to_nat ext_len) (ss_ext ss0)))) tail))).

Definition kAckSize : Z := kOuterHeaderSize + 2 + 8 + kMaskWords * 8 + 8 + 8 + 4.

Definition encode_ack (ack : Ack) (out : bytes) : res (bytes * Z) :=
  let total := kAckSize in
  if lenZ out <? total then Ok (out, 0)
  else
    run_wr (put_outer MsgType.Ack ;;;
            put_u16 (ack_stream_id ack) ;;;
            put_u64 (ack_base_seq_no ack) ;;;
            put_array put_u64 (ack_received_bitmask ack) ;;;
            put_u64 (ack_echoed_send_time ack) ;;;
            put_u64 (ack_nonce ack) ;;;
            put_u32 (ack_rwnd ack)) out.

Definition decode_ack (inp : bytes) : res Ack :=
  res_bind (check_outer inp MsgType.Ack) (fun rest =>
  if lenZ inp <? kAckSize then Reject
  else
    run_rd (sid <~ get_u16 ;;
            base <~ get_u64 ;;
            mask <~ get_array get_u64 (Z.to_nat kMaskWords) ;;
            echoed <~ get_u64 ;;
            nonce <~ get_u64 ;;
            rwnd <~ get_u32 ;;
            rd_ret (mkAck sid base mask echoed nonce rwnd)) rest).

Definition encode_nack (nack : Nack) (out : bytes) : res (bytes * Z) :=
  if kMaxWindow <? nack_count nack then Ok (out, 0)
  else
    let total := kOuterHeaderSize + 2 + 2 + nack_count nack * 8 in
    if lenZ out <? total then Ok (out, 0)
    else
      run_wr (put_outer MsgType.Nack ;;;
              put_u16 (nack_stream_id nack) ;;;
              put_u16 (nack_count nack) ;;;
              put_array put_u64 (take (Z.to_nat (nack_count nack)) (nack_missing nack))) out.

Definition decode_nack (inp : bytes) (nack0 : Nack) : res Nack :=
  res_bind (check_outer inp MsgType.Nack) (fun rest =>
  if lenZ inp <? kOuterHeaderSize + 2 + 2 then Reject
  else
    res_bind ((sid <~ get_u16 ;; count <~ get_u16 ;; rd_ret (sid, count)) rest)
      (fun '((sid, count), tail) =>
        if kMaxWindow <? count then Reject
        else if lenZ inp <? kOuterHeaderSize + 2 + 2 + count * 8 then Reject
        else
          run_rd (missing <~ get_array get_u64 (Z.to_nat count) ;;
                  rd_ret (mkNack sid count
                            (missing ++ drop (Z.to_nat count) (nack_missing nack0)))) tail)).

Definition encode_stream_close (sc : StreamClose) (out : bytes) : res (bytes * Z) :=
  let total := kOuterHeaderSize + 2 + 8 + 1 in
  if lenZ out <? total then Ok (out, 0)
  else
    run_wr (put_outer MsgType.StreamClose ;;;
            put_u16 (sc_stream_id sc) ;;;
            put_u64 (sc_nonce sc) ;;;
            put_u8 (sc_reason sc)) out.

Definition decode_stream_close (inp : bytes) : res StreamClose :=
  res_bind (check_outer inp MsgType.StreamClose) (fun rest =>
  if lenZ inp <? kOuterHeaderSize + 2 + 8 + 1 then Reject
  else
    run_rd (sid <~ get_u16 ;;
            nonce <~ get_u64 ;;
            reason <~ get_u8 ;;
            rd_ret (mkStreamClose sid nonce reason)) rest).

Definition kResumeRangesFixed : Z := kOuterHeaderSize + 2 + 8 + 1 + 2 + 2 + 2.

Definition put_range (r : ResumeRange) : wr := put_u64 (rr_offset r) ;;; put_u64 (rr_length r).
Definition get_range : rd ResumeRange :=
  offset <~ get_u64 ;; length <~ get_u64 ;; rd_ret (mkResumeRange offset length).

Definition encode_resume_ranges (rr : ResumeRanges) (out : bytes) : res (bytes * Z) :=
  if (kMaxResumeRangesPerMsg <? rrs_count rr) || (rrs_parts rr =? 0) ||
     (rrs_parts rr <=? rrs_part rr) then Ok (out, 0)
  else
    let total := kResumeRangesFixed + rrs_count rr * 16 in
    if lenZ out <? total then Ok (out, 0)
    else
      run_wr (put_outer MsgType.ResumeRanges ;;;
              put_u16 (rrs_stream_id rr) ;;;
              put_u64 (rrs_nonce rr) ;;;
              put_u8 (rrs_flags rr) ;;;
              put_u16 (rrs_part rr) ;;;
              put_u16 (rrs_parts rr) ;;;
              put_u16 (rrs_count rr) ;;;
              put_array put_range (take (Z.to_nat (rrs_count rr)) (rrs_ranges rr))) out.

Definition decode_resume_ranges (inp : bytes) (rr0 : ResumeRanges) : res ResumeRanges :=
  res_bind (check_outer inp MsgType.ResumeRanges) (fun rest =>
  if lenZ inp <? kResumeRangesFixed then Reject
  else
    res_bind
      ((sid <~ get_u16 ;;
        nonce <~ get_u64 ;;
        flags <~ get_u8 ;;
        part <~ get_u16 ;;
        parts <~ get_u16 ;;
        count <~ get_u16 ;;
        rd_ret (mkResumeRanges sid nonce flags part parts count)) rest)
      (fun '(mk, tail) =>
        let rr := mk [] in
        if (kMaxResumeRangesPerMsg <? rrs_count rr) || (rrs_parts rr =? 0) ||
           (rrs_parts rr <=? rrs_part rr) ||
           (lenZ inp <? kResumeRangesFixed + rrs_count rr * 16) then Reject
        else
          run_rd (ranges <~ get_array get_range (Z.to_nat (rrs_count rr)) ;;
                  rd_ret (mk (ranges ++ drop (Z.to_nat (rrs_count rr)) (rrs_ranges rr0)))) tail)).

Definition encode_digest (dm : DigestMessage) (out : bytes) : res (bytes * Z) :=
  let total := kOuterHeaderSize + 2 + 8 + kDigestLen in
  if lenZ out <? total then Ok (out, 0)
  else
    run_wr (put_outer MsgType.FileDigest ;;;
            put_u16 (dm_stream_id dm) ;;;
            put_u64 (dm_nonce dm) ;;;
            put_bytes (dm_digest dm)) out.

Definition decode_digest (inp : bytes) : res DigestMessage :=
  res_bind (check_outer inp MsgType.FileDigest) (fun rest =>
  if lenZ inp <? kOuterHeaderSize + 2 + 8 + kDigestLen then Reject
  else
    run_rd (sid <~ get_u16 ;;
            nonce <~ get_u64 ;;
            digest <~ get_bytes kDigestLen ;;
            rd_ret (mkDigestMessage sid nonce digest)) rest).

Definition encode_retry (r : Retry) (out : bytes) : res (bytes * Z) :=
  let total := kOuterHeaderSize + 2 + 8 + 8 in
  if lenZ out <? total then Ok (out, 0)
  else
    run_wr (put_outer MsgType.Retry ;;;
            put_u16 (rt_stream_id r) ;;;
            put_u64 (rt_nonce r) ;;;
            put_u64 (rt_token r)) out.

Definition decode_retry (inp : bytes) : res Retry :=
  res_bind (check_outer inp MsgType.Retry) (fun rest =>
  if lenZ inp <? kOuterHeaderSize + 2 + 8 + 8 then Reject
  else
    run_rd (sid <~ get_u16 ;;
            nonce <~ get_u64 ;;
            token <~ get_u64 ;;
            rd_ret (mkRetry sid nonce token)) rest).

Definition encode_path_probe (type : MsgType.MsgType) (pp : PathProbe) (out : bytes)
  : res (bytes * Z) :=
  let total := kOuterHeaderSize + 2 + 8 + 8 in
  if (negb (MsgType.code type =? MsgType.code MsgType.PathChallenge) &&
      negb (MsgType.code type =? MsgType.code MsgType.PathResponse)) ||
     (lenZ out <? total) then Ok (out, 0)
  else
    run_wr (put_outer type ;;;
            put_u16 (pp_stream_id pp) ;;;
            put_u64 (pp_nonce pp) ;;;
            put_u64 (pp_challenge pp)) out.

Definition decode_path_probe (type : MsgType.MsgType) (inp : bytes) : res PathProbe :=
  res_bind (check_outer inp type) (fun rest =>
  if lenZ inp <? kOuterHeaderSize + 2 + 8 + 8 then Reject
  else
    run_rd (sid <~ get_u16 ;;
            nonce <~ get_u64 ;;
            challenge <~ get_u64 ;;
            rd_ret (mkPathProbe sid nonce challenge)) rest).

(** ** Wire layouts *)

Definition outer (t : MsgType.MsgType) : bytes := [u8 kProtocolVersion; u8 (MsgType.code t)].

Definition heartbeat_wire (hb : Heartbeat) : bytes :=
  outer MsgType.Heartbeat ++ be 2 (hb_stream_id hb) ++ be 8 (hb_highest_seq_no hb).

Definition stream_start_wire (ss : StreamStart) : bytes :=
  outer MsgType.StreamStart ++ be 2 (ss_stream_id ss) ++ be 8 (ss_total_blocks ss) ++
  be 2 (ss_block_size ss) ++ be 8 (ss_total_bytes ss) ++ ss_session_salt ss ++
  be 8 (ss_nonce ss) ++ be 8 (ss_stream_base_offset ss) ++ be 8 (ss_file_total_bytes ss) ++
  be 8 (ss_file_id ss) ++ be 8 (ss_token ss) ++ be 2 (ss_ext_len ss) ++
  take (Z.to_nat (ss_ext_len ss)) (ss_ext ss).

Definition ack_wire (a : Ack) : bytes :=
  outer MsgType.Ack ++ be 2 (ack_stream_id a) ++ be 8 (ack_base_seq_no a) ++
  mjoin (be 8 <$> ack_received_bitmask a) ++ be 8 (ack_echoed_send_time a) ++
  be 8 (ack_nonce a) ++ be 4 (ack_rwnd a).

Definition nack_wire (n : Nack) : bytes :=
  outer MsgType.Nack ++ be 2 (nack_stream_id n) ++ be 2 (nack_count n) ++
  mjoin (be 8 <$> take (Z.to_nat (nack_count n)) (nack_missing n)).

Definition stream_close_wire (sc : StreamClose) : bytes :=
  outer MsgType.StreamClose ++ be 2 (sc_stream_id sc) ++ be 8 (sc_nonce sc) ++ [u8 (sc_reason sc)].

Definition range_wire (r : ResumeRange) : bytes := be 8 (rr_offset r) ++ be 8 (rr_length r).

Definition resume_ranges_wire (rr : ResumeRanges) : bytes :=
  outer MsgType.ResumeRanges ++ be 2 (rrs_stream_id rr) ++ be 8 (rrs_nonce rr) ++
  [u8 (rrs_flags rr)] ++ be 2 (rrs_part rr) ++ be 2 (rrs_parts rr) ++ be 2 (rrs_count rr) ++
  mjoin (range_wire <$> take (Z.to_nat (rrs_count rr)) (rrs_ranges rr)).

Definition digest_wire (dm : DigestMessage) : bytes :=
  outer MsgType.FileDigest ++ be 2 (dm_stream_id dm) ++ be 8 (dm_nonce dm) ++ dm_digest dm.

Definition retry_wire (r : Retry) : bytes :=
  outer MsgType.Retry ++ be 2 (rt_stream_id r) ++ be 8 (rt_nonce r) ++ be 8 (rt_token r).

Definition path_probe_wire (t : MsgType.MsgType) (pp : PathProbe) : bytes :=
  outer t ++ be 2 (pp_stream_id pp) ++ be 8 (pp_nonce pp) ++ be 8 (pp_challenge pp).

(** ** Lemmas on the outer header *)

Lemma lenZ_outer t : lenZ (outer t) = 2.
Proof. done. Qed.
#[export] Hint Rewrite lenZ_outer : len.

Lemma writes_outer t : writes (put_outer t) (outer t).
Proof. apply (writes_seq _ _ [_] [_]); apply writes_u8. Qed.
#[export] Hint Resolve writes_outer : codec.

Lemma check_outer_wire t rest : check_outer (outer t ++ rest) t = Ok rest.
Proof.
  unfold check_outer. autorewrite with len. pose proof (lenZ_nonneg rest).
  split_if; [unfold kOuterHeaderSize in *; lia |]. simpl.
  rewrite (u8_small (MsgType.code t)) by apply MsgType.code_u8.
  change (u8 kProtocolVersion =? kProtocolVersion) with true. rewrite Z.eqb_refl. simpl.
  by rewrite drop_0.
Qed.

Lemma check_outer_inv inp t rest :
  check_outer inp t = Ok rest -> inp = kProtocolVersion :: MsgType.code t :: rest.
Proof.
  unfold check_outer. split_if; [done |]. destruct inp as [| v [| c inp]]; [done .. |].
  simpl. split_if; [done |]. split_if; [done |]. intros [= <-]. rewrite drop_0. congruence.
Qed.

Lemma check_outer_sound inp t rest :
  Forall is_u8 inp -> check_outer inp t = Ok rest -> inp = outer t ++ rest /\ Forall is_u8 rest.
Proof.
  intros Hb ->%check_outer_inv. unfold outer. rewrite (u8_small (MsgType.code t)) by apply MsgType.code_u8.
  split; [done |]. do 2 apply Forall_cons_1 in Hb as [_ Hb]. done.
Qed.

Lemma check_outer_no_fault inp t : check_outer inp t <> Fault.
Proof.
  unfold check_outer, kOuterHeaderSize. split_if; [done |].
  destruct (nthZ_Some inp 0) as [v ->]; [lia |]. destruct (nthZ_Some inp 1) as [c ->]; [lia |].
  split_if; [done |]. by split_if.
Qed.

(** A prefix of a datagram either still has its outer header or is refused. *)
Lemma check_outer_take t rest k :
  0 <= k -> check_outer (take (Z.to_nat k) (outer t ++ rest)) t =
            if k <? 2 then Reject else Ok (take (Z.to_nat (k - 2)) rest).
Proof.
  intros Hk. split_if.
  - unfold check_outer, kOuterHeaderSize. rewrite lenZ_take; [by split_if; [| lia] |].
    autorewrite with len. pose proof (lenZ_nonneg rest). lia.
  - replace (take (Z.to_nat k) (outer t ++ rest)) with (outer t ++ take (Z.to_nat (k - 2)) rest).
    + apply check_outer_wire.
    + replace (Z.to_nat k) with (2 + Z.to_nat (k - 2))%nat by lia. done.
Qed.

(** ** Automation for the codec instances *)

(** Evaluates the size constants and the lengths of wire layouts. *)
Ltac sizes :=
  unfold kAckSize, kStreamStartFixed, kResumeRangesFixed, kOuterHeaderSize, kDigestLen in *;
  change kMaskWords with 16 in *;
  autorewrite with len in *;
  repeat match goal with
  | |- context [lenZ (mjoin (be 8 <$> ?l))] =>
      rewrite (lenZ_array (be 8) l 8) by (intros; apply lenZ_be)
  | H : context [lenZ (mjoin (be 8 <$> ?l))] |- _ =>
      rewrite (lenZ_array (be 8) l 8) in H by (intros; apply lenZ_be)
  | |- context [lenZ (mjoin (range_wire <$> ?l))] =>
      rewrite (lenZ_array range_wire l 16) by (intros; done)
  | H : context [lenZ (mjoin (range_wire <$> ?l))] |- _ =>
      rewrite (lenZ_array range_wire l 16) in H by (intros; done)
  end;
  repeat match goal with
  | |- context [lenZ ?l] =>
      is_var l; lazymatch goal with
      | _ : 0 <= lenZ l |- _ => fail
      | _ => pose proof (lenZ_nonneg l)
      end
  | H : context [lenZ ?l] |- _ =>
      is_var l; lazymatch goal with
      | _ : 0 <= lenZ l |- _ => fail
      | _ => pose proof (lenZ_nonneg l)
      end
  end.

(** Steps a decoder through the fields of a wire layout. *)
Ltac read_fields :=
  repeat first
    [ rewrite bind_u16 by done
    | rewrite bind_u64 by done
    | rewrite bind_u32 by done
    | rewrite bind_u8_wr by done
    | rewrite bind_bytes by done
    | rewrite (bind_array get_u64 (be 8)) by first [by apply get_u64_each | unfold lenZ in *; lia]
    | rewrite bind_ret
    | rewrite <- app_assoc ].

Ltac decide_guard := first [split_if; [exfalso; sizes; lia |] | split_if; [| exfalso; sizes; lia]].

Lemma run_rd_ok {A} (m : rd A) a rest tail : m rest = Ok (a, tail) -> run_rd m rest = Ok a.
Proof. intros H. unfold run_rd. by rewrite H. Qed.

Lemma run_rd_inv {A} (m : rd A) a rest : run_rd m rest = Ok a -> exists tail, m rest = Ok (a, tail).
Proof. unfold run_rd. destruct (m rest) as [| | [b tail]]; simpl; [done .. |]. intros [= ->]. eauto. Qed.

Lemma res_bind_inv {A B} (r : res A) (k : A -> res B) b :
  res_bind r k = Ok b -> exists a, r = Ok a /\ k a = Ok b.
Proof. destruct r; [done .. | eauto]. Qed.

(** Opens an accepted datagram up to its outer header and its size guard. *)
Ltac open_outer :=
  match goal with H : res_bind (check_outer _ _) _ = Ok _ |- _ =>
    let rest := fresh "rest" in let E := fresh "E" in
    apply res_bind_inv in H as (rest & E & H); apply check_outer_sound in E as [-> ?]; [| done];
    split_if_in H; [done |]
  end.

(** ** The codec instances *)

#[export] Instance heartbeat_codec : WireCodec Heartbeat := {
  wf_msg hb := is_u16 (hb_stream_id hb) /\ is_u64 (hb_highest_seq_no hb);
  wire := heartbeat_wire;
  encode := encode_heartbeat;
  decode := decode_heartbeat;
}.

(** Law by law, for a message of fixed-size fields; [unf] unfolds the message's
    codec, wire layout, encoder and decoder. *)
Ltac fixed_encode_wire unf :=
  intros m out Hwf Hroom; unf; destruct_and!; decide_guard; apply run_wr_writes; [solve_writes | done].
Ltac fixed_encode_small unf := intros m out Hwf Hroom; unf; destruct_and!; by decide_guard.
Ltac fixed_decode_wire unf :=
  intros m tail Hwf; unf; destruct_and!;
  rewrite <- app_assoc, check_outer_wire; cbn [res_bind]; decide_guard;
  eapply run_rd_ok; read_fields; by destruct m.
Ltac no_fault_outer unf :=
  intros inp Hb; unf;
  match goal with |- context [check_outer ?i ?t] =>
    let rest := fresh "rest" in let E := fresh "E" in
    destruct (check_outer i t) as [| | rest] eqn:E; [by apply check_outer_no_fault in E | done |];
    apply check_outer_inv in E as ->
  end; cbn [res_bind]; split_if; [done |].
Ltac fixed_no_fault unf :=
  no_fault_outer unf; eapply reads_run; [solve_reads; sizes; lia | sizes; lia].
Ltac fixed_sound unf :=
  intros inp m Hb H; unf; open_outer; apply run_rd_inv in H as [? H]; inv_fields;
  split; [split_and!; done | eexists; rewrite <- !app_assoc; done].
Ltac fixed_truncated unf :=
  intros m k Hwf Hk; unf; destruct_and!; rewrite check_outer_take by lia; split_if; [done |];
  cbn [res_bind]; rewrite lenZ_take by lia; by decide_guard.
Ltac fixed_laws unf :=
  split; [fixed_encode_wire unf | fixed_encode_small unf | fixed_decode_wire unf |
          fixed_sound unf | fixed_no_fault unf | fixed_truncated unf].

#[export] Instance heartbeat_laws : CodecLaws Heartbeat.
Proof.
  fixed_laws ltac:(unfold wf_msg, wire, encode, decode, heartbeat_codec, encode_heartbeat,
    decode_heartbeat, heartbeat_wire in * ).
Qed.

#[export] Instance retry_codec : WireCodec Retry := {
  wf_msg r := is_u16 (rt_stream_id r) /\ is_u64 (rt_nonce r) /\ is_u64 (rt_token r);
  wire := retry_wire;
  encode := encode_retry;
  decode := decode_retry;
}.

#[export] Instance retry_laws : CodecLaws Retry.
Proof.
  fixed_laws ltac:(unfold wf_msg, wire, encode, decode, retry_codec, encode_retry,
    decode_retry, retry_wire in * ).
Qed.

#[export] Instance stream_close_codec : WireCodec StreamClose := {
  wf_msg sc := is_u16 (sc_stream_id sc) /\ is_u64 (sc_nonce sc) /\ is_u8 (sc_reason sc);
  wire := stream_close_wire;
  encode := encode_stream_close;
  decode := decode_stream_close;
}.

#[export] Instance stream_close_laws : CodecLaws StreamClose.
Proof.
  fixed_laws ltac:(unfold wf_msg, wire, encode, decode, stream_close_codec, encode_stream_close,
    decode_stream_close, stream_close_wire in * ).
Qed.

#[export] Instance digest_codec : WireCodec DigestMessage := {
  wf_msg dm := is_u16 (dm_stream_id dm) /\ is_u64 (dm_nonce dm) /\ lenZ (dm_digest dm) = kDigestLen;
  wire := digest_wire;
  encode := encode_digest;
  decode := decode_digest;
}.

#[export] Instance digest_laws : CodecLaws DigestMessage.
Proof.
  fixed_laws ltac:(unfold wf_msg, wire, encode, decode, digest_codec, encode_digest,
    decode_digest, digest_wire in * ).
Qed.

#[export] Instance ack_codec : WireCodec Ack := {
  wf_msg a := is_u16 (ack_stream_id a) /\ is_u64 (ack_base_seq_no a) /\
    lenZ (ack_received_bitmask a) = kMaskWords /\ Forall is_u64 (ack_received_bitmask a) /\
    is_u64 (ack_echoed_send_time a) /\ is_u64 (ack_nonce a) /\ is_u32 (ack_rwnd a);
  wire := ack_wire;
  encode := encode_ack;
  decode := decode_ack;
}.

#[export] Instance ack_laws : CodecLaws Ack.
Proof.
  fixed_laws ltac:(unfold wf_msg, wire, encode, decode, ack_codec, encode_ack,
    decode_ack, ack_wire in * ).
Qed.

(** The two path messages share a struct: a codec per message type. *)
Definition path_probe_codec (t : MsgType.MsgType) : WireCodec PathProbe := {|
  wf_msg pp := is_u16 (pp_stream_id pp) /\ is_u64 (pp_nonce pp) /\ is_u64 (pp_challenge pp);
  wire := path_probe_wire t;
  encode := encode_path_probe t;
  decode := decode_path_probe t;
|}.

Lemma path_probe_laws t :
  t = MsgType.PathChallenge \/ t = MsgType.PathResponse -> @CodecLaws PathProbe (path_probe_codec t).
Proof.
  intros Ht.
  assert (negb (MsgType.code t =? MsgType.code MsgType.PathChallenge) &&
          negb (MsgType.code t =? MsgType.code MsgType.PathResponse) = false) as Hguard
    by (by destruct Ht as [-> | ->]).
  fixed_laws ltac:(unfold wf_msg, wire, encode, decode, path_probe_codec, encode_path_probe,
    decode_path_probe, path_probe_wire in *; rewrite ?Hguard; cbn [orb]).
Qed.

(** Default-constructed structs, as the receive loops declare them. *)
Definition default_nack : Nack := mkNack 0 0 (replicate (Z.to_nat kMaxWindow) 0).
Definition default_resume_ranges : ResumeRanges :=
  mkResumeRanges 0 0 0 0 1 0 (replicate (Z.to_nat kMaxResumeRangesPerMsg) (mkResumeRange 0 0)).
Definition default_stream_start : StreamStart :=
  mkStreamStart 0 0 0 0 (replicate 16 0) 0 0 0 0 0 0 (replicate (Z.to_nat kMaxExtensionBytes) 0).

Definition is_range (x : ResumeRange) : Prop := is_u64 (rr_offset x) /\ is_u64 (rr_length x).

(** A message whose array is filled up to its count and zero beyond. *)
#[export] Instance nack_codec : WireCodec Nack := {
  wf_msg n := is_u16 (nack_stream_id n) /\ 0 <= nack_count n <= kMaxWindow /\
    lenZ (nack_missing n) = kMaxWindow /\ Forall is_u64 (nack_missing n) /\
    drop (Z.to_nat (nack_count n)) (nack_missing n) =
    drop (Z.to_nat (nack_count n)) (nack_missing default_nack);
  wire := nack_wire;
  encode := encode_nack;
  decode inp := decode_nack inp default_nack;
}.

#[export] Instance resume_ranges_codec : WireCodec ResumeRanges := {
  wf_msg r := is_u16 (rrs_stream_id r) /\ is_u64 (rrs_nonce r) /\ is_u8 (rrs_flags r) /\
    is_u16 (rrs_parts r) /\ 0 <= rrs_part r < rrs_parts r /\
    0 <= rrs_count r <= kMaxResumeRangesPerMsg /\
    lenZ (rrs_ranges r) = kMaxResumeRangesPerMsg /\
    Forall is_range (rrs_ranges r) /\
    drop (Z.to_nat (rrs_count r)) (rrs_ranges r) =
    drop (Z.to_nat (rrs_count r)) (rrs_ranges default_resume_ranges);
  wire := resume_ranges_wire;
  encode := encode_resume_ranges;
  decode inp := decode_resume_ranges inp default_resume_ranges;
}.

#[export] Instance stream_start_codec : WireCodec StreamStart := {
  wf_msg s := is_u16 (ss_stream_id s) /\ is_u64 (ss_total_blocks s) /\ is_u16 (ss_block_size s) /\
    is_u64 (ss_total_bytes s) /\ lenZ (ss_session_salt s) = 16 /\ is_u64 (ss_nonce s) /\
    is_u64 (ss_stream_base_offset s) /\ is_u64 (ss_file_total_bytes s) /\ is_u64 (ss_file_id s) /\
    is_u64 (ss_token s) /\ 0 <= ss_ext_len s <= kMaxExtensionBytes /\
    lenZ (ss_ext s) = kMaxExtensionBytes /\
    (exists es, take (Z.to_nat (ss_ext_len s)) (ss_ext s) = ext_area es /\ Forall skippable es) /\
    drop (Z.to_nat (ss_ext_len s)) (ss_ext s) =
    drop (Z.to_nat (ss_ext_len s)) (ss_ext default_stream_start);
  wire := stream_start_wire;
  encode := encode_stream_start;
  decode inp := decode_stream_start inp default_stream_start;
}.

Lemma writes_range r : writes (put_range r) (range_wire r).
Proof. unfold put_range, range_wire. solve_writes. Qed.
#[export] Hint Resolve writes_range : codec.

Lemma reads_range : reads get_range 16.
Proof. apply (reads_bind _ _ 8 8); [lia .. | apply reads_u64 | intros].
  apply (reads_bind _ _ 8 0); [lia .. | apply reads_u64 | intros; apply reads_ret]. Qed.
#[export] Hint Resolve reads_range : codec.

Lemma get_range_each rs : Forall is_range rs ->
  forall x rest, x ∈ rs -> get_range (range_wire x ++ rest) = Ok (x, rest).
Proof.
  rewrite list.Forall_forall. intros Hrs x rest Hx. destruct (Hrs x Hx) as [H1 H2].
  unfold get_range, range_wire. read_fields. by destruct x.
Qed.

Ltac nack_unfold :=
  unfold wf_msg, wire, encode, decode, nack_codec, encode_nack, decode_nack in *.

(** The first two fields of a NACK. *)
Lemma nack_prefix sid count rest :
  is_u16 sid -> is_u16 count ->
  (a <~ get_u16 ;; b <~ get_u16 ;; rd_ret (a, b)) (be 2 sid ++ be 2 count ++ rest) =
  Ok ((sid, count), rest).
Proof. intros. by read_fields. Qed.

Lemma lenZ_nack_wire m : wf_msg m -> lenZ (nack_wire m) = 6 + nack_count m * 8.
Proof.
  intros (H1 & H2 & H3 & H4 & H5). unfold nack_wire. sizes. rewrite lenZ_take; lia.
Qed.

Lemma default_nack_array :
  lenZ (nack_missing default_nack) = kMaxWindow /\ Forall is_u64 (nack_missing default_nack).
Proof. split; [done |]. by apply Forall_replicate. Qed.

Lemma nack_sound inp m :
  Forall is_u8 inp -> decode inp = Ok m -> wf_msg m /\ exists tail, inp = wire (M := Nack) m ++ tail.
Proof.
  intros Hb H. nack_unfold. open_outer. apply res_bind_inv in H as ([[sid count] tail] & E & H).
  inv_fields. split_if_in H; [done |]. split_if_in H; [done |].
  apply run_rd_inv in H as [? H]. inv_fields. rename select (lenZ _ = _) into Hlen.
  pose proof default_nack_array as [D1 D2].
  match type of Hlen with lenZ ?v = _ =>
    destruct (filled_array is_u64 v (nack_missing default_nack) count) as (F1 & F2 & F3 & F4);
    [unfold is_u16 in *; lia | lia | done | done |]
  end.
  unfold nack_wire. cbn [nack_stream_id nack_count nack_missing]. rewrite F3.
  split; [| eexists; by rewrite <- !app_assoc].
  split_and!; [unfold is_u16 in *; lia .. | done | lia | done | done].
Qed.

#[export] Instance nack_laws : CodecLaws Nack.
Proof.
  split.
  - intros m out Hwf Hroom. change (wire m) with (nack_wire m) in *.
    pose proof (lenZ_nack_wire m Hwf). destruct Hwf as (H1 & H2 & H3 & H4 & H5). nack_unfold.
    split_if; [lia |]. decide_guard. apply run_wr_writes; [unfold nack_wire; solve_writes | lia].
  - intros m out Hwf Hroom. change (wire m) with (nack_wire m) in *.
    rewrite lenZ_nack_wire in Hroom by done. destruct Hwf as (H1 & H2 & H3 & H4 & H5).
    nack_unfold. split_if; [lia |]. by decide_guard.
  - intros m tail Hwf. change (wire m) with (nack_wire m). pose proof (lenZ_nack_wire m Hwf).
    destruct Hwf as (H1 & H2 & H3 & H4 & H5).
    nack_unfold. unfold nack_wire in *. rewrite <- app_assoc, check_outer_wire.
    cbn [res_bind]. decide_guard. rewrite <- !app_assoc.
    rewrite nack_prefix by (done || (unfold is_u16, kMaxWindow in *; lia)). cbn [res_bind].
    split_if; [lia |]. split_if; [exfalso; sizes; lia |].
    eapply run_rd_ok. rewrite (bind_array get_u64 (be 8)).
    + rewrite <- H5, take_drop. by destruct m.
    + rewrite length_take. unfold lenZ in *. lia.
    + apply get_u64_each. by apply Forall_take.
  - exact nack_sound.
  - no_fault_outer nack_unfold.
    assert (reads (a <~ get_u16 ;; b <~ get_u16 ;; rd_ret (a, b)) 4) as Hr
      by (apply (reads_bind _ _ 2 2); [lia .. | apply reads_u16 | intros];
          apply (reads_bind _ _ 2 0); [lia .. | apply reads_u16 | intros; apply reads_ret]).
    specialize (Hr rest ltac:(sizes; lia)).
    destruct (rd_bind _ _ rest) as [| | [[sid count] tail]]; [done .. |]. cbn [res_bind].
    destruct Hr as [_ Hlen]. split_if; [done |]. split_if; [done |].
    destruct (Z.lt_ge_cases count 0).
    + replace (Z.to_nat count) with 0%nat by lia. by simpl.
    + eapply reads_run; [solve_reads; lia |]. sizes. lia.
  - intros m k Hwf Hk. change (wire m) with (nack_wire m) in *.
    pose proof (lenZ_nack_wire m Hwf) as Hlen. destruct Hwf as (H1 & H2 & H3 & H4 & H5).
    nack_unfold. rewrite lenZ_take by lia. unfold nack_wire. rewrite check_outer_take by lia.
    split_if; [done |]. cbn [res_bind]. split_if; [done |]. sizes.
    rewrite take_pre by (sizes; lia). rewrite take_pre by (sizes; lia).
    rewrite nack_prefix by (done || (unfold is_u16, kMaxWindow in *; lia)). cbn [res_bind].
    split_if; [done |]. by decide_guard.
Qed.

Ltac rrs_unfold :=
  unfold wf_msg, wire, encode, decode, resume_ranges_codec, encode_resume_ranges,
    decode_resume_ranges in *.

(** The fields of a ResumeRanges in front of its ranges. *)
Definition rrs_fields : rd (list ResumeRange -> ResumeRanges) :=
  sid <~ get_u16 ;; nonce <~ get_u64 ;; flags <~ get_u8 ;; part <~ get_u16 ;;
  parts <~ get_u16 ;; count <~ get_u16 ;; rd_ret (mkResumeRanges sid nonce flags part parts count).

Definition rrs_prefix (r : ResumeRanges) : bytes :=
  be 2 (rrs_stream_id r) ++ be 8 (rrs_nonce r) ++ [u8 (rrs_flags r)] ++ be 2 (rrs_part r) ++
  be 2 (rrs_parts r) ++ be 2 (rrs_count r).

Lemma rrs_fields_wire m rest :
  wf_msg m -> rrs_fields (rrs_prefix m ++ rest) =
  Ok (mkResumeRanges (rrs_stream_id m) (rrs_nonce m) (rrs_flags m) (rrs_part m)
        (rrs_parts m) (rrs_count m), rest).
Proof.
  intros (H1 & H2 & H3 & H4 & H5 & H6 & _).
  assert (is_u16 (rrs_part m)) by (unfold is_u16 in *; lia).
  assert (is_u16 (rrs_count m)) by (unfold is_u16, kMaxResumeRangesPerMsg in *; lia).
  unfold rrs_fields, rrs_prefix. by read_fields.
Qed.

Lemma lenZ_rrs_prefix m : lenZ (rrs_prefix m) = 17.
Proof. done. Qed.
#[export] Hint Rewrite lenZ_rrs_prefix : len.

Lemma reads_rrs_fields : reads rrs_fields 17.
Proof.
  replace 17 with (2 + (8 + (1 + (2 + (2 + (2 + 0)))))) by lia. unfold rrs_fields.
  repeat (apply reads_bind; [lia .. | auto with codec | intros]). auto with codec.
Qed.

Lemma resume_ranges_wire_eq m :
  resume_ranges_wire m = outer MsgType.ResumeRanges ++ rrs_prefix m ++
    mjoin (range_wire <$> take (Z.to_nat (rrs_count m)) (rrs_ranges m)).
Proof. unfold resume_ranges_wire, rrs_prefix. by rewrite <- !app_assoc. Qed.

Lemma lenZ_resume_ranges_wire m : wf_msg m -> lenZ (resume_ranges_wire m) = 19 + rrs_count m * 16.
Proof.
  intros (H1 & H2 & H3 & H4 & H5 & H6 & H7 & H8 & H9). rewrite resume_ranges_wire_eq.
  sizes. rewrite lenZ_take; lia.
Qed.

Lemma default_ranges_array :
  lenZ (rrs_ranges default_resume_ranges) = kMaxResumeRangesPerMsg /\
  Forall is_range (rrs_ranges default_resume_ranges).
Proof. split; [done |]. by apply Forall_replicate. Qed.

Lemma get_range_inv rest x rest' :
  Forall is_u8 rest -> get_range rest = Ok (x, rest') ->
  rest = range_wire x ++ rest' /\ is_range x /\ Forall is_u8 rest'.
Proof.
  intros Hb H. unfold get_range in H. inv_fields. unfold range_wire. by rewrite <- app_assoc.
Qed.

Lemma resume_ranges_sound inp m :
  Forall is_u8 inp -> decode inp = Ok m ->
  wf_msg m /\ exists tail, inp = wire (M := ResumeRanges) m ++ tail.
Proof.
  intros Hb H. rrs_unfold. open_outer. apply res_bind_inv in H as ([mk tail] & E & H).
  inv_fields. cbn [rrs_count rrs_parts rrs_part] in H. split_if_in H; [done |].
  apply run_rd_inv in H as [? H]. inv_fields.
  rename select (get_array _ _ _ = _) into E.
  apply (get_array_inv _ _ _ _ _ _ _ get_range_inv) in E as (-> & Hlen & HF & _); [| done].
  pose proof default_ranges_array as [D1 D2].
  match type of Hlen with lenZ ?v = Z.of_nat (Z.to_nat ?c) =>
    destruct (filled_array is_range v (rrs_ranges default_resume_ranges) c) as (F1 & F2 & F3 & F4);
    [unfold is_u16 in *; lia | lia | done | done |]
  end.
  unfold resume_ranges_wire.
  cbn [rrs_stream_id rrs_nonce rrs_flags rrs_part rrs_parts rrs_count rrs_ranges]. rewrite F3.
  split; [| eexists; by rewrite <- !app_assoc].
  split_and!; try done; unfold is_u16 in *; lia.
Qed.

#[export] Instance resume_ranges_laws : CodecLaws ResumeRanges.
Proof.
  split.
  - intros m out Hwf Hroom. change (wire m) with (resume_ranges_wire m) in *.
    pose proof (lenZ_resume_ranges_wire m Hwf).
    destruct Hwf as (H1 & H2 & H3 & H4 & H5 & H6 & H7 & H8 & H9). rrs_unfold.
    split_if; [lia |]. decide_guard.
    apply run_wr_writes; [unfold resume_ranges_wire; solve_writes | lia].
  - intros m out Hwf Hroom. change (wire m) with (resume_ranges_wire m) in *.
    rewrite lenZ_resume_ranges_wire in Hroom by done.
    destruct Hwf as (H1 & H2 & H3 & H4 & H5 & H6 & H7 & H8 & H9). rrs_unfold.
    split_if; [done |]. by decide_guard.
  - intros m tail Hwf. change (wire m) with (resume_ranges_wire m).
    pose proof (lenZ_resume_ranges_wire m Hwf) as Hlen. pose proof (rrs_fields_wire m) as Hf.
    rrs_unfold. rewrite lenZ_app, Hlen. rewrite resume_ranges_wire_eq, <- !app_assoc, check_outer_wire.
    cbn [res_bind]. fold rrs_fields. rewrite Hf by done. cbn [res_bind rrs_count rrs_parts rrs_part].
    destruct Hwf as (H1 & H2 & H3 & H4 & H5 & H6 & H7 & H8 & H9).
    decide_guard. decide_guard. eapply run_rd_ok. rewrite (bind_array get_range range_wire).
    + rewrite <- H9, take_drop. by destruct m.
    + rewrite length_take. unfold lenZ in *. lia.
    + apply get_range_each. by apply Forall_take.
  - exact resume_ranges_sound.
  - no_fault_outer rrs_unfold. fold rrs_fields.
    pose proof (reads_rrs_fields rest ltac:(sizes; lia)) as Hr.
    destruct (rrs_fields rest) as [| | [mk tail]]; [done .. |]. cbn [res_bind].
    destruct Hr as [_ Hlen]. split_if; [done |].
    destruct (Z.lt_ge_cases (rrs_count (mk [])) 0).
    + replace (Z.to_nat (rrs_count (mk []))) with 0%nat by lia. by simpl.
    + eapply reads_run; [solve_reads; lia |]. sizes. lia.
  - intros m k Hwf Hk. change (wire m) with (resume_ranges_wire m) in *.
    pose proof (lenZ_resume_ranges_wire m Hwf) as Hlen. pose proof (rrs_fields_wire m) as Hf.
    rrs_unfold. rewrite lenZ_take by lia. rewrite resume_ranges_wire_eq, check_outer_take by lia.
    split_if; [done |]. cbn [res_bind]. split_if; [done |]. sizes. fold rrs_fields.
    rewrite take_pre by (sizes; lia). rewrite Hf by done.
    cbn [res_bind rrs_count rrs_parts rrs_part]. split_if; [done | lia].
Qed.

Ltac ss_unfold :=
  unfold wf_msg, wire, encode, decode, stream_start_codec, encode_stream_start,
    decode_stream_start in *.

(** The fields of a StreamStart in front of its extension bytes. *)
Definition ss_fields : rd ((bytes -> StreamStart) * Z) :=
  sid <~ get_u16 ;; blocks <~ get_u64 ;; bsize <~ get_u16 ;; tbytes <~ get_u64 ;;
  salt <~ get_bytes 16 ;; nonce <~ get_u64 ;; base <~ get_u64 ;; ftotal <~ get_u64 ;;
  fid <~ get_u64 ;; token <~ get_u64 ;; ext_len <~ get_u16 ;;
  rd_ret (fun ext => mkStreamStart sid blocks bsize tbytes salt nonce base ftotal fid
                                   token ext_len ext, ext_len).

Definition ss_prefix (s : StreamStart) : bytes :=
  be 2 (ss_stream_id s) ++ be 8 (ss_total_blocks s) ++ be 2 (ss_block_size s) ++
  be 8 (ss_total_bytes s) ++ ss_session_salt s ++ be 8 (ss_nonce s) ++
  be 8 (ss_stream_base_offset s) ++ be 8 (ss_file_total_bytes s) ++ be 8 (ss_file_id s) ++
  be 8 (ss_token s) ++ be 2 (ss_ext_len s).

Lemma ss_fields_wire m rest :
  wf_msg m -> ss_fields (ss_prefix m ++ rest) =
  Ok ((mkStreamStart (ss_stream_id m) (ss_total_blocks m) (ss_block_size m) (ss_total_bytes m)
         (ss_session_salt m) (ss_nonce m) (ss_stream_base_offset m) (ss_file_total_bytes m)
         (ss_file_id m) (ss_token m) (ss_ext_len m), ss_ext_len m), rest).
Proof.
  intros (H1 & H2 & H3 & H4 & H5 & H6 & H7 & H8 & H9 & H10 & H11 & _).
  assert (is_u16 (ss_ext_len m)) by (unfold is_u16, kMaxExtensionBytes in *; lia).
  unfold ss_fields, ss_prefix. by read_fields.
Qed.

Lemma lenZ_ss_prefix m : wf_msg m -> lenZ (ss_prefix m) = 78.
Proof. intros (H1 & H2 & H3 & H4 & H5 & _). unfold ss_prefix. sizes. lia. Qed.

Lemma reads_ss_fields : reads ss_fields 78.
Proof.
  replace 78 with (2 + (8 + (2 + (8 + (16 + (8 + (8 + (8 + (8 + (8 + (2 + 0))))))))))) by lia.
  unfold ss_fields.
  repeat (apply reads_bind; [lia .. | first [solve [auto with codec] | by apply reads_bytes] | intros]).
  auto with codec.
Qed.

Lemma stream_start_wire_eq m :
  stream_start_wire m = outer MsgType.StreamStart ++ ss_prefix m ++
    take (Z.to_nat (ss_ext_len m)) (ss_ext m).
Proof. unfold stream_start_wire, ss_prefix. by rewrite <- !app_assoc. Qed.

Lemma lenZ_stream_start_wire m : wf_msg m -> lenZ (stream_start_wire m) = 80 + ss_ext_len m.
Proof.
  intros Hwf. rewrite stream_start_wire_eq, !lenZ_app, lenZ_ss_prefix by done.
  destruct Hwf as (_ & _ & _ & _ & _ & _ & _ & _ & _ & _ & H1 & H2 & _).
  rewrite lenZ_take, lenZ_outer; lia.
Qed.

Lemma default_ext_array :
  lenZ (ss_ext default_stream_start) = kMaxExtensionBytes /\
  Forall is_u8 (ss_ext default_stream_start).
Proof. split; [done |]. by apply Forall_replicate. Qed.

Lemma stream_start_sound inp m :
  Forall is_u8 inp -> decode inp = Ok m ->
  wf_msg m /\ exists tail, inp = wire (M := StreamStart) m ++ tail.
Proof.
  intros Hb H. ss_unfold. open_outer. apply res_bind_inv in H as ([[mk el] tail] & E & H).
  inv_fields. split_if_in H; [done |].
  rename select (Forall is_u8 tail) into Ht.
  destruct (extensions_acceptable_correct (take (Z.to_nat el) tail)) as (b & Hacc & Hgrammar);
    [by apply Forall_take |].
  rewrite Hacc in H. cbn [res_bind] in H. split_if_in H; [done |]. destruct b; [| done].
  apply run_rd_inv in H as [? H].
  assert (0 <= el) by (unfold is_u16 in *; lia). inv_fields.
  pose proof default_ext_array as [D1 D2].
  match goal with |- context [mkStreamStart _ _ _ _ _ _ _ _ _ _ _ (?v ++ _)] =>
    destruct (filled_array is_u8 v (ss_ext default_stream_start) (lenZ v)) as (F1 & F2 & F3 & F4);
    [done | lia | done | done |]
  end.
  unfold stream_start_wire.
  cbn [ss_stream_id ss_total_blocks ss_block_size ss_total_bytes ss_session_salt ss_nonce
    ss_stream_base_offset ss_file_total_bytes ss_file_id ss_token ss_ext_len ss_ext]. rewrite F3.
  split; [| eexists; by rewrite <- !app_assoc].
  rewrite take_all_lenZ in Hgrammar. split_and!; first [done | lia | by apply Hgrammar].
Qed.

#[export] Instance stream_start_laws : CodecLaws StreamStart.
Proof.
  split.
  - intros m out Hwf Hroom. change (wire m) with (stream_start_wire m) in *.
    pose proof (lenZ_stream_start_wire m Hwf).
    destruct Hwf as (_ & _ & _ & _ & _ & _ & _ & _ & _ & _ & H1 & _). ss_unfold.
    split_if; [lia |]. decide_guard.
    apply run_wr_writes; [unfold stream_start_wire; solve_writes | lia].
  - intros m out Hwf Hroom. change (wire m) with (stream_start_wire m) in *.
    rewrite lenZ_stream_start_wire in Hroom by done.
    destruct Hwf as (_ & _ & _ & _ & _ & _ & _ & _ & _ & _ & H1 & _). ss_unfold.
    split_if; [done |]. by decide_guard.
  - intros m tail Hwf. change (wire m) with (stream_start_wire m).
    pose proof (lenZ_stream_start_wire m Hwf) as Hlen. pose proof (ss_fields_wire m) as Hf.
    ss_unfold. rewrite lenZ_app, Hlen. rewrite stream_start_wire_eq, <- !app_assoc, check_outer_wire.
    cbn [res_bind]. fold ss_fields. rewrite Hf by done. cbn [res_bind].
    destruct Hwf as (_ & _ & _ & _ & _ & _ & _ & _ & _ & _ & H1 & H2 & (es & H3 & H4) & H5).
    pose proof (lenZ_nonneg tail). split_if; [exfalso; sizes; lia |].
    rewrite lenZ_app, lenZ_take by lia. split_if; [exfalso; lia |].
    rewrite take_pre, lenZ_take, Z.sub_diag, take_0, app_nil_r by (rewrite ?lenZ_take; lia).
    rewrite H3, extensions_acceptable_area by done. cbn [res_bind negb].
    rewrite <- H3. eapply run_rd_ok. rewrite bind_bytes by (rewrite lenZ_take; lia).
    rewrite <- H5, take_drop. by destruct m.
  - exact stream_start_sound.
  - no_fault_outer ss_unfold. fold ss_fields.
    pose proof (reads_ss_fields rest ltac:(sizes; lia)) as Hr.
    destruct (ss_fields rest) as [| | [[mk el] tail]]; [done .. |]. cbn [res_bind].
    destruct Hr as [-> Hlen]. split_if; [done |].
    apply list.Forall_cons in Hb as [_ Hb]. apply list.Forall_cons in Hb as [_ Hb].
    set (tail := drop _ rest) in *.
    assert (Forall is_u8 (take (Z.to_nat el) tail)) as Ht by (by apply Forall_take, Forall_drop).
    destruct (extensions_acceptable_correct _ Ht) as (b & -> & _). cbn [res_bind].
    destruct b; [| done]. cbn [negb]. destruct (Z.lt_ge_cases el 0).
    + unfold run_rd, rd_bind, get_bytes. split_if; [lia |]. done.
    + eapply reads_run; [solve_reads; lia |]. lia.
  - intros m k Hwf Hk. change (wire m) with (stream_start_wire m) in *.
    pose proof (lenZ_stream_start_wire m Hwf) as Hlen. pose proof (ss_fields_wire m) as Hf.
    pose proof (lenZ_ss_prefix m Hwf) as Hpre.
    ss_unfold. rewrite lenZ_take by lia. rewrite stream_start_wire_eq, check_outer_take by lia.
    split_if; [done |]. cbn [res_bind]. split_if; [done |]. sizes. fold ss_fields.
    rewrite take_pre by lia. rewrite Hf by done. cbn [res_bind].
    destruct Hwf as (_ & _ & _ & _ & _ & _ & _ & _ & _ & _ & H1 & H2 & _).
    split_if; [done |]. rewrite Hpre in *. exfalso.
    rewrite lenZ_take in * by (rewrite ?lenZ_take; lia). lia.
Qed.

(** ** The properties of the control plane's codecs *)

(** [P] holds of the codec of every control message. *)
Definition every_control_message (P : forall M, WireCodec M -> Prop) : Prop :=
  P Heartbeat heartbeat_codec /\ P StreamStart stream_start_codec /\ P Ack ack_codec /\
  P Nack nack_codec /\ P StreamClose stream_close_codec /\ P ResumeRanges resume_ranges_codec /\
  P DigestMessage digest_codec /\ P Retry retry_codec /\
  P PathProbe (path_probe_codec MsgType.PathChallenge) /\
  P PathProbe (path_probe_codec MsgType.PathResponse).

(** A consequence of the codec laws holds of every message. *)
Lemma by_codec_laws (P : forall M, WireCodec M -> Prop) :
  (forall M (W : WireCodec M), CodecLaws M -> P M W) -> every_control_message P.
Proof.
  intros HP. split_and!; apply HP; first [typeclasses eauto | apply path_probe_laws; auto].
Qed.

(** C27: Every control message (HEARTBEAT, STREAM_START, ACK, NACK, STREAM_CLOSE,
    RESUME_RANGES, FILE_DIGEST, RETRY and the two path probes) survives the wire:
    encoding a well-formed message into any buffer that is large enough writes
    its layout, and decoding the bytes sent, with any bytes appended (such as an
    authentication tag), gives the same message back. *)
Theorem control_messages_roundtrip : every_control_message (@roundtrips).
Proof. apply by_codec_laws. intros. by apply codec_roundtrips. Qed.

(** The decoders accept a datagram exactly when it starts with the layout of
    a well-formed message, and then return that message: nothing malformed is
    accepted, nothing well formed is refused, and no two messages share a
    datagram prefix. *)
Theorem control_decoders_exact : every_control_message (@decodes_exactly).
Proof. apply by_codec_laws. intros. by apply codec_decodes_exactly. Qed.

(** Whatever bytes arrive, no control decoder reads outside the datagram, and
    a message cut short at any byte is refused. *)
Theorem control_decoders_safe :
  every_control_message (fun M W => @decodes_safely M W /\ @rejects_truncation M W).
Proof.
  apply by_codec_laws. intros M W HL. split; [intros ??; by apply decode_no_fault |].
  intros ????. by apply decode_truncated.
Qed.

(** No control encoder writes outside the caller's buffer: it keeps the
    buffer's length and every byte behind the message, and reports 0 with the
    buffer untouched exactly when the message does not fit. *)
Theorem control_encoders_safe : every_control_message (@encodes_safely).
Proof. apply by_codec_laws. intros. by apply codec_encodes_safely. Qed.
