(* ===== verification/Block.v ===== *)
(** * Blocks: the DATA datagram and version negotiation

    Models include/fuse/proto/block.hpp and src/proto/block.cpp: the block
    header, the encoder and decoder of DATA datagrams, the outer header's
    message type and the version-mismatch reply.  A DATA datagram is a
    [WireCodec] like the control messages. *)

From S2P Require Import Prelude Wire Control.

Record BlockHeader := mkBlockHeader {
  bh_stream_id : Z;
  bh_seq_no : Z;
  bh_flags : Z;
  bh_payload_len : Z;
  bh_offset : Z;
}.

(** The payload pointer: [None] is the null pointer. *)
Record DataDatagram := mkDataDatagram {
  dd_hdr : BlockHeader;
  dd_send_time_ns : Z;
  dd_payload : option bytes;
}.

Definition kVersionMismatchMarker : Z := 255.
Definition kVersionMismatchSize : Z := 3.

Definition peek_msg_type (inp : bytes) : res Z :=
  if lenZ inp <? kOuterHeaderSize then Reject
  else
    match nthZ inp 0, nthZ inp 1 with
    | Some v, Some t => if negb (v =? kProtocolVersion) then Reject else Ok t
    | _, _ => Fault
    end.

Definition is_foreign_version (inp : bytes) : res bool :=
  if negb (kOuterHeaderSize <=? lenZ inp) then Ok false
  else
    match nthZ inp 0, nthZ inp 1 with
    | Some v, Some t =>
        Ok (negb (v =? kProtocolVersion) && negb (t =? kVersionMismatchMarker))
    | _, _ => Fault
    end.

Definition encode_version_mismatch (out : bytes) : res (bytes * Z) :=
  if lenZ out <? kVersionMismatchSize then Ok (out, 0)
  else
    Ok (setZ (setZ (setZ out 0 kProtocolVersion) 1 kVersionMismatchMarker) 2 kProtocolVersion,
        kVersionMismatchSize).

Definition decode_version_mismatch (inp : bytes) : res Z :=
  if lenZ inp <? kVersionMismatchSize then Reject
  else
    match nthZ inp 0, nthZ inp 1, nthZ inp 2 with
    | Some v, Some t, Some v' =>
        if negb (t =? kVersionMismatchMarker) || negb (v =? v') || (v =? kProtocolVersion)
        then Reject else Ok v
    | _, _, _ => Fault
    end.

(** [off += n] without a store: the bytes there keep their values. *)
Definition put_nothing (n : Z) : wr := fun rest =>
  if lenZ rest <? n then Fault else Ok (take (Z.to_nat n) rest, drop (Z.to_nat n) rest).

(** [memcpy(out + off, payload, n)]. *)
Definition put_payload (payload : bytes) (n : Z) : wr :=
  if lenZ payload <? n then fun _ => Fault else put_bytes (take (Z.to_nat n) payload).

Definition encode_data_datagram (hdr : BlockHeader) (send_time_ns : Z) (payload : option bytes)
    (out : bytes) : res (bytes * Z) :=
  if kMaxPayloadSize <? bh_payload_len hdr then Ok (out, 0)
  else
    let total := kDataPrefixSize + bh_payload_len hdr in
    if lenZ out <? total then Ok (out, 0)
    else
      run_wr (put_u8 kProtocolVersion ;;;
              put_u8 (MsgType.code MsgType.Data) ;;;
              put_u16 (bh_stream_id hdr) ;;;
              put_u64 (bh_seq_no hdr) ;;;
              put_u8 (bh_flags hdr) ;;;
              put_u16 (bh_payload_len hdr) ;;;
              put_u64 (bh_offset hdr) ;;;
              put_u64 send_time_ns ;;;
              match payload with
              | Some p =>
                  if 0 <? bh_payload_len hdr then put_payload p (bh_payload_len hdr)
                  else put_nothing (bh_payload_len hdr)
              | None => put_nothing (bh_payload_len hdr)
              end) out.

Definition decode_data_datagram (inp : bytes) : res DataDatagram :=
  if lenZ inp <? kDataPrefixSize then Reject
  else
    res_bind ((v <~ get_u8 ;; t <~ get_u8 ;; rd_ret (v, t)) inp) (fun '((v, t), rest) =>
    if negb (v =? kProtocolVersion) || negb (t =? MsgType.code MsgType.Data) then Reject
    else
      res_bind ((sid <~ get_u16 ;; seq <~ get_u64 ;; flags <~ get_u8 ;; len <~ get_u16 ;;
                 offset <~ get_u64 ;; sent <~ get_u64 ;;
                 rd_ret (mkBlockHeader sid seq flags len offset, sent)) rest)
        (fun '((hdr, sent), tail) =>
          if kMaxPayloadSize <? bh_payload_len hdr then Reject
          else if lenZ inp <? kDataPrefixSize + bh_payload_len hdr then Reject
          else
            if 0 <? bh_payload_len hdr
            then res_bind (get_bytes (bh_payload_len hdr) tail)
                          (fun '(p, _) => Ok (mkDataDatagram hdr sent (Some p)))
            else Ok (mkDataDatagram hdr sent None))).

(** ** The wire layout *)

Definition payload_bytes (p : option bytes) : bytes := default [] p.

Definition data_prefix (h : BlockHeader) (sent : Z) : bytes :=
  be 2 (bh_stream_id h) ++ be 8 (bh_seq_no h) ++ [u8 (bh_flags h)] ++ be 2 (bh_payload_len h) ++
  be 8 (bh_offset h) ++ be 8 sent.

Definition data_wire (d : DataDatagram) : bytes :=
  outer MsgType.Data ++ data_prefix (dd_hdr d) (dd_send_time_ns d) ++ payload_bytes (dd_payload d).

Definition wf_header (h : BlockHeader) : Prop :=
  is_u16 (bh_stream_id h) /\ is_u64 (bh_seq_no h) /\ is_u8 (bh_flags h) /\
  0 <= bh_payload_len h <= kMaxPayloadSize /\ is_u64 (bh_offset h).

(** A payload pointer matches the header's length; it is null when that is 0. *)
Definition wf_data (d : DataDatagram) : Prop :=
  wf_header (dd_hdr d) /\ is_u64 (dd_send_time_ns d) /\
  match dd_payload d with
  | Some p => 0 < lenZ p /\ lenZ p = bh_payload_len (dd_hdr d)
  | None => bh_payload_len (dd_hdr d) = 0
  end.

#[export] Instance data_codec : WireCodec DataDatagram := {
  wf_msg := wf_data;
  wire := data_wire;
  encode d := encode_data_datagram (dd_hdr d) (dd_send_time_ns d) (dd_payload d);
  decode := decode_data_datagram;
}.

(** ** The codec laws of the DATA datagram *)

Definition data_fields : rd (BlockHeader * Z) :=
  sid <~ get_u16 ;; seq <~ get_u64 ;; flags <~ get_u8 ;; len <~ get_u16 ;;
  offset <~ get_u64 ;; sent <~ get_u64 ;; rd_ret (mkBlockHeader sid seq flags len offset, sent).

(** The decoder with its first two reads seen as the check of the outer header. *)
Lemma decode_data_outer inp :
  decode_data_datagram inp =
  if lenZ inp <? kDataPrefixSize then Reject
  else res_bind (check_outer inp MsgType.Data) (fun rest =>
    res_bind (data_fields rest) (fun '((hdr, sent), tail) =>
      if kMaxPayloadSize <? bh_payload_len hdr then Reject
      else if lenZ inp <? kDataPrefixSize + bh_payload_len hdr then Reject
      else if 0 <? bh_payload_len hdr
        then res_bind (get_bytes (bh_payload_len hdr) tail)
                      (fun '(p, _) => Ok (mkDataDatagram hdr sent (Some p)))
        else Ok (mkDataDatagram hdr sent None))).
Proof.
  unfold decode_data_datagram. fold data_fields. split_if; [done |].
  destruct inp as [| v [| t rest]]; [done .. |].
  unfold check_outer. split_if; [exfalso; sizes; lia |].
  unfold nthZ. simpl (_ !! _). cbn [Z.ltb Z.compare].
  unfold rd_bind at 1 2. cbn [get_u8 res_bind rd_ret].
  destruct (v =? kProtocolVersion); cbn [negb orb]; [| done].
  destruct (t =? MsgType.code MsgType.Data); cbn [negb]; [done | done].
Qed.

Lemma data_fields_wire h sent rest :
  wf_header h -> is_u64 sent -> data_fields (data_prefix h sent ++ rest) = Ok ((h, sent), rest).
Proof.
  intros (H1 & H2 & H3 & H4 & H5) H6.
  assert (is_u16 (bh_payload_len h)) by (unfold is_u16, kMaxPayloadSize in *; lia).
  unfold data_fields, data_prefix. read_fields. by destruct h.
Qed.

Lemma reads_data_fields : reads data_fields 29.
Proof.
  replace 29 with (2 + (8 + (1 + (2 + (8 + (8 + 0)))))) by lia. unfold data_fields.
  repeat (apply reads_bind; [lia .. | auto with codec | intros]). auto with codec.
Qed.

Lemma lenZ_data_prefix h sent : lenZ (data_prefix h sent) = 29.
Proof. done. Qed.
#[export] Hint Rewrite lenZ_data_prefix : len.

Lemma lenZ_payload d : wf_data d -> lenZ (payload_bytes (dd_payload d)) = bh_payload_len (dd_hdr d).
Proof. intros (_ & _ & H). unfold payload_bytes. destruct (dd_payload d); simpl; [lia | done]. Qed.

Lemma lenZ_data_wire d : wf_data d -> lenZ (data_wire d) = kDataPrefixSize + bh_payload_len (dd_hdr d).
Proof.
  intros H. unfold data_wire. autorewrite with len. rewrite lenZ_payload by done.
  change kDataPrefixSize with 31. lia.
Qed.

Lemma writes_payload d :
  wf_data d ->
  writes (match dd_payload d with
          | Some p => if 0 <? bh_payload_len (dd_hdr d) then put_payload p (bh_payload_len (dd_hdr d))
                      else put_nothing (bh_payload_len (dd_hdr d))
          | None => put_nothing (bh_payload_len (dd_hdr d))
          end) (payload_bytes (dd_payload d)).
Proof.
  intros (_ & _ & H). destruct (dd_payload d) as [p |]; simpl.
  - destruct H as [Hpos <-]. split_if; [| lia]. unfold put_payload. split_if; [lia |].
    rewrite <- (app_nil_r p) at 2. rewrite take_all_lenZ. auto with codec.
  - rewrite H. intros rest Hr. unfold put_nothing. split_if; [sizes; lia |]. done.
Qed.

Lemma data_sound inp m :
  Forall is_u8 inp -> decode inp = Ok m -> wf_msg m /\ exists tail, inp = wire (M := DataDatagram) m ++ tail.
Proof.
  intros Hb H. unfold decode, wf_msg, wire, data_codec in *. rewrite decode_data_outer in H.
  split_if_in H; [done |]. apply res_bind_inv in H as (rest & E & H).
  apply check_outer_sound in E as [-> Hr]; [| done].
  apply res_bind_inv in H as ([[h sent] tail] & E & H). unfold data_fields in E. inv_fields.
  cbn [bh_payload_len] in *. split_if_in H; [done |]. split_if_in H; [done |].
  unfold data_wire, data_prefix, wf_data, wf_header. split_if_in H.
  - apply res_bind_inv in H as ([p tl] & E & [= <-]). inv_fields. cbn.
    split; [| eexists; by rewrite <- !app_assoc]. split_and!; done || ulia.
  - injection H as <-. cbn. split; [| eexists; by rewrite <- !app_assoc]. split_and!; done || ulia.
Qed.

#[export] Instance data_laws : CodecLaws DataDatagram.
Proof.
  split.
  - intros d out Hwf Hroom. change (wire d) with (data_wire d) in *.
    rewrite lenZ_data_wire in Hroom by done. pose proof (writes_payload d Hwf) as Hp.
    destruct (Hwf) as ((_ & _ & _ & H4 & _) & _). unfold encode, data_codec, encode_data_datagram.
    split_if; [lia |]. split_if; [lia |]. apply run_wr_writes; [| rewrite lenZ_data_wire by done; lia].
    unfold data_wire, data_prefix, outer. rewrite <- !app_assoc.
    change ([u8 kProtocolVersion; u8 (MsgType.code MsgType.Data)] ++ ?x)
      with ([u8 kProtocolVersion] ++ [u8 (MsgType.code MsgType.Data)] ++ x).
    do 8 (apply writes_seq; [auto with codec |]). done.
  - intros d out Hwf Hroom. change (wire d) with (data_wire d) in *.
    rewrite lenZ_data_wire in Hroom by done. destruct Hwf as ((_ & _ & _ & H4 & _) & _).
    unfold encode, data_codec, encode_data_datagram. split_if; [done |]. by split_if; [| lia].
  - intros d tail Hwf. change (wire d) with (data_wire d). pose proof (lenZ_data_wire d Hwf) as Hlen.
    pose proof (lenZ_payload d Hwf) as Hpl. pose proof (lenZ_nonneg tail).
    destruct Hwf as ((H1 & H2 & H3 & H4 & H5) & H6 & H7).
    unfold decode, data_codec. rewrite decode_data_outer, lenZ_app, Hlen.
    split_if; [lia |]. unfold data_wire. rewrite <- !app_assoc, check_outer_wire. cbn [res_bind].
    rewrite data_fields_wire by done. cbn [res_bind]. split_if; [lia |]. split_if; [lia |].
    destruct d as [h sent [p |]]; simpl in *.
    + split_if; [| lia]. destruct H7 as [_ <-]. by rewrite get_bytes_app.
    + split_if; [lia | done].
  - exact data_sound.
  - intros inp Hb. unfold decode, data_codec. rewrite decode_data_outer. split_if; [done |].
    destruct (check_outer inp MsgType.Data) as [| | rest] eqn:E;
      [by apply check_outer_no_fault in E | done |].
    apply check_outer_inv in E as ->. cbn [res_bind].
    change kDataPrefixSize with 31 in *. sizes. pose proof (reads_data_fields rest ltac:(lia)) as Hr.
    destruct (data_fields rest) as [| | [[h sent] tail]]; [done .. |]. destruct Hr as [_ Hr].
    cbn [res_bind]. split_if; [done |]. split_if; [done |]. split_if; [| done].
    unfold get_bytes. by split_if; [lia |].
  - intros d k Hwf Hk. change (wire d) with (data_wire d) in *.
    pose proof (lenZ_data_wire d Hwf) as Hlen. destruct Hwf as (Hh & H6 & H7).
    unfold decode, data_codec. rewrite decode_data_outer, lenZ_take by lia. split_if; [done |].
    unfold data_wire. change kDataPrefixSize with 31 in *. rewrite check_outer_take by lia.
    split_if; [done |]. cbn [res_bind].
    rewrite take_pre by (sizes; lia). rewrite data_fields_wire by done. cbn [res_bind].
    split_if; [done |]. by split_if; [| lia].
Qed.

(** The datagram of a block whose payload is the first bytes of [p]. *)
Definition block_datagram (hdr : BlockHeader) (send_time_ns : Z) (p : bytes) : DataDatagram :=
  mkDataDatagram hdr send_time_ns (if 0 <? bh_payload_len hdr then Some (take (Z.to_nat (bh_payload_len hdr)) p) else None).

Lemma block_datagram_wf hdr sent p : wf_header hdr -> is_u64 sent -> bh_payload_len hdr <= lenZ p -> wf_data (block_datagram hdr sent p).
Proof.
  intros Hh Hs Hp. destruct (Hh) as (_ & _ & _ & Hl & _). split_and!; [done | done |]. unfold block_datagram. cbn [dd_payload dd_hdr].
  destruct (Z.ltb_spec 0 (bh_payload_len hdr)); [| lia]. by rewrite lenZ_take by lia.
Qed.

Lemma encode_block hdr sent p out :
  wf_header hdr -> is_u64 sent -> bh_payload_len hdr <= lenZ p -> kDataPrefixSize + bh_payload_len hdr <= lenZ out ->
  encode_data_datagram hdr sent (Some p) out =
  Ok (data_wire (block_datagram hdr sent p) ++ drop (length (data_wire (block_datagram hdr sent p))) out, kDataPrefixSize + bh_payload_len hdr).
Proof.
  intros Hh Hs Hp Ho. pose proof (block_datagram_wf hdr sent p Hh Hs Hp) as Hd.
  pose proof (lenZ_data_wire _ Hd) as El. change (dd_hdr (block_datagram hdr sent p)) with hdr in El. rewrite <- El.
  assert (encode (block_datagram hdr sent p) out = Ok (wire (block_datagram hdr sent p) ++ drop (length (wire (block_datagram hdr sent p))) out, lenZ (wire (block_datagram hdr sent p)))) as Ew
    by (apply encode_wire; [done |]; change (wire ?x) with (data_wire x); lia).
  change (data_wire (block_datagram hdr sent p)) with (wire (block_datagram hdr sent p)). rewrite <- Ew.
  destruct (Hh) as (_ & _ & _ & Hl & _). unfold encode, data_codec, encode_data_datagram. cbn [block_datagram dd_hdr dd_send_time_ns dd_payload].
  destruct (Z.ltb_spec kMaxPayloadSize (bh_payload_len hdr)); [done |]. destruct (Z.ltb_spec (lenZ out) (kDataPrefixSize + bh_payload_len hdr)); [done |].
  destruct (Z.ltb_spec 0 (bh_payload_len hdr)) as [Hpos |]; [| done]. unfold put_payload. rewrite lenZ_take by lia.
  destruct (Z.ltb_spec (lenZ p) (bh_payload_len hdr)); [lia |]. rewrite Z.ltb_irrefl, take_take, Nat.min_id. done.
Qed.

(** ** Version negotiation and dispatch *)

(** The reply of a peer that speaks protocol version [v]. *)
Definition mismatch_reply (v : Z) : bytes := [v; kVersionMismatchMarker; v].

Lemma encode_version_mismatch_reply out :
  3 <= lenZ out ->
  encode_version_mismatch out = Ok (mismatch_reply kProtocolVersion ++ drop 3 out, 3).
Proof.
  intros H. unfold encode_version_mismatch, kVersionMismatchSize. split_if; [lia |].
  by destruct out as [| a [| b [| c out]]].
Qed.

(** The decoders of the receive loops, by the message type they are called for. *)
Definition message_decoders (inp : bytes) : list (MsgType.MsgType * Prop) :=
  [ (MsgType.Data, exists m, decode_data_datagram inp = Ok m);
    (MsgType.Heartbeat, exists m, decode_heartbeat inp = Ok m);
    (MsgType.StreamStart, exists m ss0, decode_stream_start inp ss0 = Ok m);
    (MsgType.Ack, exists m, decode_ack inp = Ok m);
    (MsgType.Nack, exists m nack0, decode_nack inp nack0 = Ok m);
    (MsgType.StreamClose, exists m, decode_stream_close inp = Ok m);
    (MsgType.ResumeRanges, exists m rr0, decode_resume_ranges inp rr0 = Ok m);
    (MsgType.FileDigest, exists m, decode_digest inp = Ok m);
    (MsgType.Retry, exists m, decode_retry inp = Ok m);
    (MsgType.PathChallenge, exists m, decode_path_probe MsgType.PathChallenge inp = Ok m);
    (MsgType.PathResponse, exists m, decode_path_probe MsgType.PathResponse inp = Ok m) ].

Lemma check_outer_peek {A} inp t (k : bytes -> res A) a :
  res_bind (check_outer inp t) k = Ok a -> peek_msg_type inp = Ok (MsgType.code t).
Proof.
  intros (rest & ->%check_outer_inv & _)%res_bind_inv. unfold peek_msg_type.
  split_if; [exfalso; sizes; lia | done].
Qed.

Lemma decoder_peeks inp t P : (t, P) ∈ message_decoders inp -> P -> peek_msg_type inp = Ok (MsgType.code t).
Proof.
  unfold message_decoders. intros Hin HP. apply elem_of_cons in Hin as [[= -> ->] | Hin].
  { destruct HP as [m H]. rewrite decode_data_outer in H. split_if_in H; [done |].
    eapply check_outer_peek, H. }
  repeat (apply elem_of_cons in Hin as [[= -> ->] | Hin];
    [destruct HP as [m H]; lazymatch type of H with ex _ => destruct H as [? H] | _ => idtac end;
     eapply check_outer_peek, H |]). by apply elem_of_nil in Hin.
Qed.

(** A DATA datagram survives the wire with its payload, the decoder accepts
    exactly the datagrams that start with a well-formed block (a payload of at
    most 16384 bytes wholly present), reads nothing outside the datagram, refuses
    every truncation, and the encoder stays inside its buffer. *)
Theorem data_datagram_codec :
  roundtrips DataDatagram /\ decodes_exactly DataDatagram /\ decodes_safely DataDatagram /\
  rejects_truncation DataDatagram /\ encodes_safely DataDatagram.
Proof.
  split_and!; [exact (codec_roundtrips _) | exact (codec_decodes_exactly _) | | |
    exact (codec_encodes_safely _)].
  - intros inp Hb. by apply decode_no_fault.
  - intros m k Hwf Hk. by apply decode_truncated.
Qed.

(** The receive loops dispatch soundly: whichever decoder accepts a datagram,
    [peek_msg_type] reports that decoder's type, so at most one kind of message
    is ever read from a datagram, and no accepted datagram is answered as one of
    a foreign protocol version. *)
Theorem dispatch_unambiguous inp t1 P1 t2 P2 :
  (t1, P1) ∈ message_decoders inp -> P1 -> (t2, P2) ∈ message_decoders inp -> P2 ->
  peek_msg_type inp = Ok (MsgType.code t1) /\ t1 = t2 /\ is_foreign_version inp = Ok false.
Proof.
  intros H1 A1 H2 A2. pose proof (decoder_peeks _ _ _ H1 A1) as E1.
  pose proof (decoder_peeks _ _ _ H2 A2) as E2. rewrite E1 in E2. injection E2 as E2.
  split_and!; [done | by apply MsgType.code_inj |].
  unfold peek_msg_type, is_foreign_version in *. split_if_in E1; [done |]. split_if; [lia |].
  destruct (nthZ inp 0) as [v |], (nthZ inp 1) as [t |]; try done.
  split_if_in E1; [done |]. by subst.
Qed.

Definition heartbeat_example : bytes := [8; 1; 0; 7; 0; 0; 0; 0; 0; 0; 0; 9].

Lemma dispatch_unambiguous_witness :
  peek_msg_type heartbeat_example = Ok (MsgType.code MsgType.Heartbeat) /\
  MsgType.Heartbeat = MsgType.Heartbeat /\ is_foreign_version heartbeat_example = Ok false.
Proof.
  apply (dispatch_unambiguous heartbeat_example
           _ (exists m, decode_heartbeat heartbeat_example = Ok m)
           _ (exists m, decode_heartbeat heartbeat_example = Ok m)).
  - right. left.
  - by eexists.
  - right. left.
  - by eexists.
Defined.

(** Version negotiation: the reply a peer of another version [v] sends is
    recognised and yields [v]; a reply is never itself answered, whatever the
    version, so two mismatched peers cannot ping-pong; a datagram of our own
    version is never reported foreign; and our reply is the three bytes any
    version recognises. *)
Theorem version_negotiation v inp out :
  is_u8 v -> v <> kProtocolVersion -> 3 <= lenZ out ->
  decode_version_mismatch (mismatch_reply v) = Ok v /\
  is_foreign_version (mismatch_reply v) = Ok false /\
  (forall t, peek_msg_type inp = Ok t -> is_foreign_version inp = Ok false) /\
  (is_foreign_version inp = Ok true -> decode_version_mismatch inp = Reject) /\
  encode_version_mismatch out = Ok (mismatch_reply kProtocolVersion ++ drop 3 out, 3).
Proof.
  intros Hv Hne Hout. split_and!.
  - change (decode_version_mismatch (mismatch_reply v))
      with (if negb (v =? v) || (v =? kProtocolVersion) then Reject else Ok v).
    rewrite Z.eqb_refl. by apply Z.eqb_neq in Hne as ->.
  - change (is_foreign_version (mismatch_reply v))
      with (Ok (negb (v =? kProtocolVersion) && false)). by rewrite andb_false_r.
  - intros t Ht. unfold peek_msg_type, is_foreign_version in *. split_if_in Ht; [done |].
    split_if; [done |]. destruct (nthZ inp 0), (nthZ inp 1); try done. by split_if_in Ht.
  - intros H. unfold is_foreign_version, decode_version_mismatch in *. split_if; [done |].
    split_if_in H; [done |]. destruct (nthZ_Some inp 2) as [x ->]; [unfold kVersionMismatchSize in *; lia |].
    destruct (nthZ inp 0) as [a |], (nthZ inp 1) as [b |]; try done.
    injection H as [_ H]%andb_prop. by rewrite H.
  - by apply encode_version_mismatch_reply.
Qed.

Lemma version_negotiation_witness :
  decode_version_mismatch (mismatch_reply 7) = Ok 7 /\
  is_foreign_version (mismatch_reply 7) = Ok false /\
  (forall t, peek_msg_type [8; 2] = Ok t -> is_foreign_version [8; 2] = Ok false) /\
  (is_foreign_version [8; 2] = Ok true -> decode_version_mismatch [8; 2] = Reject) /\
  encode_version_mismatch [0; 0; 0] = Ok (mismatch_reply kProtocolVersion ++ [], 3).
Proof. apply (version_negotiation 7 [8; 2] [0; 0; 0]); [unfold is_u8; lia | done | done]. Defined.

(** A reply can be larger than the datagram it answers: exactly the two-byte
    foreign datagrams draw a three-byte reply. *)
Theorem version_reply_size inp out buf n :
  is_foreign_version inp = Ok true -> encode_version_mismatch out = Ok (buf, n) -> n <> 0 ->
  (lenZ inp < n <-> lenZ inp = 2).
Proof.
  unfold is_foreign_version, encode_version_mismatch, kOuterHeaderSize, kVersionMismatchSize.
  intros H1 H2 Hn. split_if_in H1; [done |]. split_if_in H2; [by injection H2 as <- <- |].
  injection H2 as <- <-. lia.
Qed.

Lemma version_reply_size_witness : lenZ [7; 2] < 3 <-> lenZ [7; 2] = 2.
Proof. by apply (version_reply_size [7; 2] [0; 0; 0] [8; 255; 8] 3). Defined.
