(* ===== verification/Hash.v ===== *)
(** * Hashes

    Models include/fuse/proto/hash.hpp: the FNV-1a style 64-bit hash of the SETUP
    handshake and SipHash-2-4, the keyed hash of address tokens. *)

From S2P Require Import Prelude.

Definition fnv_basis : Z := 1469598103934665603.
Definition fnv_prime : Z := 1099511628211.

Definition hash64_step (h b : Z) : Z := u64 (Z.lxor h b * fnv_prime).

Definition hash64 (data : bytes) : Z := foldl hash64_step fnv_basis data.

(** ** SipHash-2-4 *)

(** The lambda [rd]: eight bytes, the last one first. *)
Definition sip_rd (p : bytes) : Z :=
  foldl (fun v i => Z.lor (u64 (Z.shiftl v 8)) (getZ p i)) 0 [7; 6; 5; 4; 3; 2; 1; 0].

Definition rotl (x b : Z) : Z := Z.lor (u64 (Z.shiftl x b)) (Z.shiftr x (64 - b)).

Record sip_state := mkSip { v0 : Z; v1 : Z; v2 : Z; v3 : Z }.

(** The lambda [round], line by line. *)
Definition sip_round (s : sip_state) : sip_state :=
  let a := u64 (v0 s + v1 s) in let b := rotl (v1 s) 13 in let b := Z.lxor b a in let a := rotl a 32 in
  let c := u64 (v2 s + v3 s) in let d := rotl (v3 s) 16 in let d := Z.lxor d c in
  let a := u64 (a + d) in let d := rotl d 21 in let d := Z.lxor d a in
  let c := u64 (c + b) in let b := rotl b 17 in let b := Z.lxor b c in let c := rotl c 32 in
  mkSip a b c d.

Definition sip_init (key : bytes) : sip_state :=
  let k0 := sip_rd key in
  let k1 := sip_rd (drop 8 key) in
  mkSip (Z.lxor 8317987319222330741 k0) (Z.lxor 7237128888997146477 k1)
        (Z.lxor 7816392313619706465 k0) (Z.lxor 8387220255154660723 k1).

(** One word of the message. *)
Definition sip_block (s : sip_state) (m : Z) : sip_state :=
  let s := mkSip (v0 s) (v1 s) (v2 s) (Z.lxor (v3 s) m) in
  let s := sip_round (sip_round s) in
  mkSip (Z.lxor (v0 s) m) (v1 s) (v2 s) (v3 s).

(** [for (i = 0; i < whole; i += 8)], with [n] words left. *)
Fixpoint sip_words (n : nat) (data : bytes) (s : sip_state) : sip_state :=
  match n with
  | O => s
  | S n => sip_words n (drop 8 data) (sip_block s (sip_rd data))
  end.

Definition sip_last (len : Z) (rest : bytes) : Z :=
  for_up (Z.to_nat (len mod 8)) 0
    (fun i last => Z.lor last (u64 (Z.shiftl (getZ rest i) (8 * i)))) (u64 (Z.shiftl len 56)).

Definition siphash24 (key data : bytes) : Z :=
  let len := lenZ data in
  let whole := len - len mod 8 in
  let s := sip_words (Z.to_nat (whole / 8)) data (sip_init key) in
  let s := sip_block s (sip_last len (drop (Z.to_nat whole) data)) in
  let s := mkSip (v0 s) (v1 s) (Z.lxor (v2 s) 255) (v3 s) in
  let s := sip_round (sip_round (sip_round (sip_round s))) in
  Z.lxor (Z.lxor (Z.lxor (v0 s) (v1 s)) (v2 s)) (v3 s).

(** The SipHash reference vectors of tests/proto/test_wire.cpp: key 00..0f, message
    00, 01, ... of lengths 0, 1, 8 and 15. *)
Example siphash24_vectors :
  (fun n => siphash24 (seqZ 0 16) (seqZ 0 n)) <$> [0; 1; 8; 15] =
  [8246050544436514353; 8428550223375919101; 10661697595502699618; 11613035633349379557].
Proof. vm_compute. reflexivity. Qed.

(** ** The token hash is a 64-bit value *)

Lemma lxor_range a b w : 0 <= w -> 0 <= a < 2 ^ w -> 0 <= b < 2 ^ w -> 0 <= Z.lxor a b < 2 ^ w.
Proof.
  intros Hw Ha Hb. apply lt_pow2_bits; [done |]. intros i Hi.
  by rewrite Z.lxor_spec, (testbit_ge_false a w), (testbit_ge_false b w) by lia.
Qed.

Definition sip_wf (s : sip_state) : Prop := is_u64 (v0 s) /\ is_u64 (v1 s) /\ is_u64 (v2 s) /\ is_u64 (v3 s).

Lemma lxor_u64 a b : is_u64 a -> is_u64 b -> is_u64 (Z.lxor a b).
Proof. intros. by apply (lxor_range a b 64). Qed.

Lemma lor_u64 a b : is_u64 a -> is_u64 b -> is_u64 (Z.lor a b).
Proof. intros. by apply (lor_range a b 64). Qed.

Lemma rotl_u64 x b : is_u64 x -> 0 <= b <= 64 -> is_u64 (rotl x b).
Proof.
  intros Hx Hb. apply lor_u64; [apply u64_range |]. rewrite Z.shiftr_div_pow2 by lia. unfold is_u64 in *.
  assert (0 < 2 ^ (64 - b)) by (apply Z.pow_pos_nonneg; lia). split; [apply Z.div_pos; lia |].
  apply Z.div_lt_upper_bound; [done |]. nia.
Qed.

Create HintDb sip.
#[local] Hint Resolve lxor_u64 lor_u64 u64_range : sip.
#[local] Hint Extern 2 (is_u64 (rotl _ _)) => apply rotl_u64; [| lia] : sip.

Lemma sip_round_wf s : sip_wf s -> sip_wf (sip_round s).
Proof. intros (? & ? & ? & ?). unfold sip_round. split_and!; cbn [v0 v1 v2 v3]; auto 12 with sip. Qed.

Lemma sip_block_wf s m : is_u64 m -> sip_wf s -> sip_wf (sip_block s m).
Proof.
  intros Hm (? & ? & ? & ?). unfold sip_block. cbv zeta.
  assert (sip_wf (sip_round (sip_round (mkSip (v0 s) (v1 s) (v2 s) (Z.lxor (v3 s) m))))) as Hs.
  { do 2 apply sip_round_wf. by split_and!; [.. | apply lxor_u64]. }
  revert Hs. generalize (sip_round (sip_round (mkSip (v0 s) (v1 s) (v2 s) (Z.lxor (v3 s) m)))). intros t (? & ? & ? & ?).
  by split_and!; [apply lxor_u64 | ..].
Qed.

Lemma getZ_u64 p i : Forall is_u8 p -> is_u64 (getZ p i).
Proof.
  intros Hp. unfold getZ. rewrite nth_lookup. destruct (p !! Z.to_nat i) as [x |] eqn:E; cbn; [| unfold is_u64; lia].
  pose proof (Forall_lookup_1 _ _ _ _ Hp E). unfold is_u8, is_u64 in *. lia.
Qed.

Lemma sip_rd_u64 p : Forall is_u8 p -> is_u64 (sip_rd p).
Proof.
  intros Hp. unfold sip_rd. cbn [foldl]. repeat (apply lor_u64; [apply u64_range | by apply getZ_u64]).
Qed.

Lemma sip_words_wf n data s : Forall is_u8 data -> sip_wf s -> sip_wf (sip_words n data s).
Proof.
  revert data s. induction n as [| n IH]; intros data s Hd Hs; cbn [sip_words]; [done |].
  apply IH; [by apply Forall_drop |]. apply sip_block_wf; [by apply sip_rd_u64 | done].
Qed.

Lemma siphash24_u64 key data : Forall is_u8 key -> Forall is_u8 data -> is_u64 (siphash24 key data).
Proof.
  intros Hk Hd. unfold siphash24. set (len := lenZ data). set (rest := drop _ data).
  assert (is_u64 (sip_last len rest)) as Hl.
  { unfold sip_last. apply (for_up_ind (fun _ v => is_u64 v)); [apply u64_range |]. intros. auto with sip. }
  assert (sip_wf (sip_init key)) as Hi.
  { assert (Forall is_u8 (drop 8 key)) by by apply Forall_drop. unfold sip_init. split_and!; cbn [v0 v1 v2 v3];
      (apply lxor_u64; [unfold is_u64; lia | by apply sip_rd_u64]). }
  pose proof (sip_block_wf _ _ Hl (sip_words_wf (Z.to_nat ((len - len mod 8) / 8)) data _ Hd Hi)) as Hs. revert Hs.
  generalize (sip_block (sip_words (Z.to_nat ((len - len mod 8) / 8)) data (sip_init key)) (sip_last len rest)). intros s (? & ? & ? & ?).
  assert (sip_wf (mkSip (v0 s) (v1 s) (Z.lxor (v2 s) 255) (v3 s))) as Hs by (by split_and!; [.. | apply lxor_u64; [| unfold is_u64; lia] |]).
  revert Hs. cbv zeta. generalize (mkSip (v0 s) (v1 s) (Z.lxor (v2 s) 255) (v3 s)). intros t Ht. do 4 apply sip_round_wf in Ht. revert Ht.
  generalize (sip_round (sip_round (sip_round (sip_round t)))). intros u (? & ? & ? & ?). auto with sip.
Qed.

(** ** What the handshake hash detects *)

Lemma lxor_cancel_r a b c : Z.lxor a c = Z.lxor b c -> a = b.
Proof.
  intros H. rewrite <- (Z.lxor_0_r a), <- (Z.lxor_nilpotent c), <- Z.lxor_assoc, H.
  by rewrite Z.lxor_assoc, Z.lxor_nilpotent, Z.lxor_0_r.
Qed.

Lemma lxor_cancel_l a b c : Z.lxor c a = Z.lxor c b -> a = b.
Proof. rewrite !(Z.lxor_comm c). apply lxor_cancel_r. Qed.

(** The prime is odd, so multiplication by it is invertible modulo 2^64. *)
Definition fnv_inverse : Z := 14886173955864302971.

Lemma mul_prime_inj x y :
  is_u64 x -> is_u64 y -> u64 (x * fnv_prime) = u64 (y * fnv_prime) -> x = y.
Proof.
  intros Hx Hy H. apply (f_equal (fun z => u64 (z * fnv_inverse))) in H. unfold u64 in H.
  rewrite !Z.mul_mod_idemp_l, <- !Z.mul_assoc in H by lia.
  rewrite <- (Z.mul_mod_idemp_r x), <- (Z.mul_mod_idemp_r y) in H by lia.
  change ((fnv_prime * fnv_inverse) mod 2 ^ 64) with 1 in H.
  rewrite !Z.mul_1_r, !Z.mod_small in H by done. done.
Qed.

Lemma is_u8_u64 b : is_u8 b -> is_u64 b.
Proof. unfold is_u8, is_u64. lia. Qed.
#[export] Hint Resolve is_u8_u64 : fuse.

Lemma hash64_step_range h b : is_u64 (hash64_step h b).
Proof. apply u64_range. Qed.

(** A step determines the state from the byte, and the byte from the state. *)
Lemma hash64_step_inj h1 h2 b1 b2 :
  is_u64 h1 -> is_u64 h2 -> is_u8 b1 -> is_u8 b2 ->
  hash64_step h1 b1 = hash64_step h2 b2 -> Z.lxor h1 b1 = Z.lxor h2 b2.
Proof.
  intros H1 H2 Hb1%is_u8_u64 Hb2%is_u8_u64. by apply mul_prime_inj; apply (lxor_range _ _ 64).
Qed.

Lemma hash64_fold_range h data : is_u64 h -> is_u64 (foldl hash64_step h data).
Proof.
  revert h. induction data as [| b data IH]; intros h Hh; [done |]. apply IH, hash64_step_range.
Qed.

Lemma hash64_fold_inj data h1 h2 :
  Forall is_u8 data -> is_u64 h1 -> is_u64 h2 ->
  foldl hash64_step h1 data = foldl hash64_step h2 data -> h1 = h2.
Proof.
  intros Hb. revert h1 h2. induction Hb as [| b data Hb Hbs IH]; intros h1 h2 H1 H2 E; [done |].
  apply IH in E; [| apply hash64_step_range ..]. apply hash64_step_inj in E; [| done ..].
  by eapply lxor_cancel_r.
Qed.

Lemma hash64_range data : is_u64 (hash64 data).
Proof. by apply hash64_fold_range. Qed.

Lemma hash64_one_byte pre a b suf :
  Forall is_u8 pre -> is_u8 a -> is_u8 b -> Forall is_u8 suf ->
  hash64 (pre ++ a :: suf) = hash64 (pre ++ b :: suf) -> a = b.
Proof.
  intros Hpre Ha Hb Hsuf E. unfold hash64 in E. rewrite !foldl_app in E. cbn [foldl] in E.
  apply hash64_fold_inj in E; [| done | apply hash64_step_range ..].
  apply hash64_step_inj in E; [| by apply hash64_fold_range | by apply hash64_fold_range | done ..].
  by eapply lxor_cancel_l.
Qed.

(** The handshake hash detects every single-byte corruption: two byte strings
    that differ in exactly one byte have different hashes. *)
Theorem hash64_detects_one_byte pre a b suf :
  Forall is_u8 pre -> is_u8 a -> is_u8 b -> Forall is_u8 suf -> a <> b ->
  hash64 (pre ++ a :: suf) <> hash64 (pre ++ b :: suf).
Proof. intros Hpre Ha Hb Hsuf Hne E. by apply Hne, (hash64_one_byte pre a b suf). Qed.

Lemma hash64_detects_one_byte_witness : hash64 [1; 2; 3] <> hash64 [1; 9; 3].
Proof.
  apply (hash64_detects_one_byte [1] 2 9 [3]); [all_in_range | | | all_in_range | lia]; unfold is_u8; lia.
Defined.
