(* ===== verification/Bits.v ===== *)
(** * Words of bits

    The bit manipulation the sliding-window code is written in: enumeration of
    the set bits of a word by [__builtin_ctzll] and [bits &= bits - 1] (in
    src/proto/registry.cpp and src/proto/receiver.cpp), and rings of 1024 bits
    held in sixteen 64-bit words (in src/proto/receiver.cpp and
    src/proto/reassembly.cpp).  The lemmas reduce both to [Z.testbit]. *)

From S2P Require Import Prelude.

(** ** Count trailing zeros *)

Fixpoint ctz_pos (p : positive) : Z :=
  match p with
  | xO p => 1 + ctz_pos p
  | _ => 0
  end.

(** [__builtin_ctzll]: undefined at 0, where the code never calls it. *)
Definition ctz (x : Z) : Z :=
  match x with
  | Zpos p => ctz_pos p
  | _ => 0
  end.

Lemma ctz_pos_nonneg p : 0 <= ctz_pos p.
Proof. induction p; simpl; lia. Qed.

Lemma ctz_pos_spec p :
  Z.testbit (Zpos p) (ctz_pos p) = true /\
  forall i, 0 <= i < ctz_pos p -> Z.testbit (Zpos p) i = false.
Proof.
  induction p as [p IH | p IH |]; simpl ctz_pos; [split; [done | lia] | | split; [done | lia]].
  destruct IH as [IH1 IH2]. pose proof (ctz_pos_nonneg p).
  change (Zpos p~0) with (2 * Zpos p). split.
  - replace (1 + ctz_pos p) with (Z.succ (ctz_pos p)) by lia. by rewrite Z.double_bits_succ by lia.
  - intros i Hi. destruct (Z.eq_dec i 0) as [-> | Hne]; [apply Z.testbit_even_0 |].
    replace i with (Z.succ (i - 1)) by lia. rewrite Z.double_bits_succ by lia. apply IH2. lia.
Qed.

Lemma ctz_spec x :
  0 < x ->
  0 <= ctz x /\ Z.testbit x (ctz x) = true /\ forall i, 0 <= i < ctz x -> Z.testbit x i = false.
Proof.
  intros Hx. destruct x as [| p | p]; [lia | | lia]. split; [apply ctz_pos_nonneg | apply ctz_pos_spec].
Qed.

Lemma ctz_lt x n : 0 < x < 2 ^ n -> ctz x < n.
Proof.
  intros Hx. destruct (ctz_spec x) as (H0 & H1 & _); [lia |].
  destruct (Z.lt_ge_cases (ctz x) n) as [? | Hge]; [done |].
  destruct (Z.lt_ge_cases n 0); [rewrite Z.pow_neg_r in Hx; lia |].
  rewrite (testbit_ge_false x n) in H1 by lia. done.
Qed.

(** [bits & (bits - 1)] clears exactly the lowest set bit. *)
Lemma clear_lowest_bits x i :
  0 < x -> 0 <= i -> Z.testbit (Z.land x (x - 1)) i = Z.testbit x i && negb (i =? ctz x).
Proof.
  intros Hx Hi. destruct (ctz_spec x Hx) as (H0 & H1 & H2). set (c := ctz x) in *.
  rewrite Z.land_spec.
  (* x = 2^c * (2 k + 1) *)
  pose proof (Z.pow_pos_nonneg 2 c ltac:(lia) ltac:(lia)) as Hp.
  assert (x mod 2 ^ c = 0) as Hmod.
  { apply Z.bits_inj'. intros j Hj. rewrite Z.bits_0.
    destruct (Z.lt_ge_cases j c); [rewrite Z.mod_pow2_bits_low by lia; apply H2; lia |].
    apply Z.mod_pow2_bits_high. lia. }
  set (y := x / 2 ^ c). assert (x = 2 ^ c * y) as Hxy by (rewrite (Z.div_mod x (2 ^ c)) at 1; lia).
  assert (Z.testbit y 0 = true) as Hodd
    by (unfold y; rewrite Z.div_pow2_bits, Z.add_0_l by lia; done).
  rewrite Z.bit0_odd in Hodd. apply Z.odd_spec in Hodd as [k Hk].
  assert (x - 1 = 2 ^ c * (2 * k) + (2 ^ c - 1)) as Hx1 by nia.
  destruct (Z.lt_trichotomy i c) as [Hlt | [-> | Hgt]].
  - rewrite H2 by lia. done.
  - rewrite Z.eqb_refl, andb_false_r. apply andb_false_intro2.
    rewrite Z.testbit_false by lia. rewrite Hx1.
    replace ((2 ^ c * (2 * k) + (2 ^ c - 1)) / 2 ^ c) with (2 * k); [mlia |].
    apply (Z.div_unique _ _ _ (2 ^ c - 1)); lia.
  - destruct (Z.eqb_spec i c); [lia |]. rewrite andb_true_r.
    enough (Z.testbit (x - 1) i = Z.testbit x i) as -> by apply andb_diag.
    assert (x / 2 ^ (c + 1) = k) as E1.
    { symmetry. apply (Z.div_unique _ _ _ (2 ^ c)); rewrite ?Z.pow_add_r by lia; nia. }
    assert ((x - 1) / 2 ^ (c + 1) = k) as E2.
    { symmetry. apply (Z.div_unique _ _ _ (2 ^ c - 1)); rewrite ?Z.pow_add_r by lia; nia. }
    replace i with (i - (c + 1) + (c + 1)) by lia.
    by rewrite <- !Z.div_pow2_bits, E1, E2 by lia.
Qed.

(** ** Enumerating the set bits of a word *)

(** [while (bits != 0) { b = ctz(bits); bits &= bits - 1; body(b) }], where the
    body says whether it breaks out of the loop.  [Fault] is the loop running
    out of fuel. *)
Fixpoint foreach_bit {S : Type} (fuel : nat) (bits : Z) (body : Z -> S -> S * bool) (s : S) : res S :=
  if bits =? 0 then Ok s
  else
    match fuel with
    | O => Fault
    | Datatypes.S n =>
        let '(s', brk) := body (ctz bits) s in
        if brk then Ok s' else foreach_bit n (Z.land bits (u64 (bits - 1))) body s'
    end.

(** A fold over a list that the body can leave early. *)
Fixpoint fold_break {A S : Type} (body : A -> S -> S * bool) (xs : list A) (s : S) : S :=
  match xs with
  | [] => s
  | x :: xs => let '(s', brk) := body x s in if brk then s' else fold_break body xs s'
  end.

(** The positions of the set bits of a 64-bit word, lowest first. *)
Definition set_bits (x : Z) : list Z := filter (fun i => Z.testbit x i = true) (seqZ 0 64).

Lemma elem_of_set_bits x i : i ∈ set_bits x <-> 0 <= i < 64 /\ Z.testbit x i = true.
Proof. unfold set_bits. rewrite list_elem_of_filter, elem_of_seqZ. intuition lia. Qed.

Lemma filter_none {A} (P : A -> Prop) `{!forall x, Decision (P x)} l :
  (forall x, x ∈ l -> ~ P x) -> filter P l = [].
Proof.
  induction l as [| x l IH]; intros Hl; [done |].
  rewrite filter_cons_False by (apply Hl; by left). apply IH. intros. apply Hl. by right.
Qed.

Lemma filter_seqZ_first (P : Z -> Prop) `{!forall x, Decision (P x)} lo n c :
  lo <= c < lo + n -> P c -> (forall i, lo <= i < c -> ~ P i) ->
  filter P (seqZ lo n) = c :: filter P (seqZ (c + 1) (lo + n - c - 1)).
Proof.
  intros Hc HP Hlow. replace n with ((c - lo) + (1 + (lo + n - c - 1))) at 1 by lia.
  rewrite seqZ_app, list.filter_app by lia.
  rewrite (filter_none _ (seqZ lo _)) by (intros i Hi%elem_of_seqZ; apply Hlow; lia).
  rewrite seqZ_app by lia. replace (lo + (c - lo)) with c by lia. simpl.
  by rewrite filter_cons_True by done.
Qed.

Lemma filter_ext_in {A} (P Q : A -> Prop) `{!forall x, Decision (P x), !forall x, Decision (Q x)} (l : list A) :
  (forall x, x ∈ l -> P x <-> Q x) -> filter P l = filter Q l.
Proof.
  induction l as [| x l IH]; intros Hl; [done |]. rewrite !filter_cons.
  rewrite IH by (intros; apply Hl; by right). pose proof (Hl x ltac:(by left)).
  destruct (decide (P x)), (decide (Q x)); tauto.
Qed.

Lemma foreach_bit_from {S} fuel lo bits body (s : S) :
  0 <= lo <= 64 -> 64 - lo <= Z.of_nat fuel -> is_u64 bits ->
  (forall i, 0 <= i < lo -> Z.testbit bits i = false) ->
  foreach_bit fuel bits body s =
  Ok (fold_break body (filter (fun i => Z.testbit bits i = true) (seqZ lo (64 - lo))) s).
Proof.
  unfold is_u64. revert lo bits s. induction fuel as [| fuel IH]; intros lo bits s Hlo Hf Hb Hlow.
  { assert (lo = 64) as -> by lia. replace bits with 0; [done |].
    apply (bits_eq_below _ _ 64); [lia .. |]. intros i Hi. by rewrite Hlow, Z.bits_0 by lia. }
  cbn [foreach_bit]. destruct (Z.eqb_spec bits 0) as [-> | Hne].
  { by rewrite filter_none by (intros i _; by rewrite Z.bits_0). }
  pose proof (ctz_spec bits ltac:(lia)) as (H0 & H1 & H2). pose proof (ctz_lt bits 64 ltac:(lia)).
  assert (lo <= ctz bits).
  { destruct (Z.lt_ge_cases (ctz bits) lo); [| done]. rewrite Hlow in H1 by lia. done. }
  rewrite (filter_seqZ_first _ lo _ (ctz bits)); [| lia | done |]; cycle 1.
  { intros i Hi. rewrite H2 by lia. done. }
  cbn [fold_break]. destruct (body (ctz bits) s) as [s' brk]. destruct brk; [done |].
  rewrite u64_small by (unfold is_u64; lia).
  pose proof (fun i => clear_lowest_bits bits i ltac:(lia)) as Hclear.
  rewrite (IH (ctz bits + 1)); [| lia | lia | |].
  - do 2 f_equal. replace (lo + (64 - lo) - ctz bits - 1) with (64 - (ctz bits + 1)) by lia.
    apply filter_ext_in. intros i Hi%elem_of_seqZ. rewrite Hclear by lia.
    destruct (Z.eqb_spec i (ctz bits)); [lia |]. by rewrite andb_true_r.
  - apply land_range; [lia | done].
  - intros i Hi. rewrite Hclear by lia. destruct (Z.eqb_spec i (ctz bits)); [by rewrite andb_false_r |].
    rewrite H2 by lia. done.
Qed.

(** Sixty-four rounds are enough for any 64-bit word, and the loop visits its
    set bits from the lowest up. *)
Lemma foreach_bit_spec {S} bits body (s : S) :
  is_u64 bits -> foreach_bit 64 bits body s = Ok (fold_break body (set_bits bits) s).
Proof. intros. apply (foreach_bit_from 64 0); [lia | lia | done | lia]. Qed.

Lemma set_bits_sorted x : StronglySorted Z.lt (set_bits x).
Proof. apply filter_sorted, seqZ_sorted. Qed.

(** A loop over ascending positions that breaks at the first one past a limit
    treats exactly the positions below it. *)
Lemma fold_break_limit {S} (f : Z -> S -> S) (limit : Z) body xs (s : S) :
  StronglySorted Z.lt xs ->
  (forall x s, x ∈ xs -> body x s = if limit <=? x then (s, true) else (f x s, false)) ->
  fold_break body xs s = foldl (fun s x => f x s) s (filter (fun x => x < limit) xs).
Proof.
  intros Hs. revert s. induction Hs as [| x xs Hs IH Hx]; intros s Hbody; [done |].
  cbn [fold_break]. rewrite Hbody by (by left). rewrite filter_cons.
  destruct (Z.leb_spec limit x) as [Hle | Hlt].
  - rewrite decide_False by lia. rewrite filter_none; [done |].
    intros y Hy. apply (proj1 (list.Forall_forall _ _) Hx) in Hy. lia.
  - rewrite decide_True by lia. cbn [foldl]. apply IH. intros. apply Hbody. by right.
Qed.

(** ** Rings of 1024 bits

    A ring holds one bit per sequence number of a window; the bit of sequence
    number [s] is bit [s mod 64] of word [s mod 1024 / 64]. *)

Definition wf_ring (ring : list Z) : Prop := lenZ ring = 16 /\ Forall is_u64 ring.

Definition empty_ring : list Z := replicate 16 0.

(** [1ull << k] for [k < 64]. *)
Definition bit_mask (k : Z) : Z := u64 (Z.shiftl 1 k).

(** [ring[i / 64] & (1ull << (i % 64))], [|=] and [&= ~] at slot [i]. *)
Definition ring_test (ring : list Z) (i : Z) : bool :=
  negb (Z.land (getZ ring (i / 64)) (bit_mask (i mod 64)) =? 0).
Definition ring_set (ring : list Z) (i : Z) : list Z :=
  setZ ring (i / 64) (Z.lor (getZ ring (i / 64)) (bit_mask (i mod 64))).
Definition ring_clear (ring : list Z) (i : Z) : list Z :=
  setZ ring (i / 64) (Z.land (getZ ring (i / 64)) (u64 (Z.lnot (bit_mask (i mod 64))))).

(** The ring's bit for a sequence number. *)
Definition rbit (ring : list Z) (s : Z) : bool :=
  Z.testbit (getZ ring (s mod 1024 / 64)) (s mod 64).

Lemma bit_mask_pow2 k : 0 <= k < 64 -> bit_mask k = 2 ^ k.
Proof.
  intros Hk. unfold bit_mask. rewrite Z.shiftl_1_l. apply u64_small. split; [lia |].
  apply Z.pow_lt_mono_r; lia.
Qed.

Lemma wf_ring_get ring w : wf_ring ring -> is_u64 (getZ ring w).
Proof.
  intros [_ Hall]. unfold getZ. destruct (nth_in_or_default (Z.to_nat w) ring 0) as [Hin | ->]; [| done].
  apply (proj1 (list.Forall_forall _ _) Hall). by apply list_elem_of_In.
Qed.

Lemma wf_ring_setZ ring w v : wf_ring ring -> is_u64 v -> wf_ring (setZ ring w v).
Proof.
  intros [Hl Hall] Hv. split; [by rewrite lenZ_setZ |]. unfold setZ.
  by apply Forall_insert.
Qed.

Lemma empty_ring_wf : wf_ring empty_ring.
Proof. split; [done |]. by apply Forall_replicate. Qed.

Lemma rbit_empty s : rbit empty_ring s = false.
Proof.
  unfold rbit, getZ. rewrite nth_lookup. unfold empty_ring.
  destruct (replicate 16 0 !! _) as [x |] eqn:E; [| apply Z.bits_0].
  apply lookup_replicate in E as [-> _]. apply Z.bits_0.
Qed.

(** Sequence numbers share a ring bit exactly when they are equal modulo 1024. *)
Lemma ring_slot_split s t :
  (s mod 1024 / 64 =? t mod 1024 / 64) && (s mod 64 =? t mod 64) = (s mod 1024 =? t mod 1024).
Proof.
  destruct (Z.eqb_spec (s mod 1024) (t mod 1024)), (Z.eqb_spec (s mod 1024 / 64) (t mod 1024 / 64)),
    (Z.eqb_spec (s mod 64) (t mod 64)); try done; exfalso; mlia.
Qed.

Lemma slot_mod_64 s : s mod 1024 mod 64 = s mod 64.
Proof. mlia. Qed.

Lemma ring_word_range s : 0 <= s mod 1024 / 64 < 16.
Proof. mlia. Qed.

Lemma ring_test_rbit ring s : ring_test ring (s mod 1024) = rbit ring s.
Proof.
  unfold ring_test, rbit. rewrite slot_mod_64, bit_mask_pow2 by mlia.
  rewrite land_pow2_eqb by mlia. apply negb_involutive.
Qed.

Lemma ring_set_wf ring s : wf_ring ring -> wf_ring (ring_set ring (s mod 1024)).
Proof.
  intros Hw. apply wf_ring_setZ; [done |]. apply lor_range; [lia | by apply wf_ring_get |].
  apply u64_range.
Qed.

Lemma ring_clear_wf ring s : wf_ring ring -> wf_ring (ring_clear ring (s mod 1024)).
Proof. intros Hw. apply wf_ring_setZ; [done |]. apply land_range; [lia | by apply wf_ring_get]. Qed.

Lemma rbit_set ring s t :
  wf_ring ring -> rbit (ring_set ring (s mod 1024)) t = (s mod 1024 =? t mod 1024) || rbit ring t.
Proof.
  intros Hw. pose proof (ring_word_range s). pose proof (ring_word_range t). destruct Hw as [Hl _].
  unfold rbit, ring_set. rewrite getZ_setZ by lia. rewrite <- ring_slot_split.
  destruct (Z.eqb_spec (s mod 1024 / 64) (t mod 1024 / 64)) as [E |]; [| done].
  rewrite Z.lor_spec, slot_mod_64, bit_mask_pow2, Z.pow2_bits_eqb by mlia.
  rewrite E. cbn [andb]. apply orb_comm.
Qed.

Lemma rbit_clear ring s t :
  wf_ring ring -> rbit (ring_clear ring (s mod 1024)) t = negb (s mod 1024 =? t mod 1024) && rbit ring t.
Proof.
  intros Hw. pose proof (ring_word_range s). pose proof (ring_word_range t). destruct Hw as [Hl _].
  unfold rbit, ring_clear. rewrite getZ_setZ by lia. rewrite <- ring_slot_split.
  destruct (Z.eqb_spec (s mod 1024 / 64) (t mod 1024 / 64)) as [E |]; [| done].
  rewrite Z.land_spec, slot_mod_64, bit_mask_pow2 by mlia.
  unfold u64. rewrite Z.mod_pow2_bits_low, Z.lnot_spec, Z.pow2_bits_eqb by mlia.
  rewrite E. cbn [andb]. apply andb_comm.
Qed.
