(* ===== verification/Window.v ===== *)
(** * Windows of sequence numbers

    What the receiver's ring (src/proto/receiver.cpp) and the duplicate filter
    of unordered reassembly (src/proto/reassembly.cpp) both stand for: the set
    of sequence numbers seen so far, of which everything below a base has been
    seen and at most 1024 positions from the base are tracked by ring bits. *)

From S2P Require Import Prelude Bits.

(** [base] with the ring's bits represents [acc], the sequence numbers seen. *)
Record ring_repr (base : Z) (ring : list Z) (acc : gset Z) : Prop := {
  rr_wf : wf_ring ring;
  rr_base : 0 <= base;
  rr_below : forall s, 0 <= s < base -> s ∈ acc;
  rr_range : forall s, s ∈ acc -> 0 <= s < base + 1024;
  rr_bits : forall s, base <= s < base + 1024 -> rbit ring s = bool_decide (s ∈ acc);
}.

(** The base is the least sequence number not seen. *)
Definition is_mex (base : Z) (acc : gset Z) : Prop :=
  (base ∉ acc) /\ forall s, 0 <= s < base -> s ∈ acc.

Lemma is_mex_unique b1 b2 acc : 0 <= b1 -> 0 <= b2 -> is_mex b1 acc -> is_mex b2 acc -> b1 = b2.
Proof.
  intros H1 H2 [N1 L1] [N2 L2]. destruct (Z.lt_trichotomy b1 b2) as [? | [? | ?]]; [| done |].
  - exfalso. apply N1, L2. lia.
  - exfalso. apply N2, L1. lia.
Qed.

Lemma ring_repr_empty : ring_repr 0 empty_ring ∅.
Proof.
  split; [apply empty_ring_wf | lia | lia | set_solver |].
  intros s Hs. rewrite rbit_empty. symmetry. apply bool_decide_eq_false. set_solver.
Qed.

(** In one window, equal slots mean equal sequence numbers. *)
Lemma slot_inj base s t :
  base <= s < base + 1024 -> base <= t < base + 1024 -> s mod 1024 = t mod 1024 -> s = t.
Proof. intros. mlia. Qed.

Lemma slot_eqb base s t :
  base <= s < base + 1024 -> base <= t < base + 1024 -> (s mod 1024 =? t mod 1024) = (s =? t).
Proof.
  intros Hs Ht. destruct (Z.eqb_spec s t) as [-> | Hne]; [apply Z.eqb_refl |].
  apply Z.eqb_neq. contradict Hne. by apply (slot_inj base).
Qed.

(** The slot does not see 64-bit wrap-around. *)
Lemma slot_u64 x : u64 x mod 1024 = x mod 1024.
Proof. unfold u64. mlia. Qed.

Lemma ring_test_repr base ring acc s :
  ring_repr base ring acc -> base <= s < base + 1024 ->
  ring_test ring (s mod 1024) = bool_decide (s ∈ acc).
Proof. intros R Hs. rewrite ring_test_rbit. by apply (rr_bits _ _ _ R). Qed.

Lemma ring_set_repr base ring acc s :
  ring_repr base ring acc -> base <= s < base + 1024 ->
  ring_repr base (ring_set ring (s mod 1024)) ({[s]} ∪ acc).
Proof.
  intros R Hs. pose proof (rr_base _ _ _ R). split.
  - by apply ring_set_wf, R.
  - done.
  - intros t Ht. apply elem_of_union_r. by apply (rr_below _ _ _ R).
  - intros t [->%elem_of_singleton | Ht]%elem_of_union; [lia | by apply (rr_range _ _ _ R)].
  - intros t Ht. rewrite rbit_set by apply R. rewrite (slot_eqb base) by done.
    rewrite (rr_bits _ _ _ R) by done. destruct (Z.eqb_spec s t) as [-> | Hne]; simpl.
    + symmetry. apply bool_decide_eq_true. set_solver.
    + apply bool_decide_ext. set_solver.
Qed.

(** Sliding the base past a seen position clears the bit that the position a
    whole ring later will use. *)
Lemma ring_slide_repr base ring acc :
  ring_repr base ring acc -> base ∈ acc ->
  ring_repr (base + 1) (ring_clear ring (base mod 1024)) acc.
Proof.
  intros R Hin. pose proof (rr_base _ _ _ R). split.
  - by apply ring_clear_wf, R.
  - lia.
  - intros s Hs. destruct (Z.eq_dec s base) as [-> |]; [done |]. apply (rr_below _ _ _ R). lia.
  - intros s Hs%(rr_range _ _ _ R). lia.
  - intros s Hs. rewrite rbit_clear by apply R.
    destruct (Z.eq_dec s (base + 1024)) as [-> | Hne].
    + replace ((base + 1024) mod 1024) with (base mod 1024) by mlia. rewrite Z.eqb_refl. simpl.
      symmetry. apply bool_decide_eq_false. intros ?%(rr_range _ _ _ R). lia.
    + rewrite (slot_eqb base) by lia. destruct (Z.eqb_spec base s); [lia |]. simpl.
      apply (rr_bits _ _ _ R). lia.
Qed.
