(* ===== verification/Receiver.v ===== *)
(** * The receiver of a stream

    Models include/fuse/proto/receiver.hpp and src/proto/receiver.cpp: which
    blocks of a stream have arrived (a base and a ring of bits), the ACK that
    reports them and the NACKs for gaps that persist.

    The abstract state is the set of sequence numbers accepted so far; the
    theorems show that [on_receive] is insertion into that set, that an ACK's
    bitmask is membership in it, and that [collect_nacks] reports exactly the
    gaps below the highest block whose timers allow it. *)

From S2P Require Import Prelude Wire Control Bits Window.

Inductive ReceiveResult :=
| Accepted
| Duplicate
| OutOfWindow.

#[export] Instance ReceiveResult_eq_dec : EqDecision ReceiveResult.
Proof. solve_decision. Defined.

Record ReceiverStream := mkReceiverStream {
  rs_stream_id : Z;
  rs_window_size : Z;
  rs_lossless : bool;
  rs_base_seq_no : Z;
  rs_ring : list Z;
  rs_highest_received : Z;
  rs_have_any : bool;
  rs_last_send_time : Z;
  rs_window_overflow_count : Z;
  rs_first_missing_ns : list Z;
  rs_last_nack_ns : list Z;
}.

(** The constructor. *)
Definition new_receiver (stream_id window_size : Z) (lossless : bool) : ReceiverStream :=
  let window_size :=
    if window_size <? 1 then 1 else if kMaxWindow <? window_size then kMaxWindow else window_size in
  mkReceiverStream stream_id window_size lossless 0 (replicate (Z.to_nat kMaskWords) 0) 0 false 0 0
    (replicate (Z.to_nat kMaxWindow) 0) (replicate (Z.to_nat kMaxWindow) 0).

Definition slot (seq : Z) : Z := seq mod kMaxWindow.

(** [ring_test] at a sequence number. *)
Definition received_at (st : ReceiverStream) (seq : Z) : bool := ring_test (rs_ring st) (slot seq).

Definition is_received (st : ReceiverStream) (rel : Z) : bool :=
  (rel <? rs_window_size st) && received_at st (u64 (rs_base_seq_no st + rel)).

Definition relative_word (st : ReceiverStream) (w : Z) : Z :=
  let start := slot (u64 (rs_base_seq_no st + u64 (64 * w))) in
  let q := start / 64 in
  let r := start mod 64 in
  let v := Z.shiftr (getZ (rs_ring st) q) r in
  let v := if negb (r =? 0)
           then Z.lor v (u64 (Z.shiftl (getZ (rs_ring st) ((q + 1) mod kMaskWords)) (64 - r)))
           else v in
  let first := u64 (64 * w) in
  if rs_window_size st <=? first then 0
  else if rs_window_size st - first <? 64
  then Z.land v (u64 (bit_mask (rs_window_size st - first) - 1))
  else v.

(** One round of the sliding loop: clear the slot of the base and step over it. *)
Definition slide_step (st : ReceiverStream) : ReceiverStream :=
  let i := slot (rs_base_seq_no st) in
  mkReceiverStream (rs_stream_id st) (rs_window_size st) (rs_lossless st)
    (u64 (rs_base_seq_no st + 1)) (ring_clear (rs_ring st) i) (rs_highest_received st)
    (rs_have_any st) (rs_last_send_time st) (rs_window_overflow_count st)
    (setZ (rs_first_missing_ns st) i 0) (setZ (rs_last_nack_ns st) i 0).

(** [Fault] is the loop running out of fuel. *)
Fixpoint slide_base_over_contiguous_prefix (fuel : nat) (st : ReceiverStream) : res ReceiverStream :=
  match fuel with
  | O => Fault
  | S n =>
      if received_at st (rs_base_seq_no st)
      then slide_base_over_contiguous_prefix n (slide_step st)
      else Ok st
  end.

(** Rounds that are always enough: each clears one of the 1024 slots. *)
Definition slide_fuel : nat := 1025.

(** [for (gap = from; gap < seq_no; ++gap) if (first == 0) first = now_ns]. *)
Definition stamp_gaps (from seq_no now_ns : Z) (first_missing : list Z) : list Z :=
  for_up (Z.to_nat (seq_no - from)) from
    (fun gap fm => if getZ fm (slot gap) =? 0 then setZ fm (slot gap) now_ns else fm) first_missing.

(** The part of [on_receive] under [!have_any_ || seq_no > highest_received_]. *)
Definition note_highest (st : ReceiverStream) (seq_no send_time_ns now_ns : Z) : ReceiverStream :=
  if negb (rs_have_any st) || (rs_highest_received st <? seq_no) then
    let from := if rs_have_any st then u64 (rs_highest_received st + 1) else rs_base_seq_no st in
    let from := if from <? rs_base_seq_no st then rs_base_seq_no st else from in
    mkReceiverStream (rs_stream_id st) (rs_window_size st) (rs_lossless st) (rs_base_seq_no st)
      (rs_ring st) seq_no (rs_have_any st) send_time_ns (rs_window_overflow_count st)
      (stamp_gaps from seq_no now_ns (rs_first_missing_ns st)) (rs_last_nack_ns st)
  else st.

Definition set_ring (st : ReceiverStream) (ring : list Z) : ReceiverStream :=
  mkReceiverStream (rs_stream_id st) (rs_window_size st) (rs_lossless st) (rs_base_seq_no st) ring
    (rs_highest_received st) (rs_have_any st) (rs_last_send_time st) (rs_window_overflow_count st)
    (rs_first_missing_ns st) (rs_last_nack_ns st).

Definition set_have_any (st : ReceiverStream) : ReceiverStream :=
  mkReceiverStream (rs_stream_id st) (rs_window_size st) (rs_lossless st) (rs_base_seq_no st)
    (rs_ring st) (rs_highest_received st) true (rs_last_send_time st)
    (rs_window_overflow_count st) (rs_first_missing_ns st) (rs_last_nack_ns st).

Definition count_overflow (st : ReceiverStream) : ReceiverStream :=
  mkReceiverStream (rs_stream_id st) (rs_window_size st) (rs_lossless st) (rs_base_seq_no st)
    (rs_ring st) (rs_highest_received st) (rs_have_any st) (rs_last_send_time st)
    (u64 (rs_window_overflow_count st + 1)) (rs_first_missing_ns st) (rs_last_nack_ns st).

Definition on_receive (st : ReceiverStream) (seq_no send_time_ns now_ns : Z)
  : res (ReceiveResult * ReceiverStream) :=
  if seq_no <? rs_base_seq_no st then Ok (Duplicate, st)
  else if rs_window_size st <=? seq_no - rs_base_seq_no st then Ok (OutOfWindow, count_overflow st)
  else if received_at st seq_no then Ok (Duplicate, st)
  else
    let st := set_ring st (ring_set (rs_ring st) (slot seq_no)) in
    let st := set_have_any (note_highest st seq_no send_time_ns now_ns) in
    res_bind (slide_base_over_contiguous_prefix slide_fuel st) (fun st => Ok (Accepted, st)).

Definition build_ack (st : ReceiverStream) : Ack :=
  mkAck (rs_stream_id st) (rs_base_seq_no st)
    (map (relative_word st) (seqZ 0 kMaskWords)) (rs_last_send_time st) 0 kRwndUnlimited.

(** What [collect_nacks] changes: the NACK timers, and [out]'s count and array. *)
Record NackScan := mkNackScan {
  ns_last_nack : list Z;
  ns_count : Z;
  ns_missing : list Z;
}.

(** The body of the innermost loop for the missing position [seq]. *)
Definition nack_one (st : ReceiverStream) (now_ns reorder_delay_ns renack_interval_ns seq : Z)
    (s : NackScan) : NackScan :=
  let i := slot seq in
  let first_ns := getZ (rs_first_missing_ns st) i in
  if (first_ns =? 0) || (u64 (now_ns - first_ns) <? reorder_delay_ns) then s
  else
    let last := getZ (ns_last_nack s) i in
    if negb (last =? 0) && (u64 (now_ns - last) <? renack_interval_ns) then s
    else if ns_count s <? kMaxWindow
    then mkNackScan (setZ (ns_last_nack s) i now_ns) (ns_count s + 1)
                    (setZ (ns_missing s) (ns_count s) seq)
    else s.

(** The positions of word [w] that are missing, up to the highest block. *)
Definition missing_word (st : ReceiverStream) (span w : Z) : Z :=
  let missing := u64 (Z.lnot (relative_word st w)) in
  let first := u64 (64 * w) in
  if span - first <? 63
  then Z.land missing (u64 (u64 (Z.shiftl 2 (span - first)) - 1)) else missing.

Fixpoint nack_words (n : nat) (st : ReceiverStream) (now_ns reorder_delay_ns renack_interval_ns : Z)
    (span w : Z) (s : NackScan) : res NackScan :=
  match n with
  | O => Ok s
  | S n =>
      if negb (w * 64 <=? span) then Ok s
      else
        let first := u64 (64 * w) in
        res_bind
          (foreach_bit 64 (missing_word st span w)
             (fun b s => (nack_one st now_ns reorder_delay_ns renack_interval_ns
                            (u64 (rs_base_seq_no st + first + b)) s, false)) s)
          (nack_words n st now_ns reorder_delay_ns renack_interval_ns span (w + 1))
  end.

Definition set_last_nack (st : ReceiverStream) (l : list Z) : ReceiverStream :=
  mkReceiverStream (rs_stream_id st) (rs_window_size st) (rs_lossless st) (rs_base_seq_no st)
    (rs_ring st) (rs_highest_received st) (rs_have_any st) (rs_last_send_time st)
    (rs_window_overflow_count st) (rs_first_missing_ns st) l.

Definition collect_nacks (st : ReceiverStream) (now_ns reorder_delay_ns renack_interval_ns : Z)
    (out : Nack) : res (ReceiverStream * Nack) :=
  if negb (rs_lossless st) || negb (rs_have_any st) ||
     (rs_highest_received st <? rs_base_seq_no st)
  then Ok (st, mkNack (rs_stream_id st) 0 (nack_missing out))
  else
    let span := rs_highest_received st - rs_base_seq_no st in
    res_bind
      (nack_words (Z.to_nat kMaskWords) st now_ns reorder_delay_ns renack_interval_ns span 0
         (mkNackScan (rs_last_nack_ns st) 0 (nack_missing out)))
      (fun s => Ok (set_last_nack st (ns_last_nack s),
                    mkNack (rs_stream_id st) (ns_count s) (ns_missing s))).

(** ** The invariant *)

(** [st] stands for the set [acc] of accepted sequence numbers.  Gap timers run
    only for positions below the highest block, and a position is NACKed only
    while its gap timer runs. *)
Record rcore (st : ReceiverStream) (acc : gset Z) : Prop := {
  rc_ring : ring_repr (rs_base_seq_no st) (rs_ring st) acc;
  rc_ws : 1 <= rs_window_size st <= 1024;
  rc_lt : forall s, s ∈ acc -> s < rs_base_seq_no st + rs_window_size st;
  rc_max : forall s, s ∈ acc -> s < 2 ^ 64 - 1;
  rc_high : if rs_have_any st
            then rs_highest_received st ∈ acc /\ forall s, s ∈ acc -> s <= rs_highest_received st
            else acc = ∅;
  rc_fm_len : lenZ (rs_first_missing_ns st) = 1024;
  rc_ln_len : lenZ (rs_last_nack_ns st) = 1024;
  rc_fm : forall s, rs_base_seq_no st <= s < rs_base_seq_no st + 1024 ->
    getZ (rs_first_missing_ns st) (slot s) <> 0 ->
    rs_have_any st = true /\ s < rs_highest_received st;
  rc_ln : forall s, rs_base_seq_no st <= s < rs_base_seq_no st + 1024 ->
    getZ (rs_last_nack_ns st) (slot s) <> 0 -> getZ (rs_first_missing_ns st) (slot s) <> 0;
}.

(** Between operations the base is also the first missing sequence number. *)
Definition rinv (st : ReceiverStream) (acc : gset Z) : Prop :=
  rcore st acc /\ rs_base_seq_no st ∉ acc.

(** Reduces the fields of updated states. *)
Ltac rs_cbn :=
  cbn [slide_step set_ring set_have_any count_overflow set_last_nack rs_stream_id rs_window_size
    rs_lossless rs_base_seq_no rs_ring rs_highest_received rs_have_any rs_last_send_time
    rs_window_overflow_count rs_first_missing_ns rs_last_nack_ns] in *.

(** What sliding keeps: everything but the base, the ring and the timers, and
    the timers of the positions that stay in the window. *)
Definition slid (st st' : ReceiverStream) : Prop :=
  rs_stream_id st' = rs_stream_id st /\ rs_window_size st' = rs_window_size st /\
  rs_lossless st' = rs_lossless st /\ rs_highest_received st' = rs_highest_received st /\
  rs_have_any st' = rs_have_any st /\ rs_last_send_time st' = rs_last_send_time st /\
  rs_window_overflow_count st' = rs_window_overflow_count st /\
  rs_base_seq_no st <= rs_base_seq_no st' /\
  forall s, rs_base_seq_no st' <= s < rs_base_seq_no st + 1024 ->
    getZ (rs_first_missing_ns st') (slot s) = getZ (rs_first_missing_ns st) (slot s) /\
    getZ (rs_last_nack_ns st') (slot s) = getZ (rs_last_nack_ns st) (slot s).

Lemma slot_range s : 0 <= slot s < 1024.
Proof. unfold slot, kMaxWindow. mlia. Qed.

Lemma getZ_slot l base s t v :
  lenZ l = 1024 -> base <= s < base + 1024 -> base <= t < base + 1024 ->
  getZ (setZ l (slot s) v) (slot t) = if s =? t then v else getZ l (slot t).
Proof.
  intros Hl Hs Ht. pose proof (slot_range s). pose proof (slot_range t).
  rewrite getZ_setZ by lia. unfold slot, kMaxWindow. by rewrite (slot_eqb base).
Qed.

(** The slot one ring later is the same slot. *)
Lemma slot_next_ring s : slot (s + 1024) = slot s.
Proof. unfold slot, kMaxWindow. mlia. Qed.

Lemma getZ_slide l base s :
  lenZ l = 1024 -> base + 1 <= s < base + 1 + 1024 ->
  getZ (setZ l (slot base) 0) (slot s) = if s =? base + 1024 then 0 else getZ l (slot s).
Proof.
  intros Hl Hs. destruct (Z.eqb_spec s (base + 1024)) as [-> | Hne].
  - rewrite slot_next_ring, (getZ_slot l base) by lia. by rewrite Z.eqb_refl.
  - rewrite (getZ_slot l base) by lia. destruct (Z.eqb_spec base s); [lia | done].
Qed.

Lemma slide_step_core st acc :
  rcore st acc -> rs_base_seq_no st ∈ acc -> rcore (slide_step st) acc /\ slid st (slide_step st).
Proof.
  intros R Hin. pose proof (rc_max _ _ R _ Hin). pose proof (rr_base _ _ _ (rc_ring _ _ R)).
  pose proof (rc_fm_len _ _ R). pose proof (rc_ln_len _ _ R).
  assert (u64 (rs_base_seq_no st + 1) = rs_base_seq_no st + 1) as Hb by (apply u64_small; unfold is_u64; lia).
  split; [split |]; unfold slid; rs_cbn; rewrite ?Hb.
  - apply ring_slide_repr; [apply R | done].
  - apply R.
  - intros s Hs%(rc_lt _ _ R). lia.
  - apply R.
  - apply R.
  - by rewrite lenZ_setZ.
  - by rewrite lenZ_setZ.
  - intros s Hs. rewrite getZ_slide by lia. destruct (Z.eqb_spec s (rs_base_seq_no st + 1024)); [done |].
    apply (rc_fm _ _ R). lia.
  - intros s Hs. rewrite !getZ_slide by lia. destruct (Z.eqb_spec s (rs_base_seq_no st + 1024)); [done |].
    apply (rc_ln _ _ R). lia.
  - split_and!; [done .. | lia |]. intros s Hs.
    rewrite !getZ_slide by lia. by destruct (Z.eqb_spec s (rs_base_seq_no st + 1024)); [lia |].
Qed.

Lemma slid_refl st : slid st st.
Proof. unfold slid. split_and!; done || lia. Qed.

Lemma slid_trans st1 st2 st3 : slid st1 st2 -> slid st2 st3 -> slid st1 st3.
Proof.
  unfold slid. intros (?&?&?&?&?&?&?&?&T1) (?&?&?&?&?&?&?&?&T2).
  split_and!; try congruence; [lia |].
  intros s Hs. destruct (T1 s ltac:(lia)) as [<- <-]. apply T2. lia.
Qed.

Lemma received_at_repr st acc s :
  rcore st acc -> rs_base_seq_no st <= s < rs_base_seq_no st + 1024 ->
  received_at st s = bool_decide (s ∈ acc).
Proof. intros R Hs. apply (ring_test_repr (rs_base_seq_no st)); [apply R | done]. Qed.

(** The sliding loop ends within its fuel, at the first missing block. *)
Lemma slide_correct fuel st acc :
  rcore st acc ->
  (forall s, s ∈ acc -> s < rs_base_seq_no st + Z.of_nat fuel - 1) -> (0 < fuel)%nat ->
  exists st', slide_base_over_contiguous_prefix fuel st = Ok st' /\ rinv st' acc /\ slid st st'.
Proof.
  revert st. induction fuel as [| fuel IH]; intros st R Hhi Hf; [lia |].
  cbn [slide_base_over_contiguous_prefix]. rewrite (received_at_repr st acc) by (done || lia).
  destruct (bool_decide_reflect (rs_base_seq_no st ∈ acc)) as [Hin | Hout].
  - destruct (slide_step_core st acc R Hin) as [R' S']. pose proof (rc_max _ _ R _ Hin).
    pose proof (rr_base _ _ _ (rc_ring _ _ R)). pose proof (Hhi _ Hin).
    assert (rs_base_seq_no (slide_step st) = rs_base_seq_no st + 1)
      by (cbn; apply u64_small; unfold is_u64; lia).
    destruct (IH (slide_step st) R') as (st' & E & I & S''); [| lia |].
    + intros s Hs%Hhi. lia.
    + exists st'. split_and!; [done .. | by eapply slid_trans].
  - exists st. split_and!; [done | done | apply slid_refl].
Qed.

(** ** [on_receive] *)

(** The gap loop stamps exactly the unstamped positions it walks over. *)
Lemma stamp_gaps_spec base from seq now fm :
  lenZ fm = 1024 -> base <= from -> seq < base + 1024 ->
  lenZ (stamp_gaps from seq now fm) = 1024 /\
  forall s, base <= s < base + 1024 ->
    getZ (stamp_gaps from seq now fm) (slot s) =
    if (from <=? s) && (s <? seq) && (getZ fm (slot s) =? 0) then now else getZ fm (slot s).
Proof.
  intros Hl Hfrom Hseq. unfold stamp_gaps.
  destruct (Z.le_gt_cases seq from) as [Hle | Hgt].
  { replace (Z.to_nat (seq - from)) with 0%nat by lia. simpl. split; [done |]. intros s Hs.
    destruct (Z.leb_spec from s), (Z.ltb_spec s seq); simpl; (done || lia). }
  pose proof (for_up_ind (fun i fm' => lenZ fm' = 1024 /\ forall s, base <= s < base + 1024 ->
    getZ fm' (slot s) =
    if (from <=? s) && (s <? i) && (getZ fm (slot s) =? 0) then now else getZ fm (slot s))
    (Z.to_nat (seq - from)) from
    (fun gap fm => if getZ fm (slot gap) =? 0 then setZ fm (slot gap) now else fm) fm) as H.
  replace (from + Z.of_nat (Z.to_nat (seq - from))) with seq in H by lia. apply H; clear H.
  - split; [done |]. intros s Hs. destruct (Z.leb_spec from s), (Z.ltb_spec s from); simpl; done || lia.
  - intros i fm' Hi [Hl' Hfm']. pose proof (Hfm' i ltac:(lia)) as Hcur.
    destruct (Z.leb_spec from i); [| lia]. destruct (Z.ltb_spec i i); [lia |].
    cbn [andb] in Hcur. rewrite Hcur. split.
    { destruct (getZ fm (slot i) =? 0); [by rewrite lenZ_setZ | done]. }
    intros s Hs. destruct (Z.eqb_spec (getZ fm (slot i)) 0) as [E | E].
    + rewrite (getZ_slot _ base) by lia. destruct (Z.eqb_spec i s) as [-> | Hne].
      * rewrite E. destruct (Z.leb_spec from s), (Z.ltb_spec s (s + 1)); simpl; done || lia.
      * rewrite Hfm' by done. destruct (Z.ltb_spec s i), (Z.ltb_spec s (i + 1)); done || lia.
    + rewrite Hfm' by done. destruct (Z.eq_dec s i) as [-> | Hne].
      * apply Z.eqb_neq in E. rewrite E, !andb_false_r. done.
      * destruct (Z.ltb_spec s i), (Z.ltb_spec s (i + 1)); done || lia.
Qed.

(** What one arrival does to the set of accepted sequence numbers. *)
Definition receive_spec (ws base : Z) (acc : gset Z) (seq : Z) : ReceiveResult * gset Z :=
  if decide (seq ∈ acc) then (Duplicate, acc)
  else if ws <=? seq - base then (OutOfWindow, acc)
  else (Accepted, {[seq]} ∪ acc).

(** The state in which a newly arrived block has been recorded, before the base
    slides. *)
Definition recorded (st : ReceiverStream) (seq send_time now : Z) : ReceiverStream :=
  set_have_any (note_highest (set_ring st (ring_set (rs_ring st) (slot seq))) seq send_time now).

(** The stamps after recording: those there were, and [now] for the positions a
    new highest block turned into gaps. *)
Definition gap_stamp (st : ReceiverStream) (seq now s : Z) : Z :=
  let old := getZ (rs_first_missing_ns st) (slot s) in
  if (negb (rs_have_any st) || (rs_highest_received st <? s)) && (s <? seq) then now else old.

Lemma recorded_fields st seq send now :
  rs_stream_id (recorded st seq send now) = rs_stream_id st /\
  rs_window_size (recorded st seq send now) = rs_window_size st /\
  rs_lossless (recorded st seq send now) = rs_lossless st /\
  rs_base_seq_no (recorded st seq send now) = rs_base_seq_no st /\
  rs_ring (recorded st seq send now) = ring_set (rs_ring st) (slot seq) /\
  rs_have_any (recorded st seq send now) = true /\
  rs_window_overflow_count (recorded st seq send now) = rs_window_overflow_count st /\
  rs_last_nack_ns (recorded st seq send now) = rs_last_nack_ns st /\
  rs_highest_received (recorded st seq send now) =
    (if negb (rs_have_any st) || (rs_highest_received st <? seq) then seq else rs_highest_received st) /\
  rs_last_send_time (recorded st seq send now) =
    (if negb (rs_have_any st) || (rs_highest_received st <? seq) then send else rs_last_send_time st).
Proof.
  unfold recorded, note_highest. rs_cbn.
  destruct (negb (rs_have_any st) || (rs_highest_received st <? seq)); by split_and!.
Qed.

Lemma recorded_stamps st acc seq send now :
  rcore st acc -> rs_base_seq_no st <= seq < rs_base_seq_no st + 1024 ->
  lenZ (rs_first_missing_ns (recorded st seq send now)) = 1024 /\
  forall s, rs_base_seq_no st <= s < rs_base_seq_no st + 1024 ->
    getZ (rs_first_missing_ns (recorded st seq send now)) (slot s) = gap_stamp st seq now s.
Proof.
  intros R Hseq. unfold recorded, note_highest, gap_stamp. rs_cbn.
  pose proof (rc_fm_len _ _ R) as Hl. pose proof (rr_base _ _ _ (rc_ring _ _ R)).
  pose proof (rc_high _ _ R) as Hh.
  destruct (rs_have_any st) eqn:Hany; cbn [negb orb].
  - destruct Hh as [Hh1 Hh2]. pose proof (rc_max _ _ R _ Hh1).
    pose proof (rr_range _ _ _ (rc_ring _ _ R) _ Hh1).
    rewrite u64_small by (unfold is_u64; lia).
    destruct (Z.ltb_spec (rs_highest_received st) seq) as [Hlt | Hge]; rs_cbn.
    + set (from := if _ <? _ then _ else _).
      destruct (stamp_gaps_spec (rs_base_seq_no st) from seq now (rs_first_missing_ns st)) as [L G];
        [done | subst from; split_if; lia | lia |].
      split; [done |]. intros s Hs. rewrite G by done.
      assert ((from <=? s) = (rs_highest_received st <? s)) as ->.
      { subst from. destruct (Z.ltb_spec (rs_highest_received st) s); split_if; lia. }
      destruct (Z.ltb_spec (rs_highest_received st) s); cbn [andb]; [| done].
      destruct (Z.ltb_spec s seq); cbn [andb]; [| done].
      destruct (Z.eqb_spec (getZ (rs_first_missing_ns st) (slot s)) 0) as [| Hne]; [done |].
      apply (rc_fm _ _ R) in Hne as [_ ?]; lia.
    + split; [done |]. intros s Hs.
      destruct (Z.ltb_spec (rs_highest_received st) s), (Z.ltb_spec s seq); done || lia.
  - rs_cbn. rewrite Z.ltb_irrefl.
    destruct (stamp_gaps_spec (rs_base_seq_no st) (rs_base_seq_no st) seq now (rs_first_missing_ns st))
      as [L G]; [done | lia | lia |].
    split; [done |]. intros s Hs. rewrite G by done.
    destruct (Z.leb_spec (rs_base_seq_no st) s); [| lia]. cbn [andb].
    destruct (Z.ltb_spec s seq); cbn [andb]; [| done].
    destruct (Z.eqb_spec (getZ (rs_first_missing_ns st) (slot s)) 0) as [| Hne]; [done |].
    apply (rc_fm _ _ R) in Hne as [? _]; [congruence | done].
Qed.

Lemma recorded_core st acc seq send now :
  rcore st acc -> rs_base_seq_no st <= seq < rs_base_seq_no st + rs_window_size st ->
  seq < 2 ^ 64 - 1 -> rcore (recorded st seq send now) ({[seq]} ∪ acc).
Proof.
  intros R Hseq Hmax. pose proof (rc_ws _ _ R).
  destruct (recorded_stamps st acc seq send now R ltac:(lia)) as [L G].
  destruct (recorded_fields st seq send now) as (F1 & F2 & F3 & F4 & F5 & F6 & F7 & F8 & F9 & _).
  pose proof (rc_high _ _ R) as Hh.
  assert (forall s, s ∈ ({[seq]} ∪ acc) -> s = seq \/ s ∈ acc) as Hcase by set_solver.
  split; rewrite ?F1, ?F2, ?F4, ?F5, ?F6, ?F8.
  - apply ring_set_repr; [apply R | lia].
  - done.
  - intros s [-> | Hs]%Hcase; [lia | by apply (rc_lt _ _ R)].
  - intros s [-> | Hs]%Hcase; [lia | by apply (rc_max _ _ R)].
  - rewrite F9. destruct (rs_have_any st); cbn [negb orb].
    + destruct Hh as [Hh1 Hh2]. destruct (Z.ltb_spec (rs_highest_received st) seq).
      * split; [set_solver |]. intros s [-> | Hs%Hh2]%Hcase; lia.
      * split; [set_solver |]. intros s [-> | Hs%Hh2]%Hcase; lia.
    + subst acc. split; [set_solver |]. intros s [-> | []%not_elem_of_empty]%Hcase. lia.
  - done.
  - apply R.
  - intros s Hs. rewrite G by done. rewrite F9. unfold gap_stamp. intros Hne. split; [done |].
    destruct (rs_have_any st) eqn:Hany; cbn [negb orb andb] in *.
    + destruct (Z.ltb_spec (rs_highest_received st) s), (Z.ltb_spec s seq); cbn [andb] in Hne;
        try (split_if; lia); apply (rc_fm _ _ R) in Hne as [_ ?]; try done; split_if; lia.
    + destruct (Z.ltb_spec s seq); cbn in Hne; [done |].
      apply (rc_fm _ _ R) in Hne as [? _]; [congruence | done].
  - intros s Hs Hne. rewrite G by done. pose proof (rc_ln _ _ R s Hs Hne) as Hfm.
    destruct (rc_fm _ _ R s Hs Hfm) as [Hany Hlt]. unfold gap_stamp. rewrite Hany. cbn [negb orb].
    destruct (Z.ltb_spec (rs_highest_received st) s); [lia | done].
Qed.

(** The state after an accepted arrival. *)
Lemma on_receive_accepts st acc seq send now :
  rinv st acc -> 0 <= seq < 2 ^ 64 - 1 -> seq ∉ acc ->
  seq - rs_base_seq_no st < rs_window_size st ->
  exists st', on_receive st seq send now = Ok (Accepted, st') /\ rinv st' ({[seq]} ∪ acc) /\
    slid (recorded st seq send now) st'.
Proof.
  intros [R Hmex] Hseq Hnew Hws. pose proof (rc_ws _ _ R).
  assert (rs_base_seq_no st <= seq).
  { destruct (Z.lt_ge_cases seq (rs_base_seq_no st)); [| lia].
    exfalso. apply Hnew, (rr_below _ _ _ (rc_ring _ _ R)). lia. }
  unfold on_receive. split_if; [lia |]. split_if; [lia |].
  rewrite (received_at_repr st acc) by (done || lia). rewrite bool_decide_eq_false_2 by done.
  fold (recorded st seq send now).
  pose proof (recorded_core st acc seq send now R ltac:(lia) ltac:(lia)) as R'.
  destruct (slide_correct slide_fuel _ _ R') as (st' & -> & I & Sl); [| unfold slide_fuel; lia |].
  - intros s Hs%(rc_lt _ _ R'). pose proof (rc_ws _ _ R'). unfold slide_fuel. lia.
  - by exists st'.
Qed.

Lemma count_overflow_inv st acc : rinv st acc -> rinv (count_overflow st) acc.
Proof. intros [R Hmex]. split; [| done]. split; apply R. Qed.

Lemma on_receive_correct st acc seq send now :
  rinv st acc -> 0 <= seq < 2 ^ 64 - 1 ->
  let '(result, acc') := receive_spec (rs_window_size st) (rs_base_seq_no st) acc seq in
  exists st', on_receive st seq send now = Ok (result, st') /\ rinv st' acc' /\
    rs_window_size st' = rs_window_size st /\ rs_stream_id st' = rs_stream_id st /\
    rs_lossless st' = rs_lossless st.
Proof.
  intros [R Hmex] Hseq. pose proof (rc_ws _ _ R). unfold receive_spec.
  destruct (decide (seq ∈ acc)) as [Hin | Hnew].
  - exists st. split_and!; try done. unfold on_receive. split_if; [done |].
    pose proof (rc_lt _ _ R _ Hin). split_if; [lia |].
    rewrite (received_at_repr st acc) by (done || lia). by rewrite bool_decide_eq_true_2.
  - split_if.
    + exists (count_overflow st). split_and!; [| by apply count_overflow_inv | done ..].
      unfold on_receive. split_if; [lia |]. split_if; [done | lia].
    + destruct (on_receive_accepts st acc seq send now) as (st' & E & I & Sl); try done.
      exists st'. destruct Sl as (? & ? & ? & _).
      destruct (recorded_fields st seq send now) as (? & ? & ? & _).
      split_and!; try done; congruence.
Qed.

Lemma new_receiver_inv sid ws lossless : rinv (new_receiver sid ws lossless) ∅.
Proof.
  assert (forall i, getZ (replicate (Z.to_nat kMaxWindow) 0) i = 0) as Hz.
  { intros i. unfold getZ. rewrite nth_lookup. destruct (replicate _ 0 !! _) as [x |] eqn:E; [| done].
    by apply lookup_replicate in E as [-> _]. }
  split; [| apply not_elem_of_empty]. split; unfold new_receiver; rs_cbn; try done.
  - apply ring_repr_empty.
  - unfold kMaxWindow. repeat split_if; lia.
  - intros s _. by rewrite Hz.
Qed.

(** ** The ACK *)

(** Sixty-four ring bits from an arbitrary position, assembled from two words. *)
Lemma unaligned_word ring x b :
  wf_ring ring -> 0 <= b < 64 ->
  let start := x mod 1024 in
  let v := Z.shiftr (getZ ring (start / 64)) (start mod 64) in
  Z.testbit (if negb (start mod 64 =? 0)
             then Z.lor v (u64 (Z.shiftl (getZ ring ((start / 64 + 1) mod 16)) (64 - start mod 64)))
             else v) b = rbit ring (x + b).
Proof.
  intros Hw Hb start v. unfold rbit.
  assert (0 <= start mod 64 < 64) by mlia.
  assert (Z.testbit v b = Z.testbit (getZ ring (start / 64)) (start mod 64 + b)) as Hv.
  { subst v. rewrite Z.shiftr_spec by lia. f_equal. lia. }
  destruct (Z.lt_ge_cases (start mod 64 + b) 64) as [Hlow | Hhigh].
  - replace ((x + b) mod 1024 / 64) with (start / 64) by (subst start; mlia).
    replace ((x + b) mod 64) with (start mod 64 + b) by (subst start; mlia).
    rewrite <- Hv. split_if; [| done]. rewrite Z.lor_spec. unfold u64.
    rewrite Z.mod_pow2_bits_low, Z.shiftl_spec by lia.
    rewrite (Z.testbit_neg_r _ (b - _)) by lia. apply orb_false_r.
  - replace ((x + b) mod 1024 / 64) with ((start / 64 + 1) mod 16) by (subst start; mlia).
    replace ((x + b) mod 64) with (b - (64 - start mod 64)) by (subst start; mlia).
    split_if; [| lia]. rewrite Z.lor_spec, Hv. unfold u64.
    rewrite Z.mod_pow2_bits_low, Z.shiftl_spec by lia.
    rewrite (testbit_ge_false _ 64); [done | by apply wf_ring_get | lia].
Qed.

Lemma relative_word_range st acc w : rcore st acc -> is_u64 (relative_word st w).
Proof.
  intros R. pose proof (rr_wf _ _ _ (rc_ring _ _ R)) as Hw. unfold relative_word.
  assert (forall q r, 0 <= r -> is_u64 (Z.shiftr (getZ (rs_ring st) q) r)) as Hsh.
  { intros q r Hr. pose proof (wf_ring_get (rs_ring st) q Hw) as Hg. unfold is_u64 in *.
    rewrite Z.shiftr_div_pow2 by done. pose proof (Z.pow_pos_nonneg 2 r ltac:(lia) Hr).
    split; [apply Z.div_pos; lia |]. apply Z.div_lt_upper_bound; nia. }
  set (start := slot _). assert (0 <= start mod 64) by mlia.
  set (v := if negb _ then _ else _). assert (is_u64 v) as Hv.
  { subst v. split_if; [| by apply Hsh]. apply lor_range; [lia | by apply Hsh | apply u64_range]. }
  split_if; [done |]. split_if; [| done]. apply land_range; [lia | done].
Qed.

(** The bits of word [w] are membership of [base + 64 w + b]. *)
Lemma relative_word_bits st acc w b :
  rcore st acc -> 0 <= w < 16 -> 0 <= b < 64 ->
  Z.testbit (relative_word st w) b = bool_decide (rs_base_seq_no st + 64 * w + b ∈ acc).
Proof.
  intros R Hw Hb. pose proof (rr_wf _ _ _ (rc_ring _ _ R)) as Hring. pose proof (rc_ws _ _ R).
  unfold relative_word. rewrite (u64_small (64 * w)) by (unfold is_u64; lia).
  assert (slot (u64 (rs_base_seq_no st + 64 * w)) = (rs_base_seq_no st + 64 * w) mod 1024) as ->
    by apply slot_u64.
  change kMaskWords with 16.
  pose proof (unaligned_word (rs_ring st) (rs_base_seq_no st + 64 * w) b Hring Hb) as Hu.
  cbv zeta in Hu. set (v := if negb _ then _ else _) in *.
  assert (Z.testbit v b = bool_decide (rs_base_seq_no st + 64 * w + b ∈ acc)) as Hv.
  { rewrite Hu. apply (rr_bits _ _ _ (rc_ring _ _ R)). lia. }
  assert (rs_window_size st <= 64 * w + b -> Z.testbit v b = false) as Hout.
  { intros Hge. rewrite Hv. apply bool_decide_eq_false. intros Hin%(rc_lt _ _ R). lia. }
  split_if.
  - rewrite Z.bits_0, <- Hv. symmetry. apply Hout. lia.
  - split_if; [| done]. rewrite Z.land_spec, <- Hv.
    rewrite bit_mask_pow2, u64_small; [| | lia].
    + replace (2 ^ (rs_window_size st - 64 * w) - 1) with (Z.ones (rs_window_size st - 64 * w))
        by (rewrite Z.ones_equiv; lia).
      rewrite Z.testbit_ones_nonneg by lia.
      destruct (Z.ltb_spec b (rs_window_size st - 64 * w)); [apply andb_true_r |].
      rewrite Hout by lia. done.
    + split; [| apply Z.lt_trans with (2 ^ (rs_window_size st - 64 * w)); [lia | apply Z.pow_lt_mono_r; lia]].
      pose proof (Z.pow_pos_nonneg 2 (rs_window_size st - 64 * w)). lia.
Qed.

(** Bit [i] of an ACK's bitmask. *)
Definition ack_bit (a : Ack) (i : Z) : bool :=
  Z.testbit (getZ (ack_received_bitmask a) (i / 64)) (i mod 64).

Lemma build_ack_word st w : 0 <= w < 16 -> getZ (ack_received_bitmask (build_ack st)) w = relative_word st w.
Proof.
  intros Hw. unfold build_ack, ack_received_bitmask. apply getZ_lookup; [lia |].
  change (map ?f ?l) with (f <$> l). rewrite list_lookup_fmap.
  replace (seqZ 0 kMaskWords !! Z.to_nat w) with (Some w); [done |].
  symmetry. apply lookup_seqZ. change kMaskWords with 16. lia.
Qed.

Lemma build_ack_bit st acc i :
  rcore st acc -> 0 <= i < 1024 ->
  ack_bit (build_ack st) i = bool_decide (rs_base_seq_no st + i ∈ acc).
Proof.
  intros R Hi. unfold ack_bit. rewrite build_ack_word by mlia.
  rewrite (relative_word_bits st acc) by (done || mlia). apply bool_decide_ext.
  by replace (rs_base_seq_no st + 64 * (i / 64) + i mod 64) with (rs_base_seq_no st + i) by mlia.
Qed.

Lemma build_ack_wf st acc :
  rcore st acc -> is_u16 (rs_stream_id st) -> is_u64 (rs_base_seq_no st) ->
  is_u64 (rs_last_send_time st) -> wf_msg (build_ack st).
Proof.
  intros R H1 H2 H3. unfold wf_msg, ack_codec, build_ack. cbn [ack_stream_id ack_base_seq_no
    ack_received_bitmask ack_echoed_send_time ack_nonce ack_rwnd].
  split_and!; try done. apply list.Forall_forall. intros x Hx.
  apply list_elem_of_In, in_map_iff in Hx as (w & <- & _). by eapply relative_word_range.
Qed.

(** ** The NACK scan *)

(** The timers allow a NACK for [s] now. *)
Definition nack_due (st : ReceiverStream) (now delay interval s : Z) : bool :=
  let first := getZ (rs_first_missing_ns st) (slot s) in
  let last := getZ (rs_last_nack_ns st) (slot s) in
  negb (first =? 0) && (delay <=? u64 (now - first)) &&
  ((last =? 0) || (interval <=? u64 (now - last))).

(** The missing sequence numbers from [lo] on, [n] positions. *)
Definition gaps (acc : gset Z) (lo n : Z) : list Z := filter (fun s => s ∉ acc) (seqZ lo n).

Lemma fold_break_never {A S} (f : A -> S -> S) xs (s : S) :
  fold_break (fun x s => (f x s, false)) xs s = foldl (fun s x => f x s) s xs.
Proof. revert s. induction xs as [| x xs IH]; intros s; simpl; [done | apply IH]. Qed.

Lemma foldl_fmap_in {A B S} (f : S -> B -> S) (g h : A -> B) xs (s : S) :
  (forall x, x ∈ xs -> g x = h x) ->
  foldl (fun s x => f s (g x)) s xs = foldl f s (h <$> xs).
Proof.
  revert s. induction xs as [| x xs IH]; intros s Hgh; [done |]. simpl.
  rewrite (Hgh x) by (by left). apply IH. intros. apply Hgh. by right.
Qed.

Lemma fmap_filter_add (P : Z -> Prop) `{!forall x, Decision (P x)} c n :
  Z.add c <$> filter (fun b => P (c + b)) (seqZ 0 n) = filter P (seqZ c n).
Proof.
  replace (seqZ c n) with (Z.add c <$> seqZ 0 n) by (rewrite fmap_add_seqZ; f_equal; lia).
  generalize (seqZ 0 n). intros l. induction l as [| b l IH]; [done |].
  rewrite fmap_cons, !filter_cons. destruct (decide (P (c + b))); rewrite <- IH; done.
Qed.

Lemma missing_word_range st span w : is_u64 (missing_word st span w).
Proof.
  unfold missing_word. split_if; [apply land_range; [lia |] |]; apply u64_range.
Qed.

Lemma missing_word_bits st acc span w b :
  rcore st acc -> 0 <= w < 16 -> 64 * w <= span -> 0 <= b < 64 ->
  Z.testbit (missing_word st span w) b =
  bool_decide (rs_base_seq_no st + 64 * w + b ∉ acc) && (64 * w + b <=? span).
Proof.
  intros R Hw Hspan Hb. unfold missing_word. rewrite (u64_small (64 * w)) by (unfold is_u64; lia).
  assert (Z.testbit (u64 (Z.lnot (relative_word st w))) b =
          bool_decide (rs_base_seq_no st + 64 * w + b ∉ acc)) as Hm.
  { unfold u64. rewrite Z.mod_pow2_bits_low, Z.lnot_spec, (relative_word_bits st acc) by done || lia.
    by rewrite bool_decide_not. }
  split_if.
  - rewrite Z.land_spec, Hm. f_equal. rewrite Z.shiftl_mul_pow2 by lia.
    replace (2 * 2 ^ (span - 64 * w)) with (2 ^ (span - 64 * w + 1))
      by (rewrite Z.pow_add_r by lia; lia).
    pose proof (Z.pow_lt_mono_r 2 (span - 64 * w + 1) 64 ltac:(lia) ltac:(lia) ltac:(lia)).
    pose proof (Z.pow_pos_nonneg 2 (span - 64 * w + 1) ltac:(lia) ltac:(lia)).
    rewrite !u64_small by (unfold is_u64; rewrite ?u64_small by (unfold is_u64; lia); lia).
    replace (2 ^ (span - 64 * w + 1) - 1) with (Z.ones (span - 64 * w + 1))
      by (rewrite Z.ones_equiv; lia).
    rewrite Z.testbit_ones_nonneg by lia.
    destruct (Z.ltb_spec b (span - 64 * w + 1)), (Z.leb_spec (64 * w + b) span); done || lia.
  - rewrite Hm. destruct (Z.leb_spec (64 * w + b) span); [by rewrite andb_true_r | lia].
Qed.

(** The set bits of that word are the word's gaps. *)
Lemma missing_word_gaps st acc span w :
  rcore st acc -> 0 <= w < 16 -> 64 * w <= span ->
  Z.add (rs_base_seq_no st + 64 * w) <$> set_bits (missing_word st span w) =
  gaps acc (rs_base_seq_no st + 64 * w) (Z.min 64 (span + 1 - 64 * w)).
Proof.
  intros R Hw Hspan. set (m := Z.min 64 (span + 1 - 64 * w)).
  unfold set_bits, gaps. rewrite <- (fmap_filter_add (fun s => s ∉ acc)). f_equal.
  assert (seqZ 0 64 = seqZ 0 m ++ seqZ m (64 - m)) as ->
    by (pose proof (seqZ_app 0 m (64 - m) ltac:(lia) ltac:(lia)) as E;
        rewrite Z.add_0_l in E; rewrite <- E; f_equal; lia).
  rewrite list.filter_app, (filter_none _ (seqZ m _)), app_nil_r.
  - apply filter_ext_in. intros b Hb%elem_of_seqZ. rewrite (missing_word_bits st acc) by (done || lia).
    rewrite andb_true_iff, bool_decide_eq_true, Z.leb_le. intuition lia.
  - intros b Hb%elem_of_seqZ. rewrite (missing_word_bits st acc) by (done || lia).
    rewrite andb_true_iff, Z.leb_le. lia.
Qed.

Lemma gaps_app acc lo n1 n2 : 0 <= n1 -> 0 <= n2 -> gaps acc lo (n1 + n2) = gaps acc lo n1 ++ gaps acc (lo + n1) n2.
Proof. intros. unfold gaps. by rewrite seqZ_app, list.filter_app. Qed.

(** The word loop is a fold of [nack_one] over all the gaps up to the highest
    block. *)
Lemma nack_words_gaps n st acc now delay interval span w s :
  rcore st acc -> 0 <= w -> w + Z.of_nat n = 16 -> 0 <= span < 1024 ->
  rs_base_seq_no st + span < 2 ^ 64 ->
  nack_words n st now delay interval span w s =
  Ok (foldl (fun s q => nack_one st now delay interval q s) s
        (gaps acc (rs_base_seq_no st + 64 * w) (span + 1 - 64 * w))).
Proof.
  intros R. revert w s. induction n as [| n IH]; intros w s Hw Hn Hspan Hmax.
  { unfold gaps. by rewrite seqZ_nil by lia. }
  cbn [nack_words]. split_if; [unfold gaps; by rewrite seqZ_nil by lia |].
  rewrite foreach_bit_spec by apply missing_word_range. cbn [res_bind].
  rewrite (u64_small (64 * w)) by (unfold is_u64; lia). rewrite IH by lia. f_equal.
  pose proof (rr_base _ _ _ (rc_ring _ _ R)).
  rewrite fold_break_never.
  rewrite (foldl_fmap_in (fun s q => nack_one st now delay interval q s)
             (fun b => u64 (rs_base_seq_no st + 64 * w + b)) (Z.add (rs_base_seq_no st + 64 * w))).
  - rewrite (missing_word_gaps st acc) by (done || lia). rewrite <- foldl_app. f_equal.
    destruct (Z.le_gt_cases (span + 1 - 64 * w) 64).
    + rewrite Z.min_r by lia. unfold gaps at 2. rewrite (seqZ_nil _ (span + 1 - 64 * (w + 1))) by lia.
      by rewrite app_nil_r.
    + rewrite Z.min_l by lia. replace (span + 1 - 64 * w) with (64 + (span + 1 - 64 * (w + 1))) by lia.
      rewrite gaps_app by lia. do 2 f_equal. lia.
  - intros b [Hb Hbit]%elem_of_set_bits. rewrite (missing_word_bits st acc) in Hbit by (done || lia).
    apply andb_true_iff in Hbit as [_ Hbit%Z.leb_le]. apply u64_small. unfold is_u64. lia.
Qed.

(** One missing position: skipped when its timers hold it back, reported and
    re-stamped otherwise. *)
Lemma nack_one_cases st now delay interval q s :
  ns_count s < kMaxWindow ->
  getZ (ns_last_nack s) (slot q) = getZ (rs_last_nack_ns st) (slot q) ->
  nack_one st now delay interval q s =
  if nack_due st now delay interval q
  then mkNackScan (setZ (ns_last_nack s) (slot q) now) (ns_count s + 1)
                  (setZ (ns_missing s) (ns_count s) q)
  else s.
Proof.
  intros Hc Hl. unfold nack_one, nack_due. rewrite Hl.
  destruct (getZ (rs_first_missing_ns st) (slot q) =? 0); cbn [negb orb andb]; [done |].
  rewrite Z.leb_antisym. destruct (_ <? delay); cbn [negb andb]; [done |].
  rewrite Z.leb_antisym. apply Z.ltb_lt in Hc. rewrite Hc.
  by destruct (getZ (rs_last_nack_ns st) (slot q) =? 0), (_ <? interval).
Qed.

Lemma take_setZ {A} (l : list A) n x : 0 <= n < lenZ l -> take (Z.to_nat (n + 1)) (setZ l n x) = take (Z.to_nat n) l ++ [x].
Proof.
  intros. unfold setZ, lenZ in *. replace (Z.to_nat (n + 1)) with (S (Z.to_nat n)) by lia.
  rewrite (take_S_r _ _ x) by (apply list_lookup_insert_eq; lia). by rewrite take_insert_ge.
Qed.

Lemma drop_setZ {A} (l : list A) n m x : 0 <= n < m -> drop (Z.to_nat m) (setZ l n x) = drop (Z.to_nat m) l.
Proof. intros. unfold setZ. apply drop_insert_lt. lia. Qed.

Lemma nack_fold st base now delay interval L s :
  NoDup L -> (forall q, q ∈ L -> base <= q < base + 1024) ->
  lenZ (ns_last_nack s) = 1024 -> lenZ (ns_missing s) = 1024 ->
  0 <= ns_count s -> ns_count s + lenZ L <= 1024 ->
  (forall q, q ∈ L -> getZ (ns_last_nack s) (slot q) = getZ (rs_last_nack_ns st) (slot q)) ->
  let F := filter (fun q => nack_due st now delay interval q = true) L in
  let r := foldl (fun s q => nack_one st now delay interval q s) s L in
  lenZ (ns_last_nack r) = 1024 /\ lenZ (ns_missing r) = 1024 /\
  ns_count r = ns_count s + lenZ F /\
  take (Z.to_nat (ns_count r)) (ns_missing r) = take (Z.to_nat (ns_count s)) (ns_missing s) ++ F /\
  drop (Z.to_nat (ns_count r)) (ns_missing r) = drop (Z.to_nat (ns_count r)) (ns_missing s) /\
  forall t, base <= t < base + 1024 ->
    getZ (ns_last_nack r) (slot t) = if decide (t ∈ F) then now else getZ (ns_last_nack s) (slot t).
Proof.
  revert s. induction L as [| q L IH]; intros s Hnd Hwin Hll Hlm Hc0 Hc Hag; cbv zeta.
  { rewrite filter_nil, lenZ_nil, app_nil_r. cbn [foldl]. split_and!; try done. lia. }
  apply NoDup_cons in Hnd as [Hq Hnd]. rewrite lenZ_cons in Hc. pose proof (lenZ_nonneg L).
  cbn [foldl]. rewrite nack_one_cases by (unfold kMaxWindow; (lia || (apply Hag; by left))).
  pose proof (Hwin q ltac:(by left)) as Hqw.
  destruct (nack_due st now delay interval q) eqn:Hdue.
  - rewrite filter_cons_True by done. set (F := filter _ L) in *.
    destruct (IH (mkNackScan (setZ (ns_last_nack s) (slot q) now) (ns_count s + 1)
                (setZ (ns_missing s) (ns_count s) q))) as (I1 & I2 & I3 & I4 & I5 & I6);
      cbn [ns_last_nack ns_count ns_missing] in *; rewrite ?lenZ_setZ; try done; try lia.
    + intros t Ht. apply Hwin. by right.
    + intros t Ht. rewrite (getZ_slot _ base) by (try done; apply Hwin; by right).
      destruct (Z.eqb_spec q t) as [-> | _]; [done |]. apply Hag. by right.
    + fold F in I3, I4, I6. pose proof (lenZ_nonneg F).
      split_and!; [done | done | rewrite lenZ_cons; lia | | |].
      * rewrite I4, take_setZ by lia. by rewrite <- app_assoc.
      * rewrite I5. apply drop_setZ. lia.
      * intros t Ht. rewrite I6, (getZ_slot _ base) by done.
        destruct (Z.eqb_spec q t) as [-> | Hne].
        -- rewrite (decide_True (P := t ∈ t :: F)) by (by left). by destruct (decide (t ∈ F)).
        -- destruct (decide (t ∈ F)); [by rewrite decide_True by (by right) |].
           rewrite decide_False; [done |]. by intros [-> | ?]%elem_of_cons.
  - rewrite filter_cons_False by (by rewrite Hdue). apply IH; try done; [| lia |].
    + intros t Ht. apply Hwin. by right.
    + intros t Ht. apply Hag. by right.
Qed.

(** The gaps a NACK reports: missing, below the highest block, with timers that
    allow it. *)
Definition due_gaps (st : ReceiverStream) (acc : gset Z) (now delay interval : Z) : list Z :=
  if rs_lossless st && rs_have_any st
  then filter (fun q => nack_due st now delay interval q = true)
         (gaps acc (rs_base_seq_no st) (rs_highest_received st - rs_base_seq_no st + 1))
  else [].

Lemma elem_of_gaps acc lo n s : s ∈ gaps acc lo n <-> lo <= s < lo + n /\ (s ∉ acc).
Proof. unfold gaps. rewrite list_elem_of_filter, elem_of_seqZ. tauto. Qed.

Lemma gaps_length acc lo n : 0 <= n -> lenZ (gaps acc lo n) <= n.
Proof.
  intros Hn. unfold gaps, lenZ. pose proof (length_filter (fun s => s ∉ acc) (seqZ lo n)) as H.
  rewrite length_seqZ in H. lia.
Qed.

Lemma NoDup_gaps acc lo n : NoDup (gaps acc lo n).
Proof. apply NoDup_filter, NoDup_seqZ. Qed.

(** [st'] is [st] with the NACK timers of [due] set to [now]. *)
Definition renacked (st st' : ReceiverStream) (due : list Z) (now : Z) : Prop :=
  st' = set_last_nack st (rs_last_nack_ns st') /\
  forall t, rs_base_seq_no st <= t < rs_base_seq_no st + 1024 ->
    getZ (rs_last_nack_ns st') (slot t) =
    if decide (t ∈ due) then now else getZ (rs_last_nack_ns st) (slot t).

Lemma renacked_inv st st' acc due now :
  rinv st acc -> renacked st st' due now -> lenZ (rs_last_nack_ns st') = 1024 ->
  (forall t, t ∈ due -> getZ (rs_first_missing_ns st) (slot t) <> 0) -> rinv st' acc.
Proof.
  intros [R Hmex] [-> Ht] Hl Hdue. split; [| done]. split; rs_cbn; try apply R; [done |].
  intros s Hs. rewrite Ht by done. destruct (decide (s ∈ due)) as [Hin |]; [by intros _; apply Hdue |].
  by apply (rc_ln _ _ R).
Qed.

(** What a scan leaves in the NACK and in the stream, [due] being reported. *)
Definition scan_post (st st' : ReceiverStream) (acc : gset Z) (now : Z) (out nack : Nack)
    (due : list Z) : Prop :=
  nack_stream_id nack = rs_stream_id st /\ nack_count nack = lenZ due /\
  nack_count nack <= kMaxWindow /\ lenZ (nack_missing nack) = kMaxWindow /\
  take (Z.to_nat (nack_count nack)) (nack_missing nack) = due /\
  drop (Z.to_nat (nack_count nack)) (nack_missing nack) =
    drop (Z.to_nat (nack_count nack)) (nack_missing out) /\
  renacked st st' due now /\ rinv st' acc.

Lemma scan_post_none st acc now out :
  rinv st acc -> lenZ (nack_missing out) = 1024 ->
  scan_post st st acc now out (mkNack (rs_stream_id st) 0 (nack_missing out)) [].
Proof.
  intros I Hout. split_and!; try done. split; [by destruct st |]. intros t Ht.
  by rewrite decide_False by apply not_elem_of_nil.
Qed.

Lemma collect_nacks_correct st acc now delay interval out :
  rinv st acc -> lenZ (nack_missing out) = kMaxWindow ->
  exists st' nack, collect_nacks st now delay interval out = Ok (st', nack) /\
    scan_post st st' acc now out nack (due_gaps st acc now delay interval).
Proof.
  intros I Hout. pose proof I as [R Hmex].
  assert (0 <= rs_base_seq_no st) as Hbase by apply (rc_ring _ _ R).
  pose proof (rc_high _ _ R) as Hh. unfold collect_nacks, due_gaps.
  destruct (rs_lossless st); cbn [negb orb andb]; [| eexists _, _; split; [done | by apply scan_post_none]].
  destruct (rs_have_any st) eqn:Hany; cbn [negb orb]; [| eexists _, _; split; [done | by apply scan_post_none]].
  destruct Hh as [Hh1 Hh2]. pose proof (rc_max _ _ R _ Hh1). pose proof (rc_lt _ _ R _ Hh1).
  pose proof (rc_ws _ _ R). destruct (Z.ltb_spec (rs_highest_received st) (rs_base_seq_no st)).
  { unfold gaps. rewrite seqZ_nil by lia. eexists _, _. split; [done | by apply scan_post_none]. }
  rewrite (nack_words_gaps _ st acc) by (done || lia). cbn [res_bind].
  replace (rs_base_seq_no st + 64 * 0) with (rs_base_seq_no st) by lia.
  set (span := rs_highest_received st - rs_base_seq_no st) in *.
  replace (span + 1 - 64 * 0) with (span + 1) by lia.
  set (L := gaps acc (rs_base_seq_no st) (span + 1)).
  pose proof (gaps_length acc (rs_base_seq_no st) (span + 1) ltac:(lia)) as HL. fold L in HL.
  destruct (nack_fold st (rs_base_seq_no st) now delay interval L
    (mkNackScan (rs_last_nack_ns st) 0 (nack_missing out))) as (I1 & I2 & I3 & I4 & I5 & I6);
    cbn [ns_last_nack ns_count ns_missing] in *; try done; try lia; [apply NoDup_gaps | | apply R |].
  { intros q [? _]%elem_of_gaps. lia. }
  set (F := filter _ L) in *. set (r := foldl _ _ L) in *.
  assert (renacked st (set_last_nack st (ns_last_nack r)) F now) as Hren by (split; [done | exact I6]).
  assert (lenZ F <= lenZ L) by (unfold lenZ, F; pose proof (length_filter
    (fun q => nack_due st now delay interval q = true) L); lia).
  eexists _, _. split; [done |]. split_and!; try done; [unfold kMaxWindow; cbn; lia |].
  eapply renacked_inv; [done | done | done |]. intros t [Hdue _]%list_elem_of_filter.
  unfold nack_due in Hdue. destruct (Z.eqb_spec (getZ (rs_first_missing_ns st) (slot t)) 0); [done | done].
Qed.

(** ** Runs of arrivals *)

(** An arrival: sequence number, send time, time of arrival. *)
Fixpoint receive_all (st : ReceiverStream) (arrivals : list (Z * Z * Z))
  : res (list (Z * ReceiveResult) * ReceiverStream) :=
  match arrivals with
  | [] => Ok ([], st)
  | (seq, sent, now) :: arrivals =>
      res_bind (on_receive st seq sent now) (fun '(result, st) =>
      res_bind (receive_all st arrivals) (fun '(results, st) => Ok ((seq, result) :: results, st)))
  end.

Definition accepted (results : list (Z * ReceiveResult)) : list Z :=
  (filter (fun x => x.2 = Accepted) results).*1.

Lemma accepted_cons seq result results :
  accepted ((seq, result) :: results) =
  if decide (result = Accepted) then seq :: accepted results else accepted results.
Proof. unfold accepted. rewrite filter_cons. simpl. by destruct (decide (result = Accepted)). Qed.

(** Every gap below the highest block has a running timer. *)
Definition stamped (st : ReceiverStream) (acc : gset Z) : Prop :=
  rs_have_any st = true -> forall s, rs_base_seq_no st <= s < rs_highest_received st -> s ∉ acc ->
  getZ (rs_first_missing_ns st) (slot s) <> 0.

Lemma on_receive_stamped st acc seq send now :
  rinv st acc -> stamped st acc -> 0 <= seq < 2 ^ 64 - 1 -> now <> 0 ->
  let '(result, acc') := receive_spec (rs_window_size st) (rs_base_seq_no st) acc seq in
  exists st', on_receive st seq send now = Ok (result, st') /\ rinv st' acc' /\ stamped st' acc' /\
    rs_window_size st' = rs_window_size st.
Proof.
  intros I Hst Hseq Hnow. pose proof (on_receive_correct st acc seq send now I Hseq) as H.
  unfold receive_spec in *. destruct (decide (seq ∈ acc)) as [Hin | Hnew].
  - destruct H as (st' & E & I' & Hws & _). exists st'. split_and!; try done.
    destruct I as [R _]. unfold on_receive in E. pose proof (rc_ws _ _ R).
    split_if_in E; [by injection E as <- |]. pose proof (rc_lt _ _ R _ Hin).
    split_if_in E; [lia |]. rewrite (received_at_repr st acc) in E by (done || lia).
    rewrite bool_decide_eq_true_2 in E by done. by injection E as <-.
  - destruct (Z.leb_spec (rs_window_size st) (seq - rs_base_seq_no st)) as [Hle | Hlt].
    + destruct H as (st' & E & I' & Hws & _). exists st'. split_and!; try done.
      destruct I as [R _]. pose proof (rc_ws _ _ R). unfold on_receive in E.
      split_if_in E; [lia |]. split_if_in E; [by injection E as <- | lia].
    + destruct (on_receive_accepts st acc seq send now I Hseq Hnew Hlt) as (st' & E & I' & Sl).
      exists st'. destruct I as [R Hmex]. pose proof (rc_ws _ _ R).
      destruct Sl as (_ & S2 & _ & S4 & S5 & _ & _ & S8 & S9).
      destruct (recorded_fields st seq send now) as (_ & F2 & _ & F4 & _ & _ & _ & _ & F9 & _).
      split_and!; try done; [| congruence]. intros _ s Hs Hns. rewrite S4, F9 in Hs. rewrite F4 in *.
      assert (rs_base_seq_no st <= seq).
      { destruct (Z.lt_ge_cases seq (rs_base_seq_no st)); [| lia].
        exfalso. apply Hnew, (rr_below _ _ _ (rc_ring _ _ R)). lia. }
      destruct (recorded_stamps st acc seq send now R ltac:(lia)) as [_ G].
      assert (s ∉ acc) by (contradict Hns; by apply elem_of_union_r).
      pose proof (rc_high _ _ R) as Hh. unfold stamped in Hst.
      assert (rs_base_seq_no st <= s < rs_base_seq_no st + 1024).
      { destruct (rs_have_any st); cbn [negb orb] in Hs; [| lia].
        destruct Hh as [Hh1 _]. pose proof (rc_lt _ _ R _ Hh1). split_if_in Hs; lia. }
      destruct (S9 s ltac:(lia)) as [-> _]. rewrite G by done. unfold gap_stamp.
      destruct (rs_have_any st); cbn [negb orb andb] in *; [| by split_if; [| lia]].
      split_if; [done |]. apply Hst; [done | | done].
      destruct Hif as [Hif | Hif]; apply Z.ltb_ge in Hif; split_if_in Hs; try lia.
      destruct (Z.eq_dec s (rs_highest_received st)) as [-> |]; [by destruct Hh | lia].
Qed.

Lemma receive_all_correct arrivals st acc :
  rinv st acc -> (forall seq sent now, (seq, sent, now) ∈ arrivals -> 0 <= seq < 2 ^ 64 - 1) ->
  exists results st' acc', receive_all st arrivals = Ok (results, st') /\ rinv st' acc' /\
    results.*1 = arrivals.*1.*1 /\ acc' = list_to_set (accepted results) ∪ acc /\
    NoDup (accepted results) /\ (forall s, s ∈ accepted results -> s ∉ acc) /\
    rs_window_size st' = rs_window_size st /\ rs_lossless st' = rs_lossless st.
Proof.
  revert st acc. induction arrivals as [| [[seq sent] now] arrivals IH]; intros st acc I Hseq.
  { exists [], st, acc. split_and!; try done; [set_solver | constructor | set_solver]. }
  pose proof (on_receive_correct st acc seq sent now I ltac:(eapply Hseq; by left)) as H.
  cbn [receive_all]. unfold receive_spec in H. destruct (decide (seq ∈ acc)) as [Hin | Hnew].
  2: destruct (rs_window_size st <=? seq - rs_base_seq_no st).
  all: destruct H as (st1 & -> & I1 & Hws & _ & Hll); cbn [res_bind];
    destruct (IH st1 _ I1) as (results & st2 & acc2 & -> & I2 & Hr & Hacc & Hnd & Hout & Hws2 & Hll2);
    [intros; eapply Hseq; by right |]; cbn [res_bind];
    eexists _, st2, acc2; (split; [done |]); rewrite accepted_cons.
  - rewrite decide_False by done. split_and!; first [done | congruence | csimpl; congruence].
  - rewrite decide_False by done. split_and!; first [done | congruence | csimpl; congruence].
  - rewrite decide_True by done. split_and!; try first [done | congruence | csimpl; congruence].
    + rewrite Hacc. set_solver.
    + constructor; [| done]. intros Hin%Hout. set_solver.
    + intros s [-> | Hs%Hout]%elem_of_cons; [done | set_solver].
Qed.

Lemma receive_all_stamped arrivals st acc results st' :
  rinv st acc -> stamped st acc ->
  (forall seq sent now, (seq, sent, now) ∈ arrivals -> 0 <= seq < 2 ^ 64 - 1 /\ now <> 0) ->
  receive_all st arrivals = Ok (results, st') ->
  exists acc', rinv st' acc' /\ stamped st' acc' /\ acc' = list_to_set (accepted results) ∪ acc.
Proof.
  revert st acc results. induction arrivals as [| [[seq sent] now] arrivals IH];
    intros st acc results I Hst Harr E.
  { injection E as <- <-. exists acc. split_and!; try done. set_solver. }
  destruct (Harr seq sent now ltac:(by left)) as [Hseq Hnow]. cbn [receive_all] in E.
  pose proof (on_receive_stamped st acc seq sent now I Hst Hseq Hnow) as H.
  destruct (receive_spec _ _ acc seq) as [result acc1] eqn:Espec.
  destruct H as (st1 & E1 & I1 & St1 & _). rewrite E1 in E. cbn [res_bind] in E.
  apply res_bind_inv in E as ([results' st2] & E2 & [= <- <-]).
  destruct (IH st1 acc1 results' I1 St1) as (acc' & I' & St' & ->);
    [intros; eapply Harr; by right | done |].
  exists (list_to_set (accepted results') ∪ acc1). split_and!; try done. rewrite accepted_cons.
  unfold receive_spec in Espec. destruct (decide (seq ∈ acc)); simplify_eq; [done |].
  destruct (_ <=? _); simplify_eq; [done |]. cbn. set_solver.
Qed.

(** C22: [on_receive] implements insertion into the set of accepted sequence
    numbers: a block already in the set is a duplicate, one a whole window past
    the first missing block is refused, any other is accepted and joins the set;
    the base stays the first missing sequence number, the loop that slides it
    terminates, and refused blocks change nothing but the overflow counter. *)
Theorem on_receive_refines st acc seq send now result acc' :
  rinv st acc -> 0 <= seq < 2 ^ 64 - 1 ->
  receive_spec (rs_window_size st) (rs_base_seq_no st) acc seq = (result, acc') ->
  exists st', on_receive st seq send now = Ok (result, st') /\ rinv st' acc' /\
    is_mex (rs_base_seq_no st') acc' /\ rs_window_size st' = rs_window_size st /\
    (result <> Accepted -> st' = st \/ st' = count_overflow st).
Proof.
  intros I Hseq Espec. pose proof (on_receive_correct st acc seq send now I Hseq) as H.
  rewrite Espec in H. destruct H as (st' & E & I' & Hws & _). exists st'. split_and!; try done.
  - split; [apply I' |]. apply (rr_below _ _ _ (rc_ring _ _ (proj1 I'))).
  - intros Hr. unfold on_receive in E. split_if_in E; [left; congruence |].
    split_if_in E; [right; congruence |]. split_if_in E; [left; congruence |].
    apply res_bind_inv in E as (? & _ & [= <- _]). done.
Qed.

Lemma on_receive_refines_witness :
  exists st', on_receive (new_receiver 1 8 true) 3 50 100 = Ok (Accepted, st') /\
    rinv st' ({[3]} ∪ ∅) /\ is_mex (rs_base_seq_no st') ({[3]} ∪ ∅) /\ rs_window_size st' = 8 /\
    (Accepted <> Accepted -> st' = new_receiver 1 8 true \/ st' = count_overflow (new_receiver 1 8 true)).
Proof.
  apply (on_receive_refines (new_receiver 1 8 true) ∅ 3 50 100); [apply new_receiver_inv | lia | done].
Defined.

(** Whatever blocks arrive, in whatever order and however often, a stream
    accepts each sequence number at most once, what it has accepted is exactly
    the set its state stands for, and its base is the first missing one. *)
Theorem receiver_accepts_once sid ws lossless arrivals :
  (forall seq sent now, (seq, sent, now) ∈ arrivals -> 0 <= seq < 2 ^ 64 - 1) ->
  exists results st, receive_all (new_receiver sid ws lossless) arrivals = Ok (results, st) /\
    results.*1 = arrivals.*1.*1 /\ NoDup (accepted results) /\
    rinv st (list_to_set (accepted results)) /\
    is_mex (rs_base_seq_no st) (list_to_set (accepted results)).
Proof.
  intros Harr. destruct (receive_all_correct arrivals _ _ (new_receiver_inv sid ws lossless) Harr)
    as (results & st & acc' & E & I & Hr & -> & Hnd & _). rewrite union_empty_r_L in I.
  exists results, st. split_and!; try done. split; [apply I |].
  apply (rr_below _ _ _ (rc_ring _ _ (proj1 I))).
Qed.

Lemma receiver_accepts_once_witness :
  exists results st,
    receive_all (new_receiver 1 8 true) [(0, 5, 10); (2, 6, 20); (2, 7, 30); (1, 8, 40)] = Ok (results, st) /\
    results.*1 = [0; 2; 2; 1] /\ NoDup (accepted results) /\
    rinv st (list_to_set (accepted results)) /\ is_mex (rs_base_seq_no st) (list_to_set (accepted results)).
Proof.
  apply (receiver_accepts_once 1 8 true [(0, 5, 10); (2, 6, 20); (2, 7, 30); (1, 8, 40)]).
  intros seq sent now H. repeat (apply elem_of_cons in H as [[= -> -> ->] | H]; [lia |]).
  by apply elem_of_nil in H.
Defined.

(** The ACK a receiver builds is exact: its base is the first missing block,
    and bit [i] of its 1024-bit mask is set exactly when block [base + i] has
    been accepted; it is a well-formed message, so it reaches the sender as
    built. *)
Theorem build_ack_exact st acc :
  rinv st acc -> is_u16 (rs_stream_id st) -> is_u64 (rs_base_seq_no st) -> is_u64 (rs_last_send_time st) ->
  is_mex (ack_base_seq_no (build_ack st)) acc /\
  (forall i, 0 <= i < 1024 ->
     ack_bit (build_ack st) i = true <-> ack_base_seq_no (build_ack st) + i ∈ acc) /\
  decode_ack (ack_wire (build_ack st)) = Ok (build_ack st).
Proof.
  intros [R Hmex] H1 H2 H3. split_and!.
  - split; [done |]. apply (rr_below _ _ _ (rc_ring _ _ R)).
  - intros i Hi. rewrite (build_ack_bit st acc) by done. apply bool_decide_eq_true.
  - rewrite <- (app_nil_r (ack_wire _)). exact (decode_wire (M := Ack) _ []
      (build_ack_wf st acc R H1 H2 H3)).
Qed.

(** A stream that has received block 3 only. *)
Definition receiver_example : ReceiverStream :=
  match on_receive (new_receiver 1 8 true) 3 50 100 with
  | Ok (_, st) => st
  | _ => new_receiver 1 8 true
  end.

Lemma receiver_example_inv : rinv receiver_example {[3]}.
Proof.
  destruct (on_receive_correct (new_receiver 1 8 true) ∅ 3 50 100 (new_receiver_inv _ _ _))
    as (st & E & I & _); [lia |]. unfold receiver_example. rewrite E. by rewrite union_empty_r_L in I.
Qed.

Lemma build_ack_exact_witness :
  is_mex (ack_base_seq_no (build_ack receiver_example)) {[3]} /\
  (forall i, 0 <= i < 1024 -> ack_bit (build_ack receiver_example) i = true <->
     ack_base_seq_no (build_ack receiver_example) + i ∈ ({[3]} : gset Z)) /\
  decode_ack (ack_wire (build_ack receiver_example)) = Ok (build_ack receiver_example).
Proof.
  apply (build_ack_exact receiver_example {[3]}); [apply receiver_example_inv | ..];
    unfold is_u16, is_u64; vm_compute; intuition congruence.
Defined.

(** [collect_nacks] reports exactly the gaps it should, in ascending order and
    never more than fit: the sequence numbers not accepted, below the highest
    accepted block, that have been missing for the reorder delay and were not
    reported within the re-NACK interval; none for a loss-tolerant stream.  It
    stamps what it reports and changes nothing else. *)
Theorem collect_nacks_exact st acc now delay interval out :
  rinv st acc -> lenZ (nack_missing out) = kMaxWindow ->
  exists st' nack, collect_nacks st now delay interval out = Ok (st', nack) /\
    scan_post st st' acc now out nack (due_gaps st acc now delay interval) /\
    forall s, s ∈ due_gaps st acc now delay interval <->
      rs_lossless st = true /\ rs_have_any st = true /\
      rs_base_seq_no st <= s < rs_highest_received st /\ (s ∉ acc) /\
      nack_due st now delay interval s = true.
Proof.
  intros I Hout. destruct (collect_nacks_correct st acc now delay interval out I Hout)
    as (st' & nack & E & P). exists st', nack. split_and!; [done .. |]. intros s.
  pose proof (rc_high _ _ (proj1 I)) as Hh. unfold due_gaps.
  destruct (rs_lossless st), (rs_have_any st); cbn [andb];
    try (split; [by intros ?%elem_of_nil | by intros (? & ? & _)]).
  rewrite list_elem_of_filter, elem_of_gaps. split; [| intuition lia].
  intros (? & ? & Hns). split_and!; try done; [lia |].
  enough (s <> rs_highest_received st) by lia. intros ->. by destruct Hh.
Qed.

Lemma collect_nacks_exact_witness :
  exists st' nack, collect_nacks receiver_example 200 10 10 default_nack = Ok (st', nack) /\
    scan_post receiver_example st' {[3]} 200 default_nack nack
      (due_gaps receiver_example {[3]} 200 10 10) /\
    forall s, s ∈ due_gaps receiver_example {[3]} 200 10 10 <->
      rs_lossless receiver_example = true /\ rs_have_any receiver_example = true /\
      rs_base_seq_no receiver_example <= s < rs_highest_received receiver_example /\
      (s ∉ ({[3]} : gset Z)) /\ nack_due receiver_example 200 10 10 s = true.
Proof. apply (collect_nacks_exact receiver_example {[3]}); [apply receiver_example_inv | done]. Defined.


Definition nack_example : list (Z * Z * Z) := [(0, 5, 10); (2, 6, 20)].

