(* ===== verification/Registry.v ===== *)
(** * The sender's registry

    Models include/fuse/proto/registry.hpp and src/proto/registry.cpp: the
    circular array of blocks kept for retransmission, and [apply_ack], which
    frees what an ACK confirms.  The theorems describe the registry by what
    [lookup] finds: the last block stored at each sequence number of a window
    until it is confirmed. *)

From S2P Require Import Prelude Wire Control Bits Window Receiver.

Record RegistrySlot := mkRegistrySlot {
  sl_seq_no : Z;
  sl_send_time_ns : Z;
  sl_offset : Z;
  sl_payload_len : Z;
  sl_flags : Z;
  sl_valid : bool;
  sl_payload : bytes;
}.

Definition default_slot : RegistrySlot :=
  mkRegistrySlot 0 0 0 0 0 false (replicate (Z.to_nat kMaxPayloadSize) 0).

Record SenderRegistry := mkSenderRegistry {
  sr_stream_id : Z;
  sr_window_size : Z;
  sr_slots : list RegistrySlot;
}.

(** The constructor. *)
Definition new_registry (stream_id window_size : Z) : SenderRegistry :=
  let window_size :=
    if window_size <? 1 then 1 else if kMaxWindow <? window_size then kMaxWindow else window_size in
  mkSenderRegistry stream_id window_size (replicate (Z.to_nat window_size) default_slot).

Definition index_of (reg : SenderRegistry) (seq_no : Z) : Z := seq_no mod sr_window_size reg.

Definition set_slot (reg : SenderRegistry) (i : Z) (sl : RegistrySlot) : SenderRegistry :=
  mkSenderRegistry (sr_stream_id reg) (sr_window_size reg) (setZ (sr_slots reg) i sl).

(** [Fault] is a slot outside the array or a payload shorter than its length. *)
Definition store (reg : SenderRegistry) (seq_no : Z) (payload : option bytes)
    (payload_len send_time_ns offset flags : Z) : res (bool * SenderRegistry) :=
  if kMaxPayloadSize <? payload_len then Ok (false, reg)
  else
    match nthZ (sr_slots reg) (index_of reg seq_no) with
    | None => Fault
    | Some sl =>
        let stored p :=
          Ok (true, set_slot reg (index_of reg seq_no)
                      (mkRegistrySlot seq_no send_time_ns offset payload_len flags true p)) in
        match payload with
        | Some p =>
            if 0 <? payload_len then
              if lenZ p <? payload_len then Fault
              else stored (splice (sl_payload sl) 0 (take (Z.to_nat payload_len) p))
            else stored (sl_payload sl)
        | None => stored (sl_payload sl)
        end
    end.

Definition lookup (reg : SenderRegistry) (seq_no : Z) : option RegistrySlot :=
  match nthZ (sr_slots reg) (index_of reg seq_no) with
  | Some sl => if sl_valid sl && (sl_seq_no sl =? seq_no) then Some sl else None
  | None => None
  end.

Definition invalidate (sl : RegistrySlot) : RegistrySlot :=
  mkRegistrySlot (sl_seq_no sl) (sl_send_time_ns sl) (sl_offset sl) (sl_payload_len sl)
    (sl_flags sl) false (sl_payload sl).

Definition confirm (reg : SenderRegistry) (seq_no : Z) : SenderRegistry :=
  match nthZ (sr_slots reg) (index_of reg seq_no) with
  | Some sl =>
      if sl_valid sl && (sl_seq_no sl =? seq_no)
      then set_slot reg (index_of reg seq_no) (invalidate sl) else reg
  | None => reg
  end.

Definition valid_count (reg : SenderRegistry) : Z :=
  for_up (Z.to_nat (sr_window_size reg)) 0
    (fun i n => match nthZ (sr_slots reg) i with
                | Some sl => if sl_valid sl then u16 (n + 1) else n
                | None => n
                end) 0.

(** The lambda [take] of [apply_ack], on the registry and the byte count. *)
Definition take_seq (seq : Z) (s : SenderRegistry * Z) : SenderRegistry * Z :=
  let '(reg, bytes) := s in
  match lookup reg seq with
  | Some sl => (confirm reg seq, u64 (bytes + sl_payload_len sl))
  | None => (reg, bytes)
  end.

(** [if (received_end && x > *received_end) *received_end = x]. *)
Definition raise_end (x : Z) (received_end : option Z) : option Z :=
  match received_end with
  | Some e => if e <? x then Some x else Some e
  | None => None
  end.

(** The body of the bit loop; the flag is its [break]. *)
Definition selective_one (ack_base base next_seq w b : Z) (s : (SenderRegistry * Z) * option Z)
  : ((SenderRegistry * Z) * option Z) * bool :=
  let '(rb, received_end) := s in
  let seq := u64 (ack_base + 64 * w + b) in
  if next_seq <=? seq then (s, true)
  else ((if base <=? seq then take_seq seq rb else rb, raise_end (u64 (seq + 1)) received_end), false).

Fixpoint selective_words (n : nat) (ack : Ack) (base next_seq w : Z)
    (s : (SenderRegistry * Z) * option Z) : res ((SenderRegistry * Z) * option Z) :=
  match n with
  | O => Ok s
  | S n =>
      res_bind (foreach_bit 64 (getZ (ack_received_bitmask ack) w)
                  (selective_one (ack_base_seq_no ack) base next_seq w) s)
               (selective_words n ack base next_seq (w + 1))
  end.

(** The registry, [*base], [*received_end] and the bytes confirmed. *)
Definition apply_ack (reg : SenderRegistry) (ack : Ack) (base next_seq : Z) (received_end : option Z)
  : res (SenderRegistry * Z * option Z * Z) :=
  let '(rb, base) :=
    if base <? ack_base_seq_no ack then
      let new_base := Z.min (ack_base_seq_no ack) next_seq in
      (for_up (Z.to_nat (new_base - base)) base take_seq (reg, 0), new_base)
    else ((reg, 0), base) in
  res_bind
    (if ack_base_seq_no ack <? next_seq
     then selective_words (Z.to_nat kMaskWords) ack base next_seq 0 (rb, received_end)
     else Ok (rb, received_end))
    (fun '((reg, bytes), received_end) => Ok (reg, base, raise_end base received_end, bytes)).

(** ** The registry seen through [lookup] *)

Definition wf_slot (sl : RegistrySlot) : Prop :=
  0 <= sl_payload_len sl <= kMaxPayloadSize /\ lenZ (sl_payload sl) = kMaxPayloadSize.

Record wf_registry (reg : SenderRegistry) : Prop := {
  wr_ws : 1 <= sr_window_size reg <= kMaxWindow;
  wr_len : lenZ (sr_slots reg) = sr_window_size reg;
  wr_slots : Forall wf_slot (sr_slots reg);
}.

Lemma new_registry_wf sid ws : wf_registry (new_registry sid ws).
Proof.
  unfold new_registry. set (w := if _ <? _ then _ else _).
  assert (1 <= w <= kMaxWindow) by (subst w; unfold kMaxWindow; repeat split_if; lia).
  split; cbn; [done | unfold lenZ; rewrite length_replicate; lia |].
  by apply Forall_replicate.
Qed.

(** The code never leaves the slot array. *)
Lemma index_in_range reg s : wf_registry reg -> 0 <= index_of reg s < lenZ (sr_slots reg).
Proof. intros W. rewrite (wr_len _ W). unfold index_of. pose proof (wr_ws _ W). apply Z.mod_pos_bound. lia. Qed.

Lemma slot_found reg s :
  wf_registry reg -> exists sl, nthZ (sr_slots reg) (index_of reg s) = Some sl /\ wf_slot sl.
Proof.
  intros W. destruct (nthZ_Some (sr_slots reg) (index_of reg s)) as [sl Hsl]; [by apply index_in_range |].
  exists sl. split; [done |]. apply nthZ_inv in Hsl as [_ Hsl].
  by apply (Forall_lookup_1 _ _ _ _ (wr_slots _ W) Hsl).
Qed.

Lemma set_slot_wf reg i sl : wf_registry reg -> wf_slot sl -> wf_registry (set_slot reg i sl).
Proof.
  intros W Hsl. split; cbn; [apply W | by rewrite lenZ_setZ; apply W |].
  unfold setZ. apply Forall_insert; [apply W | done].
Qed.

Lemma lookup_set_slot reg s sl t :
  wf_registry reg ->
  lookup (set_slot reg (index_of reg s) sl) t =
  if index_of reg s =? index_of reg t
  then if sl_valid sl && (sl_seq_no sl =? t) then Some sl else None
  else lookup reg t.
Proof.
  intros W. unfold lookup at 1. change (index_of (set_slot reg _ sl) t) with (index_of reg t).
  cbn [sr_slots set_slot]. rewrite nthZ_setZ by (try apply index_in_range; done || apply index_in_range; done).
  by destruct (index_of reg s =? index_of reg t).
Qed.

Lemma confirm_wf reg s : wf_registry reg -> wf_registry (confirm reg s).
Proof.
  intros W. unfold confirm. destruct (slot_found reg s W) as (sl & -> & Hsl). split_if; [| done].
  by apply set_slot_wf.
Qed.

Lemma lookup_confirm reg s t :
  wf_registry reg -> lookup (confirm reg s) t = if s =? t then None else lookup reg t.
Proof.
  intros W. unfold confirm. destruct (slot_found reg s W) as (sl & Hsl & _). rewrite Hsl.
  destruct (sl_valid sl && (sl_seq_no sl =? s)) eqn:Hv.
  - rewrite lookup_set_slot by done. cbn [invalidate sl_valid andb].
    apply andb_prop in Hv as [Hv Hs%Z.eqb_eq].
    destruct (Z.eqb_spec s t) as [-> | Hne]; [by rewrite Z.eqb_refl |].
    destruct (Z.eqb_spec (index_of reg s) (index_of reg t)) as [E |]; [| done].
    unfold lookup. rewrite <- E, Hsl. rewrite Hv, Hs. by apply Z.eqb_neq in Hne as ->.
  - destruct (Z.eqb_spec s t) as [<- | Hne]; [| done]. unfold lookup. by rewrite Hsl, Hv.
Qed.

(** The slot a successful [store] writes. *)
Definition stored_slot (old : bytes) (seq : Z) (payload : option bytes) (len sent offset flags : Z)
  : RegistrySlot :=
  mkRegistrySlot seq sent offset len flags true
    (match payload with
     | Some p => if 0 <? len then splice old 0 (take (Z.to_nat len) p) else old
     | None => old
     end).

Lemma store_correct reg seq payload len sent offset flags :
  wf_registry reg -> 0 <= len <= kMaxPayloadSize ->
  (forall p, payload = Some p -> len <= lenZ p) ->
  exists reg' sl, store reg seq payload len sent offset flags = Ok (true, reg') /\
    wf_registry reg' /\ sr_window_size reg' = sr_window_size reg /\
    (exists old, lenZ old = kMaxPayloadSize /\ sl = stored_slot old seq payload len sent offset flags) /\
    forall t, lookup reg' t =
      if seq =? t then Some sl
      else if index_of reg seq =? index_of reg t then None else lookup reg t.
Proof.
  intros W Hlen Hp. unfold store. split_if; [lia |].
  destruct (slot_found reg seq W) as (old & -> & Hold1 & Hold2).
  set (sl := stored_slot (sl_payload old) seq payload len sent offset flags).
  assert (wf_slot sl) as Hsl.
  { split; [done |]. cbn. destruct payload as [p |]; [| done]. split_if; [| done].
    pose proof (Hp p eq_refl). rewrite splice_length; [done | lia | rewrite lenZ_take; lia]. }
  exists (set_slot reg (index_of reg seq) sl), sl. split_and!.
  - subst sl. unfold stored_slot. destruct payload as [p |]; [| done]. pose proof (Hp p eq_refl).
    destruct (0 <? len) eqn:?; [| done]. by split_if; [lia |].
  - by apply set_slot_wf.
  - done.
  - by exists (sl_payload old).
  - intros t. rewrite lookup_set_slot by done. cbn [sl stored_slot sl_valid sl_seq_no andb].
    destruct (Z.eqb_spec seq t) as [-> | Hne]; [by rewrite Z.eqb_refl | done].
Qed.

(** ** Confirming blocks *)

(** The payload bytes of the blocks the registry still holds. *)
Definition slot_bytes (sl : RegistrySlot) : Z := if sl_valid sl then sl_payload_len sl else 0.
Definition resident (reg : SenderRegistry) : Z := sumZ slot_bytes (sr_slots reg).

Lemma resident_bounds reg : wf_registry reg -> 0 <= resident reg <= 1024 * 16384.
Proof.
  intros W. pose proof (sumZ_bounds slot_bytes (sr_slots reg) 16384) as H. rewrite (wr_len _ W) in H.
  pose proof (wr_ws _ W). unfold kMaxWindow in *. unfold resident. split; [apply H | etrans; [apply H | lia]].
  all: intros sl Hsl; apply (proj1 (list.Forall_forall _ _) (wr_slots _ W)) in Hsl as [Hsl _];
    unfold slot_bytes, kMaxPayloadSize in *; split_if; lia.
Qed.

Lemma resident_confirm reg s sl :
  wf_registry reg -> lookup reg s = Some sl ->
  resident (confirm reg s) = resident reg - sl_payload_len sl /\ 0 <= sl_payload_len sl.
Proof.
  intros W. unfold lookup, confirm. destruct (slot_found reg s W) as (sl' & Hsl & Hwf & _). rewrite Hsl.
  destruct (sl_valid sl' && (sl_seq_no sl' =? s)) eqn:Hv; [| done]. intros [= <-]. split; [| lia].
  apply nthZ_inv in Hsl as [_ Hsl]. unfold resident. cbn [set_slot sr_slots]. unfold setZ.
  rewrite (sumZ_insert _ _ _ _ _ Hsl). apply andb_prop in Hv as [Hv _]. unfold slot_bytes. cbn.
  rewrite Hv. lia.
Qed.

(** Taking a list of sequence numbers frees exactly those, and counts the bytes
    that leave the registry. *)
Lemma take_fold L reg b reg' b' :
  wf_registry reg -> 0 <= b -> b + resident reg < 2 ^ 64 ->
  foldl (fun s q => take_seq q s) (reg, b) L = (reg', b') ->
  wf_registry reg' /\ sr_window_size reg' = sr_window_size reg /\ 0 <= b' /\
  b' + resident reg' = b + resident reg /\
  forall t, lookup reg' t = if decide (t ∈ L) then None else lookup reg t.
Proof.
  revert reg b. induction L as [| q L IH]; intros reg b W Hb Hsum E.
  { injection E as <- <-. by split_and!. }
  cbn [foldl take_seq] in E. destruct (lookup reg q) as [sl |] eqn:Hl.
  - destruct (resident_confirm reg q sl W Hl) as [Hres Hsl].
    pose proof (resident_bounds _ (confirm_wf reg q W)).
    rewrite u64_small in E by (unfold is_u64; lia).
    destruct (IH (confirm reg q) (b + sl_payload_len sl)) as (W' & Hws & Hb' & Hs & Hlk);
      [by apply confirm_wf | lia | lia | done |].
    split_and!; [done | | done | lia |].
    { rewrite Hws. unfold confirm. by destruct (nthZ _ _) as [x |]; [destruct (_ && _) |]. }
    intros t. rewrite Hlk, lookup_confirm by done. destruct (Z.eqb_spec q t) as [-> | Hne].
    + rewrite (decide_True (P := t ∈ t :: L)) by (by left). by destruct (decide (t ∈ L)).
    + destruct (decide (t ∈ L)); [by rewrite decide_True by (by right) |].
      rewrite decide_False; [done |]. by intros [-> | ?]%elem_of_cons.
  - destruct (IH _ _ W Hb Hsum E) as (W' & Hws & Hb' & Hs & Hlk). split_and!; try done.
    intros t. rewrite Hlk. destruct (decide (t ∈ L)); [by rewrite decide_True by (by right) |].
    destruct (decide (t ∈ q :: L)) as [[-> | ?]%elem_of_cons |]; done.
Qed.

(** ** The selective part of an ACK *)

(** The sequence numbers below [next] that an ACK's bitmask reports, among [n]
    from [lo] on. *)
Definition selected (ack : Ack) (next lo n : Z) : list Z :=
  filter (fun q => q < next /\ ack_bit ack (q - ack_base_seq_no ack) = true) (seqZ lo n).

Definition select_step (base seq : Z) (s : (SenderRegistry * Z) * option Z)
  : (SenderRegistry * Z) * option Z :=
  let '(rb, received_end) := s in
  (if base <=? seq then take_seq seq rb else rb, raise_end (seq + 1) received_end).

Lemma selected_word ack next w :
  0 <= w ->
  Z.add (ack_base_seq_no ack + 64 * w) <$>
    filter (fun b => b < next - (ack_base_seq_no ack + 64 * w)) (set_bits (getZ (ack_received_bitmask ack) w)) =
  selected ack next (ack_base_seq_no ack + 64 * w) 64.
Proof.
  intros Hw. unfold selected. rewrite <- (fmap_filter_add
    (fun q => q < next /\ ack_bit ack (q - ack_base_seq_no ack) = true)). f_equal.
  unfold set_bits. rewrite list_filter_filter. apply filter_ext_in. intros b Hb%elem_of_seqZ.
  unfold ack_bit. replace (ack_base_seq_no ack + 64 * w + b - ack_base_seq_no ack) with (64 * w + b) by lia.
  replace ((64 * w + b) / 64) with w by mlia. replace ((64 * w + b) mod 64) with b by mlia. intuition lia.
Qed.

Lemma selected_app ack next lo n1 n2 :
  0 <= n1 -> 0 <= n2 -> selected ack next lo (n1 + n2) = selected ack next lo n1 ++ selected ack next (lo + n1) n2.
Proof. intros. unfold selected. by rewrite seqZ_app, list.filter_app. Qed.

Lemma selective_words_selected n ack base next w s :
  0 <= w -> w + Z.of_nat n = 16 -> Forall is_u64 (ack_received_bitmask ack) ->
  0 <= ack_base_seq_no ack -> ack_base_seq_no ack + 1024 < 2 ^ 64 ->
  selective_words n ack base next w s =
  Ok (foldl (fun s q => select_step base q s) s
        (selected ack next (ack_base_seq_no ack + 64 * w) (1024 - 64 * w))).
Proof.
  intros Hw Hn Hmask Hb0 Hb. revert w s Hw Hn. induction n as [| n IH]; intros w s Hw Hn.
  { unfold selected. by rewrite seqZ_nil by lia. }
  cbn [selective_words].
  assert (is_u64 (getZ (ack_received_bitmask ack) w)) as Hword.
  { unfold getZ. destruct (nth_in_or_default (Z.to_nat w) (ack_received_bitmask ack) 0) as [Hin | ->]; [| done].
    apply (proj1 (list.Forall_forall _ _) Hmask). by apply list_elem_of_In. }
  rewrite foreach_bit_spec by done. cbn [res_bind]. rewrite IH by lia. f_equal.
  set (c := ack_base_seq_no ack + 64 * w).
  rewrite (fold_break_limit (fun b s => select_step base (c + b) s) (next - c));
    [| apply set_bits_sorted |].
  - rewrite (foldl_fmap_in (fun s q => select_step base q s) (Z.add c) (Z.add c)) by done.
    unfold c at 1. rewrite selected_word by lia. rewrite <- foldl_app. f_equal.
    replace (1024 - 64 * w) with (64 + (1024 - 64 * (w + 1))) by lia.
    rewrite selected_app by lia. do 2 f_equal. lia.
  - intros b [rb re] [Hbr _]%elem_of_set_bits. unfold selective_one, select_step.
    fold c. rewrite !(u64_small (c + b)) by (unfold is_u64; lia).
    rewrite u64_small by (unfold is_u64; lia).
    destruct (Z.leb_spec next (c + b)), (Z.leb_spec (next - c) b); done || lia.
Qed.

Lemma select_fold base L rb re :
  foldl (fun s q => select_step base q s) (rb, re) L =
  (foldl (fun s q => take_seq q s) rb (filter (fun q => base <= q) L),
   foldl (fun e q => raise_end (q + 1) e) re L).
Proof.
  revert rb re. induction L as [| q L IH]; intros rb re; [done |].
  cbn [foldl select_step]. rewrite IH, filter_cons.
  destruct (Z.leb_spec base q); [by rewrite decide_True by lia | by rewrite decide_False by lia].
Qed.

Lemma raise_fold L e :
  exists e', foldl (fun e q => raise_end (q + 1) e) (Some e) L = Some e' /\ e <= e' /\
    (forall q, q ∈ L -> q < e') /\ (e' = e \/ e' - 1 ∈ L).
Proof.
  revert e. induction L as [| q L IH]; intros e.
  { exists e. split_and!; [done | lia | by intros ? ?%elem_of_nil | by left]. }
  cbn [foldl raise_end]. destruct (Z.ltb_spec e (q + 1)).
  - destruct (IH (q + 1)) as (e' & -> & H1 & H2 & H3). exists e'. split_and!; [done | lia | |].
    + intros t [-> | Ht]%elem_of_cons; [lia | by apply H2].
    + right. destruct H3 as [-> | H3]; [| by right]. replace (q + 1 - 1) with q by lia. by left.
  - destruct (IH e) as (e' & -> & H1 & H2 & H3). exists e'. split_and!; [done | lia | |].
    + intros t [-> | Ht]%elem_of_cons; [lia | by apply H2].
    + destruct H3 as [-> | H3]; [by left | right; by right].
Qed.

Lemma raise_fold_none L : foldl (fun e q => raise_end (q + 1) e) None L = None.
Proof. by induction L. Qed.

(** The base after an ACK: clamped to what was sent. *)
Definition acked_base (ack : Ack) (base next : Z) : Z := Z.max base (Z.min (ack_base_seq_no ack) next).

(** The ACK reports block [q], above its base, received. *)
Definition selects (ack : Ack) (next q : Z) : Prop :=
  ack_base_seq_no ack <= q < ack_base_seq_no ack + 1024 /\ q < next /\
  ack_bit ack (q - ack_base_seq_no ack) = true.

(** The ACK confirms block [q]. *)
Definition acks (ack : Ack) (base next q : Z) : Prop :=
  base <= q < acked_base ack base next \/ (acked_base ack base next <= q /\ selects ack next q).

Lemma elem_of_selected ack next q :
  q ∈ selected ack next (ack_base_seq_no ack) 1024 <-> selects ack next q.
Proof. unfold selected, selects. rewrite list_elem_of_filter, elem_of_seqZ. tauto. Qed.

(** [apply_ack] as two folds over lists of sequence numbers. *)
Lemma apply_ack_folds reg ack base next re :
  0 <= base <= next -> next + 1024 < 2 ^ 64 -> wf_msg ack ->
  let nb := acked_base ack base next in
  let L := if ack_base_seq_no ack <? next then selected ack next (ack_base_seq_no ack) 1024 else [] in
  let rb := foldl (fun s q => take_seq q s) (reg, 0)
              (seqZ base (nb - base) ++ filter (fun q => nb <= q) L) in
  apply_ack reg ack base next re =
  Ok (rb.1, nb, raise_end nb (foldl (fun e q => raise_end (q + 1) e) re L), rb.2).
Proof.
  intros Hbase Hnext (_ & Hab & _ & Hmask & _). cbv zeta. unfold apply_ack, is_u64 in *.
  set (rb0 := if base <? _ then _ else _).
  assert (rb0 = (foldl (fun s q => take_seq q s) (reg, 0) (seqZ base (acked_base ack base next - base)),
                 acked_base ack base next)) as ->.
  { subst rb0. unfold acked_base. destruct (Z.ltb_spec base (ack_base_seq_no ack)).
    - rewrite Z.max_r by lia. rewrite for_up_foldl. by rewrite Z2Nat.id by lia.
    - rewrite Z.max_l by lia. by rewrite seqZ_nil by lia. }
  rewrite foldl_app. destruct (Z.ltb_spec (ack_base_seq_no ack) next).
  - rewrite selective_words_selected by (done || lia). cbn [res_bind].
    replace (ack_base_seq_no ack + 64 * 0) with (ack_base_seq_no ack) by lia.
    replace (1024 - 64 * 0) with 1024 by lia. rewrite select_fold. by destruct (foldl _ _ (filter _ _)).
  - cbn. by destruct (foldl _ _ (seqZ _ _)).
Qed.

Lemma apply_ack_correct reg ack base next re :
  wf_registry reg -> 0 <= base <= next -> next + 1024 < 2 ^ 64 -> wf_msg ack ->
  exists reg' re' confirmed,
    apply_ack reg ack base next re = Ok (reg', acked_base ack base next, re', confirmed) /\
    wf_registry reg' /\ sr_window_size reg' = sr_window_size reg /\
    confirmed + resident reg' = resident reg /\
    (forall q, acks ack base next q -> lookup reg' q = None) /\
    (forall q, ~ acks ack base next q -> lookup reg' q = lookup reg q) /\
    (re = None -> re' = None) /\
    (forall e, re = Some e -> exists e', re' = Some e' /\ e <= e' /\ acked_base ack base next <= e' /\
       (forall q, selects ack next q -> q < e') /\
       (e' = e \/ e' = acked_base ack base next \/ selects ack next (e' - 1))).
Proof.
  intros W Hbase Hnext Hack. pose proof (apply_ack_folds reg ack base next re Hbase Hnext Hack) as E.
  cbv zeta in E. set (nb := acked_base ack base next) in *.
  set (L := if _ <? next then _ else _) in *.
  assert (forall q, q ∈ L <-> selects ack next q) as HL.
  { intros q. subst L. destruct (Z.ltb_spec (ack_base_seq_no ack) next); [apply elem_of_selected |].
    split; [by intros ?%elem_of_nil |]. intros (? & ? & _). lia. }
  destruct (foldl _ (reg, 0) _) as [reg' b'] eqn:Ef. cbn [fst snd] in E.
  pose proof (resident_bounds reg W).
  destruct (take_fold (seqZ base (nb - base) ++ filter (fun q => nb <= q) L) reg 0 reg' b')
    as (W' & Hws & Hb' & Hsum & Hlk); [done | lia | lia | done |].
  assert (forall q, q ∈ seqZ base (nb - base) ++ filter (fun q => nb <= q) L <-> acks ack base next q) as Hacks.
  { intros q. rewrite elem_of_app, elem_of_seqZ, list_elem_of_filter, HL. unfold acks. fold nb.
    intuition lia. }
  eexists _, _, _. split; [exact E |]. split_and!; [done | done | lia | | | |].
  - intros q Hq%Hacks. by rewrite Hlk, decide_True.
  - intros q Hq. rewrite Hlk, decide_False; [done |]. by rewrite Hacks.
  - intros ->. by rewrite raise_fold_none.
  - intros e ->. destruct (raise_fold L e) as (e1 & -> & H1 & H2 & H3). cbn [raise_end].
    destruct (Z.ltb_spec e1 nb).
    + exists nb. split_and!; [done | lia | lia | | auto]. intros q Hq%HL. apply H2 in Hq. lia.
    + exists e1. split_and!; [done | lia | lia | |].
      * intros q Hq%HL. by apply H2.
      * destruct H3 as [-> | H3%HL]; auto.
Qed.

(** ** Where the blocks are *)

(** Every block is in the slot of its sequence number. *)
Definition placed (reg : SenderRegistry) : Prop :=
  forall i sl, nthZ (sr_slots reg) i = Some sl -> sl_valid sl = true -> index_of reg (sl_seq_no sl) = i.

(** The bytes of block [s], if it is held. *)
Definition held (reg : SenderRegistry) (s : Z) : Z := match lookup reg s with Some sl => sl_payload_len sl | None => 0 end.

Lemma new_registry_placed sid ws : placed (new_registry sid ws).
Proof.
  intros i sl [_ E]%nthZ_inv Hv. unfold new_registry in E. cbn in E. apply lookup_replicate in E as [-> _]. done.
Qed.

Lemma set_slot_placed reg i sl :
  placed reg -> 0 <= i < lenZ (sr_slots reg) -> (sl_valid sl = true -> index_of reg (sl_seq_no sl) = i) -> placed (set_slot reg i sl).
Proof.
  intros P Hi Hsl j x E Hv. cbn [set_slot sr_slots] in E. pose proof (nthZ_inv _ _ _ E) as [Hj _]. rewrite lenZ_setZ in Hj.
  rewrite nthZ_setZ in E by lia. change (index_of (set_slot reg i sl)) with (index_of reg).
  destruct (Z.eqb_spec i j) as [<- |]; [| by apply P]. injection E as <-. by apply Hsl.
Qed.

Lemma confirm_placed reg s : wf_registry reg -> placed reg -> placed (confirm reg s).
Proof.
  intros W P. unfold confirm. destruct (nthZ _ _) as [sl |]; [| done]. destruct (_ && _); [| done].
  by apply set_slot_placed; [done | apply index_in_range |].
Qed.

Lemma take_fold_placed L reg b : wf_registry reg -> placed reg -> placed (foldl (fun s q => take_seq q s) (reg, b) L).1.
Proof.
  revert reg b. induction L as [| q L IH]; intros reg b W P; [done |]. cbn [foldl take_seq].
  destruct (lookup reg q); [| by apply IH]. apply IH; [by apply confirm_wf | by apply confirm_placed].
Qed.

Lemma apply_ack_placed reg ack base next re reg' base' re' n :
  wf_registry reg -> placed reg -> 0 <= base <= next -> next + 1024 < 2 ^ 64 -> wf_msg ack ->
  apply_ack reg ack base next re = Ok (reg', base', re', n) -> placed reg'.
Proof.
  intros W P Hb Hn Ha E. pose proof (apply_ack_folds reg ack base next re Hb Hn Ha) as F. cbv zeta in F. rewrite F in E.
  apply Ok_inj in E. injection E as <- _ _ _. by apply take_fold_placed.
Qed.

(** Storing a block adds its bytes to those held, in place of an earlier version of
    the same block. *)
Lemma store_held reg seq payload len sent offset flags ok reg' :
  wf_registry reg -> placed reg -> 0 <= len <= kMaxPayloadSize ->
  (forall t, lookup reg t <> None -> index_of reg t = index_of reg seq -> t = seq) ->
  store reg seq payload len sent offset flags = Ok (ok, reg') ->
  placed reg' /\ resident reg' = resident reg + len - held reg seq.
Proof.
  intros W P Hlen Hu E. unfold store in E. split_if_in E; [lia |].
  pose proof (slot_found reg seq W) as (old & Eold & _). rewrite Eold in E.
  assert (exists p, reg' = set_slot reg (index_of reg seq) (mkRegistrySlot seq sent offset len flags true p)) as [p ->].
  { destruct payload as [p |]; [destruct (0 <? len); [destruct (_ <? _); [done |] |] |]; injection E as _ <-; by eexists. }
  split; [by apply set_slot_placed; [done | apply index_in_range |] |].
  pose proof (nthZ_inv _ _ _ Eold) as [_ Eo]. unfold resident. cbn [set_slot sr_slots]. unfold setZ. rewrite (sumZ_insert _ _ _ _ _ Eo).
  unfold slot_bytes at 2 3. cbn [sl_valid sl_payload_len]. unfold held, lookup. rewrite Eold.
  destruct (sl_valid old) eqn:Hv; cbn [andb]; [| lia]. pose proof (P _ _ Eold Hv) as Hi.
  assert (sl_seq_no old = seq) as ->; [| rewrite Z.eqb_refl; lia].
  apply Hu; [| done]. unfold lookup. by rewrite Hi, Eold, Hv, Z.eqb_refl.
Qed.

(** ** Properties *)

(** A registry keeps a whole window: storing a block whose sequence number is
    less than a window past [base] succeeds inside the slot array, the block can
    then be looked up with its own length, offset, flags, time and payload
    bytes, and every other block from [base] on is still found as before, so a
    NACK inside the window can always be served. *)
Theorem store_keeps_window reg base seq p len sent offset flags :
  wf_registry reg -> 0 <= len <= kMaxPayloadSize -> len <= lenZ p ->
  base <= seq < base + sr_window_size reg ->
  exists reg' sl, store reg seq (Some p) len sent offset flags = Ok (true, reg') /\
    wf_registry reg' /\ sr_window_size reg' = sr_window_size reg /\
    lookup reg' seq = Some sl /\ sl_seq_no sl = seq /\ sl_payload_len sl = len /\
    sl_offset sl = offset /\ sl_flags sl = flags /\ sl_send_time_ns sl = sent /\
    take (Z.to_nat len) (sl_payload sl) = take (Z.to_nat len) p /\
    forall t, base <= t < base + sr_window_size reg -> t <> seq -> lookup reg' t = lookup reg t.
Proof.
  intros W Hlen Hp Hwin.
  destruct (store_correct reg seq (Some p) len sent offset flags W Hlen) as
    (reg' & sl & E & W' & Hws & (old & Hold & ->) & Hlk); [by intros ? [= <-] |].
  exists reg', (stored_slot old seq (Some p) len sent offset flags).
  split_and!; try done; [rewrite Hlk; by rewrite Z.eqb_refl | |].
  - unfold stored_slot. cbn [sl_payload]. split_if.
    + rewrite splice_0, take_app_length'; [done |]. rewrite length_take. unfold lenZ in *. lia.
    + by replace (Z.to_nat len) with 0%nat by lia.
  - intros t Ht Hne. rewrite Hlk. destruct (Z.eqb_spec seq t); [done |].
    destruct (Z.eqb_spec (index_of reg seq) (index_of reg t)) as [Hi |]; [| done].
    exfalso. apply Hne. unfold index_of in Hi. pose proof (wr_ws _ W).
    pose proof (Z.div_mod seq (sr_window_size reg) ltac:(lia)).
    pose proof (Z.div_mod t (sr_window_size reg) ltac:(lia)).
    assert (seq / sr_window_size reg = t / sr_window_size reg) by nia. lia.
Qed.

Lemma store_keeps_window_witness :
  exists reg' sl, store (new_registry 1 4) 5 (Some [7; 8; 9]) 3 100 40 2 = Ok (true, reg') /\
    wf_registry reg' /\ sr_window_size reg' = 4 /\
    lookup reg' 5 = Some sl /\ sl_seq_no sl = 5 /\ sl_payload_len sl = 3 /\
    sl_offset sl = 40 /\ sl_flags sl = 2 /\ sl_send_time_ns sl = 100 /\
    take 3 (sl_payload sl) = [7; 8; 9] /\
    forall t, 2 <= t < 2 + 4 -> t <> 5 -> lookup reg' t = lookup (new_registry 1 4) t.
Proof.
  apply (store_keeps_window (new_registry 1 4) 2 5 [7; 8; 9] 3 100 40 2);
    [apply new_registry_wf | done | done | done].
Defined.

(** [apply_ack] does exactly what an ACK says, whatever the ACK holds: the base
    advances to the ACK's base clamped to what was sent and never retreats; the
    blocks below it and the blocks sent that the bitmask reports are freed, no
    other block is touched; the bytes returned are the payload bytes that left
    the registry; and [received_end] becomes one past the highest block shown as
    received. *)
Theorem apply_ack_exact reg ack base next re :
  wf_registry reg -> 0 <= base <= next -> next + 1024 < 2 ^ 64 -> wf_msg ack ->
  exists reg' re' confirmed,
    apply_ack reg ack base next re = Ok (reg', acked_base ack base next, re', confirmed) /\
    wf_registry reg' /\ confirmed + resident reg' = resident reg /\
    (forall q, acks ack base next q -> lookup reg' q = None) /\
    (forall q, ~ acks ack base next q -> lookup reg' q = lookup reg q) /\
    (re = None -> re' = None) /\
    (forall e, re = Some e -> exists e', re' = Some e' /\ e <= e' /\ acked_base ack base next <= e' /\
       (forall q, selects ack next q -> q < e') /\
       (e' = e \/ e' = acked_base ack base next \/ selects ack next (e' - 1))).
Proof.
  intros W Hbase Hnext Hack.
  destruct (apply_ack_correct reg ack base next re W Hbase Hnext Hack)
    as (reg' & re' & b & E & W' & _ & H). by exists reg', re', b.
Qed.

Lemma receiver_example_ack_wf : wf_msg (build_ack receiver_example).
Proof.
  eapply build_ack_wf; [apply receiver_example_inv | ..];
    unfold is_u16, is_u64; vm_compute; intuition congruence.
Qed.

Lemma apply_ack_exact_witness :
  exists reg' re' confirmed,
    apply_ack (new_registry 1 8) (build_ack receiver_example) 0 5 (Some 0) =
      Ok (reg', acked_base (build_ack receiver_example) 0 5, re', confirmed) /\
    wf_registry reg' /\ confirmed + resident reg' = resident (new_registry 1 8) /\
    (forall q, acks (build_ack receiver_example) 0 5 q -> lookup reg' q = None) /\
    (forall q, ~ acks (build_ack receiver_example) 0 5 q -> lookup reg' q = lookup (new_registry 1 8) q) /\
    (Some 0 = None -> re' = None) /\
    (forall e, Some 0 = Some e -> exists e', re' = Some e' /\ e <= e' /\
       acked_base (build_ack receiver_example) 0 5 <= e' /\
       (forall q, selects (build_ack receiver_example) 5 q -> q < e') /\
       (e' = e \/ e' = acked_base (build_ack receiver_example) 0 5 \/
        selects (build_ack receiver_example) 5 (e' - 1))).
Proof.
  apply (apply_ack_exact (new_registry 1 8) (build_ack receiver_example) 0 5 (Some 0));
    [apply new_registry_wf | lia | lia | apply receiver_example_ack_wf].
Defined.

(** The two ends agree: when the sender applies the ACK a receiver built, it
    frees exactly the blocks of its window the receiver has accepted and keeps
    every block the receiver is still missing, as long as the receiver has only
    accepted blocks that were sent. *)
Theorem ack_frees_exactly_received st acc reg base next re :
  rinv st acc -> is_u16 (rs_stream_id st) -> is_u64 (rs_last_send_time st) ->
  wf_registry reg -> 0 <= base <= next -> next + 1024 < 2 ^ 64 ->
  (forall s, s ∈ acc -> s < next) ->
  exists reg' base' re' confirmed,
    apply_ack reg (build_ack st) base next re = Ok (reg', base', re', confirmed) /\
    base' = Z.max base (rs_base_seq_no st) /\
    forall q, base <= q < next ->
      lookup reg' q = if decide (q ∈ acc) then None else lookup reg q.
Proof.
  intros [R Hmex] Hsid Hlast W Hbase Hnext Hsent.
  pose proof (rc_ring _ _ R) as Rr. pose proof (rr_base _ _ _ Rr).
  assert (rs_base_seq_no st <= next) as Hb.
  { destruct (Z.lt_ge_cases next (rs_base_seq_no st)) as [Hlt |]; [| lia].
    pose proof (Hsent _ (rr_below _ _ _ Rr next ltac:(lia))). lia. }
  assert (wf_msg (build_ack st)) as Hack by (eapply build_ack_wf; try done; unfold is_u64; lia).
  destruct (apply_ack_correct reg _ base next re W Hbase Hnext Hack)
    as (reg' & re' & b & E & _ & _ & _ & Hacked & Hkept & _).
  assert (acked_base (build_ack st) base next = Z.max base (rs_base_seq_no st)) as Hnb
    by (unfold acked_base; cbn [build_ack ack_base_seq_no]; lia).
  exists reg', (Z.max base (rs_base_seq_no st)), re', b. rewrite Hnb in *. split_and!; [done .. |].
  assert (forall q, base <= q < next -> acks (build_ack st) base next q <-> q ∈ acc) as Hiff.
  { intros q Hq. unfold acks, selects. rewrite Hnb. cbn [build_ack ack_base_seq_no]. split.
    - intros [Hlt | (_ & Hr & _ & Hbit)]; [apply (rr_below _ _ _ Rr); lia |].
      rewrite (build_ack_bit st acc) in Hbit by (done || lia). apply bool_decide_eq_true in Hbit.
      by replace (rs_base_seq_no st + (q - rs_base_seq_no st)) with q in Hbit by lia.
    - intros Hin. destruct (Z.lt_ge_cases q (Z.max base (rs_base_seq_no st))); [left; lia | right].
      pose proof (rr_range _ _ _ Rr _ Hin). split_and!; try lia.
      rewrite (build_ack_bit st acc) by (done || lia). apply bool_decide_eq_true.
      by replace (rs_base_seq_no st + (q - rs_base_seq_no st)) with q by lia. }
  intros q Hq. destruct (decide (q ∈ acc)) as [Hin | Hnin].
  - by apply Hacked, Hiff.
  - apply Hkept. by rewrite Hiff.
Qed.

Lemma ack_frees_exactly_received_witness :
  exists reg' base' re' confirmed,
    apply_ack (new_registry 1 8) (build_ack receiver_example) 0 5 (Some 0) =
      Ok (reg', base', re', confirmed) /\
    base' = Z.max 0 (rs_base_seq_no receiver_example) /\
    forall q, 0 <= q < 5 ->
      lookup reg' q = if decide (q ∈ ({[3]} : gset Z)) then None else lookup (new_registry 1 8) q.
Proof.
  apply (ack_frees_exactly_received receiver_example {[3]} (new_registry 1 8) 0 5 (Some 0));
    [apply receiver_example_inv | | | apply new_registry_wf | lia | lia |
     intros s ->%elem_of_singleton; lia];
    unfold is_u16, is_u64; vm_compute; intuition congruence.
Defined.
