(* ===== verification/Setup.v ===== *)
(** * The SETUP handshake

    Models include/fuse/proto/setup.hpp and src/proto/setup.cpp: the negotiated
    configuration with its serialisation, and the two state machines of the
    three-way DATA, HASH-REPLY, FINACK exchange.  [secure_random_u64] is not
    part of these files: the value it returns is an argument of the responder's
    handler. *)

From S2P Require Import Prelude Wire Control Block Hash.

Definition kStreamFlagLossless : Z := 1.
Definition kStreamFlagOrdered : Z := 2.
Definition kStreamFlagCoalesce : Z := 4.
Definition kMaxStreams : Z := 64.

Record StreamConfig := mkStreamConfig {
  sg_stream_id : Z;
  sg_worker_id : Z;
  sg_stream_flags : Z;
  sg_block_size : Z;
  sg_window_size : Z;
}.

Definition default_stream_config : StreamConfig := mkStreamConfig 0 0 0 0 0.

Definition stream_config_eqb (s o : StreamConfig) : bool :=
  (sg_stream_id s =? sg_stream_id o) && (sg_worker_id s =? sg_worker_id o) &&
  (sg_stream_flags s =? sg_stream_flags o) && (sg_block_size s =? sg_block_size o) &&
  (sg_window_size s =? sg_window_size o).

Record SetupPayload := mkSetupPayload {
  sp_protocol_version : Z;
  sp_num_workers : Z;
  sp_num_streams : Z;
  sp_streams : list StreamConfig;
  sp_ext_len : Z;
  sp_ext : bytes;
}.

Definition default_setup_payload : SetupPayload :=
  mkSetupPayload kProtocolVersion 0 0 (replicate (Z.to_nat kMaxStreams) default_stream_config) 0
    (replicate (Z.to_nat kMaxExtensionBytes) 0).

Definition stream_at (p : SetupPayload) (i : Z) : StreamConfig :=
  nth (Z.to_nat i) (sp_streams p) default_stream_config.

Definition setup_payload_eqb (p o : SetupPayload) : bool :=
  if negb (sp_protocol_version p =? sp_protocol_version o) ||
     negb (sp_num_workers p =? sp_num_workers o) || negb (sp_num_streams p =? sp_num_streams o)
  then false
  else if negb (forallb (fun i => stream_config_eqb (stream_at p i) (stream_at o i))
                  (seqZ 0 (sp_num_streams p))) then false
  else if negb (sp_ext_len p =? sp_ext_len o) then false
  else forallb (fun i => getZ (sp_ext p) i =? getZ (sp_ext o) i) (seqZ 0 (sp_ext_len p)).

Definition kMaxSetupDatagramSize : Z :=
  kOuterHeaderSize + 1 + 2 + 2 + kMaxStreams * 9 + 2 + kMaxExtensionBytes.

(** The checks of one stream: its ranges and its id against those before it. *)
Definition stream_valid (p : SetupPayload) (i : Z) : bool :=
  let s := stream_at p i in
  negb ((sg_block_size s =? 0) || (kMaxPayloadSize <? sg_block_size s) ||
        (sg_window_size s =? 0) || (kMaxWindow <? sg_window_size s)) &&
  forallb (fun j => negb (sg_stream_id (stream_at p j) =? sg_stream_id s)) (seqZ 0 i).

Definition setup_payload_valid (p : SetupPayload) : bool :=
  if negb (sp_protocol_version p =? kProtocolVersion) || (kMaxStreams <? sp_num_streams p)
  then false
  else forallb (stream_valid p) (seqZ 0 (sp_num_streams p)).

Definition put_stream (s : StreamConfig) : wr :=
  put_u16 (sg_stream_id s) ;;; put_u16 (sg_worker_id s) ;;; put_u8 (sg_stream_flags s) ;;;
  put_u16 (sg_block_size s) ;;; put_u16 (sg_window_size s).

Definition get_stream : rd StreamConfig :=
  sid <~ get_u16 ;; wid <~ get_u16 ;; flags <~ get_u8 ;; bsize <~ get_u16 ;; wsize <~ get_u16 ;;
  rd_ret (mkStreamConfig sid wid flags bsize wsize).

Definition serialize_setup_payload (p : SetupPayload) (out : bytes) : res (bytes * Z) :=
  if (kMaxStreams <? sp_num_streams p) || (kMaxExtensionBytes <? sp_ext_len p) then Ok (out, 0)
  else
    let total := 1 + 2 + 2 + sp_num_streams p * 9 + 2 + sp_ext_len p in
    if lenZ out <? total then Ok (out, 0)
    else
      run_wr (put_u8 (sp_protocol_version p) ;;;
              put_u16 (sp_num_workers p) ;;;
              put_u16 (sp_num_streams p) ;;;
              put_array put_stream (take (Z.to_nat (sp_num_streams p)) (sp_streams p)) ;;;
              put_u16 (sp_ext_len p) ;;;
              put_bytes (take (Z.to_nat (sp_ext_len p)) (sp_ext p))) out.

Definition encode_setup_data (p : SetupPayload) (out : bytes) : res (bytes * Z) :=
  if lenZ out <? kOuterHeaderSize then Ok (out, 0)
  else
    res_bind (run_wr (put_u8 kProtocolVersion ;;; put_u8 (MsgType.code MsgType.SetupData)) out)
      (fun '(out, off) =>
        res_bind (serialize_setup_payload p (drop (Z.to_nat off) out)) (fun '(rest, body) =>
          let out := take (Z.to_nat off) out ++ rest in
          if (body =? 0) && negb (sp_num_streams p =? 0) then Ok (out, 0)
          else if body =? 0 then Ok (out, 0)
          else Ok (out, off + body))).

(** The decoded configuration and the body it was read from. *)
Definition decode_setup_data (inp : bytes) (p0 : SetupPayload) : res (SetupPayload * bytes) :=
  if lenZ inp <? kOuterHeaderSize + 1 + 2 + 2 then Reject
  else
    match nthZ inp 0, nthZ inp 1 with
    | Some v, Some t =>
        if negb (v =? kProtocolVersion) || negb (t =? MsgType.code MsgType.SetupData) then Reject
        else
          let body := drop (Z.to_nat kOuterHeaderSize) inp in
          let body_len := lenZ inp - kOuterHeaderSize in
          res_bind ((ver <~ get_u8 ;; workers <~ get_u16 ;; streams <~ get_u16 ;;
                     rd_ret (ver, workers, streams)) body) (fun '((ver, workers, n), rest) =>
          if kMaxStreams <? n then Reject
          else
            let fixed := 1 + 2 + 2 + n * 9 in
            if body_len <? fixed + 2 then Reject
            else
              res_bind ((ss <~ get_array get_stream (Z.to_nat n) ;; el <~ get_u16 ;; rd_ret (ss, el)) rest)
                (fun '((ss, el), tail) =>
                if (kMaxExtensionBytes <? el) || negb (body_len =? fixed + 2 + el) then Reject
                else
                  res_bind (res_bind (get_bytes el tail) (fun '(area, _) => extensions_acceptable area))
                    (fun acceptable =>
                    if negb acceptable then Reject
                    else
                      res_bind (get_bytes el tail) (fun '(ext, _) =>
                      Ok (mkSetupPayload ver workers n (ss ++ drop (Z.to_nat n) (sp_streams p0)) el
                            (ext ++ drop (Z.to_nat el) (sp_ext p0)), body)))))
    | _, _ => Fault
    end.

Definition encode_setup_hash (type : MsgType.MsgType) (hash responder_nonce : Z) (out : bytes)
  : res (bytes * Z) :=
  if negb (MsgType.code type =? MsgType.code MsgType.SetupHashReply) &&
     negb (MsgType.code type =? MsgType.code MsgType.SetupFinAck) then Ok (out, 0)
  else
    let total := kOuterHeaderSize + 8 + 8 in
    if lenZ out <? total then Ok (out, 0)
    else
      run_wr (put_u8 kProtocolVersion ;;; put_u8 (MsgType.code type) ;;;
              put_u64 hash ;;; put_u64 responder_nonce) out.

Definition decode_setup_hash (expected : MsgType.MsgType) (inp : bytes) : res (Z * Z) :=
  if negb (lenZ inp =? kOuterHeaderSize + 8 + 8) then Reject
  else
    match nthZ inp 0, nthZ inp 1 with
    | Some v, Some t =>
        if negb (v =? kProtocolVersion) || negb (t =? MsgType.code expected) then Reject
        else run_rd (h <~ get_u64 ;; n <~ get_u64 ;; rd_ret (h, n)) (drop (Z.to_nat kOuterHeaderSize) inp)
    | _, _ => Fault
    end.

(** ** The state machines *)

Definition kDefaultSetupTimeoutNs : Z := 50000000.
Definition kDefaultSetupMaxRetries : Z := 5.

Record SetupInitiator := mkSetupInitiator {
  si_payload : SetupPayload;
  si_my_hash : Z;
  si_responder_nonce : Z;
  si_timeout_ns : Z;
  si_max_retries : Z;
  si_last_send_ns : Z;
  si_retries : Z;
  si_data_sent : bool;
  si_matched : bool;
  si_failed : bool;
}.

(** The constructor; the buffer's initial bytes are never hashed. *)
Definition new_initiator (payload : SetupPayload) (timeout_ns max_retries : Z) : res SetupInitiator :=
  res_bind (serialize_setup_payload payload (replicate (Z.to_nat kMaxSetupDatagramSize) 0))
    (fun '(body, n) =>
      Ok (mkSetupInitiator payload (hash64 (take (Z.to_nat n) body)) 0 timeout_ns max_retries 0 0
            false false false)).

(** Each handler returns the new state, the output buffer and the length of the
    datagram in it. *)
Definition initiator_start (st : SetupInitiator) (out : bytes) (now_ns : Z)
  : res (SetupInitiator * bytes * Z) :=
  res_bind (encode_setup_data (si_payload st) out) (fun '(out, n) =>
  if n =? 0 then
    Ok (mkSetupInitiator (si_payload st) (si_my_hash st) (si_responder_nonce st) (si_timeout_ns st)
          (si_max_retries st) (si_last_send_ns st) (si_retries st) (si_data_sent st)
          (si_matched st) true, out, 0)
  else
    Ok (mkSetupInitiator (si_payload st) (si_my_hash st) (si_responder_nonce st) (si_timeout_ns st)
          (si_max_retries st) now_ns (si_retries st) true (si_matched st) (si_failed st), out, n)).

Definition initiator_on_datagram (st : SetupInitiator) (inp out : bytes) (now_ns : Z)
  : res (SetupInitiator * bytes * Z) :=
  match peek_msg_type inp with
  | Fault => Fault
  | Reject => Ok (st, out, 0)
  | Ok type =>
      if negb (type =? MsgType.code MsgType.SetupHashReply) then Ok (st, out, 0)
      else
        match decode_setup_hash MsgType.SetupHashReply inp with
        | Fault => Fault
        | Reject => Ok (st, out, 0)
        | Ok (their_hash, their_nonce) =>
            if negb (their_hash =? si_my_hash st) then Ok (st, out, 0)
            else
              let st := mkSetupInitiator (si_payload st) (si_my_hash st) their_nonce
                          (si_timeout_ns st) (si_max_retries st) now_ns (si_retries st)
                          (si_data_sent st) true (si_failed st) in
              res_bind (encode_setup_hash MsgType.SetupFinAck (si_my_hash st)
                          (si_responder_nonce st) out)
                (fun '(out, n) => Ok (st, out, n))
        end
  end.

Definition initiator_on_timeout (st : SetupInitiator) (out : bytes) (now_ns : Z)
  : res (SetupInitiator * bytes * Z) :=
  if si_matched st || si_failed st || negb (si_data_sent st) then Ok (st, out, 0)
  else if u64 (now_ns - si_last_send_ns st) <? si_timeout_ns st then Ok (st, out, 0)
  else if si_max_retries st <=? si_retries st then
    Ok (mkSetupInitiator (si_payload st) (si_my_hash st) (si_responder_nonce st) (si_timeout_ns st)
          (si_max_retries st) (si_last_send_ns st) (si_retries st) (si_data_sent st)
          (si_matched st) true, out, 0)
  else
    let st := mkSetupInitiator (si_payload st) (si_my_hash st) (si_responder_nonce st)
                (si_timeout_ns st) (si_max_retries st) now_ns (u8 (si_retries st + 1))
                (si_data_sent st) (si_matched st) (si_failed st) in
    res_bind (encode_setup_data (si_payload st) out) (fun '(out, n) => Ok (st, out, n)).

Record SetupResponder := mkSetupResponder {
  sr_config : SetupPayload;
  sr_my_hash : Z;
  sr_nonce : Z;
  sr_timeout_ns : Z;
  sr_max_retries : Z;
  sr_last_send_ns : Z;
  sr_retries : Z;
  sr_has_config : bool;
  sr_reply_sent : bool;
  sr_complete : bool;
  sr_failed : bool;
}.

Definition new_responder (timeout_ns max_retries : Z) : SetupResponder :=
  mkSetupResponder default_setup_payload 0 0 timeout_ns max_retries 0 0 false false false false.

(** [rnd] is what [secure_random_u64] returns if it is called. *)
Definition responder_on_datagram (st : SetupResponder) (inp out : bytes) (now_ns rnd : Z)
  : res (SetupResponder * bytes * Z) :=
  match peek_msg_type inp with
  | Fault => Fault
  | Reject => Ok (st, out, 0)
  | Ok type =>
      if type =? MsgType.code MsgType.SetupData then
        if sr_complete st then Ok (st, out, 0)
        else
          match decode_setup_data inp default_setup_payload with
          | Fault => Fault
          | Reject => Ok (st, out, 0)
          | Ok (decoded, body) =>
              if negb (setup_payload_valid decoded) then Ok (st, out, 0)
              else
                let h := hash64 body in
                let nonce := if negb (sr_reply_sent st) || negb (h =? sr_my_hash st)
                             then rnd else sr_nonce st in
                let st := mkSetupResponder decoded h nonce (sr_timeout_ns st) (sr_max_retries st)
                            now_ns (sr_retries st) true true (sr_complete st) (sr_failed st) in
                res_bind (encode_setup_hash MsgType.SetupHashReply (sr_my_hash st) (sr_nonce st) out)
                  (fun '(out, n) => Ok (st, out, n))
          end
      else if type =? MsgType.code MsgType.SetupFinAck then
        match decode_setup_hash MsgType.SetupFinAck inp with
        | Fault => Fault
        | Reject => Ok (st, out, 0)
        | Ok (their_hash, their_nonce) =>
            if sr_reply_sent st && (their_hash =? sr_my_hash st) && (their_nonce =? sr_nonce st)
            then Ok (mkSetupResponder (sr_config st) (sr_my_hash st) (sr_nonce st)
                       (sr_timeout_ns st) (sr_max_retries st) (sr_last_send_ns st) (sr_retries st)
                       (sr_has_config st) (sr_reply_sent st) true (sr_failed st), out, 0)
            else Ok (st, out, 0)
        end
      else Ok (st, out, 0)
  end.

Definition responder_on_timeout (st : SetupResponder) (out : bytes) (now_ns : Z)
  : res (SetupResponder * bytes * Z) :=
  if sr_complete st || sr_failed st || negb (sr_reply_sent st) then Ok (st, out, 0)
  else if u64 (now_ns - sr_last_send_ns st) <? sr_timeout_ns st then Ok (st, out, 0)
  else if sr_max_retries st <=? sr_retries st then
    Ok (mkSetupResponder (sr_config st) (sr_my_hash st) (sr_nonce st) (sr_timeout_ns st)
          (sr_max_retries st) (sr_last_send_ns st) (sr_retries st) (sr_has_config st)
          (sr_reply_sent st) (sr_complete st) true, out, 0)
  else
    let st := mkSetupResponder (sr_config st) (sr_my_hash st) (sr_nonce st) (sr_timeout_ns st)
                (sr_max_retries st) now_ns (u8 (sr_retries st + 1)) (sr_has_config st)
                (sr_reply_sent st) (sr_complete st) (sr_failed st) in
    res_bind (encode_setup_hash MsgType.SetupHashReply (sr_my_hash st) (sr_nonce st) out)
      (fun '(out, n) => Ok (st, out, n)).

(** ** Wire layouts *)

Definition stream_wire (s : StreamConfig) : bytes :=
  be 2 (sg_stream_id s) ++ be 2 (sg_worker_id s) ++ [u8 (sg_stream_flags s)] ++
  be 2 (sg_block_size s) ++ be 2 (sg_window_size s).

Definition setup_body (p : SetupPayload) : bytes :=
  [u8 (sp_protocol_version p)] ++ be 2 (sp_num_workers p) ++ be 2 (sp_num_streams p) ++
  mjoin (stream_wire <$> take (Z.to_nat (sp_num_streams p)) (sp_streams p)) ++
  be 2 (sp_ext_len p) ++ take (Z.to_nat (sp_ext_len p)) (sp_ext p).

Definition setup_wire (p : SetupPayload) : bytes := outer MsgType.SetupData ++ setup_body p.

Definition setup_hash_wire (t : MsgType.MsgType) (h n : Z) : bytes := outer t ++ be 8 h ++ be 8 n.

Definition is_stream (s : StreamConfig) : Prop :=
  is_u16 (sg_stream_id s) /\ is_u16 (sg_worker_id s) /\ is_u8 (sg_stream_flags s) /\
  is_u16 (sg_block_size s) /\ is_u16 (sg_window_size s).

(** A payload whose arrays are filled up to their counts and default beyond. *)
Record wf_setup (p : SetupPayload) : Prop := {
  ws_version : is_u8 (sp_protocol_version p);
  ws_workers : is_u16 (sp_num_workers p);
  ws_count : 0 <= sp_num_streams p <= kMaxStreams;
  ws_len : lenZ (sp_streams p) = kMaxStreams;
  ws_streams : Forall is_stream (sp_streams p);
  ws_rest : drop (Z.to_nat (sp_num_streams p)) (sp_streams p) =
            drop (Z.to_nat (sp_num_streams p)) (sp_streams default_setup_payload);
  ws_ext : 0 <= sp_ext_len p <= kMaxExtensionBytes;
  ws_ext_len : lenZ (sp_ext p) = kMaxExtensionBytes;
  ws_area : exists es, take (Z.to_nat (sp_ext_len p)) (sp_ext p) = ext_area es /\ Forall skippable es;
  ws_ext_rest : drop (Z.to_nat (sp_ext_len p)) (sp_ext p) =
                drop (Z.to_nat (sp_ext_len p)) (sp_ext default_setup_payload);
}.

(** ** Serialisation lemmas *)

Lemma writes_stream s : writes (put_stream s) (stream_wire s).
Proof. unfold put_stream, stream_wire. solve_writes. Qed.
#[export] Hint Resolve writes_stream : codec.

Lemma reads_stream : reads get_stream 9.
Proof.
  replace 9 with (2 + (2 + (1 + (2 + (2 + 0))))) by lia. unfold get_stream.
  repeat (apply reads_bind; [lia .. | auto with codec | intros]). auto with codec.
Qed.
#[export] Hint Resolve reads_stream : codec.

Lemma get_stream_each ss : Forall is_stream ss ->
  forall s rest, s ∈ ss -> get_stream (stream_wire s ++ rest) = Ok (s, rest).
Proof.
  rewrite list.Forall_forall. intros Hss s rest Hs. destruct (Hss s Hs) as (H1 & H2 & H3 & H4 & H5).
  unfold get_stream, stream_wire. read_fields. by destruct s.
Qed.

Lemma get_stream_inv rest s rest' :
  Forall is_u8 rest -> get_stream rest = Ok (s, rest') ->
  rest = stream_wire s ++ rest' /\ is_stream s /\ Forall is_u8 rest'.
Proof.
  intros Hb H. unfold get_stream in H. inv_fields. unfold stream_wire, is_stream. cbn.
  by rewrite <- !app_assoc.
Qed.

Lemma lenZ_stream_wire s : lenZ (stream_wire s) = 9.
Proof. done. Qed.

Lemma lenZ_setup_body p :
  wf_setup p -> lenZ (setup_body p) = 1 + 2 + 2 + sp_num_streams p * 9 + 2 + sp_ext_len p.
Proof.
  intros W. unfold setup_body. autorewrite with len.
  rewrite (lenZ_array stream_wire _ 9) by (intros; apply lenZ_stream_wire).
  pose proof (ws_count _ W). pose proof (ws_len _ W). pose proof (ws_ext _ W). pose proof (ws_ext_len _ W).
  rewrite !lenZ_take by lia. lia.
Qed.

Lemma serialize_writes p out :
  wf_setup p ->
  serialize_setup_payload p out =
  if lenZ out <? lenZ (setup_body p) then Ok (out, 0)
  else Ok (setup_body p ++ drop (length (setup_body p)) out, lenZ (setup_body p)).
Proof.
  intros W. pose proof (ws_count _ W). pose proof (ws_ext _ W). unfold serialize_setup_payload.
  rewrite lenZ_setup_body by done. split_if; [lia |]. split_if; [done |].
  rewrite <- lenZ_setup_body by done.
  apply run_wr_writes; [unfold setup_body; solve_writes | rewrite lenZ_setup_body by done; lia].
Qed.

Lemma setup_body_pos p : wf_setup p -> 7 <= lenZ (setup_body p).
Proof. intros W. rewrite lenZ_setup_body by done. pose proof (ws_count _ W). pose proof (ws_ext _ W). lia. Qed.

Lemma lenZ_setup_wire p : lenZ (setup_wire p) = 2 + lenZ (setup_body p).
Proof. unfold setup_wire. by rewrite lenZ_app. Qed.

(** The encoder writes the layout, or reports 0 (having written at most the outer
    header) when it does not fit. *)
Lemma encode_setup_data_writes p out :
  wf_setup p ->
  exists buf n, encode_setup_data p out = Ok (buf, n) /\ lenZ buf = lenZ out /\
    if lenZ out <? lenZ (setup_wire p) then n = 0
    else n = lenZ (setup_wire p) /\ buf = setup_wire p ++ drop (length (setup_wire p)) out.
Proof.
  intros W. pose proof (setup_body_pos p W). unfold encode_setup_data. rewrite lenZ_setup_wire.
  unfold kOuterHeaderSize. split_if; [exists out, 0; split_and!; [done .. |]; by split_if; [| lia] |].
  assert (writes (put_u8 kProtocolVersion;;; put_u8 (MsgType.code MsgType.SetupData))
            (outer MsgType.SetupData)) as Hw by apply writes_outer.
  rewrite (run_wr_writes _ _ _ Hw) by (rewrite lenZ_outer; lia). cbn [res_bind].
  rewrite drop_pre_0, take_all_lenZ, serialize_writes by done.
  assert (lenZ (drop (length (outer MsgType.SetupData)) out) = lenZ out - 2) as Hlen.
  { change (length (outer MsgType.SetupData)) with 2%nat. unfold lenZ in *. rewrite length_drop. lia. }
  rewrite Hlen. destruct (Z.ltb_spec (lenZ out - 2) (lenZ (setup_body p))); cbn [res_bind].
  - rewrite Z.eqb_refl. eexists _, 0. split; [by destruct (negb _) |].
    rewrite lenZ_app, Hlen, lenZ_outer. split; [lia |]. by split_if; [| lia].
  - destruct (Z.eqb_spec (lenZ (setup_body p)) 0); [lia |]. cbn [andb].
    eexists _, _. split; [done |]. rewrite !lenZ_app, lenZ_outer.
    change (length (outer MsgType.SetupData)) with 2%nat in *.
    split; [rewrite drop_drop; unfold lenZ in *; rewrite length_drop; lia |].
    split_if; [lia |]. split; [lia |]. unfold setup_wire. rewrite <- app_assoc, drop_drop.
    by rewrite length_app.
Qed.

(** The decoders' own test of the outer header is [check_outer]. *)
Lemma outer_guard {A} inp t (k : res A) :
  kOuterHeaderSize <= lenZ inp ->
  match nthZ inp 0, nthZ inp 1 with
  | Some v, Some t' => if negb (v =? kProtocolVersion) || negb (t' =? MsgType.code t) then Reject else k
  | _, _ => Fault
  end = res_bind (check_outer inp t) (fun _ => k).
Proof.
  intros Hlen. unfold check_outer. split_if; [lia |].
  destruct (nthZ inp 0), (nthZ inp 1); try done. by destruct (_ =? kProtocolVersion), (_ =? MsgType.code t).
Qed.

Definition setup_prefix (p : SetupPayload) : bytes :=
  [u8 (sp_protocol_version p)] ++ be 2 (sp_num_workers p) ++ be 2 (sp_num_streams p).
Definition setup_table (p : SetupPayload) : bytes :=
  mjoin (stream_wire <$> take (Z.to_nat (sp_num_streams p)) (sp_streams p)) ++ be 2 (sp_ext_len p).

Lemma setup_body_eq p :
  setup_body p = setup_prefix p ++ setup_table p ++ take (Z.to_nat (sp_ext_len p)) (sp_ext p).
Proof. unfold setup_body, setup_prefix, setup_table. by rewrite <- !app_assoc. Qed.

Lemma setup_prefix_read p rest :
  wf_setup p ->
  (ver <~ get_u8 ;; workers <~ get_u16 ;; streams <~ get_u16 ;; rd_ret (ver, workers, streams))
    (setup_prefix p ++ rest) = Ok ((sp_protocol_version p, sp_num_workers p, sp_num_streams p), rest).
Proof.
  intros W. destruct W. assert (is_u16 (sp_num_streams p)) by (unfold is_u16, kMaxStreams in *; lia).
  unfold setup_prefix. by read_fields.
Qed.

Lemma setup_table_read p rest :
  wf_setup p ->
  (ss <~ get_array get_stream (Z.to_nat (sp_num_streams p)) ;; el <~ get_u16 ;; rd_ret (ss, el))
    (setup_table p ++ rest) =
  Ok ((take (Z.to_nat (sp_num_streams p)) (sp_streams p), sp_ext_len p), rest).
Proof.
  intros W. destruct W. assert (is_u16 (sp_ext_len p)) by (unfold is_u16, kMaxExtensionBytes in *; lia).
  unfold setup_table. rewrite <- app_assoc, (bind_array get_stream stream_wire).
  - by read_fields.
  - rewrite length_take. unfold lenZ in *. lia.
  - apply get_stream_each. by apply Forall_take.
Qed.

Lemma decode_setup_wire p :
  wf_setup p -> decode_setup_data (setup_wire p) default_setup_payload = Ok (p, setup_body p).
Proof.
  intros W. pose proof (setup_body_pos p W). pose proof (lenZ_setup_body p W) as Hlen.
  pose proof (setup_prefix_read p) as Hp. pose proof (setup_table_read p) as Ht.
  unfold decode_setup_data. rewrite lenZ_setup_wire. unfold kOuterHeaderSize at 1.
  split_if; [lia |]. rewrite outer_guard by (rewrite lenZ_setup_wire; unfold kOuterHeaderSize; lia).
  unfold setup_wire at 1. rewrite check_outer_wire. cbn [res_bind].
  change (drop (Z.to_nat kOuterHeaderSize) (setup_wire p)) with (setup_body p).
  rewrite setup_body_eq at 1. rewrite Hp by done. cbn [res_bind]. destruct W.
  split_if; [lia |]. split_if; [unfold kOuterHeaderSize in *; lia |].
  rewrite Ht by done. cbn [res_bind].
  split_if; [unfold kOuterHeaderSize in *; lia |].
  pose proof (get_bytes_app (take (Z.to_nat (sp_ext_len p)) (sp_ext p)) [] (sp_ext_len p)) as Hg.
  rewrite app_nil_r in Hg. rewrite Hg by (rewrite lenZ_take; lia). cbn [res_bind].
  destruct ws_area0 as (es & Hes & Hskip). rewrite Hes, extensions_acceptable_area by done.
  cbn [res_bind negb]. rewrite <- Hes, <- ws_rest0, <- ws_ext_rest0, !take_drop. by destruct p.
Qed.

Lemma default_streams_array :
  lenZ (sp_streams default_setup_payload) = kMaxStreams /\
  Forall is_stream (sp_streams default_setup_payload).
Proof. split; [done |]. by apply Forall_replicate. Qed.

Lemma default_setup_ext_array :
  lenZ (sp_ext default_setup_payload) = kMaxExtensionBytes /\ Forall is_u8 (sp_ext default_setup_payload).
Proof. split; [done |]. by apply Forall_replicate. Qed.

Lemma decode_setup_sound inp p body :
  Forall is_u8 inp -> decode_setup_data inp default_setup_payload = Ok (p, body) ->
  wf_setup p /\ inp = setup_wire p /\ body = setup_body p.
Proof.
  intros Hb H. unfold decode_setup_data in H. split_if_in H; [done |].
  rewrite outer_guard in H by (unfold kOuterHeaderSize in *; lia).
  apply res_bind_inv in H as (rest & E & H). apply check_outer_sound in E as [-> Hr]; [| done].
  change (drop (Z.to_nat kOuterHeaderSize) (outer MsgType.SetupData ++ rest)) with rest in H.
  rewrite lenZ_app, lenZ_outer in H. unfold kOuterHeaderSize in H.
  replace (2 + lenZ rest - 2) with (lenZ rest) in H by lia.
  apply res_bind_inv in H as ([[[ver workers] n] rest1] & E1 & H).
  split_if_in H; [done |]. split_if_in H; [done |].
  apply res_bind_inv in H as ([[ss el] tail] & E2 & H). split_if_in H; [done |].
  apply res_bind_inv in H as (acceptable & Ea & H). split_if_in H; [done |]. subst acceptable.
  apply res_bind_inv in H as ([ext tail'] & E3 & H). rewrite E3 in Ea. cbn [res_bind] in Ea.
  apply Ok_inj, pair_equal_spec in H as [Hp Hbody]. subst p body.
  assert (0 <= el) as Hel by (inv_fields; unfold is_u16 in *; lia).
  clear Hif Hb. inv_fields.
  rename select (get_array _ _ _ = _) into Earr.
  apply (get_array_inv _ _ _ _ _ _ _ get_stream_inv) in Earr as (-> & Hlen & HF & Ht); [| done].
  inv_fields.
  assert (tail' = []) as Htail.
  { rename select (lenZ ([u8 ver] ++ _) = _) into Hl. autorewrite with len in Hl.
    rewrite (lenZ_array stream_wire ss 9) in Hl by (intros; apply lenZ_stream_wire).
    destruct tail' as [| x tl]; [done |]. rewrite lenZ_cons in Hl. pose proof (lenZ_nonneg tl).
    unfold is_u16 in *. lia. }
  pose proof default_streams_array as [D1 D2]. pose proof default_setup_ext_array as [D3 D4].
  destruct (filled_array is_stream ss (sp_streams default_setup_payload) n) as (F1 & F2 & F3 & F4);
    [unfold is_u16 in *; lia | lia | done | done |].
  destruct (filled_array is_u8 ext (sp_ext default_setup_payload) (lenZ ext)) as (G1 & G2 & G3 & G4);
    [done | lia | done | done |].
  destruct (extensions_acceptable_correct ext) as (b & Eb & Hgr); [done |]. rewrite Ea in Eb.
  injection Eb as <-. unfold setup_wire, setup_body.
  cbn [sp_protocol_version sp_num_workers sp_num_streams sp_streams sp_ext_len sp_ext].
  rewrite F3, G3. split_and!.
  - split; cbn [sp_protocol_version sp_num_workers sp_num_streams sp_streams sp_ext_len sp_ext];
      rewrite ?F3, ?G3; try done; try (unfold is_u16 in *; lia). by apply Hgr.
  - by rewrite Htail, !app_nil_r.
  - by rewrite Htail, !app_nil_r.
Qed.

Lemma decode_setup_no_fault inp :
  Forall is_u8 inp -> decode_setup_data inp default_setup_payload <> Fault.
Proof.
  intros Hb. unfold decode_setup_data. split_if; [done |].
  rewrite outer_guard by (unfold kOuterHeaderSize in *; lia).
  destruct (check_outer inp MsgType.SetupData) as [| | rest] eqn:E;
    [by apply check_outer_no_fault in E | done |].
  apply check_outer_sound in E as [-> Hr]; [| done]. cbn [res_bind].
  change (drop (Z.to_nat kOuterHeaderSize) (outer MsgType.SetupData ++ rest)) with rest.
  rewrite lenZ_app, lenZ_outer in *. unfold kOuterHeaderSize in *.
  replace (2 + lenZ rest - 2) with (lenZ rest) by lia.
  assert (reads (ver <~ get_u8 ;; workers <~ get_u16 ;; streams <~ get_u16 ;;
                 rd_ret (ver, workers, streams)) 5) as R1.
  { replace 5 with (1 + (2 + (2 + 0))) by lia.
    repeat (apply reads_bind; [lia .. | auto with codec | intros]). auto with codec. }
  specialize (R1 rest ltac:(lia)). destruct (rd_bind _ _ rest) as [| | [[[ver workers] n] r1]] eqn:E1; [done .. |].
  cbn [res_bind]. destruct R1 as [_ R1]. split_if; [done |]. split_if; [done |].
  assert (0 <= n /\ Forall is_u8 r1) as [Hn Hr1] by (inv_fields; unfold is_u16 in *; split; [lia | done]).
  assert (reads (ss <~ get_array get_stream (Z.to_nat n) ;; el <~ get_u16 ;; rd_ret (ss, el)) (n * 9 + 2)) as R2.
  { apply reads_bind; [lia | lia | |].
    - replace (n * 9) with (Z.of_nat (Z.to_nat n) * 9) by lia. apply reads_array; [lia | auto with codec].
    - intros. replace 2 with (2 + 0) by lia. apply reads_bind; [lia .. | auto with codec | intros; auto with codec]. }
  specialize (R2 r1 ltac:(lia)). destruct (rd_bind _ _ r1) as [| | [[ss el] tail]] eqn:E2; [done .. |].
  cbn [res_bind]. destruct R2 as [_ R2]. split_if; [done |].
  assert (0 <= el /\ Forall is_u8 tail) as [Hel Ht].
  { inv_fields. rename select (get_array _ _ _ = _) into Earr.
    apply (get_array_inv _ _ _ _ _ _ _ get_stream_inv) in Earr as (-> & _ & _ & ?); [| done].
    inv_fields. unfold is_u16 in *. split; [lia | done]. }
  unfold get_bytes. split_if; [lia |]. cbn [res_bind].
  destruct (extensions_acceptable_correct (take (Z.to_nat el) tail)) as (b & -> & _); [by apply Forall_take |].
  cbn [res_bind]. by destruct b.
Qed.

(** ** The hash messages *)

Definition is_hash_type (t : MsgType.MsgType) : Prop := t = MsgType.SetupHashReply \/ t = MsgType.SetupFinAck.

Lemma encode_setup_hash_writes t h n out :
  is_hash_type t ->
  encode_setup_hash t h n out =
  if lenZ out <? 18 then Ok (out, 0) else Ok (setup_hash_wire t h n ++ drop 18 out, 18).
Proof.
  intros Ht. unfold encode_setup_hash.
  assert (negb (MsgType.code t =? MsgType.code MsgType.SetupHashReply) &&
          negb (MsgType.code t =? MsgType.code MsgType.SetupFinAck) = false) as -> by (by destruct Ht as [-> | ->]).
  change (kOuterHeaderSize + 8 + 8) with 18. split_if; [done |].
  apply (run_wr_writes _ (setup_hash_wire t h n)); [| done].
  unfold setup_hash_wire, outer.
  change ([u8 kProtocolVersion; u8 (MsgType.code t)] ++ ?x)
    with ([u8 kProtocolVersion] ++ [u8 (MsgType.code t)] ++ x). solve_writes.
Qed.

Lemma decode_setup_hash_wire t h n :
  is_u64 h -> is_u64 n -> decode_setup_hash t (setup_hash_wire t h n) = Ok (h, n).
Proof.
  intros Hh Hn. unfold decode_setup_hash. change (lenZ (setup_hash_wire t h n)) with 18.
  change (kOuterHeaderSize + 8 + 8) with 18. cbn [Z.eqb negb].
  rewrite outer_guard by done. unfold setup_hash_wire at 1. rewrite check_outer_wire. cbn [res_bind].
  change (drop (Z.to_nat kOuterHeaderSize) (setup_hash_wire t h n)) with (be 8 h ++ be 8 n).
  rewrite <- (app_nil_r (be 8 n)). eapply run_rd_ok. by read_fields.
Qed.

Lemma decode_setup_hash_sound t inp h n :
  Forall is_u8 inp -> decode_setup_hash t inp = Ok (h, n) ->
  inp = setup_hash_wire t h n /\ is_u64 h /\ is_u64 n.
Proof.
  intros Hb H. unfold decode_setup_hash in H. split_if_in H; [done |].
  rewrite outer_guard in H by (unfold kOuterHeaderSize in *; lia).
  apply res_bind_inv in H as (rest & E & H). apply check_outer_sound in E as [-> Hr]; [| done].
  change (drop (Z.to_nat kOuterHeaderSize) (outer t ++ rest)) with rest in H.
  apply run_rd_inv in H as [tail H]. inv_fields.
  rename select (lenZ _ = _) into Hl. unfold kOuterHeaderSize in *. autorewrite with len in Hl.
  destruct tail as [| x tail]; [| rewrite lenZ_cons in Hl; pose proof (lenZ_nonneg tail); lia].
  unfold setup_hash_wire. by rewrite app_nil_r.
Qed.

Lemma decode_setup_hash_no_fault t inp : decode_setup_hash t inp <> Fault.
Proof.
  unfold decode_setup_hash. split_if; [done |].
  rewrite outer_guard by (unfold kOuterHeaderSize in *; lia).
  destruct (check_outer inp t) as [| | rest] eqn:E; [by apply check_outer_no_fault in E | done |].
  cbn [res_bind]. eapply (reads_run _ 16).
  - replace 16 with (8 + (8 + 0)) by lia.
    repeat (apply reads_bind; [lia .. | auto with codec | intros]). auto with codec.
  - unfold kOuterHeaderSize in *. rewrite lenZ_drop by lia. lia.
Qed.

Lemma peek_no_fault inp : peek_msg_type inp <> Fault.
Proof.
  unfold peek_msg_type, kOuterHeaderSize. split_if; [done |].
  destruct (nthZ_Some inp 0) as [v ->]; [lia |]. destruct (nthZ_Some inp 1) as [c ->]; [lia |]. by split_if.
Qed.

Lemma peek_outer t rest : peek_msg_type (outer t ++ rest) = Ok (MsgType.code t).
Proof.
  unfold peek_msg_type. rewrite lenZ_app, lenZ_outer. pose proof (lenZ_nonneg rest).
  split_if; [unfold kOuterHeaderSize in *; lia |]. simpl. f_equal. apply u8_small, MsgType.code_u8.
Qed.

(** ** Properties of the configuration *)

Lemma forallb_seqZ (f : Z -> bool) n :
  forallb f (seqZ 0 n) = true <-> forall i, 0 <= i < n -> f i = true.
Proof.
  rewrite forallb_forall. split.
  - intros H i Hi. apply H, list_elem_of_In, elem_of_seqZ. lia.
  - intros H i Hi%list_elem_of_In%elem_of_seqZ. apply H. lia.
Qed.

(** [setup_payload_valid] accepts exactly the configurations the data plane can
    run: our protocol version, at most 64 streams, every block size in 1..16384,
    every window in 1..1024, and no two streams with the same id. *)
Theorem setup_payload_valid_exact p :
  wf_setup p ->
  setup_payload_valid p = true <->
  sp_protocol_version p = kProtocolVersion /\ sp_num_streams p <= kMaxStreams /\
  (forall i, 0 <= i < sp_num_streams p ->
     1 <= sg_block_size (stream_at p i) <= kMaxPayloadSize /\
     1 <= sg_window_size (stream_at p i) <= kMaxWindow) /\
  (forall i j, 0 <= i < sp_num_streams p -> 0 <= j < sp_num_streams p -> i <> j ->
     sg_stream_id (stream_at p i) <> sg_stream_id (stream_at p j)).
Proof.
  intros W.
  assert (forall i, 0 <= i < sp_num_streams p -> is_stream (stream_at p i)) as His.
  { intros i Hi. pose proof (ws_count _ W). pose proof (ws_len _ W). unfold stream_at.
    destruct (nth_lookup_or_length (sp_streams p) (Z.to_nat i) default_stream_config) as [Hl |];
      [| unfold lenZ in *; lia]. by apply (Forall_lookup_1 _ _ _ _ (ws_streams _ W) Hl). }
  unfold setup_payload_valid. destruct (Z.eqb_spec (sp_protocol_version p) kProtocolVersion) as [Hv |];
    cbn [negb orb]; [| naive_solver]. pose proof (ws_count _ W). split_if; [lia |].
  rewrite forallb_seqZ.
  assert (forall i, 0 <= i < sp_num_streams p -> stream_valid p i = true <->
    (1 <= sg_block_size (stream_at p i) <= kMaxPayloadSize /\
     1 <= sg_window_size (stream_at p i) <= kMaxWindow) /\
    forall j, 0 <= j < i -> sg_stream_id (stream_at p j) <> sg_stream_id (stream_at p i)) as Hs.
  { intros i Hi. destruct (His i Hi) as (_ & _ & _ & Hbs & Hws). unfold stream_valid, is_u16 in *.
    rewrite andb_true_iff, forallb_seqZ, negb_true_iff, !orb_false_iff.
    rewrite !Z.eqb_neq, !Z.ltb_ge. setoid_rewrite negb_true_iff. setoid_rewrite Z.eqb_neq.
    intuition lia. }
  split.
  - intros Hall. split_and!; [done | lia | intros i Hi; by apply Hs, Hall |].
    intros i j Hi Hj Hne. destruct (Z.lt_trichotomy i j) as [? | [? | ?]]; [| lia |].
    + apply (Hs j Hj); [by apply Hall | lia].
    + apply not_eq_sym, (Hs i Hi); [by apply Hall | lia].
  - intros (_ & _ & Hr & Hu) i Hi. apply Hs; [done |]. split; [by apply Hr |].
    intros j Hj. apply Hu; lia.
Qed.

(** A configuration of two streams. *)
Definition setup_example : SetupPayload :=
  mkSetupPayload 8 1 2
    (mkStreamConfig 5 0 1 1200 64 :: mkStreamConfig 6 0 3 1200 32 ::
     replicate 62 default_stream_config) 0 (replicate 256 0).

Lemma setup_example_wf : wf_setup setup_example.
Proof.
  split; try done; try (unfold is_u8, is_u16, kMaxStreams, kMaxExtensionBytes; cbn; lia).
  - repeat (constructor; [repeat split; cbn; lia |]). constructor.
  - by exists [].
Qed.

Lemma setup_payload_valid_exact_witness :
  setup_payload_valid setup_example = true <->
  sp_protocol_version setup_example = kProtocolVersion /\ sp_num_streams setup_example <= kMaxStreams /\
  (forall i, 0 <= i < sp_num_streams setup_example ->
     1 <= sg_block_size (stream_at setup_example i) <= kMaxPayloadSize /\
     1 <= sg_window_size (stream_at setup_example i) <= kMaxWindow) /\
  (forall i j, 0 <= i < sp_num_streams setup_example -> 0 <= j < sp_num_streams setup_example -> i <> j ->
     sg_stream_id (stream_at setup_example i) <> sg_stream_id (stream_at setup_example j)).
Proof. apply (setup_payload_valid_exact setup_example). apply setup_example_wf. Defined.

(** The SETUP datagram survives the wire exactly: encoding a well-formed
    configuration into a buffer that is large enough and decoding what was sent
    gives the configuration and the very body that both sides hash; the decoder
    accepts nothing but such datagrams, of exactly that length, and never reads
    outside its input. *)
Theorem setup_data_codec p out inp q body :
  wf_setup p -> lenZ (setup_wire p) <= lenZ out -> Forall is_u8 inp ->
  (exists buf n, encode_setup_data p out = Ok (buf, n) /\ lenZ buf = lenZ out /\
     decode_setup_data (take (Z.to_nat n) buf) default_setup_payload = Ok (p, setup_body p)) /\
  (decode_setup_data inp default_setup_payload = Ok (q, body) <->
     wf_setup q /\ inp = setup_wire q /\ body = setup_body q) /\
  decode_setup_data inp default_setup_payload <> Fault.
Proof.
  intros W Hroom Hb. split_and!.
  - destruct (encode_setup_data_writes p out W) as (buf & n & E & Hl & Hbuf). exists buf, n.
    split_and!; [done .. |]. split_if_in Hbuf; [lia |]. destruct Hbuf as [-> ->].
    rewrite take_all_lenZ. by apply decode_setup_wire.
  - split; [by apply decode_setup_sound |]. intros (Wq & -> & ->). by apply decode_setup_wire.
  - by apply decode_setup_no_fault.
Qed.

Lemma setup_data_codec_witness :
  (exists buf n, encode_setup_data setup_example (replicate 100 0) = Ok (buf, n) /\ lenZ buf = 100 /\
     decode_setup_data (take (Z.to_nat n) buf) default_setup_payload =
     Ok (setup_example, setup_body setup_example)) /\
  (decode_setup_data [8; 4] default_setup_payload = Ok (setup_example, []) <->
     wf_setup setup_example /\ [8; 4] = setup_wire setup_example /\ [] = setup_body setup_example) /\
  decode_setup_data [8; 4] default_setup_payload <> Fault.
Proof.
  apply (setup_data_codec setup_example (replicate 100 0) [8; 4] setup_example []);
    [apply setup_example_wf | done | all_in_range].
Defined.
