(* ===== verification/Handshake.v ===== *)
(** * The handshake over a network

    The two state machines of Setup.v joined by a network that may lose, delay,
    reorder and duplicate datagrams and replay datagrams recorded earlier: a
    step relation whose reachable states satisfy the agreement invariant. *)

From S2P Require Import Prelude Wire Control Block Hash Setup.

Record hs := mkHs {
  hs_ini : SetupInitiator;
  hs_resp : SetupResponder;
  hs_to_resp : list bytes;
  hs_to_ini : list bytes;
}.

(** The datagram a handler leaves in its buffer. *)
Definition emitted (buf : bytes) (n : Z) : list bytes := if n =? 0 then [] else [take (Z.to_nat n) buf].

Section Network.

(** The offered configuration, and the datagrams an attacker recorded. *)
Context (payload : SetupPayload) (old : bytes -> Prop).

(** A nonce no recorded FINACK carries. *)
Definition fresh_nonce (rnd : Z) : Prop :=
  is_u64 rnd /\ forall h, ~ old (setup_hash_wire MsgType.SetupFinAck h rnd).

Inductive hs_step : hs -> hs -> Prop :=
| hs_start s out now ini buf n :
    initiator_start (hs_ini s) out now = Ok (ini, buf, n) ->
    hs_step s (mkHs ini (hs_resp s) (emitted buf n ++ hs_to_resp s) (hs_to_ini s))
| hs_ini_datagram s d out now ini buf n :
    d ∈ hs_to_ini s \/ old d ->
    initiator_on_datagram (hs_ini s) d out now = Ok (ini, buf, n) ->
    hs_step s (mkHs ini (hs_resp s) (emitted buf n ++ hs_to_resp s) (hs_to_ini s))
| hs_ini_timeout s out now ini buf n :
    initiator_on_timeout (hs_ini s) out now = Ok (ini, buf, n) ->
    hs_step s (mkHs ini (hs_resp s) (emitted buf n ++ hs_to_resp s) (hs_to_ini s))
| hs_resp_datagram s d out now rnd resp buf n :
    d ∈ hs_to_resp s \/ old d -> fresh_nonce rnd ->
    responder_on_datagram (hs_resp s) d out now rnd = Ok (resp, buf, n) ->
    hs_step s (mkHs (hs_ini s) resp (hs_to_resp s) (emitted buf n ++ hs_to_ini s))
| hs_resp_timeout s out now resp buf n :
    responder_on_timeout (hs_resp s) out now = Ok (resp, buf, n) ->
    hs_step s (mkHs (hs_ini s) resp (hs_to_resp s) (emitted buf n ++ hs_to_ini s)).

(** A run from fresh state machines with given timeouts and retry caps. *)
Inductive hs_reachable : hs -> Prop :=
| hs_init t1 r1 t2 r2 ini :
    new_initiator payload t1 r1 = Ok ini -> hs_reachable (mkHs ini (new_responder t2 r2) [] [])
| hs_next s s' : hs_reachable s -> hs_step s s' -> hs_reachable s'.

(** What the initiator can have put on the wire. *)
Definition initiator_sent (s : hs) (d : bytes) : Prop :=
  d = setup_wire payload \/
  si_matched (hs_ini s) = true /\
  exists n, d = setup_hash_wire MsgType.SetupFinAck (hash64 (setup_body payload)) n.

Record hs_inv (s : hs) : Prop := {
  hi_payload : si_payload (hs_ini s) = payload;
  hi_hash : si_my_hash (hs_ini s) = hash64 (setup_body payload);
  hi_sent : forall d, d ∈ hs_to_resp s -> initiator_sent s d;
  hi_reply : sr_reply_sent (hs_resp s) = true ->
    sr_has_config (hs_resp s) = true /\ wf_setup (sr_config (hs_resp s)) /\
    setup_payload_valid (sr_config (hs_resp s)) = true /\
    sr_my_hash (hs_resp s) = hash64 (setup_body (sr_config (hs_resp s))) /\
    fresh_nonce (sr_nonce (hs_resp s));
  hi_complete : sr_complete (hs_resp s) = true ->
    sr_reply_sent (hs_resp s) = true /\ si_matched (hs_ini s) = true /\
    sr_my_hash (hs_resp s) = hash64 (setup_body payload);
}.

Hypothesis payload_wf : wf_setup payload.
Hypothesis old_bytes : forall d, old d -> Forall is_u8 d.

Lemma emitted_setup_data out buf n :
  encode_setup_data payload out = Ok (buf, n) -> forall d, d ∈ emitted buf n -> d = setup_wire payload.
Proof.
  intros E d Hd. destruct (encode_setup_data_writes payload out payload_wf) as (buf' & n' & E' & _ & Hb).
  rewrite E in E'. injection E' as <- <-. unfold emitted in Hd. pose proof (setup_body_pos payload payload_wf).
  destruct (lenZ out <? lenZ (setup_wire payload)); [subst; by apply elem_of_nil in Hd |].
  destruct Hb as [-> ->]. rewrite lenZ_setup_wire in *. split_if_in Hd; [lia |].
  rewrite <- lenZ_setup_wire, take_all_lenZ in Hd. by apply list_elem_of_singleton in Hd.
Qed.

Lemma emitted_setup_hash t h nonce out buf n :
  is_hash_type t -> encode_setup_hash t h nonce out = Ok (buf, n) ->
  forall d, d ∈ emitted buf n -> d = setup_hash_wire t h nonce.
Proof.
  intros Ht E d Hd. rewrite encode_setup_hash_writes in E by done. unfold emitted in Hd.
  split_if_in E; injection E as <- <-; [by apply elem_of_nil in Hd |].
  by apply list_elem_of_singleton in Hd.
Qed.
Lemma emitted_app (P : bytes -> Prop) buf n l :
  (forall d, d ∈ emitted buf n -> P d) -> (forall d, d ∈ l -> P d) ->
  forall d, d ∈ emitted buf n ++ l -> P d.
Proof. intros H1 H2 d [Hd | Hd]%elem_of_app; auto. Qed.

Lemma initiator_sent_mono s s' d :
  (si_matched (hs_ini s) = true -> si_matched (hs_ini s') = true) ->
  initiator_sent s d -> initiator_sent s' d.
Proof. intros Hm [-> | [Hd ?]]; [by left | right; auto]. Qed.

(** What the initiator's handlers keep, and what they send. *)
Definition initiator_ok (ini ini' : SetupInitiator) (buf : bytes) (n : Z) : Prop :=
  si_payload ini' = si_payload ini /\ si_my_hash ini' = si_my_hash ini /\
  (si_matched ini = true -> si_matched ini' = true) /\
  forall d, d ∈ emitted buf n -> d = setup_wire payload \/
    si_matched ini' = true /\ exists m, d = setup_hash_wire MsgType.SetupFinAck (si_my_hash ini) m.

(** A handler that sends nothing and keeps what matters. *)
Ltac quiet E := injection E as <- <- <-; split_and!; try done; by intros ? ?%elem_of_nil.

Lemma initiator_start_ok ini out now ini' buf n :
  si_payload ini = payload -> initiator_start ini out now = Ok (ini', buf, n) -> initiator_ok ini ini' buf n.
Proof.
  unfold initiator_start. intros Hp E. apply res_bind_inv in E as ([buf1 n1] & E1 & E).
  rewrite Hp in E1. split_if_in E; [quiet E |].
  injection E as <- <- <-. split_and!; try done. intros d Hd. left. by eapply emitted_setup_data.
Qed.

Lemma initiator_timeout_ok ini out now ini' buf n :
  si_payload ini = payload -> initiator_on_timeout ini out now = Ok (ini', buf, n) -> initiator_ok ini ini' buf n.
Proof.
  unfold initiator_on_timeout. intros Hp E. repeat (split_if_in E; [quiet E |]).
  apply res_bind_inv in E as ([buf1 n1] & E1 & [= <- <- <-]). cbn [si_payload] in E1. rewrite Hp in E1.
  split_and!; try done. intros d Hd. left. by eapply emitted_setup_data.
Qed.

Lemma initiator_datagram_ok ini inp out now ini' buf n :
  initiator_on_datagram ini inp out now = Ok (ini', buf, n) -> initiator_ok ini ini' buf n.
Proof.
  unfold initiator_on_datagram. intros E.
  destruct (peek_msg_type inp) as [| | type]; [done | quiet E |]. split_if_in E; [quiet E |].
  destruct (decode_setup_hash MsgType.SetupHashReply inp) as [| | [h m]]; [done | quiet E |].
  split_if_in E; [quiet E |].
  apply res_bind_inv in E as ([buf1 n1] & E1 & [= <- <- <-]). cbn [si_my_hash si_responder_nonce] in E1.
  split_and!; try done. intros d Hd. right. split; [done |]. exists m.
  eapply emitted_setup_hash; [by right | done | done].
Qed.

Lemma initiator_step_inv s ini buf n :
  hs_inv s -> initiator_ok (hs_ini s) ini buf n ->
  hs_inv (mkHs ini (hs_resp s) (emitted buf n ++ hs_to_resp s) (hs_to_ini s)).
Proof.
  intros I (Hp & Hh & Hm & Hd). split; cbn.
  - rewrite Hp. apply I.
  - rewrite Hh. apply I.
  - apply emitted_app.
    + intros d [-> | [Hmat [m ->]]]%Hd; [by left | right]. split; [done |]. exists m.
      by rewrite (hi_hash _ I).
    + intros d Hd'. eapply initiator_sent_mono; [| by apply (hi_sent _ I)]. done.
  - apply (hi_reply _ I).
  - intros Hc. destruct (hi_complete _ I Hc) as (? & ? & ?). auto.
Qed.

(** Everything delivered to the responder is a byte string. *)
Lemma ext_area_bytes es : Forall skippable es -> Forall is_u8 (ext_area es).
Proof.
  induction 1 as [| e es [(_ & _ & Hv) _] Hes IH]; [constructor |].
  rewrite ext_area_cons. unfold ext_bytes. rewrite !Forall_app. auto with fuse.
Qed.

Lemma setup_hash_wire_bytes t h n : Forall is_u8 (setup_hash_wire t h n).
Proof.
  unfold setup_hash_wire, outer. rewrite !Forall_app. split_and!; [| apply be_bytes ..].
  repeat constructor; apply u8_range.
Qed.

Lemma setup_wire_bytes p : wf_setup p -> Forall is_u8 (setup_wire p).
Proof.
  intros W. destruct (ws_area _ W) as (es & Hes & Hskip). unfold setup_wire, setup_body, outer.
  rewrite Hes, !Forall_app. split_and!; try apply be_bytes;
    [repeat constructor; apply u8_range .. | | by apply ext_area_bytes].
  generalize (take (Z.to_nat (sp_num_streams p)) (sp_streams p)). intros ss.
  induction ss as [| x ss IH]; [constructor |].
  change (mjoin (stream_wire <$> x :: ss)) with (stream_wire x ++ mjoin (stream_wire <$> ss)).
  unfold stream_wire. rewrite !Forall_app. split_and!; try apply be_bytes; [| done].
  repeat constructor; apply u8_range.
Qed.

Lemma delivered_bytes s d : hs_inv s -> d ∈ hs_to_resp s \/ old d -> Forall is_u8 d.
Proof.
  intros I [Hd | Hd]; [| by apply old_bytes].
  destruct (hi_sent _ I d Hd) as [-> | (_ & m & ->)]; [by apply setup_wire_bytes | apply setup_hash_wire_bytes].
Qed.

Lemma setup_hash_wire_inj t h1 n1 h2 n2 :
  is_u64 h1 -> is_u64 h2 -> setup_hash_wire t h1 n1 = setup_hash_wire t h2 n2 -> h1 = h2.
Proof.
  intros H1 H2 E. unfold setup_hash_wire in E. apply app_inv_head in E.
  apply app_inj_1 in E as [E _]; [| by rewrite !be_length]. by apply (be_inj 8) in E.
Qed.

(** A FINACK that completes a handshake was sent by the initiator. *)
Lemma finack_from_initiator s d h n :
  hs_inv s -> d ∈ hs_to_resp s \/ old d -> decode_setup_hash MsgType.SetupFinAck d = Ok (h, n) ->
  (forall h', ~ old (setup_hash_wire MsgType.SetupFinAck h' n)) ->
  si_matched (hs_ini s) = true /\ h = hash64 (setup_body payload).
Proof.
  intros I Hd E Hfresh. apply decode_setup_hash_sound in E as (-> & Hh & Hn);
    [| by eapply delivered_bytes]. destruct Hd as [Hd | Hd]; [| by apply Hfresh in Hd].
  destruct (hi_sent _ I _ Hd) as [E | (Hm & m & E)]; [done |]. split; [done |].
  by apply setup_hash_wire_inj in E; [| done | apply hash64_range].
Qed.

(** The responder's part of the invariant, for a given initiator. *)
Definition responder_ok (ini : SetupInitiator) (resp : SetupResponder) : Prop :=
  (sr_reply_sent resp = true ->
     sr_has_config resp = true /\ wf_setup (sr_config resp) /\
     setup_payload_valid (sr_config resp) = true /\
     sr_my_hash resp = hash64 (setup_body (sr_config resp)) /\ fresh_nonce (sr_nonce resp)) /\
  (sr_complete resp = true ->
     sr_reply_sent resp = true /\ si_matched ini = true /\
     sr_my_hash resp = hash64 (setup_body payload)).

Lemma responder_step_inv s resp l :
  hs_inv s -> responder_ok (hs_ini s) resp -> hs_inv (mkHs (hs_ini s) resp (hs_to_resp s) l).
Proof. intros I [Hr Hc]. split; cbn; try apply I; done. Qed.

Lemma responder_timeout_ok s out now resp buf n :
  hs_inv s -> responder_on_timeout (hs_resp s) out now = Ok (resp, buf, n) ->
  responder_ok (hs_ini s) resp.
Proof.
  intros I E. assert (responder_ok (hs_ini s) (hs_resp s)) as Hok by (split; apply I).
  unfold responder_on_timeout in E.
  repeat (split_if_in E; [injection E as <- _ _; exact Hok |]).
  by apply res_bind_inv in E as ([buf1 n1] & E1 & [= <- <- <-]).
Qed.

Lemma responder_datagram_ok s d out now rnd resp buf n :
  hs_inv s -> d ∈ hs_to_resp s \/ old d -> fresh_nonce rnd ->
  responder_on_datagram (hs_resp s) d out now rnd = Ok (resp, buf, n) ->
  responder_ok (hs_ini s) resp.
Proof.
  intros I Hd Hrnd E. assert (responder_ok (hs_ini s) (hs_resp s)) as Hok by (split; apply I).
  unfold responder_on_datagram in E.
  destruct (peek_msg_type d) as [| | type]; [done | by injection E as <- _ _ |]. split_if_in E.
  - destruct (sr_complete (hs_resp s)) eqn:Hc; [by injection E as <- _ _ |].
    destruct (decode_setup_data d default_setup_payload) as [| | [decoded body]] eqn:Ed;
      [done | by injection E as <- _ _ |]. split_if_in E; [by injection E as <- _ _ |].
    apply decode_setup_sound in Ed as (W & -> & ->); [| by eapply delivered_bytes].
    apply res_bind_inv in E as ([buf1 n1] & _ & [= <- _ _]). split; [| done]. intros _.
    cbn [sr_has_config sr_config sr_my_hash sr_nonce]. split_and!; try done.
    destruct (sr_reply_sent (hs_resp s)) eqn:Hrs; cbn [negb orb]; [| done].
    split_if; [done |]. by apply (hi_reply _ I).
  - split_if_in E; [| by injection E as <- _ _].
    destruct (decode_setup_hash MsgType.SetupFinAck d) as [| | [h m]] eqn:Ed;
      [done | by injection E as <- _ _ |].
    destruct (sr_reply_sent (hs_resp s) && (h =? sr_my_hash (hs_resp s)) && (m =? sr_nonce (hs_resp s)))
      eqn:Hg; [| by injection E as <- _ _].
    bool_hyps. subst. injection E as <- _ _. destruct (hi_reply _ I) as (? & ? & ? & Hh & Hfresh); [done |].
    destruct (finack_from_initiator s d _ _ I Hd Ed) as [Hm Hhash]; [apply Hfresh |].
    split; cbn [sr_reply_sent sr_complete sr_has_config sr_config sr_my_hash sr_nonce]; intros _; by split_and!.
Qed.

Lemma new_initiator_ok t r :
  exists ini, new_initiator payload t r = Ok ini /\ si_payload ini = payload /\
    si_my_hash ini = hash64 (setup_body payload) /\ si_data_sent ini = false /\
    si_retries ini = 0 /\ si_max_retries ini = r.
Proof.
  unfold new_initiator. rewrite serialize_writes by done.
  assert (lenZ (setup_body payload) <= 839) as Hlen.
  { rewrite lenZ_setup_body by done. pose proof (ws_count _ payload_wf). pose proof (ws_ext _ payload_wf).
    unfold kMaxStreams, kMaxExtensionBytes in *. lia. }
  set (buf := replicate _ _). assert (lenZ buf = 841) by done. split_if; [lia |]. cbn [res_bind].
  eexists. split; [done |]. cbn [si_payload si_my_hash si_data_sent si_retries si_max_retries].
  split_and!; try done. by rewrite take_all_lenZ.
Qed.

Lemma hs_reachable_inv s : hs_reachable s -> hs_inv s.
Proof.
  induction 1 as [t1 r1 t2 r2 ini E | s s' _ I Hs].
  - destruct (new_initiator_ok t1 r1) as (ini' & E' & Hp & Hh & _). rewrite E in E'. injection E' as <-.
    split; cbn; try done. by intros d ?%elem_of_nil.
  - destruct Hs.
    + apply initiator_step_inv; [done |]. eapply initiator_start_ok; [apply I | done].
    + apply initiator_step_inv; [done |]. by eapply initiator_datagram_ok.
    + apply initiator_step_inv; [done |]. eapply initiator_timeout_ok; [apply I | done].
    + apply responder_step_inv; [done |]. by eapply responder_datagram_ok.
    + apply responder_step_inv; [done |]. by eapply responder_timeout_ok.
Qed.

(** Two configurations with the same body are the same. *)
Lemma setup_body_inj p q : wf_setup p -> wf_setup q -> setup_body p = setup_body q -> p = q.
Proof.
  intros Hp Hq E. pose proof (decode_setup_wire p Hp) as Ep. unfold setup_wire in Ep.
  rewrite E in Ep. pose proof (decode_setup_wire q Hq) as Eq. unfold setup_wire in Eq.
  rewrite Ep in Eq. by injection Eq.
Qed.

Lemma forall_u8_inv p pre a suf :
  wf_setup p -> setup_body p = pre ++ a :: suf -> Forall is_u8 pre /\ is_u8 a /\ Forall is_u8 suf.
Proof.
  intros W E. pose proof (setup_wire_bytes p W) as Hb. unfold setup_wire in Hb.
  rewrite E, !Forall_app in Hb. destruct Hb as (_ & H1 & H2). by apply Forall_cons_1 in H2 as [].
Qed.

End Network.

(** ** Properties *)

(** The four messages of a handshake without loss. *)
Record exchange (payload : SetupPayload) (t1 r1 t2 r2 now rnd rnd' : Z) (out : bytes) := {
  ex_ini0 : SetupInitiator;
  ex_ini1 : SetupInitiator;
  ex_ini2 : SetupInitiator;
  ex_resp1 : SetupResponder;
  ex_resp2 : SetupResponder;
  ex_b1 : bytes; ex_n1 : Z;
  ex_b2 : bytes; ex_n2 : Z;
  ex_b3 : bytes; ex_n3 : Z;
  ex_new : new_initiator payload t1 r1 = Ok ex_ini0;
  ex_start : initiator_start ex_ini0 out now = Ok (ex_ini1, ex_b1, ex_n1);
  ex_data : responder_on_datagram (new_responder t2 r2) (take (Z.to_nat ex_n1) ex_b1) out now rnd =
            Ok (ex_resp1, ex_b2, ex_n2);
  ex_reply : initiator_on_datagram ex_ini1 (take (Z.to_nat ex_n2) ex_b2) out now =
             Ok (ex_ini2, ex_b3, ex_n3);
  ex_finack : responder_on_datagram ex_resp1 (take (Z.to_nat ex_n3) ex_b3) out now rnd' =
              Ok (ex_resp2, out, 0);
  ex_sent : ex_n1 <> 0 /\ ex_n2 <> 0 /\ ex_n3 <> 0;
  ex_matched : si_matched ex_ini2 = true;
  ex_complete : sr_complete ex_resp2 = true;
  ex_config : sr_config ex_resp2 = payload;
}.

Lemma exchange_exists payload t1 r1 t2 r2 now rnd rnd' out :
  wf_setup payload -> setup_payload_valid payload = true -> is_u64 rnd -> 841 <= lenZ out ->
  inhabited (exchange payload t1 r1 t2 r2 now rnd rnd' out).
Proof.
  intros W V Hrnd Hout.
  destruct (new_initiator_ok payload W t1 r1) as (ini0 & E0 & Hp & Hh & _).
  assert (lenZ (setup_wire payload) <= 841).
  { rewrite lenZ_setup_wire, lenZ_setup_body by done. pose proof (ws_count _ W). pose proof (ws_ext _ W).
    unfold kMaxStreams, kMaxExtensionBytes in *. lia. }
  pose proof (setup_body_pos payload W). pose proof (lenZ_setup_wire payload).
  destruct (encode_setup_data_writes payload out W) as (b1 & n1 & E1 & _ & Hb1).
  split_if_in Hb1; [lia |]. destruct Hb1 as [Hn1 Hb1]. assert (n1 <> 0) by lia.
  set (hv := hash64 (setup_body payload)) in *. assert (is_u64 hv) as HH by apply hash64_range.
  assert (forall t h n, is_hash_type t -> encode_setup_hash t h n out = Ok (setup_hash_wire t h n ++ drop 18 out, 18))
    as Ehash by (intros; rewrite encode_setup_hash_writes by done; by split_if; [lia |]).
  set (ini1 := mkSetupInitiator (si_payload ini0) (si_my_hash ini0) (si_responder_nonce ini0)
    (si_timeout_ns ini0) (si_max_retries ini0) now (si_retries ini0) true (si_matched ini0) (si_failed ini0)).
  set (resp1 := mkSetupResponder payload hv rnd t2 r2 now 0 true true false false).
  set (ini2 := mkSetupInitiator (si_payload ini0) (si_my_hash ini0) rnd (si_timeout_ns ini0)
    (si_max_retries ini0) now (si_retries ini0) true true (si_failed ini0)).
  set (resp2 := mkSetupResponder payload hv rnd t2 r2 now 0 true true true false).
  split. refine {| ex_ini0 := ini0; ex_ini1 := ini1; ex_ini2 := ini2; ex_resp1 := resp1; ex_resp2 := resp2;
    ex_b1 := b1; ex_n1 := n1;
    ex_b2 := setup_hash_wire MsgType.SetupHashReply hv rnd ++ drop 18 out; ex_n2 := 18;
    ex_b3 := setup_hash_wire MsgType.SetupFinAck hv rnd ++ drop 18 out; ex_n3 := 18 |}; try done.
  - unfold initiator_start. rewrite Hp, E1. cbn [res_bind]. split_if; [done |]. by rewrite <- Hp.
  - rewrite Hb1, Hn1, take_all_lenZ. unfold responder_on_datagram, setup_wire at 1.
    rewrite peek_outer, Z.eqb_refl. cbn [sr_complete new_responder].
    rewrite decode_setup_wire, V by done. cbn [negb sr_reply_sent orb].
    rewrite Ehash by (by left). done.
  - change (take (Z.to_nat 18) (setup_hash_wire MsgType.SetupHashReply hv rnd ++ drop 18 out))
      with (setup_hash_wire MsgType.SetupHashReply hv rnd).
    unfold initiator_on_datagram, setup_hash_wire at 1. rewrite peek_outer, Z.eqb_refl. cbn [negb].
    rewrite decode_setup_hash_wire by done. cbn [ini1 si_my_hash]. rewrite Hh, Z.eqb_refl. cbn [negb].
    cbn [si_my_hash si_responder_nonce]. rewrite Ehash by (by right). cbn [res_bind]. by rewrite <- Hh.
  - change (take (Z.to_nat 18) (setup_hash_wire MsgType.SetupFinAck hv rnd ++ drop 18 out))
      with (setup_hash_wire MsgType.SetupFinAck hv rnd).
    unfold responder_on_datagram, setup_hash_wire at 1. rewrite peek_outer. cbn [MsgType.code Z.eqb Pos.eqb].
    rewrite decode_setup_hash_wire by done. cbn [resp1 sr_reply_sent sr_my_hash sr_nonce].
    by rewrite !Z.eqb_refl.
Qed.

(** A handshake without loss completes: offered any valid configuration, the
    responder takes it from the DATA datagram, the initiator matches the
    HASH-REPLY, and the FINACK completes the responder with exactly the
    configuration that was offered. *)
Theorem handshake_completes payload t1 r1 t2 r2 now rnd rnd' out :
  wf_setup payload -> setup_payload_valid payload = true -> is_u64 rnd -> 841 <= lenZ out ->
  exists ini0 ini1 ini2 resp1 resp2 b1 n1 b2 n2 b3 n3,
    new_initiator payload t1 r1 = Ok ini0 /\
    initiator_start ini0 out now = Ok (ini1, b1, n1) /\
    responder_on_datagram (new_responder t2 r2) (take (Z.to_nat n1) b1) out now rnd = Ok (resp1, b2, n2) /\
    initiator_on_datagram ini1 (take (Z.to_nat n2) b2) out now = Ok (ini2, b3, n3) /\
    responder_on_datagram resp1 (take (Z.to_nat n3) b3) out now rnd' = Ok (resp2, out, 0) /\
    si_matched ini2 = true /\ sr_complete resp2 = true /\ sr_config resp2 = payload.
Proof.
  intros W V Hrnd Hout. destruct (exchange_exists payload t1 r1 t2 r2 now rnd rnd' out W V Hrnd Hout) as [[]].
  eexists _, _, _, _, _, _, _, _, _, _, _. split_and!; eassumption.
Qed.

Lemma handshake_completes_witness :
  exists ini0 ini1 ini2 resp1 resp2 b1 n1 b2 n2 b3 n3,
    new_initiator setup_example 50 5 = Ok ini0 /\
    initiator_start ini0 (replicate 1000 0) 10 = Ok (ini1, b1, n1) /\
    responder_on_datagram (new_responder 50 5) (take (Z.to_nat n1) b1) (replicate 1000 0) 10 77 =
      Ok (resp1, b2, n2) /\
    initiator_on_datagram ini1 (take (Z.to_nat n2) b2) (replicate 1000 0) 10 = Ok (ini2, b3, n3) /\
    responder_on_datagram resp1 (take (Z.to_nat n3) b3) (replicate 1000 0) 10 78 =
      Ok (resp2, replicate 1000 0, 0) /\
    si_matched ini2 = true /\ sr_complete resp2 = true /\ sr_config resp2 = setup_example.
Proof.
  apply (handshake_completes setup_example 50 5 50 5 10 77 78 (replicate 1000 0));
    [apply setup_example_wf | done | unfold is_u64; lia | done].
Defined.

(** C24: The handshake agrees, over any network that loses, delays, reorders or
    duplicates datagrams and replays recorded ones: if the responder completes,
    the initiator has matched, and what the responder runs with is a valid
    configuration with the hash of the one offered; in particular a
    configuration that differs from it in a single byte is impossible.  A
    recorded DATA and FINACK pair cannot complete a handshake, since the
    responder's nonce is not in any recording. *)
Theorem handshake_agreement payload old s :
  wf_setup payload -> (forall d, old d -> Forall is_u8 d) ->
  hs_reachable payload old s -> sr_complete (hs_resp s) = true ->
  si_matched (hs_ini s) = true /\ sr_has_config (hs_resp s) = true /\
  setup_payload_valid (sr_config (hs_resp s)) = true /\
  hash64 (setup_body (sr_config (hs_resp s))) = hash64 (setup_body payload) /\
  (forall pre a b suf, setup_body (sr_config (hs_resp s)) = pre ++ a :: suf ->
     setup_body payload = pre ++ b :: suf -> sr_config (hs_resp s) = payload).
Proof.
  intros W Hold Hr Hc. pose proof (hs_reachable_inv payload old W Hold s Hr) as I.
  destruct (hi_complete _ _ _ I Hc) as (Hrs & Hm & Hh).
  destruct (hi_reply _ _ _ I Hrs) as (Hcfg & Wc & V & Hh' & _). rewrite Hh' in Hh.
  split_and!; try done. intros pre a b suf E1 E2. apply setup_body_inj; [done .. |].
  destruct (forall_u8_inv _ _ _ _ Wc E1) as (Hpre & Ha & Hsuf).
  destruct (forall_u8_inv _ _ _ _ W E2) as (_ & Hb & _).
  rewrite E1, E2 in Hh. rewrite (hash64_one_byte pre a b suf) in E1 by done. by rewrite E1, E2.
Qed.

(** The lossless exchange is a run of the network. *)
Lemma exchange_reachable payload old (now rnd rnd' : Z) (out : bytes) (t1 r1 t2 r2 : Z) :
  wf_setup payload -> setup_payload_valid payload = true -> fresh_nonce old rnd -> fresh_nonce old rnd' ->
  841 <= lenZ out ->
  exists s, hs_reachable payload old s /\ sr_complete (hs_resp s) = true.
Proof.
  intros W V Hrnd Hrnd' Hout.
  destruct (exchange_exists payload t1 r1 t2 r2 now rnd rnd' out W V (proj1 Hrnd) Hout)
    as [[i0 i1 i2 p1 p2 b1 n1 b2 n2 b3 n3 E0 E1 E2 E3 E4 (N1 & N2 & N3) _ Hc _]].
  assert (forall b n, n <> 0 -> take (Z.to_nat n) b ∈ emitted b n) as He.
  { intros b n Hn. unfold emitted. apply Z.eqb_neq in Hn as ->. by apply list_elem_of_singleton. }
  set (s0 := mkHs i0 (new_responder t2 r2) [] []).
  set (s1 := mkHs i1 (hs_resp s0) (emitted b1 n1 ++ hs_to_resp s0) (hs_to_ini s0)).
  set (s2 := mkHs (hs_ini s1) p1 (hs_to_resp s1) (emitted b2 n2 ++ hs_to_ini s1)).
  set (s3 := mkHs i2 (hs_resp s2) (emitted b3 n3 ++ hs_to_resp s2) (hs_to_ini s2)).
  set (s4 := mkHs (hs_ini s3) p2 (hs_to_resp s3) (emitted out 0 ++ hs_to_ini s3)).
  exists s4. split; [| exact Hc].
  apply (hs_next _ _ s3); [apply (hs_next _ _ s2); [apply (hs_next _ _ s1); [apply (hs_next _ _ s0) |] |] |].
  - by apply (hs_init _ _ t1 r1 t2 r2).
  - by apply (hs_start _ s0 out now).
  - apply (hs_resp_datagram _ s1 (take (Z.to_nat n1) b1) out now rnd); [| done | done].
    left. apply elem_of_app. left. by apply He.
  - apply (hs_ini_datagram _ s2 (take (Z.to_nat n2) b2) out now); [| done].
    left. apply elem_of_app. left. by apply He.
  - apply (hs_resp_datagram _ s3 (take (Z.to_nat n3) b3) out now rnd'); [| done | done].
    left. apply elem_of_app. left. by apply He.
Qed.

Lemma handshake_agreement_witness :
  exists s, hs_reachable setup_example (fun d => d = setup_hash_wire MsgType.SetupFinAck 1 2) s /\
    sr_complete (hs_resp s) = true /\
    si_matched (hs_ini s) = true /\ sr_has_config (hs_resp s) = true /\
    setup_payload_valid (sr_config (hs_resp s)) = true /\
    hash64 (setup_body (sr_config (hs_resp s))) = hash64 (setup_body setup_example) /\
    (forall pre a b suf, setup_body (sr_config (hs_resp s)) = pre ++ a :: suf ->
       setup_body setup_example = pre ++ b :: suf -> sr_config (hs_resp s) = setup_example).
Proof.
  destruct (exchange_reachable setup_example (fun d => d = setup_hash_wire MsgType.SetupFinAck 1 2)
              10 77 78 (replicate 1000 0) 50 5 50 5) as (s & Hr & Hc);
    [apply setup_example_wf | done | | | done |].
  - split; [unfold is_u64; lia |]. intros h E. apply (f_equal (drop 10)) in E. discriminate E.
  - split; [unfold is_u64; lia |]. intros h E. apply (f_equal (drop 10)) in E. discriminate E.
  - exists s. split; [done |]. split; [done |].
    apply (handshake_agreement setup_example (fun d => d = setup_hash_wire MsgType.SetupFinAck 1 2));
      [apply setup_example_wf | intros d ->; apply setup_hash_wire_bytes | done | done].
Defined.

(** Feeds the initiator its timer at the given times, counting what it sends. *)
Fixpoint initiator_timeouts (st : SetupInitiator) (out : bytes) (times : list Z) : res (SetupInitiator * Z) :=
  match times with
  | [] => Ok (st, 0)
  | now :: times =>
      res_bind (initiator_on_timeout st out now) (fun '(st, _, n) =>
      res_bind (initiator_timeouts st out times) (fun '(st, k) =>
      Ok (st, (if n =? 0 then 0 else 1) + k)))
  end.

Lemma initiator_timeout_retries st out now :
  wf_setup (si_payload st) -> 0 <= si_retries st <= si_max_retries st -> si_max_retries st < 256 ->
  exists st' buf n, initiator_on_timeout st out now = Ok (st', buf, n) /\
    si_payload st' = si_payload st /\ si_max_retries st' = si_max_retries st /\
    0 <= si_retries st' <= si_max_retries st' /\
    (if n =? 0 then 0 else 1) <= si_retries st' - si_retries st /\ si_retries st <= si_retries st' /\
    (si_failed st = true -> si_failed st' = true /\ n = 0).
Proof.
  intros W Hr Hmax. unfold initiator_on_timeout.
  split_if; [eexists _, _, _; split; [done |]; split_and!; try done; cbn; lia |].
  split_if; [eexists _, _, _; split; [done |]; split_and!; try done; cbn; lia |].
  split_if; [eexists _, _, _; split; [done |]; split_and!; try done; cbn; lia |].
  destruct (encode_setup_data_writes (si_payload st) out W) as (buf & n & E & _). cbn [si_payload].
  rewrite E. cbn [res_bind]. eexists _, _, _. split; [done |]. cbn.
  rewrite u8_small by (unfold is_u8; lia). split_and!; try done; try lia.
  - split_if; lia.
  - intros Hf. bool_hyps. congruence.
Qed.


