(* ===== verification/Reassembly.v ===== *)
(** * Reassembly

    Models include/fuse/proto/reassembly.hpp and src/proto/reassembly.cpp: delivery
    of received blocks into the application's buffer, in sequence order for an
    ordered stream, on arrival for an unordered one.

    The abstract state is the set of blocks that have arrived.  The theorems show
    that each block counts once, that ordered delivery is 0, 1, 2, ..., and that a
    complete stream has reproduced its source. *)

From S2P Require Import Prelude Wire Bits Window Setup.

Record Slot := mkSlot {
  so_seq_no : Z;
  so_len : Z;
  so_valid : bool;
}.

Record ReassemblyStream := mkReassembly {
  ra_ordered : bool;
  ra_sink : option bytes;
  ra_sink_cap : Z;
  ra_total_blocks : Z;
  ra_delivered_count : Z;
  ra_delivery_order : list Z;
  ra_unordered_low : Z;
  ra_unordered_seen : list Z;
  ra_next_expected : Z;
  ra_buffer : list Slot;
}.

Definition kMaxDeliveryTrace : Z := 65536.

Definition new_reassembly (config : StreamConfig) (sink : option bytes) (sink_cap total_blocks : Z)
  : ReassemblyStream :=
  mkReassembly (negb (Z.land (sg_stream_flags config) kStreamFlagOrdered =? 0)) sink sink_cap
    total_blocks 0 [] 0 (replicate (Z.to_nat kMaskWords) 0) 0
    (replicate (Z.to_nat kMaxWindow) (mkSlot 0 0 false)).

Definition is_complete (st : ReassemblyStream) : bool :=
  negb (ra_total_blocks st =? 0) && (ra_delivered_count st =? ra_total_blocks st).

Definition set_sink (st : ReassemblyStream) (sink : option bytes) : ReassemblyStream :=
  mkReassembly (ra_ordered st) sink (ra_sink_cap st) (ra_total_blocks st) (ra_delivered_count st)
    (ra_delivery_order st) (ra_unordered_low st) (ra_unordered_seen st) (ra_next_expected st)
    (ra_buffer st).

Definition set_unordered (st : ReassemblyStream) (low : Z) (seen : list Z) : ReassemblyStream :=
  mkReassembly (ra_ordered st) (ra_sink st) (ra_sink_cap st) (ra_total_blocks st)
    (ra_delivered_count st) (ra_delivery_order st) low seen (ra_next_expected st) (ra_buffer st).

Definition set_next (st : ReassemblyStream) (next : Z) (buffer : list Slot) : ReassemblyStream :=
  mkReassembly (ra_ordered st) (ra_sink st) (ra_sink_cap st) (ra_total_blocks st)
    (ra_delivered_count st) (ra_delivery_order st) (ra_unordered_low st) (ra_unordered_seen st)
    next buffer.

Definition record (st : ReassemblyStream) (seq_no : Z) : ReassemblyStream :=
  mkReassembly (ra_ordered st) (ra_sink st) (ra_sink_cap st) (ra_total_blocks st)
    (u64 (ra_delivered_count st + 1))
    (if lenZ (ra_delivery_order st) <? kMaxDeliveryTrace
     then ra_delivery_order st ++ [seq_no] else ra_delivery_order st)
    (ra_unordered_low st) (ra_unordered_seen st) (ra_next_expected st) (ra_buffer st).

(** [Fault] is a copy outside the payload or the sink. *)
Definition write_sink (st : ReassemblyStream) (offset : Z) (payload : option bytes) (len : Z)
  : res ReassemblyStream :=
  match ra_sink st, payload with
  | Some sink, Some p =>
      if (0 <? len) && (offset <=? ra_sink_cap st) && (len <=? ra_sink_cap st - offset) then
        if (lenZ p <? len) || (lenZ sink <? offset + len) then Fault
        else Ok (set_sink st (Some (splice sink offset (take (Z.to_nat len) p))))
      else Ok st
  | _, _ => Ok st
  end.

Definition deliver (st : ReassemblyStream) (seq_no offset : Z) (payload : option bytes) (len : Z)
  : res ReassemblyStream :=
  res_bind (write_sink st offset payload len) (fun st => Ok (record st seq_no)).

(** The lambda [bit]: word and mask of a sequence number. *)
Definition seen_word (s : Z) : Z := (s mod kMaxWindow) / 64.
Definition seen_mask (s : Z) : Z := u64 (Z.shiftl 1 (s mod 64)).

(** The sliding loop of unordered mode; [Fault] is running out of fuel. *)
Fixpoint slide_low (fuel : nat) (low : Z) (seen : list Z) : res (Z * list Z) :=
  match fuel with
  | O => Fault
  | S n =>
      if Z.land (getZ seen (seen_word low)) (seen_mask low) =? 0 then Ok (low, seen)
      else slide_low n (u64 (low + 1))
             (setZ seen (seen_word low) (Z.land (getZ seen (seen_word low)) (u64 (Z.lnot (seen_mask low)))))
  end.

Definition slot_of (st : ReassemblyStream) (seq_no : Z) : Slot :=
  nth (Z.to_nat (seq_no mod kMaxWindow)) (ra_buffer st) (mkSlot 0 0 false).

(** The drain loop of ordered mode: the state and the blocks surfaced. *)
Fixpoint drain (fuel : nat) (st : ReassemblyStream) (surfaced : Z) : res (ReassemblyStream * Z) :=
  match fuel with
  | O => Fault
  | S n =>
      let next := ra_next_expected st in
      let sl := slot_of st next in
      if negb (so_valid sl) || negb (so_seq_no sl =? next) then Ok (st, surfaced)
      else
        let st := record st (so_seq_no sl) in
        let st := set_next st (u64 (next + 1))
                    (setZ (ra_buffer st) (next mod kMaxWindow) (mkSlot (so_seq_no sl) (so_len sl) false)) in
        drain n st (u32 (surfaced + 1))
  end.

(** Rounds that are always enough: each clears one of the 1024 slots or bits. *)
Definition window_fuel : nat := 1025.

Definition on_block (st : ReassemblyStream) (seq_no offset : Z) (payload : option bytes) (len : Z)
  : res (ReassemblyStream * Z) :=
  if negb (ra_ordered st) then
    let low := ra_unordered_low st in
    if (seq_no <? low) || (kMaxWindow <=? seq_no - low) then Ok (st, 0)
    else
      let w := seen_word seq_no in
      let m := seen_mask seq_no in
      if negb (Z.land (getZ (ra_unordered_seen st) w) m =? 0) then Ok (st, 0)
      else
        let seen := setZ (ra_unordered_seen st) w (Z.lor (getZ (ra_unordered_seen st) w) m) in
        res_bind (slide_low window_fuel low seen) (fun '(low, seen) =>
        res_bind (deliver (set_unordered st low seen) seq_no offset payload len) (fun st => Ok (st, 1)))
  else if seq_no <? ra_next_expected st then Ok (st, 0)
  else if ra_next_expected st <? seq_no then
    let rel := seq_no - ra_next_expected st in
    if rel <? kMaxWindow then
      let sl := slot_of st seq_no in
      if negb (so_valid sl) || negb (so_seq_no sl =? seq_no) then
        res_bind (write_sink st offset payload len) (fun st =>
        Ok (set_next st (ra_next_expected st)
              (setZ (ra_buffer st) (seq_no mod kMaxWindow) (mkSlot seq_no len true)), 0))
      else Ok (st, 0)
    else Ok (st, 0)
  else
    res_bind (deliver st seq_no offset payload len) (fun st =>
    drain window_fuel (set_next st (u64 (ra_next_expected st + 1)) (ra_buffer st)) 1).

(** ** The sink *)

(** The sink after a block's bytes have been copied, if they fit. *)
Definition written (sink : option bytes) (cap offset : Z) (payload : option bytes) (len : Z) : option bytes :=
  match sink, payload with
  | Some b, Some p =>
      if (0 <? len) && (offset <=? cap) && (len <=? cap - offset)
      then Some (splice b offset (take (Z.to_nat len) p)) else Some b
  | _, _ => sink
  end.

Definition sink_ok (st : ReassemblyStream) : Prop :=
  match ra_sink st with Some b => lenZ b = ra_sink_cap st | None => True end.

Definition payload_ok (payload : option bytes) (len : Z) : Prop :=
  match payload with Some p => len <= lenZ p | None => True end.

Lemma write_sink_written st offset payload len :
  sink_ok st -> payload_ok payload len ->
  write_sink st offset payload len = Ok (set_sink st (written (ra_sink st) (ra_sink_cap st) offset payload len)).
Proof.
  unfold write_sink, written, sink_ok, payload_ok. intros Hs Hp. destruct st as [o sink cap]. cbn in *.
  destruct sink as [b |], payload as [p |]; try done. split_if; [| done]. by split_if; [lia |].
Qed.

Lemma written_ok sink cap offset payload len :
  match sink with Some b => lenZ b = cap | None => True end -> payload_ok payload len -> 0 <= offset ->
  match written sink cap offset payload len with Some b => lenZ b = cap | None => True end.
Proof.
  unfold written, payload_ok. intros Hs Hp Ho. destruct sink as [b |], payload as [p |]; try done.
  split_if; [| done]. rewrite splice_length; [done | lia |]. rewrite lenZ_take by lia. lia.
Qed.

(** ** Unordered streams *)

Lemma seen_test seen s :
  (Z.land (getZ seen (seen_word s)) (seen_mask s) =? 0) = negb (ring_test seen (s mod 1024)).
Proof.
  unfold ring_test, seen_word, seen_mask, kMaxWindow, bit_mask. rewrite slot_mod_64.
  by rewrite negb_involutive.
Qed.

Lemma seen_set seen s :
  setZ seen (seen_word s) (Z.lor (getZ seen (seen_word s)) (seen_mask s)) = ring_set seen (s mod 1024).
Proof. unfold ring_set, seen_word, seen_mask, kMaxWindow, bit_mask. by rewrite slot_mod_64. Qed.

Lemma seen_clear seen s :
  setZ seen (seen_word s) (Z.land (getZ seen (seen_word s)) (u64 (Z.lnot (seen_mask s)))) =
  ring_clear seen (s mod 1024).
Proof. unfold ring_clear, seen_word, seen_mask, kMaxWindow, bit_mask. by rewrite slot_mod_64. Qed.

Lemma slide_low_correct fuel low seen acc :
  ring_repr low seen acc -> (forall s, s ∈ acc -> s < 2 ^ 64 - 1) ->
  (forall s, s ∈ acc -> s < low + Z.of_nat fuel - 1) -> (0 < fuel)%nat ->
  exists low' seen', slide_low fuel low seen = Ok (low', seen') /\ ring_repr low' seen' acc /\ low' ∉ acc.
Proof.
  revert low seen. induction fuel as [| fuel IH]; intros low seen R Hmax Hhi Hf; [lia |].
  cbn [slide_low]. rewrite seen_test, (ring_test_repr low _ acc) by (done || lia).
  destruct (bool_decide_reflect (low ∈ acc)) as [Hin | Hout]; cbn [negb]; [| by exists low, seen].
  pose proof (Hmax _ Hin). pose proof (Hhi _ Hin). pose proof (rr_base _ _ _ R).
  rewrite seen_clear, u64_small by (unfold is_u64; lia).
  apply IH; [by apply ring_slide_repr | done | | lia]. intros s Hs%Hhi. lia.
Qed.

Record uinv (st : ReassemblyStream) (acc : gset Z) : Prop := {
  ui_ring : ring_repr (ra_unordered_low st) (ra_unordered_seen st) acc;
  ui_mex : ra_unordered_low st ∉ acc;
  ui_max : forall s, s ∈ acc -> s < 2 ^ 64 - 1;
  ui_count : ra_delivered_count st = Z.of_nat (size acc);
  ui_order : NoDup (ra_delivery_order st) /\ forall s, s ∈ ra_delivery_order st -> s ∈ acc;
}.

(** A stream's set of blocks is bounded by its sequence numbers. *)
Lemma size_bound (acc : gset Z) b : (forall s, s ∈ acc -> 0 <= s < b) -> 0 <= b -> Z.of_nat (size acc) <= b.
Proof.
  intros H Hb. replace b with (Z.of_nat (size (list_to_set (seqZ 0 b) : gset Z))).
  - apply Nat2Z.inj_le, subseteq_size. intros s Hs%H. apply elem_of_list_to_set, elem_of_seqZ. lia.
  - rewrite size_list_to_set by apply NoDup_seqZ. rewrite length_seqZ. lia.
Qed.

Definition arrived (acc : gset Z) (base s : Z) : gset Z :=
  if decide (s ∈ acc) then acc else if 1024 <=? s - base then acc else {[s]} ∪ acc.

(** The block is new and within the window. *)
Definition is_new (acc : gset Z) (base s : Z) : bool :=
  bool_decide (s ∉ acc) && (s - base <? 1024).

Lemma unordered_block st acc s offset payload len :
  ra_ordered st = false -> uinv st acc -> sink_ok st -> payload_ok payload len -> 0 <= s < 2 ^ 64 - 1 ->
  let new := is_new acc (ra_unordered_low st) s in
  exists st', on_block st s offset payload len = Ok (st', if new then 1 else 0) /\
    uinv st' (arrived acc (ra_unordered_low st) s) /\
    ra_ordered st' = false /\ ra_sink_cap st' = ra_sink_cap st /\ ra_total_blocks st' = ra_total_blocks st /\
    ra_sink st' = if new then written (ra_sink st) (ra_sink_cap st) offset payload len else ra_sink st.
Proof.
  intros Ho U Hs Hp Hseq. pose proof (ui_ring _ _ U) as R. pose proof (rr_base _ _ _ R).
  unfold on_block. rewrite Ho. cbn [negb]. unfold is_new, arrived, kMaxWindow.
  destruct (decide (s ∈ acc)) as [Hin | Hnew].
  - rewrite (bool_decide_eq_false_2 (s ∉ acc)) by tauto. cbn [andb]. exists st. split_and!; try done.
    split_if; [done |]. pose proof (rr_range _ _ _ R _ Hin).
    rewrite seen_test, (ring_test_repr _ _ acc _ R) by lia. by rewrite bool_decide_eq_true_2.
  - rewrite (bool_decide_eq_true_2 (s ∉ acc)) by done. cbn [andb].
    assert (ra_unordered_low st <= s).
    { destruct (Z.lt_ge_cases s (ra_unordered_low st)); [| lia].
      exfalso. apply Hnew, (rr_below _ _ _ R). lia. }
    destruct (Z.leb_spec 1024 (s - ra_unordered_low st)).
    { destruct (Z.ltb_spec (s - ra_unordered_low st) 1024); [lia |]. exists st. split_and!; try done.
      by split_if; [| lia]. }
    destruct (Z.ltb_spec (s - ra_unordered_low st) 1024); [| lia].
    split_if; [lia |]. rewrite seen_test, (ring_test_repr _ _ acc _ R) by lia.
    rewrite bool_decide_eq_false_2 by done. cbn [negb]. rewrite seen_set.
    assert (forall t, t ∈ ({[s]} ∪ acc) -> t = s \/ t ∈ acc) as Hcase by set_solver.
    destruct (slide_low_correct window_fuel (ra_unordered_low st)
                (ring_set (ra_unordered_seen st) (s mod 1024)) ({[s]} ∪ acc)) as (low' & seen' & -> & R' & Hmex').
    { apply ring_set_repr; [done | lia]. }
    { intros t [-> | Ht]%Hcase; [lia | by apply (ui_max _ _ U)]. }
    { unfold window_fuel. intros t [-> | Ht%(rr_range _ _ _ R)]%Hcase; lia. }
    { unfold window_fuel. lia. }
    cbn [res_bind]. unfold deliver. rewrite write_sink_written by done. cbn [res_bind].
    eexists. split; [done |]. split_and!; try done. destruct (ui_order _ _ U) as [Hnd Hsub].
    pose proof (size_bound ({[s]} ∪ acc) (2 ^ 64 - 1)) as Hsize.
    split; cbn [record set_sink set_unordered ra_unordered_low ra_unordered_seen ra_delivered_count ra_delivery_order];
      try done.
    + intros t [-> | Ht]%Hcase; [lia | by apply (ui_max _ _ U)].
    + rewrite (ui_count _ _ U) in *. rewrite size_union by set_solver. rewrite size_singleton.
      rewrite size_union, size_singleton in Hsize by set_solver. rewrite u64_small; [lia |].
      unfold is_u64. split; [lia |]. apply Z.le_lt_trans with (2 ^ 64 - 1); [| lia].
      etrans; [| apply Hsize]; [lia | | lia].
      intros t [-> | Ht]%Hcase; [lia |]. pose proof (ui_max _ _ U _ Ht). pose proof (rr_range _ _ _ R _ Ht). lia.
    + split; [split_if; [| done] | intros t; split_if; intros Ht].
      * apply NoDup_app. split_and!; [done | | apply NoDup_singleton].
        intros t Ht%Hsub ->%list_elem_of_singleton. done.
      * apply elem_of_app in Ht as [Ht%Hsub | ->%list_elem_of_singleton]; set_solver.
      * apply Hsub in Ht. set_solver.
Qed.

(** ** Ordered streams *)

(** Block [s] sits in the reorder buffer. *)
Definition buffered (st : ReassemblyStream) (s : Z) : bool :=
  so_valid (slot_of st s) && (so_seq_no (slot_of st s) =? s).

(** The reorder buffer is exact from position [lo] on. *)
Record ocore (st : ReassemblyStream) (lo : Z) (acc : gset Z) : Prop := {
  oc_next : 0 <= ra_next_expected st;
  oc_below : forall s, 0 <= s < ra_next_expected st -> s ∈ acc;
  oc_range : forall s, s ∈ acc -> 0 <= s < ra_next_expected st + 1024;
  oc_max : forall s, s ∈ acc -> s < 2 ^ 64 - 1;
  oc_len : lenZ (ra_buffer st) = 1024;
  oc_buffered : forall s, lo <= s < ra_next_expected st + 1024 ->
    buffered st s = bool_decide (s ∈ acc);
  oc_stale : forall s, so_valid (slot_of st s) = true -> so_seq_no (slot_of st s) < ra_next_expected st + 1024;
  oc_count : ra_delivered_count st = ra_next_expected st;
  oc_order : ra_delivery_order st = seqZ 0 (Z.min (ra_next_expected st) kMaxDeliveryTrace);
}.

Definition oinv (st : ReassemblyStream) (acc : gset Z) : Prop :=
  ocore st (ra_next_expected st) acc /\ ra_next_expected st ∉ acc.

Lemma ocore_mono st lo lo' acc : ocore st lo acc -> lo <= lo' -> ocore st lo' acc.
Proof. intros C Hlo. split; try apply C. intros s Hs. apply (oc_buffered _ _ _ C). lia. Qed.

Lemma slot_setZ st next l s t sl :
  ra_buffer st = l -> lenZ l = 1024 ->
  slot_of (set_next st next (setZ l (s mod kMaxWindow) sl)) t =
  if s mod 1024 =? t mod 1024 then sl else slot_of st t.
Proof.
  intros <- Hl. unfold slot_of, set_next, kMaxWindow, setZ. cbn [ra_buffer]. rewrite !nth_lookup.
  assert (0 <= s mod 1024 < 1024) by mlia. assert (0 <= t mod 1024 < 1024) by mlia. unfold lenZ in Hl.
  destruct (Z.eqb_spec (s mod 1024) (t mod 1024)) as [-> | Hne].
  - by rewrite list_lookup_insert_eq by lia.
  - by rewrite list_lookup_insert_ne by lia.
Qed.

Lemma order_snoc n :
  0 <= n ->
  (if lenZ (seqZ 0 (Z.min n kMaxDeliveryTrace)) <? kMaxDeliveryTrace
   then seqZ 0 (Z.min n kMaxDeliveryTrace) ++ [n] else seqZ 0 (Z.min n kMaxDeliveryTrace)) =
  seqZ 0 (Z.min (n + 1) kMaxDeliveryTrace).
Proof.
  intros Hn. unfold kMaxDeliveryTrace, lenZ. rewrite length_seqZ. split_if.
  - rewrite !Z.min_l by lia. rewrite (seqZ_app 0 n 1) by lia. done.
  - by rewrite !Z.min_r by lia.
Qed.

(** Stepping the next expected block over one that has arrived, whose slot is
    empty afterwards. *)
Lemma step_next st acc buf' :
  ocore st (ra_next_expected st + 1) acc -> ra_next_expected st ∈ acc -> lenZ buf' = 1024 ->
  (forall t, t mod 1024 <> ra_next_expected st mod 1024 ->
     slot_of (set_next st 0 buf') t = slot_of st t) ->
  (forall t, t mod 1024 = ra_next_expected st mod 1024 ->
     so_valid (slot_of (set_next st 0 buf') t) = true ->
     so_seq_no (slot_of (set_next st 0 buf') t) < ra_next_expected st + 1024) ->
  ocore (set_next (record st (ra_next_expected st)) (u64 (ra_next_expected st + 1)) buf')
    (ra_next_expected st + 1) acc.
Proof.
  intros C Hin Hl Hsame Hcleared. pose proof (oc_next _ _ _ C). pose proof (oc_max _ _ _ C _ Hin) as Hmax.
  set (n := ra_next_expected st) in *.
  assert (u64 (n + 1) = n + 1) as Hn by (apply u64_small; unfold is_u64; lia).
  assert (forall m t, slot_of (set_next (record st n) m buf') t = slot_of (set_next st 0 buf') t)
    as Hslot by done.
  split; cbn [set_next record ra_next_expected ra_buffer ra_delivered_count ra_delivery_order]; rewrite ?Hn.
  - lia.
  - intros s Hs. destruct (Z.eq_dec s n) as [-> |]; [done |]. apply (oc_below _ _ _ C). lia.
  - intros s Hs%(oc_range _ _ _ C). lia.
  - apply C.
  - done.
  - intros s Hs. unfold buffered. rewrite Hslot.
    destruct (Z.eq_dec s (n + 1024)) as [-> | Hne].
    + rewrite bool_decide_eq_false_2 by (intros ?%(oc_range _ _ _ C); lia).
      destruct (so_valid _) eqn:Hv; [| done]. apply Z.eqb_neq.
      pose proof (Hcleared (n + 1024) ltac:(mlia) Hv). lia.
    + rewrite Hsame by (intros ?; apply Hne; mlia). apply (oc_buffered _ _ _ C). lia.
  - intros s Hv. rewrite Hslot in *. destruct (Z.eq_dec (s mod 1024) (n mod 1024)) as [E | E].
    + pose proof (Hcleared s E Hv). lia.
    + rewrite Hsame in Hv |- * by done. pose proof (oc_stale _ _ _ C s Hv). lia.
  - rewrite (oc_count _ _ _ C). done.
  - rewrite (oc_order _ _ _ C). fold n. apply order_snoc. lia.
Qed.

Lemma drain_correct fuel st acc k :
  ocore st (ra_next_expected st) acc -> (forall s, s ∈ acc -> s < ra_next_expected st + Z.of_nat fuel - 1) -> (0 < fuel)%nat ->
  0 <= k -> k + Z.of_nat fuel < 2 ^ 32 ->
  exists st', drain fuel st k = Ok (st', k + (ra_next_expected st' - ra_next_expected st)) /\
    oinv st' acc /\ ra_ordered st' = ra_ordered st /\ ra_sink st' = ra_sink st /\
    ra_sink_cap st' = ra_sink_cap st /\ ra_total_blocks st' = ra_total_blocks st.
Proof.
  revert st k. induction fuel as [| fuel IH]; intros st k C Hhi Hf Hk Hk2; [lia |].
  cbn [drain]. pose proof (oc_buffered _ _ _ C (ra_next_expected st) ltac:(lia)) as Hbuf.
  pose proof (oc_next _ _ _ C).
  assert (negb (so_valid (slot_of st (ra_next_expected st))) ||
          negb (so_seq_no (slot_of st (ra_next_expected st)) =? ra_next_expected st) =
          negb (bool_decide (ra_next_expected st ∈ acc))) as ->.
  { rewrite <- Hbuf. unfold buffered. by rewrite negb_andb. }
  destruct (bool_decide_reflect (ra_next_expected st ∈ acc)) as [Hin | Hout]; cbn [negb].
  - unfold buffered in Hbuf. apply andb_prop in Hbuf as [Hv Hs%Z.eqb_eq]. rewrite Hs.
    pose proof (oc_max _ _ _ C _ Hin) as Hmax. pose proof (Hhi _ Hin).
    assert (u64 (ra_next_expected st + 1) = ra_next_expected st + 1) as Hn
      by (apply u64_small; unfold is_u64; lia).
    rewrite u32_small by (unfold is_u32; lia).
    set (buf' := setZ _ _ _).
    assert (ocore (set_next (record st (ra_next_expected st)) (u64 (ra_next_expected st + 1)) buf')
              (ra_next_expected st + 1) acc) as C'.
    { apply step_next; [by apply (ocore_mono _ (ra_next_expected st)); [| lia] | done | subst buf'; rewrite lenZ_setZ; apply C | |].
      - intros t Ht. subst buf'. rewrite slot_setZ; [| done | apply C].
        destruct (Z.eqb_spec (ra_next_expected st mod 1024) (t mod 1024)); [congruence | done].
      - intros t Ht. subst buf'. rewrite slot_setZ; [| done | apply C]. by rewrite Ht, Z.eqb_refl. }
    rewrite <- Hn in C' at 2. destruct (IH _ (k + 1) C') as (st' & E & I & F); cbn [set_next ra_next_expected] in *; rewrite ?Hn in *;
      [intros s Hs'%Hhi; lia | lia | lia | lia |].
    exists st'. rewrite E. split; [do 2 f_equal; lia | done].
  - exists st. split_and!; try done. do 2 f_equal. lia.
Qed.

(** Buffering a block ahead of the next expected one. *)
Lemma buffer_block st acc s len :
  oinv st acc -> s ∉ acc -> ra_next_expected st < s < ra_next_expected st + 1024 -> s < 2 ^ 64 - 1 ->
  oinv (set_next st (ra_next_expected st)
          (setZ (ra_buffer st) (s mod kMaxWindow) (mkSlot s len true))) ({[s]} ∪ acc).
Proof.
  intros [C Hmex] Hnew Hs Hmax.
  assert (forall t, t ∈ ({[s]} ∪ acc) -> t = s \/ t ∈ acc) as Hcase by set_solver.
  assert (forall t, ra_next_expected st <= t < ra_next_expected st + 1024 ->
    buffered (set_next st (ra_next_expected st) (setZ (ra_buffer st) (s mod kMaxWindow) (mkSlot s len true))) t =
    bool_decide (t ∈ {[s]} ∪ acc)) as Hbuf.
  { intros t Ht. unfold buffered. rewrite slot_setZ; [| done | apply C].
    rewrite (slot_eqb (ra_next_expected st)) by lia. destruct (Z.eqb_spec s t) as [-> | Hne].
    - cbn [so_valid so_seq_no]. rewrite Z.eqb_refl. symmetry. apply bool_decide_eq_true. set_solver.
    - pose proof (oc_buffered _ _ _ C t Ht) as H. unfold buffered in H. rewrite H.
      apply bool_decide_ext. set_solver. }
  split; [split |]; cbn [set_next ra_next_expected ra_buffer ra_delivered_count ra_delivery_order]; try apply C.
  - intros t Ht. apply elem_of_union_r. by apply (oc_below _ _ _ C).
  - pose proof (oc_next _ _ _ C). intros t [-> | Ht]%Hcase; [lia | by apply (oc_range _ _ _ C)].
  - intros t [-> | Ht]%Hcase; [done | by apply (oc_max _ _ _ C)].
  - rewrite lenZ_setZ. apply C.
  - done.
  - intros t. rewrite slot_setZ; [| done | apply C]. split_if; [intros _; cbn; lia |]. apply (oc_stale _ _ _ C).
  - intros [? | ?]%Hcase; [lia | done].
Qed.

(** Delivering the next expected block, before the drain. *)
Lemma deliver_next st acc :
  oinv st acc -> ra_next_expected st < 2 ^ 64 - 1 ->
  ocore (set_next (record st (ra_next_expected st)) (u64 (ra_next_expected st + 1)) (ra_buffer st))
    (ra_next_expected st + 1) ({[ra_next_expected st]} ∪ acc).
Proof.
  intros [C Hmex] Hmax. pose proof (oc_next _ _ _ C).
  assert (forall t, t ∈ ({[ra_next_expected st]} ∪ acc) -> t = ra_next_expected st \/ t ∈ acc) as Hcase by set_solver.
  assert (forall t, slot_of (set_next st 0 (ra_buffer st)) t = slot_of st t) as Hslot by done.
  apply step_next; [| set_solver | apply C | done |].
  - split; try apply C.
    + intros t Ht. apply elem_of_union_r. by apply (oc_below _ _ _ C).
    + intros t [-> | Ht]%Hcase; [lia | by apply (oc_range _ _ _ C)].
    + intros t [-> | Ht]%Hcase; [done | by apply (oc_max _ _ _ C)].
    + intros t Ht. rewrite (oc_buffered _ _ _ C) by lia. apply bool_decide_ext.
      assert (t <> ra_next_expected st) by lia. set_solver.
  - intros t _. rewrite Hslot. apply (oc_stale _ _ _ C).
Qed.

Lemma ordered_block st acc s offset payload len :
  ra_ordered st = true -> oinv st acc -> sink_ok st -> payload_ok payload len -> 0 <= s < 2 ^ 64 - 1 ->
  let new := is_new acc (ra_next_expected st) s in
  exists st', on_block st s offset payload len =
      Ok (st', ra_next_expected st' - ra_next_expected st) /\
    oinv st' (arrived acc (ra_next_expected st) s) /\
    ra_ordered st' = true /\ ra_sink_cap st' = ra_sink_cap st /\ ra_total_blocks st' = ra_total_blocks st /\
    ra_sink st' = if new then written (ra_sink st) (ra_sink_cap st) offset payload len else ra_sink st.
Proof.
  intros Ho [C Hmex] Hs Hp Hseq. unfold on_block. rewrite Ho. cbn [negb]. unfold is_new, arrived, kMaxWindow.
  pose proof (oc_next _ _ _ C).
  assert (forall st0 : ReassemblyStream, ra_next_expected st0 - ra_next_expected st0 = 0) as Hz by (intros; lia).
  destruct (Z.ltb_spec s (ra_next_expected st)).
  { assert (s ∈ acc) by (apply (oc_below _ _ _ C); lia). exists st. rewrite Hz.
    rewrite decide_True, (bool_decide_eq_false_2 (s ∉ acc)) by tauto. by split_and!. }
  destruct (Z.ltb_spec (ra_next_expected st) s).
  - destruct (Z.ltb_spec (s - ra_next_expected st) 1024) as [Hrel | Hrel].
    + pose proof (oc_buffered _ _ _ C s ltac:(lia)) as Hbuf. unfold buffered in Hbuf.
      rewrite <- negb_andb, Hbuf. destruct (decide (s ∈ acc)) as [Hin | Hnew].
      { rewrite bool_decide_eq_true_2, (bool_decide_eq_false_2 (s ∉ acc)) by tauto. exists st. rewrite Hz.
        by split_and!. }
      rewrite bool_decide_eq_false_2, (bool_decide_eq_true_2 (s ∉ acc)) by done. cbn [negb andb].
      destruct (Z.leb_spec 1024 (s - ra_next_expected st)); [lia |].
      rewrite write_sink_written by done. cbn [res_bind]. set (st1 := set_sink st _).
      exists (set_next st1 (ra_next_expected st1)
                (setZ (ra_buffer st1) (s mod kMaxWindow) (mkSlot s len true))).
      split; [by rewrite <- (Hz st) |]. split; [| done].
      apply (buffer_block st1 acc s len); [| done | cbn; lia | lia]. split; [| done]. split; apply C.
    + assert (s ∉ acc) by (intros ?%(oc_range _ _ _ C); lia). exists st. rewrite Hz.
      rewrite decide_False, (bool_decide_eq_true_2 (s ∉ acc)) by done.
      destruct (Z.leb_spec 1024 (s - ra_next_expected st)); [by split_and! | lia].
  - assert (s = ra_next_expected st) as -> by lia. rewrite decide_False by done.
    rewrite (bool_decide_eq_true_2 (_ ∉ acc)), Z.sub_diag by done. cbn [andb Z.ltb Z.compare Z.leb].
    unfold deliver. rewrite write_sink_written by done. cbn [res_bind]. set (st1 := set_sink st _).
    assert (oinv st1 acc) as I1 by (split; [split; apply C | done]).
    pose proof (deliver_next st1 acc I1 ltac:(cbn; lia)) as C'.
    set (st2 := set_next _ _ _). change (set_next _ _ _) with st2 in C'.
    assert (ra_next_expected st2 = ra_next_expected st + 1) as Hn2
      by (apply u64_small; unfold is_u64; lia).
    change (ra_next_expected st1 + 1) with (ra_next_expected st + 1) in C'. rewrite <- Hn2 in C'.
    destruct (drain_correct window_fuel st2 _ 1 C') as (st' & E & I & F1 & F2 & F3 & F4);
      [| unfold window_fuel; lia .. |].
    { intros t Ht%(oc_range _ _ _ C'). unfold window_fuel. lia. }
    exists st'. rewrite E, Hn2. split; [do 2 f_equal; lia |]. split; [done |].
    rewrite F1, F2, F3, F4. split_and!; done.
Qed.

(** ** Both kinds of stream *)

(** The first block that has not arrived. *)
Definition stream_base (st : ReassemblyStream) : Z :=
  if ra_ordered st then ra_next_expected st else ra_unordered_low st.

Definition rainv (st : ReassemblyStream) (acc : gset Z) : Prop :=
  (if ra_ordered st then oinv st acc else uinv st acc) /\ sink_ok st.

Lemma new_reassembly_inv config sink cap total :
  match sink with Some b => lenZ b = cap | None => True end ->
  rainv (new_reassembly config sink cap total) ∅.
Proof.
  intros Hsink. split; [| done]. unfold new_reassembly. cbn [ra_ordered].
  assert (forall st s, ra_buffer st = replicate (Z.to_nat kMaxWindow) (mkSlot 0 0 false) ->
            so_valid (slot_of st s) = false) as Hslot.
  { intros st s E. unfold slot_of. rewrite E, nth_lookup.
    destruct (replicate _ _ !! _) as [x |] eqn:El; [| done]. by apply lookup_replicate in El as [-> _]. }
  destruct (negb _).
  - split; [| apply not_elem_of_empty]. split; cbn [ra_next_expected ra_buffer ra_delivered_count ra_delivery_order];
      try done; try lia.
    + intros s Hs. unfold buffered. by rewrite Hslot.
    + intros s. by rewrite Hslot.
  - split; cbn; try done; [apply ring_repr_empty |].
    split; [apply NoDup_nil_2 | by intros ? ?%elem_of_nil].
Qed.

Lemma on_block_correct st acc s offset payload len :
  rainv st acc -> payload_ok payload len -> 0 <= offset -> 0 <= s < 2 ^ 64 - 1 ->
  exists st' k, on_block st s offset payload len = Ok (st', k) /\
    rainv st' (arrived acc (stream_base st) s) /\
    ra_ordered st' = ra_ordered st /\ ra_sink_cap st' = ra_sink_cap st /\
    ra_total_blocks st' = ra_total_blocks st /\
    k = ra_delivered_count st' - ra_delivered_count st /\
    ra_sink st' = if is_new acc (stream_base st) s
                  then written (ra_sink st) (ra_sink_cap st) offset payload len else ra_sink st.
Proof.
  intros [I Hs] Hp Hoff Hseq. unfold stream_base. destruct (ra_ordered st) eqn:Ho.
  - destruct (ordered_block st acc s offset payload len Ho I Hs Hp Hseq) as (st' & E & I' & Ho' & Hc & Ht & Hsink).
    exists st', (ra_next_expected st' - ra_next_expected st). split_and!; try done.
    + split; [by rewrite Ho' |]. unfold sink_ok. rewrite Hsink, Hc.
      split_if; [by apply written_ok | done].
    + by rewrite (oc_count _ _ _ (proj1 I')), (oc_count _ _ _ (proj1 I)).
  - destruct (unordered_block st acc s offset payload len Ho I Hs Hp Hseq) as (st' & E & I' & Ho' & Hc & Ht & Hsink).
    eexists st', _. split; [exact E |]. split_and!; try done.
    + split; [by rewrite Ho' |]. unfold sink_ok. rewrite Hsink, Hc. split_if; [by apply written_ok | done].
    + rewrite (ui_count _ _ I), (ui_count _ _ I'). unfold is_new, arrived.
      destruct (decide (s ∈ acc)) as [Hin | Hnew].
      * rewrite (bool_decide_eq_false_2 (s ∉ acc)) by tauto. cbn [andb]. lia.
      * rewrite (bool_decide_eq_true_2 (s ∉ acc)) by done. cbn [andb].
        destruct (Z.leb_spec 1024 (s - ra_unordered_low st)), (Z.ltb_spec (s - ra_unordered_low st) 1024); try lia.
        rewrite size_union, size_singleton by set_solver. lia.
Qed.

Lemma rainv_mex st acc : rainv st acc -> is_mex (stream_base st) acc /\ 0 <= stream_base st.
Proof.
  intros [I _]. unfold stream_base. destruct (ra_ordered st).
  - destruct I as [C Hm]. split; [split; [done | apply C] | apply C].
  - split; [split; [apply I | apply (ui_ring _ _ I)] | apply (ui_ring _ _ I)].
Qed.

(** A stream is complete exactly when all its blocks have arrived. *)
Lemma is_complete_iff st acc :
  rainv st acc -> 0 < ra_total_blocks st -> (forall s, s ∈ acc -> 0 <= s < ra_total_blocks st) ->
  is_complete st = true <-> forall s, 0 <= s < ra_total_blocks st -> s ∈ acc.
Proof.
  intros I Ht Hacc. destruct (rainv_mex st acc I) as [[Hm Hb] Hpos]. unfold is_complete.
  destruct (Z.eqb_spec (ra_total_blocks st) 0); [lia |]. cbn [negb andb]. rewrite Z.eqb_eq.
  set (total := ra_total_blocks st) in *.
  set (full := list_to_set (seqZ 0 total) : gset Z).
  assert (forall s, s ∈ full <-> 0 <= s < total) as Hfull
    by (intros s; unfold full; rewrite elem_of_list_to_set, elem_of_seqZ; lia).
  assert (Z.of_nat (size full) = total) as Hsize
    by (unfold full; rewrite size_list_to_set by apply NoDup_seqZ; rewrite length_seqZ; lia).
  destruct I as [I _]. unfold stream_base in *. destruct (ra_ordered st).
  - rewrite (oc_count _ _ _ (proj1 I)). split.
    + intros E s Hs. apply Hb. lia.
    + intros Hall. destruct (Z.lt_trichotomy (ra_next_expected st) total) as [Hlt | [? | Hgt]]; [| done |].
      * exfalso. apply Hm, Hall. lia.
      * pose proof (Hacc total ltac:(apply Hb; lia)). lia.
  - rewrite (ui_count _ _ I). assert (acc ⊆ full) as Hsub by (intros s Hs%Hacc; by apply Hfull). split.
    + intros E s Hs%Hfull. assert (acc ≡ full) as Heq; [| by rewrite Heq].
      apply set_subseteq_size_equiv; [done | lia].
    + intros Hall. replace acc with full; [done |]. apply set_eq. intros s. split; [by intros ?%Hfull%Hall | apply Hsub].
Qed.

(** ** Reproducing the source *)

Section Source.

(** A source cut into blocks: block [s] is [blen s] bytes at [boff s]. *)
Context (src : bytes) (boff blen : Z -> Z) (total : Z).
Hypothesis total_range : 0 < total < 2 ^ 64 - 1.
Hypothesis blocks_inside : forall s, 0 <= s < total ->
  0 <= boff s /\ 0 < blen s /\ boff s + blen s <= lenZ src.

Definition block_payload (s : Z) : bytes := slice src (boff s) (blen s).

Fixpoint feed (st : ReassemblyStream) (arrivals : list Z) : res ReassemblyStream :=
  match arrivals with
  | [] => Ok st
  | s :: arrivals =>
      res_bind (on_block st s (boff s) (Some (block_payload s)) (blen s)) (fun '(st, _) => feed st arrivals)
  end.

(** The sink agrees with the source wherever a block has arrived. *)
Definition reproduces (sink : bytes) (acc : gset Z) : Prop :=
  lenZ sink = lenZ src /\
  forall s i, s ∈ acc -> boff s <= Z.of_nat i < boff s + blen s -> sink !! i = src !! i.

Lemma write_reproduces sink acc s :
  reproduces sink acc -> 0 <= s < total ->
  exists sink', written (Some sink) (lenZ src) (boff s) (Some (block_payload s)) (blen s) = Some sink' /\
    reproduces sink' ({[s]} ∪ acc).
Proof.
  intros [Hl Hsame] Hs. destruct (blocks_inside s Hs) as (Ho & Hb & Hin). cbn [written].
  split_if; [| exfalso; destruct Hif as [[Hif | Hif]%andb_false_iff | Hif]; bool_hyps; lia].
  assert (take (Z.to_nat (blen s)) (block_payload s) = block_payload s) as ->.
  { apply take_ge. pose proof (lenZ_slice src (boff s) (blen s)) as Hsl. unfold lenZ, block_payload in *. lia. }
  assert (lenZ (block_payload s) = blen s) as Hpl by (apply lenZ_slice; lia).
  eexists. split; [done |]. split; [rewrite splice_length; lia |].
  intros t i Ht Hi. rewrite splice_lookup by lia. rewrite Hpl.
  destruct (Z.leb_spec (boff s) (Z.of_nat i)), (Z.ltb_spec (Z.of_nat i) (boff s + blen s)); cbn [andb].
  - unfold block_payload. rewrite slice_lookup by lia. f_equal. lia.
  - apply elem_of_union in Ht as [->%elem_of_singleton | Ht]; [lia | by eapply Hsame].
  - apply elem_of_union in Ht as [->%elem_of_singleton | Ht]; [lia | by eapply Hsame].
  - apply elem_of_union in Ht as [->%elem_of_singleton | Ht]; [lia | by eapply Hsame].
Qed.

Lemma feed_correct arrivals st acc sink :
  rainv st acc -> ra_sink st = Some sink -> ra_sink_cap st = lenZ src -> ra_total_blocks st = total ->
  reproduces sink acc -> (forall s, s ∈ acc -> 0 <= s < total) ->
  (forall s, s ∈ arrivals -> 0 <= s < total) ->
  exists st' acc' sink', feed st arrivals = Ok st' /\ rainv st' acc' /\ ra_sink st' = Some sink' /\
    ra_total_blocks st' = total /\ reproduces sink' acc' /\ (forall s, s ∈ acc' -> 0 <= s < total) /\
    (total <= 1024 -> forall s, s ∈ acc \/ s ∈ arrivals -> s ∈ acc').
Proof.
  revert st acc sink. induction arrivals as [| s arrivals IH]; intros st acc sink I Hsink Hcap Htot Hrep Hacc Harr.
  { exists st, acc, sink. split_and!; try done. intros _ s [? | []%elem_of_nil]; done. }
  pose proof (Harr s ltac:(by left)) as Hs. destruct (blocks_inside s Hs) as (Ho & Hb & Hin).
  cbn [feed]. destruct (on_block_correct st acc s (boff s) (Some (block_payload s)) (blen s)) as
    (st1 & k & -> & I1 & Hord & Hcap1 & Htot1 & _ & Hsink1); [done | | lia | lia |].
  { cbn. unfold block_payload. rewrite lenZ_slice by lia. lia. }
  cbn [res_bind]. rewrite Hsink, Hcap in Hsink1.
  assert (exists sink1, ra_sink st1 = Some sink1 /\ reproduces sink1 (arrived acc (stream_base st) s)) as (sink1 & E1 & Hrep1).
  { unfold is_new, arrived in *. destruct (decide (s ∈ acc)) as [Hi | Hn].
    - rewrite (bool_decide_eq_false_2 (s ∉ acc)) in Hsink1 by tauto. by exists sink.
    - rewrite (bool_decide_eq_true_2 (s ∉ acc)) in Hsink1 by done. cbn [andb] in Hsink1.
      destruct (Z.leb_spec 1024 (s - stream_base st)), (Z.ltb_spec (s - stream_base st) 1024); try lia.
      + by exists sink.
      + destruct (write_reproduces sink acc s Hrep Hs) as (sink1 & E & Hr). exists sink1. by rewrite Hsink1. }
  destruct (IH st1 _ sink1 I1 E1) as (st' & acc' & sink' & E & I' & H1 & H2 & H3 & H4 & H5);
    [congruence | congruence | done | | intros; apply Harr; by right |].
  { intros t. unfold arrived. destruct (decide (s ∈ acc)); [apply Hacc |]. destruct (1024 <=? _); [apply Hacc |].
    intros [->%elem_of_singleton | Ht]%elem_of_union; [done | by apply Hacc]. }
  exists st', acc', sink'. split_and!; try done. intros Hsmall t Ht. apply H5; [done |].
  pose proof (proj2 (rainv_mex st acc I)). unfold arrived. destruct (decide (s ∈ acc)) as [Hi | Hn].
  - rewrite elem_of_cons in Ht. destruct Ht as [? | [-> | ?]]; tauto.
  - destruct (Z.leb_spec 1024 (s - stream_base st)); [lia |]. rewrite elem_of_cons in Ht. set_solver.
Qed.

(** When the blocks that have arrived cover the source, the sink is the source. *)
Lemma reproduces_all sink acc :
  reproduces sink acc -> (forall i, 0 <= i < lenZ src -> exists s, s ∈ acc /\ boff s <= i < boff s + blen s) ->
  sink = src.
Proof.
  intros [Hl Hsame] Hcov. apply list_eq. intros i. destruct (Z.lt_ge_cases (Z.of_nat i) (lenZ src)).
  - destruct (Hcov (Z.of_nat i)) as (s & Hs & Hi); [lia |]. by eapply Hsame.
  - rewrite !lookup_ge_None_2; [done | unfold lenZ in *; lia ..].
Qed.

End Source.

(** [on_block] counts each block once: a block that has arrived before, or lies
    a whole window past the first missing one, changes nothing; any other joins
    the set of arrived blocks and its bytes go to their offset in the sink.  An
    ordered stream surfaces blocks strictly in the order 0, 1, 2, ..., up to the
    first one missing; an unordered one surfaces each block when it arrives, none
    twice. The loops terminate and no copy leaves the sink. *)
Theorem on_block_exactly_once st acc s offset payload len :
  rainv st acc -> payload_ok payload len -> 0 <= offset -> 0 <= s < 2 ^ 64 - 1 ->
  exists st' k, on_block st s offset payload len = Ok (st', k) /\
    rainv st' (arrived acc (stream_base st) s) /\
    is_mex (stream_base st') (arrived acc (stream_base st) s) /\
    k = ra_delivered_count st' - ra_delivered_count st /\
    ra_sink st' = (if is_new acc (stream_base st) s
                   then written (ra_sink st) (ra_sink_cap st) offset payload len else ra_sink st) /\
    (if ra_ordered st
     then ra_delivered_count st' = stream_base st' /\
          ra_delivery_order st' = seqZ 0 (Z.min (stream_base st') kMaxDeliveryTrace)
     else ra_delivered_count st' = Z.of_nat (size (arrived acc (stream_base st) s)) /\
          NoDup (ra_delivery_order st')).
Proof.
  intros I Hp Ho Hs. destruct (on_block_correct st acc s offset payload len I Hp Ho Hs)
    as (st' & k & E & I' & Hord & _ & _ & Hk & Hsink).
  exists st', k. split_and!; try done; [by apply rainv_mex |].
  assert (stream_base st' = if ra_ordered st' then ra_next_expected st' else ra_unordered_low st') as -> by done.
  destruct I' as [I' _]. rewrite Hord in *.
  destruct (ra_ordered st); [destruct I' as [I' _] |]; split; apply I'.
Qed.

Definition ordered_config : StreamConfig := mkStreamConfig 1 0 kStreamFlagOrdered 2 8.

Lemma on_block_exactly_once_witness :
  let st := new_reassembly ordered_config (Some [0; 0; 0; 0]) 4 2 in
  exists st' k, on_block st 1 2 (Some [7; 8]) 2 = Ok (st', k) /\
    rainv st' (arrived ∅ (stream_base st) 1) /\ is_mex (stream_base st') (arrived ∅ (stream_base st) 1) /\
    k = ra_delivered_count st' - ra_delivered_count st /\
    ra_sink st' = (if is_new ∅ (stream_base st) 1
                   then written (ra_sink st) (ra_sink_cap st) 2 (Some [7; 8]) 2 else ra_sink st) /\
    (if ra_ordered st
     then ra_delivered_count st' = stream_base st' /\
          ra_delivery_order st' = seqZ 0 (Z.min (stream_base st') kMaxDeliveryTrace)
     else ra_delivered_count st' = Z.of_nat (size (arrived ∅ (stream_base st) 1)) /\
          NoDup (ra_delivery_order st')).
Proof.
  apply (on_block_exactly_once (new_reassembly ordered_config (Some [0; 0; 0; 0]) 4 2) ∅ 1 2 (Some [7; 8]) 2);
    [by apply new_reassembly_inv | done | lia | lia].
Defined.

(** C23: A complete stream has reproduced its source: feed the blocks of a source in
    any order, with any duplicates and gaps, to an ordered or unordered stream;
    nothing is written outside the sink, and once [is_complete] reports true
    the sink holds the source byte for byte.  A transfer of at most a window of
    blocks is complete as soon as every block has arrived. *)
Theorem complete_stream_reproduces_source config src boff blen total sink arrivals :
  0 < total < 2 ^ 64 - 1 ->
  (forall s, 0 <= s < total -> 0 <= boff s /\ 0 < blen s /\ boff s + blen s <= lenZ src) ->
  lenZ sink = lenZ src -> (forall s, s ∈ arrivals -> 0 <= s < total) ->
  (forall i, 0 <= i < lenZ src -> exists s, 0 <= s < total /\ boff s <= i < boff s + blen s) ->
  exists st, feed src boff blen (new_reassembly config (Some sink) (lenZ src) total) arrivals = Ok st /\
    (is_complete st = true -> ra_sink st = Some src) /\
    (total <= 1024 -> (forall s, 0 <= s < total -> s ∈ arrivals) -> is_complete st = true).
Proof.
  intros Ht Hin Hl Harr Hcov.
  assert (reproduces src boff blen sink ∅) as Hrep by (split; [done | set_solver]).
  destruct (feed_correct src boff blen total Ht Hin arrivals
    (new_reassembly config (Some sink) (lenZ src) total) ∅ sink) as (st & acc & sink' & E & I & H1 & H2 & H3 & H4 & H5);
    try done; [by apply new_reassembly_inv | ].
  pose proof (is_complete_iff st acc I) as Hiff. rewrite H2 in Hiff. specialize (Hiff ltac:(lia) H4).
  exists st. split_and!; [done | intros Hc | intros Hsmall Hall].
  - rewrite H1. f_equal. eapply reproduces_all; [done |]. intros i Hi. destruct (Hcov i Hi) as (s & Hs & Hr).
    exists s. split; [by apply Hiff | done].
  - apply Hiff. intros s Hs. apply H5; [done |]. right. by apply Hall.
Qed.

Lemma complete_stream_reproduces_source_witness :
  exists st, feed [5; 6; 7; 8] (fun s => 2 * s) (fun _ => 2)
      (new_reassembly ordered_config (Some [0; 0; 0; 0]) 4 2) [1; 1; 0] = Ok st /\
    (is_complete st = true -> ra_sink st = Some [5; 6; 7; 8]) /\
    (2 <= 1024 -> (forall s, 0 <= s < 2 -> s ∈ [1; 1; 0]) -> is_complete st = true).
Proof.
  apply (complete_stream_reproduces_source ordered_config [5; 6; 7; 8] (fun s => 2 * s) (fun _ => 2) 2
           [0; 0; 0; 0] [1; 1; 0]); [lia | | done | |].
  - intros s Hs. change (lenZ [5; 6; 7; 8]) with 4. lia.
  - intros s Hs. repeat (apply elem_of_cons in Hs as [-> | Hs]; [lia |]). by apply elem_of_nil in Hs.
  - intros i Hi. change (lenZ [5; 6; 7; 8]) with 4 in Hi. exists (i / 2). mlia.
Defined.
