(* ===== verification/Congestion.v ===== *)
(** * Congestion control

    Models [src/include/fuse/proto/congestion.hpp]: the per-stream AIMD window
    with optional slow start, the smoothed RTT estimate, the retransmission
    timeout with backoff, and the epoch loop of [poll].  The theorems bound the
    window and the machine arithmetic over every history of events, give the exact
    number of epochs [poll] applies and what they do to the window, and the exact
    timeout.  [pacing_interval_ns] is not modelled: it rounds in the platform's
    [long double]. *)

From S2P Require Import Prelude.

Open Scope Z_scope.

(** ** Definitions *)

Definition kMaxEcho : Z := 60000000000.

(** [rtt_sample_from_echo] *)
Definition rtt_sample_from_echo (wire_now echoed : Z) : Z :=
  let d := u64 (wire_now - echoed) in
  if d <? kMaxEcho then d else 0.

Definition kMaxBackoff : Z := 6.

Record CongestionController := mkController {
  cg_enabled : bool;
  cg_clean_windows_to_grow : Z;
  cg_grow_step : Z;
  cg_max_window : Z;
  cg_floor : Z;
  cg_window : Z;
  cg_clean_streak : Z;
  cg_srtt_ns : Z;
  cg_rttvar_ns : Z;
  cg_backoff : Z;
  cg_window_start_ns : Z;
  cg_loss_in_window : bool;
  cg_slow_start : bool;
}.

Definition new_controller (max_window : Z) (enabled : bool) (clean_windows_to_grow grow_step : Z) : CongestionController :=
  let max := if max_window <? 1 then 1 else max_window in
  let floor := if max <? 2 then max else 2 in
  let start := max / 8 in
  let window := if negb enabled then max else if start <? floor then floor else start in
  mkController enabled clean_windows_to_grow grow_step max floor window 0 0 0 0 0 false false.

(** The AIMD part of the state: what an epoch changes. *)
Definition set_window (c : CongestionController) (window streak : Z) (slow loss : bool) : CongestionController :=
  mkController (cg_enabled c) (cg_clean_windows_to_grow c) (cg_grow_step c) (cg_max_window c) (cg_floor c)
    window streak (cg_srtt_ns c) (cg_rttvar_ns c) (cg_backoff c) (cg_window_start_ns c) loss slow.

Definition set_rtt (c : CongestionController) (srtt rttvar : Z) : CongestionController :=
  mkController (cg_enabled c) (cg_clean_windows_to_grow c) (cg_grow_step c) (cg_max_window c) (cg_floor c)
    (cg_window c) (cg_clean_streak c) srtt rttvar (cg_backoff c) (cg_window_start_ns c)
    (cg_loss_in_window c) (cg_slow_start c).

Definition set_backoff (c : CongestionController) (backoff : Z) : CongestionController :=
  mkController (cg_enabled c) (cg_clean_windows_to_grow c) (cg_grow_step c) (cg_max_window c) (cg_floor c)
    (cg_window c) (cg_clean_streak c) (cg_srtt_ns c) (cg_rttvar_ns c) backoff (cg_window_start_ns c)
    (cg_loss_in_window c) (cg_slow_start c).

Definition set_window_start (c : CongestionController) (start : Z) : CongestionController :=
  mkController (cg_enabled c) (cg_clean_windows_to_grow c) (cg_grow_step c) (cg_max_window c) (cg_floor c)
    (cg_window c) (cg_clean_streak c) (cg_srtt_ns c) (cg_rttvar_ns c) (cg_backoff c) start
    (cg_loss_in_window c) (cg_slow_start c).

Definition enable_slow_start (c : CongestionController) (initial : Z) : CongestionController :=
  if negb (cg_enabled c) then c
  else set_window c
         (if initial <? cg_floor c then cg_floor c
          else if cg_max_window c <? initial then cg_max_window c else initial)
         (cg_clean_streak c) true (cg_loss_in_window c).

Definition on_rtt_sample (c : CongestionController) (sample_ns : Z) : CongestionController :=
  if negb (cg_enabled c) || (sample_ns =? 0) then c
  else if cg_srtt_ns c =? 0 then set_rtt c sample_ns (sample_ns / 2)
  else
    let dev := if sample_ns <? cg_srtt_ns c then cg_srtt_ns c - sample_ns else sample_ns - cg_srtt_ns c in
    set_rtt c (u64 (u64 (cg_srtt_ns c * 7) + sample_ns) / 8) (u64 (u64 (cg_rttvar_ns c * 3) + dev) / 4).

(** The doubling loop of [rto_ns]: [for (i = 0; i < backoff_ && rto < max_ns; ++i) rto *= 2]. *)
Fixpoint backed_off (backoff : nat) (rto max_ns : Z) : Z :=
  match backoff with
  | O => rto
  | S backoff => if rto <? max_ns then backed_off backoff (u64 (rto * 2)) max_ns else rto
  end.

Definition rto_ns (c : CongestionController) (min_ns max_ns initial_ns : Z) : Z :=
  let rto :=
    if negb (cg_srtt_ns c =? 0) then
      let var := if 1000000 <? u64 (cg_rttvar_ns c * 4) then u64 (cg_rttvar_ns c * 4) else 1000000 in
      let rto := u64 (cg_srtt_ns c + var) in
      if rto <? u64 (2 * cg_srtt_ns c) then u64 (2 * cg_srtt_ns c) else rto
    else initial_ns in
  let rto := if rto <? min_ns then min_ns else if max_ns <? rto then max_ns else rto in
  let rto := backed_off (Z.to_nat (cg_backoff c)) rto max_ns in
  if max_ns <? rto then max_ns else rto.

Definition on_loss (c : CongestionController) : CongestionController :=
  if cg_enabled c
  then set_window c (cg_window c) (cg_clean_streak c) (cg_slow_start c) true
  else c.

Definition on_timeout (c : CongestionController) : CongestionController :=
  let c := if cg_backoff c =? 0 then on_loss c else c in
  if cg_backoff c <? kMaxBackoff then set_backoff c (cg_backoff c + 1) else c.

Definition on_progress (c : CongestionController) : CongestionController := set_backoff c 0.

(** The AIMD decision of one elapsed epoch. *)
Definition epoch (c : CongestionController) : CongestionController :=
  let c :=
    if cg_loss_in_window c then
      let halved := cg_window c / 2 in
      set_window c (if halved <? cg_floor c then cg_floor c else halved) 0 false (cg_loss_in_window c)
    else if cg_slow_start c then
      let doubled := u32 (cg_window c * 2) in
      let window := if cg_max_window c <? doubled then cg_max_window c else doubled in
      set_window c window (cg_clean_streak c) (if window =? cg_max_window c then false else cg_slow_start c)
        (cg_loss_in_window c)
    else
      let streak := u32 (cg_clean_streak c + 1) in
      if cg_clean_windows_to_grow c <=? streak then
        let grown := u32 (cg_window c + cg_grow_step c) in
        set_window c (if cg_max_window c <? grown then cg_max_window c else grown) 0 (cg_slow_start c)
          (cg_loss_in_window c)
      else set_window c (cg_window c) streak (cg_slow_start c) (cg_loss_in_window c) in
  set_window c (cg_window c) (cg_clean_streak c) (cg_slow_start c) false.

(** The epoch loop; the code bounds it with a guard of 4096 turns. *)
Fixpoint poll_loop (guard : nat) (c : CongestionController) (now_ns : Z) : CongestionController :=
  match guard with
  | O => c
  | S guard =>
      if u64 (now_ns - cg_window_start_ns c) <? cg_srtt_ns c then c
      else poll_loop guard (epoch (set_window_start c (u64 (cg_window_start_ns c + cg_srtt_ns c)))) now_ns
  end.

Definition poll_guard : nat := 4096.

Definition poll (c : CongestionController) (now_ns : Z) : CongestionController :=
  if negb (cg_enabled c) || (cg_srtt_ns c =? 0) then c
  else if cg_window_start_ns c =? 0 then set_window_start c now_ns
  else poll_loop poll_guard c now_ns.

(** ** The window over any history *)

Inductive cc_event :=
| EvSlowStart (initial : Z)
| EvRtt (sample_ns : Z)
| EvLoss
| EvTimeout
| EvProgress
| EvPoll (now_ns : Z).

Definition cc_apply (c : CongestionController) (e : cc_event) : CongestionController :=
  match e with
  | EvSlowStart initial => enable_slow_start c initial
  | EvRtt sample_ns => on_rtt_sample c sample_ns
  | EvLoss => on_loss c
  | EvTimeout => on_timeout c
  | EvProgress => on_progress c
  | EvPoll now_ns => poll c now_ns
  end.

Record cc_inv (lo hi : Z) (c : CongestionController) : Prop := {
  ci_max : 1 <= cg_max_window c < 2 ^ 16;
  ci_floor : cg_floor c = Z.min 2 (cg_max_window c);
  ci_window : cg_floor c <= cg_window c <= cg_max_window c;
  ci_pinned : cg_enabled c = false -> cg_window c = cg_max_window c;
  ci_step : 0 <= cg_grow_step c <= 2 ^ 32 - 2 ^ 16;
  ci_every : is_u32 (cg_clean_windows_to_grow c);
  ci_streak : 0 <= cg_clean_streak c < Z.max 1 (cg_clean_windows_to_grow c);
  ci_srtt : cg_srtt_ns c = 0 \/ lo <= cg_srtt_ns c <= hi;
  ci_rttvar : 0 <= cg_rttvar_ns c <= hi;
  ci_backoff : 0 <= cg_backoff c <= kMaxBackoff;
}.

Section Bounds.
Context (lo hi : Z).
Hypothesis range : 0 < lo <= hi /\ hi < kMaxEcho.

Local Ltac cc_crush I :=
  split; cbn [set_window set_rtt set_backoff set_window_start cg_enabled cg_clean_windows_to_grow cg_grow_step cg_max_window cg_floor cg_window cg_clean_streak
              cg_srtt_ns cg_rttvar_ns cg_backoff cg_window_start_ns cg_loss_in_window cg_slow_start] in *;
  try solve [apply I | lia].

Lemma new_controller_inv max_window enabled every step :
  is_u16 max_window -> is_u32 every -> 0 <= step <= 2 ^ 32 - 2 ^ 16 ->
  cc_inv lo hi (new_controller max_window enabled every step).
Proof.
  intros Hm He Hs. unfold is_u16, is_u32 in *.
  split; cbn; unfold is_u32, kMaxBackoff; try lia; try (destruct enabled; done);
    destruct enabled; cbn [negb]; repeat split_if; mlia.
Qed.

Lemma enable_slow_start_inv c initial : cc_inv lo hi c -> cc_inv lo hi (enable_slow_start c initial).
Proof.
  intros I. unfold enable_slow_start. split_if; [done |]. pose proof (ci_window _ _ _ I).
  cc_crush I; [repeat split_if; lia | congruence].
Qed.

Lemma on_loss_inv c : cc_inv lo hi c -> cc_inv lo hi (on_loss c).
Proof. intros I. unfold on_loss. split_if; [| done]. cc_crush I. Qed.

Lemma set_backoff_inv c b : 0 <= b <= kMaxBackoff -> cc_inv lo hi c -> cc_inv lo hi (set_backoff c b).
Proof. intros Hb I. cc_crush I. Qed.

Lemma on_timeout_inv c : cc_inv lo hi c -> cc_inv lo hi (on_timeout c).
Proof.
  intros I. unfold on_timeout. assert (cc_inv lo hi (if cg_backoff c =? 0 then on_loss c else c)) as I'.
  { split_if; [by apply on_loss_inv | done]. }
  revert I'. generalize (if cg_backoff c =? 0 then on_loss c else c) as c'. intros c' I'.
  split_if; [| done]. apply set_backoff_inv; [| done]. pose proof (ci_backoff _ _ _ I'). lia.
Qed.

Lemma on_rtt_sample_inv c s : s = 0 \/ lo <= s <= hi -> cc_inv lo hi c -> cc_inv lo hi (on_rtt_sample c s).
Proof.
  intros Hs I. unfold on_rtt_sample. split_if; [done |].
  assert (lo <= s <= hi) by lia. pose proof (ci_srtt _ _ _ I). pose proof (ci_rttvar _ _ _ I).
  unfold kMaxEcho in *. split_if.
  - cc_crush I. mlia.
  - rewrite !(u64_small (_ * _)) by (unfold is_u64; lia).
    rewrite !u64_small by (unfold is_u64; repeat split_if; lia).
    cc_crush I; [right | repeat split_if]; mlia.
Qed.

Lemma epoch_inv c : cc_inv lo hi c -> cg_enabled c = true -> cc_inv lo hi (epoch c).
Proof.
  intros I He. destruct (I) as [? ? ? ? ? ? ? ? ? ?]. unfold epoch, is_u32 in *.
  rewrite (u32_small (cg_window c * 2)), (u32_small (cg_window c + _)) by (unfold is_u32; lia).
  destruct (cg_loss_in_window c), (cg_slow_start c); cbn [cg_window cg_clean_streak cg_slow_start set_window].
  1, 2: cc_crush I; [split_if; mlia | congruence].
  - cc_crush I; [split_if; lia | congruence].
  - rewrite (u32_small (_ + 1)) by (unfold is_u32; lia).
    split_if; cbn [cg_window cg_clean_streak cg_slow_start set_window]; cc_crush I; [split_if; lia | congruence].
Qed.

Lemma set_window_start_inv c start : cc_inv lo hi c -> cc_inv lo hi (set_window_start c start).
Proof. intros I. cc_crush I. Qed.

Lemma epoch_enabled c : cg_enabled (epoch c) = cg_enabled c.
Proof. unfold epoch. by repeat split_if. Qed.

Lemma poll_loop_inv guard c now : cc_inv lo hi c -> cg_enabled c = true -> cc_inv lo hi (poll_loop guard c now).
Proof.
  revert c. induction guard as [| guard IH]; intros c I He; cbn [poll_loop]; [done |].
  split_if; [done |]. apply IH; [| by rewrite epoch_enabled].
  by apply epoch_inv; [apply set_window_start_inv |].
Qed.

Definition plausible (e : cc_event) : Prop :=
  match e with EvRtt s => s = 0 \/ lo <= s <= hi | _ => True end.

Lemma cc_apply_inv c e : plausible e -> cc_inv lo hi c -> cc_inv lo hi (cc_apply c e).
Proof.
  intros Hp I. destruct e; cbn [cc_apply].
  - by apply enable_slow_start_inv.
  - by apply on_rtt_sample_inv.
  - by apply on_loss_inv.
  - by apply on_timeout_inv.
  - by apply set_backoff_inv.
  - unfold poll. split_if; [done |]. split_if; [by apply set_window_start_inv |].
    by apply poll_loop_inv.
Qed.

Lemma cc_run_inv c events : Forall plausible events -> cc_inv lo hi c -> cc_inv lo hi (foldl cc_apply c events).
Proof.
  revert c. induction events as [| e events IH]; intros c Hp I; [done |].
  apply Forall_cons_1 in Hp as [He Hp]. cbn [foldl]. by apply IH, cc_apply_inv.
Qed.

End Bounds.

(** ** What a poll does *)

Fixpoint epochs (n : nat) (c : CongestionController) : CongestionController :=
  match n with O => c | S n => epochs n (epoch c) end.

(** The parts of the state that epochs leave alone. *)
Definition same_config (c c' : CongestionController) : Prop :=
  cg_enabled c' = cg_enabled c /\ cg_max_window c' = cg_max_window c /\ cg_floor c' = cg_floor c /\
  cg_grow_step c' = cg_grow_step c /\ cg_clean_windows_to_grow c' = cg_clean_windows_to_grow c /\
  cg_srtt_ns c' = cg_srtt_ns c /\ cg_window_start_ns c' = cg_window_start_ns c.

Lemma epoch_config c : same_config c (epoch c).
Proof. unfold same_config, epoch. by repeat split_if. Qed.

Lemma epochs_config n c : same_config c (epochs n c).
Proof.
  revert c. induction n as [| n IH]; intros c; cbn [epochs]; [done |].
  pose proof (epoch_config c) as H1. pose proof (IH (epoch c)) as H2. unfold same_config in *.
  intuition congruence.
Qed.

Lemma epoch_set_start c start : epoch (set_window_start c start) = set_window_start (epoch c) start.
Proof. destruct c. unfold epoch, set_window, set_window_start. cbn. by repeat split_if. Qed.

Lemma epochs_set_start n c start : epochs n (set_window_start c start) = set_window_start (epochs n c) start.
Proof. revert c. induction n as [| n IH]; intros c; cbn [epochs]; [done |]. by rewrite epoch_set_start, IH. Qed.

Lemma poll_loop_epochs guard c now :
  0 < cg_srtt_ns c -> 0 <= cg_window_start_ns c <= now -> now < 2 ^ 64 ->
  let k := Z.min (Z.of_nat guard) ((now - cg_window_start_ns c) / cg_srtt_ns c) in
  poll_loop guard c now =
    set_window_start (epochs (Z.to_nat k) c) (cg_window_start_ns c + k * cg_srtt_ns c).
Proof.
  revert c. induction guard as [| guard IH]; intros c Hs Hst Hnow.
  { cbn zeta. rewrite Z.min_l by (apply Z.div_pos; lia). cbn. rewrite Z.add_0_r. by destruct c. }
  cbn [poll_loop]. rewrite u64_small by (unfold is_u64; lia). split_if.
  { rewrite Z.div_small by lia. cbn. rewrite Z.add_0_r. by destruct c. }
  assert ((now - cg_window_start_ns c) / cg_srtt_ns c =
          1 + (now - (cg_window_start_ns c + cg_srtt_ns c)) / cg_srtt_ns c) as ->.
  { rewrite <- Z.div_add_l by lia. f_equal. lia. }
  rewrite u64_small by (unfold is_u64; lia). rewrite epoch_set_start. rewrite IH; clear IH;
    cbn [set_window_start cg_srtt_ns cg_window_start_ns];
    destruct (epoch_config c) as (_ & _ & _ & _ & _ & Es & _); rewrite ?Es; try lia.
  assert (0 <= (now - (cg_window_start_ns c + cg_srtt_ns c)) / cg_srtt_ns c) by (apply Z.div_pos; lia).
  set (q := (now - (cg_window_start_ns c + cg_srtt_ns c)) / cg_srtt_ns c) in *. cbn zeta.
  replace (Z.to_nat (Z.min (Z.of_nat (S guard)) (1 + q))) with (S (Z.to_nat (Z.min (Z.of_nat guard) q))) by lia.
  cbn [epochs]. rewrite epochs_set_start.
  replace (Z.min (Z.of_nat (S guard)) (1 + q)) with (1 + Z.min (Z.of_nat guard) q) by lia.
  unfold set_window_start. cbn. f_equal. lia.
Qed.

(** Clean epochs outside slow start: a step of growth per full streak. *)
Lemma clean_epochs lo hi n c :
  cc_inv lo hi c -> cg_enabled c = true -> 1 <= cg_clean_windows_to_grow c ->
  cg_loss_in_window c = false -> cg_slow_start c = false ->
  cg_window (epochs n c) =
    Z.min (cg_max_window c)
      (cg_window c + cg_grow_step c * ((cg_clean_streak c + Z.of_nat n) / cg_clean_windows_to_grow c)).
Proof.
  revert c. induction n as [| n IH]; intros c I He Hg Hl Hs; pose proof I as [? ? ? ? ? Hu ? ? ? ?]; unfold is_u32 in Hu.
  { cbn [epochs]. rewrite Z.add_0_r, Z.div_small by lia. lia. }
  cbn [epochs]. pose proof (epoch_inv lo hi c I He) as I'. revert I'.
  pose proof (epoch_config c) as Hc. revert Hc. unfold epoch. rewrite Hl, Hs.
  rewrite (u32_small (_ + 1)), (u32_small (_ + _)) by (unfold is_u32; lia).
  set (g := cg_clean_windows_to_grow c) in *. set (s := cg_clean_streak c) in *.
  split_if; intros (E1 & E2 & _ & E4 & E5 & _) I'; rewrite IH; try done; try congruence;
    try (rewrite E5; exact Hg); rewrite E2, E4, E5; cbn [set_window cg_window cg_clean_streak]; fold g; fold s.
  - replace (s + Z.of_nat (S n)) with (1 * g + Z.of_nat n) by lia. rewrite Z.div_add_l by lia.
    assert (0 <= Z.of_nat n / g) by (apply Z.div_pos; lia).
    rewrite Z.add_0_l. split_if; nia.
  - by replace (s + Z.of_nat (S n)) with (s + 1 + Z.of_nat n) by lia.
Qed.

(** Clean epochs in slow start: doubling up to the cap. *)
Lemma slow_epochs lo hi n c :
  cc_inv lo hi c -> cg_enabled c = true -> 1 <= cg_clean_windows_to_grow c ->
  cg_loss_in_window c = false -> cg_slow_start c = true ->
  cg_window (epochs n c) = Z.min (cg_max_window c) (cg_window c * 2 ^ Z.of_nat n).
Proof.
  revert c. induction n as [| n IH]; intros c I He Hg Hl Hs; pose proof I as [? ? ? ? ? ? ? ? ? ?].
  { cbn [epochs]. change (2 ^ Z.of_nat 0) with 1. lia. }
  cbn [epochs]. pose proof (epoch_inv lo hi c I He) as I'. pose proof (epoch_config c) as (E1 & E2 & _ & E4 & E5 & _).
  rewrite Nat2Z.inj_succ, Z.pow_succ_r by lia. pose proof (Z.pow_pos_nonneg 2 (Z.of_nat n) ltac:(lia) ltac:(lia)).
  assert (cg_loss_in_window (epoch c) = false) as Hl' by (unfold epoch; by repeat split_if).
  assert (cg_window (epoch c) = Z.min (cg_max_window c) (cg_window c * 2)) as Hw.
  { unfold epoch. rewrite Hl, Hs, u32_small by (unfold is_u32; lia). cbn [set_window cg_window]. split_if; lia. }
  destruct (cg_slow_start (epoch c)) eqn:Hs'.
  - rewrite IH, E2, Hw by (try done; congruence). nia.
  - assert (cg_window (epoch c) = cg_max_window c).
    { revert Hs'. unfold epoch. rewrite Hl, Hs, u32_small by (unfold is_u32; lia).
      cbn [set_window cg_window cg_slow_start]. by repeat split_if. }
    rewrite (clean_epochs lo hi), E2, E4, E5 by (try done; congruence).
    pose proof (ci_streak _ _ _ I'). rewrite E5 in *.
    assert (0 <= (cg_clean_streak (epoch c) + Z.of_nat n) / cg_clean_windows_to_grow c) by (apply Z.div_pos; lia). nia.
Qed.

Lemma poll_loop_config guard c now :
  cg_enabled (poll_loop guard c now) = cg_enabled c /\ cg_max_window (poll_loop guard c now) = cg_max_window c.
Proof.
  revert c. induction guard as [| guard IH]; intros c; cbn [poll_loop]; [done |]. split_if; [done |].
  rewrite epoch_set_start. destruct (IH (set_window_start (epoch c) (u64 (cg_window_start_ns c + cg_srtt_ns c)))) as [-> ->].
  cbn [set_window_start cg_enabled cg_max_window]. by destruct (epoch_config c) as (-> & -> & _).
Qed.

Lemma cc_apply_config c e :
  cg_enabled (cc_apply c e) = cg_enabled c /\ cg_max_window (cc_apply c e) = cg_max_window c.
Proof.
  destruct e; cbn [cc_apply].
  - unfold enable_slow_start. by split_if.
  - unfold on_rtt_sample. by repeat split_if.
  - unfold on_loss. by split_if.
  - unfold on_timeout, on_loss. by repeat split_if.
  - done.
  - unfold poll. split_if; [done |]. split_if; [done |]. apply poll_loop_config.
Qed.

(** The window after [k > 0] elapsed epochs. *)
Definition window_after (c : CongestionController) (k : Z) : Z :=
  let linear w streak k :=
    Z.min (cg_max_window c) (w + cg_grow_step c * ((streak + k) / cg_clean_windows_to_grow c)) in
  if cg_loss_in_window c then linear (Z.max (cg_floor c) (cg_window c / 2)) 0 (k - 1)
  else if cg_slow_start c then Z.min (cg_max_window c) (cg_window c * 2 ^ k)
  else linear (cg_window c) (cg_clean_streak c) k.

Lemma epochs_window lo hi n c :
  cc_inv lo hi c -> cg_enabled c = true -> 1 <= cg_clean_windows_to_grow c -> (0 < n)%nat ->
  cg_window (epochs n c) = window_after c (Z.of_nat n).
Proof.
  intros I He Hg Hn. unfold window_after. destruct (cg_loss_in_window c) eqn:Hl.
  - destruct n as [| n]; [lia |]. cbn [epochs]. pose proof (epoch_config c) as (E1 & E2 & E3 & E4 & E5 & _).
    assert (cg_window (epoch c) = Z.max (cg_floor c) (cg_window c / 2) /\ cg_clean_streak (epoch c) = 0 /\
            cg_loss_in_window (epoch c) = false /\ cg_slow_start (epoch c) = false) as (Hw & Hst & Hl' & Hs').
    { unfold epoch. rewrite Hl. cbn [set_window cg_window cg_clean_streak cg_slow_start cg_loss_in_window].
      split_and!; try done. split_if; lia. }
    rewrite (clean_epochs lo hi), E2, E4, E5, Hw, Hst; try done; [| by apply epoch_inv | congruence | by rewrite E5].
    by replace (Z.of_nat (S n) - 1) with (Z.of_nat n) by lia.
  - destruct (cg_slow_start c) eqn:Hs; [by apply (slow_epochs lo hi) | by apply (clean_epochs lo hi)].
Qed.

Lemma epochs_no_loss n c : (0 < n)%nat -> cg_loss_in_window (epochs n c) = false.
Proof.
  intros Hn. assert (forall d, cg_loss_in_window (epoch d) = false) as H1 by (intros; unfold epoch; by repeat split_if).
  revert c. induction n as [| [| n] IH]; intros c; [lia | apply H1 |]. apply IH. lia.
Qed.

(** ** The retransmission timeout *)

Lemma backed_off_min n rto max_ns :
  0 <= rto <= max_ns -> max_ns <= 2 ^ 63 ->
  Z.min max_ns (backed_off n rto max_ns) = Z.min max_ns (rto * 2 ^ Z.of_nat n).
Proof.
  revert rto. induction n as [| n IH]; intros rto Hr Hm; cbn [backed_off].
  { change (2 ^ Z.of_nat 0) with 1. f_equal. lia. }
  rewrite Nat2Z.inj_succ, Z.pow_succ_r by lia. pose proof (Z.pow_pos_nonneg 2 (Z.of_nat n) ltac:(lia) ltac:(lia)).
  split_if; [| nia]. rewrite u64_small by (unfold is_u64; lia).
  destruct (Z.le_gt_cases (rto * 2) max_ns) as [Hle | Hgt].
  - rewrite IH by lia. f_equal. lia.
  - destruct n as [| n]; cbn [backed_off]; [change (2 ^ Z.of_nat 0) with 1; lia |]. split_if; nia.
Qed.

Lemma clamp_min m r : (if m <? r then m else r) = Z.min m r.
Proof. split_if; lia. Qed.

Lemma rto_ns_exact lo hi c min_ns max_ns initial_ns :
  cc_inv lo hi c -> 0 < lo <= hi -> hi < kMaxEcho -> 0 <= min_ns <= max_ns -> max_ns <= 2 ^ 63 -> 0 <= initial_ns ->
  let base := if cg_srtt_ns c =? 0 then initial_ns
              else Z.max (2 * cg_srtt_ns c) (cg_srtt_ns c + Z.max 1000000 (4 * cg_rttvar_ns c)) in
  rto_ns c min_ns max_ns initial_ns = Z.min max_ns (Z.max min_ns base * 2 ^ cg_backoff c).
Proof.
  intros I Hlo Hhi Hmin Hmax Hini base. destruct (I) as [_ _ _ _ _ _ _ Hs Hv Hb]. unfold rto_ns, kMaxEcho in *.
  rewrite !(u64_small (_ * _)), !(u64_small (cg_srtt_ns c + _)) by (unfold is_u64; repeat split_if; lia).
  match goal with |- context [if ?r <? min_ns then _ else _] => assert (r = base) as -> end.
  { unfold base. repeat split_if; lia. }
  assert (0 <= base) by (unfold base; split_if; lia).
  rewrite clamp_min.
  rewrite backed_off_min, Z2Nat.id by (repeat split_if; lia).
  pose proof (Z.pow_pos_nonneg 2 (cg_backoff c) ltac:(lia) ltac:(lia)). repeat split_if; nia.
Qed.

(** ** Properties *)

(** The congestion window stays between its floor and the negotiated cap over
    every history of samples, losses, timeouts, progress and polls, without any
    of its 32-bit sums wrapping; a stream without congestion control keeps the
    full window; the RTT estimate stays within the range of the samples seen and
    the backoff within 6 doublings. *)
Theorem congestion_window_bounded lo hi max_window enabled every step events :
  0 < lo <= hi -> hi < kMaxEcho -> is_u16 max_window -> is_u32 every -> 0 <= step <= 2 ^ 32 - 2 ^ 16 ->
  Forall (plausible lo hi) events ->
  let c := foldl cc_apply (new_controller max_window enabled every step) events in
  Z.min 2 (Z.max 1 max_window) <= cg_window c <= Z.max 1 max_window /\
  (enabled = false -> cg_window c = Z.max 1 max_window) /\
  (cg_srtt_ns c = 0 \/ lo <= cg_srtt_ns c <= hi) /\ 0 <= cg_rttvar_ns c <= hi /\
  0 <= cg_backoff c <= kMaxBackoff.
Proof.
  intros Hlo Hhi Hm He Hs Hev c.
  assert (cc_inv lo hi c) as I by (apply cc_run_inv; [done .. | by apply new_controller_inv]).
  assert (cg_enabled c = enabled /\ cg_max_window c = Z.max 1 max_window) as [E1 E2].
  { clear I Hev. subst c. assert (cg_enabled (new_controller max_window enabled every step) = enabled /\
      cg_max_window (new_controller max_window enabled every step) = Z.max 1 max_window) as Hnew.
    { cbn. split; [done | split_if; lia]. }
    revert Hnew. generalize (new_controller max_window enabled every step).
    induction events as [| e events IH]; intros c Hc; cbn [foldl]; [done |].
    apply IH. pose proof (cc_apply_config c e) as [-> ->]. done. }
  destruct I as [? Hf Hw Hp ? ? ? ? ? ?]. rewrite Hf, E2 in *. rewrite E1 in Hp. split_and!; done || lia.
Qed.

Lemma congestion_window_bounded_witness :
  let c := foldl cc_apply (new_controller 64 true 3 2)
             [EvSlowStart 4; EvRtt 100; EvPoll 1000; EvPoll 1250; EvLoss; EvTimeout; EvPoll 1400] in
  Z.min 2 (Z.max 1 64) <= cg_window c <= Z.max 1 64 /\
  (true = false -> cg_window c = Z.max 1 64) /\
  (cg_srtt_ns c = 0 \/ 100 <= cg_srtt_ns c <= 100) /\ 0 <= cg_rttvar_ns c <= 100 /\
  0 <= cg_backoff c <= kMaxBackoff.
Proof.
  apply (congestion_window_bounded 100 100 64 true 3 2); unfold kMaxEcho, is_u16, is_u32; try lia.
  repeat constructor; cbn; lia.
Defined.

(** [poll] applies exactly one AIMD decision per elapsed RTT, at most 4096 in one
    call: with [k] epochs elapsed, the epoch start advances by [k] RTTs, a loss
    halves the window once (never below the floor), clean epochs double it in slow
    start and otherwise add one step per full run of clean epochs, never beyond
    the cap, and the loss is forgotten. *)
Theorem poll_applies_aimd lo hi c now :
  cc_inv lo hi c -> 0 < lo -> cg_enabled c = true -> cg_srtt_ns c <> 0 -> 1 <= cg_clean_windows_to_grow c ->
  0 < cg_window_start_ns c <= now -> now < 2 ^ 64 ->
  let k := Z.min 4096 ((now - cg_window_start_ns c) / cg_srtt_ns c) in
  cg_window_start_ns (poll c now) = cg_window_start_ns c + k * cg_srtt_ns c /\
  cg_window (poll c now) = (if k =? 0 then cg_window c else window_after c k) /\
  cg_loss_in_window (poll c now) = (if k =? 0 then cg_loss_in_window c else false).
Proof.
  intros I Hlo He Hs Hg Hst Hnow k. assert (0 < cg_srtt_ns c) by (pose proof (ci_srtt _ _ _ I); lia).
  assert (0 <= (now - cg_window_start_ns c) / cg_srtt_ns c) by (apply Z.div_pos; lia).
  unfold poll. rewrite He. cbn [negb orb]. rewrite (proj2 (Z.eqb_neq _ _) Hs).
  destruct (Z.eqb_spec (cg_window_start_ns c) 0); [lia |].
  rewrite poll_loop_epochs by lia. change (Z.of_nat poll_guard) with 4096. fold k.
  assert (0 <= k) by lia. cbn [set_window_start cg_window_start_ns cg_window cg_loss_in_window].
  split; [done |]. destruct (Z.eqb_spec k 0) as [-> | Hk]; [done |].
  rewrite (epochs_window lo hi), epochs_no_loss, Z2Nat.id by (done || lia). done.
Qed.

Definition polled_example : CongestionController :=
  foldl cc_apply (new_controller 64 true 3 2) [EvSlowStart 4; EvRtt 100; EvPoll 1000].

Lemma polled_example_inv : cc_inv 100 100 polled_example.
Proof.
  apply (cc_run_inv 100 100); [unfold kMaxEcho; lia | repeat constructor; cbn; lia |].
  apply new_controller_inv; unfold is_u16, is_u32, kMaxEcho; lia.
Qed.

Lemma poll_applies_aimd_witness :
  cg_window_start_ns (poll polled_example 1350) = 1300 /\ cg_window (poll polled_example 1350) = 32 /\
  cg_loss_in_window (poll polled_example 1350) = false.
Proof.
  apply (poll_applies_aimd 100 100 polled_example 1350);
    [apply polled_example_inv | lia | done | done | vm_compute; discriminate | split; vm_compute; congruence | lia].
Defined.

(** The retransmission timeout is exactly the larger of twice the smoothed RTT
    and RTT plus four deviations (the initial value before any sample), raised to
    the minimum, doubled once per timeout without progress, and capped at the
    maximum; no product overflows. *)
Theorem rto_exact lo hi c min_ns max_ns initial_ns :
  cc_inv lo hi c -> 0 < lo <= hi -> hi < kMaxEcho -> 0 <= min_ns <= max_ns -> max_ns <= 2 ^ 63 -> 0 <= initial_ns ->
  let base := if cg_srtt_ns c =? 0 then initial_ns
              else Z.max (2 * cg_srtt_ns c) (cg_srtt_ns c + Z.max 1000000 (4 * cg_rttvar_ns c)) in
  rto_ns c min_ns max_ns initial_ns = Z.min max_ns (Z.max min_ns base * 2 ^ cg_backoff c) /\
  min_ns <= rto_ns c min_ns max_ns initial_ns <= max_ns /\
  rto_ns c min_ns max_ns initial_ns <= rto_ns (on_timeout c) min_ns max_ns initial_ns.
Proof.
  intros I Hlo Hhi Hmin Hmax Hini base.
  assert (cg_srtt_ns (on_timeout c) = cg_srtt_ns c /\ cg_rttvar_ns (on_timeout c) = cg_rttvar_ns c /\
          cg_backoff c <= cg_backoff (on_timeout c)) as (E1 & E2 & Hb).
  { unfold on_timeout, on_loss. repeat split_if; cbn; (split; [done | split; [done | lia]]). }
  rewrite (rto_ns_exact lo hi c), (rto_ns_exact lo hi (on_timeout c)), E1, E2 by
    (try done; by apply on_timeout_inv). fold base.
  pose proof (ci_backoff _ _ _ I).
  pose proof (Z.pow_pos_nonneg 2 (cg_backoff c) ltac:(lia) ltac:(lia)).
  pose proof (Z.pow_le_mono_r 2 (cg_backoff c) (cg_backoff (on_timeout c)) ltac:(lia) Hb).
  split_and!; [done | nia | lia | nia].
Qed.

Lemma rto_exact_witness :
  rto_ns polled_example 20000000 2000000000 200000000 = 20000000 /\
  20000000 <= rto_ns polled_example 20000000 2000000000 200000000 <= 2000000000 /\
  rto_ns polled_example 20000000 2000000000 200000000 <=
    rto_ns (on_timeout polled_example) 20000000 2000000000 200000000.
Proof.
  apply (rto_exact 100 100 polled_example); [apply polled_example_inv | unfold kMaxEcho; lia ..].
Defined.
