(* ===== verification/SendQueue.v ===== *)
(** * The send queue

    Models [src/include/fuse/proto/send_queue.hpp]: a bounded ring of sequence
    numbers waiting to be sent that either refuses a push when full or, when
    coalescing, drops its oldest entry.  The ring refines a plain list. *)

From S2P Require Import Prelude.

(** ** Definitions *)

Record SendQueue := mkSendQueue {
  sq_buffer : list Z;
  sq_cap : Z;
  sq_coalesce : bool;
  sq_head : Z;
  sq_tail : Z;
  sq_size : Z;
  sq_dropped : Z;
}.

Definition new_send_queue (capacity : Z) (coalesce : bool) : SendQueue :=
  let cap := if capacity =? 0 then 1 else capacity in
  mkSendQueue (replicate (Z.to_nat cap) 0) cap coalesce 0 0 0 0.

Definition sq_empty (q : SendQueue) : bool := sq_size q =? 0.
Definition sq_full (q : SendQueue) : bool := sq_size q =? sq_cap q.

(** [pop]: the value popped, or none from an empty queue. *)
Definition pop (q : SendQueue) : res (SendQueue * option Z) :=
  if sq_empty q then Ok (q, None)
  else match nthZ (sq_buffer q) (sq_head q) with
       | None => Fault
       | Some s =>
           Ok (mkSendQueue (sq_buffer q) (sq_cap q) (sq_coalesce q)
                 (u64 (sq_head q + 1) mod sq_cap q) (sq_tail q) (u64 (sq_size q - 1)) (sq_dropped q), Some s)
       end.

Definition count_drop (q : SendQueue) : SendQueue :=
  mkSendQueue (sq_buffer q) (sq_cap q) (sq_coalesce q) (sq_head q) (sq_tail q) (sq_size q)
    (u64 (sq_dropped q + 1)).

(** The write at the tail that ends [push]. *)
Definition append_tail (q : SendQueue) (seq_no : Z) : res SendQueue :=
  if (0 <=? sq_tail q) && (sq_tail q <? lenZ (sq_buffer q)) then
    Ok (mkSendQueue (setZ (sq_buffer q) (sq_tail q) seq_no) (sq_cap q) (sq_coalesce q)
          (sq_head q) (u64 (sq_tail q + 1) mod sq_cap q) (u64 (sq_size q + 1)) (sq_dropped q))
  else Fault.

Definition push (q : SendQueue) (seq_no : Z) : res (SendQueue * bool) :=
  if sq_full q then
    if negb (sq_coalesce q) then Ok (q, false)
    else res_bind (pop q) (fun '(q, _) =>
         res_bind (append_tail (count_drop q) seq_no) (fun q => Ok (q, true)))
  else res_bind (append_tail q seq_no) (fun q => Ok (q, true)).

(** ** The abstract queue *)

(** The queued sequence numbers, oldest first, and the number dropped. *)
Record queue_spec := mkQueueSpec { qs_items : list Z; qs_dropped : Z }.

Inductive queue_op := Push (seq_no : Z) | Pop.

Definition spec_op (cap : Z) (coalesce : bool) (q : queue_spec) (op : queue_op) : queue_spec * (bool * option Z) :=
  match op with
  | Pop => match qs_items q with
           | [] => (q, (false, None))
           | s :: items => (mkQueueSpec items (qs_dropped q), (true, Some s))
           end
  | Push s =>
      if lenZ (qs_items q) <? cap then (mkQueueSpec (qs_items q ++ [s]) (qs_dropped q), (true, None))
      else if coalesce then (mkQueueSpec (drop 1 (qs_items q) ++ [s]) (u64 (qs_dropped q + 1)), (true, None))
      else (q, (false, None))
  end.

Fixpoint spec_run (cap : Z) (coalesce : bool) (q : queue_spec) (ops : list queue_op) : queue_spec * list (bool * option Z) :=
  match ops with
  | [] => (q, [])
  | op :: ops =>
      let '(q, out) := spec_op cap coalesce q op in
      let '(q, outs) := spec_run cap coalesce q ops in (q, out :: outs)
  end.

Definition queue_op_run (q : SendQueue) (op : queue_op) : res (SendQueue * (bool * option Z)) :=
  match op with
  | Push s => res_bind (push q s) (fun '(q, b) => Ok (q, (b, None)))
  | Pop => res_bind (pop q) (fun '(q, o) => Ok (q, (bool_decide (is_Some o), o)))
  end.

Fixpoint queue_run (q : SendQueue) (ops : list queue_op) : res (SendQueue * list (bool * option Z)) :=
  match ops with
  | [] => Ok (q, [])
  | op :: ops =>
      res_bind (queue_op_run q op) (fun '(q, out) =>
      res_bind (queue_run q ops) (fun '(q, outs) => Ok (q, out :: outs)))
  end.

(** The ring holds [items] from [head] on, wrapping at its capacity. *)
Record sq_repr (q : SendQueue) (s : queue_spec) : Prop := {
  sr_cap : 0 < sq_cap q < 2 ^ 64;
  sr_len : lenZ (sq_buffer q) = sq_cap q;
  sr_head : 0 <= sq_head q < sq_cap q;
  sr_size : sq_size q = lenZ (qs_items s) /\ lenZ (qs_items s) <= sq_cap q;
  sr_tail : sq_tail q = (sq_head q + sq_size q) mod sq_cap q;
  sr_items : forall i, 0 <= i < sq_size q ->
    nthZ (sq_buffer q) ((sq_head q + i) mod sq_cap q) = nthZ (qs_items s) i;
  sr_dropped : sq_dropped q = qs_dropped s;
}.

Lemma mod_step a n : 0 < n -> 0 <= a < n -> n < 2 ^ 64 -> u64 (a + 1) mod n = (a + 1) mod n.
Proof.
  intros Hn Ha H64. by rewrite u64_small by (unfold is_u64; lia).
Qed.

Lemma pop_repr q s :
  sq_repr q s ->
  exists q', pop q = Ok (q', head (qs_items s)) /\
    sq_repr q' (mkQueueSpec (drop 1 (qs_items s)) (qs_dropped s)) /\ sq_cap q' = sq_cap q /\
    sq_coalesce q' = sq_coalesce q.
Proof.
  intros [Hc Hl Hh [Hsz Hle] Ht Hi Hd]. unfold pop, sq_empty. destruct s as [items dropped]. cbn [qs_items qs_dropped] in *.
  destruct items as [| x items].
  { rewrite Hsz. exists q. split_and!; try done. }
  pose proof (lenZ_nonneg items). rewrite lenZ_cons in *. split_if; [lia |].
  specialize (Hi 0 ltac:(lia)) as H0. rewrite Z.add_0_r, Z.mod_small in H0 by lia. rewrite H0. cbn [nthZ head].
  eexists. split; [done |]. split_and!; try done. cbn [drop]. rewrite drop_0.
  rewrite mod_step by lia. pose proof (Z.mod_pos_bound (sq_head q + 1) (sq_cap q) ltac:(lia)).
  split; cbn [sq_buffer sq_cap sq_head sq_tail sq_size sq_dropped qs_items qs_dropped]; try done;
    rewrite ?u64_small by (unfold is_u64; lia); try lia.
  - rewrite Ht, Zplus_mod_idemp_l. f_equal. lia.
  - intros i Hir. rewrite Zplus_mod_idemp_l. rewrite <- Z.add_assoc, Hi by lia.
    rewrite !nthZ_lookup by lia. by replace (Z.to_nat (1 + i)) with (S (Z.to_nat i)) by lia.
Qed.

Lemma append_tail_repr q s x :
  sq_repr q s -> lenZ (qs_items s) < sq_cap q ->
  exists q', append_tail q x = Ok q' /\ sq_repr q' (mkQueueSpec (qs_items s ++ [x]) (qs_dropped s)) /\
    sq_cap q' = sq_cap q /\ sq_coalesce q' = sq_coalesce q.
Proof.
  intros [Hc Hl Hh [Hsz Hle] Ht Hi Hd] Hroom. unfold append_tail.
  pose proof (Z.mod_pos_bound (sq_head q + sq_size q) (sq_cap q) ltac:(lia)). rewrite <- Ht in *.
  split_if; [| lia]. pose proof (lenZ_nonneg (qs_items s)).
  eexists. split; [done |]. split_and!; try done. rewrite mod_step by lia.
  split; cbn [sq_buffer sq_cap sq_head sq_tail sq_size sq_dropped qs_items qs_dropped]; try done;
    rewrite ?lenZ_setZ, ?lenZ_app, ?lenZ_cons, ?lenZ_nil, ?u64_small by (unfold is_u64; lia); try lia.
  - rewrite Ht, Zplus_mod_idemp_l. f_equal. lia.
  - intros i Hir. pose proof (Z.mod_pos_bound (sq_head q + i) (sq_cap q) ltac:(lia)).
    rewrite nthZ_setZ by lia. destruct (Z.eq_dec i (sq_size q)) as [-> | Hne].
    + rewrite <- Ht, Z.eqb_refl. rewrite nthZ_app_r by lia. by rewrite Hsz, Z.sub_diag.
    + destruct (Z.eqb_spec (sq_tail q) ((sq_head q + i) mod sq_cap q)) as [E |].
      { rewrite Ht in E. apply ring_index_inj in E; lia. }
      rewrite Hi by lia. by rewrite nthZ_app_l by lia.
Qed.

Lemma queue_op_refines q s op :
  sq_repr q s ->
  let '(s', out) := spec_op (sq_cap q) (sq_coalesce q) s op in
  exists q', queue_op_run q op = Ok (q', out) /\ sq_repr q' s' /\ sq_cap q' = sq_cap q /\
    sq_coalesce q' = sq_coalesce q.
Proof.
  intros R. destruct (pop_repr q s R) as (q1 & E1 & R1 & Hc1 & Hco1). pose proof (sr_size _ _ R) as [Hsz Hle].
  destruct op as [x |]; cbn [spec_op queue_op_run].
  - unfold push, sq_full. rewrite Hsz. destruct (Z.ltb_spec (lenZ (qs_items s)) (sq_cap q)) as [Hlt | Hge].
    + split_if; [lia |]. destruct (append_tail_repr q s x R Hlt) as (q' & -> & R' & Hc & Hco). by exists q'.
    + destruct (Z.eqb_spec (lenZ (qs_items s)) (sq_cap q)); [| lia]. destruct (sq_coalesce q) eqn:Hco; cbn [negb]; [| by exists q].
      rewrite E1. cbn [res_bind].
      assert (sq_repr (count_drop q1) (mkQueueSpec (drop 1 (qs_items s)) (u64 (qs_dropped s + 1)))) as R2.
      { destruct R1 as [? ? ? ? ? ? Hd]. split; try done. cbn in *. by rewrite Hd. }
      destruct (append_tail_repr _ _ x R2) as (q' & -> & R' & Hc & Hco').
      { cbn [qs_items count_drop sq_cap]. pose proof (sr_cap _ _ R).
        destruct (qs_items s) as [| y l]; [change (lenZ (drop 1 (@nil Z))) with 0; lia |].
        cbn [drop]. rewrite drop_0, lenZ_cons in *. lia. }
      exists q'. split_and!; try done; [by rewrite Hc | by rewrite Hco'; cbn; congruence].
  - rewrite E1. cbn [res_bind]. destruct s as [[| y items] dropped]; cbn [qs_items qs_dropped] in *; by exists q1.
Qed.

(** The send queue is a first-in first-out queue: over any sequence of pushes and
    pops the ring answers exactly as a list of at most [capacity] entries does, in
    bounds, refusing the push of a full queue, or, when coalescing, dropping and
    counting exactly the oldest entry. *)
Theorem send_queue_refines capacity coalesce ops :
  0 <= capacity < 2 ^ 64 ->
  let cap := Z.max 1 capacity in
  let '(s, outs) := spec_run cap coalesce (mkQueueSpec [] 0) ops in
  exists q, queue_run (new_send_queue capacity coalesce) ops = Ok (q, outs) /\ sq_repr q s /\
    sq_size q = lenZ (qs_items s) /\ lenZ (qs_items s) <= cap.
Proof.
  intros Hcap cap.
  assert (exists q0, new_send_queue capacity coalesce = q0 /\ sq_repr q0 (mkQueueSpec [] 0) /\ sq_cap q0 = cap /\
          sq_coalesce q0 = coalesce) as (q0 & -> & R & Hc & Hco).
  { eexists. split; [done |]. unfold new_send_queue. split_and!; [| cbn; split_if; lia | done].
    split; cbn [sq_cap sq_buffer sq_head sq_size sq_tail sq_dropped qs_items qs_dropped]; try done; try (split_if; lia).
    - unfold lenZ. rewrite length_replicate. split_if; lia.
    - change (lenZ (@nil Z)) with 0. split; [done | split_if; lia].
  }
  revert q0 R Hc Hco. generalize (mkQueueSpec [] 0). induction ops as [| op ops IH]; intros s q0 R Hc Hco; cbn [spec_run queue_run].
  - exists q0. rewrite <- Hc. split_and!; try done; apply R.
  - pose proof (queue_op_refines q0 s op R) as H. rewrite Hc, Hco in H.
    destruct (spec_op cap coalesce s op) as [s1 out]. destruct H as (q1 & -> & R1 & Hc1 & Hco1). cbn [res_bind].
    specialize (IH s1 q1 R1 ltac:(congruence) ltac:(congruence)).
    destruct (spec_run cap coalesce s1 ops) as [s2 outs]. destruct IH as (q2 & -> & R2 & Hs2). by exists q2.
Qed.

Lemma send_queue_refines_witness :
  exists q, queue_run (new_send_queue 2 true) [Push 5; Push 6; Push 7; Pop] =
      Ok (q, [(true, None); (true, None); (true, None); (true, Some 6)]) /\
    sq_repr q (mkQueueSpec [7] 1) /\ sq_size q = 1 /\ 1 <= 2.
Proof. apply (send_queue_refines 2 true [Push 5; Push 6; Push 7; Pop]). lia. Defined.
