(* ===== verification/SpscRing.v ===== *)
(** * The single-producer single-consumer ring

    Models [src/include/fuse/proto/spsc_ring.hpp]: the ring between a socket
    reader and a writer thread.  Each method touches at most one counter the other
    side writes, so the methods of the two threads interleave as atomic steps; the
    acquire/release pairs of the code are what makes a step's slot accesses visible
    together with its counter.  The theorem holds for every interleaving and across
    wrap-around of the 64-bit counters. *)

From S2P Require Import Prelude.

(** ** Definitions *)

(** [round_up_pow2]; 64 doublings take 1 past every [size_t] the loop can end for. *)
Fixpoint round_up (fuel : nat) (p v : Z) : res Z :=
  match fuel with
  | O => Fault
  | S fuel => if p <? v then round_up fuel (u64 (Z.shiftl p 1)) v else Ok p
  end.

Definition round_up_pow2 (v : Z) : res Z := round_up 65 1 v.

Record SpscRing (T : Type) := mkRing {
  sp_cap : Z;
  sp_mask : Z;
  sp_slots : list T;
  sp_head : Z;
  sp_tail_cache : Z;
  sp_tail : Z;
  sp_head_cache : Z;
}.
Arguments mkRing {T}.
Arguments sp_cap {T}.
Arguments sp_mask {T}.
Arguments sp_slots {T}.
Arguments sp_head {T}.
Arguments sp_tail_cache {T}.
Arguments sp_tail {T}.
Arguments sp_head_cache {T}.

(** The constructor; [uninit] is whatever the fresh slots hold. *)
Definition new_ring {T} (uninit : nat -> T) (min_capacity : Z) : res (SpscRing T) :=
  res_bind (round_up_pow2 (if min_capacity <? 2 then 2 else min_capacity)) (fun cap =>
  Ok (mkRing cap (cap - 1) (uninit <$> seq 0 (Z.to_nat cap)) 0 0 0 0)).

Section Methods.
Context {T : Type}.
Implicit Type r : SpscRing T.

Definition writable r : SpscRing T * Z :=
  let head_cache := if u64 (sp_tail r - sp_head_cache r) =? sp_cap r then sp_head r else sp_head_cache r in
  (mkRing (sp_cap r) (sp_mask r) (sp_slots r) (sp_head r) (sp_tail_cache r) (sp_tail r) head_cache,
   u64 (sp_cap r - u64 (sp_tail r - head_cache))).

Definition slot_index (mask base i : Z) : Z := Z.land (u64 (base + i)) mask.

(** A write through [slot_for_write]. *)
Definition slot_for_write r (i : Z) (v : T) : res (SpscRing T) :=
  let k := slot_index (sp_mask r) (sp_tail r) i in
  if (0 <=? k) && (k <? lenZ (sp_slots r)) then
    Ok (mkRing (sp_cap r) (sp_mask r) (setZ (sp_slots r) k v) (sp_head r) (sp_tail_cache r)
          (sp_tail r) (sp_head_cache r))
  else Fault.

Definition commit r (n : Z) : SpscRing T :=
  mkRing (sp_cap r) (sp_mask r) (sp_slots r) (sp_head r) (sp_tail_cache r) (u64 (sp_tail r + n)) (sp_head_cache r).

Definition readable r : SpscRing T * Z :=
  let tail_cache := if sp_head r =? sp_tail_cache r then sp_tail r else sp_tail_cache r in
  (mkRing (sp_cap r) (sp_mask r) (sp_slots r) (sp_head r) tail_cache (sp_tail r) (sp_head_cache r),
   u64 (tail_cache - sp_head r)).

(** A read through [slot_for_read]. *)
Definition slot_for_read r (i : Z) : option T := nthZ (sp_slots r) (slot_index (sp_mask r) (sp_head r) i).

Definition consume r (n : Z) : SpscRing T :=
  mkRing (sp_cap r) (sp_mask r) (sp_slots r) (u64 (sp_head r + n)) (sp_tail_cache r) (sp_tail r) (sp_head_cache r).

(** ** Two threads over one ring *)

(** [may] slots are granted to the producer, [can] to the consumer; [sent] and
    [received] record what was published and what was read and returned. *)
Record spsc := mkSpsc {
  ss_ring : SpscRing T;
  ss_may : Z;
  ss_can : Z;
  ss_sent : list T;
  ss_received : list T;
}.

Definition slots_from (r : SpscRing T) (base n : Z) : list T :=
  omap (fun i => nthZ (sp_slots r) (slot_index (sp_mask r) base i)) (seqZ 0 n).

Inductive spsc_step : spsc -> spsc -> Prop :=
| step_writable s r n :
    writable (ss_ring s) = (r, n) ->
    spsc_step s (mkSpsc r n (ss_can s) (ss_sent s) (ss_received s))
| step_write s i v r :
    0 <= i < ss_may s -> slot_for_write (ss_ring s) i v = Ok r ->
    spsc_step s (mkSpsc r (ss_may s) (ss_can s) (ss_sent s) (ss_received s))
| step_commit s n :
    0 <= n <= ss_may s ->
    spsc_step s (mkSpsc (commit (ss_ring s) n) (ss_may s - n) (ss_can s)
                   (ss_sent s ++ slots_from (ss_ring s) (sp_tail (ss_ring s)) n) (ss_received s))
| step_readable s r n :
    readable (ss_ring s) = (r, n) ->
    spsc_step s (mkSpsc r (ss_may s) n (ss_sent s) (ss_received s))
| step_consume s n :
    0 <= n <= ss_can s ->
    spsc_step s (mkSpsc (consume (ss_ring s) n) (ss_may s) (ss_can s - n) (ss_sent s)
                   (ss_received s ++ slots_from (ss_ring s) (sp_head (ss_ring s)) n)).

End Methods.
Arguments spsc : clear implicits.

(** ** Capacity *)

Lemma round_up_correct fuel k v :
  0 <= k <= 63 -> 63 < k + Z.of_nat fuel -> 0 <= v <= 2 ^ 63 ->
  exists j, round_up fuel (2 ^ k) v = Ok (2 ^ j) /\ k <= j <= 63 /\ v <= 2 ^ j /\ (k < j -> 2 ^ (j - 1) < v).
Proof.
  revert k. induction fuel as [| fuel IH]; intros k Hk Hf Hv; [lia |]. cbn [round_up]. split_if.
  - assert (k < 63) by (apply (Z.pow_lt_mono_r_iff 2); lia).
    rewrite Z.shiftl_mul_pow2, <- Z.pow_add_r, u64_small; [| split; [apply Z.pow_nonneg; lia | apply Z.pow_lt_mono_r; lia] | lia ..].
    destruct (IH (k + 1)) as (j & -> & Hj & Hvj & Hlow); [lia .. |]. exists j. split_and!; try done; try lia.
    intros _. destruct (Z.eq_dec j (k + 1)) as [-> |]; [by replace (k + 1 - 1) with k by lia | apply Hlow; lia].
  - exists k. split_and!; try done; lia.
Qed.

Lemma slot_index_mod k base i :
  0 <= k <= 64 -> slot_index (2 ^ k - 1) (u64 base) i = (base + i) mod 2 ^ k.
Proof.
  intros Hk. unfold slot_index. replace (2 ^ k - 1) with (Z.ones k) by (rewrite Z.ones_equiv; lia).
  rewrite Z.land_ones by lia. unfold u64. rewrite Zplus_mod_idemp_l.
  apply Z.mod_mod_divide.
  exists (2 ^ (64 - k)). rewrite <- Z.pow_add_r by lia. f_equal. lia.
Qed.

Lemma u64_diff a b : 0 <= a - b < 2 ^ 64 -> u64 (u64 a - u64 b) = a - b.
Proof. intros H. unfold u64. rewrite <- Zminus_mod. by apply Z.mod_small. Qed.

Lemma u64_add a n : u64 (u64 a + n) = u64 (a + n).
Proof. unfold u64. apply Zplus_mod_idemp_l. Qed.

(** ** The invariant *)

Lemma omap_total {A B} (f : A -> option B) l :
  (forall x, x ∈ l -> is_Some (f x)) ->
  length (omap f l) = length l /\ forall i x, l !! i = Some x -> omap f l !! i = f x.
Proof.
  induction l as [| a l IH]; intros H; [done |]. destruct (H a ltac:(by left)) as [b E].
  destruct IH as [Hl Hi]; [intros; apply H; by right |]. cbn. rewrite E. split; [cbn; by rewrite Hl |].
  intros [| i] x; cbn; [intros [= <-]; done | apply Hi].
Qed.

Section Invariant.
Context {T : Type}.

Lemma slots_from_spec (r : SpscRing T) k base n :
  0 <= k <= 64 -> sp_mask r = 2 ^ k - 1 -> lenZ (sp_slots r) = 2 ^ k -> 0 <= n ->
  lenZ (slots_from r (u64 base) n) = n /\
  forall i, 0 <= i < n -> nthZ (slots_from r (u64 base) n) i = nthZ (sp_slots r) ((base + i) mod 2 ^ k).
Proof.
  intros Hk Hm Hl Hn. unfold slots_from.
  edestruct (omap_total (fun i => nthZ (sp_slots r) (slot_index (sp_mask r) (u64 base) i)) (seqZ 0 n)) as [Hlen Hi].
  { intros i _. rewrite Hm, slot_index_mod by done. pose proof (Z.mod_pos_bound (base + i) (2 ^ k) ltac:(lia)).
    destruct (nthZ_Some (sp_slots r) ((base + i) mod 2 ^ k)) as [x E]; [lia | by exists x]. }
  split; [unfold lenZ; rewrite Hlen, length_seqZ; lia |]. intros i Hir.
  rewrite nthZ_lookup by lia. rewrite (Hi (Z.to_nat i) i), Hm, slot_index_mod; [done .. |].
  apply lookup_seqZ. lia.
Qed.

(** [hc] and [tc] are the counter values the two sides have cached, unwrapped. *)
Record spsc_inv (s : spsc T) (k hc tc : Z) : Prop := {
  si_k : 1 <= k <= 63;
  si_cap : sp_cap (ss_ring s) = 2 ^ k;
  si_mask : sp_mask (ss_ring s) = 2 ^ k - 1;
  si_slots : lenZ (sp_slots (ss_ring s)) = 2 ^ k;
  si_head : sp_head (ss_ring s) = u64 (lenZ (ss_received s));
  si_tail : sp_tail (ss_ring s) = u64 (lenZ (ss_sent s));
  si_head_cache : sp_head_cache (ss_ring s) = u64 hc;
  si_tail_cache : sp_tail_cache (ss_ring s) = u64 tc;
  si_hc : hc <= lenZ (ss_received s) /\ lenZ (ss_sent s) - hc <= 2 ^ k;
  si_tc : lenZ (ss_received s) <= tc <= lenZ (ss_sent s);
  si_may : 0 <= ss_may s <= 2 ^ k - (lenZ (ss_sent s) - hc);
  si_can : 0 <= ss_can s <= tc - lenZ (ss_received s);
  si_prefix : forall j, 0 <= j < lenZ (ss_received s) -> nthZ (ss_received s) j = nthZ (ss_sent s) j;
  si_queue : forall j, lenZ (ss_received s) <= j < lenZ (ss_sent s) ->
    nthZ (sp_slots (ss_ring s)) (j mod 2 ^ k) = nthZ (ss_sent s) j;
}.

Lemma capacity_range k : 1 <= k <= 63 -> 2 <= 2 ^ k <= 2 ^ 63.
Proof. intros Hk. split; [apply (Z.pow_le_mono_r 2 1) | apply Z.pow_le_mono_r]; lia. Qed.

Lemma writable_inv s k hc tc r n :
  spsc_inv s k hc tc -> writable (ss_ring s) = (r, n) ->
  (exists hc', spsc_inv (mkSpsc r n (ss_can s) (ss_sent s) (ss_received s)) k hc' tc) /\
  0 <= n <= 2 ^ k - (lenZ (ss_sent s) - lenZ (ss_received s)) /\
  (n = 0 <-> lenZ (ss_sent s) - lenZ (ss_received s) = 2 ^ k).
Proof.
  intros I E. destruct (I) as [Hk Hcap ? ? Hh Ht Hhc ? [? ?] ? ? ? ? ?]. pose proof (capacity_range k Hk).
  unfold writable in E. rewrite Hcap, Hh, Ht, Hhc in E.
  rewrite (u64_diff (lenZ (ss_sent s)) hc) in E by lia.
  set (hc' := if lenZ (ss_sent s) - hc =? 2 ^ k then lenZ (ss_received s) else hc).
  replace (if lenZ (ss_sent s) - hc =? 2 ^ k then u64 (lenZ (ss_received s)) else u64 hc) with (u64 hc') in E
    by (unfold hc'; by split_if).
  assert (hc <= hc' <= lenZ (ss_received s)) by (unfold hc'; split_if; lia).
  rewrite u64_diff, (u64_small (2 ^ k - _)) in E by (unfold is_u64; lia). apply pair_equal_spec in E as [<- <-].
  split_and!; [exists hc'; split; cbn [ss_ring ss_may ss_can ss_sent ss_received sp_cap sp_mask sp_slots sp_head
    sp_tail_cache sp_tail sp_head_cache]; try done; lia | lia | lia |].
  unfold hc' in *. split_if; lia.
Qed.

Lemma readable_inv s k hc tc r n :
  spsc_inv s k hc tc -> readable (ss_ring s) = (r, n) ->
  (exists tc', spsc_inv (mkSpsc r (ss_may s) n (ss_sent s) (ss_received s)) k hc tc') /\
  0 <= n <= lenZ (ss_sent s) - lenZ (ss_received s) /\
  (n = 0 <-> lenZ (ss_sent s) = lenZ (ss_received s)).
Proof.
  intros I E. destruct (I) as [Hk ? ? ? Hh Ht ? Htc [? ?] ? ? ? ? ?]. pose proof (capacity_range k Hk).
  unfold readable in E. rewrite Hh, Ht, Htc in E.
  assert ((u64 (lenZ (ss_received s)) =? u64 tc) = (lenZ (ss_received s) =? tc)) as Heq.
  { destruct (Z.eqb_spec (lenZ (ss_received s)) tc) as [-> | Hne]; [apply Z.eqb_refl |].
    apply Z.eqb_neq. intros Hu. pose proof (u64_diff tc (lenZ (ss_received s)) ltac:(lia)) as Hd.
    rewrite Hu, Z.sub_diag in Hd. change (u64 0) with 0 in Hd. lia. }
  rewrite Heq in E. set (tc' := if lenZ (ss_received s) =? tc then lenZ (ss_sent s) else tc).
  replace (if lenZ (ss_received s) =? tc then u64 (lenZ (ss_sent s)) else u64 tc) with (u64 tc') in E
    by (unfold tc'; by split_if).
  assert (tc <= tc' <= lenZ (ss_sent s)) by (unfold tc'; split_if; lia).
  rewrite u64_diff in E by lia. apply pair_equal_spec in E as [<- <-].
  split_and!; [exists tc'; split; cbn [ss_ring ss_may ss_can ss_sent ss_received sp_cap sp_mask sp_slots sp_head
    sp_tail_cache sp_tail sp_head_cache]; try done; lia | lia | lia |].
  unfold tc' in *. split_if; lia.
Qed.

(** The producer's free slots are not among the published ones. *)
Lemma free_slot_fresh s k hc tc i j :
  spsc_inv s k hc tc -> 0 <= i < ss_may s -> lenZ (ss_received s) <= j < lenZ (ss_sent s) ->
  (lenZ (ss_sent s) + i) mod 2 ^ k <> j mod 2 ^ k.
Proof.
  intros I Hi Hj E. pose proof (si_hc _ _ _ _ I). pose proof (si_may _ _ _ _ I).
  pose proof (capacity_range k (si_k _ _ _ _ I)). set (h := lenZ (ss_received s)) in *.
  replace (lenZ (ss_sent s) + i) with (h + (lenZ (ss_sent s) - h + i)) in E by lia.
  replace j with (h + (j - h)) in E by lia. apply ring_index_inj in E; lia.
Qed.

Lemma write_inv s k hc tc i v r :
  spsc_inv s k hc tc -> 0 <= i < ss_may s -> slot_for_write (ss_ring s) i v = Ok r ->
  spsc_inv (mkSpsc r (ss_may s) (ss_can s) (ss_sent s) (ss_received s)) k hc tc.
Proof.
  intros I Hi E. unfold slot_for_write in E. split_if_in E; [| done]. apply Ok_inj in E as <-.
  pose proof (si_k _ _ _ _ I). split; cbn [ss_ring ss_may ss_can ss_sent ss_received sp_cap sp_mask sp_slots sp_head
    sp_tail_cache sp_tail sp_head_cache]; rewrite ?lenZ_setZ; try apply I.
  intros j Hj. rewrite (si_mask _ _ _ _ I), (si_tail _ _ _ _ I), slot_index_mod in * by lia.
  pose proof (Z.mod_pos_bound j (2 ^ k) ltac:(lia)). rewrite nthZ_setZ by lia.
  destruct (Z.eqb_spec ((lenZ (ss_sent s) + i) mod 2 ^ k) (j mod 2 ^ k)) as [Heq |].
  - by eapply free_slot_fresh in Heq.
  - by apply (si_queue _ _ _ _ I).
Qed.

Lemma commit_inv s k hc tc n :
  spsc_inv s k hc tc -> 0 <= n <= ss_may s ->
  spsc_inv (mkSpsc (commit (ss_ring s) n) (ss_may s - n) (ss_can s)
              (ss_sent s ++ slots_from (ss_ring s) (sp_tail (ss_ring s)) n) (ss_received s)) k hc tc.
Proof.
  intros I Hn. destruct (I) as [Hk ? Hm Hs ? Ht ? ? [? ?] ? ? ? Hpre Hq].
  rewrite Ht. destruct (slots_from_spec (ss_ring s) k (lenZ (ss_sent s)) n) as [Hl Hi]; [lia | done | done | lia |].
  split; cbn [ss_ring ss_may ss_can ss_sent ss_received commit sp_cap sp_mask sp_slots sp_head
    sp_tail_cache sp_tail sp_head_cache]; rewrite ?lenZ_app, ?Hl; try done; try lia.
  - by rewrite Ht, u64_add.
  - intros j Hj. rewrite nthZ_app_l by lia. by apply Hpre.
  - intros j Hj. destruct (Z.lt_ge_cases j (lenZ (ss_sent s))).
    + rewrite nthZ_app_l by lia. apply Hq. lia.
    + rewrite nthZ_app_r, Hi by lia. do 2 f_equal. lia.
Qed.

Lemma consume_inv s k hc tc n :
  spsc_inv s k hc tc -> 0 <= n <= ss_can s ->
  spsc_inv (mkSpsc (consume (ss_ring s) n) (ss_may s) (ss_can s - n) (ss_sent s)
              (ss_received s ++ slots_from (ss_ring s) (sp_head (ss_ring s)) n)) k hc tc.
Proof.
  intros I Hn. destruct (I) as [Hk ? Hm Hs Hh ? ? ? [? ?] ? ? ? Hpre Hq].
  rewrite Hh. destruct (slots_from_spec (ss_ring s) k (lenZ (ss_received s)) n) as [Hl Hi]; [lia | done | done | lia |].
  split; cbn [ss_ring ss_may ss_can ss_sent ss_received consume sp_cap sp_mask sp_slots sp_head
    sp_tail_cache sp_tail sp_head_cache]; rewrite ?lenZ_app, ?Hl; try done; try lia.
  - by rewrite Hh, u64_add.
  - intros j Hj. destruct (Z.lt_ge_cases j (lenZ (ss_received s))).
    + rewrite nthZ_app_l by lia. apply Hpre. lia.
    + rewrite nthZ_app_r, Hi by lia. rewrite <- Hq by lia. do 2 f_equal. lia.
  - intros j Hj. apply Hq. lia.
Qed.

Lemma spsc_step_inv s s' k hc tc : spsc_inv s k hc tc -> spsc_step s s' -> exists hc' tc', spsc_inv s' k hc' tc'.
Proof.
  intros I Hstep. destruct Hstep.
  - destruct (writable_inv _ _ _ _ _ _ I H) as [[hc' I'] _]. by exists hc', tc.
  - exists hc, tc. by eapply write_inv.
  - exists hc, tc. by apply commit_inv.
  - destruct (readable_inv _ _ _ _ _ _ I H) as [[tc' I'] _]. by exists hc, tc'.
  - exists hc, tc. by apply consume_inv.
Qed.

Lemma spsc_reachable_inv s0 s k hc0 tc0 :
  rtc spsc_step s0 s -> spsc_inv s0 k hc0 tc0 -> exists hc tc, spsc_inv s k hc tc.
Proof.
  intros Hr. revert hc0 tc0. induction Hr as [| ? ? ? Hstep _ IH]; intros hc0 tc0 I0; [by exists hc0, tc0 |].
  destruct (spsc_step_inv _ _ _ _ _ I0 Hstep) as (hc' & tc' & I'). by eapply IH.
Qed.

End Invariant.

Lemma new_ring_inv {T} (uninit : nat -> T) min_capacity :
  0 <= min_capacity <= 2 ^ 63 ->
  exists r k, new_ring uninit min_capacity = Ok r /\ spsc_inv (mkSpsc r 0 0 [] []) k 0 0 /\
    min_capacity <= 2 ^ k /\ (2 < min_capacity -> 2 ^ (k - 1) < min_capacity).
Proof.
  intros Hm. unfold new_ring, round_up_pow2.
  destruct (round_up_correct 65 0 (if min_capacity <? 2 then 2 else min_capacity)) as (k & E & Hk & Hv & Hlow);
    [lia | lia | split_if; lia |].
  change (2 ^ 0) with 1 in E. rewrite E. cbn [res_bind].
  assert (1 <= k) by (destruct (Z.eq_dec k 0) as [-> |]; [change (2 ^ 0) with 1 in Hv; split_if_in Hv; lia | lia]).
  pose proof (capacity_range k ltac:(lia)). eexists _, k. split; [done |]. split_and!.
  - split; cbn [ss_ring ss_may ss_can ss_sent ss_received sp_cap sp_mask sp_slots sp_head
      sp_tail_cache sp_tail sp_head_cache]; rewrite ?lenZ_nil; try done; try lia.
    + unfold lenZ. rewrite length_fmap, length_seq. lia.
    + unfold lenZ. cbn. lia.
    + unfold lenZ. cbn [length Z.of_nat]. lia.
  - split_if_in Hv; lia.
  - intros H2. specialize (Hlow ltac:(lia)). split_if_in Hlow; lia.
Qed.

Lemma prefix_nthZ {A} (l1 l2 : list A) :
  lenZ l1 <= lenZ l2 -> (forall j, 0 <= j < lenZ l1 -> nthZ l1 j = nthZ l2 j) -> l1 `prefix_of` l2.
Proof.
  intros Hl H. exists (drop (length l1) l2). apply list_eq. intros i. destruct (decide (i < length l1)%nat).
  - rewrite lookup_app_l by done. specialize (H (Z.of_nat i) ltac:(unfold lenZ; lia)).
    rewrite !nthZ_lookup, Nat2Z.id in H by lia. by rewrite H.
  - rewrite lookup_app_r, lookup_drop by lia. f_equal. lia.
Qed.

(** C30: The ring is a bounded first-in first-out channel under every interleaving of
    its two threads and across counter wrap-around: what the consumer has taken is
    a prefix of what the producer has published, at most [capacity] entries are
    outstanding, the consumer reads exactly the oldest unread entries, the slots
    granted to the producer never hold an unread entry, and a side is told full or
    empty only when the ring really is. *)
Theorem spsc_ring_fifo {T} (uninit : nat -> T) min_capacity :
  0 <= min_capacity <= 2 ^ 63 ->
  exists r0, new_ring uninit min_capacity = Ok r0 /\ min_capacity <= sp_cap r0 /\
  forall s, rtc spsc_step (mkSpsc r0 0 0 [] []) s ->
    let r := ss_ring s in
    let pending := lenZ (ss_sent s) - lenZ (ss_received s) in
    ss_received s `prefix_of` ss_sent s /\ 0 <= pending <= sp_cap r0 /\
    (forall i, 0 <= i < ss_can s -> slot_for_read r i = nthZ (ss_sent s) (lenZ (ss_received s) + i)) /\
    (forall i j, 0 <= i < ss_may s -> 0 <= j < pending ->
       slot_index (sp_mask r) (sp_tail r) i <> slot_index (sp_mask r) (sp_head r) j) /\
    (snd (writable r) = 0 <-> pending = sp_cap r0) /\ (snd (readable r) = 0 <-> pending = 0).
Proof.
  intros Hm. destruct (new_ring_inv uninit min_capacity Hm) as (r0 & k & E & I0 & Hk & _).
  exists r0. rewrite (si_cap _ _ _ _ I0 : sp_cap r0 = 2 ^ k). split_and!; [done .. |]. intros s Hr. cbv zeta.
  destruct (spsc_reachable_inv _ _ _ _ _ Hr I0) as (hc & tc & I).
  pose proof I as [Hkr Hcap Hmask ? Hh Ht _ _ ? ? ? ? ? Hq].
  destruct (writable (ss_ring s)) as [r1 n1] eqn:E1, (readable (ss_ring s)) as [r2 n2] eqn:E2. cbn [snd].
  destruct (writable_inv _ _ _ _ _ _ I E1) as (_ & _ & Hw), (readable_inv _ _ _ _ _ _ I E2) as (_ & _ & Hre).
  split_and!; [apply prefix_nthZ; [lia | done] | lia | lia | | | lia ..].
  - intros i Hi. unfold slot_for_read. rewrite Hmask, Hh, slot_index_mod by lia. apply Hq. lia.
  - intros i j Hi Hj. rewrite Hmask, Hh, Ht, !slot_index_mod by lia. eapply free_slot_fresh; [done .. | lia].
Qed.

Lemma spsc_ring_fifo_witness :
  exists r0, new_ring (fun _ => 0) 3 = Ok r0 /\ 3 <= sp_cap r0 /\
  forall s, rtc spsc_step (mkSpsc r0 0 0 [] []) s ->
    let r := ss_ring s in
    let pending := lenZ (ss_sent s) - lenZ (ss_received s) in
    ss_received s `prefix_of` ss_sent s /\ 0 <= pending <= sp_cap r0 /\
    (forall i, 0 <= i < ss_can s -> slot_for_read r i = nthZ (ss_sent s) (lenZ (ss_received s) + i)) /\
    (forall i j, 0 <= i < ss_may s -> 0 <= j < pending ->
       slot_index (sp_mask r) (sp_tail r) i <> slot_index (sp_mask r) (sp_head r) j) /\
    (snd (writable r) = 0 <-> pending = sp_cap r0) /\ (snd (readable r) = 0 <-> pending = 0).
Proof. apply (spsc_ring_fifo (fun _ => 0) 3). lia. Defined.
