(* ===== verification/Packet.v ===== *)
(** * Varints and the long packet header

    Models the C scaffold's codecs: the variable-length integers of
    [src/src/varint.c] and the long header of [src/src/packet.c].  A null pointer
    argument is outside the model; the other branches are all there, including the
    header fields a failing decode has already overwritten. *)

From S2P Require Import Prelude Wire.

(** ** Varints *)

Definition fuse_varint_encoded_len (value : Z) : Z :=
  if value <=? 0x3F then 1
  else if value <=? 0x3FFF then 2
  else if value <=? 0x3FFFFFFF then 4
  else if value <=? 0x3FFFFFFFFFFFFFFF then 8
  else 0.

(** [out[i] = v] *)
Definition poke (out : bytes) (i v : Z) : res bytes :=
  if (0 <=? i) && (i <? lenZ out) then Ok (setZ out i (u8 v)) else Fault.

(** The store loop, from the last byte down. *)
Fixpoint store_down (len : nat) (value : Z) (out : bytes) : res bytes :=
  match len with
  | O => Ok out
  | S m => res_bind (poke out (Z.of_nat m) (Z.land value 0xFF)) (store_down m (Z.shiftr value 8))
  end.

Definition varint_prefix (len : Z) : Z :=
  if len =? 1 then 0 else if len =? 2 then 1 else if len =? 4 then 2 else 3.

Definition fuse_varint_encode (value : Z) (out : bytes) : res (bytes * Z) :=
  let len := fuse_varint_encoded_len value in
  if (len =? 0) || (lenZ out <? len) then Ok (out, 0)
  else
    res_bind (store_down (Z.to_nat len) value out) (fun out =>
    match nthZ out 0 with
    | None => Fault
    | Some b => res_bind (poke out 0 (Z.lor b (u8 (Z.shiftl (varint_prefix len) 6)))) (fun out => Ok (out, len))
    end).

(** The value and the number of bytes consumed; [Reject] where the code returns 0. *)
Definition fuse_varint_decode (inp : bytes) : res (Z * Z) :=
  if lenZ inp <? 1 then Reject
  else
    res_bind (get_u8 inp) (fun '(first, rest) =>
    let len := Z.shiftl 1 (Z.shiftr first 6) in
    if lenZ inp <? len then Reject
    else
      res_bind (get_loop u64 (Z.to_nat (len - 1)) (Z.land first 0x3F) rest) (fun '(v, _) => Ok (v, len))).

(** ** The long header *)

Definition FUSE_CONNECTION_ID_MAX_LEN : Z := 20.

Record fuse_connection_id := mkCid {
  cid_data : bytes;
  cid_len : Z;
}.

Inductive fuse_packet_type := FUSE_PACKET_INITIAL | FUSE_PACKET_HANDSHAKE | FUSE_PACKET_SHORT.

Definition packet_type_code (t : fuse_packet_type) : Z :=
  match t with FUSE_PACKET_INITIAL => 0 | FUSE_PACKET_HANDSHAKE => 1 | FUSE_PACKET_SHORT => 2 end.

(** [if (type > FUSE_PACKET_SHORT) return 0; hdr->type = (fuse_packet_type)type;] *)
Definition packet_type_of (b : Z) : option fuse_packet_type :=
  if 2 <? b then None
  else Some (if b =? 0 then FUSE_PACKET_INITIAL else if b =? 1 then FUSE_PACKET_HANDSHAKE else FUSE_PACKET_SHORT).

Record fuse_long_header := mkLongHeader {
  lh_type : fuse_packet_type;
  lh_version : Z;
  lh_dst_cid : fuse_connection_id;
  lh_src_cid : fuse_connection_id;
  lh_packet_number : Z;
}.

Definition put_version (v : Z) : wr :=
  put_u8 (Z.land (Z.shiftr v 24) 0xFF) ;;; put_u8 (Z.land (Z.shiftr v 16) 0xFF) ;;;
  put_u8 (Z.land (Z.shiftr v 8) 0xFF) ;;; put_u8 (Z.land v 0xFF).

Definition put_cid (c : fuse_connection_id) : wr :=
  put_u8 (cid_len c) ;;; put_bytes (take (Z.to_nat (cid_len c)) (cid_data c)).

Definition fuse_long_header_encode (hdr : fuse_long_header) (out : bytes) : res (bytes * Z) :=
  let dst := lh_dst_cid hdr in
  let src := lh_src_cid hdr in
  if (FUSE_CONNECTION_ID_MAX_LEN <? cid_len dst) || (FUSE_CONNECTION_ID_MAX_LEN <? cid_len src) then Ok (out, 0)
  else
    let pn_len := fuse_varint_encoded_len (lh_packet_number hdr) in
    if pn_len =? 0 then Ok (out, 0)
    else
      let needed := 1 + 4 + 1 + cid_len dst + 1 + cid_len src + pn_len in
      if lenZ out <? needed then Ok (out, 0)
      else
        res_bind ((put_u8 (packet_type_code (lh_type hdr)) ;;; put_version (lh_version hdr) ;;;
                   put_cid dst ;;; put_cid src) out) (fun '(b, rest) =>
        res_bind (fuse_varint_encode (lh_packet_number hdr) rest) (fun '(rest, written) =>
        if written =? 0 then Ok (b ++ rest, 0) else Ok (b ++ rest, lenZ b + written))).

Definition get_version : rd Z :=
  b0 <~ get_u8 ;; b1 <~ get_u8 ;; b2 <~ get_u8 ;; b3 <~ get_u8 ;;
  rd_ret (Z.lor (Z.lor (Z.lor (Z.shiftl b0 24) (Z.shiftl b1 16)) (Z.shiftl b2 8)) b3).

(** Reads a length byte and that many bytes over the start of a connection ID;
    [None] where the code returns 0. *)
Definition get_cid (old : fuse_connection_id) (inp : bytes) : res (option (fuse_connection_id * bytes)) :=
  if lenZ inp <? 1 then Ok None
  else
    res_bind (get_u8 inp) (fun '(n, rest) =>
    if (FUSE_CONNECTION_ID_MAX_LEN <? n) || (lenZ rest <? n) then Ok None
    else res_bind (get_bytes n rest) (fun '(bs, rest) => Ok (Some (mkCid (splice (cid_data old) 0 bs) n, rest)))).

Definition set_type (h : fuse_long_header) (t : fuse_packet_type) : fuse_long_header :=
  mkLongHeader t (lh_version h) (lh_dst_cid h) (lh_src_cid h) (lh_packet_number h).
Definition set_version (h : fuse_long_header) (v : Z) : fuse_long_header :=
  mkLongHeader (lh_type h) v (lh_dst_cid h) (lh_src_cid h) (lh_packet_number h).
Definition set_dst (h : fuse_long_header) (c : fuse_connection_id) : fuse_long_header :=
  mkLongHeader (lh_type h) (lh_version h) c (lh_src_cid h) (lh_packet_number h).
Definition set_src (h : fuse_long_header) (c : fuse_connection_id) : fuse_long_header :=
  mkLongHeader (lh_type h) (lh_version h) (lh_dst_cid h) c (lh_packet_number h).
Definition set_pn (h : fuse_long_header) (pn : Z) : fuse_long_header :=
  mkLongHeader (lh_type h) (lh_version h) (lh_dst_cid h) (lh_src_cid h) pn.

(** The header as the caller finds it afterwards and the length returned. *)
Definition fuse_long_header_decode (inp : bytes) (hdr : fuse_long_header) : res (fuse_long_header * Z) :=
  if lenZ inp <? 1 then Ok (hdr, 0)
  else
    res_bind (get_u8 inp) (fun '(type, rest) =>
    match packet_type_of type with
    | None => Ok (hdr, 0)
    | Some t =>
        let hdr := set_type hdr t in
        if lenZ rest <? 4 then Ok (hdr, 0)
        else
          res_bind (get_version rest) (fun '(v, rest) =>
          let hdr := set_version hdr v in
          res_bind (get_cid (lh_dst_cid hdr) rest) (fun c =>
          match c with
          | None => Ok (hdr, 0)
          | Some (dst, rest) =>
              let hdr := set_dst hdr dst in
              res_bind (get_cid (lh_src_cid hdr) rest) (fun c =>
              match c with
              | None => Ok (hdr, 0)
              | Some (src, rest) =>
                  let hdr := set_src hdr src in
                  match fuse_varint_decode rest with
                  | Fault => Fault
                  | Reject => Ok (hdr, 0)
                  | Ok (pn, pn_len) => Ok (set_pn hdr pn, lenZ inp - lenZ rest + pn_len)
                  end
              end)
          end))
    end).

(** ** The wire form of a varint *)

Lemma be_mod n v w : v mod 2 ^ (8 * Z.of_nat n) = w mod 2 ^ (8 * Z.of_nat n) -> be n v = be n w.
Proof.
  revert v w. induction n as [| n IH]; intros v w E; [done |]. rewrite !be_snoc.
  replace (8 * Z.of_nat (S n)) with (8 + 8 * Z.of_nat n) in E by lia.
  rewrite Z.pow_add_r, !Z.rem_mul_r in E by (try apply Z.pow_nonzero; lia).
  assert (0 <= v mod 2 ^ 8 < 2 ^ 8 /\ 0 <= w mod 2 ^ 8 < 2 ^ 8) as [? ?] by (split; apply Z.mod_pos_bound; lia).
  f_equal; [| unfold u8; f_equal; nia]. apply IH. change 256 with (2 ^ 8). nia.
Qed.

Lemma store_down_be n v out :
  Z.of_nat n <= lenZ out -> store_down n v out = Ok (be n v ++ drop n out).
Proof.
  revert v out. induction n as [| n IH]; intros v out Hl; cbn [store_down]; [by rewrite drop_0 |].
  unfold poke. split_if; [| lia]. cbn [res_bind]. rewrite IH by (rewrite lenZ_setZ; lia).
  rewrite be_snoc, <- app_assoc, Z.shiftr_div_pow2 by lia. change (2 ^ 8) with 256. f_equal. f_equal. unfold setZ. rewrite Nat2Z.id.
  assert (u8 (Z.land v 255) = u8 v) as ->.
  { change 255 with (Z.ones 8). rewrite Z.land_ones by lia. apply Z.mod_mod. lia. }
  apply list_eq. intros [| i]; rewrite lookup_drop.
  - rewrite Nat.add_0_r, list_lookup_insert_eq by (unfold lenZ in Hl; lia). done.
  - rewrite list_lookup_insert_ne by lia.
    transitivity (drop (S n) out !! i); [rewrite lookup_drop; f_equal; lia | done].
Qed.

Definition varint_wire (v : Z) : bytes :=
  let len := fuse_varint_encoded_len v in
  be (Z.to_nat len) (v + varint_prefix len * 2 ^ (8 * len - 2)).

(** The four encodings: length, prefix and range. *)
Lemma varint_cases v :
  0 <= v < 2 ^ 62 ->
  exists m, fuse_varint_encoded_len v = Z.of_nat (S m) /\ 0 <= v < 2 ^ (8 * Z.of_nat (S m) - 2) /\
    (m = 0 \/ m = 1 \/ m = 3 \/ m = 7)%nat.
Proof.
  intros Hv. unfold fuse_varint_encoded_len. repeat split_if.
  - exists 0%nat. split_and!; [done | lia | cbn; lia | lia].
  - exists 1%nat. split_and!; [done | lia | cbn; lia | lia].
  - exists 3%nat. split_and!; [done | lia | cbn; lia | lia].
  - exists 7%nat. split_and!; [done | lia | cbn; lia | lia].
  - lia.
Qed.

(** The first byte of an encoding carries the prefix over the top six bits. *)
Lemma varint_first v m p :
  0 <= v < 2 ^ (8 * Z.of_nat (S m) - 2) -> 0 <= p < 4 ->
  be (S m) (v + p * 2 ^ (8 * Z.of_nat (S m) - 2)) = 64 * p + Z.shiftr v (8 * Z.of_nat m) :: be m v /\
  0 <= Z.shiftr v (8 * Z.of_nat m) < 64.
Proof.
  intros Hv Hp. replace (8 * Z.of_nat (S m) - 2) with (8 * Z.of_nat m + 6) in * by lia.
  rewrite Z.pow_add_r in * by lia. set (q := 2 ^ (8 * Z.of_nat m)) in *.
  assert (0 < q) by (apply Z.pow_pos_nonneg; lia).
  rewrite be_S, !Z.shiftr_div_pow2 by lia. fold q.
  replace (v + p * (q * 2 ^ 6)) with (v + p * 2 ^ 6 * q) by lia. rewrite Z.div_add by lia.
  assert (0 <= v / q < 64) by (split; [apply Z.div_pos; lia | apply Z.div_lt_upper_bound; lia]).
  split; [| done]. f_equal; [unfold u8; rewrite Z.mod_small; lia |].
  apply be_mod. fold q. apply Z.mod_add. lia.
Qed.

Lemma varint_encode_wire v out :
  0 <= v < 2 ^ 62 -> fuse_varint_encoded_len v <= lenZ out ->
  fuse_varint_encode v out = Ok (varint_wire v ++ drop (length (varint_wire v)) out, fuse_varint_encoded_len v).
Proof.
  intros Hv Hl. destruct (varint_cases v Hv) as (m & E & Hr & Hm). unfold fuse_varint_encode, varint_wire.
  rewrite be_length. rewrite E in *. rewrite Nat2Z.id. split_if; [destruct Hif; bool_hyps; lia |]. rewrite store_down_be by lia.
  cbn [res_bind]. assert (0 <= varint_prefix (Z.of_nat (S m)) < 4) as Hp by (unfold varint_prefix; repeat split_if; lia).
  destruct (varint_first v m _ Hr Hp) as [-> Hs]. destruct (varint_first v m 0 Hr ltac:(lia)) as [E0 _].
  rewrite Z.mul_0_l, Z.add_0_r in E0. rewrite E0. cbn [app nthZ].
  change (nthZ ((64 * 0 + Z.shiftr v (8 * Z.of_nat m)) :: be m v ++ drop (S m) out) 0)
    with (Some (64 * 0 + Z.shiftr v (8 * Z.of_nat m))). cbv iota beta.
  unfold poke. rewrite lenZ_cons. pose proof (lenZ_nonneg (be m v ++ drop (S m) out)). split_if; [| lia].
  cbn [res_bind]. rewrite Z.mul_0_r, Z.add_0_l. unfold setZ. change (Z.to_nat 0) with 0%nat. cbn [insert list_insert].
  do 4 f_equal. rewrite Z.lor_comm. rewrite (u8_small (Z.shiftl _ _)) by
    (unfold is_u8; rewrite Z.shiftl_mul_pow2; lia).
  rewrite shiftl_lor by lia. apply u8_small. unfold is_u8. lia.
Qed.

Lemma varint_decode_wire v rest :
  0 <= v < 2 ^ 62 -> fuse_varint_decode (varint_wire v ++ rest) = Ok (v, fuse_varint_encoded_len v).
Proof.
  intros Hv. destruct (varint_cases v Hv) as (m & E & Hr & Hm). unfold fuse_varint_decode, varint_wire. rewrite E, Nat2Z.id.
  set (p := varint_prefix (Z.of_nat (S m))).
  assert (0 <= p < 4 /\ Z.shiftl 1 p = Z.of_nat (S m)) as [Hp Hlen].
  { subst p. destruct Hm as [-> | [-> | [-> | ->]]]; done. }
  destruct (varint_first v m p Hr Hp) as [-> Hs]. cbn [app]. rewrite lenZ_cons, lenZ_app, lenZ_be.
  pose proof (lenZ_nonneg rest). split_if; [lia |]. cbn [get_u8 res_bind].
  assert (Z.shiftr (64 * p + Z.shiftr v (8 * Z.of_nat m)) 6 = p) as ->.
  { rewrite (Z.shiftr_div_pow2 _ 6) by lia. mlia. }
  rewrite Hlen. split_if; [lia |]. replace (Z.to_nat (Z.of_nat (S m) - 1)) with m by lia.
  assert (Z.land (64 * p + Z.shiftr v (8 * Z.of_nat m)) 63 = Z.shiftr v (8 * Z.of_nat m)) as ->.
  { change 63 with (Z.ones 6). rewrite Z.land_ones by lia. mlia. }
  rewrite (get_loop_be _ _ _ _ 1).
  - cbn [res_bind]. rewrite foldl_be, Z.shiftr_div_pow2 by lia. do 2 f_equal.
    rewrite (Z.div_mod v (2 ^ (8 * Z.of_nat m))) at 3 by (apply Z.pow_nonzero; lia). lia.
  - intros x Hx. apply u64_small. split; [lia |]. eapply Z.lt_le_trans; [apply Hx |]. apply Z.pow_le_mono_r; lia.
  - cbn. lia.
Qed.

(** ** The wire form of a long header *)

Definition cid_bytes (c : fuse_connection_id) : bytes := take (Z.to_nat (cid_len c)) (cid_data c).

Definition cid_wire (c : fuse_connection_id) : bytes := cid_len c :: cid_bytes c.

Definition header_prefix (h : fuse_long_header) : bytes :=
  [packet_type_code (lh_type h)] ++ be 4 (lh_version h) ++ cid_wire (lh_dst_cid h) ++ cid_wire (lh_src_cid h).

Definition header_wire (h : fuse_long_header) : bytes := header_prefix h ++ varint_wire (lh_packet_number h).

Definition wf_cid (c : fuse_connection_id) : Prop := lenZ (cid_data c) = 20 /\ 0 <= cid_len c <= 20.

Record wf_long_header (h : fuse_long_header) : Prop := {
  wl_version : is_u32 (lh_version h);
  wl_dst : wf_cid (lh_dst_cid h);
  wl_src : wf_cid (lh_src_cid h);
  wl_pn : 0 <= lh_packet_number h < 2 ^ 62;
}.

Lemma lenZ_cid_bytes c : wf_cid c -> lenZ (cid_bytes c) = cid_len c.
Proof. intros [Hd Hl]. unfold cid_bytes. rewrite lenZ_take; lia. Qed.

Lemma lenZ_varint_wire v : 0 <= v < 2 ^ 62 -> lenZ (varint_wire v) = fuse_varint_encoded_len v.
Proof.
  intros Hv. destruct (varint_cases v Hv) as (m & E & _). unfold varint_wire. rewrite lenZ_be, E. lia.
Qed.

Lemma lenZ_header_prefix h :
  wf_long_header h -> lenZ (header_prefix h) = 7 + cid_len (lh_dst_cid h) + cid_len (lh_src_cid h).
Proof.
  intros W. unfold header_prefix, cid_wire.
  rewrite !lenZ_app, !lenZ_cons, lenZ_be, !lenZ_cid_bytes, lenZ_nil by apply W. lia.
Qed.

Lemma u8_land_ff x : u8 (Z.land x 255) = u8 x.
Proof. change 255 with (Z.ones 8). rewrite Z.land_ones by lia. apply Z.mod_mod. lia. Qed.

Lemma writes_header_prefix h :
  wf_long_header h ->
  writes (put_u8 (packet_type_code (lh_type h)) ;;; put_version (lh_version h) ;;;
          put_cid (lh_dst_cid h) ;;; put_cid (lh_src_cid h)) (header_prefix h).
Proof.
  intros W. assert (forall v, writes (put_version v) (be 4 v)) as Hv.
  { intros v. unfold put_version. rewrite !be_S, Z.shiftr_0_r.
    repeat (apply (writes_seq _ _ [_]); [rewrite <- u8_land_ff; apply writes_u8 |]).
    rewrite <- u8_land_ff. apply writes_u8. }
  assert (forall c, wf_cid c -> writes (put_cid c) (cid_wire c)) as Hc.
  { intros c [_ Hl]. unfold put_cid, cid_wire. apply (writes_seq _ _ [_]); [| apply writes_bytes].
    rewrite <- (u8_small (cid_len c)) at 2 by (unfold is_u8; lia). apply writes_u8. }
  unfold header_prefix. apply writes_seq; [| apply writes_seq; [done | apply writes_seq; apply Hc; apply W]].
  rewrite <- (u8_small (packet_type_code _)) at 2 by (unfold is_u8; destruct (lh_type h); cbn; lia). apply writes_u8.
Qed.

Lemma header_encode_wire h out :
  wf_long_header h -> lenZ (header_wire h) <= lenZ out ->
  fuse_long_header_encode h out = Ok (header_wire h ++ drop (length (header_wire h)) out, lenZ (header_wire h)).
Proof.
  intros W Hl. unfold fuse_long_header_encode, FUSE_CONNECTION_ID_MAX_LEN.
  pose proof (wl_dst _ W) as [_ ?]. pose proof (wl_src _ W) as [_ ?].
  split_if; [destruct Hif; bool_hyps; lia |]. destruct (varint_cases _ (wl_pn _ W)) as (m & E & _).
  split_if; [lia |]. unfold header_wire in *. pose proof (lenZ_varint_wire _ (wl_pn _ W)) as Hlv.
  rewrite lenZ_app, Hlv, lenZ_header_prefix in Hl by done. split_if; [lia |].
  rewrite writes_header_prefix by (done || rewrite lenZ_header_prefix by done; lia). cbn [res_bind].
  rewrite varint_encode_wire; [| apply W |].
  - cbn [res_bind]. split_if; [lia |]. rewrite <- app_assoc, lenZ_app, Hlv, length_app, drop_drop. done.
  - pose proof (lenZ_header_prefix h W) as Hlp. unfold lenZ in *. rewrite length_drop. lia.
Qed.

Lemma get_version_be v rest : is_u32 v -> get_version (be 4 v ++ rest) = Ok (v, rest).
Proof.
  intros Hv. rewrite !be_S. unfold get_version, rd_bind, rd_ret. cbn [app get_u8 res_bind].
  change (be 0 v) with (@nil Z). cbn [app]. do 2 f_equal.
  change (8 * Z.of_nat 3) with 24. change (8 * Z.of_nat 2) with 16. change (8 * Z.of_nat 1) with 8.
  change (8 * Z.of_nat 0) with 0. rewrite Z.shiftr_0_r, !Z.shiftr_div_pow2 by lia.
  pose proof (u8_range (v / 2 ^ 24)). pose proof (u8_range (v / 2 ^ 16)). pose proof (u8_range (v / 2 ^ 8)).
  pose proof (u8_range v). unfold is_u8 in *. rewrite (Z.shiftl_mul_pow2 _ 16), (Z.shiftl_mul_pow2 _ 8) by lia.
  rewrite shiftl_lor by lia.
  replace (2 ^ 24 * u8 (v / 2 ^ 24) + u8 (v / 2 ^ 16) * 2 ^ 16)
    with (Z.shiftl (2 ^ 8 * u8 (v / 2 ^ 24) + u8 (v / 2 ^ 16)) 16) by (rewrite Z.shiftl_mul_pow2; lia).
  rewrite shiftl_lor by lia.
  match goal with |- Z.lor ?a _ = _ => replace a with
    (Z.shiftl (2 ^ 16 * u8 (v / 2 ^ 24) + 2 ^ 8 * u8 (v / 2 ^ 16) + u8 (v / 2 ^ 8)) 8)
    by (rewrite Z.shiftl_mul_pow2; lia) end.
  rewrite shiftl_lor by lia. ulia.
Qed.

(** What decoding leaves of an old connection ID. *)
Definition overlay (old c : fuse_connection_id) : fuse_connection_id :=
  mkCid (splice (cid_data old) 0 (cid_bytes c)) (cid_len c).

Lemma cid_bytes_overlay old c : wf_cid old -> wf_cid c -> cid_bytes (overlay old c) = cid_bytes c.
Proof.
  intros [Ho _] Wc. unfold cid_bytes at 1, overlay. cbn [cid_len cid_data]. pose proof (lenZ_cid_bytes c Wc) as Hl.
  unfold splice. change (Z.to_nat 0) with 0%nat. rewrite take_0, app_nil_l, <- Hl. apply take_all_lenZ.
Qed.

Lemma get_cid_wire old c rest :
  wf_cid c -> get_cid old (cid_wire c ++ rest) = Ok (Some (overlay old c, rest)).
Proof.
  intros W. pose proof (lenZ_cid_bytes c W) as Hl. destruct W as [_ Hr]. unfold get_cid, cid_wire. cbn [app].
  rewrite lenZ_cons, lenZ_app. pose proof (lenZ_nonneg rest). split_if; [lia |]. cbn [get_u8 res_bind].
  unfold FUSE_CONNECTION_ID_MAX_LEN. rewrite lenZ_app. split_if; [destruct Hif; bool_hyps; lia |].
  by rewrite get_bytes_app by done.
Qed.

Lemma packet_type_roundtrip t : packet_type_of (packet_type_code t) = Some t.
Proof. by destruct t. Qed.

Lemma header_decode_wire h old rest :
  wf_long_header h ->
  fuse_long_header_decode (header_wire h ++ rest) old =
    Ok (mkLongHeader (lh_type h) (lh_version h) (overlay (lh_dst_cid old) (lh_dst_cid h))
          (overlay (lh_src_cid old) (lh_src_cid h)) (lh_packet_number h), lenZ (header_wire h)).
Proof.
  intros W. unfold fuse_long_header_decode, header_wire, header_prefix. rewrite <- !app_assoc.
  set (tail := be 4 (lh_version h) ++ cid_wire (lh_dst_cid h) ++ cid_wire (lh_src_cid h) ++
                 varint_wire (lh_packet_number h) ++ rest).
  cbn [app]. rewrite lenZ_cons. pose proof (lenZ_nonneg tail). split_if; [lia |]. cbn [get_u8 res_bind].
  rewrite packet_type_roundtrip. unfold tail at 1. rewrite lenZ_app, lenZ_be.
  pose proof (lenZ_nonneg (cid_wire (lh_dst_cid h) ++ cid_wire (lh_src_cid h) ++ varint_wire (lh_packet_number h) ++ rest)).
  split_if; [lia |]. unfold tail at 1. rewrite get_version_be by apply W. cbn [res_bind].
  rewrite get_cid_wire by apply W. cbn [res_bind]. rewrite get_cid_wire by apply W. cbn [res_bind].
  rewrite varint_decode_wire by apply W. do 2 f_equal.
  unfold tail. rewrite lenZ_cons, !lenZ_app, lenZ_varint_wire by apply W. lia.
Qed.

(** ** Reading untrusted bytes *)

Lemma varint_decode_bounds inp :
  Forall is_u8 inp ->
  fuse_varint_decode inp <> Fault /\
  forall v n, fuse_varint_decode inp = Ok (v, n) -> 1 <= n <= lenZ inp /\ 0 <= v < 2 ^ 62.
Proof.
  intros Hb. unfold fuse_varint_decode. split_if; [done |]. destruct inp as [| first rest]; [by rewrite lenZ_nil in *; lia |].
  apply Forall_cons_1 in Hb as [Hf Hb]. cbn [get_u8 res_bind].
  assert (0 <= Z.shiftr first 6 <= 3) as Hs by (rewrite Z.shiftr_div_pow2 by lia; unfold is_u8 in Hf; mlia).
  assert (Z.land first 63 = first mod 64) as -> by (apply (Z.land_ones first 6); lia).
  split_if; [done |]. rewrite Z.shiftl_1_l in *. pose proof (Z.pow_pos_nonneg 2 (Z.shiftr first 6) ltac:(lia) ltac:(lia)).
  set (m := Z.to_nat (2 ^ Z.shiftr first 6 - 1)). rewrite lenZ_cons in *.
  assert (length (take m rest) = m) as Hlm by (rewrite length_take; unfold lenZ in *; lia).
  assert (2 ^ Z.shiftr first 6 <= 2 ^ 3) as Hmax by (apply Z.pow_le_mono_r; lia).
  assert (get_loop u64 m (first mod 64) rest =
          Ok (foldl (fun acc b => 256 * acc + b) (first mod 64) (be m (unbe (take m rest))), drop m rest)) as ->.
  { rewrite <- (take_drop m rest) at 1. rewrite <- (be_unbe (take m rest) m) at 1 by (try done; by apply Forall_take).
    apply (get_loop_be _ _ _ _ 1); [| cbn; mlia]. intros x Hx. apply u64_small. split; [lia |].
    eapply Z.lt_le_trans; [apply Hx |]. apply Z.pow_le_mono_r; lia. }
  cbn [res_bind]. split; [done |]. intros v n E. apply Ok_inj, pair_equal_spec in E as [<- <-]. split; [lia |].
  assert (0 <= first mod 64 < 64) by (apply Z.mod_pos_bound; lia).
  rewrite foldl_be by lia.
  assert (0 <= unbe (take m rest) mod 2 ^ (8 * Z.of_nat m) < 2 ^ (8 * Z.of_nat m)) by (apply Z.mod_pos_bound; lia).
  assert (2 ^ (8 * Z.of_nat m) <= 2 ^ 56) by (apply Z.pow_le_mono_r; lia).
  split; [|]; nia.
Qed.

Lemma get_cid_bounds old inp :
  Forall is_u8 inp ->
  match get_cid old inp with
  | Ok (Some (c, rest)) => Forall is_u8 rest /\ lenZ rest < lenZ inp
  | Ok None => True
  | _ => False
  end.
Proof.
  intros Hb. unfold get_cid. split_if; [done |]. destruct inp as [| n rest]; [done |].
  apply Forall_cons_1 in Hb as [Hn Hb]. cbn [get_u8 res_bind]. split_if; [done |].
  unfold get_bytes. split_if; [lia |]. cbn [res_bind]. split; [by apply Forall_drop |].
  unfold is_u8 in Hn. rewrite lenZ_cons, lenZ_drop by lia. lia.
Qed.

Lemma get_version_bounds inp :
  Forall is_u8 inp -> 4 <= lenZ inp ->
  exists v rest, get_version inp = Ok (v, rest) /\ Forall is_u8 rest /\ lenZ rest < lenZ inp.
Proof.
  intros Hb Hl. destruct inp as [| b0 [| b1 [| b2 [| b3 rest]]]]; try (unfold lenZ in Hl; cbn in Hl; lia).
  eexists _, rest. split; [done |]. split; [by repeat apply Forall_cons_1 in Hb as [_ Hb] |].
  rewrite !lenZ_cons. lia.
Qed.

Lemma header_decode_bounds inp old :
  Forall is_u8 inp ->
  exists h n, fuse_long_header_decode inp old = Ok (h, n) /\ 0 <= n <= lenZ inp.
Proof.
  intros Hb. pose proof (lenZ_nonneg inp). unfold fuse_long_header_decode. split_if; [eexists _, 0; split; [done | lia] |].
  destruct inp as [| t r1]; [done |]. rewrite lenZ_cons in *. apply Forall_cons_1 in Hb as [_ Hb]. cbn [get_u8 res_bind].
  destruct (packet_type_of t) as [ty |]; [| eexists _, 0; split; [done | lia]].
  split_if; [eexists _, 0; split; [done | lia] |].
  destruct (get_version_bounds r1 Hb) as (v & r2 & -> & Hb2 & Hl2); [lia |]. cbn [res_bind].
  pose proof (get_cid_bounds (lh_dst_cid (set_version (set_type old ty) v)) r2 Hb2) as H3.
  destruct (get_cid _ r2) as [| | [[dst r3] |]]; try done; cbn [res_bind]; [| eexists _, 0; split; [done | lia]].
  destruct H3 as [Hb3 Hl3].
  pose proof (get_cid_bounds (lh_src_cid (set_dst (set_version (set_type old ty) v) dst)) r3 Hb3) as H4.
  destruct (get_cid _ r3) as [| | [[src r4] |]]; try done; cbn [res_bind]; [| eexists _, 0; split; [done | lia]].
  destruct H4 as [Hb4 Hl4]. destruct (varint_decode_bounds r4 Hb4) as [Hnf Hv].
  destruct (fuse_varint_decode r4) as [| | [pn k]]; [done | eexists _, 0; split; [done | lia] |].
  specialize (Hv pn k eq_refl). eexists _, _. split; [done |]. lia.
Qed.

(** The long header codec: a well-formed header encodes in bounds into any buffer
    that holds it and, decoded over any old header with anything behind it, gives
    back its type, version, connection IDs and packet number and the length
    written; a header that does not fit, has an oversized connection ID or a packet
    number of 2^62 or more writes nothing; and decoding reads nothing outside any
    byte string and never reports more than it was given. *)
Theorem long_header_codec h old out rest inp :
  wf_long_header h -> wf_cid (lh_dst_cid old) -> wf_cid (lh_src_cid old) -> Forall is_u8 inp ->
  (lenZ (header_wire h) <= lenZ out ->
   exists buf n h', fuse_long_header_encode h out = Ok (buf, n) /\ lenZ buf = lenZ out /\
     fuse_long_header_decode (take (Z.to_nat n) buf ++ rest) old = Ok (h', n) /\
     lh_type h' = lh_type h /\ lh_version h' = lh_version h /\ lh_packet_number h' = lh_packet_number h /\
     cid_bytes (lh_dst_cid h') = cid_bytes (lh_dst_cid h) /\ cid_bytes (lh_src_cid h') = cid_bytes (lh_src_cid h)) /\
  (lenZ out < lenZ (header_wire h) -> fuse_long_header_encode h out = Ok (out, 0)) /\
  (forall bad, 20 < cid_len (lh_dst_cid bad) \/ 20 < cid_len (lh_src_cid bad) \/ 2 ^ 62 <= lh_packet_number bad ->
     fuse_long_header_encode bad out = Ok (out, 0)) /\
  exists h' n, fuse_long_header_decode inp old = Ok (h', n) /\ 0 <= n <= lenZ inp.
Proof.
  intros W Wd Ws Hb. split_and!; [| | | by apply header_decode_bounds].
  - intros Hl. rewrite header_encode_wire by done. eexists _, _, _. split; [done |].
    rewrite take_all_lenZ, header_decode_wire by done. split; [| split; [done |]].
    + unfold lenZ in *. rewrite length_app, length_drop. lia.
    + cbn [lh_type lh_version lh_packet_number lh_dst_cid lh_src_cid].
      rewrite !cid_bytes_overlay by (done || apply W). done.
  - intros Hl. unfold header_wire in Hl. pose proof (wl_pn _ W).
    rewrite lenZ_app, lenZ_header_prefix, lenZ_varint_wire in Hl by done.
    unfold fuse_long_header_encode. repeat (split_if; [done |]). lia.
  - intros bad Hbad. unfold fuse_long_header_encode, FUSE_CONNECTION_ID_MAX_LEN.
    assert (2 ^ 62 <= lh_packet_number bad -> fuse_varint_encoded_len (lh_packet_number bad) = 0) as Hpn.
    { intros. unfold fuse_varint_encoded_len. repeat split_if; lia. }
    split_if; [done |]. split_if; [done |]. exfalso. destruct Hbad as [? | [? | ?%Hpn]]; lia.
Qed.

Definition long_header_example : fuse_long_header :=
  mkLongHeader FUSE_PACKET_HANDSHAKE 7 (mkCid (replicate 20 9) 2) (mkCid (replicate 20 4) 1) 300.

Lemma long_header_codec_witness :
  exists buf n h', fuse_long_header_encode long_header_example (replicate 40 0) = Ok (buf, n) /\
    lenZ buf = lenZ (replicate 40 0) /\
    fuse_long_header_decode (take (Z.to_nat n) buf ++ [1]) long_header_example = Ok (h', n) /\
    lh_type h' = FUSE_PACKET_HANDSHAKE /\ lh_version h' = 7 /\ lh_packet_number h' = 300 /\
    cid_bytes (lh_dst_cid h') = [9; 9] /\ cid_bytes (lh_src_cid h') = [4].
Proof.
  apply (long_header_codec long_header_example long_header_example (replicate 40 0) [1] [5; 6]).
  - split; [unfold is_u32; cbn; lia | split; [done | cbn; lia] | split; [done | cbn; lia] | cbn; lia].
  - split; [done | cbn; lia].
  - split; [done | cbn; lia].
  - all_in_range.
  - vm_compute. discriminate.
Defined.
