(* ===== verification/Orchestrator.v ===== *)
(** * The worker pool

    Models [src/include/fuse/proto/orchestrator.hpp] and
    [src/src/proto/orchestrator.cpp]: the pool of worker threads that [tick] grows and
    shrinks between its bounds.  Every method holds the pool's mutex while it changes
    the pool, so [start], [stop], [tick] and the passes of the workers interleave as
    atomic steps.  The utilisation is a floating-point mean; what [tick] does with it
    are two comparisons, whose answers are arguments. *)

From S2P Require Import Prelude.

Record OrchestratorConfig := mkOrchestratorConfig {
  oc_min_workers : Z;
  oc_max_workers : Z;
  oc_stabilization_ns : Z;
}.

Record Worker := mkWorker {
  wk_id : Z;
  wk_drain : bool;
  wk_busy_ns : Z;
  wk_total_ns : Z;
}.

(** [or_doomed] are the workers told to finish, which the methods then join. *)
Record Orchestrator := mkOrchestrator {
  or_config : OrchestratorConfig;
  or_workers : list Worker;
  or_doomed : list Worker;
  or_next_id : Z;
  or_last_action_ns : Z;
  or_running : bool;
  or_scale_outs : Z;
  or_scale_ins : Z;
  or_ticks : Z;
}.

(** The constructor. *)
Definition new_orchestrator (c : OrchestratorConfig) : Orchestrator :=
  let max_workers := if oc_max_workers c <? oc_min_workers c then oc_min_workers c else oc_max_workers c in
  mkOrchestrator (mkOrchestratorConfig (oc_min_workers c) max_workers (oc_stabilization_ns c)) [] [] 0 0 false 0 0 0.

(** A thread is started and pushed to the back. *)
Definition spawn (o : Orchestrator) : Orchestrator :=
  mkOrchestrator (or_config o) (or_workers o ++ [mkWorker (or_next_id o) false 0 0]) (or_doomed o) (u16 (or_next_id o + 1))
    (or_last_action_ns o) (or_running o) (or_scale_outs o) (or_scale_ins o) (or_ticks o).

(** [while (workers_.size() < min_workers)] *)
Fixpoint fill (fuel : nat) (o : Orchestrator) : res Orchestrator :=
  if lenZ (or_workers o) <? oc_min_workers (or_config o) then
    match fuel with
    | O => Fault
    | S fuel => fill fuel (spawn o)
    end
  else Ok o.

Definition start (o : Orchestrator) (now : Z) : res Orchestrator :=
  if or_running o then Ok o
  else
    fill (Z.to_nat (oc_min_workers (or_config o)))
      (mkOrchestrator (or_config o) (or_workers o) (or_doomed o) (or_next_id o) now true (or_scale_outs o) (or_scale_ins o) (or_ticks o)).

Definition drain_worker (w : Worker) : Worker := mkWorker (wk_id w) true (wk_busy_ns w) (wk_total_ns w).

Definition stop (o : Orchestrator) : Orchestrator :=
  if negb (or_running o) && (lenZ (or_workers o) =? 0) then o
  else
    mkOrchestrator (or_config o) [] (or_doomed o ++ (drain_worker <$> or_workers o)) (or_next_id o) (or_last_action_ns o) false
      (or_scale_outs o) (or_scale_ins o) (or_ticks o).

(** [busy_ns.exchange(0)], [total_ns.exchange(0)] *)
Definition reset_worker (w : Worker) : Worker := mkWorker (wk_id w) (wk_drain w) 0 0.

Definition scale_out (o : Orchestrator) (now : Z) : Orchestrator :=
  let o := spawn o in
  mkOrchestrator (or_config o) (or_workers o) (or_doomed o) (or_next_id o) now (or_running o) (u64 (or_scale_outs o + 1)) (or_scale_ins o) (or_ticks o).

(** The last worker is told to finish. *)
Definition scale_in (o : Orchestrator) (now : Z) : Orchestrator :=
  let n := (length (or_workers o) - 1)%nat in
  mkOrchestrator (or_config o) (take n (or_workers o)) (or_doomed o ++ (drain_worker <$> drop n (or_workers o))) (or_next_id o) now (or_running o)
    (or_scale_outs o) (u64 (or_scale_ins o + 1)) (or_ticks o).

(** [above] is [util > target_utilization], [below] is [util < scale_in_utilization]. *)
Definition tick (o : Orchestrator) (now : Z) (above below : bool) : Orchestrator :=
  if negb (or_running o) || (lenZ (or_workers o) =? 0) then o
  else
    let o := mkOrchestrator (or_config o) (reset_worker <$> or_workers o) (or_doomed o) (or_next_id o) (or_last_action_ns o) (or_running o)
               (or_scale_outs o) (or_scale_ins o) (u64 (or_ticks o + 1)) in
    if u64 (now - or_last_action_ns o) <? oc_stabilization_ns (or_config o) then o
    else if above && (lenZ (or_workers o) <? oc_max_workers (or_config o)) then scale_out o now
    else if below && (oc_min_workers (or_config o) <? lenZ (or_workers o)) then scale_in o now
    else o.

Definition worker_count (o : Orchestrator) : Z := u16 (lenZ (or_workers o)).

(** A pass of [run_worker], [dt] long; [None] once the worker has been told to
    finish. *)
Definition worker_pass (w : Worker) (dt : Z) (did_work : bool) : option Worker :=
  if wk_drain w then None
  else
    let total := u64 (wk_total_ns w + dt) in
    Some (if did_work then mkWorker (wk_id w) false (u64 (wk_busy_ns w + dt)) total
          else mkWorker (wk_id w) false (wk_busy_ns w) (u64 (total + 200000))).

Definition set_worker (o : Orchestrator) (i : nat) (w : Worker) : Orchestrator :=
  mkOrchestrator (or_config o) (<[i := w]> (or_workers o)) (or_doomed o) (or_next_id o) (or_last_action_ns o) (or_running o)
    (or_scale_outs o) (or_scale_ins o) (or_ticks o).

Inductive pool_step : Orchestrator -> Orchestrator -> Prop :=
| pool_start o now o' : start o now = Ok o' -> pool_step o o'
| pool_stop o : pool_step o (stop o)
| pool_tick o now above below : pool_step o (tick o now above below)
| pool_pass o i w dt did_work w' : or_workers o !! i = Some w -> worker_pass w dt did_work = Some w' -> pool_step o (set_worker o i w').

(** ** Invariant *)

Record pool_inv (c : OrchestratorConfig) (o : Orchestrator) : Prop := {
  pi_config : or_config o = or_config (new_orchestrator c);
  pi_count : if or_running o then oc_min_workers c <= lenZ (or_workers o) <= oc_max_workers (or_config o) else or_workers o = [];
  pi_live : Forall (fun w => wk_drain w = false) (or_workers o);
  pi_doomed : Forall (fun w => wk_drain w = true) (or_doomed o);
}.

Section Pool.
Context (c : OrchestratorConfig) (Hmin : 0 <= oc_min_workers c < 2 ^ 16) (Hmax : 0 <= oc_max_workers c < 2 ^ 16).

Lemma pool_bounds : oc_min_workers (or_config (new_orchestrator c)) = oc_min_workers c /\
  oc_max_workers (or_config (new_orchestrator c)) = Z.max (oc_min_workers c) (oc_max_workers c).
Proof. cbn. split; [done |]. destruct (Z.ltb_spec (oc_max_workers c) (oc_min_workers c)); lia. Qed.

(** The filling loop ends with [min_workers] workers. *)
Lemma fill_spec fuel o :
  Z.max 0 (oc_min_workers (or_config o) - lenZ (or_workers o)) <= Z.of_nat fuel -> Forall (fun w => wk_drain w = false) (or_workers o) ->
  exists o', fill fuel o = Ok o' /\ or_config o' = or_config o /\ or_running o' = or_running o /\ or_doomed o' = or_doomed o /\
    lenZ (or_workers o') = Z.max (oc_min_workers (or_config o)) (lenZ (or_workers o)) /\ Forall (fun w => wk_drain w = false) (or_workers o').
Proof.
  revert o. induction fuel as [| fuel IH]; intros o Hf Hl; cbn [fill]; (destruct (Z.ltb_spec (lenZ (or_workers o)) (oc_min_workers (or_config o)));
    [| exists o; split_and!; try done; lia]); [lia |].
  destruct (IH (spawn o)) as (o' & E & E1 & E2 & E3 & E4 & H4); cbn [spawn or_config or_workers or_running or_doomed] in *.
  - rewrite lenZ_app. change (lenZ [_]) with 1. lia.
  - apply Forall_app. by split; [| constructor].
  - exists o'. rewrite lenZ_app in E4. change (lenZ [_]) with 1 in E4. split_and!; try done. lia.
Qed.

Lemma drain_workers ws : Forall (fun w => wk_drain w = true) (drain_worker <$> ws).
Proof. apply Forall_fmap, Forall_true. done. Qed.

Lemma start_inv o now : pool_inv c o -> exists o', start o now = Ok o' /\ pool_inv c o' /\ or_running o' = true.
Proof.
  intros I. pose proof I as [Ec Hn Hl Hd]. unfold start. destruct (or_running o) eqn:Er; [by exists o |].
  destruct pool_bounds as [E1 E2]. edestruct (fill_spec) as (o' & -> & F1 & F2 & F3 & F4 & F5); [| exact Hl |]; cbn [or_config or_workers or_running or_doomed] in *.
  - pose proof (lenZ_nonneg (or_workers o)). lia.
  - exists o'. split; [done |]. split; [| done]. split; rewrite ?F1, ?F3; try done. rewrite F2, F4, Ec, E1, E2, Hn, lenZ_nil. lia.
Qed.

Lemma stop_inv o : pool_inv c o -> pool_inv c (stop o) /\ or_workers (stop o) = [].
Proof.
  intros [Ec Hn Hl Hd]. unfold stop. destruct (or_running o) eqn:Er; cbn [negb andb].
  - split; [| done]. split; cbn; try done. apply Forall_app. split; [done | apply drain_workers].
  - rewrite Hn. change (lenZ [] =? 0) with true. cbn. split; [| done]. split; try done. by rewrite Er.
Qed.

Lemma reset_live ws : Forall (fun w => wk_drain w = false) ws -> Forall (fun w => wk_drain w = false) (reset_worker <$> ws).
Proof. intros H. apply Forall_fmap. eapply Forall_impl; [exact H | done]. Qed.

Lemma tick_inv o now above below : pool_inv c o -> pool_inv c (tick o now above below).
Proof.
  intros I. pose proof I as [Ec Hn Hl Hd]. unfold tick. destruct (or_running o) eqn:Er; cbn [negb orb]; [| done].
  destruct (_ =? 0); [done |]. apply reset_live in Hl. destruct pool_bounds as [E1 E2].
  set (o1 := mkOrchestrator _ _ _ _ _ _ _ _ _). assert (lenZ (or_workers o1) = lenZ (or_workers o)) as El by (unfold lenZ; cbn; by rewrite length_fmap).
  assert (pool_inv c o1) as I1 by (split; try done; cbn in El |- *; rewrite El; done).
  destruct (_ <? _); [done |]. destruct (above && _) eqn:Ea; [| destruct (below && _) eqn:Eb; [| done]].
  - apply andb_prop in Ea as [_ Ea]. split; cbn; try done.
    + rewrite lenZ_app. change (lenZ [_]) with 1. cbn in El, Ea. lia.
    + apply Forall_app. by split; [| constructor].
  - apply andb_prop in Eb as [_ Eb]. cbn in El, Eb. rewrite Ec, E1 in Eb. split; cbn; try done.
    + unfold lenZ in *. rewrite length_take, length_fmap in *. lia.
    + by apply Forall_take.
    + apply Forall_app. split; [done | apply drain_workers].
Qed.

Lemma pass_inv o i w dt did_work w' : pool_inv c o -> or_workers o !! i = Some w -> worker_pass w dt did_work = Some w' -> pool_inv c (set_worker o i w').
Proof.
  intros [Ec Hn Hl Hd] Ew. unfold worker_pass. destruct (wk_drain w); [done |]. intros [= <-]. split; cbn; try done.
  - destruct (or_running o); [unfold lenZ; by rewrite length_insert |]. by rewrite Hn in Ew.
  - apply Forall_insert; [done |]. by destruct did_work.
Qed.

Lemma tick_pace o now above below : or_config o = or_config (new_orchestrator c) ->
  length (or_workers (tick o now above below)) = length (or_workers o) \/
  ((length (or_workers (tick o now above below)) = S (length (or_workers o)) /\ above = true \/
    S (length (or_workers (tick o now above below))) = length (or_workers o) /\ below = true) /\
   oc_stabilization_ns c <= u64 (now - or_last_action_ns o) /\ or_last_action_ns (tick o now above below) = now).
Proof.
  intros Ec. unfold tick. destruct (_ || _) eqn:E0; [by left |]. cbn [or_workers or_config or_last_action_ns].
  destruct (Z.ltb_spec (u64 (now - or_last_action_ns o)) (oc_stabilization_ns (or_config o))) as [| Hs]; [left; cbn; by rewrite length_fmap |].
  rewrite Ec in Hs. cbn in Hs. destruct (above && _) eqn:Ea; [| destruct (below && _) eqn:Eb; [| left; cbn; by rewrite length_fmap]].
  - right. apply andb_prop in Ea as [-> _]. split; [left; split; [| done] | done]. cbn. rewrite length_app, length_fmap. cbn. lia.
  - right. apply andb_prop in Eb as [-> _]. split; [right; split; [| done] | done]. cbn. rewrite length_take, !length_fmap.
    apply orb_false_elim in E0 as [_ E0]. unfold lenZ in E0. lia.
Qed.

Lemma pool_empty_reachable o : oc_min_workers c = 0 -> rtc pool_step (new_orchestrator c) o -> or_workers o = [].
Proof.
  intros E0 Hr. cut (or_config o = or_config (new_orchestrator c) /\ or_workers o = []); [tauto |]. revert o Hr.
  apply (rtc_ind_r (fun o => or_config o = or_config (new_orchestrator c) /\ or_workers o = [])); [done |].
  intros o1 o2 _ Hs [Ec Ew]. destruct Hs as [o1 now o2 E | o1 | o1 now a b | o1 i w dt d w' E E'].
  - unfold start in E. rewrite Ec in E. cbn in E. rewrite E0 in E. destruct (or_running o1); [by injection E as <- |].
    rewrite Ew in E. cbn in E. injection E as <-. cbn. by rewrite E0.
  - unfold stop. by destruct (_ && _).
  - unfold tick. rewrite Ew. change (lenZ [] =? 0) with true. by rewrite orb_true_r.
  - by rewrite Ew in E.
Qed.

Lemma pool_inv_reachable o : rtc pool_step (new_orchestrator c) o -> pool_inv c o.
Proof.
  apply (rtc_ind_r (pool_inv c)); [by split; cbn; constructor |]. intros o1 o2 _ Hs I. destruct Hs as [o1 now o2 E | o1 | o1 now a b | o1 i w dt d w' E E'].
  - destruct (start_inv _ now I) as (o' & E' & I' & _). rewrite E in E'. by injection E' as ->.
  - by apply stop_inv.
  - by apply tick_inv.
  - by eapply pass_inv.
Qed.

(** C34: The worker pool, whatever sequence of [start], [stop], [tick] and worker passes
    it goes through.  While it runs, it has between [min_workers] and [max_workers]
    workers (between [min_workers] and itself if the bounds are crossed) and
    [worker_count] is their number; once stopped it has none.  A worker in the pool is
    never told to finish, and a worker taken out of it always is.  [start] returns, and
    [tick] changes the number of workers by at most one, only when at least
    [stabilization_ns] have passed since the last change or the start, and then
    restarts that wait.  A pool whose [min_workers] is zero never gets a worker. *)
Theorem pool_stays_in_bounds o :
  rtc pool_step (new_orchestrator c) o ->
  (or_running o = true -> oc_min_workers c <= lenZ (or_workers o) <= Z.max (oc_min_workers c) (oc_max_workers c) /\ worker_count o = lenZ (or_workers o)) /\
  (or_running o = false -> or_workers o = []) /\
  Forall (fun w => wk_drain w = false) (or_workers o) /\ Forall (fun w => wk_drain w = true) (or_doomed o) /\
  (forall now, exists o', start o now = Ok o' /\ or_running o' = true) /\
  or_workers (stop o) = [] /\
  (forall now above below, let o' := tick o now above below in
     length (or_workers o') = length (or_workers o) \/
     ((length (or_workers o') = S (length (or_workers o)) /\ above = true \/ S (length (or_workers o')) = length (or_workers o) /\ below = true) /\
      oc_stabilization_ns c <= u64 (now - or_last_action_ns o) /\ or_last_action_ns o' = now)) /\
  (oc_min_workers c = 0 -> or_workers o = []).
Proof.
  intros Hr. pose proof (pool_inv_reachable _ Hr) as I. pose proof I as [Ec Hn Hl Hd]. destruct pool_bounds as [_ Eb].
  split; [intros Er; rewrite Er, Ec, Eb in Hn; split; [done | apply Z.mod_small; lia] |].
  split; [intros Er; by rewrite Er in Hn |]. do 2 (split; [done |]).
  split; [intros now; destruct (start_inv _ now I) as (o' & E & _ & E'); by exists o' |]. split; [by apply stop_inv |].
  split; [| by intros E; apply pool_empty_reachable]. intros now above below o'. exact (tick_pace o now above below Ec).
Qed.

End Pool.

Lemma pool_stays_in_bounds_witness :
  let c := mkOrchestratorConfig 1 2 200 in
  exists o, rtc pool_step (new_orchestrator c) o /\ lenZ (or_workers o) = 2 /\ length (or_workers (tick o 600 false true)) = 1%nat /\ or_workers (stop o) = [].
Proof.
  set (c := mkOrchestratorConfig 1 2 200). cbn zeta.
  set (o1 := match start (new_orchestrator c) 100 with Ok o => o | _ => new_orchestrator c end).
  assert (rtc pool_step (new_orchestrator c) (tick o1 350 true false)) as Hr by (eapply rtc_l; [by apply (pool_start _ 100 o1) |]; apply rtc_once, pool_tick).
  exists (tick o1 350 true false). split; [exact Hr |]. split; [done |]. split; [done |].
  by apply (pool_stays_in_bounds c (conj (Z.le_0_1) eq_refl) (conj (Z.le_0_2) eq_refl) _ Hr).
Defined.
