(* ===== verification/Ranges.v ===== *)
(** * Resume ranges

    Models how the two sides of a lane agree on what a session sends, from
    [src/src/proto/transfer.cpp]: the receiver's [coarsen_ranges] and
    [encode_resume_answer], and the part of [send_lane] that collects the answer's
    datagrams and checks it before use.  The theorem follows an answer from the
    receiver's list to the sender's plan through any arrival order. *)

From S2P Require Import Prelude Wire Control.

(** ** Definitions *)

Definition kMaxResumeRanges : Z := 4096.

Definition range_end (r : ResumeRange) : Z := u64 (rr_offset r + rr_length r).

(** The smallest gap between neighbours. *)
Fixpoint min_gap (a : ResumeRange) (rs : list ResumeRange) (acc : Z) : Z :=
  match rs with
  | [] => acc
  | r :: rs => min_gap r rs (Z.min acc (u64 (rr_offset r - range_end a)))
  end.

(** The merging pass; [last] is [out.back()]. *)
Fixpoint merge_pass (merge_below : Z) (last : ResumeRange) (rs : list ResumeRange) : list ResumeRange :=
  match rs with
  | [] => [last]
  | cur :: rs =>
      if u64 (rr_offset cur - range_end last) <=? merge_below
      then merge_pass merge_below
             (mkResumeRange (rr_offset last) (u64 (range_end cur - rr_offset last))) rs
      else last :: merge_pass merge_below cur rs
  end.

Fixpoint coarsen_loop (fuel : nat) (rs : list ResumeRange) (limit : Z) : res (list ResumeRange) :=
  match fuel with
  | O => Fault
  | S fuel =>
      if limit <? lenZ rs then
        match rs with
        | [] => Fault
        | r0 :: rest =>
            let merge_below := u64 (u64 (min_gap r0 rest (2 ^ 64 - 1) * 2) + 1) in
            coarsen_loop fuel (merge_pass merge_below r0 rest) limit
        end
      else Ok rs
  end.

Definition coarsen_ranges (rs : list ResumeRange) (limit : Z) : res (list ResumeRange) :=
  coarsen_loop (S (length rs)) rs limit.

(** *** The answer's messages *)

Definition resume_parts (want : list ResumeRange) : Z :=
  Z.max 1 ((lenZ want + kMaxResumeRangesPerMsg - 1) / kMaxResumeRangesPerMsg).

Definition resume_part (lane nonce : Z) (resumed : bool) (want : list ResumeRange) (part : Z) : ResumeRanges :=
  let first := part * kMaxResumeRangesPerMsg in
  let count := u16 (Z.min kMaxResumeRangesPerMsg (lenZ want - Z.min first (lenZ want))) in
  mkResumeRanges lane nonce (if resumed then kResumeFlagResumed else 0) (u16 part) (u16 (resume_parts want)) count
    (slice want first count ++
     drop (Z.to_nat count) (rrs_ranges default_resume_ranges)).

(** [encode_resume_answer]; [seal] is [seal_ctl] on the lane's authenticator. *)
Section Answer.
Context {A : Type} (seal : A -> bytes -> Z -> A * bytes * Z).

Fixpoint answer_loop (auth : A) (parts : list Z) (lane nonce : Z) (resumed : bool) (want : list ResumeRange) :
    res (A * list bytes) :=
  match parts with
  | [] => Ok (auth, [])
  | part :: parts =>
      res_bind (encode_resume_ranges (resume_part lane nonce resumed want part) (replicate 2048 0)) (fun '(buf, n) =>
      let '(auth, buf, n) := seal auth buf n in
      res_bind (answer_loop auth parts lane nonce resumed want) (fun '(auth, msgs) =>
      Ok (auth, take (Z.to_nat n) buf :: msgs)))
  end.

Definition encode_resume_answer (auth : A) (lane nonce : Z) (resumed : bool) (want : list ResumeRange) :
    res (A * list bytes) :=
  answer_loop auth (seqZ 0 (resume_parts want)) lane nonce resumed want.

End Answer.

(** *** The sender's side *)

Record Answer := mkAnswer {
  an_parts_expected : Z;
  an_parts_seen : Z;
  an_answer : list (list ResumeRange);
  an_have_part : list bool;
  an_resumed : bool;
}.

Definition no_answer : Answer := mkAnswer 0 0 [] [] false.

(** The [ResumeRanges] branch of the handshake loop; [nonce] is the session's. *)
Definition on_resume_ranges (nonce : Z) (a : Answer) (dg : bytes) : res Answer :=
  match decode_resume_ranges dg default_resume_ranges with
  | Fault => Fault
  | Reject => Ok a
  | Ok rr =>
      if rrs_nonce rr =? nonce then
        let a :=
          if an_parts_expected a =? 0 then
            mkAnswer (rrs_parts rr) (an_parts_seen a) (replicate (Z.to_nat (rrs_parts rr)) [])
              (replicate (Z.to_nat (rrs_parts rr)) false) (an_resumed a)
          else a in
        if rrs_parts rr =? an_parts_expected a then
          match nthZ (an_have_part a) (rrs_part rr) with
          | None => Fault
          | Some true => Ok a
          | Some false =>
              Ok (mkAnswer (an_parts_expected a) (u16 (an_parts_seen a + 1))
                    (setZ (an_answer a) (rrs_part rr) (take (Z.to_nat (rrs_count rr)) (rrs_ranges rr)))
                    (setZ (an_have_part a) (rrs_part rr) true)
                    (if negb (Z.land (rrs_flags rr) kResumeFlagResumed =? 0) then true else an_resumed a))
          end
        else Ok a
      else Ok a
  end.

(** The answer half of [started]. *)
Definition answer_complete (a : Answer) : bool :=
  negb (an_parts_expected a =? 0) && (an_parts_seen a =? an_parts_expected a).

(** [std::sort] by offset. *)
Fixpoint sort_insert (r : ResumeRange) (rs : list ResumeRange) : list ResumeRange :=
  match rs with
  | [] => [r]
  | x :: xs => if rr_offset x <? rr_offset r then x :: sort_insert r xs else r :: rs
  end.

Definition sort_ranges (rs : list ResumeRange) : list ResumeRange := foldr sort_insert [] rs.

(** The validity check: the session's bytes, or [None] for an answer that does
    not hold together. *)
Fixpoint check_ranges (shard_bytes prev_end session_bytes : Z) (rs : list ResumeRange) : option Z :=
  match rs with
  | [] => Some session_bytes
  | r :: rs =>
      if (rr_offset r <? prev_end) || (shard_bytes <? rr_offset r) || (shard_bytes - rr_offset r <? rr_length r)
      then None
      else check_ranges shard_bytes (range_end r) (u64 (session_bytes + rr_length r)) rs
  end.

(** What the session sends: the ranges and their bytes. *)
Definition plan_session (shard_bytes : Z) (answer : list (list ResumeRange)) : list ResumeRange * Z :=
  let ranges := sort_ranges (filter (fun r => rr_length r <> 0) (mjoin answer)) in
  match check_ranges shard_bytes 0 0 ranges with
  | Some session_bytes => (ranges, session_bytes)
  | None => (if 0 <? shard_bytes then [mkResumeRange 0 shard_bytes] else [], shard_bytes)
  end.

(** ** Ordered range lists *)

Definition covers (rs : list ResumeRange) (o : Z) : Prop :=
  exists r, r ∈ rs /\ rr_offset r <= o < rr_offset r + rr_length r.

(** Sorted, disjoint, within [lo, hi). *)
Fixpoint ordered (lo : Z) (rs : list ResumeRange) (hi : Z) : Prop :=
  match rs with
  | [] => lo <= hi
  | r :: rs => lo <= rr_offset r /\ 0 <= rr_length r /\ ordered (rr_offset r + rr_length r) rs hi
  end.

Lemma ordered_le lo rs hi : ordered lo rs hi -> lo <= hi.
Proof. revert lo. induction rs as [| r rs IH]; intros lo; cbn; [done |]. intros (? & ? & H%IH). lia. Qed.

Lemma ordered_weaken lo lo' rs hi : ordered lo rs hi -> lo' <= lo -> ordered lo' rs hi.
Proof. destruct rs; cbn; [lia |]. intros (? & ? & ?) ?. split_and!; [lia | done | done]. Qed.

Lemma covers_cons r rs o : covers (r :: rs) o <-> rr_offset r <= o < rr_offset r + rr_length r \/ covers rs o.
Proof.
  unfold covers. split.
  - intros (x & [-> | Hx]%elem_of_cons & Ho); [by left | right; eauto].
  - intros [Ho | (x & Hx & Ho)]; [exists r | exists x]; split; try done; by constructor.
Qed.

Lemma covers_nil o : ~ covers [] o.
Proof. by intros (x & []%elem_of_nil & _). Qed.

Lemma covers_bounds lo rs hi o : ordered lo rs hi -> covers rs o -> lo <= o < hi.
Proof.
  revert lo. induction rs as [| r rs IH]; intros lo Hord; [by intros []%covers_nil |].
  destruct Hord as (? & ? & Hrest). pose proof (ordered_le _ _ _ Hrest).
  intros [? | Hc]%covers_cons; [lia |]. specialize (IH _ Hrest Hc). lia.
Qed.

(** ** Coarsening *)

Lemma min_gap_le a rs acc : min_gap a rs acc <= acc.
Proof.
  revert a acc. induction rs as [| r rs IH]; intros a acc; cbn [min_gap]; [lia |].
  etrans; [apply IH |]. lia.
Qed.

Lemma merge_pass_length mb last rs : (length (merge_pass mb last rs) <= S (length rs))%nat.
Proof.
  revert last. induction rs as [| cur rs IH]; intros last; cbn [merge_pass length]; [lia |].
  split_if; [etrans; [apply IH |]; lia | cbn [length]; specialize (IH cur); lia].
Qed.

(** A pass that merges up to at least the smallest gap removes a range. *)
Lemma merge_pass_shorter mb a last rs acc :
  range_end last = range_end a -> min_gap a rs acc < acc -> min_gap a rs acc <= mb ->
  (length (merge_pass mb last rs) <= length rs)%nat.
Proof.
  revert a last acc. induction rs as [| cur rs IH]; intros a last acc Hend Hlt Hle; cbn [merge_pass min_gap] in *; [lia |].
  rewrite Hend. split_if; [apply merge_pass_length |]. cbn [length]. apply le_n_S.
  set (g := u64 (rr_offset cur - range_end a)) in *.
  apply (IH cur cur (Z.min acc g)); [done | | done]. lia.
Qed.

Lemma merge_pass_ordered mb last rs lo hi :
  ordered lo (last :: rs) hi -> 0 <= lo -> hi < 2 ^ 64 ->
  ordered lo (merge_pass mb last rs) hi /\ forall o, covers (last :: rs) o -> covers (merge_pass mb last rs) o.
Proof.
  revert last lo. induction rs as [| cur rs IH]; intros last lo Hord Hlo Hhi; cbn [merge_pass]; [done |].
  destruct Hord as (H1 & H2 & H3 & H4 & H5). pose proof (ordered_le _ _ _ H5).
  unfold range_end. rewrite (u64_small (rr_offset last + _)), (u64_small (rr_offset cur + _)) by (unfold is_u64; lia).
  rewrite !u64_small by (unfold is_u64; lia). split_if.
  - replace (rr_offset cur + rr_length cur - rr_offset last)
      with (rr_length last + (rr_offset cur - (rr_offset last + rr_length last)) + rr_length cur) by lia.
    set (len := rr_length last + (rr_offset cur - (rr_offset last + rr_length last)) + rr_length cur).
    destruct (IH (mkResumeRange (rr_offset last) len) lo) as [Ho Hc]; [| done | done |].
    + cbn [ordered rr_offset rr_length]. split_and!; [lia | subst len; lia |].
      eapply ordered_weaken; [done |]. subst len. lia.
    + split; [done |]. intros o Hcov. apply Hc. rewrite !covers_cons in Hcov. apply covers_cons.
      cbn [rr_offset rr_length]. destruct Hcov as [? | [? | ?]]; [left; subst len; lia .. | by right].
  - destruct (IH cur (rr_offset last + rr_length last)) as [Ho Hc]; [done | lia | done |].
    split; [cbn [ordered]; split_and!; [lia | lia | done] |].
    intros o [? | Hcov]%covers_cons; apply covers_cons; [by left | right; by apply Hc].
Qed.

Lemma first_gap a r rs lo hi acc :
  ordered lo (a :: r :: rs) hi -> 0 <= lo -> hi < 2 ^ 63 -> min_gap a (r :: rs) acc < 2 ^ 63.
Proof.
  intros (H1 & H2 & H3 & H4 & H5) Hlo Hhi. pose proof (ordered_le _ _ _ H5). cbn [min_gap].
  pose proof (min_gap_le r rs (Z.min acc (u64 (rr_offset r - range_end a)))) as Hle.
  unfold range_end in *. rewrite (u64_small (rr_offset a + _)) in * by (unfold is_u64; lia).
  rewrite u64_small in * by (unfold is_u64; lia). lia.
Qed.

Lemma min_gap_nonneg a rs acc : 0 <= acc -> 0 <= min_gap a rs acc.
Proof.
  revert a acc. induction rs as [| r rs IH]; intros a acc H; cbn [min_gap]; [done |].
  apply IH. pose proof (u64_range (rr_offset r - range_end a)). unfold is_u64 in *. lia.
Qed.

Lemma coarsen_loop_correct fuel rs limit hi :
  (length rs < fuel)%nat -> 1 <= limit -> ordered 0 rs hi -> hi < 2 ^ 63 ->
  exists rs', coarsen_loop fuel rs limit = Ok rs' /\ lenZ rs' <= limit /\ ordered 0 rs' hi /\
    (forall o, covers rs o -> covers rs' o) /\ (lenZ rs <= limit -> rs' = rs).
Proof.
  revert rs. induction fuel as [| fuel IH]; intros rs Hf Hlim Hord Hhi; [lia |]. cbn [coarsen_loop].
  destruct (Z.ltb_spec limit (lenZ rs)) as [Hbig |]; [| by exists rs; split_and!].
  destruct rs as [| a rest]; [rewrite lenZ_nil in Hbig; lia |].
  destruct rest as [| r rest]; [rewrite lenZ_cons, lenZ_nil in Hbig; lia |].
  pose proof (first_gap a r rest 0 hi (2 ^ 64 - 1) Hord ltac:(lia) Hhi) as Hg.
  pose proof (min_gap_nonneg a (r :: rest) (2 ^ 64 - 1) ltac:(lia)) as Hg0.
  set (g := min_gap a (r :: rest) (2 ^ 64 - 1)) in *.
  rewrite (u64_small (g * 2)), u64_small by (unfold is_u64; lia).
  destruct (merge_pass_ordered (g * 2 + 1) a (r :: rest) 0 hi Hord ltac:(lia) ltac:(lia)) as [Ho Hc].
  pose proof (merge_pass_shorter (g * 2 + 1) a a (r :: rest) (2 ^ 64 - 1) eq_refl ltac:(fold g; lia) ltac:(fold g; lia)) as Hs.
  destruct (IH (merge_pass (g * 2 + 1) a (r :: rest))) as (rs' & E & Hl & Ho' & Hc' & _); [cbn [length] in *; lia | done .. |].
  exists rs'. split_and!; try done; [by intros o Hcov; apply Hc', Hc | lia].
Qed.

(** ** The answer's messages *)

(** Part [i] carries ranges [64 i] to [64 i + 63] of the list. *)
Definition part_ranges (want : list ResumeRange) (i : Z) : list ResumeRange :=
  take 64 (drop (Z.to_nat (64 * i)) want).

Lemma parts_join (l : list ResumeRange) (n : nat) :
  mjoin (part_ranges l <$> seqZ 0 (Z.of_nat n)) = take (64 * n) l.
Proof.
  induction n as [| n IH]; [by rewrite Nat.mul_0_r, take_0 |].
  rewrite Nat2Z.inj_succ, <- Z.add_1_r, seqZ_app, fmap_app, join_app, IH by lia. cbn [fmap list_fmap seqZ].
  change (seqZ (0 + Z.of_nat n) 1) with [0 + Z.of_nat n]. cbn [fmap list_fmap]. unfold part_ranges.
  replace (Z.to_nat (64 * (0 + Z.of_nat n))) with (64 * n)%nat by lia. cbn [mjoin list_join]. rewrite app_nil_r.
  replace (64 * S n)%nat with (64 * n + 64)%nat by lia. apply take_take_drop.
Qed.

Lemma resume_parts_bounds want :
  lenZ want <= kMaxResumeRanges -> 1 <= resume_parts want <= 64 /\ lenZ want <= 64 * resume_parts want.
Proof.
  unfold resume_parts, kMaxResumeRanges, kMaxResumeRangesPerMsg. pose proof (lenZ_nonneg want). intros. mlia.
Qed.

Lemma resume_part_wf lane nonce resumed want i :
  lenZ want <= kMaxResumeRanges -> Forall is_range want -> is_u16 lane -> is_u64 nonce -> 0 <= i < resume_parts want ->
  let m := resume_part lane nonce resumed want i in
  wf_msg m /\ rrs_nonce m = nonce /\ rrs_part m = i /\ rrs_parts m = resume_parts want /\
  take (Z.to_nat (rrs_count m)) (rrs_ranges m) = part_ranges want i /\
  rrs_flags m = (if resumed then 1 else 0).
Proof.
  intros Hw Hr Hl Hn Hi. destruct (resume_parts_bounds want Hw) as [Hp Hc]. pose proof (lenZ_nonneg want).
  unfold resume_part, kMaxResumeRangesPerMsg.
  set (count := Z.min 64 (lenZ want - Z.min (i * 64) (lenZ want))). assert (0 <= count <= 64) by lia.
  rewrite !u16_small by (unfold is_u16; lia). cbn [rrs_nonce rrs_part rrs_parts rrs_count rrs_ranges rrs_flags].
  assert (slice want (i * 64) count = part_ranges want i) as Hs.
  { unfold slice, part_ranges. rewrite (Z.mul_comm i). destruct (Z.le_gt_cases (64 * i + 64) (lenZ want)).
    - by replace (Z.to_nat count) with 64%nat by lia.
    - rewrite !take_ge; [done | unfold lenZ in *; rewrite length_drop; lia ..]. }
  assert (lenZ (part_ranges want i) = count) as Hlen.
  { unfold part_ranges, lenZ. rewrite length_take, length_drop. unfold lenZ in *. lia. }
  assert (lenZ (rrs_ranges default_resume_ranges) = 64) as Hd by done.
  rewrite Hs. split_and!; try done.
  - split_and!; cbn [rrs_stream_id rrs_nonce rrs_flags rrs_part rrs_parts rrs_count rrs_ranges]; try done; try lia.
    + unfold is_u8. destruct resumed; unfold kResumeFlagResumed; lia.
    + unfold is_u16. lia.
    + unfold kMaxResumeRangesPerMsg. lia.
    + rewrite lenZ_app, Hlen, lenZ_drop, Hd by lia. unfold kMaxResumeRangesPerMsg. lia.
    + apply Forall_app. split; [apply Forall_take, Forall_drop; done |]. apply Forall_drop.
      apply Forall_replicate. unfold is_range, is_u64. cbn. lia.
    + rewrite drop_app_le, drop_ge by (unfold lenZ in Hlen; lia). done.
  - rewrite <- Hlen. apply take_all_lenZ.
Qed.

Definition seal_plain (auth : unit) (buf : bytes) (n : Z) : unit * bytes * Z := (auth, buf, n).

Lemma lenZ_mjoin_const {A} (f : A -> bytes) l k :
  (forall x, lenZ (f x) = k) -> lenZ (mjoin (f <$> l)) = k * lenZ l.
Proof.
  intros H. induction l as [| x l IH]; cbn; [by rewrite Z.mul_0_r |].
  change (lenZ (f x ++ mjoin (f <$> l)) = k * lenZ (x :: l)). rewrite lenZ_app, lenZ_cons, H, IH. lia.
Qed.

Lemma resume_wire_length (m : ResumeRanges) : wf_msg m -> lenZ (wire m) <= 1043.
Proof.
  intros (? & ? & ? & ? & ? & Hc & Hl & _). change (wire m) with (resume_ranges_wire m). unfold resume_ranges_wire.
  rewrite !lenZ_app, !lenZ_be, (lenZ_mjoin_const _ _ 16) by (intros; unfold range_wire; by rewrite lenZ_app, !lenZ_be).
  rewrite lenZ_take by (unfold kMaxResumeRangesPerMsg in *; lia). unfold kMaxResumeRangesPerMsg in *.
  unfold outer. change (lenZ [_; _]) with 2. change (lenZ [_]) with 1. lia.
Qed.

Lemma encode_answer_plain lane nonce resumed want :
  lenZ want <= kMaxResumeRanges -> Forall is_range want -> is_u16 lane -> is_u64 nonce ->
  encode_resume_answer seal_plain tt lane nonce resumed want =
    Ok (tt, (fun i => wire (resume_part lane nonce resumed want i)) <$> seqZ 0 (resume_parts want)).
Proof.
  intros Hw Hr Hl Hn. unfold encode_resume_answer.
  assert (forall i, i ∈ seqZ 0 (resume_parts want) -> 0 <= i < resume_parts want) as Hin
    by (intros i Hi%elem_of_seqZ; lia).
  revert Hin. generalize (seqZ 0 (resume_parts want)). induction l as [| i l IH]; intros Hin; [done |].
  cbn [answer_loop]. destruct (resume_part_wf lane nonce resumed want i Hw Hr Hl Hn) as (Wm & _); [apply Hin; by left |].
  pose proof (resume_wire_length _ Wm).
  pose proof (encode_wire (M := ResumeRanges) _ (replicate 2048 0) Wm) as E. cbn [encode resume_ranges_codec] in E.
  rewrite E by (unfold lenZ at 2; rewrite length_replicate; lia). cbn [res_bind seal_plain].
  rewrite IH by (intros; apply Hin; by right). cbn [res_bind]. rewrite take_all_lenZ. done.
Qed.

(** ** Collecting the answer *)

Section Collect.
Context (lane nonce : Z) (resumed : bool) (want : list ResumeRange).
Hypothesis want_small : lenZ want <= kMaxResumeRanges.
Hypothesis want_ranges : Forall is_range want.
Hypothesis lane_u16 : is_u16 lane.
Hypothesis nonce_u64 : is_u64 nonce.

Notation parts := (resume_parts want).
Notation msg i := (resume_part lane nonce resumed want i).

(** The sender has seen exactly the parts of [seen]. *)
Record collected (a : Answer) (seen : gset Z) : Prop := {
  co_range : forall i, i ∈ seen -> 0 <= i < parts;
  co_seen : an_parts_seen a = Z.of_nat (size seen);
  co_state : (seen = ∅ /\ an_parts_expected a = 0 /\ an_resumed a = false) \/
    (seen <> ∅ /\ an_parts_expected a = parts /\ an_resumed a = resumed /\
     lenZ (an_answer a) = parts /\ lenZ (an_have_part a) = parts /\
     forall i, 0 <= i < parts ->
       nthZ (an_have_part a) i = Some (bool_decide (i ∈ seen)) /\
       nthZ (an_answer a) i = Some (if bool_decide (i ∈ seen) then part_ranges want i else []));
}.

Lemma nthZ_replicate {A} (x : A) n i : 0 <= i < n -> nthZ (replicate (Z.to_nat n) x) i = Some x.
Proof. intros Hi. rewrite nthZ_lookup by lia. apply lookup_replicate. split; [done | lia]. Qed.

Lemma seen_size (seen : gset Z) n : (forall i, i ∈ seen -> 0 <= i < n) -> 0 <= n -> Z.of_nat (size seen) <= n.
Proof.
  intros H Hn. replace n with (Z.of_nat (size (list_to_set (seqZ 0 n) : gset Z))).
  - apply Nat2Z.inj_le, subseteq_size. intros s Hs%H. apply elem_of_list_to_set, elem_of_seqZ. lia.
  - rewrite size_list_to_set by apply NoDup_seqZ. rewrite length_seqZ. lia.
Qed.

Lemma collect_step a seen i tail :
  collected a seen -> 0 <= i < parts ->
  exists a', on_resume_ranges nonce a (wire (msg i) ++ tail) = Ok a' /\ collected a' ({[i]} ∪ seen).
Proof.
  intros C Hi. destruct (resume_parts_bounds want want_small) as [Hp _].
  destruct (resume_part_wf lane nonce resumed want i want_small want_ranges lane_u16 nonce_u64 Hi)
    as (Wm & En & Ep & Eps & Er & Ef).
  unfold on_resume_ranges. rewrite (decode_wire (M := ResumeRanges) _ tail Wm : decode_resume_ranges _ _ = _).
  rewrite En, Z.eqb_refl.
  set (a1 := if an_parts_expected a =? 0 then _ else a).
  assert (an_parts_expected a1 = parts /\ lenZ (an_answer a1) = parts /\ lenZ (an_have_part a1) = parts /\
    an_parts_seen a1 = Z.of_nat (size seen) /\ (an_resumed a1 = false \/ an_resumed a1 = resumed) /\
    forall j, 0 <= j < parts ->
       nthZ (an_have_part a1) j = Some (bool_decide (j ∈ seen)) /\
       nthZ (an_answer a1) j = Some (if bool_decide (j ∈ seen) then part_ranges want j else []))
    as (H1 & H2 & H3 & H4 & H5 & H6).
  { subst a1. destruct (co_state _ _ C) as [(-> & -> & Hr) | (Hne & He & Hr & H2 & H3 & H6)].
    - rewrite Eps. cbn. split_and!; try done; try (unfold lenZ; rewrite length_replicate; lia).
      + apply (co_seen _ _ C).
      + left. apply Hr.
      + intros j Hj. rewrite !nthZ_replicate by done. by rewrite bool_decide_eq_false_2 by set_solver.
    - rewrite He. destruct (Z.eqb_spec parts 0); [lia |]. split_and!; try done; [apply C | by right]. }
  rewrite Eps, H1, Z.eqb_refl, Ep. destruct (H6 i Hi) as [-> _].
  destruct (bool_decide_reflect (i ∈ seen)) as [Hin | Hout].
  { exists a. assert (a1 = a) as ->; [| split; [done | by replace ({[i]} ∪ seen) with seen by set_solver]].
    subst a1. destruct (co_state _ _ C) as [(-> & _) | (_ & He & _)]; [set_solver |].
    rewrite He. destruct (Z.eqb_spec parts 0); [lia | done]. }
  pose proof (seen_size ({[i]} ∪ seen) parts) as Hsize. rewrite size_union, size_singleton in Hsize by set_solver.
  assert (forall j, j ∈ {[i]} ∪ seen -> 0 <= j < parts) as Hrange.
  { intros j [->%elem_of_singleton | Hj]%elem_of_union; [done | by apply (co_range _ _ C)]. }
  specialize (Hsize Hrange ltac:(lia)). eexists. split; [done |]. split; [done | |].
  - cbn. rewrite size_union, size_singleton by set_solver. rewrite H4.
    rewrite u16_small by (unfold is_u16; lia). lia.
  - right. cbn [an_parts_expected an_resumed an_answer an_have_part].
    rewrite !lenZ_setZ. split_and!; try done; [set_solver | | ].
    + rewrite Ef. destruct resumed; [done |]. cbn. by destruct H5.
    + intros j Hj. rewrite !nthZ_setZ by lia. destruct (H6 j Hj) as [-> ->].
      destruct (Z.eqb_spec i j) as [<- |].
      * rewrite bool_decide_eq_true_2 by set_solver. by rewrite Er.
      * by rewrite (bool_decide_ext (j ∈ {[i]} ∪ seen) (j ∈ seen)) by set_solver.
Qed.

Fixpoint collect (a : Answer) (dgs : list bytes) : res Answer :=
  match dgs with
  | [] => Ok a
  | dg :: dgs => res_bind (on_resume_ranges nonce a dg) (fun a => collect a dgs)
  end.

Lemma collect_all arrivals a seen :
  collected a seen -> (forall x, x ∈ arrivals -> 0 <= fst x < parts) ->
  exists a', collect a ((fun '(i, tail) => wire (msg i) ++ tail) <$> arrivals) = Ok a' /\
    collected a' (list_to_set arrivals.*1 ∪ seen).
Proof.
  revert a seen. induction arrivals as [| [i tail] arrivals IH]; intros a seen C Harr.
  { exists a. split; [done |]. by replace (list_to_set [].*1 ∪ seen) with seen by (cbn; set_solver). }
  cbn [fmap list_fmap collect]. destruct (collect_step a seen i tail C) as (a1 & -> & C1); [apply (Harr (i, tail)); by left |].
  cbn [res_bind]. destruct (IH a1 _ C1) as (a2 & E & C2); [intros; apply Harr; by right |].
  exists a2. split; [done |]. cbn [fmap list_fmap fst list_to_set].
  by replace ({[i]} ∪ list_to_set (fst <$> arrivals) ∪ seen) with (list_to_set arrivals.*1 ∪ ({[i]} ∪ seen)) by set_solver.
Qed.

Lemma no_answer_collected : collected no_answer ∅.
Proof. split; [set_solver | done |]. by left. Qed.

(** Every part seen: the list is back as it was. *)
Lemma collected_complete a seen :
  collected a seen -> (forall i, 0 <= i < parts -> i ∈ seen) ->
  answer_complete a = true /\ mjoin (an_answer a) = want /\ an_resumed a = resumed.
Proof.
  intros C Hall. destruct (resume_parts_bounds want want_small) as [Hp Hc].
  destruct (co_state _ _ C) as [(-> & _) | (_ & He & Hr & Hl & _ & Hi)].
  { specialize (Hall 0 ltac:(lia)). set_solver. }
  assert (Z.of_nat (size seen) = parts) as Hs.
  { apply Z.le_antisymm; [apply seen_size; [apply C | lia] |].
    replace parts with (Z.of_nat (size (list_to_set (seqZ 0 parts) : gset Z))) at 1.
    - apply Nat2Z.inj_le, subseteq_size. intros s Hs%elem_of_list_to_set%elem_of_seqZ. apply Hall. lia.
    - rewrite size_list_to_set by apply NoDup_seqZ. rewrite length_seqZ. lia. }
  split_and!; [| | done].
  - unfold answer_complete. rewrite He, (co_seen _ _ C), Hs, Z.eqb_refl. by destruct (Z.eqb_spec parts 0); [lia |].
  - replace (an_answer a) with (part_ranges want <$> seqZ 0 parts).
    + rewrite <- (Z2Nat.id parts), parts_join by lia. apply take_ge. unfold lenZ in Hc. lia.
    + apply list_eq. intros k. rewrite list_lookup_fmap. destruct (decide (k < Z.to_nat parts)%nat).
      * rewrite lookup_seqZ_lt by lia. destruct (Hi (Z.of_nat k) ltac:(lia)) as [_ Hk].
        rewrite nthZ_lookup, Nat2Z.id in Hk by lia. rewrite Hk, bool_decide_eq_true_2 by (apply Hall; lia).
        cbn. do 2 f_equal.
      * rewrite lookup_seqZ_ge by lia. cbn. rewrite lookup_ge_None_2; [done |]. unfold lenZ in Hl. lia.
Qed.

End Collect.

(** ** Planning the session *)

Lemma filter_ordered lo rs hi : ordered lo rs hi -> ordered lo (filter (fun r => rr_length r <> 0) rs) hi.
Proof.
  revert lo. induction rs as [| r rs IH]; intros lo Hord; [done |]. destruct Hord as (H1 & H2 & H3).
  rewrite filter_cons. case_decide.
  - cbn [ordered]. split_and!; [done .. | by apply IH].
  - eapply ordered_weaken; [by apply IH | lia].
Qed.

Lemma filter_covers rs o : covers (filter (fun r => rr_length r <> 0) rs) o <-> covers rs o.
Proof.
  unfold covers. split; intros (r & Hr & Ho); exists r; [apply list_elem_of_filter in Hr as [_ Hr]; done |].
  split; [| done]. apply list_elem_of_filter. split; [lia | done].
Qed.

Lemma sort_ordered lo rs hi : ordered lo rs hi -> sort_ranges rs = rs.
Proof.
  revert lo. induction rs as [| r rs IH]; intros lo Hord; [done |]. destruct Hord as (H1 & H2 & H3).
  unfold sort_ranges in *. cbn [foldr]. rewrite (IH _ H3). destruct rs as [| x xs]; [done |].
  destruct H3 as (H4 & _). cbn [sort_insert]. by split_if; [lia |].
Qed.

Lemma check_ordered shard prev acc rs :
  ordered prev rs shard -> 0 <= prev -> 0 <= acc <= prev -> shard < 2 ^ 64 ->
  check_ranges shard prev acc rs = Some (acc + sumZ rr_length rs).
Proof.
  revert prev acc. induction rs as [| r rs IH]; intros prev acc Hord Hp Ha Hs; cbn [check_ranges sumZ foldr].
  { f_equal. lia. }
  destruct Hord as (H1 & H2 & H3). pose proof (ordered_le _ _ _ H3).
  split_if; [lia |]. unfold range_end. rewrite !u64_small by (unfold is_u64; lia).
  rewrite IH by (done || lia). f_equal. unfold sumZ. cbn [foldr]. lia.
Qed.

Lemma ordered_is_range lo rs hi : ordered lo rs hi -> 0 <= lo -> hi < 2 ^ 64 -> Forall is_range rs.
Proof.
  revert lo. induction rs as [| r rs IH]; intros lo Hord Hlo Hhi; [constructor |]. destruct Hord as (H1 & H2 & H3).
  pose proof (ordered_le _ _ _ H3). constructor; [unfold is_range, is_u64; lia |]. eapply IH; [done | lia | done].
Qed.

Lemma sort_insert_perm r rs : sort_insert r rs ≡ₚ r :: rs.
Proof. induction rs as [| x xs IH]; cbn [sort_insert]; [done |]. destruct (_ <? _); [| done]. rewrite IH. constructor. Qed.

Lemma sort_ranges_perm rs : sort_ranges rs ≡ₚ rs.
Proof. unfold sort_ranges. induction rs as [| r rs IH]; cbn [foldr]; [done |]. by rewrite sort_insert_perm, IH. Qed.

Lemma check_ranges_ordered shard prev acc rs n :
  Forall is_range rs -> prev <= shard -> shard < 2 ^ 63 -> 0 <= acc <= prev -> check_ranges shard prev acc rs = Some n ->
  ordered prev rs shard /\ n = acc + sumZ rr_length rs.
Proof.
  intros Hr. revert prev acc. induction Hr as [| r rs [Ho Hl] _ IH]; intros prev acc Hp Hs Ha E; cbn [check_ranges] in E.
  { injection E as <-. unfold sumZ. cbn. lia. }
  destruct (_ || _) eqn:Eb; [done |]. unfold is_u64, range_end in *. rewrite !u64_small in E by (unfold is_u64; lia).
  apply IH in E as [E ->]; [| lia ..]. unfold sumZ. cbn [ordered foldr]. split; [| lia]. split; [lia |]. split; [lia | done].
Qed.

(** Whatever the answer, the plan is sorted and disjoint, inside the lane and free of
    empty ranges, and its bytes are counted. *)
Lemma plan_session_sound shard answer :
  0 <= shard < 2 ^ 63 -> Forall (Forall is_range) answer ->
  let '(ranges, session_bytes) := plan_session shard answer in
  ordered 0 ranges shard /\ Forall (fun r => 0 < rr_length r) ranges /\ session_bytes = sumZ rr_length ranges.
Proof.
  intros Hs Ha. unfold plan_session. set (rs := filter _ _).
  assert (Forall (fun r => is_range r /\ 0 < rr_length r) rs) as Hf.
  { apply Forall_forall. intros r [Hne Hr]%list_elem_of_filter. apply list_elem_of_join in Hr as (part & Hr & Hp).
    rewrite Forall_forall in Ha. pose proof (Ha part Hp) as Hi. rewrite Forall_forall in Hi. split; [by apply Hi |]. destruct (Hi r Hr) as [_ [Hl _]]. lia. }
  rewrite <- (sort_ranges_perm rs) in Hf. destruct (check_ranges _ _ _ _) as [n |] eqn:E.
  - apply check_ranges_ordered in E as [E ->]; [| by eapply Forall_impl; [exact Hf | intros r []] | lia ..]. split; [done |].
    split; [| lia]. by eapply Forall_impl; [exact Hf | intros r []].
  - destruct (Z.ltb_spec 0 shard); unfold sumZ; cbn [ordered foldr rr_offset rr_length]; (split; [lia |]); (split; [repeat constructor; cbn; lia | lia]).
Qed.

(** C31: The two sides of a lane agree on what a session sends.  From any sorted list
    of missing ranges inside the lane, the receiver's coarsened answer has at most
    4096 ranges and is encoded in datagrams that, arriving in any order, with any
    duplicates and any trailer behind them, are complete for the sender once each
    has arrived; the sender then accepts the answer as it was sent, and its plan is
    sorted and disjoint, lies inside the lane and covers every missing byte. *)
Theorem resume_answer_agreed lane nonce resumed missing shard :
  is_u16 lane -> is_u64 nonce -> shard < 2 ^ 63 -> ordered 0 missing shard ->
  exists want msgs,
    coarsen_ranges missing kMaxResumeRanges = Ok want /\ lenZ want <= kMaxResumeRanges /\
    encode_resume_answer seal_plain tt lane nonce resumed want = Ok (tt, msgs) /\
    forall arrivals : list (Z * bytes),
      (forall x, x ∈ arrivals -> 0 <= fst x < lenZ msgs) ->
      (forall i, 0 <= i < lenZ msgs -> i ∈ arrivals.*1) ->
      exists a, collect nonce no_answer ((fun '(i, tail) => default [] (nthZ msgs i) ++ tail) <$> arrivals) = Ok a /\
        answer_complete a = true /\ an_resumed a = resumed /\
        let '(ranges, session_bytes) := plan_session shard (an_answer a) in
        ordered 0 ranges shard /\ session_bytes = sumZ rr_length ranges /\
        (forall o, covers missing o -> covers ranges o).
Proof.
  intros Hl Hn Hs Hord. unfold coarsen_ranges.
  destruct (coarsen_loop_correct (S (length missing)) missing kMaxResumeRanges shard) as (want & E & Hsmall & Ho & Hc & _);
    [lia | unfold kMaxResumeRanges; lia | done | done |].
  pose proof (ordered_is_range _ _ _ Ho ltac:(lia) ltac:(lia)) as Hr.
  destruct (resume_parts_bounds want Hsmall) as [Hp _].
  eexists want, _. split_and!; [done | done | by apply encode_answer_plain |].
  set (msgs := _ <$> seqZ 0 (resume_parts want)).
  assert (lenZ msgs = resume_parts want) as -> by (unfold msgs, lenZ; rewrite length_fmap, length_seqZ; lia).
  intros arrivals Hin Hall.
  destruct (collect_all lane nonce resumed want Hsmall Hr Hl Hn arrivals no_answer ∅ (no_answer_collected lane nonce resumed want Hsmall Hr Hl Hn) Hin)
    as (a & Ea & Ca).
  exists a. destruct (collected_complete lane nonce resumed want Hsmall Hr Hl Hn a _ Ca) as (H1 & H2 & H3).
  { intros i Hi. apply elem_of_union_l, elem_of_list_to_set. by apply Hall. }
  split_and!; try done.
  - rewrite <- Ea. f_equal. apply list_fmap_ext. intros k [i tail] Hk.
    assert (0 <= i < resume_parts want) by (apply (Hin (i, tail)); by eapply list_elem_of_lookup_2).
    unfold msgs. rewrite nthZ_lookup, list_lookup_fmap, lookup_seqZ_lt by lia. cbn. by rewrite Z2Nat.id by lia.
  - unfold plan_session. rewrite H2. pose proof (filter_ordered _ _ _ Ho) as Hf.
    rewrite (sort_ordered _ _ _ Hf), (check_ordered shard 0 0) by (done || lia).
    split_and!; [done | lia |]. intros o Ho'%Hc. by apply filter_covers.
Qed.

Lemma resume_answer_agreed_witness :
  exists want msgs,
    coarsen_ranges [mkResumeRange 0 10; mkResumeRange 20 5] kMaxResumeRanges = Ok want /\
    lenZ want <= kMaxResumeRanges /\
    encode_resume_answer seal_plain tt 3 99 true want = Ok (tt, msgs) /\
    forall arrivals : list (Z * bytes),
      (forall x, x ∈ arrivals -> 0 <= fst x < lenZ msgs) ->
      (forall i, 0 <= i < lenZ msgs -> i ∈ arrivals.*1) ->
      exists a, collect 99 no_answer ((fun '(i, tail) => default [] (nthZ msgs i) ++ tail) <$> arrivals) = Ok a /\
        answer_complete a = true /\ an_resumed a = true /\
        let '(ranges, session_bytes) := plan_session 100 (an_answer a) in
        ordered 0 ranges 100 /\ session_bytes = sumZ rr_length ranges /\
        (forall o, covers [mkResumeRange 0 10; mkResumeRange 20 5] o -> covers ranges o).
Proof.
  apply (resume_answer_agreed 3 99 true [mkResumeRange 0 10; mkResumeRange 20 5] 100);
    [unfold is_u16; lia | unfold is_u64; lia | lia | cbn; lia].
Defined.
