(* ===== verification/FileSink.v ===== *)
(** * The resumable file sink

    Models [FileSink] of [src/src/proto/transfer.cpp]: blocks land in a partial
    file at their own offsets, counters record how much of each fixed-size chunk
    has been written, a checkpoint appends a trailer that names the complete
    chunks, and a later session that finds the trailer asks only for the rest.

    The partial file is a byte string.  The outcome of every system call is an
    argument: [pwritev] may be interrupted, fail or write any part of its request
    (never more than it), [fdatasync], [ftruncate] and the allocation may fail. *)

From S2P Require Import Prelude Wire Control Hash Ranges.

(** ** The operating system *)

Definition pad (n : Z) (file : bytes) : bytes := file ++ replicate (Z.to_nat n - length file) 0.

(** Writing at an offset; a gap past the end reads as zeros. *)
Definition fwrite (file : bytes) (off : Z) (bs : bytes) : bytes :=
  take (Z.to_nat off) (pad off file) ++ bs ++ drop (Z.to_nat (off + lenZ bs)) file.

Definition ftruncate (file : bytes) (n : Z) : bytes := take (Z.to_nat n) (pad n file).

(** ** State *)

Record Prior := mkPrior {
  pr_file_id : Z;
  pr_total : Z;
  pr_chunk : Z;
  pr_nchunks : Z;
  pr_bitmap : bytes;
}.

Record FileSink := mkFileSink {
  fk_file : bytes;
  fk_existed : bool;
  fk_prior : option Prior;
  fk_prepared : bool;
  fk_resumed : bool;
  fk_resumed_bytes : Z;
  fk_file_id : Z;
  fk_total : Z;
  fk_chunk : Z;
  fk_nchunks : Z;
  fk_counters : list Z;
}.

Definition kFooterLen : Z := 48.
Definition kMagic : bytes := [70; 85; 83; 69; 82; 83; 77; 49].
Definition kOffMax : Z := 2 ^ 63 - 1.

Definition chunk_len (i chunk total : Z) : Z := Z.min chunk (u64 (total - i * chunk)).

(** ** The trailer *)

(** Complete chunks, as the checkpoint sees them. *)
Definition chunk_complete (s : FileSink) (i : Z) : bool :=
  chunk_len i (fk_chunk s) (fk_total s) <=? getZ (fk_counters s) i.

Definition mark_bit (bitmap : bytes) (i : Z) : bytes :=
  setZ bitmap (i / 8) (Z.lor (getZ bitmap (i / 8)) (u8 (Z.shiftl 1 (i mod 8)))).

Definition test_bit (bitmap : bytes) (i : Z) : bool :=
  negb (Z.land (getZ bitmap (i / 8)) (Z.shiftl 1 (i mod 8)) =? 0).

Definition bitmap_len (nchunks : Z) : Z := (nchunks + 7) / 8.

Definition make_bitmap (s : FileSink) : bytes :=
  for_up (Z.to_nat (fk_nchunks s)) 0
    (fun i bitmap => if chunk_complete s i then mark_bit bitmap i else bitmap)
    (replicate (Z.to_nat (bitmap_len (fk_nchunks s))) 0).

(** The four fields in front of the checksum, as [put_u64] lays them out. *)
Definition footer_fields (file_id total chunk nchunks : Z) : bytes :=
  be 8 file_id ++ be 8 total ++ be 8 chunk ++ be 8 nchunks.

Definition make_trailer (s : FileSink) : bytes :=
  let bitmap := make_bitmap s in
  let fields := footer_fields (fk_file_id s) (fk_total s) (fk_chunk s) (fk_nchunks s) in
  bitmap ++ fields ++ be 8 (hash64 (bitmap ++ fields)) ++ kMagic.

(** [pwrite_all] *)
Fixpoint pwrite_all (calls : list io) (file bs : bytes) (off : Z) : res (bytes * bool) :=
  if lenZ bs <=? 0 then Ok (file, true)
  else
    match calls with
    | [] => Fault
    | IoIntr :: calls => pwrite_all calls file bs off
    | IoError :: _ => Ok (file, false)
    | IoBytes n :: calls =>
        let n := Z.min n (lenZ bs) in
        if n <=? 0 then Ok (file, false)
        else pwrite_all calls (fwrite file off (take (Z.to_nat n) bs)) (drop (Z.to_nat n) bs) (u64 (off + n))
    end.

Definition set_file (s : FileSink) (file : bytes) : FileSink :=
  mkFileSink file (fk_existed s) (fk_prior s) (fk_prepared s) (fk_resumed s) (fk_resumed_bytes s)
    (fk_file_id s) (fk_total s) (fk_chunk s) (fk_nchunks s) (fk_counters s).

Definition set_counters (s : FileSink) (counters : list Z) : FileSink :=
  mkFileSink (fk_file s) (fk_existed s) (fk_prior s) (fk_prepared s) (fk_resumed s) (fk_resumed_bytes s)
    (fk_file_id s) (fk_total s) (fk_chunk s) (fk_nchunks s) counters.

(** [checkpoint] on an open file; [sync_ok] is the first [fdatasync]. *)
Definition checkpoint (s : FileSink) (sync_ok : bool) (calls : list io) : res FileSink :=
  if negb (fk_prepared s) || (fk_file_id s =? 0) then Ok s
  else
    let trailer := make_trailer s in
    if negb sync_ok then Ok s
    else res_bind (pwrite_all calls (fk_file s) trailer (fk_total s)) (fun '(file, _) => Ok (set_file s file)).

Definition get_footer : rd (Z * Z * Z * Z * Z) :=
  file_id <~ get_u64 ;; total <~ get_u64 ;; chunk <~ get_u64 ;; nchunks <~ get_u64 ;; sum <~ get_u64 ;;
  rd_ret (file_id, total, chunk, nchunks, sum).

(** [load_trailer] on a readable file. *)
Definition load_trailer (file : bytes) : option Prior :=
  let size := lenZ file in
  if size <? kFooterLen then None
  else
    let f := slice file (size - kFooterLen) kFooterLen in
    if negb (bool_decide (slice f 40 8 = kMagic)) then None
    else
      match get_footer f with
      | Ok ((file_id, total, chunk, nchunks, sum), _) =>
          if (chunk =? 0) || (size <? total) || negb (nchunks =? u64 (u64 (total + chunk) - 1) / chunk) then None
          else
            let bitmap_len := u64 (nchunks + 7) / 8 in
            if negb (size =? u64 (u64 (total + bitmap_len) + kFooterLen)) then None
            else
              let bitmap := slice file total bitmap_len in
              if negb (hash64 (bitmap ++ slice f 0 32) =? sum) then None
              else Some (mkPrior file_id total chunk nchunks bitmap)
      | _ => None
      end.

(** The constructor and [open] on an existing or a new partial file. *)
Definition open_sink (existed : bool) (file : bytes) : FileSink :=
  mkFileSink (if existed then file else []) existed (if existed then load_trailer file else None)
    false false 0 0 0 1 0 [].

(** ** Preparing *)

(** [while (total_bytes / chunk > (8u << 20)) chunk *= 2;] *)
Fixpoint grow_chunk (fuel : nat) (total chunk : Z) : res Z :=
  match fuel with
  | O => Fault
  | S fuel => if 8388608 <? total / chunk then grow_chunk fuel total (u64 (chunk * 2)) else Ok chunk
  end.

Definition chunk_for (total : Z) : res Z := grow_chunk 64 total 65536.

(** Adopting the chunks an earlier session completed. *)
Definition adopt_chunk (p : Prior) (chunk total i : Z) (st : list Z * Z) : list Z * Z :=
  if test_bit (pr_bitmap p) i
  then let len := chunk_len i chunk total in (setZ (fst st) i len, u64 (snd st + len))
  else st.

Definition same_file (p : Prior) (file_id total chunk nchunks : Z) : bool :=
  negb (file_id =? 0) && (pr_file_id p =? file_id) && (pr_total p =? total) && (pr_chunk p =? chunk) &&
  (pr_nchunks p =? nchunks).

(** [clear_ok] and [size_ok] are the two [ftruncate] calls of a fresh transfer. *)
Definition prepare (s : FileSink) (total file_id : Z) (alloc_ok clear_ok size_ok : bool) :
    res (FileSink * bool) :=
  if kOffMax <? total then Ok (s, false)
  else
    res_bind (chunk_for total) (fun chunk =>
    let nchunks := u64 (u64 (total + chunk) - 1) / chunk in
    if negb alloc_ok then Ok (s, false)
    else
      let fresh := replicate (Z.to_nat nchunks) 0 in
      let done '(file, prior, resumed, bytes, counters) :=
        Ok (mkFileSink file (fk_existed s) prior true resumed bytes file_id total chunk nchunks counters, true) in
      match fk_prior s with
      | Some p =>
          if same_file p file_id total chunk nchunks then
            let '(counters, bytes) := for_up (Z.to_nat nchunks) 0 (adopt_chunk p chunk total) (fresh, fk_resumed_bytes s) in
            done (fk_file s, Some (mkPrior (pr_file_id p) (pr_total p) (pr_chunk p) (pr_nchunks p) []), true, bytes, counters)
          else if negb clear_ok then Ok (set_counters s fresh, false)
          else if negb size_ok then Ok (set_file (set_counters s fresh) [], false)
          else done (ftruncate (ftruncate (fk_file s) 0) total,
                     Some (mkPrior (pr_file_id p) (pr_total p) (pr_chunk p) (pr_nchunks p) []),
                     fk_resumed s, fk_resumed_bytes s, fresh)
      | None =>
          if negb clear_ok then Ok (set_counters s fresh, false)
          else if negb size_ok then Ok (set_file (set_counters s fresh) [], false)
          else done (ftruncate (ftruncate (fk_file s) 0) total, None, fk_resumed s, fk_resumed_bytes s, fresh)
      end).

(** ** What is missing *)

(** Appends [a, b), joining it to the last range when they touch. *)
Definition push_range (out : list ResumeRange) (a b : Z) : list ResumeRange :=
  match last out with
  | Some r =>
      if range_end r =? a
      then take (length out - 1) out ++ [mkResumeRange (rr_offset r) (u64 (rr_length r + (b - a)))]
      else out ++ [mkResumeRange a (b - a)]
  | None => [mkResumeRange a (b - a)]
  end.

(** One chunk of the loop. *)
Definition missing_chunk (s : FileSink) (from to c : Z) (out : list ResumeRange) : list ResumeRange :=
  if chunk_complete s c then out
  else
    let a := Z.max from (c * fk_chunk s) in
    let b := Z.min to (Z.min (fk_total s) ((c + 1) * fk_chunk s)) in
    push_range out a b.

Definition missing (s : FileSink) (from to : Z) (out : list ResumeRange) : list ResumeRange :=
  if negb (fk_resumed s) || (to <=? from) then
    if from <? to then out ++ [mkResumeRange from (to - from)] else out
  else
    let first := from / fk_chunk s in
    let last := Z.min ((to - 1) / fk_chunk s) (fk_nchunks s - 1) in
    for_up (Z.to_nat (last + 1 - first)) first (missing_chunk s from to) out.

(** ** Writing *)

(** Skips what a short write consumed. *)
Fixpoint iov_skip (iov : list bytes) (left : Z) : list bytes :=
  match iov with
  | [] => []
  | v :: rest => if lenZ v <=? left then iov_skip rest (left - lenZ v) else drop (Z.to_nat left) v :: rest
  end.

(** The [pwritev] loop. *)
Fixpoint write_loop (calls : list io) (file : bytes) (offset : Z) (iov : list bytes) (bytes_left : Z) :
    res (bytes * bool) :=
  if bytes_left <=? 0 then Ok (file, true)
  else
    match calls with
    | [] => Fault
    | IoIntr :: calls => write_loop calls file offset iov bytes_left
    | IoError :: _ => Ok (file, false)
    | IoBytes n :: calls =>
        let n := Z.min n (lenZ (mjoin iov)) in
        if n <=? 0 then Ok (file, false)
        else write_loop calls (fwrite file offset (take (Z.to_nat n) (mjoin iov))) (u64 (offset + n))
               (iov_skip iov n) (bytes_left - n)
    end.

(** Counts [off, end) against its chunks; every turn advances by at least a byte. *)
Fixpoint count_bytes (fuel : nat) (s : FileSink) (off stop : Z) : res FileSink :=
  match fuel with
  | O => Fault
  | S fuel =>
      if off <? stop then
        let c := off / fk_chunk s in
        let next := Z.min stop ((c + 1) * fk_chunk s) in
        let s := if c <? fk_nchunks s
                 then set_counters s (setZ (fk_counters s) c (u64 (getZ (fk_counters s) c + (next - off))))
                 else s in
        count_bytes fuel s next stop
      else Ok s
  end.

Definition write (s : FileSink) (offset : Z) (iov : list bytes) (calls : list io) : res (FileSink * bool) :=
  let len := lenZ (mjoin iov) in
  res_bind (write_loop calls (fk_file s) offset iov len) (fun '(file, ok) =>
  let s := set_file s file in
  if negb ok then Ok (s, false)
  else res_bind (count_bytes (S (Z.to_nat len)) s offset (offset + len)) (fun s => Ok (s, true))).

(** ** Finishing *)

Inductive End := Commit | KeepPartial | Discard.

(** What becomes of the partial file: the result under its final name, kept for a
    later session, or removed. *)
Inductive fate := Renamed (file : bytes) | Kept (file : bytes) | Removed.

(** [finish] on an open file; [commit_ok] is the truncation, sync, close and
    rename together, [sync_ok] and [calls] the final checkpoint's. *)
Definition finish (s : FileSink) (e : End) (commit_ok sync_ok : bool) (calls : list io) : res (fate * bool) :=
  match e with
  | Commit => if commit_ok then Ok (Renamed (ftruncate (fk_file s) (fk_total s)), true) else Ok (Removed, false)
  | KeepPartial =>
      if fk_prepared s && negb (fk_file_id s =? 0)
      then res_bind (checkpoint s sync_ok calls) (fun s => Ok (Kept (fk_file s), true))
      else if fk_prepared s || negb (fk_existed s) then Ok (Removed, true) else Ok (Kept (fk_file s), true)
  | Discard => Ok (Removed, true)
  end.

(** ** Files *)

Lemma fwrite_inside file off bs :
  0 <= off <= lenZ file ->
  fwrite file off bs = take (Z.to_nat off) file ++ bs ++ drop (Z.to_nat (off + lenZ bs)) file.
Proof. intros H. unfold fwrite, pad. rewrite take_app_le by (unfold lenZ in H; lia). done. Qed.

Lemma fwrite_splice file off bs : 0 <= off -> off + lenZ bs <= lenZ file -> fwrite file off bs = splice file off bs.
Proof. intros Ho Hl. pose proof (lenZ_nonneg bs). rewrite fwrite_inside by lia. unfold splice. do 3 f_equal. unfold lenZ in *. lia. Qed.

Lemma fwrite_nil file off : 0 <= off <= lenZ file -> fwrite file off [] = file.
Proof. intros H. rewrite fwrite_inside by done. rewrite lenZ_nil, Z.add_0_r. cbn. apply take_drop. Qed.

Lemma lenZ_fwrite file off bs :
  0 <= off <= lenZ file -> lenZ (fwrite file off bs) = Z.max (lenZ file) (off + lenZ bs).
Proof.
  intros H. rewrite fwrite_inside by done. unfold lenZ in *. rewrite !length_app, length_take, length_drop. lia.
Qed.

Lemma fwrite_fwrite file off b1 b2 :
  0 <= off <= lenZ file -> fwrite (fwrite file off b1) (off + lenZ b1) b2 = fwrite file off (b1 ++ b2).
Proof.
  intros H. pose proof (lenZ_nonneg b1). pose proof (lenZ_nonneg b2).
  rewrite (fwrite_inside _ (off + lenZ b1)) by (rewrite lenZ_fwrite by done; lia).
  rewrite !(fwrite_inside file) by done. rewrite (app_assoc (take _ _) b1), lenZ_app.
  assert (length (take (Z.to_nat off) file) = Z.to_nat off) as Ht by (rewrite length_take; unfold lenZ in H; lia).
  set (A := take (Z.to_nat off) file) in *. unfold lenZ in *.
  rewrite (take_app_length' (A ++ b1)) by (rewrite length_app; lia).
  rewrite (drop_app_ge (A ++ b1)) by (rewrite length_app; lia). rewrite drop_drop, length_app, <- !app_assoc.
  do 4 f_equal. lia.
Qed.

Lemma fwrite_lookup_in file off bs (i : nat) :
  0 <= off <= lenZ file -> off <= Z.of_nat i < off + lenZ bs ->
  fwrite file off bs !! i = bs !! Z.to_nat (Z.of_nat i - off).
Proof.
  intros H Hi. rewrite fwrite_inside by done.
  assert (length (take (Z.to_nat off) file) = Z.to_nat off) as Ht by (rewrite length_take; unfold lenZ in H; lia).
  rewrite lookup_app_r by lia. rewrite lookup_app_l by (unfold lenZ in *; lia). f_equal. lia.
Qed.

Lemma fwrite_lookup_out file off bs (i : nat) :
  0 <= off <= lenZ file -> Z.of_nat i < off \/ off + lenZ bs <= Z.of_nat i -> fwrite file off bs !! i = file !! i.
Proof.
  intros H Hi. rewrite fwrite_inside by done. pose proof (lenZ_nonneg bs).
  assert (length (take (Z.to_nat off) file) = Z.to_nat off) as Ht by (rewrite length_take; unfold lenZ in H; lia).
  destruct Hi as [Hi | Hi].
  - rewrite lookup_app_l, lookup_take_lt by lia. done.
  - unfold lenZ in *. rewrite lookup_app_r, lookup_app_r, lookup_drop by lia. f_equal. lia.
Qed.

Lemma pwrite_all_spec calls file bs off file' ok :
  pwrite_all calls file bs off = Ok (file', ok) -> 0 <= off <= lenZ file -> off + lenZ bs < 2 ^ 64 ->
  exists k, 0 <= k <= lenZ bs /\ file' = fwrite file off (take (Z.to_nat k) bs) /\ (ok = true -> k = lenZ bs).
Proof.
  revert file bs off. induction calls as [| call calls IH]; intros file bs off E Ho Hl; cbn [pwrite_all] in E;
    pose proof (lenZ_nonneg bs); destruct (Z.leb_spec (lenZ bs) 0) as [Hz | Hpos].
  1, 3: apply Ok_inj, pair_equal_spec in E as [<- <-]; exists 0; rewrite take_0, fwrite_nil by done; split_and!; (done || lia).
  - done.
  - destruct call as [| | n]; [by apply IH | |].
    + apply Ok_inj, pair_equal_spec in E as [<- <-]. exists 0. rewrite take_0, fwrite_nil by done. split_and!; (done || lia).
    + set (n' := Z.min n (lenZ bs)) in *. destruct (Z.leb_spec n' 0).
      { apply Ok_inj, pair_equal_spec in E as [<- <-]. exists 0. rewrite take_0, fwrite_nil by done. split_and!; (done || lia). }
      assert (lenZ (take (Z.to_nat n') bs) = n') as Hn by (apply lenZ_take; lia).
      assert (lenZ (drop (Z.to_nat n') bs) = lenZ bs - n') as Hd by (apply lenZ_drop; lia).
      rewrite u64_small in E by (unfold is_u64; lia).
      apply IH in E as (k & Hk & -> & Hok); [| rewrite lenZ_fwrite by done; lia | lia].
      exists (n' + k). split_and!; [lia | lia | | intros ->%Hok; lia].
      rewrite <- Hn at 2. rewrite fwrite_fwrite by done. f_equal. rewrite take_take_drop. f_equal. lia.
Qed.

(** ** The bitmap *)

Definition bit_bytes (bm : bytes) : Prop := Forall is_u8 bm.

Lemma test_bit_testbit bm i : test_bit bm i = Z.testbit (getZ bm (i / 8)) (i mod 8).
Proof.
  unfold test_bit. rewrite Z.shiftl_1_l, land_pow2_eqb by mlia. apply negb_involutive.
Qed.

Lemma lenZ_mark_bit bm i : lenZ (mark_bit bm i) = lenZ bm.
Proof. apply lenZ_setZ. Qed.

Lemma test_mark_bit bm i j :
  0 <= i -> i / 8 < lenZ bm -> 0 <= j ->
  test_bit (mark_bit bm i) j = (i =? j) || test_bit bm j.
Proof.
  intros Hi Hl Hj. rewrite !test_bit_testbit. unfold mark_bit.
  rewrite u8_small by (unfold is_u8; rewrite Z.shiftl_1_l; split; [apply Z.pow_nonneg | apply Z.pow_lt_mono_r]; mlia).
  rewrite getZ_setZ by mlia. rewrite Z.shiftl_1_l. destruct (Z.eqb_spec (i / 8) (j / 8)) as [E |].
  - rewrite Z.lor_spec, Z.pow2_bits_eqb, E by mlia. rewrite orb_comm. f_equal.
    destruct (Z.eqb_spec (i mod 8) (j mod 8)), (Z.eqb_spec i j); try done; exfalso; mlia.
  - destruct (Z.eqb_spec i j); [congruence | done].
Qed.

Lemma mark_bit_bytes bm i : Forall is_u8 bm -> Forall is_u8 (mark_bit bm i).
Proof.
  intros H. unfold mark_bit, setZ. apply Forall_insert; [done |]. apply (lor_range _ _ 8); [lia | | apply u8_range].
  unfold getZ. destruct (nth_in_or_default (Z.to_nat (i / 8)) bm 0) as [Hin | ->]; [| lia].
  apply (proj1 (list.Forall_forall _ _) H), list_elem_of_In, Hin.
Qed.

Lemma getZ_zeros n i : getZ (replicate n 0) i = 0.
Proof.
  unfold getZ. rewrite nth_lookup. destruct (replicate n 0 !! Z.to_nat i) as [x |] eqn:E; [| done].
  by apply lookup_replicate in E as [-> _].
Qed.

Lemma make_bitmap_spec s :
  0 <= fk_nchunks s ->
  lenZ (make_bitmap s) = bitmap_len (fk_nchunks s) /\ Forall is_u8 (make_bitmap s) /\
  forall i, 0 <= i < fk_nchunks s -> test_bit (make_bitmap s) i = chunk_complete s i.
Proof.
  intros Hn. unfold make_bitmap. set (n := Z.to_nat (fk_nchunks s)).
  set (body := fun i bitmap => if chunk_complete s i then mark_bit bitmap i else bitmap).
  assert (0 <= bitmap_len (fk_nchunks s)) by (unfold bitmap_len; mlia).
  pose proof (for_up_ind (fun k bm => lenZ bm = bitmap_len (fk_nchunks s) /\ Forall is_u8 bm /\
    forall i, 0 <= i < fk_nchunks s -> test_bit bm i = ((i <? k) && chunk_complete s i)%bool) n 0 body
    (replicate (Z.to_nat (bitmap_len (fk_nchunks s))) 0)) as Hind. cbv beta in Hind.
  destruct Hind as (H1 & H2 & H3).
  - split_and!; [unfold lenZ; rewrite length_replicate; lia | apply Forall_replicate; unfold is_u8; lia |].
    intros i Hi. rewrite test_bit_testbit. assert (getZ (replicate (Z.to_nat (bitmap_len (fk_nchunks s))) 0) (i / 8) = 0) as ->.
    { apply getZ_zeros. }
    rewrite Z.bits_0. by destruct (Z.ltb_spec i 0); [lia |].
  - intros k bm Hk (Hl & Hb & Ht). unfold body. assert (forall i, (i <? k + 1) = (k =? i) || (i <? k)) as Hlt by
      (intros i; destruct (Z.ltb_spec i (k + 1)), (Z.eqb_spec k i), (Z.ltb_spec i k); cbn; lia).
    destruct (chunk_complete s k) eqn:Hc.
    + split_and!; [by rewrite lenZ_mark_bit | by apply mark_bit_bytes |]. intros i Hi.
      rewrite test_mark_bit, Ht, Hlt by (rewrite ?Hl; unfold bitmap_len; mlia).
      destruct (Z.eqb_spec k i) as [-> |]; cbn; [by rewrite Hc | done].
    + split_and!; [done .. |]. intros i Hi. rewrite Ht, Hlt by done.
      destruct (Z.eqb_spec k i) as [-> |]; cbn; [by rewrite Hc, andb_false_r | done].
  - split_and!; [done .. |]. intros i Hi. rewrite H3 by done. by destruct (Z.ltb_spec i (0 + Z.of_nat n)); [| lia].
Qed.

(** ** Prepared sinks *)

Record wf_sink (s : FileSink) : Prop := {
  wk_prepared : fk_prepared s = true;
  wk_total : 0 <= fk_total s <= kOffMax;
  wk_chunk : 0 < fk_chunk s <= 2 ^ 40;
  wk_chunk_for : chunk_for (fk_total s) = Ok (fk_chunk s);
  wk_nchunks : fk_nchunks s = (fk_total s + fk_chunk s - 1) / fk_chunk s;
  wk_counters : lenZ (fk_counters s) = fk_nchunks s;
  wk_file_id : is_u64 (fk_file_id s);
}.

Lemma nchunks_bounds total chunk :
  0 <= total <= kOffMax -> 0 < chunk <= 2 ^ 40 ->
  let n := (total + chunk - 1) / chunk in 0 <= n <= total /\ total <= n * chunk < total + chunk.
Proof.
  intros Ht Hc n. pose proof (Z.div_mod (total + chunk - 1) chunk ltac:(lia)) as E. fold n in E.
  pose proof (Z.mod_pos_bound (total + chunk - 1) chunk ltac:(lia)). nia.
Qed.

Lemma grow_chunk_ok fuel total k :
  0 <= total <= kOffMax -> 16 <= k <= 40 -> 40 < k + Z.of_nat fuel ->
  exists j, grow_chunk fuel total (2 ^ k) = Ok (2 ^ j) /\ 16 <= j <= 40.
Proof.
  revert k. induction fuel as [| fuel IH]; intros k Ht Hk Hf; [lia |]. cbn [grow_chunk].
  destruct (Z.ltb_spec 8388608 (total / 2 ^ k)) as [Hbig |]; [| by exists k].
  assert (k < 40).
  { destruct (Z.eq_dec k 40) as [-> |]; [| lia]. unfold kOffMax in *.
    assert (total / 2 ^ 40 < 8388608) by (apply Z.div_lt_upper_bound; lia). lia. }
  replace (2 ^ k * 2) with (2 ^ (k + 1)) by (rewrite Z.pow_add_r; lia).
  rewrite u64_small by (split; [apply Z.pow_nonneg | apply Z.pow_lt_mono_r]; lia). apply IH; lia.
Qed.

Lemma chunk_for_ok total : 0 <= total <= kOffMax -> exists chunk, chunk_for total = Ok chunk /\ 0 < chunk <= 2 ^ 40.
Proof.
  intros Ht. destruct (grow_chunk_ok 64 total 16 Ht ltac:(lia) ltac:(lia)) as (j & E & Hj).
  exists (2 ^ j). split; [exact E |]. split; [apply Z.pow_pos_nonneg | apply Z.pow_le_mono_r]; lia.
Qed.

(** ** The trailer round trip *)

Lemma slice_pre {A} (pre mid suf : list A) off n :
  off = lenZ pre -> n = lenZ mid -> slice (pre ++ mid ++ suf) off n = mid.
Proof. intros -> ->. unfold slice. rewrite drop_pre_0. apply take_all_lenZ. Qed.

Lemma trailer_loads s A :
  wf_sink s -> lenZ A = fk_total s ->
  load_trailer (A ++ make_trailer s) =
    Some (mkPrior (fk_file_id s) (fk_total s) (fk_chunk s) (fk_nchunks s) (make_bitmap s)).
Proof.
  intros W HA. pose proof (wk_total _ W) as Ht. pose proof (wk_chunk _ W) as Hc.
  destruct (nchunks_bounds _ _ Ht Hc) as [Hn Hn2]. rewrite <- (wk_nchunks _ W) in *. unfold kOffMax in *.
  destruct (make_bitmap_spec s ltac:(lia)) as (Hbl & Hbb & _).
  assert (0 <= bitmap_len (fk_nchunks s) /\ 8 * bitmap_len (fk_nchunks s) <= fk_nchunks s + 7) as Hb by (unfold bitmap_len; mlia).
  unfold make_trailer. set (bm := make_bitmap s) in *.
  set (fields := footer_fields (fk_file_id s) (fk_total s) (fk_chunk s) (fk_nchunks s)).
  pose proof (hash64_range (bm ++ fields)) as Hh. set (h := hash64 (bm ++ fields)) in *.
  assert (lenZ fields = 32) as Hf by (unfold fields, footer_fields; by rewrite !lenZ_app, !lenZ_be).
  set (foot := fields ++ be 8 h ++ kMagic).
  assert (lenZ foot = 48) as Hft by (unfold foot; by rewrite !lenZ_app, Hf, lenZ_be).
  unfold load_trailer, kFooterLen. rewrite !lenZ_app, HA, Hbl, Hft.
  destruct (Z.ltb_spec (fk_total s + (bitmap_len (fk_nchunks s) + 48)) 48); [lia |].
  assert (slice (A ++ bm ++ foot) (fk_total s + (bitmap_len (fk_nchunks s) + 48) - 48) 48 = foot) as ->.
  { rewrite <- (app_nil_r foot) at 1. rewrite app_assoc. apply slice_pre; [rewrite lenZ_app; lia | lia]. }
  assert (slice foot 40 8 = kMagic) as ->.
  { unfold foot. rewrite <- (app_nil_r kMagic) at 1. rewrite app_assoc. apply slice_pre; [by rewrite lenZ_app, Hf, lenZ_be | done]. }
  rewrite bool_decide_eq_true_2 by done. cbn [negb].
  assert (slice foot 0 32 = fields) as -> by (apply (slice_pre [] fields); done).
  assert (get_footer foot = Ok ((fk_file_id s, fk_total s, fk_chunk s, fk_nchunks s, h), kMagic)) as ->.
  { unfold foot, fields, footer_fields, get_footer. rewrite <- !app_assoc.
    assert (is_u64 (fk_total s) /\ is_u64 (fk_chunk s) /\ is_u64 (fk_nchunks s)) as (? & ? & ?) by (unfold is_u64; lia).
    by rewrite !bind_u64 by (done || apply W). }
  rewrite (u64_small (fk_nchunks s + 7)), (u64_small (fk_total s + fk_chunk s)), (u64_small (_ - 1)) by (unfold is_u64; lia).
  destruct (Z.eqb_spec (fk_chunk s) 0); [lia |]. cbn [orb].
  destruct (Z.ltb_spec (fk_total s + (bitmap_len (fk_nchunks s) + 48)) (fk_total s)); [lia |]. cbn [orb].
  rewrite <- (wk_nchunks _ W), Z.eqb_refl. cbn [negb].
  change ((fk_nchunks s + 7) / 8) with (bitmap_len (fk_nchunks s)).
  rewrite (u64_small (fk_total s + bitmap_len _)), (u64_small (_ + 48)) by (unfold is_u64; lia). rewrite Z.add_assoc, Z.eqb_refl. cbn [negb].
  assert (slice (A ++ bm ++ foot) (fk_total s) (bitmap_len (fk_nchunks s)) = bm) as -> by (apply slice_pre; lia).
  fold h. by rewrite Z.eqb_refl.
Qed.

(** ** Missing ranges *)

Lemma ordered_hi lo rs hi hi' : ordered lo rs hi -> hi <= hi' -> ordered lo rs hi'.
Proof.
  revert lo. induction rs as [| r rs IH]; intros lo; cbn [ordered]; [lia |].
  intros (? & ? & ?) ?. split_and!; [done .. | by apply IH].
Qed.

Lemma ordered_snoc lo rs r hi :
  ordered lo (rs ++ [r]) hi <-> ordered lo rs (rr_offset r) /\ 0 <= rr_length r /\ rr_offset r + rr_length r <= hi.
Proof.
  revert lo. induction rs as [| x rs IH]; intros lo; cbn [app ordered]; [naive_solver lia |].
  rewrite IH. naive_solver.
Qed.

Lemma covers_snoc rs r o : covers (rs ++ [r]) o <-> covers rs o \/ rr_offset r <= o < rr_offset r + rr_length r.
Proof.
  induction rs as [| x rs IH]; cbn [app]; rewrite !covers_cons; [pose proof (covers_nil o); tauto |]. rewrite IH. tauto.
Qed.

Lemma push_range_spec lo out a b :
  ordered lo out a -> 0 <= lo -> a <= b < 2 ^ 64 ->
  ordered lo (push_range out a b) b /\ forall o, covers (push_range out a b) o <-> covers out o \/ a <= o < b.
Proof.
  intros Hord Hlo Hb. unfold push_range. pose proof (ordered_le _ _ _ Hord) as Hle.
  destruct out as [| r out _] using rev_ind.
  { cbn [last]. split; [cbn; lia |]. intros o. rewrite covers_cons. cbn [rr_offset rr_length].
    pose proof (covers_nil o). assert (a <= o < a + (b - a) <-> a <= o < b) by lia. tauto. }
  rewrite last_snoc. apply ordered_snoc in Hord as Hsn. destruct Hsn as (H1 & H2 & H3). pose proof (ordered_le _ _ _ H1).
  unfold range_end. rewrite u64_small by (unfold is_u64; lia).
  destruct (Z.eqb_spec (rr_offset r + rr_length r) a) as [Heq | Hne].
  - rewrite length_app, Nat.add_sub, take_app_length, u64_small by (unfold is_u64; lia). split.
    + apply ordered_snoc. cbn [rr_offset rr_length]. split_and!; [done | lia | lia].
    + intros o. rewrite !covers_snoc. cbn [rr_offset rr_length].
      assert (rr_offset r <= o < rr_offset r + (rr_length r + (b - a)) <->
              rr_offset r <= o < rr_offset r + rr_length r \/ a <= o < b) as -> by lia. tauto.
  - split.
    + apply ordered_snoc. cbn [rr_offset rr_length]. split_and!; [done | lia | lia].
    + intros o. rewrite (covers_snoc (out ++ [r])). cbn [rr_offset rr_length].
      by assert (a <= o < a + (b - a) <-> a <= o < b) as -> by lia.
Qed.

(** The end of the part of [from, to) below chunk [k]. *)
Definition chunk_edge (s : FileSink) (from to k : Z) : Z :=
  Z.max from (Z.min to (k * fk_chunk s)).

Lemma missing_spec s from to :
  wf_sink s -> fk_resumed s = true -> 0 <= from <= to -> to <= fk_total s ->
  ordered from (missing s from to []) to /\
  forall o, from <= o < to -> covers (missing s from to []) o <-> chunk_complete s (o / fk_chunk s) = false.
Proof.
  intros W Hr Hft Hto. pose proof (wk_total _ W) as Ht. pose proof (wk_chunk _ W) as Hc.
  destruct (nchunks_bounds _ _ Ht Hc) as [Hn Hn2]. rewrite <- (wk_nchunks _ W) in *. unfold kOffMax in *.
  unfold missing. rewrite Hr. cbn [negb orb]. destruct (Z.leb_spec to from).
  { split; [split_if; cbn; lia | lia]. }
  set (ch := fk_chunk s) in *. set (first := from / ch).
  pose proof (Z.div_mod from ch ltac:(lia)) as Hfd. pose proof (Z.mod_pos_bound from ch ltac:(lia)). fold first in Hfd.
  pose proof (Z.div_mod (to - 1) ch ltac:(lia)) as Htd. pose proof (Z.mod_pos_bound (to - 1) ch ltac:(lia)).
  set (lst := (to - 1) / ch) in *.
  assert (lst <= fk_nchunks s - 1) by (apply Z.lt_le_pred, (Z.mul_lt_mono_pos_r ch); lia).
  rewrite Z.min_l by lia. assert (first <= lst) by (apply Z.lt_succ_r, (Z.mul_lt_mono_pos_r ch); lia).
  pose proof (for_up_ind (fun k out => ordered from out (chunk_edge s from to k) /\
    forall o, covers out o <-> from <= o < chunk_edge s from to k /\ chunk_complete s (o / ch) = false)
    (Z.to_nat (lst + 1 - first)) first (missing_chunk s from to) []) as Hind. cbv beta in Hind.
  replace (first + Z.of_nat (Z.to_nat (lst + 1 - first))) with (lst + 1) in Hind by lia.
  assert (chunk_edge s from to (lst + 1) = to) as Elast by (unfold chunk_edge; fold ch; lia).
  assert (chunk_edge s from to first = from) as Efirst by (unfold chunk_edge; fold ch; lia).
  rewrite Elast, Efirst in Hind. destruct Hind as [Ho Hcov].
  - split; [cbn; lia |]. intros o. pose proof (covers_nil o). split; [tauto | lia].
  - intros k out Hk [Ho Hcov]. unfold missing_chunk. fold ch.
    assert (k * ch <= lst * ch) by (apply Z.mul_le_mono_nonneg_r; lia).
    assert (first * ch <= k * ch) by (apply Z.mul_le_mono_nonneg_r; lia).
    assert (Z.max from (k * ch) = chunk_edge s from to k /\ chunk_edge s from to k <= chunk_edge s from to (k + 1) /\
            Z.min to (Z.min (fk_total s) ((k + 1) * ch)) = chunk_edge s from to (k + 1) /\
            chunk_edge s from to (k + 1) <= to) as (E1 & E2 & E3 & E4) by (unfold chunk_edge; fold ch; lia).
    assert (forall o, chunk_edge s from to k <= o < chunk_edge s from to (k + 1) -> o / ch = k) as Hin.
    { intros o Hok. symmetry. apply (Z.div_unique o ch k (o - ch * k)); [| lia]. unfold chunk_edge in Hok. fold ch in Hok. lia. }
    assert (from <= chunk_edge s from to k) by (unfold chunk_edge; lia).
    destruct (chunk_complete s k) eqn:Hcc.
    + split; [by eapply ordered_hi |]. intros o. rewrite Hcov. split; [intros [? ?]; split; [lia | done] |].
      intros [? Hinc]. split; [| done]. destruct (Z.lt_ge_cases o (chunk_edge s from to k)); [lia |].
      rewrite (Hin o) in Hinc by lia. congruence.
    + rewrite E1, E3. destruct (push_range_spec from out _ (chunk_edge s from to (k + 1)) Ho) as [Ho' Hc']; [lia | lia |].
      split; [done |]. intros o. rewrite Hc', Hcov. split.
      * intros [[? ?] | Hok]; [split; [lia | done] |]. rewrite (Hin o) by lia. split; [lia | done].
      * intros [? Hinc]. destruct (Z.lt_ge_cases o (chunk_edge s from to k)); [left | right]; [split; [lia | done] | lia].
  - split; [done |]. intros o Hor. rewrite Hcov. naive_solver.
Qed.

(** ** Writes *)

Lemma iov_skip_join iov n : 0 <= n <= lenZ (mjoin iov) -> mjoin (iov_skip iov n) = drop (Z.to_nat n) (mjoin iov).
Proof.
  revert n. induction iov as [| v iov IH]; intros n Hn; cbn [iov_skip].
  { cbn. by rewrite drop_nil. }
  change (mjoin (v :: iov)) with (v ++ mjoin iov) in *. rewrite lenZ_app in Hn.
  destruct (Z.leb_spec (lenZ v) n).
  - rewrite IH by lia. rewrite drop_app_ge by (unfold lenZ in *; lia). f_equal. unfold lenZ. lia.
  - change (mjoin (drop (Z.to_nat n) v :: iov)) with (drop (Z.to_nat n) v ++ mjoin iov).
    by rewrite drop_app_le by (unfold lenZ in *; lia).
Qed.

(** Whatever the calls report, a prefix of the data lands at its offset, and all
    of it when the loop succeeds. *)
Lemma write_loop_spec calls file offset iov file' ok :
  write_loop calls file offset iov (lenZ (mjoin iov)) = Ok (file', ok) ->
  0 <= offset <= lenZ file -> offset + lenZ (mjoin iov) < 2 ^ 64 ->
  exists k, 0 <= k <= lenZ (mjoin iov) /\ file' = fwrite file offset (take (Z.to_nat k) (mjoin iov)) /\
    (ok = true -> k = lenZ (mjoin iov)).
Proof.
  remember (lenZ (mjoin iov)) as len eqn:Hlen. revert file offset iov len Hlen.
  induction calls as [| call calls IH]; intros file offset iov len Hlen E Ho Hl; cbn [write_loop] in E;
    pose proof (lenZ_nonneg (mjoin iov)); destruct (Z.leb_spec len 0) as [Hz | Hpos].
  1, 3: apply Ok_inj, pair_equal_spec in E as [<- <-]; exists 0; rewrite take_0, fwrite_nil by done; split_and!; (done || lia).
  - done.
  - destruct call as [| | n]; [by apply IH in E | |].
    + apply Ok_inj, pair_equal_spec in E as [<- <-]. exists 0. rewrite take_0, fwrite_nil by done. split_and!; (done || lia).
    + rewrite <- Hlen in E. set (n' := Z.min n len) in *. destruct (Z.leb_spec n' 0).
      { apply Ok_inj, pair_equal_spec in E as [<- <-]. exists 0. rewrite take_0, fwrite_nil by done. split_and!; (done || lia). }
      rewrite u64_small in E by (unfold is_u64; lia).
      pose proof (iov_skip_join iov n' ltac:(lia)) as Hj.
      assert (lenZ (take (Z.to_nat n') (mjoin iov)) = n') as Hn by (apply lenZ_take; lia).
      assert (len - n' = lenZ (mjoin (iov_skip iov n'))) as Hl' by (rewrite Hj, lenZ_drop; lia).
      apply (IH _ _ _ _ Hl') in E as (k & Hk & -> & Hok); [| rewrite lenZ_fwrite by done; lia | lia].
      exists (n' + k). split_and!; [lia | lia | | intros ->%Hok; lia].
      rewrite Hj. rewrite <- Hn at 2. rewrite fwrite_fwrite by done. f_equal.
      rewrite take_take_drop. f_equal. lia.
Qed.

Definition overlap (chunk c lo hi : Z) : Z := Z.max 0 (Z.min hi ((c + 1) * chunk) - Z.max lo (c * chunk)).

Lemma set_counters_same s : set_counters s (fk_counters s) = s.
Proof. by destruct s. Qed.

Lemma count_bytes_spec fuel s off stop :
  0 < fk_chunk s -> lenZ (fk_counters s) = fk_nchunks s -> Forall is_u64 (fk_counters s) ->
  0 <= off <= stop -> stop - off < Z.of_nat fuel ->
  exists cs, count_bytes fuel s off stop = Ok (set_counters s cs) /\ lenZ cs = fk_nchunks s /\ Forall is_u64 cs /\
    forall c, 0 <= c < fk_nchunks s -> getZ cs c = u64 (getZ (fk_counters s) c + overlap (fk_chunk s) c off stop).
Proof.
  revert s off. induction fuel as [| fuel IH]; intros s off Hc Hl Hu Ho Hf; [exists []; lia |]. cbn [count_bytes].
  assert (forall c, 0 <= c < fk_nchunks s -> is_u64 (getZ (fk_counters s) c)) as Hget.
  { intros c Hcr. destruct (nthZ_Some (fk_counters s) c) as [x [_ E]%nthZ_inv]; [lia |].
    rewrite (getZ_lookup _ _ x) by (done || lia). by apply (Forall_lookup_1 _ _ _ _ Hu E). }
  destruct (Z.ltb_spec off stop) as [Hlt | Hge].
  2:{ exists (fk_counters s). rewrite set_counters_same. split_and!; try done. intros c Hcr.
      assert (overlap (fk_chunk s) c off stop = 0) as -> by (unfold overlap; lia).
      rewrite Z.add_0_r, u64_small; [done | by apply Hget]. }
  set (ch := fk_chunk s) in *. set (c0 := off / ch).
  pose proof (Z.div_mod off ch ltac:(lia)) as Hd. pose proof (Z.mod_pos_bound off ch ltac:(lia)). fold c0 in Hd.
  assert (0 <= c0) by (apply Z.div_pos; lia).
  set (next := Z.min stop ((c0 + 1) * ch)). assert (off < next <= stop /\ next <= (c0 + 1) * ch) by lia.
  set (s1 := if c0 <? fk_nchunks s then _ else s).
  assert (fk_chunk s1 = ch /\ fk_nchunks s1 = fk_nchunks s /\ lenZ (fk_counters s1) = fk_nchunks s /\
    Forall is_u64 (fk_counters s1) /\ (forall cs, set_counters s1 cs = set_counters s cs) /\
    forall c, 0 <= c < fk_nchunks s ->
      getZ (fk_counters s1) c = if c =? c0 then u64 (getZ (fk_counters s) c + (next - off)) else getZ (fk_counters s) c)
    as (E1 & E2 & E3 & E4 & E5 & E6).
  { subst s1. destruct (Z.ltb_spec c0 (fk_nchunks s)).
    - cbn [set_counters fk_chunk fk_nchunks fk_counters]. rewrite lenZ_setZ. split_and!; try done.
      + apply Forall_insert; [done | apply u64_range].
      + intros c Hcr. rewrite getZ_setZ by lia. rewrite (Z.eqb_sym c). by destruct (Z.eqb_spec c0 c) as [-> |].
    - split_and!; try done. intros c Hcr. by destruct (Z.eqb_spec c c0); [lia |]. }
  destruct (IH s1 next) as (cs & -> & Hc1 & Hc2 & Hc3); [lia | congruence | done | lia | lia |].
  exists cs. rewrite E5. split_and!; [done | congruence | done |]. rewrite E1, E2 in Hc3. intros c Hcr. rewrite Hc3, E6 by done.
  assert (overlap ch c off stop = (if c =? c0 then next - off else 0) + overlap ch c next stop) as ->.
  { unfold overlap. destruct (Z.eqb_spec c c0) as [-> | Hne]; [lia |].
    assert (c < c0 \/ c0 + 1 <= c) as [Hc0 | Hc0] by lia.
    - assert ((c + 1) * ch <= c0 * ch) by (apply Z.mul_le_mono_nonneg_r; lia). lia.
    - assert ((c0 + 1) * ch <= c * ch) by (apply Z.mul_le_mono_nonneg_r; lia). lia. }
  destruct (Z.eqb_spec c c0); [| done]. unfold u64. by rewrite Zplus_mod_idemp_l, Z.add_assoc.
Qed.

(** ** What a complete chunk holds *)

Definition range_set (lo hi : Z) : gset Z := list_to_set (seqZ lo (hi - lo)).

Lemma elem_of_range_set lo hi o : o ∈ range_set lo hi <-> lo <= o < hi.
Proof. unfold range_set. rewrite elem_of_list_to_set, elem_of_seqZ. lia. Qed.

Lemma size_range_set lo hi : Z.of_nat (size (range_set lo hi)) = Z.max 0 (hi - lo).
Proof. unfold range_set. rewrite size_list_to_set by apply NoDup_seqZ. rewrite length_seqZ. lia. Qed.

(** The offsets of chunk [c]. *)
Definition chunk_range (s : FileSink) (c : Z) : gset Z :=
  range_set (c * fk_chunk s) (Z.min (fk_total s) ((c + 1) * fk_chunk s)).

(** Chunk [c] of the partial file equals the source's. *)
Definition holds (src : bytes) (s : FileSink) (c : Z) : Prop :=
  forall o, o ∈ chunk_range s c -> fk_file s !! Z.to_nat o = src !! Z.to_nat o.

(** [written] are the offsets this session has written and counted, [adopted]
    the chunks it took over from an earlier one. *)
Record sink_inv (src : bytes) (s : FileSink) (adopted : Z -> Prop) (written : gset Z) : Prop := {
  sv_wf : wf_sink s;
  sv_src : lenZ src = fk_total s;
  sv_file : fk_total s <= lenZ (fk_file s) <= fk_total s + bitmap_len (fk_nchunks s) + kFooterLen;
  sv_u64 : Forall is_u64 (fk_counters s);
  sv_written : forall o, o ∈ written -> 0 <= o < fk_total s /\ fk_file s !! Z.to_nat o = src !! Z.to_nat o;
  sv_chunks : forall c, 0 <= c < fk_nchunks s ->
    (adopted c /\ holds src s c) \/ getZ (fk_counters s) c = Z.of_nat (size (written ∩ chunk_range s c));
}.

Lemma chunk_len_pos s c :
  wf_sink s -> 0 <= c < fk_nchunks s ->
  chunk_len c (fk_chunk s) (fk_total s) = Z.of_nat (size (chunk_range s c)) /\ c * fk_chunk s < fk_total s.
Proof.
  intros W Hc. pose proof (wk_total _ W) as Ht. pose proof (wk_chunk _ W) as Hch.
  destruct (nchunks_bounds _ _ Ht Hch) as [_ Hn]. rewrite <- (wk_nchunks _ W) in *. unfold kOffMax in *.
  assert (c * fk_chunk s <= (fk_nchunks s - 1) * fk_chunk s) by (apply Z.mul_le_mono_nonneg_r; lia).
  assert (0 <= c * fk_chunk s) by (apply Z.mul_nonneg_nonneg; lia).
  unfold chunk_len, chunk_range. rewrite size_range_set, u64_small by (unfold is_u64; lia). lia.
Qed.

(** The heart of resuming: a chunk the counters call complete is the source's. *)
Lemma complete_holds src s adopted written c :
  sink_inv src s adopted written -> 0 <= c < fk_nchunks s -> chunk_complete s c = true -> holds src s c.
Proof.
  intros I Hc Hcc. destruct (sv_chunks _ _ _ _ I c Hc) as [[_ ?] | Hcount]; [done |].
  unfold chunk_complete in Hcc. apply Z.leb_le in Hcc. rewrite Hcount in Hcc.
  destruct (chunk_len_pos s c (sv_wf _ _ _ _ I) Hc) as [E _]. rewrite E in Hcc. apply Nat2Z.inj_le in Hcc.
  assert (written ∩ chunk_range s c ⊆ chunk_range s c) as Hsub by set_solver.
  assert (written ∩ chunk_range s c = chunk_range s c) as Heq by (apply leibniz_equiv, set_subseteq_size_equiv; done).
  intros o Ho. apply (sv_written _ _ _ _ I). rewrite <- Heq in Ho. set_solver.
Qed.

Lemma overlap_size s c lo hi :
  wf_sink s -> 0 <= c < fk_nchunks s -> 0 <= lo <= hi -> hi <= fk_total s ->
  overlap (fk_chunk s) c lo hi = Z.of_nat (size (range_set lo hi ∩ chunk_range s c)).
Proof.
  intros W Hc Hlo Hhi.
  assert (range_set lo hi ∩ chunk_range s c =
          range_set (Z.max lo (c * fk_chunk s)) (Z.min hi ((c + 1) * fk_chunk s))) as ->.
  { apply set_eq. intros o. unfold chunk_range. rewrite elem_of_intersection, !elem_of_range_set. lia. }
  by rewrite size_range_set.
Qed.

Lemma size_split (X Y C : gset Z) :
  X ## Y -> (size ((X ∪ Y) ∩ C) = size (X ∩ C) + size (Y ∩ C))%nat /\ (size ((X ∪ Y) ∩ C) <= size C)%nat.
Proof.
  intros Hd. split; [| apply subseteq_size; set_solver].
  rewrite <- size_union by set_solver. f_equal. set_solver.
Qed.

(** Writing the source's bytes keeps the parts of the file that agree with it. *)
Lemma write_agrees src (file : bytes) off k len o :
  0 <= off -> off + len <= lenZ src -> lenZ src <= lenZ file -> 0 <= k <= len ->
  file !! Z.to_nat o = src !! Z.to_nat o \/ off <= o < off + k -> 0 <= o ->
  fwrite file off (take (Z.to_nat k) (slice src off len)) !! Z.to_nat o = src !! Z.to_nat o.
Proof.
  intros Ho Hs Hf Hk Hag Hpos.
  assert (lenZ (take (Z.to_nat k) (slice src off len)) = k) as Hl by (rewrite lenZ_take; [done | rewrite lenZ_slice; lia]).
  destruct (decide (off <= o < off + k)) as [Hin | Hout].
  - rewrite fwrite_lookup_in by lia. rewrite lookup_take_lt, slice_lookup by lia. f_equal. lia.
  - rewrite fwrite_lookup_out by lia. tauto.
Qed.

Lemma sink_write_inv src s adopted written off iov calls s' ok :
  sink_inv src s adopted written -> 0 <= off -> off + lenZ (mjoin iov) <= fk_total s ->
  mjoin iov = slice src off (lenZ (mjoin iov)) -> range_set off (off + lenZ (mjoin iov)) ## written ->
  write s off iov calls = Ok (s', ok) ->
  sink_inv src s' adopted (if ok then range_set off (off + lenZ (mjoin iov)) ∪ written else written).
Proof.
  intros I Ho Hl Hdata Hdisj E. destruct I as [W Hsrc Hfile Hu Hw Hch]. pose proof (wk_total _ W) as Ht.
  unfold kOffMax in *. set (len := lenZ (mjoin iov)) in *. assert (0 <= len) by apply lenZ_nonneg.
  unfold write in E. fold len in E. destruct (write_loop calls (fk_file s) off iov len) as [| | [file b]] eqn:Ew; try done.
  apply write_loop_spec in Ew as (k & Hk & -> & Hfull); [| lia | fold len; lia]. fold len in Hk, Hfull. cbn [res_bind] in E.
  rewrite Hdata in E. set (file' := fwrite (fk_file s) off (take (Z.to_nat k) (slice src off len))) in *.
  assert (lenZ (slice src off len) = len) as Hsl by (apply lenZ_slice; lia).
  assert (forall o, 0 <= o -> fk_file s !! Z.to_nat o = src !! Z.to_nat o \/ off <= o < off + k ->
            file' !! Z.to_nat o = src !! Z.to_nat o) as Hagree.
  { intros o Hop Hor. apply (write_agrees src); try done; lia. }
  assert (lenZ file' = lenZ (fk_file s)) as Hlen.
  { unfold file'. rewrite lenZ_fwrite by lia. rewrite lenZ_take by lia. lia. }
  assert (forall c, 0 <= c -> holds src s c -> forall o, o ∈ chunk_range s c -> file' !! Z.to_nat o = src !! Z.to_nat o) as Hholds.
  { intros c Hc Hh o Hoc. apply Hagree; [| left; by apply Hh]. unfold chunk_range in Hoc. apply elem_of_range_set in Hoc.
    pose proof (wk_chunk _ W). assert (0 <= c * fk_chunk s) by (apply Z.mul_nonneg_nonneg; lia). lia. }
  destruct b; cbn [negb] in E.
  - rewrite (Hfull eq_refl) in *. pose proof (wk_chunk _ W).
    destruct (count_bytes_spec (S (Z.to_nat len)) (set_file s file') off (off + len)) as (cs & Ec & Hc1 & Hc2 & Hc3);
      [cbn; lia | cbn; apply W | done | lia | lia |].
    rewrite Ec in E. cbn [res_bind] in E. apply Ok_inj, pair_equal_spec in E as [<- <-].
    split; cbn [set_counters set_file fk_total fk_file fk_counters fk_nchunks]; try done; [| by rewrite Hlen | |].
    + destruct W. split; try done.
    + intros o Hor. apply elem_of_union in Hor as [Hor%elem_of_range_set | Hor].
      * split; [lia |]. apply Hagree; [lia | right; lia].
      * destruct (Hw o Hor) as [? ?]. split; [done |]. apply Hagree; [lia | by left].
    + intros c Hc. destruct (Hch c Hc) as [[Ha Hh] | Hcount]; [left; split; [done | exact (Hholds c (proj1 Hc) Hh)] | right].
      rewrite Hc3 by done. cbn [set_file fk_counters fk_chunk]. rewrite Hcount, overlap_size by (done || lia).
      change (chunk_range (set_counters (set_file s file') cs) c) with (chunk_range s c).
      pose proof (size_split (range_set off (off + len)) written (chunk_range s c) Hdisj) as [Hsp Hle].
      rewrite Hsp, u64_small; [lia |].
      destruct (chunk_len_pos s c W Hc) as [Hcl _]. unfold chunk_len in Hcl. unfold is_u64. lia.
  - apply Ok_inj, pair_equal_spec in E as [<- <-].
    split; cbn [set_file fk_total fk_file fk_counters fk_nchunks]; try done; [| by rewrite Hlen | |].
    + destruct W. split; try done.
    + intros o Hor. destruct (Hw o Hor) as [? ?]. split; [done |]. apply Hagree; [lia | by left].
    + intros c Hc. destruct (Hch c Hc) as [[Ha Hh] | Hcount]; [left; split; [done | exact (Hholds c (proj1 Hc) Hh)] | by right].
Qed.

(** ** Checkpoints and sessions *)

Lemma lenZ_make_trailer s : 0 <= fk_nchunks s -> lenZ (make_trailer s) = bitmap_len (fk_nchunks s) + kFooterLen.
Proof.
  intros Hn. destruct (make_bitmap_spec s Hn) as (Hl & _). unfold make_trailer, footer_fields.
  rewrite !lenZ_app, Hl, !lenZ_be. unfold kFooterLen. change (lenZ kMagic) with 8. lia.
Qed.

Lemma nchunks_range s : wf_sink s -> 0 <= fk_nchunks s <= fk_total s.
Proof.
  intros W. destruct (nchunks_bounds _ _ (wk_total _ W) (wk_chunk _ W)) as [Hn _].
  by rewrite <- (wk_nchunks _ W) in Hn.
Qed.

Lemma set_file_inv src s adopted written file' :
  sink_inv src s adopted written -> lenZ (fk_file s) <= lenZ file' <= fk_total s + bitmap_len (fk_nchunks s) + kFooterLen ->
  (forall o, 0 <= o < fk_total s -> file' !! Z.to_nat o = fk_file s !! Z.to_nat o) ->
  sink_inv src (set_file s file') adopted written.
Proof.
  intros [W Hsrc Hf Hu Hw Hch] Hl Hsame.
  split; cbn [set_file fk_total fk_file fk_counters fk_nchunks]; try done; [by destruct W | lia | |].
  - intros o Ho. destruct (Hw o Ho). by rewrite Hsame.
  - intros c Hc. destruct (Hch c Hc) as [[Ha Hh] | ?]; [left; split; [done |] | by right]. intros o Ho. cbn [set_file fk_file].
    rewrite Hsame; [by apply Hh |]. unfold chunk_range in Ho. apply elem_of_range_set in Ho. cbn [set_file fk_chunk fk_total] in Ho.
    pose proof (wk_chunk _ W). assert (0 <= c * fk_chunk s) by (apply Z.mul_nonneg_nonneg; lia). lia.
Qed.

Lemma trailer_fits s : wf_sink s -> fk_total s + lenZ (make_trailer s) < 2 ^ 64.
Proof.
  intros W. pose proof (nchunks_range s W) as Hn. rewrite lenZ_make_trailer by lia.
  pose proof (wk_total _ W). unfold kOffMax, kFooterLen, bitmap_len in *. mlia.
Qed.

Lemma checkpoint_inv src s adopted written sync_ok calls s' :
  sink_inv src s adopted written -> checkpoint s sync_ok calls = Ok s' -> sink_inv src s' adopted written.
Proof.
  intros I E. unfold checkpoint in E. split_if_in E; [by apply Ok_inj in E as <- |].
  split_if_in E; [by apply Ok_inj in E as <- |]. pose proof (sv_wf _ _ _ _ I) as W. pose proof (sv_file _ _ _ _ I) as Hf.
  pose proof (nchunks_range s W) as Hn. pose proof (lenZ_make_trailer s ltac:(lia)) as Hlt. pose proof (wk_total _ W).
  destruct (pwrite_all calls (fk_file s) (make_trailer s) (fk_total s)) as [| | [file b]] eqn:Ep; try done.
  apply pwrite_all_spec in Ep as (k & Hk & -> & _); [| lia | by apply trailer_fits].
  apply Ok_inj in E as <-.
  apply set_file_inv; [done | |].
  - rewrite lenZ_fwrite by lia. rewrite lenZ_take by lia. lia.
  - intros o Ho. apply fwrite_lookup_out; lia.
Qed.

Lemma getZ_out l i : lenZ l <= i -> getZ l i = 0.
Proof. intros H. unfold getZ. apply nth_overflow. unfold lenZ in H. lia. Qed.

Lemma adopt_spec p chunk total n b0 :
  is_u64 chunk -> 0 <= n ->
  let st := for_up (Z.to_nat n) 0 (adopt_chunk p chunk total) (replicate (Z.to_nat n) 0, b0) in
  lenZ (fst st) = n /\ Forall is_u64 (fst st) /\
  forall i, 0 <= i < n -> getZ (fst st) i = if test_bit (pr_bitmap p) i then chunk_len i chunk total else 0.
Proof.
  intros Hc Hn st. assert (forall i, is_u64 (chunk_len i chunk total)) as Hcl.
  { intros i. unfold chunk_len. pose proof (u64_range (total - i * chunk)). unfold is_u64 in *. lia. }
  pose proof (for_up_ind (fun k st => lenZ (fst st) = n /\ Forall is_u64 (fst st) /\
    forall i, 0 <= i < n ->
      getZ (fst st) i = if ((i <? k) && test_bit (pr_bitmap p) i)%bool then chunk_len i chunk total else 0)
    (Z.to_nat n) 0 (adopt_chunk p chunk total) (replicate (Z.to_nat n) 0, b0)) as Hind. cbv beta in Hind. fold st in Hind.
  destruct Hind as (H1 & H2 & H3).
  - cbn [fst]. split_and!; [unfold lenZ; rewrite length_replicate; lia | apply Forall_replicate; unfold is_u64; lia |].
    intros i Hi. rewrite getZ_zeros. by destruct (Z.ltb_spec i 0); [lia |].
  - intros k [cs b] Hk (Hl & Hu & Hg). cbn [fst] in *. unfold adopt_chunk.
    assert (forall i, (i <? k + 1) = (k =? i) || (i <? k)) as Hlt by
      (intros i; destruct (Z.ltb_spec i (k + 1)), (Z.eqb_spec k i), (Z.ltb_spec i k); cbn; lia).
    destruct (test_bit (pr_bitmap p) k) eqn:Ht; cbn [fst snd].
    + split_and!; [by rewrite lenZ_setZ | by apply Forall_insert |]. intros i Hi.
      rewrite getZ_setZ, Hg, Hlt by lia. destruct (Z.eqb_spec k i) as [-> |]; cbn; [by rewrite Ht | done].
    + split_and!; [done .. |]. intros i Hi. rewrite Hg, Hlt by done.
      destruct (Z.eqb_spec k i) as [-> |]; cbn; [by rewrite Ht, andb_false_r | done].
  - split_and!; [done .. |]. intros i Hi. rewrite H3 by done. by destruct (Z.ltb_spec i (0 + Z.of_nat (Z.to_nat n))); [| lia].
Qed.

Lemma lenZ_ftruncate file n : 0 <= n -> lenZ (ftruncate file n) = n.
Proof. intros Hn. unfold ftruncate, pad, lenZ. rewrite length_take, length_app, length_replicate. lia. Qed.

(** The chunk arithmetic of [prepare] does not wrap. *)
Lemma prepare_nchunks total chunk :
  0 <= total <= kOffMax -> 0 < chunk <= 2 ^ 40 ->
  u64 (u64 (total + chunk) - 1) / chunk = (total + chunk - 1) / chunk.
Proof. intros Ht Hc. unfold kOffMax in *. rewrite (u64_small (total + chunk)), u64_small by (unfold is_u64; lia). done. Qed.

(** A transfer that starts over. *)
Lemma prepare_fresh src s file_id :
  lenZ src <= kOffMax -> is_u64 file_id -> fk_prior s = None -> fk_resumed s = false ->
  exists s', prepare s (lenZ src) file_id true true true = Ok (s', true) /\ sink_inv src s' (fun _ => False) ∅ /\
    fk_file_id s' = file_id /\ fk_resumed s' = false.
Proof.
  intros Hs Hid Hp Hr. pose proof (lenZ_nonneg src). unfold prepare. destruct (Z.ltb_spec kOffMax (lenZ src)); [lia |].
  destruct (chunk_for_ok (lenZ src)) as (chunk & E & Hc); [lia |]. rewrite E, Hp. cbn [res_bind negb].
  rewrite prepare_nchunks by lia. destruct (nchunks_bounds (lenZ src) chunk ltac:(lia) Hc) as [Hn _].
  eexists. split; [done |]. split; [| by rewrite Hr].
  split; cbn [fk_total fk_file fk_counters fk_nchunks]; try done.
  - split; cbn [fk_prepared fk_total fk_chunk fk_nchunks fk_counters fk_file_id]; try done.
    unfold lenZ at 1. rewrite length_replicate. lia.
  - rewrite lenZ_ftruncate by lia. unfold bitmap_len, kFooterLen. mlia.
  - apply Forall_replicate. unfold is_u64. lia.
  - intros c Hc'. right. rewrite getZ_zeros. by rewrite intersection_empty_l_L, size_empty.
Qed.

(** A session that finds the checkpoint of an earlier one. *)
Lemma prepare_resumed src s adopted written s1 :
  sink_inv src s adopted written -> fk_file_id s <> 0 ->
  fk_prior s1 = Some (mkPrior (fk_file_id s) (fk_total s) (fk_chunk s) (fk_nchunks s) (make_bitmap s)) ->
  fk_total s <= lenZ (fk_file s1) <= fk_total s + bitmap_len (fk_nchunks s) + kFooterLen ->
  (forall o, 0 <= o < fk_total s -> fk_file s1 !! Z.to_nat o = fk_file s !! Z.to_nat o) ->
  exists s2, prepare s1 (fk_total s) (fk_file_id s) true true true = Ok (s2, true) /\ sink_inv src s2 (fun c => chunk_complete s c = true) ∅ /\
    fk_resumed s2 = true /\ fk_total s2 = fk_total s /\ fk_chunk s2 = fk_chunk s /\ fk_nchunks s2 = fk_nchunks s /\
    fk_file s2 = fk_file s1 /\ forall c, 0 <= c < fk_nchunks s -> chunk_complete s2 c = chunk_complete s c.
Proof.
  intros I Hid Hp Hl Hsame. pose proof (sv_wf _ _ _ _ I) as W. pose proof (wk_total _ W). pose proof (wk_chunk _ W).
  pose proof (nchunks_range s W). unfold prepare. destruct (Z.ltb_spec kOffMax (fk_total s)); [lia |].
  rewrite (wk_chunk_for _ W), Hp. cbn [res_bind negb]. rewrite prepare_nchunks, <- (wk_nchunks _ W) by lia.
  unfold same_file. cbn [pr_file_id pr_total pr_chunk pr_nchunks]. rewrite !Z.eqb_refl, (proj2 (Z.eqb_neq _ _) Hid).
  cbn [negb andb]. set (p := mkPrior _ _ _ _ _).
  destruct (adopt_spec p (fk_chunk s) (fk_total s) (fk_nchunks s) (fk_resumed_bytes s1)) as (Ha1 & Ha2 & Ha3);
    [unfold is_u64; lia | lia |].
  destruct (for_up _ _ _ _) as [cs b]. cbn [fst] in *. eexists. split; [done |].
  destruct (make_bitmap_spec s ltac:(lia)) as (_ & _ & Hbits).
  assert (forall c, 0 <= c < fk_nchunks s -> getZ cs c =
            if chunk_complete s c then chunk_len c (fk_chunk s) (fk_total s) else 0) as Hcs.
  { intros c Hc. rewrite Ha3 by done. cbn [p pr_bitmap]. by rewrite Hbits. }
  split; [| split_and!; try done].
  - split; cbn [fk_total fk_file fk_counters fk_nchunks]; try done.
    + destruct W. by split.
    + apply (sv_src _ _ _ _ I).
    + intros c Hc. rewrite Hcs by done. destruct (chunk_complete s c) eqn:Hcc.
      * left. split; [done |]. intros o Ho. change (chunk_range _ c) with (chunk_range s c) in Ho. cbn [fk_file].
        pose proof (elem_of_range_set (c * fk_chunk s) (Z.min (fk_total s) ((c + 1) * fk_chunk s)) o) as Hel.
        unfold chunk_range in Ho. apply Hel in Ho as Ho2. assert (0 <= c * fk_chunk s) by (apply Z.mul_nonneg_nonneg; lia).
        rewrite Hsame by lia. by apply (complete_holds src s adopted written c).
      * right. by rewrite intersection_empty_l_L, size_empty.
  - intros c Hc. unfold chunk_complete at 1. cbn [fk_chunk fk_total fk_counters]. rewrite Hcs by done.
    destruct (chunk_len_pos s c W Hc) as [_ Hpos]. destruct (chunk_complete s c); [apply Z.leb_refl |].
    apply Z.leb_gt. unfold chunk_len. rewrite u64_small; [lia |]. unfold kOffMax, is_u64 in *.
    assert (0 <= c * fk_chunk s) by (apply Z.mul_nonneg_nonneg; lia). lia.
Qed.

(** ** Properties *)

(** A session: writes of the source's bytes that never overlap what is already
    written, with whatever the system calls report, and checkpoints in between. *)
Inductive sink_step (src : bytes) : FileSink * gset Z -> FileSink * gset Z -> Prop :=
| step_sink_write s written off iov calls s' ok :
    0 <= off -> off + lenZ (mjoin iov) <= fk_total s -> mjoin iov = slice src off (lenZ (mjoin iov)) ->
    range_set off (off + lenZ (mjoin iov)) ## written -> write s off iov calls = Ok (s', ok) ->
    sink_step src (s, written) (s', if ok then range_set off (off + lenZ (mjoin iov)) ∪ written else written)
| step_sink_checkpoint s written sync_ok calls s' :
    checkpoint s sync_ok calls = Ok s' -> sink_step src (s, written) (s', written).

Lemma session_inv src s0 adopted w0 s written :
  rtc (sink_step src) (s0, w0) (s, written) -> sink_inv src s0 adopted w0 -> sink_inv src s adopted written.
Proof.
  intros Hr. remember (s0, w0) as x eqn:Hx. remember (s, written) as y eqn:Hy. revert s0 w0 Hx Hy.
  induction Hr as [x | x z y Hstep _ IH]; intros s0 w0 Hx Hy I; subst.
  - by simplify_eq.
  - inversion Hstep; subst; eapply IH; try done; [by eapply sink_write_inv | by eapply checkpoint_inv].
Qed.


(** A three-byte source written by one short and one full write. *)
Definition sink_example : FileSink :=
  mkFileSink [7; 8; 9] false None true false 0 5 3 65536 1 [3].

Lemma sink_example_session :
  exists s0, prepare (open_sink false []) 3 5 true true true = Ok (s0, true) /\
    rtc (sink_step [7; 8; 9]) (s0, ∅) (sink_example, range_set 0 3 ∪ ∅).
Proof.
  eexists. split; [reflexivity |]. apply rtc_once.
  apply (step_sink_write [7; 8; 9] _ ∅ 0 [[7; 8]; [9]] [IoBytes 2; IoIntr; IoBytes 9] sink_example true);
    [lia | vm_compute; discriminate | reflexivity | set_solver | reflexivity].
Qed.


(** C32: Resuming is safe and exact: when a checkpoint has been written, a later
    session that opens the partial file and prepares the same transfer resumes it,
    asks in any lane for exactly the bytes of the chunks that were not complete, and
    everything it does not ask for is already the source's. *)
Theorem resume_asks_exactly_missing src s adopted written calls file :
  sink_inv src s adopted written -> fk_file_id s <> 0 ->
  pwrite_all calls (fk_file s) (make_trailer s) (fk_total s) = Ok (file, true) ->
  exists s2, prepare (open_sink true file) (fk_total s) (fk_file_id s) true true true = Ok (s2, true) /\
    fk_resumed s2 = true /\ sink_inv src s2 (fun c => chunk_complete s c = true) ∅ /\
    forall from to, 0 <= from <= to -> to <= fk_total s ->
      ordered from (missing s2 from to []) to /\
      forall o, from <= o < to ->
        (covers (missing s2 from to []) o <-> chunk_complete s (o / fk_chunk s) = false) /\
        (~ covers (missing s2 from to []) o -> file !! Z.to_nat o = src !! Z.to_nat o).
Proof.
  intros I Hid Ep. pose proof (sv_wf _ _ _ _ I) as W. pose proof (sv_file _ _ _ _ I) as Hf. pose proof (wk_total _ W).
  pose proof (nchunks_range s W). pose proof (lenZ_make_trailer s ltac:(lia)) as Hlt.
  apply pwrite_all_spec in Ep as (k & Hk & -> & Hfull); [| lia | by apply trailer_fits].
  rewrite (Hfull eq_refl) in *. clear k Hk Hfull. rewrite take_ge by (unfold lenZ; lia).
  set (file := fwrite (fk_file s) (fk_total s) (make_trailer s)).
  assert (file = take (Z.to_nat (fk_total s)) (fk_file s) ++ make_trailer s) as Hfile.
  { unfold file. rewrite fwrite_inside by lia. rewrite (drop_ge (fk_file s)), app_nil_r; [done |]. unfold lenZ in *. lia. }
  assert (lenZ (take (Z.to_nat (fk_total s)) (fk_file s)) = fk_total s) as Htake by (apply lenZ_take; lia).
  destruct (prepare_resumed src s adopted written (open_sink true file) I Hid) as
    (s2 & E & I2 & Hr & Et & Ec & En & Ef & Hcc).
  { cbn [open_sink fk_prior]. rewrite Hfile. by apply trailer_loads. }
  { cbn [open_sink fk_file]. rewrite Hfile, lenZ_app. lia. }
  { intros o Ho. cbn [open_sink fk_file]. apply fwrite_lookup_out; lia. }
  exists s2. split_and!; [done .. |]. intros from to Hft Hto.
  destruct (missing_spec s2 from to (sv_wf _ _ _ _ I2) Hr Hft ltac:(lia)) as [Hord Hcov].
  split; [done |]. intros o Hor. rewrite Hcov by done. rewrite Ec.
  pose proof (wk_chunk _ W) as Hch. destruct (nchunks_bounds _ _ (wk_total _ W) Hch) as [_ Hn2]. rewrite <- (wk_nchunks _ W) in Hn2.
  pose proof (Z.div_mod o (fk_chunk s) ltac:(lia)) as Hd. pose proof (Z.mod_pos_bound o (fk_chunk s) ltac:(lia)).
  assert (0 <= o / fk_chunk s < fk_nchunks s) as Hcr.
  { split; [apply Z.div_pos; lia |]. apply Z.div_lt_upper_bound; lia. }
  rewrite Hcc by done. split; [done |]. intros Hcomp%not_false_iff_true.
  pose proof (complete_holds src s2 _ _ (o / fk_chunk s) I2 ltac:(lia)) as Hh. rewrite Hcc in Hh by done.
  specialize (Hh Hcomp o). rewrite Ef in Hh. apply Hh.
  unfold chunk_range. rewrite Et, Ec. apply elem_of_range_set. lia.
Qed.

Lemma resume_asks_exactly_missing_witness :
  exists file, pwrite_all [IoBytes 30; IoBytes 100] (fk_file sink_example) (make_trailer sink_example) 3 = Ok (file, true) /\
  exists s2, prepare (open_sink true file) 3 5 true true true = Ok (s2, true) /\
    fk_resumed s2 = true /\ sink_inv [7; 8; 9] s2 (fun c => chunk_complete sink_example c = true) ∅ /\
    forall from to, 0 <= from <= to -> to <= 3 ->
      ordered from (missing s2 from to []) to /\
      forall o, from <= o < to ->
        (covers (missing s2 from to []) o <-> chunk_complete sink_example (o / 65536) = false) /\
        (~ covers (missing s2 from to []) o -> file !! Z.to_nat o = [7; 8; 9] !! Z.to_nat o).
Proof.
  destruct sink_example_session as (s0 & E0 & Hr).
  destruct (prepare_fresh [7; 8; 9] (open_sink false []) 5) as (s0' & E1 & I0 & _);
    [vm_compute; discriminate | unfold is_u64; lia | done | done |].
  change (lenZ [7; 8; 9]) with 3 in E1. rewrite E0 in E1. injection E1 as <-.
  eexists. split; [reflexivity |].
  apply (resume_asks_exactly_missing [7; 8; 9] sink_example (fun _ => False) (range_set 0 3 ∪ ∅) [IoBytes 30; IoBytes 100]);
    [by eapply session_inv | done | reflexivity].
Defined.
