(* ===== verification/SessionCrypto.v ===== *)
(** * Session cryptography

    Models [src/src/proto/session_crypto.cpp] over an abstract backend: AES-GCM and
    HKDF belong to the wolfSSL library, so they are the operations of a class whose
    laws are their documented behaviour (decryption inverts encryption and accepts
    nothing else; the tag is 16 bytes).  The nonce and associated-data layouts, the
    control-plane trailer, the key schedule and its two-entry cache are the code's. *)

From Stdlib Require Import String.
From S2P Require Import Prelude Wire.

Open Scope Z_scope.

(** ** The backend *)

Class CryptoBackend := {
  (** [wc_AesGcmSetKey] succeeds. *)
  gcm_set_key : bytes -> bool;
  (** [wc_AesGcmEncrypt key nonce aad plaintext]: ciphertext and tag. *)
  gcm_encrypt : bytes -> bytes -> bytes -> bytes -> option (bytes * bytes);
  (** [wc_AesGcmDecrypt key nonce aad ciphertext tag]: the plaintext. *)
  gcm_decrypt : bytes -> bytes -> bytes -> bytes -> bytes -> option bytes;
  (** [wc_Tls13_HKDF_Extract salt ikm]. *)
  hkdf_extract : bytes -> bytes -> option bytes;
  (** [wc_Tls13_HKDF_Expand_Label secret protocol label context]. *)
  hkdf_expand_label : bytes -> string -> string -> bytes -> option bytes;
}.

Class CryptoLaws (B : CryptoBackend) : Prop := {
  gcm_roundtrip key nonce aad pt ct tag :
    gcm_encrypt key nonce aad pt = Some (ct, tag) -> gcm_decrypt key nonce aad ct tag = Some pt;
  gcm_authentic key nonce aad pt ct tag :
    gcm_decrypt key nonce aad ct tag = Some pt -> gcm_encrypt key nonce aad pt = Some (ct, tag);
  gcm_lengths key nonce aad pt ct tag :
    gcm_encrypt key nonce aad pt = Some (ct, tag) -> lenZ ct = lenZ pt /\ lenZ tag = 16;
}.

Definition kSessionKeyLen : Z := 32.
Definition kAeadNonceLen : Z := 12.
Definition kAeadTagLen : Z := 16.
Definition kControlTrailerLen : Z := 8 + kAeadTagLen.
Definition kKeyEpochShift : Z := 22.

(** ** Nonces and associated data *)

Definition build_nonce (lane seq : Z) : bytes :=
  [u8 (Z.shiftr lane 8); u8 lane] ++ ((fun i => u8 (Z.shiftr seq (56 - 8 * i))) <$> seqZ 0 8) ++ [0; 0].

Definition control_nonce (lane ctr dir : Z) : bytes := be 2 lane ++ be 8 ctr ++ [u8 dir; 1].

(** [build_aad] of transfer.cpp. *)
Definition build_aad (lane seq offset flags : Z) : bytes :=
  be 2 lane ++ be 8 seq ++ be 8 offset ++ [u8 (Z.land flags (Z.lnot kFlagRetransmission))].

Section Crypto.
Context `{B : CryptoBackend}.

(** ** One lane's cipher *)

(** [lc_key] is the key of an initialised cipher. *)
Record LaneCipher := mkLaneCipher { lc_key : option bytes }.

Definition new_cipher : LaneCipher := mkLaneCipher None.

Definition cipher_init (c : LaneCipher) (key : bytes) : LaneCipher * bool :=
  match lc_key c with
  | Some _ => (c, false)
  | None => if gcm_set_key key then (mkLaneCipher (Some key), true) else (c, false)
  end.

(** The sealed block: ciphertext and tag back to back. *)
Definition cipher_seal (c : LaneCipher) (lane seq : Z) (aad pt : bytes) : option bytes :=
  match lc_key c with
  | None => None
  | Some key =>
      match gcm_encrypt key (build_nonce lane seq) aad pt with
      | Some (ct, tag) => Some (ct ++ tag)
      | None => None
      end
  end.

Definition cipher_open (c : LaneCipher) (lane seq : Z) (aad inp : bytes) : option bytes :=
  match lc_key c with
  | None => None
  | Some key =>
      if lenZ inp <? kAeadTagLen then None
      else
        let ct_len := u16 (lenZ inp - kAeadTagLen) in
        gcm_decrypt key (build_nonce lane seq) aad (slice inp 0 ct_len) (slice inp ct_len kAeadTagLen)
  end.

Definition derive_session_key (psk salt : bytes) : option bytes :=
  if (lenZ psk =? 0) || (lenZ salt =? 0) || (2 ^ 32 - 1 <? lenZ psk) || (2 ^ 32 - 1 <? lenZ salt) then None
  else
    match hkdf_extract salt psk with
    | None => None
    | Some prk => hkdf_expand_label prk "fuse2 " "session key" []
    end.

Definition derive_lane_epoch_key (session_key : bytes) (lane epoch : Z) : option bytes :=
  hkdf_expand_label session_key "fuse2 " "lane key" (be 2 lane ++ be 8 epoch).

(** ** Control-plane authentication *)

Record ControlAuth := mkControlAuth {
  ca_cipher : LaneCipher;
  ca_lane : Z;
  ca_dir : Z;
  ca_next_ctr : Z;
}.

Definition new_control_auth : ControlAuth := mkControlAuth new_cipher 0 0 1.

Definition control_init (a : ControlAuth) (session_key : bytes) (lane local_dir : Z) : ControlAuth * bool :=
  match lc_key (ca_cipher a) with
  | Some _ => (a, false)
  | None =>
      if 1 <? local_dir then (a, false)
      else
        match hkdf_expand_label session_key "fuse2 " "control key" [] with
        | None => (a, false)
        | Some k =>
            let '(c, ok) := cipher_init new_cipher k in
            if ok then (mkControlAuth c lane local_dir (ca_next_ctr a), true) else (a, false)
        end
  end.

Definition bump (a : ControlAuth) : ControlAuth :=
  mkControlAuth (ca_cipher a) (ca_lane a) (ca_dir a) (u64 (ca_next_ctr a + 1)).

(** Appends the trailer behind the first [len] bytes of [dg]: the buffer and the
    new length, 0 on failure. *)
Definition control_seal (a : ControlAuth) (dg : bytes) (len : Z) : ControlAuth * bytes * Z :=
  match lc_key (ca_cipher a) with
  | None => (a, dg, 0)
  | Some key =>
      if (lenZ dg <? len) || (lenZ dg - len <? kControlTrailerLen) || (2 ^ 32 - 1 <? len) then (a, dg, 0)
      else
        let ctr := ca_next_ctr a in
        let dg := splice dg len (be 8 ctr) in
        match gcm_encrypt key (control_nonce (ca_lane a) ctr (ca_dir a)) (take (Z.to_nat (len + 8)) dg) [] with
        | None => (bump a, dg, 0)
        | Some (_, tag) => (bump a, splice dg (len + 8) tag, len + kControlTrailerLen)
        end
  end.

(** The length without the trailer, if the trailer is authentic. *)
Definition control_open (a : ControlAuth) (dg : bytes) : res (option Z) :=
  match lc_key (ca_cipher a) with
  | None => Ok None
  | Some key =>
      if (lenZ dg <? kControlTrailerLen) || (2 ^ 32 - 1 <? lenZ dg) then Ok None
      else
        let body := lenZ dg - kControlTrailerLen in
        res_bind (get_u64 (drop (Z.to_nat body) dg)) (fun '(ctr, _) =>
        match gcm_decrypt key (control_nonce (ca_lane a) ctr (u8 (Z.lxor (ca_dir a) 1)))
                (take (Z.to_nat (body + 8)) dg) [] (slice dg (body + 8) kAeadTagLen) with
        | None => Ok None
        | Some _ => Ok (Some body)
        end)
  end.

(** ** The key schedule *)

Record KeySlot := mkKeySlot { ks_epoch : Z; ks_cipher : option LaneCipher }.

Record LaneKeySchedule := mkKeySchedule {
  kc_key : bytes;
  kc_lane : Z;
  kc_ready : bool;
  kc_slot0 : KeySlot;
  kc_slot1 : KeySlot;
  kc_next : Z;
}.

Definition empty_slot : KeySlot := mkKeySlot (2 ^ 64 - 1) None.
Definition new_key_schedule : LaneKeySchedule := mkKeySchedule [] 0 false empty_slot empty_slot 0.

(** [available] is [session_crypto_available()]. *)
Definition schedule_init (k : LaneKeySchedule) (available : bool) (session_key : bytes) (lane : Z) :
    LaneKeySchedule * bool :=
  if kc_ready k || negb available then (k, false)
  else (mkKeySchedule session_key lane true (kc_slot0 k) (kc_slot1 k) (kc_next k), true).

Definition slot_hit (s : KeySlot) (epoch : Z) : option LaneCipher :=
  match ks_cipher s with
  | Some c => if ks_epoch s =? epoch then Some c else None
  | None => None
  end.

Definition cipher_for (k : LaneKeySchedule) (seq : Z) : LaneKeySchedule * option LaneCipher :=
  if negb (kc_ready k) then (k, None)
  else
    let epoch := Z.shiftr seq kKeyEpochShift in
    match slot_hit (kc_slot0 k) epoch, slot_hit (kc_slot1 k) epoch with
    | Some c, _ => (k, Some c)
    | None, Some c => (k, Some c)
    | None, None =>
        match derive_lane_epoch_key (kc_key k) (kc_lane k) epoch with
        | None => (k, None)
        | Some key =>
            let '(c, ok) := cipher_init new_cipher key in
            if negb ok then (k, None)
            else
              let slot := mkKeySlot epoch (Some c) in
              let next := (kc_next k + 1) mod 2 in
              (if kc_next k =? 0
               then mkKeySchedule (kc_key k) (kc_lane k) (kc_ready k) slot (kc_slot1 k) next
               else mkKeySchedule (kc_key k) (kc_lane k) (kc_ready k) (kc_slot0 k) slot next, Some c)
        end
    end.

End Crypto.

(** ** Nonces *)

Lemma build_nonce_be lane seq : build_nonce lane seq = be 2 lane ++ be 8 seq ++ [0; 0].
Proof. unfold build_nonce. rewrite !be_S, !Z.shiftr_0_r. done. Qed.

Lemma app_inj_len {A} (a b c d : list A) : a ++ b = c ++ d -> length a = length c -> a = c /\ b = d.
Proof. intros E Hl. by apply app_inj_1 in E. Qed.

Lemma build_nonce_inj lane seq lane' seq' :
  is_u16 lane -> is_u64 seq -> is_u16 lane' -> is_u64 seq' ->
  build_nonce lane seq = build_nonce lane' seq' -> lane = lane' /\ seq = seq'.
Proof.
  intros H1 H2 H3 H4 E. rewrite !build_nonce_be in E. apply app_inj_len in E as [E1 E]; [| by rewrite !be_length].
  apply app_inj_len in E as [E2 _]; [| by rewrite !be_length]. split; [by apply (be_inj 2) | by apply (be_inj 8)].
Qed.

Lemma control_nonce_inj lane ctr dir lane' ctr' dir' :
  is_u16 lane -> is_u64 ctr -> is_u8 dir -> is_u16 lane' -> is_u64 ctr' -> is_u8 dir' ->
  control_nonce lane ctr dir = control_nonce lane' ctr' dir' -> lane = lane' /\ ctr = ctr' /\ dir = dir'.
Proof.
  intros H1 H2 H3 H4 H5 H6 E. unfold control_nonce in E. apply app_inj_len in E as [E1 E]; [| by rewrite !be_length].
  apply app_inj_len in E as [E2 E]; [| by rewrite !be_length]. injection E as E3.
  rewrite !u8_small in E3 by done. split_and!; [by apply (be_inj 2) | by apply (be_inj 8) | done].
Qed.

Lemma nonce_spaces_disjoint lane seq lane' ctr dir : build_nonce lane seq <> control_nonce lane' ctr dir.
Proof.
  rewrite build_nonce_be. unfold control_nonce. intros E.
  apply app_inj_len in E as [_ E]; [| by rewrite !be_length]. by apply app_inj_len in E as [_ E]; [| by rewrite !be_length].
Qed.

(** The retransmission bit is not authenticated; everything else is. *)
Lemma build_aad_retransmission lane seq offset flags :
  build_aad lane seq offset (Z.lor flags kFlagRetransmission) = build_aad lane seq offset flags.
Proof.
  unfold build_aad. do 5 f_equal. apply Z.bits_inj'. intros i Hi.
  rewrite !Z.land_spec, Z.lor_spec, Z.lnot_spec by done. by destruct (Z.testbit flags i), (Z.testbit kFlagRetransmission i).
Qed.

(** ** The key schedule *)

Section Schedule.
Context `{B : CryptoBackend}.

(** The cipher of an epoch, without any cache. *)
Definition epoch_cipher (session_key : bytes) (lane epoch : Z) : option LaneCipher :=
  match derive_lane_epoch_key session_key lane epoch with
  | Some key => if gcm_set_key key then Some (mkLaneCipher (Some key)) else None
  | None => None
  end.

Record schedule_inv (k : LaneKeySchedule) (session_key : bytes) (lane : Z) : Prop := {
  kv_ready : kc_ready k = true;
  kv_key : kc_key k = session_key;
  kv_lane : kc_lane k = lane;
  kv_slot0 : forall c, ks_cipher (kc_slot0 k) = Some c -> epoch_cipher session_key lane (ks_epoch (kc_slot0 k)) = Some c;
  kv_slot1 : forall c, ks_cipher (kc_slot1 k) = Some c -> epoch_cipher session_key lane (ks_epoch (kc_slot1 k)) = Some c;
}.

Lemma slot_hit_inv s epoch c : slot_hit s epoch = Some c -> ks_cipher s = Some c /\ ks_epoch s = epoch.
Proof. unfold slot_hit. destruct (ks_cipher s); [| done]. destruct (Z.eqb_spec (ks_epoch s) epoch); naive_solver. Qed.

Lemma cipher_for_spec k session_key lane seq :
  schedule_inv k session_key lane ->
  exists k', cipher_for k seq = (k', epoch_cipher session_key lane (Z.shiftr seq kKeyEpochShift)) /\
    schedule_inv k' session_key lane.
Proof.
  intros I. destruct (I) as [Hr Hk Hl H0 H1]. unfold cipher_for. rewrite Hr. cbn [negb].
  set (epoch := Z.shiftr seq kKeyEpochShift).
  destruct (slot_hit (kc_slot0 k) epoch) as [c |] eqn:E0.
  { apply slot_hit_inv in E0 as [Hc <-]. exists k. by rewrite (H0 _ Hc). }
  destruct (slot_hit (kc_slot1 k) epoch) as [c |] eqn:E1.
  { apply slot_hit_inv in E1 as [Hc <-]. exists k. by rewrite (H1 _ Hc). }
  rewrite Hk, Hl. unfold epoch_cipher in *. destruct (derive_lane_epoch_key session_key lane epoch) as [key |] eqn:Ed; [| by exists k].
  unfold cipher_init, new_cipher. cbn [lc_key]. destruct (gcm_set_key key) eqn:Es; cbn [negb]; [| by exists k].
  eexists. split; [done |]. destruct (kc_next k =? 0); split; cbn [kc_ready kc_key kc_lane kc_slot0 kc_slot1 ks_cipher ks_epoch]; try done; try exact H0; try exact H1;
    intros c [= <-]; unfold epoch_cipher; by rewrite Ed, Es.
Qed.

(** Any sequence of earlier lookups. *)
Definition looked_up (k : LaneKeySchedule) (seqs : list Z) : LaneKeySchedule :=
  foldl (fun k seq => fst (cipher_for k seq)) k seqs.

Lemma looked_up_inv k session_key lane seqs :
  schedule_inv k session_key lane -> schedule_inv (looked_up k seqs) session_key lane.
Proof.
  revert k. induction seqs as [| seq seqs IH]; intros k I; [done |]. cbn. apply IH.
  destruct (cipher_for_spec k session_key lane seq I) as (k' & -> & I'). done.
Qed.

Lemma schedule_init_inv session_key lane :
  exists k, schedule_init new_key_schedule true session_key lane = (k, true) /\ schedule_inv k session_key lane.
Proof. eexists. split; [done |]. by split. Qed.

Lemma cipher_seal_open `{!CryptoLaws B} c lane seq aad pt sealed :
  lenZ pt + 16 < 2 ^ 16 -> cipher_seal c lane seq aad pt = Some sealed ->
  cipher_open c lane seq aad sealed = Some pt /\ lenZ sealed = lenZ pt + 16.
Proof.
  intros Hl E. unfold cipher_seal, cipher_open in *. destruct (lc_key c) as [key |]; [| done].
  destruct (gcm_encrypt key (build_nonce lane seq) aad pt) as [[ct tag] |] eqn:Ee; [| done]. injection E as <-.
  destruct (gcm_lengths _ _ _ _ _ _ Ee) as [Hct Htag]. rewrite lenZ_app, Hct, Htag. split; [| done].
  pose proof (lenZ_nonneg pt). unfold kAeadTagLen. split_if; [lia |].
  replace (lenZ pt + 16 - 16) with (lenZ pt) by lia. rewrite u16_small by (unfold is_u16; lia).
  assert (slice (ct ++ tag) 0 (lenZ pt) = ct) as ->.
  { unfold slice. change (Z.to_nat 0) with 0%nat. rewrite drop_0, <- Hct. apply take_all_lenZ. }
  assert (slice (ct ++ tag) (lenZ pt) 16 = tag) as ->.
  { unfold slice. rewrite <- Hct, drop_pre_0. apply take_ge. unfold lenZ in Htag. lia. }
  by apply gcm_roundtrip.
Qed.

End Schedule.

(** ** The control plane *)

Section Control.
Context `{B : CryptoBackend} `{!CryptoLaws B}.

(** The authenticator of one end of a keyed lane. *)
Definition auth_ready (a : ControlAuth) (key : bytes) (lane dir : Z) : Prop :=
  lc_key (ca_cipher a) = Some key /\ ca_lane a = lane /\ ca_dir a = dir /\ is_u64 (ca_next_ctr a).

Lemma splice_end dg len bs :
  0 <= len -> len + lenZ bs <= lenZ dg -> take (Z.to_nat (len + lenZ bs)) (splice dg len bs) = take (Z.to_nat len) dg ++ bs.
Proof.
  intros Hl Hr. unfold splice. rewrite app_assoc, take_app_le.
  - apply take_ge. rewrite length_app, length_take. unfold lenZ in *. lia.
  - rewrite length_app, length_take. unfold lenZ in *. lia.
Qed.

(** What a successful seal sends. *)
Lemma control_seal_inv a key lane dir dg len a' dg' n :
  auth_ready a key lane dir -> 0 <= len -> control_seal a dg len = (a', dg', n) ->
  ca_next_ctr a' = ca_next_ctr a \/ ca_next_ctr a' = u64 (ca_next_ctr a + 1) /\
  (n <> 0 -> exists tag, n = len + 24 /\
     take (Z.to_nat n) dg' = (take (Z.to_nat len) dg ++ be 8 (ca_next_ctr a)) ++ tag /\ lenZ tag = 16 /\
     len <= lenZ dg /\ len < 2 ^ 32 /\
     gcm_encrypt key (control_nonce lane (ca_next_ctr a) dir) (take (Z.to_nat len) dg ++ be 8 (ca_next_ctr a)) [] = Some ([], tag)).
Proof.
  intros (Hk & Hl & Hd & Hc) Hlen E. unfold control_seal in E. rewrite Hk, Hl, Hd in E.
  unfold kControlTrailerLen, kAeadTagLen in E. split_if_in E; [by apply pair_equal_spec in E as [[<- _]%pair_equal_spec _]; left |].
  assert (take (Z.to_nat (len + 8)) (splice dg len (be 8 (ca_next_ctr a))) = take (Z.to_nat len) dg ++ be 8 (ca_next_ctr a)) as Ht.
  { apply (splice_end dg len (be 8 (ca_next_ctr a))); [done |]. rewrite lenZ_be. lia. }
  rewrite Ht in E. right. destruct (gcm_encrypt _ _ _ _) as [[ct tag] |] eqn:Ee.
  - apply pair_equal_spec in E as [[<- <-]%pair_equal_spec <-]. split; [done |]. intros _.
    destruct (gcm_lengths _ _ _ _ _ _ Ee) as [Hct Htag]. destruct ct; [| by rewrite lenZ_cons, lenZ_nil in Hct; pose proof (lenZ_nonneg ct); lia].
    exists tag. split_and!; try done; try lia.
    replace (len + (8 + 16)) with (len + 8 + lenZ tag) by lia. rewrite splice_end; [by rewrite Ht | lia |].
    rewrite splice_length by (rewrite ?lenZ_be; lia). lia.
  - apply pair_equal_spec in E as [[<- _]%pair_equal_spec <-]. split; [done |]. by intros [].
Qed.

Lemma control_open_sealed a key lane dir body ctr tag :
  auth_ready a key lane dir -> is_u64 ctr -> lenZ tag = 16 -> lenZ body + 24 < 2 ^ 32 ->
  control_open a ((body ++ be 8 ctr) ++ tag) =
    Ok (if bool_decide (is_Some (gcm_decrypt key (control_nonce lane ctr (u8 (Z.lxor dir 1))) (body ++ be 8 ctr) [] tag))
        then Some (lenZ body) else None).
Proof.
  intros (Hk & Hl & Hd & _) Hc Ht Hb. unfold control_open. rewrite Hk, Hl, Hd. rewrite !lenZ_app, lenZ_be, Ht.
  pose proof (lenZ_nonneg body). unfold kControlTrailerLen, kAeadTagLen. split_if; [destruct Hif; bool_hyps; lia |].
  replace (lenZ body + Z.of_nat 8 + 16 - (8 + 16)) with (lenZ body) by lia. rewrite <- app_assoc, drop_pre_0, get_u64_be by done.
  cbn [res_bind]. rewrite (app_assoc body).
  assert (lenZ (body ++ be 8 ctr) = lenZ body + 8) as Hl8 by (by rewrite lenZ_app, lenZ_be).
  rewrite <- Hl8, take_all_lenZ. unfold slice. rewrite drop_pre_0, (take_ge tag) by (unfold lenZ in Ht; lia).
  by destruct (gcm_decrypt _ _ _ _ _).
Qed.

(** The nonces a sequence of seals uses. *)
Fixpoint seal_nonces (a : ControlAuth) (msgs : list (bytes * Z)) : list bytes :=
  match msgs with
  | [] => []
  | (dg, len) :: msgs =>
      let '(a', _, _) := control_seal a dg len in
      if ca_next_ctr a' =? ca_next_ctr a then seal_nonces a' msgs
      else control_nonce (ca_lane a) (ca_next_ctr a) (ca_dir a) :: seal_nonces a' msgs
  end.

Lemma control_seal_ready a key lane dir dg len a' dg' n :
  auth_ready a key lane dir -> control_seal a dg len = (a', dg', n) ->
  auth_ready a' key lane dir /\ (ca_next_ctr a' = ca_next_ctr a \/ ca_next_ctr a' = u64 (ca_next_ctr a + 1)).
Proof.
  intros A E. destruct (A) as (Hk & Hl & Hd & Hc). unfold control_seal in E. rewrite Hk in E.
  split_if_in E; [by apply pair_equal_spec in E as [[<- _]%pair_equal_spec _]; split; [| left] |].
  assert (auth_ready (bump a) key lane dir) by (split_and!; try done; apply u64_range).
  destruct (gcm_encrypt _ _ _ _) as [[ct tag] |]; apply pair_equal_spec in E as [[<- _]%pair_equal_spec _]; (split; [done | by right]).
Qed.

Lemma control_seal_sent a key lane dir dg len a' dg' n :
  auth_ready a key lane dir -> 0 <= len -> control_seal a dg len = (a', dg', n) -> n <> 0 ->
  exists tag, n = len + 24 /\
    take (Z.to_nat n) dg' = (take (Z.to_nat len) dg ++ be 8 (ca_next_ctr a)) ++ tag /\ lenZ tag = 16 /\ len <= lenZ dg /\
    gcm_encrypt key (control_nonce lane (ca_next_ctr a) dir) (take (Z.to_nat len) dg ++ be 8 (ca_next_ctr a)) [] = Some ([], tag).
Proof.
  intros A Hlen E Hn. destruct (control_seal_inv _ _ _ _ _ _ _ _ _ A Hlen E) as [Hsame | [_ H]]; [| destruct (H Hn) as (tag & ?); naive_solver].
  exfalso. destruct (A) as (Hk & _ & _ & Hc). unfold control_seal in E. rewrite Hk in E.
  split_if_in E; [by apply pair_equal_spec in E as [_ <-] |].
  assert (ca_next_ctr a' = u64 (ca_next_ctr a + 1)) as Hb by
    (by destruct (gcm_encrypt _ _ _ _) as [[? ?] |]; apply pair_equal_spec in E as [[<- _]%pair_equal_spec _]).
  rewrite Hsame in Hb. unfold is_u64 in Hc. unfold u64 in Hb. mlia.
Qed.

(** What an end accepts was tagged under the key for the peer's direction. *)
Lemma control_open_inv `{!CryptoLaws B} b key lane dir dg len :
  auth_ready b key lane dir -> Forall is_u8 dg -> lenZ dg < 2 ^ 32 -> control_open b dg = Ok (Some len) ->
  exists body ctr tag, dg = (body ++ be 8 ctr) ++ tag /\ lenZ body = len /\
    gcm_encrypt key (control_nonce lane ctr (u8 (Z.lxor dir 1))) (body ++ be 8 ctr) [] = Some ([], tag).
Proof.
  intros Bb Hb Hmax E. destruct (Bb) as (Hk & _). pose proof E as E0. unfold control_open in E. rewrite Hk in E.
  unfold kControlTrailerLen, kAeadTagLen in E. split_if_in E; [done |]. bool_hyps. clear E.
  set (body := take (Z.to_nat (lenZ dg - 24)) dg). set (mid := take 8 (drop (Z.to_nat (lenZ dg - 24)) dg)).
  set (tag := drop 8 (drop (Z.to_nat (lenZ dg - 24)) dg)).
  assert (dg = (body ++ mid) ++ tag) as Hdg by (unfold body, mid, tag; by rewrite <- app_assoc, !take_drop).
  assert (lenZ body = lenZ dg - 24) as Hlbody by (apply lenZ_take; lia).
  assert (length mid = 8%nat) as Hmid by (unfold mid; rewrite length_take, length_drop; unfold lenZ in *; lia).
  assert (lenZ tag = 16) as Htag by (unfold tag, lenZ in *; rewrite !length_drop; lia).
  assert (Forall is_u8 mid) as Hm by (by apply Forall_take, Forall_drop).
  assert (is_u64 (unbe mid)) as Hu by (pose proof (unbe_range mid Hm) as Hr; unfold lenZ in Hr; by rewrite Hmid in Hr).
  rewrite <- (be_unbe mid 8) in Hdg by done. rewrite Hdg in E0.
  rewrite (control_open_sealed b key lane dir) in E0 by (done || lia).
  case_bool_decide as Ed; [| done]. destruct Ed as [pt Ed]. apply gcm_authentic in Ed.
  destruct (gcm_lengths _ _ _ _ _ _ Ed) as [Hpt _]. destruct pt; [| rewrite lenZ_cons, lenZ_nil in Hpt; pose proof (lenZ_nonneg pt); lia].
  injection E0 as <-. by exists body, (unbe mid), tag.
Qed.

(** Every nonce of a run has a counter from the run's own interval. *)
Lemma seal_nonces_spec a key lane dir msgs :
  auth_ready a key lane dir -> ca_next_ctr a + lenZ msgs < 2 ^ 64 ->
  exists ctrs, seal_nonces a msgs = (fun c => control_nonce lane c dir) <$> ctrs /\ StronglySorted Z.lt ctrs /\
    forall c, c ∈ ctrs -> ca_next_ctr a <= c < 2 ^ 64.
Proof.
  revert a. induction msgs as [| [dg len] msgs IH]; intros a A Hn.
  { exists []. split_and!; [done | constructor | by intros c []%elem_of_nil]. }
  cbn [seal_nonces]. destruct (control_seal a dg len) as [[a' dg'] n] eqn:E.
  destruct (control_seal_ready _ _ _ _ _ _ _ _ _ A E) as [A' Hctr]. rewrite lenZ_cons in Hn. pose proof (lenZ_nonneg msgs).
  destruct A as (_ & Hl & Hd & Hc). unfold is_u64 in Hc. rewrite u64_small in Hctr by (unfold is_u64; lia).
  destruct (IH a' A') as (ctrs & E' & Hs & Hr); [lia |]. destruct (Z.eqb_spec (ca_next_ctr a') (ca_next_ctr a)) as [Heq | Hne].
  - exists ctrs. split_and!; try done. intros c Hci. specialize (Hr c Hci). lia.
  - exists (ca_next_ctr a :: ctrs). split_and!; [by rewrite E', Hl, Hd | |].
    + constructor; [done |]. apply list.Forall_forall. intros c Hci. specialize (Hr c Hci). lia.
    + intros c [-> | Hci]%elem_of_cons; [lia |]. specialize (Hr c Hci). lia.
Qed.

Lemma seal_nonces_nodup lane dir ctrs :
  is_u16 lane -> is_u8 dir -> StronglySorted Z.lt ctrs -> (forall c, c ∈ ctrs -> is_u64 c) ->
  NoDup ((fun c => control_nonce lane c dir) <$> ctrs).
Proof.
  intros Hl Hd Hs. induction Hs as [| c ctrs Hs IH Hall]; intros Hu; [constructor |]. cbn. constructor.
  - intros (c' & E & Hc')%list_elem_of_fmap. rewrite list.Forall_forall in Hall.
    apply control_nonce_inj in E as (_ & -> & _); try done; [specialize (Hall _ Hc'); lia | apply Hu; by left | apply Hu; by right].
  - apply IH. intros; apply Hu; by right.
Qed.

End Control.

(** ** A backend the laws hold for *)

(** Not a cipher: plaintext with a tag that depends on every input. *)
Definition toy_tag (key nonce aad pt : bytes) : bytes :=
  replicate 16 (u8 (sumZ id key + 2 * sumZ id nonce + 3 * sumZ id aad + 5 * sumZ id pt)).

Definition toy_backend : CryptoBackend := {|
  gcm_set_key key := true;
  gcm_encrypt key nonce aad pt := Some (pt, toy_tag key nonce aad pt);
  gcm_decrypt key nonce aad ct tag := if bool_decide (tag = toy_tag key nonce aad ct) then Some ct else None;
  hkdf_extract salt ikm := Some (salt ++ ikm);
  hkdf_expand_label secret protocol label context := Some (secret ++ context);
|}.

Lemma toy_laws : CryptoLaws toy_backend.
Proof.
  split; cbn [toy_backend gcm_encrypt gcm_decrypt]; intros key nonce aad pt ct tag.
  - intros [= <- <-]. by rewrite bool_decide_eq_true_2.
  - case_bool_decide as E; [| done]. intros [= <-]. by rewrite E.
  - by intros [= <- <-].
Qed.

(** ** Properties *)

(** C26: A sealed block opens at the other end: whatever blocks either side's key
    schedule has looked up before, in whatever order, both pick the key of the
    block's epoch, the receiver recovers the plaintext, and a retransmission,
    sealed later and with the retransmission flag set, is the same bytes under the
    same nonce, while blocks of different lanes or sequence numbers never share a
    nonce. *)
Theorem sealed_block_opens `{B : CryptoBackend} `{!CryptoLaws B} session_key lane seq offset flags pt before later received sealed :
  is_u16 lane -> is_u64 seq -> lenZ pt + 16 < 2 ^ 16 ->
  (exists k c, schedule_init new_key_schedule true session_key lane = (k, true) /\
     snd (cipher_for (looked_up k before) seq) = Some c /\
     cipher_seal c lane seq (build_aad lane seq offset flags) pt = Some sealed) ->
  exists k c, schedule_init new_key_schedule true session_key lane = (k, true) /\
    snd (cipher_for (looked_up k received) seq) = Some c /\
    cipher_open c lane seq (build_aad lane seq offset flags) sealed = Some pt /\
    snd (cipher_for (looked_up k later) seq) = Some c /\
    cipher_seal c lane seq (build_aad lane seq offset (Z.lor flags kFlagRetransmission)) pt = Some sealed /\
    forall lane' seq', is_u16 lane' -> is_u64 seq' -> build_nonce lane' seq' = build_nonce lane seq -> lane' = lane /\ seq' = seq.
Proof.
  intros Hl Hs Hp (k & c & Ek & Ec & Eseal). destruct (schedule_init_inv session_key lane) as (k' & Ek' & I).
  rewrite Ek in Ek'. apply pair_equal_spec in Ek' as [<- _].
  assert (forall seqs, snd (cipher_for (looked_up k seqs) seq) = epoch_cipher session_key lane (Z.shiftr seq kKeyEpochShift)) as Hall.
  { intros seqs. by destruct (cipher_for_spec _ _ _ seq (looked_up_inv _ _ _ seqs I)) as (? & -> & _). }
  rewrite Hall in Ec. exists k, c. rewrite !Hall. split_and!; try done.
  - by apply (cipher_seal_open c lane seq _ pt sealed).
  - by rewrite build_aad_retransmission.
  - intros lane' seq' Hl' Hs' E. by apply build_nonce_inj in E.
Qed.

Lemma sealed_block_opens_witness :
  exists k c, schedule_init new_key_schedule true [1; 2; 3] 4 = (k, true) /\
    snd (cipher_for (B := toy_backend) (looked_up (B := toy_backend) k [0; 9000000]) 5000000) = Some c /\
    cipher_open (B := toy_backend) c 4 5000000 (build_aad 4 5000000 70 0) ([8; 9] ++ replicate 16 121) = Some [8; 9] /\
    snd (cipher_for (B := toy_backend) (looked_up (B := toy_backend) k []) 5000000) = Some c /\
    cipher_seal (B := toy_backend) c 4 5000000 (build_aad 4 5000000 70 (Z.lor 0 kFlagRetransmission)) [8; 9] =
      Some ([8; 9] ++ replicate 16 121) /\
    forall lane' seq', is_u16 lane' -> is_u64 seq' -> build_nonce lane' seq' = build_nonce 4 5000000 -> lane' = 4 /\ seq' = 5000000.
Proof.
  apply (sealed_block_opens (B := toy_backend) (CryptoLaws0 := toy_laws) [1; 2; 3] 4 5000000 70 0 [8; 9] [1; 2] [] [0; 9000000]);
    [unfold is_u16; lia | unfold is_u64; lia | vm_compute; reflexivity |].
  eexists _, _. split_and!; [reflexivity | reflexivity | vm_compute; reflexivity].
Defined.

(** C29: The control plane's trailers work and are used safely: a datagram sealed by
    one end of a keyed lane is accepted by the other with exactly its body; an end
    accepts only datagrams that carry the tag the other direction's seal computes
    for that body and counter; and over fewer than 2^64 seals no nonce is used
    twice, by one end or by both, nor ever by a data block. *)
Theorem control_plane_authentic `{B : CryptoBackend} `{!CryptoLaws B} a b key lane dir :
  auth_ready a key lane dir -> auth_ready b key lane (1 - dir) -> is_u16 lane -> (dir = 0 \/ dir = 1) ->
  (forall dg len a' dg' n, 0 <= len < 2 ^ 32 - 24 -> control_seal a dg len = (a', dg', n) -> n <> 0 ->
     control_open b (take (Z.to_nat n) dg') = Ok (Some len)) /\
  (forall dg len, Forall is_u8 dg -> lenZ dg < 2 ^ 32 -> control_open b dg = Ok (Some len) ->
     exists body ctr tag, dg = (body ++ be 8 ctr) ++ tag /\ lenZ body = len /\
       gcm_encrypt key (control_nonce lane ctr dir) (body ++ be 8 ctr) [] = Some ([], tag)) /\
  (forall ma mb, ca_next_ctr a + lenZ ma < 2 ^ 64 -> ca_next_ctr b + lenZ mb < 2 ^ 64 ->
     NoDup (seal_nonces a ma ++ seal_nonces b mb) /\
     forall l s, build_nonce l s ∉ seal_nonces a ma ++ seal_nonces b mb).
Proof.
  intros A Bb Hl Hd. assert (u8 (Z.lxor (1 - dir) 1) = dir) as Hx by (by destruct Hd as [-> | ->]). split_and!.
  - intros dg len a' dg' n Hlen E Hn. destruct (control_seal_sent _ _ _ _ _ _ _ _ _ A (proj1 Hlen) E Hn) as (tag & -> & -> & Ht & Hle & Ee).
    destruct (A) as (_ & _ & _ & Hc). assert (lenZ (take (Z.to_nat len) dg) = len) as Hb by (apply lenZ_take; lia).
    rewrite (control_open_sealed b key lane (1 - dir)) by (done || lia). by rewrite Hx, Hb, (gcm_roundtrip _ _ _ _ _ _ Ee).
  - intros dg len Hb Hm E. rewrite <- Hx. by apply (control_open_inv b).
  - intros ma mb Ha Hb'. destruct (seal_nonces_spec a key lane dir ma A Ha) as (ca & -> & Hsa & Hra).
    destruct (seal_nonces_spec b key lane (1 - dir) mb Bb Hb') as (cb & -> & Hsb & Hrb).
    destruct (A) as (_ & _ & _ & Hua), (Bb) as (_ & _ & _ & Hub). unfold is_u64 in *.
    assert (is_u8 dir /\ is_u8 (1 - dir)) as [Hd1 Hd2] by (unfold is_u8; lia). split.
    + apply NoDup_app. split_and!; [apply seal_nonces_nodup; try done | | apply seal_nonces_nodup; try done];
        [intros c Hc; specialize (Hra c Hc); unfold is_u64; lia | | intros c Hc; specialize (Hrb c Hc); unfold is_u64; lia].
      intros x (c & -> & Hc)%list_elem_of_fmap (c' & E & Hc')%list_elem_of_fmap.
      specialize (Hra c Hc). specialize (Hrb c' Hc'). apply control_nonce_inj in E as (_ & _ & E); try done; try (unfold is_u64; lia).
    + intros l s [(c & E & _)%list_elem_of_fmap | (c & E & _)%list_elem_of_fmap]%elem_of_app; by apply nonce_spaces_disjoint in E.
Qed.

Definition toy_auth (dir : Z) : ControlAuth := mkControlAuth (mkLaneCipher (Some [1; 2])) 3 dir 1.

Lemma control_plane_authentic_witness :
  control_open (B := toy_backend) (toy_auth 1)
    (take (Z.to_nat 26) (snd (fst (control_seal (B := toy_backend) (toy_auth 0) (8 :: 3 :: replicate 30 0) 2)))) = Ok (Some 2) /\
  NoDup (seal_nonces (B := toy_backend) (toy_auth 0) [([8; 3], 2)] ++ seal_nonces (B := toy_backend) (toy_auth 1) []).
Proof.
  destruct (control_plane_authentic (B := toy_backend) (CryptoLaws0 := toy_laws) (toy_auth 0) (toy_auth 1) [1; 2] 3 0)
    as (H1 & _ & H3); [split_and!; try done; cbn; unfold is_u64; lia .. | unfold is_u16; lia | by left |].
  split; [apply (H1 (8 :: 3 :: replicate 30 0) 2 (bump (toy_auth 0)) _ 26); [lia | vm_compute; reflexivity | done] | apply H3; vm_compute; reflexivity].
Defined.
