(* ===== verification/Digest.v ===== *)
(** * Whole-file digests

    Models [src/src/proto/digest.cpp] and [src/include/fuse/proto/digest.hpp]: the
    digest object in both of its builds, as instances of one class, and the
    segmented digest, whose worker threads claim segments through an atomic counter
    and are modelled one atomic action at a time, under any schedule.

    SHA-256 itself is a library: the class [Sha256] with its streaming law. *)

From S2P Require Import Prelude Wire Hash.

Definition kFileDigestLen : Z := 32.
Definition kSegment : Z := Z.shiftl 64 20.

(** ** The digest object *)

(** [digest_new ok] is a constructed object; [ok] says whether the backend's state
    could be allocated and initialised. *)
Class FileDigest := {
  digest_state : Type;
  digest_new : bool -> digest_state;
  digest_update : digest_state -> bytes -> digest_state;
  digest_finish : digest_state -> bytes;
}.

(** What the callers rely on: feeding data in pieces is feeding it at once. *)
Class FileDigestLaws (D : FileDigest) := {
  digest_update_nil d : digest_update d [] = d;
  digest_update_app d a b : digest_update (digest_update d a) b = digest_update d (a ++ b);
}.

(** *** Built with the crypto library *)

Class Sha256 := {
  sha_state : Type;
  sha_init : sha_state;
  sha_update : sha_state -> bytes -> sha_state;
  sha_final : sha_state -> bytes;
}.

Class Sha256Laws (S : Sha256) := {
  sha_update_app s a b : sha_update (sha_update s a) b = sha_update s (a ++ b);
}.

(** [while (len > 0)] of [update]: pieces of at most 2^30 bytes. *)
Fixpoint sha_feed `{Sha256} (fuel : nat) (s : sha_state) (data : bytes) : sha_state :=
  match fuel with
  | O => s
  | S fuel =>
      if lenZ data <=? 0 then s
      else
        let n := if Z.shiftl 1 30 <? lenZ data then Z.shiftl 1 30 else u32 (lenZ data) in
        sha_feed fuel (sha_update s (take (Z.to_nat n) data)) (drop (Z.to_nat n) data)
  end.

Definition sha_digest_update `{Sha256} (state : option sha_state) (data : bytes) : option sha_state :=
  match state with
  | None => None
  | Some s => if lenZ data =? 0 then Some s else Some (sha_feed (Z.to_nat (lenZ data / Z.shiftl 1 30 + 1)) s data)
  end.

Definition sha_digest_finish `{Sha256} (state : option sha_state) : bytes :=
  match state with
  | None => replicate (Z.to_nat kFileDigestLen) 0
  | Some s => sha_final s
  end.

Definition sha_digest `{Sha256} : FileDigest := {|
  digest_state := option sha_state;
  digest_new ok := if ok then Some sha_init else None;
  digest_update := sha_digest_update;
  digest_finish := sha_digest_finish;
|}.

(** *** The fallback: four seeded FNV-1a lanes *)

Definition fnv_new : list Z :=
  (fun i => Z.lxor 1469598103934665603 (u64 (11400714819323198485 * (i + 1)))) <$> [0; 1; 2; 3].

Definition fnv_update (lanes : list Z) (data : bytes) : list Z :=
  foldl (fun lanes b => (fun h => u64 (Z.lxor h b * 1099511628211)) <$> lanes) lanes data.

Definition fnv_finish (lanes : list Z) : bytes := mjoin (be 8 <$> lanes).

Definition fnv_digest : FileDigest := {|
  digest_state := list Z;
  digest_new _ := fnv_new;
  digest_update := fnv_update;
  digest_finish := fnv_finish;
|}.

Definition file_digest `{FileDigest} (ok : bool) (data : bytes) : bytes :=
  digest_finish (digest_update (digest_new ok) data).

(** ** The segmented digest *)

(** Where a thread of the pool stands in the loop of [work]. *)
Inductive worker := Ready | Hashing (i : Z) | Finished.

Record pool := mkPool {
  pl_next : Z;
  pl_seg : list bytes;
  pl_ok : bool;
  pl_threads : list worker;
}.

Definition segments (len : Z) : Z := Z.max 1 (u64 (u64 (len + kSegment) - 1) / kSegment).

Definition segment_off (i : Z) : Z := u64 (i * kSegment).

Definition segment_len (len i : Z) : Z := Z.min kSegment (u64 (len - Z.min (segment_off i) len)).

Definition nthreads (hw len : Z) : Z := Z.min (Z.max 1 hw) (Z.min (segments len) 16).

Definition new_pool (hw len : Z) : pool :=
  mkPool 0 (replicate (Z.to_nat (segments len)) (replicate (Z.to_nat kFileDigestLen) 0)) true
    (replicate (Z.to_nat (nthreads hw len)) Ready).

(** One atomic action of thread [t]: claiming the next segment, or hashing the
    claimed one and storing the result. *)
Definition work (len : Z) (hash_segment : Z -> Z -> option bytes) (p : pool) (t : nat) : option pool :=
  match pl_threads p !! t with
  | Some Ready =>
      let i := pl_next p in
      let w := if i <? segments len then Hashing i else Finished in
      Some (mkPool (u64 (i + 1)) (pl_seg p) (pl_ok p) (<[t := w]> (pl_threads p)))
  | Some (Hashing i) =>
      match hash_segment (segment_off i) (segment_len len i) with
      | Some h => Some (mkPool (pl_next p) (setZ (pl_seg p) i h) (pl_ok p) (<[t := Ready]> (pl_threads p)))
      | None => Some (mkPool (pl_next p) (pl_seg p) false (<[t := Ready]> (pl_threads p)))
      end
  | _ => None
  end.

Fixpoint run_pool (len : Z) (hash_segment : Z -> Z -> option bytes) (p : pool) (schedule : list nat) : option pool :=
  match schedule with
  | [] => Some p
  | t :: schedule =>
      match work len hash_segment p t with
      | Some p => run_pool len hash_segment p schedule
      | None => None
      end
  end.

(** Every thread has left its loop, so the joins return. *)
Definition joined (p : pool) : bool := forallb (fun w => match w with Finished => true | _ => false end) (pl_threads p).

(** After the joins: the digest of the segment hashes and the length. *)
Definition combine `{FileDigest} (ok : bool) (len : Z) (p : pool) : bytes * bool :=
  let d := foldl digest_update (digest_new ok) (pl_seg p) in
  let d := digest_update d (be 8 len) in
  (digest_finish d, pl_ok p).

(** [segmented] under the schedule given: [None] when it is not a complete run. *)
Definition segmented `{FileDigest} (hw len : Z) (hash_segment : Z -> Z -> option bytes) (ok : bool)
    (schedule : list nat) : option (bytes * bool) :=
  match run_pool len hash_segment (new_pool hw len) schedule with
  | Some p => if joined p then Some (combine ok len p) else None
  | None => None
  end.

Definition segmented_digest `{FileDigest} (hw : Z) (data : bytes) (allocs : Z -> bool) (ok : bool)
    (schedule : list nat) : option bytes :=
  fst <$> segmented hw (lenZ data) (fun off n => Some (file_digest (allocs off) (slice data off n))) ok schedule.

(** [for (done = 0; done < n;)] of [segmented_digest_fd]; reads past the calls
    listed count as failed. *)
Fixpoint pread_loop `{FileDigest} (calls : list io) (d : digest_state) (file : bytes) (off done n buf : Z) : option digest_state :=
  if n <=? done then Some d
  else
    match calls with
    | [] => None
    | IoIntr :: calls => pread_loop calls d file off done n buf
    | IoError :: _ => None
    | IoBytes k :: calls =>
        let want := Z.min buf (n - done) in
        let got := slice file (off + done) (Z.min k want) in
        if lenZ got <=? 0 then None
        else pread_loop calls (digest_update d got) file off (done + lenZ got) n buf
    end.

Definition hash_segment_fd `{FileDigest} (file : bytes) (allocs : Z -> bool) (reads : Z -> list io) (off n : Z) : option bytes :=
  digest_finish <$> pread_loop (reads off) (digest_new (allocs off)) file off 0 n (Z.min n (Z.shiftl 4 20)).

Definition segmented_digest_fd `{FileDigest} (hw : Z) (file : bytes) (len : Z) (allocs : Z -> bool) (reads : Z -> list io)
    (ok : bool) (schedule : list nat) : option (bytes * bool) :=
  segmented hw len (hash_segment_fd file allocs reads) ok schedule.

(** ** Both builds keep the digest's laws *)

Lemma sha_feed_all `{S : Sha256} `{!Sha256Laws S} fuel s data :
  0 < lenZ data -> lenZ data / 2 ^ 30 < Z.of_nat fuel -> sha_feed fuel s data = sha_update s data.
Proof.
  revert s data. induction fuel as [| fuel IH]; intros s data Hd Hf; [mlia |]. cbn [sha_feed].
  change (Z.shiftl 1 30) with (2 ^ 30). destruct (Z.leb_spec (lenZ data) 0); [lia |].
  destruct (Z.ltb_spec (2 ^ 30) (lenZ data)) as [Hlt | Hge].
  - rewrite IH, sha_update_app, take_drop; [done | rewrite lenZ_drop by lia; lia |].
    rewrite lenZ_drop by lia. replace (lenZ data - 2 ^ 30) with (lenZ data + (-1) * 2 ^ 30) by lia.
    rewrite Z.div_add by lia. lia.
  - rewrite u32_small by (unfold is_u32; lia). unfold lenZ. rewrite Nat2Z.id, firstn_all, drop_all.
    by destruct fuel.
Qed.

#[export] Instance sha_digest_laws `{S : Sha256} `{!Sha256Laws S} : FileDigestLaws sha_digest.
Proof.
  split; cbn [digest_update sha_digest]; [by intros [s |] |]. intros [s |] a b; [| done].
  unfold sha_digest_update. change (Z.shiftl 1 30) with (2 ^ 30).
  pose proof (lenZ_nonneg a). pose proof (lenZ_nonneg b).
  destruct (Z.eqb_spec (lenZ a) 0) as [Ea | Ea].
  { destruct a; [done |]. rewrite lenZ_cons in Ea. pose proof (lenZ_nonneg a). lia. }
  destruct (Z.eqb_spec (lenZ b) 0) as [Eb | Eb].
  { destruct b; [| rewrite lenZ_cons in Eb; pose proof (lenZ_nonneg b); lia]. rewrite app_nil_r.
    by destruct (Z.eqb_spec (lenZ a) 0). }
  rewrite lenZ_app. destruct (Z.eqb_spec (lenZ a + lenZ b) 0); [lia |].
  rewrite !sha_feed_all, sha_update_app by (rewrite ?lenZ_app; mlia). done.
Qed.

#[export] Instance fnv_digest_laws : FileDigestLaws fnv_digest.
Proof. split; [done |]. intros d a b. cbn [digest_update fnv_digest]. unfold fnv_update. by rewrite foldl_app. Qed.

Lemma digest_update_join `{D : FileDigest} `{!FileDigestLaws D} d (parts : list bytes) :
  foldl digest_update d parts = digest_update d (mjoin parts).
Proof.
  revert d. induction parts as [| a parts IH]; intros d; cbn [foldl mjoin list_join]; [by rewrite digest_update_nil |].
  by rewrite IH, digest_update_app.
Qed.

(** ** The pool *)

Lemma segments_bounds len : 0 <= len < 2 ^ 64 - kSegment -> 1 <= segments len <= 2 ^ 38 /\ len <= segments len * kSegment /\ (len = 0 \/ (segments len - 1) * kSegment < len).
Proof. unfold segments, kSegment. change (Z.shiftl 64 20) with 67108864. intros. rewrite (u64_small (len + _)), u64_small by (unfold is_u64; lia). mlia. Qed.

Section Pool.
Context (len : Z) (hash_segment : Z -> Z -> option bytes).

Definition hash_of (i : Z) : option bytes := hash_segment (segment_off i) (segment_len len i).

Definition weight (w : worker) : Z := match w with Ready => 1 | Hashing _ => 2 | Finished => 0 end.
Definition live (w : worker) : Z := match w with Finished => 0 | _ => 1 end.

(** Atomic actions left before every thread is done. *)
Definition steps_left (p : pool) : Z := 2 * Z.max 0 (segments len - pl_next p) + sumZ weight (pl_threads p).

Record pool_inv (p : pool) : Prop := {
  pi_seg : lenZ (pl_seg p) = segments len;
  pi_next : 0 <= pl_next p /\ pl_next p + sumZ live (pl_threads p) <= segments len + lenZ (pl_threads p);
  pi_finished t : pl_threads p !! t = Some Finished -> segments len <= pl_next p;
  pi_hashing t i : pl_threads p !! t = Some (Hashing i) -> 0 <= i < segments len /\ i < pl_next p;
  pi_alone t t' i : pl_threads p !! t = Some (Hashing i) -> pl_threads p !! t' = Some (Hashing i) -> t = t';
  pi_stored i : 0 <= i < segments len -> i < pl_next p ->
    (exists t, pl_threads p !! t = Some (Hashing i)) \/ pl_ok p = false \/
    exists h, hash_of i = Some h /\ nthZ (pl_seg p) i = Some h;
  pi_failed : pl_ok p = false -> exists i, 0 <= i < segments len /\ hash_of i = None;
}.

Lemma live_bounds p : 0 <= sumZ live (pl_threads p) <= lenZ (pl_threads p).
Proof. pose proof (sumZ_bounds live (pl_threads p) 1 ltac:(by intros [] _; cbn)). lia. Qed.

Lemma claim_inv p t : pool_inv p -> segments len + lenZ (pl_threads p) < 2 ^ 64 -> pl_threads p !! t = Some Ready ->
  forall p', work len hash_segment p t = Some p' ->
  pool_inv p' /\ lenZ (pl_threads p') = lenZ (pl_threads p) /\ steps_left p' + 1 = steps_left p.
Proof.
  intros [I1 [I2 I2'] I3 I4 I5 I6 I7] Hmax Ht p' E. unfold work in E. rewrite Ht in E. injection E as <-.
  pose proof (live_bounds p). pose proof (sumZ_insert live _ t _ (if pl_next p <? segments len then Hashing (pl_next p) else Finished) Ht) as Hl.
  pose proof (sumZ_insert weight _ t _ (if pl_next p <? segments len then Hashing (pl_next p) else Finished) Ht) as Hw.
  pose proof (lookup_lt_Some _ _ _ Ht) as Hlt.
  assert (0 < sumZ live (pl_threads p)) as Hpos.
  { pose proof (sumZ_insert live _ t _ Finished Ht) as H0. cbn in H0.
    pose proof (live_bounds (mkPool 0 [] true (<[t := Finished]> (pl_threads p)))) as Hb. cbn [pl_threads] in Hb. lia. }
  rewrite u64_small by (unfold is_u64; lia). unfold steps_left. cbn [pl_next pl_seg pl_ok pl_threads].
  assert (lenZ (<[t := if pl_next p <? segments len then Hashing (pl_next p) else Finished]> (pl_threads p)) = lenZ (pl_threads p)) as Hlen
    by (unfold lenZ; by rewrite length_insert).
  split_and!; [split; cbn [pl_next pl_seg pl_ok pl_threads] | done |].
  - done.
  - rewrite Hl, Hlen. destruct (Z.ltb_spec (pl_next p) (segments len)); cbn; lia.
  - intros t' [(-> & E & _) | [_ E]]%list_lookup_insert_Some; [| specialize (I3 _ E); lia].
    destruct (Z.ltb_spec (pl_next p) (segments len)); [done | lia].
  - intros t' i [(-> & E & _) | [_ E]]%list_lookup_insert_Some; [| destruct (I4 _ _ E); lia].
    destruct (Z.ltb_spec (pl_next p) (segments len)); [| done]. injection E as <-. lia.
  - intros t1 t2 i [(<- & E1 & _) | [_ E1]]%list_lookup_insert_Some [(<- & E2 & _) | [_ E2]]%list_lookup_insert_Some; try done.
    + destruct (_ <? _); [| done]. injection E1 as <-. destruct (I4 _ _ E2); lia.
    + destruct (_ <? _); [| done]. injection E2 as <-. destruct (I4 _ _ E1); lia.
    + by eapply I5.
  - intros i Hi Hn. destruct (Z.eq_dec i (pl_next p)) as [-> | Hne].
    + left. exists t. rewrite list_lookup_insert_eq by done. destruct (Z.ltb_spec (pl_next p) (segments len)); [done | lia].
    + destruct (I6 i Hi ltac:(lia)) as [[t' E] | Hrest]; [left; exists t' | by right].
      rewrite list_lookup_insert_ne; [done |]. intros <-. by rewrite Ht in E.
  - done.
  - rewrite Hw. destruct (Z.ltb_spec (pl_next p) (segments len)); cbn; lia.
Qed.

Lemma store_inv p t i : pool_inv p -> pl_threads p !! t = Some (Hashing i) ->
  forall p', work len hash_segment p t = Some p' ->
  pool_inv p' /\ lenZ (pl_threads p') = lenZ (pl_threads p) /\ steps_left p' + 1 = steps_left p.
Proof.
  intros [I1 [I2 I2'] I3 I4 I5 I6 I7] Ht p' E. unfold work in E. rewrite Ht in E. fold (hash_of i) in E.
  destruct (I4 _ _ Ht) as [Hi Hn]. pose proof (lookup_lt_Some _ _ _ Ht) as Hlt.
  pose proof (sumZ_insert live _ t _ Ready Ht) as Hl. pose proof (sumZ_insert weight _ t _ Ready Ht) as Hw. cbn in Hl, Hw.
  assert (exists seg ok, p' = mkPool (pl_next p) seg ok (<[t := Ready]> (pl_threads p)) /\ lenZ seg = segments len /\
    (ok = pl_ok p \/ ok = false /\ hash_of i = None) /\
    forall j, 0 <= j < segments len -> (j <> i -> nthZ seg j = nthZ (pl_seg p) j) /\
      (j = i -> ok = false \/ exists h, hash_of j = Some h /\ nthZ seg j = Some h)) as (seg & ok & -> & Hseg & Hok & Hj).
  { destruct (hash_of i) as [h |] eqn:Eh; injection E as <-; eexists _, _; (split; [reflexivity |]).
    - split_and!; [by rewrite lenZ_setZ | by left |]. intros j Hj. rewrite nthZ_setZ by lia. split.
      + intros ?. by destruct (Z.eqb_spec i j).
      + intros ->. right. exists h. by rewrite Z.eqb_refl.
    - split_and!; [done | by right |]. intros j _. split; [done | by left]. }
  assert (lenZ (<[t := Ready]> (pl_threads p)) = lenZ (pl_threads p)) as Hlen by (unfold lenZ; by rewrite length_insert).
  unfold steps_left. cbn [pl_next pl_seg pl_ok pl_threads].
  split_and!; [split; cbn [pl_next pl_seg pl_ok pl_threads] | done | lia].
  - done.
  - lia.
  - intros t' [(_ & E' & _) | [_ E']]%list_lookup_insert_Some; [done | by eapply I3].
  - intros t' j [(_ & E' & _) | [_ E']]%list_lookup_insert_Some; [done | by eapply I4].
  - intros t1 t2 j [(_ & E1 & _) | [_ E1]]%list_lookup_insert_Some [(_ & E2 & _) | [_ E2]]%list_lookup_insert_Some; try done. by eapply I5.
  - intros j Hjr Hjn. destruct (Hj j Hjr) as [Hother Hsame]. destruct (Z.eq_dec j i) as [-> | Hne]; [right; by apply Hsame |].
    destruct (I6 j Hjr Hjn) as [[t' E'] | [Hf | Hs]].
    + left. exists t'. rewrite list_lookup_insert_ne; [done |]. intros <-. by simplify_eq.
    + right; left. by destruct Hok as [-> | [-> _]].
    + right; right. by rewrite Hother.
  - intros Hf. destruct Hok as [-> | [_ Hh]]; [by apply I7 | by exists i].
Qed.

Lemma run_pool_inv p schedule p' :
  pool_inv p -> segments len + lenZ (pl_threads p) < 2 ^ 64 -> run_pool len hash_segment p schedule = Some p' ->
  pool_inv p' /\ lenZ (pl_threads p') = lenZ (pl_threads p) /\ lenZ schedule + steps_left p' = steps_left p.
Proof.
  revert p. induction schedule as [| t schedule IH]; intros p I Hmax E; cbn [run_pool] in E.
  { injection E as <-. rewrite lenZ_nil. split_and!; [done | done | lia]. }
  destruct (work len hash_segment p t) as [p1 |] eqn:Ew; [| done].
  assert (pool_inv p1 /\ lenZ (pl_threads p1) = lenZ (pl_threads p) /\ steps_left p1 + 1 = steps_left p) as (I1 & Hl & Hs).
  { destruct (pl_threads p !! t) as [[| i |] |] eqn:Et.
    - by apply (claim_inv p t).
    - by apply (store_inv p t i).
    - unfold work in Ew. by rewrite Et in Ew.
    - unfold work in Ew. by rewrite Et in Ew. }
  destruct (IH p1 I1 ltac:(lia) E) as (? & ? & ?). rewrite lenZ_cons. split_and!; [done | lia | lia].
Qed.

Lemma new_pool_inv hw : 0 <= len < 2 ^ 64 - kSegment ->
  pool_inv (new_pool hw len) /\ lenZ (pl_threads (new_pool hw len)) = nthreads hw len /\
  1 <= nthreads hw len <= 16 /\ steps_left (new_pool hw len) = 2 * segments len + nthreads hw len.
Proof.
  intros Hlen. destruct (segments_bounds len Hlen) as [Hs _].
  assert (1 <= nthreads hw len <= 16) as Hn by (unfold nthreads; lia).
  assert (forall f : worker -> Z, sumZ f (replicate (Z.to_nat (nthreads hw len)) Ready) = f Ready * nthreads hw len) as Hsum.
  { intros f. rewrite <- (Z2Nat.id (nthreads hw len)) at 2 by lia. generalize (Z.to_nat (nthreads hw len)).
    induction n as [| n IH]; [by cbn; lia |]. cbn [replicate sumZ foldr]. unfold sumZ in IH. lia. }
  assert (forall A (x : A) n, 0 <= n -> lenZ (replicate (Z.to_nat n) x) = n) as Hrep by (intros; unfold lenZ; rewrite length_replicate; lia).
  unfold steps_left, new_pool. cbn [pl_next pl_seg pl_ok pl_threads]. rewrite Hsum, Hrep by lia.
  split_and!; [| done | lia | lia | cbn; lia].
  split; cbn [pl_next pl_seg pl_ok pl_threads]; try done.
  - apply Hrep. lia.
  - rewrite Hsum, Hrep by lia. cbn. lia.
  - intros t [? _]%lookup_replicate. done.
  - intros t i [? _]%lookup_replicate. done.
  - intros t t' i [? _]%lookup_replicate. done.
  - lia.
Qed.

Lemma not_joined_steps p : joined p = false -> exists t p', work len hash_segment p t = Some p'.
Proof.
  unfold joined. intros E. assert (exists t w, pl_threads p !! t = Some w /\ w <> Finished) as (t & w & Et & Hw).
  { destruct p as [n s o threads]; cbn [pl_threads] in *. induction threads as [| w threads IH]; [done |]. cbn [forallb] in E.
    destruct w; [by exists O, Ready | by eexists O, _ |]. destruct (IH E) as (t & w & ? & ?). by exists (S t), w. }
  exists t. unfold work. rewrite Et. destruct w; [by eexists | destruct (hash_segment _ _); by eexists | done].
Qed.

Lemma steps_left_nonneg p : 0 <= steps_left p.
Proof.
  unfold steps_left. pose proof (sumZ_bounds weight (pl_threads p) 2 ltac:(by intros [] _; cbn)). lia.
Qed.

Lemma joined_finished p t w : joined p = true -> pl_threads p !! t = Some w -> w = Finished.
Proof.
  unfold joined. rewrite forallb_forall. intros J Ht. specialize (J w). rewrite <- list_elem_of_In in J.
  specialize (J (list_elem_of_lookup_2 _ _ _ Ht)). by destruct w.
Qed.

Lemma joined_next p : pool_inv p -> joined p = true -> 1 <= lenZ (pl_threads p) -> segments len <= pl_next p.
Proof.
  intros I J Hn. destruct (nthZ_Some (pl_threads p) 0) as [w Ew]; [lia |]. rewrite nthZ_lookup in Ew by lia.
  apply (pi_finished p I (Z.to_nat 0)). rewrite Ew. f_equal. by eapply joined_finished.
Qed.

Lemma joined_no_steps p : pool_inv p -> joined p = true -> 1 <= lenZ (pl_threads p) -> steps_left p = 0.
Proof.
  intros I J Hn. pose proof (joined_next p I J Hn). unfold steps_left.
  assert (sumZ weight (pl_threads p) = 0); [| lia]. unfold joined in J.
  revert J. generalize (pl_threads p). induction l as [| w l IH]; [done |]. cbn [forallb sumZ foldr].
  intros [Hw Hl]%andb_prop. specialize (IH Hl). unfold sumZ in IH. destruct w; cbn; [done | done | lia].
Qed.

(** What a finished pool holds, whatever the schedule was. *)
Lemma joined_result hw schedule p : 0 <= len < 2 ^ 64 - kSegment ->
  run_pool len hash_segment (new_pool hw len) schedule = Some p -> joined p = true ->
  (pl_ok p = true <-> forall i, 0 <= i < segments len -> is_Some (hash_of i)) /\
  (pl_ok p = true -> pl_seg p = (fun i => default [] (hash_of i)) <$> seqZ 0 (segments len)).
Proof.
  intros Hlen E J. destruct (new_pool_inv hw Hlen) as (I0 & Hl0 & Hn & _). destruct (segments_bounds len Hlen) as [Hs _].
  destruct (run_pool_inv _ _ _ I0 ltac:(lia) E) as (I & Hl & _).
  pose proof (joined_next _ I J ltac:(lia)) as Hnext. pose proof (fun t w => joined_finished p t w J) as Hall. destruct I as [I1 _ _ _ _ I6 I7].
  assert (forall i, 0 <= i < segments len -> pl_ok p = true -> exists h, hash_of i = Some h /\ nthZ (pl_seg p) i = Some h) as Hst.
  { intros i Hi Hok. destruct (I6 i Hi ltac:(lia)) as [[t Et] | [Hf | Hh]]; [by apply Hall in Et | congruence | done]. }
  split; [split |].
  - intros Hok i Hi. destruct (Hst i Hi Hok) as (h & -> & _). by eexists.
  - intros H. destruct (pl_ok p) eqn:Eok; [done |]. destruct (I7 eq_refl) as (i & Hi & Hnone).
    destruct (H i Hi) as [h Eh]. congruence.
  - intros Hok. apply list_eq_same_length with (n := Z.to_nat (segments len)).
    + rewrite length_fmap, length_seqZ. done.
    + unfold lenZ in I1. lia.
    + intros i x y Hi Hx Hy. rewrite list_lookup_fmap, lookup_seqZ_lt, Z.add_0_l in Hy by lia. cbn [fmap option_fmap option_map] in Hy. injection Hy as <-.
      destruct (Hst (Z.of_nat i) ltac:(lia) Hok) as (h & Eh & Es). rewrite nthZ_lookup, Nat2Z.id in Es by lia.
      rewrite Eh. cbn. congruence.
Qed.

End Pool.

(** ** Reading a file *)

(** A read succeeds at once or after interruptions, and makes progress. *)
Definition read_ok (c : io) : Prop := match c with IoIntr => True | IoError => False | IoBytes k => 1 <= k end.
Definition progress (c : io) : Z := match c with IoBytes _ => 1 | _ => 0 end.

Section Reading.
Context `{D : FileDigest} `{!FileDigestLaws D}.

Lemma slice_join {A} (l : list A) off n m :
  0 <= off -> 0 <= n -> 0 <= m -> slice l off n ++ slice l (off + n) m = slice l off (n + m).
Proof.
  intros. unfold slice. rewrite !Z2Nat.inj_add by lia. rewrite <- drop_drop.
  generalize (drop (Z.to_nat off) l) as k. intros k. by rewrite take_take_drop.
Qed.

Lemma slice_clip {A} (l : list A) off n : 0 <= off -> 0 <= n -> slice l off (lenZ (slice l off n)) = slice l off n.
Proof.
  intros. unfold slice, lenZ. rewrite Nat2Z.id, length_take. destruct (Nat.le_gt_cases (Z.to_nat n) (length (drop (Z.to_nat off) l))).
  - by rewrite Nat.min_l.
  - rewrite Nat.min_r by lia. by rewrite !take_ge by lia.
Qed.

Lemma pread_loop_spec calls d file off pos n buf d' :
  0 <= off -> 0 <= pos <= n -> 0 <= buf -> pread_loop calls d file off pos n buf = Some d' ->
  d' = digest_update d (slice file (off + pos) (n - pos)) /\ (pos < n -> off + n <= lenZ file).
Proof.
  intros Ho Hd Hb. revert d pos Hd. induction calls as [| c calls IH]; intros d pos Hd E; cbn [pread_loop] in E;
    (destruct (Z.leb_spec n pos); [injection E as <-; replace (n - pos) with 0 by lia; unfold slice;
      rewrite take_0, digest_update_nil; split; [done | lia] |]); [done |].
  destruct c as [| | k]; [by apply IH | done |]. destruct (Z.leb_spec (lenZ (slice file (off + pos) (Z.min k (Z.min buf (n - pos))))) 0); [done |].
  set (w := Z.min k (Z.min buf (n - pos))) in *.
  assert (0 <= w) as Hw by (destruct (Z.le_gt_cases 0 w); [done |]; exfalso; unfold slice, lenZ in *; rewrite length_take in *; lia).
  set (g := lenZ (slice file (off + pos) w)) in *.
  assert (g <= w /\ off + pos + g <= lenZ file) as [Hgw Hgf] by (unfold g, slice, lenZ in *; rewrite length_take, length_drop in *; lia).
  destruct (IH (digest_update d (slice file (off + pos) w)) (pos + g) ltac:(lia) E) as [-> Hrest]. split.
  - rewrite digest_update_app. f_equal. rewrite <- (slice_clip file (off + pos) w) by lia. fold g.
    replace (off + (pos + g)) with (off + pos + g) by lia. rewrite slice_join by lia. f_equal; lia.
  - intros _. destruct (Z.lt_ge_cases (pos + g) n) as [Hlt | Hge]; [by apply Hrest | lia].
Qed.

Lemma pread_loop_reads calls d file off pos n buf :
  0 <= off -> 0 <= pos <= n -> 1 <= buf \/ n <= pos -> off + n <= lenZ file -> Forall read_ok calls -> n - pos <= sumZ progress calls ->
  is_Some (pread_loop calls d file off pos n buf).
Proof.
  intros Ho Hd Hb Hf Hok. revert d pos Hd Hb. induction Hok as [| c calls Hc Hok IH]; intros d pos Hd Hb Hp; cbn [pread_loop sumZ foldr] in *;
    (destruct (Z.leb_spec n pos); [by eexists |]); [lia |].
  destruct c as [| | k]; cbn in Hc, Hp; [apply IH; [lia | lia | unfold sumZ; lia] | done |].
  set (w := Z.min k (Z.min buf (n - pos))).
  assert (lenZ (slice file (off + pos) w) = w) as Hw by (apply lenZ_slice; lia).
  rewrite Hw. destruct (Z.leb_spec w 0); [lia |]. apply IH; [lia | lia | unfold sumZ; lia].
Qed.

End Reading.

(** ** The digest as a function of the bytes *)

(** What both ends mean to compute, without threads, reads or machine integers. *)
Definition segmented_spec `{FileDigest} (data : bytes) : bytes :=
  let hashes := (fun i => file_digest true (slice data (i * kSegment) kSegment)) <$> seqZ 0 (segments (lenZ data)) in
  digest_finish (digest_update (digest_new true) (mjoin hashes ++ be 8 (lenZ data))).

Lemma segment_span len i : 0 <= len < 2 ^ 64 - kSegment -> 0 <= i < segments len ->
  segment_off i = i * kSegment /\ segment_len len i = Z.min kSegment (len - i * kSegment) /\ i * kSegment <= len.
Proof.
  unfold segments, segment_len, segment_off, kSegment. change (Z.shiftl 64 20) with 67108864. intros Hl Hi.
  rewrite (u64_small (len + _)), u64_small in Hi by (unfold is_u64; lia).
  assert (i * 67108864 <= len) by mlia. rewrite (u64_small (i * _)) by (unfold is_u64; lia).
  rewrite (Z.min_l (i * _) len), (u64_small (len - _)) by (unfold is_u64; lia). done.
Qed.

Lemma slice_over {A} (l : list A) off n m : 0 <= off <= lenZ l -> lenZ l - off <= n -> lenZ l - off <= m -> slice l off n = slice l off m.
Proof. intros. unfold slice. rewrite !take_ge; [done | rewrite length_drop; unfold lenZ in *; lia ..]. Qed.

Lemma segment_slice {A} (data : list A) i : lenZ data < 2 ^ 64 - kSegment -> 0 <= i < segments (lenZ data) ->
  slice data (segment_off i) (segment_len (lenZ data) i) = slice data (i * kSegment) kSegment.
Proof.
  intros Hl Hi. pose proof (lenZ_nonneg data). destruct (segment_span (lenZ data) i ltac:(lia) Hi) as (-> & -> & Hle).
  destruct (Z.le_gt_cases kSegment (lenZ data - i * kSegment)).
  - by rewrite Z.min_l by lia.
  - apply slice_over; unfold kSegment in *; change (Z.shiftl 64 20) with 67108864 in *; lia.
Qed.

Section Agreement.
Context `{D : FileDigest} `{!FileDigestLaws D}.

Lemma combine_spec data p hash :
  pl_seg p = (fun i => default [] (hash i)) <$> seqZ 0 (segments (lenZ data)) ->
  (forall i, 0 <= i < segments (lenZ data) -> hash i = Some (file_digest true (slice data (i * kSegment) kSegment))) ->
  fst (combine true (lenZ data) p) = segmented_spec data.
Proof.
  intros Hp Hh. unfold combine, segmented_spec. cbn [fst]. rewrite digest_update_join, digest_update_app, Hp.
  do 3 f_equal. f_equal. apply list_fmap_ext. intros j i Hj. apply list_elem_of_lookup_2, elem_of_seqZ in Hj.
  by rewrite Hh by lia.
Qed.

Lemma segmented_digest_spec hw data allocs schedule out :
  lenZ data < 2 ^ 64 - kSegment -> (forall off, allocs off = true) ->
  segmented_digest hw data allocs true schedule = Some out -> out = segmented_spec data.
Proof.
  intros Hl Ha E. pose proof (lenZ_nonneg data). unfold segmented_digest, segmented in E.
  set (h := fun off n => _) in E. destruct (run_pool _ h _ _) as [p |] eqn:Er; [| done].
  destruct (joined p) eqn:Ej; [| done]. injection E as <-.
  assert (forall i, 0 <= i < segments (lenZ data) ->
    hash_of (lenZ data) h i = Some (file_digest true (slice data (i * kSegment) kSegment))) as Hh
    by (intros i Hi; unfold hash_of, h; by rewrite Ha, segment_slice).
  destruct (joined_result (lenZ data) h hw schedule p ltac:(lia) Er Ej) as [Hok Hseg].
  assert (pl_ok p = true) as Hp by (apply Hok; intros i Hi; rewrite Hh by done; by eexists).
  by apply (combine_spec data p (hash_of (lenZ data) h)); [apply Hseg |].
Qed.

Lemma hash_fd_spec file len allocs reads i h :
  0 <= len < 2 ^ 64 - kSegment -> 0 <= i < segments len -> (forall off, allocs off = true) ->
  hash_of len (hash_segment_fd file allocs reads) i = Some h ->
  h = file_digest true (slice file (segment_off i) (segment_len len i)) /\
  (0 < segment_len len i -> segment_off i + segment_len len i <= lenZ file).
Proof.
  intros Hl Hi Ha E. destruct (segment_span len i Hl Hi) as (Eo & El & Hle). unfold hash_of, hash_segment_fd in E.
  assert (0 <= segment_off i /\ 0 <= segment_len len i) as [] by (unfold kSegment in *; change (Z.shiftl 64 20) with 67108864 in *; lia).
  destruct (pread_loop _ _ _ _ _ _ _) as [d |] eqn:Ep; [| done]. injection E as <-.
  change (Z.shiftl 4 20) with 4194304 in Ep. apply pread_loop_spec in Ep as [-> Hin]; [| lia ..]. rewrite Ha, Z.add_0_r, Z.sub_0_r. done.
Qed.

Lemma segmented_fd_spec hw file len allocs reads schedule out :
  0 <= len < 2 ^ 64 - kSegment -> (forall off, allocs off = true) ->
  segmented_digest_fd hw file len allocs reads true schedule = Some (out, true) ->
  len <= lenZ file /\ out = segmented_spec (take (Z.to_nat len) file).
Proof.
  intros Hl Ha E. unfold segmented_digest_fd, segmented in E. set (h := hash_segment_fd file allocs reads) in E.
  destruct (run_pool _ h _ _) as [p |] eqn:Er; [| done]. destruct (joined p) eqn:Ej; [| done].
  assert (fst (combine true len p) = out /\ pl_ok p = true) as [<- Hp] by (injection E as <- ?; done).
  destruct (joined_result len h hw schedule p Hl Er Ej) as [Hok Hseg]. specialize (Hseg Hp). rewrite Hok in Hp.
  destruct (segments_bounds len Hl) as [Hs Hcov].
  assert (len <= lenZ file) as Hf.
  { destruct (Hp (segments len - 1) ltac:(lia)) as [x Ex]. destruct (hash_fd_spec file len allocs reads (segments len - 1) x Hl ltac:(lia) Ha Ex) as [_ Hin].
    destruct (segment_span len (segments len - 1) Hl ltac:(lia)) as (Eo & El & Hle). pose proof (lenZ_nonneg file).
    unfold kSegment in *. change (Z.shiftl 64 20) with 67108864 in *. lia. }
  split; [done |]. set (data := take (Z.to_nat len) file).
  assert (lenZ data = len) as Hd by (apply lenZ_take; lia). rewrite <- Hd.
  apply (combine_spec data p (hash_of len h)); [by rewrite Hd |]. rewrite Hd. intros i Hi.
  destruct (Hp i Hi) as [x Ex]. rewrite Ex. destruct (hash_fd_spec file len allocs reads i x Hl Hi Ha Ex) as [-> _]. do 2 f_equal.
  rewrite <- (segment_slice data i), Hd by (rewrite Hd; lia).
  destruct (segment_span len i Hl Hi) as (Eo & El & Hle). unfold slice, data. rewrite skipn_firstn_comm, take_take.
  f_equal. unfold kSegment in *. change (Z.shiftl 64 20) with 67108864 in *. lia.
Qed.

Lemma segmented_fd_reads hw file len allocs reads ok schedule r :
  0 <= len < 2 ^ 64 - kSegment -> len <= lenZ file ->
  (forall off, Forall read_ok (reads off) /\ kSegment <= sumZ progress (reads off)) ->
  segmented_digest_fd hw file len allocs reads ok schedule = Some r -> snd r = true.
Proof.
  intros Hl Hf Hr E. unfold segmented_digest_fd, segmented in E. set (h := hash_segment_fd file allocs reads) in E.
  destruct (run_pool _ h _ _) as [p |] eqn:Er; [| done]. destruct (joined p) eqn:Ej; [| done]. injection E as <-. cbn [combine snd].
  destruct (joined_result len h hw schedule p Hl Er Ej) as [Hok _]. apply Hok. intros i Hi.
  destruct (segment_span len i Hl Hi) as (Eo & El & Hle). destruct (Hr (segment_off i)) as [Hgood Hmany].
  unfold hash_of, h, hash_segment_fd. apply fmap_is_Some. unfold kSegment in *. change (Z.shiftl 64 20) with 67108864 in *.
  change (Z.shiftl 4 20) with 4194304. apply pread_loop_reads; [lia .. | done | lia].
Qed.

End Agreement.

(** ** Properties *)

(** C40: The segmented digest does not depend on threads or on how reads are split.
    Whatever the number of cores and the order in which the threads' actions
    interleave, the buffer's digest is the plain function [segmented_spec] of its
    bytes; the file's digest, when it reports success, is the same function of the
    file's first [len] bytes, all of which it has read, and it does report success
    when the file is long enough and no read fails.  Each run ends after exactly
    two actions per segment and one per thread, a run that is not over can go on,
    and no two threads ever hash the same segment. *)
Theorem segmented_digest_schedule_free `{D : FileDigest} `{!FileDigestLaws D} hw data file len allocs reads schedule :
  lenZ data < 2 ^ 64 - kSegment -> 0 <= len < 2 ^ 64 - kSegment -> (forall off, allocs off = true) ->
  (forall out, segmented_digest hw data allocs true schedule = Some out -> out = segmented_spec data) /\
  (forall out, segmented_digest_fd hw file len allocs reads true schedule = Some (out, true) ->
     len <= lenZ file /\ out = segmented_spec (take (Z.to_nat len) file)) /\
  (len <= lenZ file -> (forall off, Forall read_ok (reads off) /\ kSegment <= sumZ progress (reads off)) ->
   forall r, segmented_digest_fd hw file len allocs reads true schedule = Some r -> snd r = true) /\
  (forall hash p, run_pool len hash (new_pool hw len) schedule = Some p ->
     (if joined p then lenZ schedule = 2 * segments len + nthreads hw len
      else exists t p', work len hash p t = Some p') /\
     lenZ schedule <= 2 * segments len + nthreads hw len /\
     forall t t' i, pl_threads p !! t = Some (Hashing i) -> pl_threads p !! t' = Some (Hashing i) -> t = t').
Proof.
  intros Hd Hl Ha. split_and!.
  - intros out. by apply segmented_digest_spec.
  - intros out. by apply segmented_fd_spec.
  - intros Hf Hr r. by apply segmented_fd_reads.
  - intros hash p E. destruct (new_pool_inv len hash hw Hl) as (I0 & Hl0 & Hn & Hs0). destruct (segments_bounds len Hl) as [Hs _].
    destruct (run_pool_inv len hash _ _ _ I0 ltac:(lia) E) as (I & Hlen & Hsteps).
    pose proof (steps_left_nonneg len p). split_and!.
    + destruct (joined p) eqn:Ej; [| by apply not_joined_steps]. by rewrite (joined_no_steps len hash p) in Hsteps by (done || lia); lia.
    + lia.
    + apply (pi_alone _ _ _ I).
Qed.

Lemma segmented_digest_schedule_free_witness :
  let fd := segmented_digest_fd (H := fnv_digest) 4 [1; 2; 3; 9] 3 (fun _ => true) (fun _ => [IoBytes 2; IoIntr; IoBytes 5]) true [0; 0; 0]%nat in
  let buf := segmented_digest (H := fnv_digest) 4 [1; 2; 3] (fun _ => true) true [0; 0; 0]%nat in
  buf = Some (segmented_spec (H := fnv_digest) [1; 2; 3]) /\ fd = Some (segmented_spec (H := fnv_digest) [1; 2; 3], true).
Proof.
  destruct (segmented_digest_schedule_free (D := fnv_digest) 4 [1; 2; 3] [1; 2; 3; 9] 3 (fun _ => true)
    (fun _ => [IoBytes 2; IoIntr; IoBytes 5]) [0; 0; 0]%nat) as (H1 & H2 & _); [by vm_compute | by vm_compute | done |].
  cbv zeta. split.
  - destruct (segmented_digest _ _ _ _ _) as [out |] eqn:E; [| by vm_compute in E]. f_equal. by apply H1.
  - destruct (segmented_digest_fd _ _ _ _ _ _ _) as [[out ok] |] eqn:E; [| by vm_compute in E].
    assert (ok = true) as -> by (by vm_compute in E; injection E). f_equal. f_equal. by apply H2.
Defined.
