(* ===== verification/Peer.v ===== *)
(** * Peer addresses and control datagrams

    Models [PeerAddr] of [src/src/proto/udp_common.cpp] and the helpers of
    [src/src/proto/transfer.cpp] that both lanes use: the address-validation token,
    the path validator, and the signing and checking of control datagrams.

    Random numbers and clock readings are arguments; a datagram handed to the socket
    is a pair of its destination and its bytes. *)

From S2P Require Import Prelude Wire Control Block Hash SessionCrypto.

(** ** Decoders inside handlers *)

(** [if (!decode(...)) other; else ...]: a rejected datagram takes the second branch. *)
Definition try_decode {A B} (r : res A) (accepted : A -> res B) (rejected : res B) : res B :=
  match r with
  | Fault => Fault
  | Reject => rejected
  | Ok a => accepted a
  end.

(** ** Addresses *)

Definition AF_INET : Z := 2.
Definition AF_INET6 : Z := 10.

(** The fields of [sockaddr_storage] the code reads; [pa_addr] has 4 or 16 bytes. *)
Record PeerAddr := mkPeerAddr {
  pa_family : Z;
  pa_port : Z;
  pa_addr : bytes;
}.

#[export] Instance PeerAddr_eq_dec : EqDecision PeerAddr.
Proof. solve_decision. Defined.

Definition no_peer : PeerAddr := mkPeerAddr 0 0 [].

(** [operator==] *)
Definition peer_eqb (a b : PeerAddr) : bool :=
  if negb (pa_family a =? pa_family b) then false
  else if pa_family a =? AF_INET then
    (pa_port a =? pa_port b) && bool_decide (take 4 (pa_addr a) = take 4 (pa_addr b))
  else if pa_family a =? AF_INET6 then
    (pa_port a =? pa_port b) && bool_decide (take 16 (pa_addr a) = take 16 (pa_addr b))
  else false.

Definition peer_port (a : PeerAddr) : Z :=
  if pa_family a =? AF_INET then pa_port a else if pa_family a =? AF_INET6 then pa_port a else 0.

Definition ip_udp_overhead (a : PeerAddr) : Z := if pa_family a =? AF_INET6 then 40 + 8 else 20 + 8.

(** An address the socket layer fills in. *)
Definition wf_peer (a : PeerAddr) : Prop :=
  is_u16 (pa_port a) /\
  (pa_family a = AF_INET /\ lenZ (pa_addr a) = 4 \/ pa_family a = AF_INET6 /\ lenZ (pa_addr a) = 16).

(** ** The address-validation token *)

(** The bytes that are hashed. *)
Definition token_input (a : PeerAddr) (nonce : Z) : bytes :=
  be 2 (u16 (pa_family a)) ++ be 2 (peer_port a) ++
  (if pa_family a =? AF_INET6 then take 16 (pa_addr a) else take 4 (pa_addr a)) ++ be 8 nonce.

Definition address_token (secret : bytes) (a : PeerAddr) (nonce : Z) : Z :=
  let t := siphash24 secret (token_input a nonce) in
  if negb (t =? 0) then t else 1.

(** ** Path validation *)

Record PathValidator := mkPathValidator {
  pv_candidate : PeerAddr;
  pv_challenge : Z;
  pv_sent_ns : Z;
  pv_active : bool;
}.

Definition new_path : PathValidator := mkPathValidator no_peer 0 0 false.

(** [rnd] is the value [secure_random_u64] would return. *)
Definition want_probe (v : PathValidator) (src : PeerAddr) (now rnd : Z) : PathValidator * option Z :=
  let v := if negb (pv_active v && peer_eqb (pv_candidate v) src) then mkPathValidator src rnd 0 true else v in
  if negb (pv_sent_ns v =? 0) && (u64 (now - pv_sent_ns v) <? 50000000) then (v, None)
  else (mkPathValidator (pv_candidate v) (pv_challenge v) now (pv_active v), Some (pv_challenge v)).

Definition validated (v : PathValidator) (src : PeerAddr) (value : Z) : PathValidator * bool :=
  if negb (pv_active v) || negb (peer_eqb src (pv_candidate v)) || negb (value =? pv_challenge v) then (v, false)
  else (mkPathValidator (pv_candidate v) (pv_challenge v) (pv_sent_ns v) false, true).

(** ** Control datagrams *)

(** What is handed to the socket. *)
Definition datagram : Type := PeerAddr * bytes.

Section Signing.
Context `{B : CryptoBackend}.

(** [auth] is [None] in a plaintext session. *)
Definition seal_ctl (auth : option ControlAuth) (buf : bytes) (n : Z) : option ControlAuth * bytes * Z :=
  match auth with
  | None => (None, buf, n)
  | Some a =>
      if n =? 0 then (auth, buf, n)
      else let '(a, buf, n) := control_seal a buf n in (Some a, buf, n)
  end.

Definition ctl_authentic (auth : option ControlAuth) (dg : bytes) : res bool :=
  match auth with
  | None => Ok true
  | Some a =>
      res_bind (control_open a dg) (fun r => Ok (match r with Some _ => true | None => false end))
  end.

(** Encode into a scratch buffer of [cap] bytes, sign, and send if there is
    anything to send. *)
Definition send_ctl (auth : option ControlAuth) (encode : bytes -> res (bytes * Z)) (cap : Z) (to : PeerAddr) :
    res (option ControlAuth * list datagram) :=
  res_bind (encode (replicate (Z.to_nat cap) 0)) (fun '(buf, n) =>
  let '(auth, buf, n) := seal_ctl auth buf n in
  Ok (auth, if n =? 0 then [] else [(to, take (Z.to_nat n) buf)])).

(** The same datagram is sent three times. *)
Definition send_stream_close (auth : option ControlAuth) (to : PeerAddr) (lane nonce reason : Z) :
    res (option ControlAuth * list datagram) :=
  res_bind (send_ctl auth (encode_stream_close (mkStreamClose lane nonce reason)) 64 to) (fun '(auth, out) =>
  Ok (auth, out ++ out ++ out)).

Definition send_path_probe (auth : option ControlAuth) (to : PeerAddr) (type : MsgType.MsgType) (lane nonce value : Z) :
    res (option ControlAuth * list datagram) :=
  send_ctl auth (encode_path_probe type (mkPathProbe lane nonce value)) 64 to.

End Signing.

(** ** Addresses are compared and hashed in full *)

Lemma peer_eqb_eq a b : wf_peer a -> wf_peer b -> peer_eqb a b = true <-> a = b.
Proof.
  destruct a as [fa pa aa], b as [fb pb ab]. intros [_ Ha] [_ Hb]. cbn [pa_family pa_port pa_addr] in *. unfold peer_eqb. cbn [pa_family pa_port pa_addr].
  assert (forall l : bytes, lenZ l = 4 -> take 4 l = l) as H4 by (intros l Hl; apply take_ge; unfold lenZ in Hl; lia).
  assert (forall l : bytes, lenZ l = 16 -> take 16 l = l) as H16 by (intros l Hl; apply take_ge; unfold lenZ in Hl; lia).
  split.
  - destruct (Z.eqb_spec fa fb) as [<- |]; [| done]. cbn [negb].
    destruct Ha as [[-> La] | [-> La]], Hb as [[Eb Lb] | [Eb Lb]]; try done;
      cbn [Z.eqb AF_INET AF_INET6 Pos.eqb]; intros [E1 E2]%andb_prop; apply Z.eqb_eq in E1 as <-; apply bool_decide_eq_true in E2.
    + rewrite !H4 in E2 by done. by subst.
    + rewrite !H16 in E2 by done. by subst.
  - intros [= <- <- <-]. rewrite Z.eqb_refl. cbn [negb]. destruct Ha as [[-> _] | [-> _]]; cbn; by rewrite Z.eqb_refl, bool_decide_eq_true_2.
Qed.

Lemma peer_eqb_sym a b : peer_eqb a b = peer_eqb b a.
Proof.
  unfold peer_eqb. rewrite (Z.eqb_sym (pa_family b)), (Z.eqb_sym (pa_port b)).
  destruct (Z.eqb_spec (pa_family a) (pa_family b)) as [-> |]; [| done]. cbn [negb].
  assert (forall x y : bytes, bool_decide (x = y) = bool_decide (y = x)) as Hs by (intros; by apply bool_decide_ext).
  by rewrite (Hs (take 4 _)), (Hs (take 16 _)).
Qed.

(** No two peers, and no two sessions of one peer, hash the same bytes. *)
Lemma token_input_inj a b n m :
  wf_peer a -> wf_peer b -> is_u64 n -> is_u64 m -> token_input a n = token_input b m -> a = b /\ n = m.
Proof.
  destruct a as [fa pa aa], b as [fb pb ab]. intros [Pa Ha] [Pb Hb] Hn Hm E. unfold token_input, peer_port in E. cbn [pa_family pa_port pa_addr] in *.
  apply app_inj_len in E as [Ef E]; [| by rewrite !be_length].
  assert (fa = fb) as <-.
  { apply be_inj in Ef; [| apply u16_range ..]. destruct Ha as [[-> _] | [-> _]], Hb as [[-> _] | [-> _]]; done. }
  assert (forall l : bytes, lenZ l = 4 -> take 4 l = l) as H4 by (intros l Hl; apply take_ge; unfold lenZ in Hl; lia).
  assert (forall l : bytes, lenZ l = 16 -> take 16 l = l) as H16 by (intros l Hl; apply take_ge; unfold lenZ in Hl; lia).
  apply app_inj_len in E as [Ep E]; [| by rewrite !be_length].
  destruct Ha as [[-> La] | [-> La]], Hb as [[Eb Lb] | [Eb Lb]]; try done; cbn [Z.eqb AF_INET AF_INET6 Pos.eqb] in *;
    rewrite ?(H4 aa La), ?(H4 ab Lb), ?(H16 aa La), ?(H16 ab Lb) in E; apply be_inj in Ep as <-; try done;
    (apply app_inj_len in E as [<- E]; [| unfold lenZ in *; lia]); by apply be_inj in E as <-.
Qed.

Lemma address_token_u64 secret a nonce : Forall is_u8 secret -> Forall is_u8 (pa_addr a) -> is_u64 (address_token secret a nonce).
Proof.
  intros Hs Ha. unfold address_token. cbv zeta.
  assert (is_u64 (siphash24 secret (token_input a nonce))) as H.
  { apply siphash24_u64; [done |]. unfold token_input. repeat (apply Forall_app; split); try apply be_bytes.
    destruct (_ =? _); by apply Forall_take. }
  destruct (negb _); [done | unfold is_u64; lia].
Qed.

Lemma address_token_nonzero secret a nonce : address_token secret a nonce <> 0.
Proof. unfold address_token. cbv zeta. destruct (Z.eqb_spec (siphash24 secret (token_input a nonce)) 0); cbn [negb]; lia. Qed.

(** ** Path validation as a protocol *)

Inductive path_event :=
| Probed (src : PeerAddr) (now rnd : Z) (sent : option Z)
| Responded (src : PeerAddr) (value : Z) (accepted : bool).

(** The events of a run, each with what the validator answered, newest first. *)
Inductive path_run : PathValidator -> list path_event -> Prop :=
| run_new : path_run new_path []
| run_probe v h src now rnd v' sent :
    path_run v h -> want_probe v src now rnd = (v', sent) -> path_run v' (Probed src now rnd sent :: h)
| run_response v h src value v' ok :
    path_run v h -> validated v src value = (v', ok) -> path_run v' (Responded src value ok :: h).

(** Going back in time, only probes of [cand] until the one that sent it [value]. *)
Inductive challenged (cand : PeerAddr) (value : Z) : list path_event -> Prop :=
| challenged_here src now rnd h : peer_eqb cand src = true -> challenged cand value (Probed src now rnd (Some value) :: h)
| challenged_probe src now rnd sent h :
    peer_eqb cand src = true -> (forall w, sent = Some w -> w = value) -> challenged cand value h ->
    challenged cand value (Probed src now rnd sent :: h)
| challenged_refused src w h : challenged cand value h -> challenged cand value (Responded src w false :: h).

Lemma path_run_challenged v h :
  Forall (fun e => match e with Probed src _ _ _ => wf_peer src | Responded src _ _ => True end) h ->
  path_run v h -> pv_active v = true -> wf_peer (pv_candidate v) /\ challenged (pv_candidate v) (pv_challenge v) h.
Proof.
  intros Hwf R. induction R as [| v h src now rnd v' sent R IH E | v h src value v' ok R IH E]; intros Ha; [done | |].
  - apply Forall_cons in Hwf as [Hsrc Hwf]. specialize (IH Hwf). unfold want_probe in E.
    assert (peer_eqb src src = true) as Hrefl by (by apply peer_eqb_eq).
    destruct (pv_active v && peer_eqb (pv_candidate v) src) eqn:Ek; cbn [negb] in E.
    + apply andb_prop in Ek as [Ea Eq]. destruct (IH Ea) as [Hc Hch].
      split_if_in E; apply pair_equal_spec in E as [<- <-]; cbn [pv_candidate pv_challenge]; (split; [done |]).
      * by apply challenged_probe.
      * by apply challenged_here.
    + cbn [pv_sent_ns] in E. rewrite Z.eqb_refl in E. cbn [negb andb] in E.
      apply pair_equal_spec in E as [<- <-]. cbn [pv_candidate pv_challenge]. split; [done |]. by apply challenged_here.
  - apply Forall_cons in Hwf as [_ Hwf]. specialize (IH Hwf). unfold validated in E. split_if_in E; apply pair_equal_spec in E as [<- <-].
    + destruct (IH Ha) as [? ?]. split; [done |]. by apply challenged_refused.
    + done.
Qed.

(** ** Properties *)

(** A lane moves to a new peer address only on an echo.  When a response from
    [src] validates, the most recent candidate is [src] itself, it was sent exactly
    the value it returned, and nothing has been accepted since; the validator then
    accepts no further response until it challenges again.  A candidate is
    challenged at most once every 50 ms, always with the same value, however often
    it is probed. *)
Theorem path_switch_needs_echo v h src value :
  path_run v h -> Forall (fun e => match e with Probed s _ _ _ => wf_peer s | Responded _ _ _ => True end) h -> wf_peer src ->
  (snd (validated v src value) = true ->
     challenged src value h /\ forall s w, snd (validated (fst (validated v src value)) s w) = false) /\
  (forall v1 c now rnd, want_probe v src now rnd = (v1, Some c) -> 0 < now ->
   forall v2 c' now' rnd', want_probe v1 src now' rnd' = (v2, Some c') -> now <= now' < 2 ^ 64 ->
   c' = c /\ now + 50000000 <= now').
Proof.
  intros R Hwf Hsrc. split.
  - unfold validated at 1. split_if; [done |]. bool_hyps. intros _. subst value.
    destruct (path_run_challenged v h Hwf R) as [Hc Hch]; [done |]. split.
    + match goal with H : peer_eqb src _ = true |- _ => by apply peer_eqb_eq in H as -> end.
    + intros s w. unfold validated at 2. match goal with H : pv_active v = true, H' : peer_eqb _ _ = true |- _ => rewrite H, H' end.
      by rewrite Z.eqb_refl.
  - intros v1 c now rnd E Hnow v2 c' now' rnd' E' Hle. unfold want_probe in E.
    assert (peer_eqb src src = true) as Hrefl by (by apply peer_eqb_eq).
    set (u := if negb (pv_active v && peer_eqb (pv_candidate v) src) then _ else v) in E.
    assert (pv_active u && peer_eqb (pv_candidate u) src = true) as Hu.
    { unfold u. destruct (pv_active v && peer_eqb (pv_candidate v) src) eqn:Ek; cbn [negb]; [done |]. cbn. by rewrite Hrefl. }
    destruct (negb (pv_sent_ns u =? 0) && _) in E; [done |]. apply pair_equal_spec in E as [<- [= <-]]. unfold want_probe in E'.
    cbn [pv_active pv_candidate pv_sent_ns pv_challenge] in E'. rewrite Hu in E'. cbn [negb] in E'. cbn [pv_sent_ns] in E'.
    rewrite u64_small in E' by (unfold is_u64; lia). destruct (Z.eqb_spec now 0); [lia |]. cbn [negb andb] in E'.
    destruct (Z.ltb_spec (now' - now) 50000000); [done |]. cbn [pv_challenge] in E'.
    apply pair_equal_spec in E' as [_ [= <-]]. split; [done | lia].
Qed.

Definition peer_example : PeerAddr := mkPeerAddr AF_INET 4433 [192; 0; 2; 10].

Lemma path_switch_needs_echo_witness :
  challenged peer_example 77 [Responded peer_example 5 false; Probed peer_example 1000 77 (Some 77)] /\
  snd (validated (mkPathValidator peer_example 77 1000 false) peer_example 77) = false.
Proof.
  destruct (path_switch_needs_echo (mkPathValidator peer_example 77 1000 true)
    [Responded peer_example 5 false; Probed peer_example 1000 77 (Some 77)] peer_example 77) as [H _].
  - apply (run_response (mkPathValidator peer_example 77 1000 true)); [| reflexivity]. eapply run_probe; [apply run_new | reflexivity].
  - repeat constructor; cbn; unfold is_u16; lia.
  - split; [cbn; unfold is_u16; lia | by left].
  - destruct (H eq_refl) as [Hc Hn]. split; [exact Hc | apply (Hn peer_example 77)].
Defined.
