(* ===== verification/Returns.v ===== *)
(** * Handlers that return

    A small calculus for code in the [res] type: a handler [returns], with a result
    that satisfies a postcondition.  Its rules follow the ways the handlers of both
    lanes are put together, and the lemmas on the helpers of Peer.v say that signing,
    sending and checking control datagrams always return, and what they send. *)

From S2P Require Import Prelude Wire Control Block SessionCrypto Peer.

(** A handler returns, and what it returns satisfies [P]. *)
Definition returns {A} (r : res A) (P : A -> Prop) : Prop := exists a, r = Ok a /\ P a.

Lemma returns_ok {A} (a : A) (P : A -> Prop) : P a -> returns (Ok a) P.
Proof. by exists a. Qed.

Lemma returns_bind {A B} (r : res A) (k : A -> res B) (P : A -> Prop) (Q : B -> Prop) :
  returns r P -> (forall a, P a -> returns (k a) Q) -> returns (res_bind r k) Q.
Proof. intros (a & -> & Ha) H. by apply H. Qed.

Lemma returns_try {A B} (r : res A) (k : A -> res B) e (P : A -> Prop) (Q : B -> Prop) :
  r <> Fault -> (forall a, r = Ok a -> P a) -> (forall a, P a -> returns (k a) Q) -> returns e Q -> returns (try_decode r k e) Q.
Proof. destruct r as [| | a]; cbn [try_decode]; [done | done |]. intros _ HP H _. by apply H, HP. Qed.

(** A decoder in a handler. *)
Lemma returns_decode (M : Type) `{CodecLaws M} {A} (r : res M) dg (k : M -> res A) e Q :
  r = decode dg -> Forall is_u8 dg -> (forall m, wf_msg m -> returns (k m) Q) -> returns e Q -> returns (try_decode r k e) Q.
Proof.
  intros -> Hb Hk He. apply (returns_try _ _ _ wf_msg); [by apply decode_no_fault | | done | done].
  intros m Hm. by apply (decode_sound dg m Hb).
Qed.

Lemma returns_if {A} (b : bool) (x y : res A) (P : A -> Prop) : returns x P -> returns y P -> returns (if b then x else y) P.
Proof. by destruct b. Qed.

Lemma get_u64_total l : 8 <= lenZ l -> exists v rest, get_u64 l = Ok (v, rest).
Proof.
  intros H. do 8 (destruct l as [| ? l]; [unfold lenZ in H; cbn in H; lia |]). by eexists _, _.
Qed.

(** ** Message types *)

(** What a message of type [t] looks like on the wire, whatever follows it. *)
Class MessageType (M : Type) `{WireCodec M} (t : MsgType.MsgType) : Prop :=
  wire_peeks : forall (m : M) tail, wf_msg m -> peek_msg_type (wire m ++ tail) = Ok (MsgType.code t).

Lemma typed_by (M : Type) `{CodecLaws M} t :
  (forall m dg, decode dg = Ok m -> exists P, (t, P) ∈ message_decoders dg /\ P) -> MessageType M t.
Proof. intros HM m tail Hm. destruct (HM m (wire m ++ tail)) as (P & Hin & HP); [by apply decode_wire |]. by eapply decoder_peeks. Qed.

#[export] Instance stream_start_type : MessageType StreamStart MsgType.StreamStart.
Proof. apply typed_by; [typeclasses eauto |]. intros m dg E. eexists. split; [do 2 right; left |]. by exists m, default_stream_start. Qed.

#[export] Instance ack_type : MessageType Ack MsgType.Ack.
Proof. apply typed_by; [typeclasses eauto |]. intros m dg E. eexists. split; [do 3 right; left |]. by exists m. Qed.

#[export] Instance nack_type : MessageType Nack MsgType.Nack.
Proof. apply typed_by; [typeclasses eauto |]. intros m dg E. eexists. split; [do 4 right; left |]. by exists m, default_nack. Qed.

#[export] Instance stream_close_type : MessageType StreamClose MsgType.StreamClose.
Proof. apply typed_by; [typeclasses eauto |]. intros m dg E. eexists. split; [do 5 right; left |]. by exists m. Qed.

#[export] Instance resume_ranges_type : MessageType ResumeRanges MsgType.ResumeRanges.
Proof. apply typed_by; [typeclasses eauto |]. intros m dg E. eexists. split; [do 6 right; left |]. by exists m, default_resume_ranges. Qed.

#[export] Instance digest_type : MessageType DigestMessage MsgType.FileDigest.
Proof. apply typed_by; [typeclasses eauto |]. intros m dg E. eexists. split; [do 7 right; left |]. by exists m. Qed.

#[export] Instance retry_type : MessageType Retry MsgType.Retry.
Proof. apply typed_by; [typeclasses eauto |]. intros m dg E. eexists. split; [do 8 right; left |]. by exists m. Qed.

#[export] Instance data_type : MessageType DataDatagram MsgType.Data.
Proof. apply typed_by; [typeclasses eauto |]. intros m dg E. eexists. split; [left |]. by exists m. Qed.

#[export] Instance path_challenge_type : MessageType PathProbe (H := path_probe_codec MsgType.PathChallenge) MsgType.PathChallenge.
Proof.
  apply (typed_by PathProbe (H0 := path_probe_laws MsgType.PathChallenge (or_introl eq_refl))). intros m dg E. eexists. split; [do 9 right; left |]. by exists m.
Qed.

#[export] Instance path_response_type : MessageType PathProbe (H := path_probe_codec MsgType.PathResponse) MsgType.PathResponse.
Proof.
  apply (typed_by PathProbe (H0 := path_probe_laws MsgType.PathResponse (or_intror eq_refl))). intros m dg E. eexists. split; [do 10 right; left |]. by exists m.
Qed.

(** ** Signing and sending *)

Section Sending.
Context `{B : CryptoBackend}.

Lemma control_open_total a dg : returns (control_open a dg) (fun _ => True).
Proof.
  unfold control_open, kControlTrailerLen, kAeadTagLen. destruct (lc_key _); [| by apply returns_ok].
  destruct (_ || _) eqn:E; [by apply returns_ok |].
  assert (exists v rest, get_u64 (drop (Z.to_nat (lenZ dg - (8 + 16))) dg) = Ok (v, rest)) as (v & rest & ->).
  { apply orb_false_elim in E as [E _]. apply get_u64_total. rewrite lenZ_drop; lia. }
  cbn [res_bind]. destruct (gcm_decrypt _ _ _ _ _); by apply returns_ok.
Qed.

Lemma ctl_authentic_total auth dg : returns (ctl_authentic auth dg) (fun _ => True).
Proof.
  unfold ctl_authentic. destruct auth; [| by apply returns_ok]. eapply returns_bind; [apply control_open_total |].
  intros ? _. by apply returns_ok.
Qed.

Lemma send_ctl_total auth enc cap to : returns (enc (replicate (Z.to_nat cap) 0)) (fun _ => True) -> returns (send_ctl auth enc cap to) (fun _ => True).
Proof.
  intros H. unfold send_ctl. eapply returns_bind; [exact H |]. intros [buf n] _. destruct (seal_ctl _ _ _) as [[a b] m]. by apply returns_ok.
Qed.

Lemma send_msg_total (M : Type) `{CodecLaws M} (m : M) auth enc cap to :
  enc = encode m -> wf_msg m -> returns (send_ctl auth enc cap to) (fun _ => True).
Proof.
  intros -> Hm. apply send_ctl_total. destruct (codec_encodes_safely M m (replicate (Z.to_nat cap) 0) Hm) as (buf & n & -> & _). by apply returns_ok.
Qed.

Lemma send_stream_close_total auth to lane nonce reason :
  is_u16 lane -> is_u64 nonce -> is_u8 reason -> returns (send_stream_close auth to lane nonce reason) (fun _ => True).
Proof.
  intros. unfold send_stream_close. eapply returns_bind; [by apply (send_msg_total StreamClose (mkStreamClose lane nonce reason)) |].
  intros [a out] _. by apply returns_ok.
Qed.

Lemma send_path_probe_total auth to type lane nonce value :
  type = MsgType.PathChallenge \/ type = MsgType.PathResponse ->
  is_u16 lane -> is_u64 nonce -> is_u64 value -> returns (send_path_probe auth to type lane nonce value) (fun _ => True).
Proof.
  intros Ht ? ? ?. unfold send_path_probe. by apply (send_msg_total PathProbe (H := path_probe_codec type) (H0 := path_probe_laws type Ht) (mkPathProbe lane nonce value)).
Qed.

Lemma peek_total dg : peek_msg_type dg <> Fault.
Proof.
  unfold peek_msg_type. change kOuterHeaderSize with 2. destruct (Z.ltb_spec (lenZ dg) 2); [done |].
  destruct (nthZ_Some dg 0 ltac:(lia)) as [v ->], (nthZ_Some dg 1 ltac:(lia)) as [t ->]. by destruct (negb _).
Qed.

(** What checking a signature depends on: sealing leaves it alone. *)
Definition auth_view (auth : option ControlAuth) : option (LaneCipher * Z * Z) := (fun a => (ca_cipher a, ca_lane a, ca_dir a)) <$> auth.

Lemma ctl_authentic_view auth auth' dg : auth_view auth = auth_view auth' -> ctl_authentic auth dg = ctl_authentic auth' dg.
Proof.
  unfold auth_view. destruct auth as [a |], auth' as [a' |]; cbn; try done. intros [= E1 E2 E3]. unfold control_open. by rewrite E1, E2, E3.
Qed.

Lemma seal_ctl_view auth buf n auth' buf' n' : seal_ctl auth buf n = (auth', buf', n') -> auth_view auth' = auth_view auth.
Proof.
  unfold seal_ctl. destruct auth as [a |]; [| by intros [= <- _ _]]. destruct (n =? 0); [by intros [= <- _ _] |].
  unfold control_seal. destruct (lc_key _); [| by intros [= <- _ _]]. destruct (_ || _); [by intros [= <- _ _] |].
  destruct (gcm_encrypt _ _ _ _) as [[? ?] |]; by intros [= <- _ _].
Qed.

(** What is sent is the encoded message, with a trailer if the lane is keyed. *)
Lemma seal_ctl_prefix auth buf n auth' buf' n' :
  0 <= n <= lenZ buf -> seal_ctl auth buf n = (auth', buf', n') -> n' <> 0 -> exists tail, take (Z.to_nat n') buf' = take (Z.to_nat n) buf ++ tail.
Proof.
  intros Hn E Hn'. unfold seal_ctl in E. destruct auth as [a |]; [| injection E as <- <- <-; exists []; by rewrite app_nil_r].
  destruct (Z.eqb_spec n 0) as [-> |]; [injection E as <- <- <-; done |].
  unfold control_seal, kControlTrailerLen, kAeadTagLen in E. destruct (lc_key _); [| by injection E as <- <- <-].
  split_if_in E; [by injection E as <- <- <- |]. destruct (gcm_encrypt _ _ _ _) as [[ct tag] |]; [| by injection E as <- <- <-].
  injection E as <- <- <-. set (dg := splice buf n _). unfold splice. rewrite take_app_ge by (rewrite length_take; lia).
  assert (take (Z.to_nat (n + 8)) dg = take (Z.to_nat n) buf ++ take 8 (drop (Z.to_nat n) dg)) as ->.
  { rewrite <- (take_drop (Z.to_nat n) (take _ dg)), take_take, skipn_firstn_comm. f_equal; [| f_equal; lia].
    subst dg. unfold splice. rewrite Nat.min_l, take_app_le by (rewrite ?length_take; unfold lenZ in *; lia).
    by rewrite take_take, Nat.min_id. }
  rewrite <- app_assoc. by eexists.
Qed.

(** What is left of an encoded message after signing: the message with a trailer, or
    nothing. *)
Lemma seal_encoded (M : Type) `{CodecLaws M} (m : M) auth out buf n auth' buf' n' :
  wf_msg m -> encode m out = Ok (buf, n) -> seal_ctl auth buf n = (auth', buf', n') ->
  n' = 0 \/ exists tail, take (Z.to_nat n') buf' = wire m ++ tail.
Proof.
  intros Hm E Es. destruct (Z.leb_spec (lenZ (wire m)) (lenZ out)).
  - rewrite encode_wire in E by done. injection E as <- <-. destruct (Z.eq_dec n' 0); [by left |]. right.
    apply seal_ctl_prefix in Es as [tail Et]; [| | done].
    + exists tail. by rewrite Et, take_all_lenZ.
    + rewrite lenZ_app. pose proof (lenZ_nonneg (wire m)). pose proof (lenZ_nonneg (drop (length (wire m)) out)). lia.
  - rewrite encode_too_small in E by done. injection E as <- <-. left. unfold seal_ctl in Es. cbn [Z.eqb] in Es. destruct auth; by injection Es as _ _ <-.
Qed.

Lemma send_msg_emits (M : Type) `{CodecLaws M} (m : M) auth enc cap to :
  enc = encode m -> wf_msg m ->
  returns (send_ctl auth enc cap to) (fun r =>
    auth_view (fst r) = auth_view auth /\ Forall (fun d => fst d = to /\ exists tail, snd d = wire m ++ tail) (snd r)).
Proof.
  intros -> Hm. unfold send_ctl. set (out := replicate (Z.to_nat cap) 0). destruct (codec_encodes_safely M m out Hm) as (buf & n & E & _).
  rewrite E. cbn [res_bind]. destruct (seal_ctl auth buf n) as [[a buf'] n'] eqn:Es. apply returns_ok. cbn [fst snd].
  split; [by eapply seal_ctl_view |]. destruct (Z.eqb_spec n' 0); [constructor |].
  destruct (seal_encoded M m auth out buf n a buf' n' Hm E Es) as [? | [tail Et]]; [done |]. constructor; [| constructor]. split; [done |]. by exists tail.
Qed.

(** The same, with the type of what is sent. *)
Definition typed (t : MsgType.MsgType) (to : PeerAddr) (out : list datagram) : Prop :=
  Forall (fun d => fst d = to /\ peek_msg_type (snd d) = Ok (MsgType.code t)) out.

Lemma send_msg_typed (M : Type) `{CodecLaws M} t `{!MessageType M t} (m : M) auth enc cap to :
  enc = encode m -> wf_msg m -> returns (send_ctl auth enc cap to) (fun r => auth_view (fst r) = auth_view auth /\ typed t to (snd r)).
Proof.
  intros He Hm. destruct (send_msg_emits M m auth enc cap to He Hm) as (r & E & Hv & Ho). exists r. split; [done |]. split; [done |].
  eapply Forall_impl; [exact Ho |]. intros d [Hd [tail ->]]. split; [done |]. by apply wire_peeks.
Qed.

Lemma send_stream_close_typed auth to lane nonce reason :
  is_u16 lane -> is_u64 nonce -> is_u8 reason ->
  returns (send_stream_close auth to lane nonce reason) (fun r => auth_view (fst r) = auth_view auth /\ typed MsgType.StreamClose to (snd r)).
Proof.
  intros. unfold send_stream_close. eapply returns_bind; [by apply (send_msg_typed StreamClose MsgType.StreamClose (mkStreamClose lane nonce reason)) |].
  intros [a out] [Hv Ho]. apply returns_ok. split; [done |]. by repeat (apply Forall_app; split).
Qed.

Lemma send_path_probe_typed auth to type lane nonce value :
  type = MsgType.PathChallenge \/ type = MsgType.PathResponse -> is_u16 lane -> is_u64 nonce -> is_u64 value ->
  returns (send_path_probe auth to type lane nonce value) (fun r => auth_view (fst r) = auth_view auth /\ typed type to (snd r)).
Proof.
  intros Ht Hl Hn Hv. unfold send_path_probe. set (m := mkPathProbe lane nonce value).
  assert (MessageType PathProbe (H := path_probe_codec type) type) as T by (destruct Ht as [-> | ->]; [exact path_challenge_type | exact path_response_type]).
  by apply (send_msg_typed PathProbe (H := path_probe_codec type) (H0 := path_probe_laws type Ht) type m).
Qed.

End Sending.
