(* ===== verification/Status.v ===== *)
(** * Statuses, configuration and statistics of a transfer

    Models the types of [src/include/fuse/transfer.hpp] and the parts of
    [src/src/proto/transfer.cpp] that combine the lanes' results: [severity] and
    [worst], [fill_stats], the progress snapshot of [wait_for_lanes], and the
    configuration checks.

    Durations are kept in nanoseconds; the division that turns them into seconds is
    floating point and left out. *)

From S2P Require Import Prelude.
From stdpp Require Import strings.

#[local] Open Scope Z_scope.

Inductive TransferStatus :=
| StOk | ConfigError | SocketError | Timeout | StAuthFailed | Incomplete | Unsupported | ResourceLimit
| Cancelled | PeerAborted | StIoError | VerifyFailed | VersionMismatch.

#[export] Instance TransferStatus_eq_dec : EqDecision TransferStatus.
Proof. solve_decision. Defined.

(** The fields the modelled code reads. *)
Record TransferConfig := mkTransferConfig {
  cf_base_port : Z;
  cf_lanes : Z;
  cf_block_size : Z;
  cf_pre_shared_key : bytes;
  cf_timeout_ms : Z;
  cf_connect_timeout_ms : Z;
  cf_writer_threads : Z;
  cf_ring_slots : Z;
}.

Record LaneResult := mkLaneResult {
  lr_bytes : Z;
  lr_retransmits : Z;
  lr_auth_failures : Z;
  lr_final_block : Z;
  lr_start_ns : Z;
  lr_end_ns : Z;
  lr_status : TransferStatus;
  lr_expected : Z;
  lr_started : bool;
  lr_skipped : Z;
  lr_finished : bool;
}.

Definition new_lane_result : LaneResult := mkLaneResult 0 0 0 0 0 0 Incomplete 0 false 0 false.

(** ** The worst status *)

Definition severity (s : TransferStatus) : Z :=
  match s with
  | StOk => 0
  | Incomplete => 1
  | Timeout => 2
  | PeerAborted => 3
  | Cancelled => 4
  | StAuthFailed => 5
  | VerifyFailed => 6
  | ResourceLimit => 7
  | StIoError => 8
  | SocketError => 9
  | VersionMismatch => 10
  | ConfigError => 11
  | Unsupported => 11
  end.

Definition worst (lanes : list LaneResult) : TransferStatus :=
  foldl (fun st l => if severity st <? severity (lr_status l) then lr_status l else st) StOk lanes.

Definition to_string (s : TransferStatus) : string :=
  match s with
  | StOk => "ok"
  | ConfigError => "configuration error"
  | SocketError => "socket error"
  | Timeout => "timed out"
  | StAuthFailed => "authentication failed"
  | Incomplete => "incomplete transfer"
  | Unsupported => "unsupported (built without crypto)"
  | ResourceLimit => "peer's claimed size could not be allocated"
  | Cancelled => "cancelled"
  | PeerAborted => "peer aborted the transfer"
  | StIoError => "could not write the output"
  | VerifyFailed => "resumed file failed verification (partial copy discarded; run again)"
  | VersionMismatch => "the peer speaks a different Fuse protocol version"
  end.

(** ** Statistics *)

Record TransferStats := mkTransferStats {
  ts_bytes : Z;
  ts_retransmits : Z;
  ts_auth_failures : Z;
  ts_duration_ns : Z;
  ts_final_block_size : Z;
  ts_resumed_bytes : Z;
}.

(** The loop of [fill_stats]: first start, last end, retransmissions, failures,
    largest block. *)
Definition stats_step (acc : Z * Z * Z * Z * Z) (l : LaneResult) : Z * Z * Z * Z * Z :=
  let '(first, last, rtx, auth, blk) := acc in
  (if negb (lr_start_ns l =? 0) then Z.min first (lr_start_ns l) else first,
   Z.max last (lr_end_ns l), u64 (rtx + lr_retransmits l), u64 (auth + lr_auth_failures l), Z.max blk (lr_final_block l)).

Definition fill_stats (lanes : list LaneResult) (bytes resumed_bytes : Z) : TransferStats :=
  let '(first, last, rtx, auth, blk) := foldl stats_step (2 ^ 64 - 1, 0, 0, 0, 0) lanes in
  mkTransferStats bytes rtx auth
    (if negb (first =? 2 ^ 64 - 1) && (first <? last) then last - first else 0) (u16 blk) resumed_bytes.

(** ** Progress *)

Record TransferProgress := mkTransferProgress {
  tp_bytes_done : Z;
  tp_bytes_total : Z;
  tp_retransmits : Z;
  tp_lanes_done : Z;
  tp_lanes_total : Z;
}.

Definition progress_step (acc : Z * Z * Z * Z * bool) (r : LaneResult) : Z * Z * Z * Z * bool :=
  let '(bytes, rtx, lanes_done, expected, all_started) := acc in
  let bytes := u64 (bytes + lr_bytes r) in
  let rtx := u64 (rtx + lr_retransmits r) in
  let lanes_done := if lr_finished r then u16 (lanes_done + 1) else lanes_done in
  if lr_started r then (bytes, rtx, lanes_done, u64 (expected + lr_expected r), all_started)
  else (bytes, rtx, lanes_done, expected, false).

(** [sender_total] is known to the sender, [receiver_total] once a lane has claimed it. *)
Definition snapshot (results : list LaneResult) (sender_total receiver_total : option Z) : TransferProgress :=
  let '(bytes, rtx, lanes_done, expected, all_started) := foldl progress_step (0, 0, 0, 0, true) results in
  let total :=
    if all_started then expected
    else match sender_total, receiver_total with
         | Some t, _ => t
         | None, Some t => if negb (t =? 2 ^ 64 - 1) then t else 0
         | None, None => 0
         end in
  mkTransferProgress bytes total rtx lanes_done (u16 (lenZ results)).

(** [all_done] of the waiting loop. *)
Definition lanes_finished (results : list LaneResult) : bool := forallb lr_finished results.

(** ** Configuration checks *)

Definition kMinPreSharedKeyLen : Z := 16.

Definition ports_overflow (cfg : TransferConfig) : bool := 65535 <? u32 (u32 (cf_base_port cfg + cf_lanes cfg) - 1).

Definition psk_too_short (cfg : TransferConfig) : bool :=
  negb (lenZ (cf_pre_shared_key cfg) =? 0) && (lenZ (cf_pre_shared_key cfg) <? kMinPreSharedKeyLen).

Definition check_receive_config (cfg : TransferConfig) (crypto_available : bool) : TransferStatus :=
  if (cf_lanes cfg =? 0) || (cf_base_port cfg =? 0) || ports_overflow cfg || psk_too_short cfg then ConfigError
  else if negb (lenZ (cf_pre_shared_key cfg) =? 0) && negb crypto_available then Unsupported
  else StOk.

(** A configuration as C++ can hold it. *)
Definition wf_config (cfg : TransferConfig) : Prop :=
  is_u16 (cf_base_port cfg) /\ is_u16 (cf_lanes cfg) /\ is_u16 (cf_block_size cfg) /\ Forall is_u8 (cf_pre_shared_key cfg) /\
  is_u32 (cf_timeout_ms cfg) /\ is_u32 (cf_connect_timeout_ms cfg) /\ is_u16 (cf_writer_threads cfg) /\ is_u32 (cf_ring_slots cfg).

(** ** Lemmas *)

Lemma worst_from st lanes :
  let w := foldl (fun st l => if severity st <? severity (lr_status l) then lr_status l else st) st lanes in
  severity st <= severity w /\ (forall l, l ∈ lanes -> severity (lr_status l) <= severity w) /\
  (w = st \/ exists l, l ∈ lanes /\ lr_status l = w).
Proof.
  revert st. induction lanes as [| l lanes IH]; intros st; cbn [foldl]; cbv zeta.
  { split_and!; [lia | by intros l []%elem_of_nil | by left]. }
  specialize (IH (if severity st <? severity (lr_status l) then lr_status l else st)). cbv zeta in IH.
  set (w := foldl _ _ lanes) in *. destruct IH as (H1 & H2 & H3).
  destruct (Z.ltb_spec (severity st) (severity (lr_status l))) as [Hlt | Hge].
  - split_and!; [lia | intros l' [-> | Hl]%elem_of_cons; [lia | by apply H2] |].
    destruct H3 as [-> | (l' & Hl & <-)]; right; [exists l | exists l']; split; (done || by constructor).
  - split_and!; [lia | intros l' [-> | Hl]%elem_of_cons; [lia | by apply H2] |].
    destruct H3 as [-> | (l' & Hl & <-)]; [by left | right; exists l'; split; [by right | done]].
Qed.

Lemma severity_zero s : severity s = 0 -> s = StOk.
Proof. by destruct s. Qed.

Lemma severity_nonneg s : 0 <= severity s.
Proof. by destruct s. Qed.

Lemma worst_ok lanes : worst lanes = StOk <-> Forall (fun l => lr_status l = StOk) lanes.
Proof.
  destruct (worst_from StOk lanes) as (_ & H2 & _). fold (worst lanes) in H2. rewrite list.Forall_forall. split.
  - intros E l Hl. specialize (H2 l Hl). rewrite E in H2. pose proof (severity_nonneg (lr_status l)).
    apply severity_zero. cbn [severity] in H2. lia.
  - intros H. destruct (worst_from StOk lanes) as (_ & _ & [E | (l & Hl & E)]); [done |].
    unfold worst. rewrite <- E. by apply H.
Qed.
