(* ===== verification/Sinks.v ===== *)
(** * Sinks

    Models the interface [Sink] of [src/src/proto/transfer.cpp] as far as the
    receive pipeline's writers use it, with its two implementations: [MemorySink],
    which copies into the caller's vector, and [FileSink] (see FileSink.v). *)

From S2P Require Import Prelude Wire Control Ranges FileSink.

(** [sink_data] is the output so far, as long as the transfer; [sink_fresh] holds
    before [prepare] and [sink_ok] once it has succeeded. *)
Class Sink := {
  sink : Type;
  sink_fresh : sink -> Prop;
  sink_ok : sink -> Prop;
  sink_data : sink -> bytes;
  sink_prepare : sink -> Z -> Z -> res (sink * bool);
  sink_resumed : sink -> bool;
  sink_resumed_bytes : sink -> Z;
  sink_missing : sink -> Z -> Z -> list ResumeRange;
  sink_write : sink -> Z -> list bytes -> res (sink * bool);
  sink_checkpoint : sink -> res sink;
}.

(** The base class's [missing]: everything. *)
Definition missing_all (from to : Z) : list ResumeRange := if from <? to then [mkResumeRange from (to - from)] else [].

(** A write inside the output puts a prefix of its bytes there, all of them if it
    reports success, and changes nothing else; a checkpoint leaves the output alone. *)
Class SinkLaws (S : Sink) := {
  sink_write_inside s off iov :
    sink_ok s -> 0 <= off -> off + lenZ (mjoin iov) <= lenZ (sink_data s) ->
    exists s' ok k, sink_write s off iov = Ok (s', ok) /\ sink_ok s' /\ 0 <= k <= lenZ (mjoin iov) /\
      sink_data s' = splice (sink_data s) off (take (Z.to_nat k) (mjoin iov)) /\
      (ok = true -> k = lenZ (mjoin iov));
  sink_prepare_result s total file_id :
    sink_fresh s -> is_u64 total -> is_u64 file_id ->
    exists s' ok, sink_prepare s total file_id = Ok (s', ok) /\
      (ok = true -> sink_ok s' /\ lenZ (sink_data s') = total /\ total < 2 ^ 63);
  sink_missing_ordered s from to :
    sink_ok s -> 0 <= from <= to -> to <= lenZ (sink_data s) -> ordered from (sink_missing s from to) to;
  sink_checkpoint_keeps s : sink_ok s -> exists s', sink_checkpoint s = Ok s' /\ sink_ok s' /\ sink_data s' = sink_data s;
  sink_checkpoint_fresh s s' : sink_fresh s -> sink_checkpoint s = Ok s' -> sink_fresh s';
}.

Lemma missing_all_ordered from to : from <= to -> ordered from (missing_all from to) to.
Proof. intros. unfold missing_all. destruct (Z.ltb_spec from to); cbn [ordered rr_offset rr_length]; lia. Qed.

(** ** The memory sink *)

Module MemorySink.

(** [assign(total_bytes, 0)]: refused beyond the largest vector, or when memory runs
    out. *)
Definition prepare (total_bytes : Z) (alloc_ok : bool) : bytes * bool :=
  if alloc_ok && (total_bytes <? 2 ^ 63) then (replicate (Z.to_nat total_bytes) 0, true) else ([], false).

(** The [memcpy] loop. *)
Fixpoint write_loop (out : bytes) (p : Z) (iov : list bytes) : res bytes :=
  match iov with
  | [] => Ok out
  | part :: iov =>
      if lenZ out <? p + lenZ part then Fault
      else write_loop (splice out p part) (p + lenZ part) iov
  end.

Definition write (out : bytes) (offset : Z) (iov : list bytes) : res (bytes * bool) :=
  res_bind (write_loop out offset iov) (fun out => Ok (out, true)).

Definition finish (out : bytes) (e : End) : bytes := match e with Commit => out | _ => [] end.

(** The vector, and whether it can be allocated. *)
Definition sink : Sink := {|
  Sinks.sink := bytes * bool;
  sink_fresh _ := True;
  sink_ok _ := True;
  sink_data := fst;
  sink_prepare s total _ := let '(out, ok) := prepare total (snd s) in Ok ((out, snd s), ok);
  sink_resumed _ := false;
  sink_resumed_bytes _ := 0;
  sink_missing _ := missing_all;
  sink_write s off iov := res_bind (write (fst s) off iov) (fun '(out, ok) => Ok ((out, snd s), ok));
  sink_checkpoint := Ok;
|}.

Lemma write_loop_splice out p iov :
  0 <= p -> p + lenZ (mjoin iov) <= lenZ out -> write_loop out p iov = Ok (splice out p (mjoin iov)).
Proof.
  revert out p. induction iov as [| part iov IH]; intros out p Hp Hl; cbn [write_loop]; [by rewrite splice_nil |].
  change (mjoin (part :: iov)) with (part ++ mjoin iov) in *.
  rewrite lenZ_app in Hl. pose proof (lenZ_nonneg part). pose proof (lenZ_nonneg (mjoin iov)).
  destruct (Z.ltb_spec (lenZ out) (p + lenZ part)); [lia |].
  rewrite IH by (rewrite ?splice_length by lia; lia). by rewrite splice_splice by lia.
Qed.

#[export] Instance sink_laws : SinkLaws sink.
Proof.
  split; cbn [Sinks.sink sink_ok sink_data sink_write sink_prepare sink_missing sink_checkpoint sink].
  - intros [out a] off iov _ Ho Hl. cbn [fst snd] in *. exists (splice out off (mjoin iov), a), true, (lenZ (mjoin iov)).
    unfold write. rewrite write_loop_splice by done. pose proof (lenZ_nonneg (mjoin iov)). cbn [res_bind fst].
    rewrite firstn_all2 by (unfold lenZ; lia). split_and!; (done || lia).
  - intros [out a] total file_id _ Ht _. unfold prepare. cbn [snd]. destruct (a && (total <? 2 ^ 63)) eqn:E; bool_hyps.
    + exists (replicate (Z.to_nat total) 0, a), true. split; [done |]. intros _. cbn [fst]. unfold lenZ. rewrite length_replicate.
      unfold is_u64 in Ht. split_and!; (done || lia).
    + by exists ([], a), false.
  - intros s from to _ Hft _. apply missing_all_ordered. lia.
  - intros s _. by exists s.
  - done.
Qed.

End MemorySink.

(** ** The file sink *)

(** The sink with what the system calls to come will report: the allocation and the
    two [ftruncate]s of [prepare], the calls of each write, and the first
    [fdatasync] and the [pwrite]s of each checkpoint (one that is not listed fails). *)
Record file_state := mkFileState {
  fs_sink : FileSink;
  fs_prepare : bool * bool * bool;
  fs_writes : list (list io);
  fs_checkpoints : list (bool * list io);
}.

Definition file_prepare (s : file_state) (total file_id : Z) : res (file_state * bool) :=
  let '(alloc_ok, clear_ok, size_ok) := fs_prepare s in
  res_bind (prepare (fs_sink s) total file_id alloc_ok clear_ok size_ok) (fun '(k, ok) =>
  Ok (mkFileState k (fs_prepare s) (fs_writes s) (fs_checkpoints s), ok)).

Definition file_write (s : file_state) (off : Z) (iov : list bytes) : res (file_state * bool) :=
  let calls := default [] (head (fs_writes s)) in
  res_bind (write (fs_sink s) off iov (calls ++ [IoError])) (fun '(k, ok) =>
  Ok (mkFileState k (fs_prepare s) (tail (fs_writes s)) (fs_checkpoints s), ok)).

Definition file_checkpoint (s : file_state) : res file_state :=
  let '(sync_ok, calls) := default (false, []) (head (fs_checkpoints s)) in
  res_bind (checkpoint (fs_sink s) sync_ok (calls ++ [IoError])) (fun k =>
  Ok (mkFileState k (fs_prepare s) (fs_writes s) (tail (fs_checkpoints s)))).

(** A sink as [open] leaves it. *)
Definition opened (s : FileSink) : Prop :=
  fk_resumed s = false /\ fk_prepared s = false /\ forall p, fk_prior s = Some p -> pr_total p <= lenZ (fk_file s).

Definition file_sink : Sink := {|
  sink := file_state;
  sink_fresh s := opened (fs_sink s);
  sink_ok s := wf_sink (fs_sink s) /\ Forall is_u64 (fk_counters (fs_sink s)) /\ fk_total (fs_sink s) <= lenZ (fk_file (fs_sink s));
  sink_data s := take (Z.to_nat (fk_total (fs_sink s))) (fk_file (fs_sink s));
  sink_prepare := file_prepare;
  sink_resumed s := fk_resumed (fs_sink s);
  sink_resumed_bytes s := fk_resumed_bytes (fs_sink s);
  sink_missing s from to := missing (fs_sink s) from to [];
  sink_write := file_write;
  sink_checkpoint := file_checkpoint;
|}.

Lemma open_sink_opened existed file : opened (open_sink existed file).
Proof.
  split; [done |]. split; [done |]. intros p. cbn [open_sink fk_prior fk_file]. destruct existed; [| done]. unfold load_trailer.
  repeat (split_if; [done |]). destruct (get_footer _) as [| | [[[[[id total] chunk] n] sum] rest]]; [done | done |].
  repeat (split_if; [done |]). intros [= <-]. cbn [pr_total]. bool_hyps. lia.
Qed.

Lemma write_loop_returns calls file off iov n :
  exists r, write_loop (calls ++ [IoError]) file off iov n = Ok r.
Proof.
  revert file off iov n. induction calls as [| [| | k] calls IH]; intros file off iov n; cbn [app write_loop];
    (destruct (n <=? 0); [by eexists |]); try by eexists.
  - apply IH.
  - destruct (_ <=? 0); [by eexists | apply IH].
Qed.

Lemma fwrite_take file off bs n :
  0 <= off -> off + lenZ bs <= n -> n <= lenZ file ->
  take (Z.to_nat n) (fwrite file off bs) = splice (take (Z.to_nat n) file) off bs /\ lenZ file <= lenZ (fwrite file off bs).
Proof.
  intros Ho Hb Hn. pose proof (lenZ_nonneg bs). rewrite fwrite_splice by lia. split; [| by rewrite splice_length by lia].
  apply list_eq. intros i. destruct (Nat.lt_ge_cases i (Z.to_nat n)) as [Hi | Hi].
  - rewrite lookup_take_lt, !splice_lookup by (rewrite ?lenZ_take by lia; lia). by rewrite lookup_take_lt.
  - rewrite !lookup_ge_None_2; [done | |].
    + pose proof (splice_length (take (Z.to_nat n) file) off bs Ho) as Hs. rewrite lenZ_take in Hs by lia. unfold lenZ in *. lia.
    + rewrite length_take. lia.
Qed.

Lemma file_write_inside s off iov :
  sink_ok (Sink := file_sink) s -> 0 <= off -> off + lenZ (mjoin iov) <= lenZ (sink_data (Sink := file_sink) s) ->
  exists s' ok k, file_write s off iov = Ok (s', ok) /\ sink_ok (Sink := file_sink) s' /\ 0 <= k <= lenZ (mjoin iov) /\
    sink_data (Sink := file_sink) s' = splice (sink_data (Sink := file_sink) s) off (take (Z.to_nat k) (mjoin iov)) /\
    (ok = true -> k = lenZ (mjoin iov)).
Proof.
  cbn [sink_ok sink_data file_sink]. destruct s as [s pr outcomes cps]. cbn [fs_sink fs_writes]. intros (W & Hu & Hf) Ho Hl.
  pose proof (wk_total _ W) as Ht. unfold kOffMax in Ht. rewrite lenZ_take in Hl by lia. pose proof (lenZ_nonneg (mjoin iov)).
  unfold file_write, write. cbn [fs_sink fs_writes fs_prepare]. set (calls := default [] (head outcomes)).
  destruct (write_loop_returns calls (fk_file s) off iov (lenZ (mjoin iov))) as [[file ok] Ew]. rewrite Ew. cbn [res_bind].
  apply write_loop_spec in Ew as (k & Hk & -> & Hfull); [| lia | lia].
  destruct (fwrite_take (fk_file s) off (take (Z.to_nat k) (mjoin iov)) (fk_total s)) as [Hd Hlen];
    [lia | rewrite lenZ_take by lia; lia | lia |].
  set (s1 := set_file s (fwrite (fk_file s) off (take (Z.to_nat k) (mjoin iov)))).
  assert (wf_sink s1) as W1 by (destruct W; by split).
  destruct ok; cbn [negb].
  - destruct (count_bytes_spec (S (Z.to_nat (lenZ (mjoin iov)))) s1 off (off + lenZ (mjoin iov))) as (cs & -> & Hcs & Hcu & _);
      [apply (wk_chunk _ W1) | apply (wk_counters _ W1) | done | lia | lia |]. cbn [res_bind].
    exists (mkFileState (set_counters s1 cs) pr (tail outcomes) cps), true, k. cbn [fs_sink].
    assert (wf_sink (set_counters s1 cs)) by (destruct W1; by split).
    unfold s1 in *. cbn [set_counters set_file fk_total fk_file fk_counters] in *. split_and!; (done || lia).
  - exists (mkFileState s1 pr (tail outcomes) cps), false, k. cbn [res_bind fs_sink].
    unfold s1 in *. cbn [set_file fk_total fk_file fk_counters] in *. split_and!; (done || lia).
Qed.

Lemma file_prepare_result s total file_id :
  opened (fs_sink s) -> is_u64 total -> is_u64 file_id ->
  exists s' ok, file_prepare s total file_id = Ok (s', ok) /\
    (ok = true -> sink_ok (Sink := file_sink) s' /\ lenZ (sink_data (Sink := file_sink) s') = total /\ total < 2 ^ 63).
Proof.
  intros (Hres & _ & Hop) Ht Hid. unfold file_prepare. destruct (fs_prepare s) as [[alloc_ok clear_ok] size_ok] eqn:Epr. unfold prepare.
  unfold is_u64 in Ht. destruct (Z.ltb_spec kOffMax total) as [| Hmax]; [by eexists _, false |].
  destruct (chunk_for_ok total) as (chunk & Ec & Hc); [lia |]. rewrite Ec. cbn [res_bind].
  destruct alloc_ok; cbn [negb]; [| by eexists _, false]. rewrite prepare_nchunks by lia.
  destruct (nchunks_bounds total chunk ltac:(lia) Hc) as [Hn _]. set (n := (total + chunk - 1) / chunk) in *.
  assert (forall k, sink_ok (Sink := file_sink) k -> fk_total (fs_sink k) = total ->
    sink_ok (Sink := file_sink) k /\ lenZ (sink_data (Sink := file_sink) k) = total /\ total < 2 ^ 63) as Hdone.
  { intros k Hk Et. split; [done |]. destruct Hk as (_ & _ & Hf). cbn [sink_data file_sink]. rewrite Et in *. rewrite lenZ_take by lia.
    unfold kOffMax in Hmax. lia. }
  assert (forall file prior rb counters resumed, lenZ counters = n -> Forall is_u64 counters -> total <= lenZ file ->
    let k := mkFileState (mkFileSink file (fk_existed (fs_sink s)) prior true resumed rb file_id total chunk n counters) (fs_prepare s) (fs_writes s) (fs_checkpoints s) in
    sink_ok (Sink := file_sink) k /\ lenZ (sink_data (Sink := file_sink) k) = total /\ total < 2 ^ 63) as Hmk.
  { intros file prior rb counters resumed Hl Hu Hf k. apply Hdone; [| done]. cbn [sink_ok file_sink k fs_sink fk_counters fk_total fk_file].
    split_and!; [split; cbn; (done || lia) | done | done]. }
  assert (lenZ (replicate (Z.to_nat n) 0) = n /\ Forall is_u64 (replicate (Z.to_nat n) 0)) as [Hz1 Hz2].
  { unfold lenZ. rewrite length_replicate. split; [lia |]. apply Forall_replicate. unfold is_u64. lia. }
  assert (lenZ (ftruncate (ftruncate (fk_file (fs_sink s)) 0) total) = total) as Htr by (apply lenZ_ftruncate; lia).
  destruct (fk_prior (fs_sink s)) as [p |] eqn:Ep.
  - destruct (same_file p file_id total chunk n) eqn:Es.
    + unfold same_file in Es. bool_hyps. specialize (Hop p eq_refl).
      destruct (adopt_spec p chunk total n (fk_resumed_bytes (fs_sink s))) as (Ha1 & Ha2 & _); [unfold is_u64; lia | lia |].
      destruct (for_up _ _ _ _) as [cs b]. cbn [fst res_bind] in *. eexists _, true. split; [reflexivity |]. intros _.
      rewrite <- Epr. apply Hmk; (done || lia).
    + destruct clear_ok; cbn [negb res_bind]; [| by eexists _, false]. destruct size_ok; cbn [negb res_bind]; [| by eexists _, false].
      eexists _, true. split; [reflexivity |]. intros _. rewrite <- Epr. apply Hmk; (done || lia).
  - destruct clear_ok; cbn [negb res_bind]; [| by eexists _, false]. destruct size_ok; cbn [negb res_bind]; [| by eexists _, false].
    eexists _, true. split; [reflexivity |]. intros _. rewrite <- Epr. apply Hmk; (done || lia).
Qed.

Lemma pwrite_all_returns calls file bs off : exists r, pwrite_all (calls ++ [IoError]) file bs off = Ok r.
Proof.
  revert file bs off. induction calls as [| [| | n] calls IH]; intros file bs off; cbn [app pwrite_all];
    (destruct (lenZ bs <=? 0); [by eexists |]); try by eexists.
  - apply IH.
  - destruct (_ <=? 0); [by eexists | apply IH].
Qed.

(** The trailer goes behind the output. *)
Lemma checkpoint_keeps s sync_ok calls :
  wf_sink s -> fk_total s <= lenZ (fk_file s) ->
  exists file, checkpoint s sync_ok (calls ++ [IoError]) = Ok (set_file s file) /\ fk_total s <= lenZ file /\
    take (Z.to_nat (fk_total s)) file = take (Z.to_nat (fk_total s)) (fk_file s).
Proof.
  intros W Hf. pose proof (wk_total _ W) as Ht. unfold checkpoint. assert (Ok s = Ok (set_file s (fk_file s))) as Es by (by destruct s).
  split_if; [by exists (fk_file s) |]. destruct sync_ok; cbn [negb]; [| by exists (fk_file s)].
  destruct (pwrite_all_returns calls (fk_file s) (make_trailer s) (fk_total s)) as [[file ok] E]. rewrite E. cbn [res_bind]. exists file.
  apply pwrite_all_spec in E as (k & Hk & -> & _); [| lia | by apply trailer_fits]. split; [done |].
  split; [rewrite lenZ_fwrite by lia; lia |]. apply list_eq. intros i. destruct (Nat.lt_ge_cases i (Z.to_nat (fk_total s))) as [Hi | Hi].
  - rewrite !lookup_take_lt by done. rewrite <- (Nat2Z.id i). apply fwrite_lookup_out; lia.
  - rewrite !lookup_ge_None_2; [done | rewrite length_take; lia ..].
Qed.

Lemma file_checkpoint_keeps s :
  sink_ok (Sink := file_sink) s ->
  exists s', file_checkpoint s = Ok s' /\ sink_ok (Sink := file_sink) s' /\ sink_data (Sink := file_sink) s' = sink_data (Sink := file_sink) s.
Proof.
  cbn [sink_ok sink_data file_sink]. destruct s as [s pr writes cps]. cbn [fs_sink]. intros (W & Hu & Hf). unfold file_checkpoint. cbn [fs_sink fs_checkpoints fs_prepare fs_writes].
  destruct (default (false, []) (head cps)) as [sync_ok calls]. destruct (checkpoint_keeps s sync_ok calls W Hf) as (file & -> & Hl & Hd).
  eexists. split; [reflexivity |]. cbn [fs_sink set_file fk_counters fk_total fk_file]. split; [split_and!; [by destruct W | done | done] | done].
Qed.

#[export] Instance file_sink_laws : SinkLaws file_sink.
Proof.
  split.
  - apply file_write_inside.
  - apply file_prepare_result.
  - cbn [sink sink_ok sink_data sink_missing file_sink]. intros s from to (W & _ & Hf) Hft Hto.
    pose proof (wk_total _ W) as Ht. rewrite lenZ_take in Hto by lia. destruct (fk_resumed (fs_sink s)) eqn:Er.
    + by apply missing_spec.
    + unfold missing. rewrite Er. cbn [negb orb app]. apply missing_all_ordered. lia.
  - apply file_checkpoint_keeps.
  - cbn [sink sink_fresh sink_checkpoint file_sink]. intros s s' (Hr & Hpre & Hop). unfold file_checkpoint, checkpoint. rewrite Hpre. cbn [negb orb].
    destruct (default _ _). cbn [res_bind]. intros [= <-]. by repeat split.
Qed.
