(* ===== verification/Pipeline.v ===== *)
(** * The receive pipeline's consumers

    Models the consumer half of the receive pipeline of
    [src/src/proto/transfer.cpp]: the packet and completion slots, a consumer's
    ciphers, and [drain_channel], which authenticates a batch of blocks, writes
    runs of contiguous blocks with one call each and reports every block's outcome.

    A ring is seen through what SpscRing.v shows of it: the slots that can be read,
    in order, and the number that can be written. *)

From S2P Require Import Prelude Wire Control Block SessionCrypto Ranges FileSink Sinks Peer.

Definition kWriteBatch : Z := 64.

(** [ps_dg] is the datagram; its length is the slot's [len]. *)
Record PacketSlot := mkPacketSlot {
  ps_src : PeerAddr;
  ps_lane_base : Z;
  ps_lane_total : Z;
  ps_dg : bytes;
}.

Inductive WriteResult := Written | AuthFailed | IoFailed.

#[export] Instance WriteResult_eq_dec : EqDecision WriteResult.
Proof. solve_decision. Defined.

Record Completion := mkCompletion {
  cp_src : PeerAddr;
  cp_seq : Z;
  cp_send_time : Z;
  cp_bytes : Z;
  cp_flags : Z;
  cp_result : WriteResult;
}.

Definition new_completion : Completion := mkCompletion no_peer 0 0 0 0 Written.

Definition set_result (c : Completion) (bytes : Z) (r : WriteResult) : Completion :=
  mkCompletion (cp_src c) (cp_seq c) (cp_send_time c) bytes (cp_flags c) r.

Record LaneKey := mkLaneKey { lk_key : bytes; lk_ready : bool }.

Section Consumer.
Context `{B : CryptoBackend}.

(** A consumer's own key schedule for the lane, made on first use. *)
Definition consumer_cipher_for (key : LaneKey) (cs : option LaneKeySchedule) (lane seq : Z) :
    option LaneKeySchedule * option LaneCipher :=
  match cs with
  | Some k => let '(k, c) := cipher_for k seq in (Some k, c)
  | None =>
      if negb (lk_ready key) then (None, None)
      else
        let '(k, ok) := schedule_init new_key_schedule true (lk_key key) lane in
        if negb ok then (None, None)
        else let '(k, c) := cipher_for k seq in (Some k, c)
  end.

(** The body of a block, if it may be used: authenticated and decrypted under a
    key, taken as it is in a plaintext session. *)
Definition open_body (want_crypto : bool) (key : LaneKey) (cs : option LaneKeySchedule) (lane : Z) (d : DataDatagram) :
    option LaneKeySchedule * option (option bytes) :=
  let hdr := dd_hdr d in
  if want_crypto then
    let '(cs, cipher) := consumer_cipher_for key cs lane (bh_seq_no hdr) in
    let aad := build_aad lane (bh_seq_no hdr) (bh_offset hdr) (bh_flags hdr) in
    match cipher, dd_payload d with
    | Some c, Some payload =>
        if bh_payload_len hdr <? kAeadTagLen then (cs, None)
        else
          match cipher_open c lane (bh_seq_no hdr) aad payload with
          | None => (cs, None)
          | Some pt => (cs, Some (Some pt))
          end
    | _, _ => (cs, None)
    end
  else (cs, Some (dd_payload d)).

(** What is to be written for a block, if anything. *)
Definition block_item (s : PacketSlot) (offset : Z) (body : option bytes) : option (Z * bytes) :=
  match body with
  | None => None
  | Some b =>
      if (0 <? lenZ b) && (offset <=? ps_lane_total s) && (lenZ b <=? ps_lane_total s - offset)
      then Some (u64 (ps_lane_base s + offset), b) else None
  end.

(** The first loop's body: the block in [s], reported in the completion slot that
    held [c0]. *)
Definition process_slot (want_crypto : bool) (key : LaneKey) (lane : Z) (cs : option LaneKeySchedule) (s : PacketSlot)
    (c0 : Completion) : res (option LaneKeySchedule * Completion * option (Z * bytes)) :=
  let c := mkCompletion (ps_src s) (cp_seq c0) (cp_send_time c0) 0 (cp_flags c0) Written in
  try_decode (decode_data_datagram (ps_dg s))
    (fun d =>
       let hdr := dd_hdr d in
       let c := mkCompletion (ps_src s) (bh_seq_no hdr) (dd_send_time_ns d) 0 (bh_flags hdr) Written in
       let '(cs, body) := open_body want_crypto key cs lane d in
       match body with
       | None => Ok (cs, set_result c 0 AuthFailed, None)
       | Some body =>
           match block_item s (bh_offset hdr) body with
           | None => Ok (cs, c, None)
           | Some (off, b) => Ok (cs, set_result c (lenZ b) Written, Some (off, b))
           end
       end)
    (Ok (cs, set_result c 0 AuthFailed, None)).

(** [for (i = 0; i < n; ++i)] over the batch. *)
Fixpoint process_slots (want_crypto : bool) (key : LaneKey) (lane : Z) (cs : option LaneKeySchedule) (slots : list PacketSlot)
    (olds : list Completion) : res (option LaneKeySchedule * list Completion * list (option (Z * bytes))) :=
  match slots, olds with
  | s :: slots, c0 :: olds =>
      res_bind (process_slot want_crypto key lane cs s c0) (fun '(cs, c, item) =>
      res_bind (process_slots want_crypto key lane cs slots olds) (fun '(cs, comps, items) =>
      Ok (cs, c :: comps, item :: items)))
  | [], _ => Ok (cs, [], [])
  | _ :: _, [] => Fault
  end.

(** [while (j < n && ...)]: the blocks from here on that continue at [stop]. *)
Fixpoint run_of (stop : Z) (items : list (option (Z * bytes))) : list bytes * list (option (Z * bytes)) :=
  match items with
  | Some (off, b) :: rest =>
      if off =? stop then let '(iov, rest) := run_of (u64 (stop + lenZ b)) rest in (b :: iov, rest)
      else ([], items)
  | _ => ([], items)
  end.

Context `{S : Sink}.

Definition mark_failed (n : nat) (comps : list Completion) : list Completion :=
  ((fun c => set_result c 0 IoFailed) <$> take n comps) ++ drop n comps.

(** The second loop: [comps] are the completions of [items]. *)
Fixpoint write_runs (fuel : nat) (s : sink) (failed : bool) (items : list (option (Z * bytes))) (comps : list Completion) :
    res (sink * bool * list Completion) :=
  match fuel with
  | O => Fault
  | Datatypes.S fuel =>
      match items with
      | [] => Ok (s, failed, comps)
      | None :: rest =>
          res_bind (write_runs fuel s failed rest (tail comps)) (fun '(s, failed, cs) => Ok (s, failed, take 1 comps ++ cs))
      | Some (off, _) :: _ =>
          let '(iov, rest) := run_of off items in
          let n := length iov in
          res_bind (sink_write s off iov) (fun '(s, ok) =>
          let '(failed, done) := if ok then (failed, take n comps) else (true, mark_failed n (take n comps)) in
          res_bind (write_runs fuel s failed rest (drop n comps)) (fun '(s, failed, cs) => Ok (s, failed, done ++ cs)))
      end
  end.

(** [olds] are the completion slots that can be written.  Returns the consumer's
    cipher state, the sink, whether a write failed and the completions committed;
    as many packets are consumed as completions are committed. *)
Definition drain_channel (want_crypto : bool) (key : LaneKey) (lane : Z) (cs : option LaneKeySchedule) (s : sink)
    (readable : list PacketSlot) (olds : list Completion) : res (option LaneKeySchedule * sink * bool * list Completion) :=
  let n := Z.min (Z.min (lenZ readable) (lenZ olds)) kWriteBatch in
  if n =? 0 then Ok (cs, s, false, [])
  else
    res_bind (process_slots want_crypto key lane cs (take (Z.to_nat n) readable) olds) (fun '(cs, comps, items) =>
    res_bind (write_runs (Datatypes.S (length items)) s false items comps) (fun '(s, failed, comps) =>
    Ok (cs, s, failed, comps))).

End Consumer.

(** ** What a block amounts to *)

Section Verdicts.
Context `{B : CryptoBackend}.

(** The body of a block under the key of its epoch, whatever a consumer has cached. *)
Definition body_of (want_crypto : bool) (key : LaneKey) (lane : Z) (d : DataDatagram) : option (option bytes) :=
  let hdr := dd_hdr d in
  if want_crypto then
    match epoch_cipher (lk_key key) lane (Z.shiftr (bh_seq_no hdr) kKeyEpochShift), dd_payload d with
    | Some c, Some payload =>
        if bh_payload_len hdr <? kAeadTagLen then None
        else Some <$> cipher_open c lane (bh_seq_no hdr) (build_aad lane (bh_seq_no hdr) (bh_offset hdr) (bh_flags hdr)) payload
    | _, _ => None
    end
  else Some (dd_payload d).

(** The bytes a block adds to the output, and where. *)
Definition item_of (want_crypto : bool) (key : LaneKey) (lane : Z) (s : PacketSlot) : option (Z * bytes) :=
  match decode_data_datagram (ps_dg s) with
  | Ok d =>
      match body_of want_crypto key lane d with
      | Some body => block_item s (bh_offset (dd_hdr d)) body
      | None => None
      end
  | _ => None
  end.

(** The report of a block that is written without an error. *)
Definition report_of (want_crypto : bool) (key : LaneKey) (lane : Z) (s : PacketSlot) : Completion :=
  match decode_data_datagram (ps_dg s) with
  | Ok d =>
      let c := mkCompletion (ps_src s) (bh_seq_no (dd_hdr d)) (dd_send_time_ns d) 0 (bh_flags (dd_hdr d)) in
      match body_of want_crypto key lane d with
      | Some body => set_result (c Written) (match item_of want_crypto key lane s with Some (_, b) => lenZ b | None => 0 end) Written
      | None => c AuthFailed
      end
  | _ => new_completion
  end.

(** A consumer's cached schedule belongs to the lane's key. *)
Definition consumer_inv (key : LaneKey) (lane : Z) (cs : option LaneKeySchedule) : Prop :=
  match cs with Some k => schedule_inv k (lk_key key) lane | None => True end.

Definition decodable (s : PacketSlot) : Prop := exists d, decode_data_datagram (ps_dg s) = Ok d.

Lemma consumer_cipher_spec key lane cs seq :
  consumer_inv key lane cs -> lk_ready key = true ->
  exists cs', consumer_cipher_for key cs lane seq = (cs', epoch_cipher (lk_key key) lane (Z.shiftr seq kKeyEpochShift)) /\
    consumer_inv key lane cs'.
Proof.
  intros I Hr. unfold consumer_cipher_for. destruct cs as [k |].
  - destruct (cipher_for_spec k (lk_key key) lane seq I) as (k' & -> & I'). by exists (Some k').
  - rewrite Hr. cbn [negb]. destruct (schedule_init_inv (lk_key key) lane) as (k & -> & Ik). cbn [negb].
    destruct (cipher_for_spec k (lk_key key) lane seq Ik) as (k' & -> & I'). by exists (Some k').
Qed.

Lemma open_body_spec want_crypto key lane cs d :
  consumer_inv key lane cs -> (want_crypto = true -> lk_ready key = true) ->
  exists cs', open_body want_crypto key cs lane d = (cs', body_of want_crypto key lane d) /\ consumer_inv key lane cs'.
Proof.
  intros I Hr. unfold open_body, body_of. destruct want_crypto; [| by exists cs].
  destruct (consumer_cipher_spec key lane cs (bh_seq_no (dd_hdr d)) I (Hr eq_refl)) as (cs' & -> & I').
  destruct (epoch_cipher _ _ _) as [c |]; [| by exists cs']. destruct (dd_payload d) as [p |]; [| by exists cs'].
  destruct (bh_payload_len (dd_hdr d) <? kAeadTagLen); [by exists cs' |].
  destruct (cipher_open _ _ _ _ _); by exists cs'.
Qed.

Lemma process_slot_spec want_crypto key lane cs s c0 :
  consumer_inv key lane cs -> (want_crypto = true -> lk_ready key = true) -> decodable s ->
  exists cs', process_slot want_crypto key lane cs s c0 = Ok (cs', report_of want_crypto key lane s, item_of want_crypto key lane s) /\
    consumer_inv key lane cs'.
Proof.
  intros I Hr [d Ed]. unfold process_slot, report_of, item_of. rewrite Ed. cbn [try_decode].
  destruct (open_body_spec want_crypto key lane cs d I Hr) as (cs' & -> & I').
  exists cs'. split; [| done]. destruct (body_of _ _ _ _) as [body |]; [| done].
  by destruct (block_item _ _ _) as [[off b] |].
Qed.

Lemma process_slots_spec want_crypto key lane slots cs olds :
  consumer_inv key lane cs -> (want_crypto = true -> lk_ready key = true) -> Forall decodable slots -> (length slots <= length olds)%nat ->
  exists cs', process_slots want_crypto key lane cs slots olds =
      Ok (cs', report_of want_crypto key lane <$> slots, item_of want_crypto key lane <$> slots) /\
    consumer_inv key lane cs'.
Proof.
  intros I Hr Hd. revert cs olds I. induction Hd as [| s slots Hs Hd IH]; intros cs olds I Hl; [by exists cs |].
  destruct olds as [| c0 olds]; [cbn in Hl; lia |]. cbn [process_slots].
  destruct (process_slot_spec want_crypto key lane cs s c0 I Hr Hs) as (cs1 & -> & I1). cbn [res_bind].
  destruct (IH cs1 olds I1 ltac:(cbn in Hl; lia)) as (cs2 & -> & I2). by exists cs2.
Qed.

End Verdicts.

(** ** Writing runs is writing block by block *)

(** The reference: every block written on its own, in order.  A block whose write
    fails may leave a prefix of its bytes and is reported so. *)
Inductive written_as : bytes -> list (option (Z * bytes)) -> list Completion -> bytes -> list Completion -> bool -> Prop :=
| written_nil data : written_as data [] [] data [] false
| written_skip data c items cs data' cs' failed :
    written_as data items cs data' cs' failed -> written_as data (None :: items) (c :: cs) data' (c :: cs') failed
| written_block data off b c items cs data' cs' failed :
    written_as (splice data off b) items cs data' cs' failed ->
    written_as data (Some (off, b) :: items) (c :: cs) data' (c :: cs') failed
| written_failed data off b k c items cs data' cs' failed :
    0 <= k <= lenZ b -> written_as (splice data off (take (Z.to_nat k) b)) items cs data' cs' failed ->
    written_as data (Some (off, b) :: items) (c :: cs) data' (set_result c 0 IoFailed :: cs') true.

(** Blocks back to back from [stop]. *)
Fixpoint run_items (stop : Z) (iov : list bytes) : list (option (Z * bytes)) :=
  match iov with [] => [] | b :: iov => Some (stop, b) :: run_items (stop + lenZ b) iov end.

Definition item_inside (total : Z) (item : option (Z * bytes)) : Prop :=
  match item with Some (off, b) => 0 <= off /\ off + lenZ b <= total | None => True end.

Lemma run_of_spec total stop items iov rest :
  total < 2 ^ 64 -> Forall (item_inside total) items -> run_of stop items = (iov, rest) ->
  items = run_items stop iov ++ rest /\ (iov <> [] -> 0 <= stop /\ stop + lenZ (mjoin iov) <= total).
Proof.
  intros Ht. revert stop iov. induction items as [| [[off b] |] items IH]; intros stop iov Hi E; cbn [run_of] in E; [by simplify_eq | | by simplify_eq].
  apply Forall_cons in Hi as [[Ho Hb] Hi]. pose proof (lenZ_nonneg b). destruct (Z.eqb_spec off stop) as [<- | Hne]; [| by simplify_eq].
  rewrite u64_small in E by (unfold is_u64; lia). destruct (run_of (off + lenZ b) items) as [iov' rest'] eqn:Er. injection E as <- <-.
  destruct (IH _ _ Hi Er) as [-> Hin]. cbn [run_items app]. split; [done |]. intros _. split; [done |].
  change (mjoin (b :: iov')) with (b ++ mjoin iov'). rewrite lenZ_app. destruct iov' as [| b' iov']; [change (lenZ (mjoin (@nil bytes))) with 0; lia |].
  destruct (Hin ltac:(done)). lia.
Qed.

Lemma written_run data stop iov rest cs data' cs' failed :
  0 <= stop -> stop + lenZ (mjoin iov) <= lenZ data -> (length iov <= length cs)%nat ->
  written_as (splice data stop (mjoin iov)) rest (drop (length iov) cs) data' cs' failed ->
  written_as data (run_items stop iov ++ rest) cs data' (take (length iov) cs ++ cs') failed.
Proof.
  revert data stop cs. induction iov as [| b iov IH]; intros data stop cs Hs Hl Hc W.
  { cbn [length take drop] in *. by rewrite splice_nil in W. }
  change (mjoin (b :: iov)) with (b ++ mjoin iov) in *. rewrite lenZ_app in Hl.
  pose proof (lenZ_nonneg b). pose proof (lenZ_nonneg (mjoin iov)).
  destruct cs as [| c cs]; [cbn in Hc; lia |]. cbn [run_items app length take drop] in *. apply written_block.
  apply IH; [lia | rewrite splice_length by lia; lia | cbn in Hc; lia |]. by rewrite splice_splice by lia.
Qed.

Lemma written_run_failed data stop iov k rest cs data' cs' failed :
  0 <= stop -> stop + lenZ (mjoin iov) <= lenZ data -> (length iov <= length cs)%nat -> 0 <= k <= lenZ (mjoin iov) -> iov <> [] ->
  written_as (splice data stop (take (Z.to_nat k) (mjoin iov))) rest (drop (length iov) cs) data' cs' failed ->
  written_as data (run_items stop iov ++ rest) cs data' (mark_failed (length iov) (take (length iov) cs) ++ cs') true.
Proof.
  revert data stop k cs. induction iov as [| b iov IH]; intros data stop k cs Hs Hl Hc Hk Hne W; [done |].
  change (mjoin (b :: iov)) with (b ++ mjoin iov) in *. rewrite lenZ_app in Hl, Hk.
  pose proof (lenZ_nonneg b). pose proof (lenZ_nonneg (mjoin iov)).
  destruct cs as [| c cs]; [cbn in Hc; lia |]. cbn [run_items app length take drop mark_failed fmap list_fmap] in *.
  set (j := Z.min k (lenZ b)). set (i := k - j).
  assert (take (Z.to_nat k) (b ++ mjoin iov) = take (Z.to_nat j) b ++ take (Z.to_nat i) (mjoin iov)) as Hsplit.
  { rewrite take_app. unfold i, j, lenZ in *. destruct (Z.le_gt_cases k (Z.of_nat (length b))).
    - rewrite Z.min_l by lia. f_equal. replace (Z.to_nat k - length b)%nat with 0%nat by lia. by rewrite Z.sub_diag.
    - rewrite Z.min_r by lia. rewrite (take_ge b (Z.to_nat k)), (take_ge b) by lia. f_equal. f_equal. lia. }
  rewrite Hsplit in W. assert (lenZ (take (Z.to_nat j) b) = j) as Hj by (apply lenZ_take; lia).
  change (written_as data (Some (stop, b) :: (run_items (stop + lenZ b) iov ++ rest)) (c :: cs) data'
    (set_result c 0 IoFailed :: ((((fun c => set_result c 0 IoFailed) <$> take (length iov) (take (length iov) cs)) ++ drop (length iov) (take (length iov) cs)) ++ cs')) true).
  assert (forall f, written_as (splice data stop (take (Z.to_nat j) b)) (run_items (stop + lenZ b) iov ++ rest) cs data'
    (mark_failed (length iov) (take (length iov) cs) ++ cs') f -> written_as data (Some (stop, b) :: (run_items (stop + lenZ b) iov ++ rest)) (c :: cs) data'
    (set_result c 0 IoFailed :: (mark_failed (length iov) (take (length iov) cs) ++ cs')) true) as Hgo
    by (intros f Hw; eapply (written_failed data stop b j); [lia | exact Hw]).
  destruct (decide (iov = [])) as [-> | Hiov].
  - apply (Hgo failed). unfold mark_failed. cbn [length take drop fmap list_fmap app run_items] in *.
    replace (take (Z.to_nat i) (mjoin [])) with (@nil Z) in W by (by destruct (Z.to_nat i)). by rewrite app_nil_r in W.
  - apply (Hgo true). apply (IH _ _ i); [lia | rewrite splice_length by lia; lia | cbn in Hc; lia | lia | done |].
    destruct (Z.lt_ge_cases j (lenZ b)) as [Hlt | Hge].
    + replace (take (Z.to_nat i) (mjoin iov)) with (@nil Z) in * by (unfold i, j; by replace (k - _) with 0 by lia).
      rewrite splice_nil. by rewrite app_nil_r in W.
    + replace (stop + lenZ b) with (stop + lenZ (take (Z.to_nat j) b)) by lia. rewrite splice_splice; [done | lia |].
      rewrite Hj. rewrite lenZ_take by lia. lia.
Qed.

Lemma written_as_failed data items cs data' cs' failed :
  written_as data items cs data' cs' failed -> Forall (fun c => cp_result c <> IoFailed) cs ->
  failed = existsb (fun c => bool_decide (cp_result c = IoFailed)) cs'.
Proof.
  induction 1 as [| data c items cs data' cs' failed W IH | data off b c items cs data' cs' failed W IH | data off b k c items cs data' cs' failed Hk W IH];
    intros Hc; [done | | |]; apply Forall_cons in Hc as [Hr Hc]; cbn [existsb].
  1, 2: rewrite bool_decide_eq_false_2 by done; by apply IH.
  cbn [set_result cp_result]. by rewrite bool_decide_eq_true_2.
Qed.

Lemma written_as_length data items cs data' cs' failed :
  written_as data items cs data' cs' failed -> length cs' = length cs /\ length items = length cs.
Proof. induction 1; cbn [length]; lia. Qed.

Section WriteRuns.
Context `{S : Sink} `{!SinkLaws S}.

Lemma write_runs_spec fuel s failed items comps :
  sink_ok s -> lenZ (sink_data s) < 2 ^ 64 -> (length items < fuel)%nat -> length comps = length items ->
  Forall (item_inside (lenZ (sink_data s))) items ->
  exists s' f comps', write_runs fuel s failed items comps = Ok (s', failed || f, comps') /\ sink_ok s' /\
    lenZ (sink_data s') = lenZ (sink_data s) /\ written_as (sink_data s) items comps (sink_data s') comps' f.
Proof.
  revert s failed items comps. induction fuel as [| fuel IH]; intros s failed items comps Hs Ht Hf Hl Hi; [lia |]. cbn [write_runs].
  destruct items as [| [[off b] |] rest].
  - destruct comps; [| done]. exists s, false, []. rewrite orb_false_r. split_and!; [done .. | constructor].
  - destruct (run_of off (Some (off, b) :: rest)) as [iov tl] eqn:Er.
    assert (iov <> []) as Hne. { cbn [run_of] in Er. rewrite Z.eqb_refl in Er. destruct (run_of _ rest). by injection Er as <- _. }
    destruct (run_of_spec _ _ _ _ _ Ht Hi Er) as [Hitems Hin]. destruct (Hin Hne) as [Ho Hin']. clear Hin.
    assert (length comps = length iov + length tl)%nat as Hlen.
    { rewrite Hl, Hitems, length_app. f_equal. generalize off. clear. induction iov as [| b iov IHi]; intros off; cbn; [done | by rewrite IHi]. }
    assert (Forall (item_inside (lenZ (sink_data s))) tl) as Htl by (rewrite Hitems in Hi; by apply Forall_app in Hi as [_ ?]).
    destruct (sink_write_inside s off iov Hs Ho Hin') as (s1 & ok & k & -> & Hs1 & Hk & Hd1 & Hfull). cbn [res_bind].
    assert (lenZ (sink_data s1) = lenZ (sink_data s)) as Hd1l
      by (rewrite Hd1, splice_length; [done | lia | rewrite lenZ_take by lia; lia]).
    assert (length tl < fuel)%nat by (destruct iov; [done | cbn in Hlen; lia]).
    destruct (IH s1 (if ok then failed else true) tl (drop (length iov) comps)) as (s2 & f & comps' & Ew & Hs2 & Hl2 & W);
      [done | lia | done | rewrite length_drop; lia | by rewrite Hd1l |]. rewrite Hitems.
    rewrite Hd1 in W. destruct ok.
    + rewrite Ew. cbn [res_bind]. exists s2, f, (take (length iov) comps ++ comps'). split_and!; [done | done | lia |].
      apply written_run; [lia | lia | lia |]. by rewrite (Hfull eq_refl), firstn_all2 in W by (unfold lenZ; lia).
    + rewrite Ew. cbn [res_bind]. exists s2, true, (mark_failed (length iov) (take (length iov) comps) ++ comps').
      rewrite orb_true_r. split_and!; [done | done | lia |]. apply (written_run_failed _ _ _ k _ _ _ _ f); (done || lia).
  - destruct comps as [| c comps]; [done |]. apply Forall_cons in Hi as [_ Hi]. cbn [tail take app].
    destruct (IH s failed rest comps) as (s' & f & comps' & -> & Hs' & Hl' & W); [done | done | cbn in Hf; lia | cbn in Hl; lia | done |].
    exists s', f, (c :: comps'). split_and!; [done .. |]. by apply written_skip.
Qed.

End WriteRuns.

(** ** A batch *)

(** A slot as the reader fills it: a datagram it has decoded, for a lane that lies
    inside the output. *)
Definition slot_ok (total : Z) (s : PacketSlot) : Prop :=
  decodable s /\ Forall is_u8 (ps_dg s) /\ 0 <= ps_lane_base s /\ 0 <= ps_lane_total s /\ ps_lane_base s + ps_lane_total s <= total.

Section Drain.
Context `{B : CryptoBackend} `{S : Sink} `{!SinkLaws S}.

Lemma item_of_inside want_crypto key lane total s : total < 2 ^ 64 -> slot_ok total s -> item_inside total (item_of want_crypto key lane s).
Proof.
  intros Ht ([d Ed] & Hb & Hbase & Htot & Hle). unfold item_of. rewrite Ed. destruct (body_of _ _ _ _) as [[b |] |]; [| done ..].
  cbn [block_item]. destruct (data_sound (ps_dg s) d Hb Ed) as [(Hh & _) _]. destruct Hh as (_ & _ & _ & _ & Ho). unfold is_u64 in Ho.
  split_if; [| done]. pose proof (lenZ_nonneg b). cbn [item_inside]. rewrite u64_small by (unfold is_u64; lia). lia.
Qed.

Lemma report_not_io want_crypto key lane s : cp_result (report_of want_crypto key lane s) <> IoFailed.
Proof. unfold report_of. destruct (decode_data_datagram _); [done | done |]. by destruct (body_of _ _ _ _). Qed.

Lemma drain_channel_spec want_crypto key lane cs s readable olds :
  sink_ok s -> lenZ (sink_data s) < 2 ^ 64 -> consumer_inv key lane cs -> (want_crypto = true -> lk_ready key = true) ->
  Forall (slot_ok (lenZ (sink_data s))) readable ->
  let batch := take (Z.to_nat (Z.min (Z.min (lenZ readable) (lenZ olds)) kWriteBatch)) readable in
  exists cs' s' comps, drain_channel want_crypto key lane cs s readable olds =
      Ok (cs', s', existsb (fun c => bool_decide (cp_result c = IoFailed)) comps, comps) /\
    consumer_inv key lane cs' /\ sink_ok s' /\ lenZ (sink_data s') = lenZ (sink_data s) /\
    exists failed, written_as (sink_data s) (item_of want_crypto key lane <$> batch) (report_of want_crypto key lane <$> batch) (sink_data s') comps failed.
Proof.
  intros Hs Ht I Hr Hok batch. unfold drain_channel. set (n := Z.min _ kWriteBatch) in *.
  destruct (Z.eqb_spec n 0) as [En | En].
  { exists cs, s, []. split_and!; [done .. |]. exists false. unfold batch. rewrite En. constructor. }
  assert (Forall (slot_ok (lenZ (sink_data s))) batch) as Hb by (by apply Forall_take).
  destruct (process_slots_spec want_crypto key lane batch cs olds I Hr) as (cs' & E & I').
  { eapply Forall_impl; [exact Hb | by intros ? []]. }
  { unfold batch. rewrite length_take. unfold n, lenZ in *. lia. }
  unfold batch in E. rewrite E. cbn [res_bind]. fold batch.
  destruct (write_runs_spec (Datatypes.S (length (item_of want_crypto key lane <$> batch))) s false
    (item_of want_crypto key lane <$> batch) (report_of want_crypto key lane <$> batch)) as (s' & f & comps & -> & Hs' & Hl & W);
    [done | done | lia | by rewrite !length_fmap | |].
  { apply Forall_fmap. eapply Forall_impl; [exact Hb |]. intros x Hx. by apply item_of_inside. }
  cbn [res_bind orb]. exists cs', s', comps.
  assert (f = existsb (fun c => bool_decide (cp_result c = IoFailed)) comps) as <-
    by (apply (written_as_failed _ _ _ _ _ _ W), Forall_fmap, list.Forall_forall; intros; apply report_not_io).
  split_and!; try done. by exists f.
Qed.

End Drain.

(** ** Properties *)

(** Draining a channel treats every block of the batch on its own merits.  The
    batch is the longest allowed by the packets waiting, the room to report and 64;
    it never reads or writes outside a buffer; which blocks pass depends only on the
    lane's key, not on what the consumer has cached; coalescing contiguous blocks
    into one call leaves the output exactly as writing them one by one in order
    would; a block reported written is in the output in full, one that did not
    authenticate changes nothing, and the failure flag is raised exactly when some
    block is reported as not written. *)
Theorem drain_channel_exact `{B : CryptoBackend} `{S : Sink} `{!SinkLaws S} want_crypto key lane cs s readable olds :
  sink_ok s -> lenZ (sink_data s) < 2 ^ 64 -> consumer_inv key lane cs -> (want_crypto = true -> lk_ready key = true) ->
  Forall (slot_ok (lenZ (sink_data s))) readable ->
  let batch := take (Z.to_nat (Z.min (Z.min (lenZ readable) (lenZ olds)) kWriteBatch)) readable in
  exists cs' s' comps, drain_channel want_crypto key lane cs s readable olds =
      Ok (cs', s', existsb (fun c => bool_decide (cp_result c = IoFailed)) comps, comps) /\
    consumer_inv key lane cs' /\ sink_ok s' /\ lenZ (sink_data s') = lenZ (sink_data s) /\
    exists failed, written_as (sink_data s) (item_of want_crypto key lane <$> batch) (report_of want_crypto key lane <$> batch) (sink_data s') comps failed.
Proof. intros. by apply drain_channel_spec. Qed.

(** Two contiguous blocks of a plaintext session, as the sender encodes them. *)
Definition slot_example (seq offset b : Z) : PacketSlot :=
  mkPacketSlot peer_example 0 6 (data_wire (mkDataDatagram (mkBlockHeader 0 seq 0 3 offset) 9 (Some [b; b; b]))).

Lemma drain_channel_exact_witness :
  exists cs' s' comps, drain_channel (B := toy_backend) (S := MemorySink.sink) false (mkLaneKey [] false) 0 None (replicate 6 0, true)
      [slot_example 0 0 7; slot_example 1 3 8] [new_completion; new_completion] =
      Ok (cs', s', existsb (fun c => bool_decide (cp_result c = IoFailed)) comps, comps) /\
    consumer_inv (B := toy_backend) (mkLaneKey [] false) 0 cs' /\ True /\ lenZ (fst s') = 6 /\
    exists failed, written_as (replicate 6 0) [Some (0, [7; 7; 7]); Some (3, [8; 8; 8])]
      (report_of (B := toy_backend) false (mkLaneKey [] false) 0 <$> [slot_example 0 0 7; slot_example 1 3 8]) (fst s') comps failed.
Proof.
  apply (drain_channel_exact (B := toy_backend) (S := MemorySink.sink) (SinkLaws0 := MemorySink.sink_laws) false (mkLaneKey [] false) 0 None (replicate 6 0, true)
    [slot_example 0 0 7; slot_example 1 3 8] [new_completion; new_completion]); [done .. |].
  repeat constructor; try (cbn; lia); try (eexists; vm_compute; reflexivity); vm_compute; repeat constructor; discriminate.
Defined.
