(* ===== verification/RecvLane.v ===== *)
(** * The receiver lane

    Models [recv_lane] of [src/src/proto/transfer.cpp], the reader thread of one
    lane: its state, one handler per kind of datagram, the collection of the
    consumers' verdicts, the acknowledgements, and the loop body that composes them
    in the code's order.

    Clock readings, random numbers, the datagrams received, the cancel and stop
    flags and the room in the rings are arguments.  The state the lanes share
    ([RxPipeline]) is a record of its own; the rings' contents are the slots handed
    over and the completions handed back. *)

From S2P Require Import Prelude Wire Control Block Window Receiver SessionCrypto Ranges FileSink Peer Status Sinks Pipeline.

Definition kWindow : Z := kMaxWindow.
Definition kRouteRun : Z := kWriteBatch.
Definition kUnset : Z := 2 ^ 64 - 1.
Definition kCloseGraceNs : Z := 1500000000.
Definition kQuietAfterCompletionNs : Z := 400000000.
Definition kMaxQuietAcks : Z := 3.

(** ** State *)

(** Settled by the StreamStart the lane accepts; [have_start] and [have_peer] are
    set together. *)
Record RxSession := mkRxSession {
  xs_have_start : bool;
  xs_nonce : Z;
  xs_peer : PeerAddr;
  xs_lane_base : Z;
  xs_shard_bytes : Z;
  xs_expected_bytes : Z;
  xs_resume_answer : list bytes;
}.

Record RxBlocks := mkRxBlocks {
  xb_rx : ReceiverStream;
  xb_dispatched : list Z;
  xb_pending : Z;
  xb_final_seq : Z;
  xb_written : Z;
  xb_delivered : Z;
  xb_auth_failures : Z;
  xb_rtt_est_ns : Z;
  xb_nack_sent_ns : Z;
}.

Record RxTimers := mkRxTimers {
  xt_last_ack_blocks : Z;
  xt_last_ack_ns : Z;
  xt_quiet_acks : Z;
  xt_advertised_rwnd : Z;
  xt_completed_at_ns : Z;
  xt_last_rx_ns : Z;
  xt_bad_starts : Z;
  xt_last_auth_reply_ns : Z;
  xt_last_version_reply_ns : Z;
  xt_peer_finished : bool;
  xt_peer_aborted : bool;
}.

Record RxLane := mkRxLane {
  rl_session : RxSession;
  rl_blocks : RxBlocks;
  rl_timers : RxTimers;
  rl_auth : option ControlAuth;
  rl_path : PathValidator;
  rl_token_secret : bytes;
  rl_result : LaneResult;
}.

Inductive SinkState := SinkPending | SinkReady | SinkFailed.

(** What [RxPipeline] shares between the lanes, with the key of this lane. *)
Record RxShared `{Sink} := mkRxShared {
  sh_file_total : Z;
  sh_sink_state : SinkState;
  sh_session_total : Z;
  sh_digest : bytes;
  sh_have_digest : bool;
  sh_key : LaneKey;
  sh_sink : sink;
}.

(** A handler's state: the lane, what is shared, the datagrams sent, the slots
    handed to the rings (with the ring's number) and the status the lane has
    returned with, if it has. *)
Record RxWorld `{Sink} := mkRxWorld {
  w_lane : RxLane;
  w_shared : RxShared;
  w_sent : list datagram;
  w_handed : list (Z * PacketSlot);
  w_exit : option TransferStatus;
}.

(** *** Field updates *)

Definition set_session (l : RxLane) (s : RxSession) : RxLane :=
  mkRxLane s (rl_blocks l) (rl_timers l) (rl_auth l) (rl_path l) (rl_token_secret l) (rl_result l).
Definition set_blocks (l : RxLane) (b : RxBlocks) : RxLane :=
  mkRxLane (rl_session l) b (rl_timers l) (rl_auth l) (rl_path l) (rl_token_secret l) (rl_result l).
Definition set_timers (l : RxLane) (t : RxTimers) : RxLane :=
  mkRxLane (rl_session l) (rl_blocks l) t (rl_auth l) (rl_path l) (rl_token_secret l) (rl_result l).
Definition set_auth (l : RxLane) (a : option ControlAuth) : RxLane :=
  mkRxLane (rl_session l) (rl_blocks l) (rl_timers l) a (rl_path l) (rl_token_secret l) (rl_result l).
Definition set_path (l : RxLane) (p : PathValidator) : RxLane :=
  mkRxLane (rl_session l) (rl_blocks l) (rl_timers l) (rl_auth l) p (rl_token_secret l) (rl_result l).
Definition set_lane_result (l : RxLane) (r : LaneResult) : RxLane :=
  mkRxLane (rl_session l) (rl_blocks l) (rl_timers l) (rl_auth l) (rl_path l) (rl_token_secret l) r.

Definition set_peer (s : RxSession) (peer : PeerAddr) : RxSession :=
  mkRxSession (xs_have_start s) (xs_nonce s) peer (xs_lane_base s) (xs_shard_bytes s) (xs_expected_bytes s) (xs_resume_answer s).

Definition set_closed (t : RxTimers) (finished aborted : bool) : RxTimers :=
  mkRxTimers (xt_last_ack_blocks t) (xt_last_ack_ns t) (xt_quiet_acks t) (xt_advertised_rwnd t) (xt_completed_at_ns t)
    (xt_last_rx_ns t) (xt_bad_starts t) (xt_last_auth_reply_ns t) (xt_last_version_reply_ns t) finished aborted.
Definition set_version_reply (t : RxTimers) (now : Z) : RxTimers :=
  mkRxTimers (xt_last_ack_blocks t) (xt_last_ack_ns t) (xt_quiet_acks t) (xt_advertised_rwnd t) (xt_completed_at_ns t)
    (xt_last_rx_ns t) (xt_bad_starts t) (xt_last_auth_reply_ns t) now (xt_peer_finished t) (xt_peer_aborted t).
Definition set_bad_start (t : RxTimers) (reply_ns : Z) : RxTimers :=
  mkRxTimers (xt_last_ack_blocks t) (xt_last_ack_ns t) (xt_quiet_acks t) (xt_advertised_rwnd t) (xt_completed_at_ns t)
    (xt_last_rx_ns t) (u64 (xt_bad_starts t + 1)) reply_ns (xt_last_version_reply_ns t) (xt_peer_finished t) (xt_peer_aborted t).
Definition set_last_rx (t : RxTimers) (now : Z) : RxTimers :=
  mkRxTimers (xt_last_ack_blocks t) (xt_last_ack_ns t) (xt_quiet_acks t) (xt_advertised_rwnd t) (xt_completed_at_ns t)
    now (xt_bad_starts t) (xt_last_auth_reply_ns t) (xt_last_version_reply_ns t) (xt_peer_finished t) (xt_peer_aborted t).
Definition set_acked (t : RxTimers) (blocks now quiet rwnd : Z) : RxTimers :=
  mkRxTimers blocks now quiet rwnd (xt_completed_at_ns t)
    (xt_last_rx_ns t) (xt_bad_starts t) (xt_last_auth_reply_ns t) (xt_last_version_reply_ns t) (xt_peer_finished t) (xt_peer_aborted t).
Definition set_completed (t : RxTimers) (now : Z) : RxTimers :=
  mkRxTimers (xt_last_ack_blocks t) (xt_last_ack_ns t) (xt_quiet_acks t) (xt_advertised_rwnd t) now
    (xt_last_rx_ns t) (xt_bad_starts t) (xt_last_auth_reply_ns t) (xt_last_version_reply_ns t) (xt_peer_finished t) (xt_peer_aborted t).

(** [res->bytes], [res->auth_failures] and [res->status]. *)
Definition store_status (r : LaneResult) (bytes auth_failures : Z) (st : TransferStatus) : LaneResult :=
  mkLaneResult bytes (lr_retransmits r) auth_failures (lr_final_block r) (lr_start_ns r) (lr_end_ns r) st (lr_expected r) (lr_started r)
    (lr_skipped r) (lr_finished r).
Definition store_started (r : LaneResult) (expected : Z) : LaneResult :=
  mkLaneResult (lr_bytes r) (lr_retransmits r) (lr_auth_failures r) (lr_final_block r) (lr_start_ns r) (lr_end_ns r) (lr_status r) expected true
    (lr_skipped r) (lr_finished r).
Definition store_bytes (r : LaneResult) (bytes : Z) : LaneResult :=
  mkLaneResult bytes (lr_retransmits r) (lr_auth_failures r) (lr_final_block r) (lr_start_ns r) (lr_end_ns r) (lr_status r) (lr_expected r)
    (lr_started r) (lr_skipped r) (lr_finished r).
Definition store_times (r : LaneResult) (start_ns end_ns : Z) : LaneResult :=
  mkLaneResult (lr_bytes r) (lr_retransmits r) (lr_auth_failures r) (lr_final_block r) start_ns end_ns (lr_status r) (lr_expected r)
    (lr_started r) (lr_skipped r) (lr_finished r).

(** ** Handlers *)

Section Handlers.
Context `{B : CryptoBackend} `{S : Sink} (cfg : TransferConfig) (lane : Z).

Definition want_crypto : bool := negb (lenZ (cf_pre_shared_key cfg) =? 0).
Definition writers : Z := Z.max 1 (cf_writer_threads cfg).
Definition kTxCap : Z := kMaxAuxDatagramSize + 64.

Definition set_lane (w : RxWorld) (l : RxLane) : RxWorld := mkRxWorld _ l (w_shared w) (w_sent w) (w_handed w) (w_exit w).
Definition set_shared (w : RxWorld) (sh : RxShared) : RxWorld := mkRxWorld _ (w_lane w) sh (w_sent w) (w_handed w) (w_exit w).
Definition add_sent (w : RxWorld) (out : list datagram) : RxWorld :=
  mkRxWorld _ (w_lane w) (w_shared w) (w_sent w ++ out) (w_handed w) (w_exit w).
Definition add_handed (w : RxWorld) (k : Z) (s : PacketSlot) : RxWorld :=
  mkRxWorld _ (w_lane w) (w_shared w) (w_sent w) (w_handed w ++ [(k, s)]) (w_exit w).
Definition set_exit (w : RxWorld) (st : TransferStatus) : RxWorld :=
  mkRxWorld _ (w_lane w) (w_shared w) (w_sent w) (w_handed w) (Some st).

(** What a sending function leaves: the authenticator's counter and the datagrams. *)
Definition sent_by (w : RxWorld) (r : res (option ControlAuth * list datagram)) : res RxWorld :=
  res_bind r (fun '(auth, out) => Ok (add_sent (set_lane w (set_auth (w_lane w) auth)) out)).

(** [probe_path] *)
Definition probe_path (w : RxWorld) (src : PeerAddr) (now rnd : Z) : res RxWorld :=
  let '(path, challenge) := want_probe (rl_path (w_lane w)) src now rnd in
  let w := set_lane w (set_path (w_lane w) path) in
  match challenge with
  | None => Ok w
  | Some c =>
      sent_by w (send_path_probe (rl_auth (w_lane w)) src MsgType.PathChallenge lane (xs_nonce (rl_session (w_lane w))) c)
  end.

Definition send_resume_answer (w : RxWorld) : RxWorld :=
  let s := rl_session (w_lane w) in
  add_sent w ((fun m => (xs_peer s, m)) <$> xs_resume_answer s).

(** [receive_window]; [room k] is what ring [k] can still take. *)
Definition receive_window (pending : Z) (room : Z -> Z) : Z :=
  u32 (Z.min (foldl (fun w k => u64 (w + room k)) pending (seqZ 0 writers)) kWindow).

(** [classify] *)
Definition classify (l : RxLane) (fallback : TransferStatus) : TransferStatus :=
  if negb (xs_have_start (rl_session l)) && (0 <? xt_bad_starts (rl_timers l)) then StAuthFailed
  else
    let sample := u64 (xb_delivered (rl_blocks l) + xb_auth_failures (rl_blocks l)) in
    if (20 <=? sample) && (sample <? u64 (xb_auth_failures (rl_blocks l) * 2)) then StAuthFailed else fallback.

(** The three stores at an exit, then [return]. *)
Definition leave (w : RxWorld) (st : TransferStatus) : RxWorld :=
  let l := w_lane w in
  set_exit (set_lane w (set_lane_result l
    (store_status (rl_result l) (xb_written (rl_blocks l)) (xb_auth_failures (rl_blocks l)) st))) st.

(** [give_up]: tell the peer of a session, then return. *)
Definition abandon (w : RxWorld) (st : TransferStatus) : res RxWorld :=
  let s := rl_session (w_lane w) in
  res_bind
    (if xs_have_start s
     then sent_by w (send_stream_close (rl_auth (w_lane w)) (xs_peer s) lane (xs_nonce s) kStreamCloseAborted)
     else Ok w)
    (fun w => Ok (leave w st)).

(** *** A datagram of another protocol version *)

Definition on_foreign (w : RxWorld) (src : PeerAddr) (dg : bytes) (now : Z) : res RxWorld :=
  res_bind (is_foreign_version dg) (fun foreign =>
  let t := rl_timers (w_lane w) in
  if foreign && (100000000 <? u64 (now - xt_last_version_reply_ns t)) then
    let w := set_lane w (set_timers (w_lane w) (set_version_reply t now)) in
    res_bind (send_ctl None encode_version_mismatch kTxCap src) (fun '(_, out) => Ok (add_sent w out))
  else Ok w).

(** *** StreamStart *)

(** Key confirmation: whether the StreamStart may be believed, with the session key
    and the authenticator it yields. *)
Definition authenticate_start (ss : StreamStart) (dg : bytes) : res (bool * bytes * option ControlAuth) :=
  let salted := existsb (fun b => negb (b =? 0)) (ss_session_salt ss) in
  if want_crypto && salted then
    match derive_session_key (cf_pre_shared_key cfg) (ss_session_salt ss) with
    | None => Ok (false, [], None)
    | Some key =>
        let '(trial, ok) := control_init new_control_auth key lane 1 in
        if negb ok then Ok (false, key, Some trial)
        else
          res_bind (control_open trial dg) (fun r =>
          Ok (match r with Some _ => true | None => false end, key, Some trial))
    end
  else Ok (negb want_crypto && negb salted, [], None).

(** An unauthentic StreamStart is counted, and answered at most every 100 ms. *)
Definition on_bad_start (w : RxWorld) (src : PeerAddr) (ss : StreamStart) (now : Z) : res RxWorld :=
  let t := rl_timers (w_lane w) in
  if 100000000 <? u64 (now - xt_last_auth_reply_ns t) then
    let w := set_lane w (set_timers (w_lane w) (set_bad_start t now)) in
    res_bind (send_stream_close None src lane (ss_nonce ss) kStreamCloseAuthFailed) (fun '(_, out) => Ok (add_sent w out))
  else Ok (set_lane w (set_timers (w_lane w) (set_bad_start t (xt_last_auth_reply_ns t)))).

(** The first lane to get here sizes the output. [None]: the claim disagrees. *)
Definition claim_output (sh : RxShared) (ss : StreamStart) : res (option RxShared) :=
  if sh_file_total sh =? kUnset then
    res_bind (sink_prepare (sh_sink sh) (ss_file_total_bytes ss) (ss_file_id ss)) (fun '(s, ok) =>
    Ok (Some (mkRxShared _ (ss_file_total_bytes ss) (if ok then SinkReady else SinkFailed)
                (if ok then u64 (ss_file_total_bytes ss - sink_resumed_bytes s) else sh_session_total sh)
                (sh_digest sh) (sh_have_digest sh) (sh_key sh) s)))
  else if negb (sh_file_total sh =? ss_file_total_bytes ss) then Ok None
  else Ok (Some sh).

Definition set_key (sh : RxShared) (key : LaneKey) : RxShared :=
  mkRxShared _ (sh_file_total sh) (sh_sink_state sh) (sh_session_total sh) (sh_digest sh) (sh_have_digest sh) key (sh_sink sh).

(** What this lane still needs, relative to its start. *)
Definition wanted_ranges (s : sink) (lane_base shard_bytes : Z) : res (list ResumeRange) :=
  coarsen_ranges ((fun r => mkResumeRange (u64 (rr_offset r - lane_base)) (rr_length r)) <$>
                  sink_missing s lane_base (u64 (lane_base + shard_bytes))) kMaxResumeRanges.

(** The lane joins: session state, answer and progress. *)
Definition start_session (w : RxWorld) (src : PeerAddr) (ss : StreamStart) (key : bytes) (trial : option ControlAuth) :
    res RxWorld :=
  let w := if want_crypto
           then set_shared (set_lane w (set_auth (w_lane w) trial)) (set_key (w_shared w) (mkLaneKey key true)) else w in
  let base := ss_stream_base_offset ss in
  let shard := ss_total_bytes ss in
  res_bind (wanted_ranges (sh_sink (w_shared w)) base shard) (fun want =>
  let expected := foldl (fun n r => u64 (n + rr_length r)) 0 want in
  res_bind (encode_resume_answer seal_ctl (rl_auth (w_lane w)) lane (ss_nonce ss) (sink_resumed (sh_sink (w_shared w))) want)
    (fun '(auth, answer) =>
  let l := set_auth (w_lane w) auth in
  let l := set_session l (mkRxSession true (ss_nonce ss) src base shard expected answer) in
  let w := send_resume_answer (set_lane w l) in
  Ok (set_lane w (set_lane_result (w_lane w) (store_started (rl_result (w_lane w)) expected))))).

(** A StreamStart whose token is good, before a session exists. *)
Definition accept_start (w : RxWorld) (src : PeerAddr) (dg : bytes) (ss : StreamStart) (now : Z) : res RxWorld :=
  res_bind (authenticate_start ss dg) (fun '(authentic, key, trial) =>
  if negb authentic then on_bad_start w src ss now
  else if (ss_file_total_bytes ss <? ss_total_bytes ss) ||
          (ss_file_total_bytes ss - ss_total_bytes ss <? ss_stream_base_offset ss) then Ok w
  else
    res_bind (claim_output (w_shared w) ss) (fun claimed =>
    match claimed with
    | None => Ok w
    | Some sh =>
        let w := set_shared w sh in
        match sh_sink_state sh with
        | SinkFailed =>
            let l := w_lane w in
            Ok (set_exit (set_lane w (set_lane_result l (store_status (rl_result l) (lr_bytes (rl_result l))
                  (lr_auth_failures (rl_result l)) ResourceLimit))) ResourceLimit)
        | SinkPending => Ok w
        | SinkReady => start_session w src ss key trial
        end
    end)).

Definition on_stream_start (w : RxWorld) (src : PeerAddr) (dg : bytes) (now rnd : Z) : res RxWorld :=
  try_decode (decode_stream_start dg default_stream_start)
    (fun ss =>
       let want_token := address_token (rl_token_secret (w_lane w)) src (ss_nonce ss) in
       if negb (ss_token ss =? want_token) then
         res_bind (send_ctl None (encode_retry (mkRetry lane (ss_nonce ss) want_token)) kTxCap src)
           (fun '(_, out) => Ok (add_sent w out))
       else
         let s := rl_session (w_lane w) in
         if negb (xs_have_start s) then accept_start w src dg ss now
         else if ss_nonce ss =? xs_nonce s then
           res_bind (ctl_authentic (rl_auth (w_lane w)) dg) (fun authentic =>
           if authentic then
             res_bind (if negb (peer_eqb src (xs_peer s)) then probe_path w src now rnd else Ok w) (fun w =>
             Ok (send_resume_answer w))
           else Ok w)
         else Ok w)
    (Ok w).

(** *** StreamClose *)

Definition on_stream_close (w : RxWorld) (dg : bytes) : res RxWorld :=
  try_decode (decode_stream_close dg)
    (fun sc =>
       let l := w_lane w in
       let t := rl_timers l in
       if xs_have_start (rl_session l) then
         if negb (sc_nonce sc =? xs_nonce (rl_session l)) then Ok w
         else
           res_bind (ctl_authentic (rl_auth l) dg) (fun authentic =>
           if negb authentic then Ok w
           else if sc_reason sc =? kStreamCloseAborted
                then Ok (set_lane w (set_timers l (set_closed t (xt_peer_finished t) true)))
                else Ok (set_lane w (set_timers l (set_closed t true (xt_peer_aborted t)))))
       else if (sc_reason sc =? kStreamCloseAborted) && negb want_crypto
            then Ok (set_lane w (set_timers l (set_closed t (xt_peer_finished t) true)))
            else Ok w)
    (Ok w).

(** *** Path validation *)

Definition on_path_probe (w : RxWorld) (src : PeerAddr) (dg : bytes) (type : MsgType.MsgType) : res RxWorld :=
  let l := w_lane w in
  if negb (xs_have_start (rl_session l)) then Ok w
  else
    try_decode (decode_path_probe type dg)
      (fun pp =>
         if negb (pp_nonce pp =? xs_nonce (rl_session l)) then Ok w
         else
           res_bind (ctl_authentic (rl_auth l) dg) (fun authentic =>
           if negb authentic then Ok w
           else if MsgType.code type =? MsgType.code MsgType.PathChallenge then
             sent_by w (send_path_probe (rl_auth l) src MsgType.PathResponse lane (xs_nonce (rl_session l)) (pp_challenge pp))
           else
             let '(path, ok) := validated (rl_path l) src (pp_challenge pp) in
             let l := set_path l path in
             Ok (set_lane w (if ok then set_session l (set_peer (rl_session l) src) else l))))
      (Ok w).

(** *** The whole-file digest *)

Definition on_file_digest (w : RxWorld) (src : PeerAddr) (dg : bytes) : res RxWorld :=
  let l := w_lane w in
  if negb (lane =? 0) || negb (xs_have_start (rl_session l)) then Ok w
  else
    try_decode (decode_digest dg)
      (fun dm =>
         if negb (dm_nonce dm =? xs_nonce (rl_session l)) then Ok w
         else
           res_bind (ctl_authentic (rl_auth l) dg) (fun authentic =>
           if negb authentic then Ok w
           else
             let sh := w_shared w in
             let sh := if negb (sh_have_digest sh)
                       then mkRxShared _ (sh_file_total sh) (sh_sink_state sh) (sh_session_total sh) (dm_digest dm) true (sh_key sh) (sh_sink sh)
                       else sh in
             sent_by (set_shared w sh) (send_ctl (rl_auth l) (encode_digest dm) kTxCap src)))
      (Ok w).

(** *** Data *)

(** The ring a block goes to: the retransmission ring is number [writers]. *)
Definition route (hdr : BlockHeader) : Z :=
  if negb (Z.land (bh_flags hdr) kFlagRetransmission =? 0) then writers
  else u16 (bh_seq_no hdr / kRouteRun mod writers).

Definition dispatch (b : RxBlocks) (seq : Z) : RxBlocks :=
  mkRxBlocks (xb_rx b) (setZ (xb_dispatched b) (seq mod kWindow) seq) (u64 (xb_pending b + 1)) (xb_final_seq b) (xb_written b)
    (xb_delivered b) (xb_auth_failures b) (xb_rtt_est_ns b) (xb_nack_sent_ns b).

Definition on_data (w : RxWorld) (src : PeerAddr) (dg : bytes) (room : Z -> Z) : res RxWorld :=
  let l := w_lane w in
  if negb (xs_have_start (rl_session l)) then Ok w
  else
    try_decode (decode_data_datagram dg)
      (fun d =>
         let hdr := dd_hdr d in
         let b := rl_blocks l in
         let base := rs_base_seq_no (xb_rx b) in
         if bh_seq_no hdr <? base then Ok w
         else
           let rel := bh_seq_no hdr - base in
           if (kWindow <=? rel) || is_received (xb_rx b) rel then Ok w
           else if getZ (xb_dispatched b) (bh_seq_no hdr mod kWindow) =? bh_seq_no hdr then Ok w
           else if room (route hdr) =? 0 then Ok w
           else
             let slot := mkPacketSlot src (xs_lane_base (rl_session l)) (xs_shard_bytes (rl_session l)) dg in
             Ok (add_handed (set_lane w (set_blocks l (dispatch b (bh_seq_no hdr)))) (route hdr) slot))
      (Ok w).

(** *** The dispatch on the type *)

Definition on_datagram (w : RxWorld) (src : PeerAddr) (dg : bytes) (now rnd : Z) (room : Z -> Z) : res RxWorld :=
  try_decode (peek_msg_type dg)
    (fun type =>
       if type =? MsgType.code MsgType.StreamStart then on_stream_start w src dg now rnd
       else if type =? MsgType.code MsgType.StreamClose then on_stream_close w dg
       else if type =? MsgType.code MsgType.PathChallenge then on_path_probe w src dg MsgType.PathChallenge
       else if type =? MsgType.code MsgType.PathResponse then on_path_probe w src dg MsgType.PathResponse
       else if type =? MsgType.code MsgType.FileDigest then on_file_digest w src dg
       else if type =? MsgType.code MsgType.Data then on_data w src dg room
       else Ok w)
    (on_foreign w src dg now).

(** ** The consumers' verdicts *)

(** The block is no longer with a consumer. *)
Definition retire (b : RxBlocks) (seq : Z) : RxBlocks :=
  let d := xb_dispatched b in
  let d := if getZ d (seq mod kWindow) =? seq then setZ d (seq mod kWindow) kUnset else d in
  mkRxBlocks (xb_rx b) d (u64 (xb_pending b - 1)) (xb_final_seq b) (xb_written b)
    (xb_delivered b) (xb_auth_failures b) (xb_rtt_est_ns b) (xb_nack_sent_ns b).

Definition count_auth_failure (b : RxBlocks) : RxBlocks :=
  mkRxBlocks (xb_rx b) (xb_dispatched b) (xb_pending b) (xb_final_seq b) (xb_written b)
    (xb_delivered b) (u64 (xb_auth_failures b + 1)) (xb_rtt_est_ns b) (xb_nack_sent_ns b).

Definition enter_block (b : RxBlocks) (rx : ReceiverStream) (final_seq : Z) : RxBlocks :=
  mkRxBlocks rx (xb_dispatched b) (xb_pending b) final_seq (xb_written b)
    (xb_delivered b) (xb_auth_failures b) (xb_rtt_est_ns b) (xb_nack_sent_ns b).

(** The round-trip sample and the counters of a block accepted at [now]. *)
Definition count_block (b : RxBlocks) (flags bytes now : Z) : RxBlocks :=
  let sample := negb (Z.land flags kFlagRetransmission =? 0) && negb (xb_nack_sent_ns b =? 0) in
  let rtt := u64 (now - xb_nack_sent_ns b) in
  mkRxBlocks (xb_rx b) (xb_dispatched b) (xb_pending b) (xb_final_seq b) (u64 (xb_written b + bytes))
    (u64 (xb_delivered b + 1)) (xb_auth_failures b)
    (if sample then if xb_rtt_est_ns b =? 0 then rtt else u64 (u64 (xb_rtt_est_ns b * 7) + rtt) / 8 else xb_rtt_est_ns b)
    (if sample then 0 else xb_nack_sent_ns b).

(** A completion with the clock readings and the random number its handling may use. *)
Definition reading : Type := Z * Z * Z * Z.

Definition take_result (w : RxWorld) (c : Completion) (r : reading) : res RxWorld :=
  let '(t_recv, t_probe, t_sample, rnd) := r in
  let w := set_lane w (set_blocks (w_lane w) (retire (rl_blocks (w_lane w)) (cp_seq c))) in
  let b := rl_blocks (w_lane w) in
  match cp_result c with
  | AuthFailed => Ok (set_lane w (set_blocks (w_lane w) (count_auth_failure b)))
  | IoFailed => Ok w
  | Written =>
      let final_seq := if negb (Z.land (cp_flags c) kFlagLastBlock =? 0) then cp_seq c else xb_final_seq b in
      res_bind (on_receive (xb_rx b) (cp_seq c) (cp_send_time c) t_recv) (fun '(r, rx) =>
      let w := set_lane w (set_blocks (w_lane w) (enter_block b rx final_seq)) in
      match r with
      | Accepted =>
          res_bind (if negb (peer_eqb (cp_src c) (xs_peer (rl_session (w_lane w)))) then probe_path w (cp_src c) t_probe rnd else Ok w) (fun w =>
          Ok (set_lane w (set_blocks (w_lane w) (count_block (rl_blocks (w_lane w)) (cp_flags c) (cp_bytes c) t_sample))))
      | _ => Ok w
      end)
  end.

Fixpoint drain_results (w : RxWorld) (results : list (Completion * reading)) : res RxWorld :=
  match results with
  | [] => Ok w
  | (c, r) :: results => res_bind (take_result w c r) (fun w => drain_results w results)
  end.

(** ** Acknowledgements *)

Definition ack_of (l : RxLane) (rwnd : Z) : Ack :=
  let a := build_ack (xb_rx (rl_blocks l)) in
  mkAck (ack_stream_id a) (ack_base_seq_no a) (ack_received_bitmask a) (ack_echoed_send_time a) (xs_nonce (rl_session l)) rwnd.

Definition send_ack (w : RxWorld) (rwnd : Z) : res RxWorld :=
  let l := w_lane w in
  sent_by w (send_ctl (rl_auth l) (encode_ack (ack_of l rwnd)) kTxCap (xs_peer (rl_session l))).

(** Whether an Ack is due at [t]. *)
Definition ack_due (l : RxLane) (t rwnd_now : Z) : bool :=
  let m := rl_timers l in
  let heard := xt_last_ack_ns m <? xt_last_rx_ns m in
  let window_update := (xt_advertised_rwnd m <? kWindow / 4) && (u32 (u32 (2 * xt_advertised_rwnd m) + 8) <=? rwnd_now) in
  (8 <=? u64 (xb_delivered (rl_blocks l) - xt_last_ack_blocks m)) || window_update ||
  ((200000 <? u64 (t - xt_last_ack_ns m)) && (heard || (xt_quiet_acks m <? kMaxQuietAcks))).

Definition maybe_ack (w : RxWorld) (t : Z) (room : Z -> Z) : res RxWorld :=
  let l := w_lane w in
  let m := rl_timers l in
  let rwnd_now := receive_window (xb_pending (rl_blocks l)) room in
  if ack_due l t rwnd_now then
    let quiet := if xt_last_ack_ns m <? xt_last_rx_ns m then 0 else u32 (xt_quiet_acks m + 1) in
    send_ack (set_lane w (set_timers l (set_acked m (xb_delivered (rl_blocks l)) t quiet rwnd_now))) rwnd_now
  else Ok w.

(** [std::clamp] *)
Definition clamp (x lo hi : Z) : Z := if x <? lo then lo else if hi <? x then hi else x.

Definition reorder_ns (rtt : Z) : Z := if rtt =? 0 then 3000000 else clamp (rtt / 2) 1000000 100000000.
Definition renack_ns (rtt : Z) : Z := if rtt =? 0 then 40000000 else clamp (u64 (rtt * 3) / 2) 20000000 500000000.

Definition set_nacked (b : RxBlocks) (rx : ReceiverStream) (sent_ns : Z) : RxBlocks :=
  mkRxBlocks rx (xb_dispatched b) (xb_pending b) (xb_final_seq b) (xb_written b)
    (xb_delivered b) (xb_auth_failures b) (xb_rtt_est_ns b) sent_ns.

Definition maybe_nack (w : RxWorld) (t : Z) : res RxWorld :=
  let l := w_lane w in
  let b := rl_blocks l in
  res_bind (collect_nacks (xb_rx b) t (reorder_ns (xb_rtt_est_ns b)) (renack_ns (xb_rtt_est_ns b)) default_nack) (fun '(rx, nack) =>
  if 0 <? nack_count nack then
    sent_by (set_lane w (set_blocks l (set_nacked b rx t)))
      (send_ctl (rl_auth l) (encode_nack nack) kTxCap (xs_peer (rl_session l)))
  else Ok (set_lane w (set_blocks l (set_nacked b rx (xb_nack_sent_ns b))))).

(** ** The end of the lane *)

(** The break conditions at [t]: whether the loop is left. *)
Definition check_complete (w : RxWorld) (t : Z) : RxWorld * bool :=
  let l := w_lane w in
  let b := rl_blocks l in
  let m := rl_timers l in
  if negb (xb_final_seq b =? kUnset) && (xb_final_seq b <? rs_base_seq_no (xb_rx b)) then
    let '(l, m) :=
      if xt_completed_at_ns m =? 0 then
        let m := set_completed m t in
        (set_lane_result (set_timers l m) (store_times (rl_result l) (lr_start_ns (rl_result l)) t), m)
      else (l, m) in
    let awaiting_digest := (lane =? 0) && sink_resumed (sh_sink (w_shared w)) && negb (sh_have_digest (w_shared w)) in
    let quiet := kQuietAfterCompletionNs <=? u64 (t - Z.max (xt_completed_at_ns m) (xt_last_rx_ns m)) in
    (set_lane w l,
     negb awaiting_digest &&
     (xt_peer_finished m || (kCloseGraceNs <? u64 (t - xt_completed_at_ns m)) || quiet))
  else (w, false).

(** [for (i = 0; !peer_finished && i < 8; ++i)]; [rooms] are the eight readings. *)
Fixpoint final_acks (w : RxWorld) (rooms : list (Z -> Z)) : res RxWorld :=
  match rooms with
  | [] => Ok w
  | room :: rooms =>
      res_bind (send_ack w (receive_window (xb_pending (rl_blocks (w_lane w))) room)) (fun w => final_acks w rooms)
  end.

(** The status a completed lane returns with. *)
Definition final_status (l : RxLane) : TransferStatus :=
  classify l (if xb_written (rl_blocks l) =? xs_expected_bytes (rl_session l) then StOk else Incomplete).

Definition finish_lane (w : RxWorld) (rooms : list (Z -> Z)) : res RxWorld :=
  res_bind (if xt_peer_finished (rl_timers (w_lane w)) then Ok w else final_acks w (take 8 rooms)) (fun w =>
  Ok (leave w (final_status (w_lane w)))).

(** ** The loop body *)

(** What one turn of the loop finds: the flags, the datagrams (each with the clock
    reading, random number and ring room its handling sees), the completions of the
    done rings in the order they are drained, and the readings of the last part. *)
Record RxInputs := mkRxInputs {
  in_cancel : bool;
  in_stop : bool;
  in_io_failed : bool;
  in_rx_ns : Z;
  in_batch : list (PeerAddr * bytes * Z * Z * (Z -> Z));
  in_results : list (Completion * reading);
  in_ns : Z;
  in_room : Z -> Z;
  in_rooms : list (Z -> Z);
}.

Definition idle_limit_ns : Z := u64 (u64 (cf_timeout_ms cfg * 1000000) + 1000000000).

(** [for (i = 0; i < got; ++i)]; a handler that has returned ends it. *)
Fixpoint on_batch (w : RxWorld) (batch : list (PeerAddr * bytes * Z * Z * (Z -> Z))) : res RxWorld :=
  match batch with
  | [] => Ok w
  | (src, dg, now, rnd, room) :: batch =>
      res_bind (on_datagram w src dg now rnd room) (fun w =>
      match w_exit w with Some _ => Ok w | None => on_batch w batch end)
  end.

(** [if (got > 0)] *)
Definition note_arrival (w : RxWorld) (now : Z) : RxWorld :=
  let l := set_timers (w_lane w) (set_last_rx (rl_timers (w_lane w)) now) in
  let r := rl_result l in
  set_lane w (if lr_start_ns r =? 0 then set_lane_result l (store_times r now (lr_end_ns r)) else l).

(** [res->bytes.store(written)] *)
Definition publish (w : RxWorld) : RxWorld :=
  let l := w_lane w in set_lane w (set_lane_result l (store_bytes (rl_result l) (xb_written (rl_blocks l)))).

(** The part of a turn after the results, for a lane with a session. *)
Definition recv_tail (w : RxWorld) (i : RxInputs) : res RxWorld :=
  res_bind (maybe_ack w (in_ns i) (in_room i)) (fun w =>
  res_bind (maybe_nack w (in_ns i)) (fun w =>
  let '(w, leave_loop) := check_complete w (in_ns i) in
  if leave_loop then finish_lane w (in_rooms i) else Ok w)).

(** One turn of [for (;;)]; the second component is whether [stop_all] is set. *)
Definition recv_body (w : RxWorld) (i : RxInputs) : res (RxWorld * bool) :=
  let fin (stop : bool) (r : res RxWorld) := res_bind r (fun w => Ok (w, stop)) in
  if in_cancel i then fin true (abandon w Cancelled)
  else if in_stop i then fin false (abandon w (classify (w_lane w) PeerAborted))
  else if in_io_failed i then fin true (abandon w StIoError)
  else
    let l := w_lane w in
    let got := negb (lenZ (in_batch i) =? 0) in
    if negb got && (idle_limit_ns <? u64 (in_rx_ns i - xt_last_rx_ns (rl_timers l)))
    then fin false (abandon w (classify l Timeout))
    else
      let w := if got then note_arrival w (in_rx_ns i) else w in
      res_bind (on_batch w (in_batch i)) (fun w =>
      match w_exit w with
      | Some _ => Ok (w, false)
      | None =>
          res_bind (drain_results w (in_results i)) (fun w =>
          let w := publish w in
          if xt_peer_aborted (rl_timers (w_lane w)) then Ok (leave w (classify (w_lane w) PeerAborted), true)
          else if negb (xs_have_start (rl_session (w_lane w))) then Ok (w, false)
          else fin false (recv_tail w i))
      end).

(** The state [recv_lane] starts its loop with; [secret] is the token key. *)
Definition new_rx_lane (secret : bytes) (now : Z) : RxLane :=
  mkRxLane (mkRxSession false 0 no_peer 0 0 0 [])
    (mkRxBlocks (new_receiver lane kWindow true) (replicate (Z.to_nat kWindow) kUnset) 0 kUnset 0 0 0 0 0)
    (mkRxTimers 0 0 0 kRwndUnlimited 0 now 0 0 0 false false)
    None new_path secret new_lane_result.

Definition new_rx_shared (s : sink) : RxShared := mkRxShared _ kUnset SinkPending kUnset [] false (mkLaneKey [] false) s.

Definition new_rx_world (secret : bytes) (now : Z) (s : sink) : RxWorld :=
  mkRxWorld _ (new_rx_lane secret now) (new_rx_shared s) [] [] None.

End Handlers.

(** ** What the control handlers leave alone *)

(** Opens the result of a handler, one step at a time. *)
Ltac open_ok H :=
  repeat match type of H with
  | res_bind ?m _ = Ok _ => destruct m eqn:?; cbn [res_bind] in H; [done | done |]
  | try_decode ?m _ _ = Ok _ => destruct m eqn:?; cbn [try_decode] in H; [done | |]
  | (if ?b then _ else _) = Ok _ => destruct b eqn:?
  | match ?p with (_, _) => _ end = Ok _ => destruct p eqn:?
  | match ?o with Some _ => _ | None => _ end = Ok _ => destruct o eqn:?
  | Ok _ = Ok _ => apply Ok_inj in H as <-
  end.

Section Frame.
Context `{B : CryptoBackend} `{S : Sink} (cfg : TransferConfig) (lane : Z).

(** Blocks, the session's place, the sink and its key, what has been handed over,
    and whether the lane has returned. *)
Definition kept (w w' : RxWorld) : Prop :=
  let s := rl_session (w_lane w) in let s' := rl_session (w_lane w') in
  let sh := w_shared w in let sh' := w_shared w' in
  rl_blocks (w_lane w') = rl_blocks (w_lane w) /\
  (xs_have_start s', xs_nonce s', xs_lane_base s', xs_shard_bytes s', xs_expected_bytes s') =
  (xs_have_start s, xs_nonce s, xs_lane_base s, xs_shard_bytes s, xs_expected_bytes s) /\
  (sh_file_total sh', sh_sink_state sh', sh_key sh', sh_sink sh') = (sh_file_total sh, sh_sink_state sh, sh_key sh, sh_sink sh) /\
  w_handed w' = w_handed w /\ w_exit w' = w_exit w /\ rl_token_secret (w_lane w') = rl_token_secret (w_lane w).

#[export] Instance kept_preorder : PreOrder kept.
Proof.
  split; [done |]. intros w1 w2 w3 (A1 & A2 & A3 & A4 & A5 & A6) (B1 & B2 & B3 & B4 & B5 & B6).
  split_and!; congruence.
Qed.

#[local] Ltac keeps := unfold kept; cbn; split_and!; reflexivity.

Lemma sent_by_kept w r w' : sent_by w r = Ok w' -> kept w w'.
Proof. unfold sent_by. intros H. open_ok H; keeps. Qed.

Lemma probe_path_kept w src now rnd w' : probe_path lane w src now rnd = Ok w' -> kept w w'.
Proof.
  unfold probe_path. destruct (want_probe _ _ _ _) as [path [c |]]; [| intros <-%Ok_inj; keeps].
  intros H%sent_by_kept. etrans; [| exact H]; keeps.
Qed.

Lemma on_foreign_kept w src dg now w' : on_foreign w src dg now = Ok w' -> kept w w'.
Proof. unfold on_foreign. intros H. open_ok H; keeps. Qed.

Lemma on_bad_start_kept w src ss now w' : on_bad_start lane w src ss now = Ok w' -> kept w w'.
Proof. unfold on_bad_start. intros H. open_ok H; keeps. Qed.

Lemma on_stream_close_kept w dg w' : on_stream_close cfg w dg = Ok w' -> kept w w'.
Proof. unfold on_stream_close. intros H. open_ok H; keeps. Qed.

Lemma on_path_probe_kept w src dg type w' : on_path_probe lane w src dg type = Ok w' -> kept w w'.
Proof.
  unfold on_path_probe. intros H. open_ok H; try keeps; [by apply sent_by_kept in H |].
  match goal with |- context [if ?b then _ else _] => destruct b end; keeps.
Qed.

Lemma on_file_digest_kept w src dg w' : on_file_digest lane w src dg = Ok w' -> kept w w'.
Proof.
  unfold on_file_digest. intros H. open_ok H; try keeps; apply sent_by_kept in H; (etrans; [| exact H]);
    destruct (sh_have_digest (w_shared w)); keeps.
Qed.

(** The StreamStart a session starts from: its token was issued to its source, it is
    authentic, its lane lies inside the transfer and its total is the one agreed. *)
Record start_accepted (w : RxWorld) (src : PeerAddr) (dg : bytes) (ss : StreamStart) (key : bytes) (trial : option ControlAuth)
    (sh : RxShared) : Prop := {
  sa_decoded : decode_stream_start dg default_stream_start = Ok ss;
  sa_new : xs_have_start (rl_session (w_lane w)) = false;
  sa_token : ss_token ss = address_token (rl_token_secret (w_lane w)) src (ss_nonce ss);
  sa_authentic : authenticate_start cfg lane ss dg = Ok (true, key, trial);
  sa_inside : ss_total_bytes ss <= ss_file_total_bytes ss /\ ss_stream_base_offset ss <= ss_file_total_bytes ss - ss_total_bytes ss;
  sa_claimed : claim_output (w_shared w) ss = Ok (Some sh);
}.

(** The output could not be prepared: the lane returns. *)
Definition start_refused (w : RxWorld) (src : PeerAddr) (dg : bytes) (w' : RxWorld) : Prop :=
  exists ss key trial sh, start_accepted w src dg ss key trial sh /\ sh_sink_state sh = SinkFailed /\
    rl_blocks (w_lane w') = rl_blocks (w_lane w) /\ rl_session (w_lane w') = rl_session (w_lane w) /\
    w_shared w' = sh /\ w_handed w' = w_handed w /\ w_sent w' = w_sent w /\ w_exit w' = Some ResourceLimit.

(** The session starts. *)
Definition start_joined (w : RxWorld) (src : PeerAddr) (dg : bytes) (w' : RxWorld) : Prop :=
  exists ss key trial sh want, start_accepted w src dg ss key trial sh /\ sh_sink_state sh = SinkReady /\
    wanted_ranges (sh_sink sh) (ss_stream_base_offset ss) (ss_total_bytes ss) = Ok want /\
    (exists answer, rl_session (w_lane w') = mkRxSession true (ss_nonce ss) src (ss_stream_base_offset ss) (ss_total_bytes ss)
       (foldl (fun n r => u64 (n + rr_length r)) 0 want) answer /\
       w_sent w' = w_sent w ++ ((fun m => (src, m)) <$> answer)) /\
    w_shared w' = (if want_crypto cfg then set_key sh (mkLaneKey key true) else sh) /\
    rl_blocks (w_lane w') = rl_blocks (w_lane w) /\
    w_handed w' = w_handed w /\ w_exit w' = w_exit w /\ rl_token_secret (w_lane w') = rl_token_secret (w_lane w).

(** The block goes to a consumer. *)
Definition block_handed (w : RxWorld) (src : PeerAddr) (dg : bytes) (room : Z -> Z) (w' : RxWorld) : Prop :=
  exists d, decode_data_datagram dg = Ok d /\
    let l := w_lane w in let b := rl_blocks l in let seq := bh_seq_no (dd_hdr d) in
    xs_have_start (rl_session l) = true /\ rs_base_seq_no (xb_rx b) <= seq < rs_base_seq_no (xb_rx b) + kWindow /\
    is_received (xb_rx b) (seq - rs_base_seq_no (xb_rx b)) = false /\
    getZ (xb_dispatched b) (seq mod kWindow) <> seq /\ room (route cfg (dd_hdr d)) <> 0 /\
    w' = add_handed (set_lane w (set_blocks l (dispatch b seq))) (route cfg (dd_hdr d))
           (mkPacketSlot src (xs_lane_base (rl_session l)) (xs_shard_bytes (rl_session l)) dg).

Lemma accept_start_cases w src dg ss now w' :
  decode_stream_start dg default_stream_start = Ok ss -> xs_have_start (rl_session (w_lane w)) = false ->
  ss_token ss = address_token (rl_token_secret (w_lane w)) src (ss_nonce ss) ->
  accept_start cfg lane w src dg ss now = Ok w' ->
  kept w w' \/ start_refused w src dg w' \/ start_joined w src dg w'.
Proof.
  intros Ed Hn Ht. unfold accept_start. destruct (authenticate_start cfg lane ss dg) as [| | [[ok key] trial]] eqn:Ea; [done | done |].
  cbn [res_bind]. destruct ok; cbn [negb]; [| by intros ?%on_bad_start_kept; left].
  destruct (_ || _) eqn:Eo; [intros <-%Ok_inj; left; keeps |]. apply orb_false_elim in Eo as [E1 E2].
  destruct (claim_output (w_shared w) ss) as [| | [sh |]] eqn:Ec; cbn [res_bind]; [done | done | | intros <-%Ok_inj; left; keeps].
  assert (start_accepted w src dg ss key trial sh) as A by (split; (done || lia)).
  destruct (sh_sink_state sh) eqn:Es.
  - intros <-%Ok_inj. left. unfold claim_output in Ec. destruct (_ =? kUnset) eqn:Eu.
    + destruct (sink_prepare _ _ _) as [| | [s []]]; [done | done | |]; cbn in Ec; by injection Ec as <-.
    + destruct (negb _); [done |]. injection Ec as <-. keeps.
  - intros H. right; right. exists ss, key, trial, sh. unfold start_session in H.
    destruct (want_crypto cfg); open_ok H; cbn in *; eexists; (split; [exact A |]);
      (split; [done |]); (split; [eassumption |]); (split; [eexists; split; reflexivity |]); done.
  - intros <-%Ok_inj. right; left. exists ss, key, trial, sh. split; [done |]. by cbn.
Qed.

Lemma on_stream_start_cases w src dg now rnd w' :
  on_stream_start cfg lane w src dg now rnd = Ok w' -> kept w w' \/ start_refused w src dg w' \/ start_joined w src dg w'.
Proof.
  unfold on_stream_start. destruct (decode_stream_start dg default_stream_start) as [| | ss] eqn:Ed; cbn [try_decode];
    [done | intros <-%Ok_inj; left; keeps |].
  destruct (Z.eqb_spec (ss_token ss) (address_token (rl_token_secret (w_lane w)) src (ss_nonce ss))) as [Ht | Ht]; cbn [negb].
  2: { intros H. left. open_ok H. keeps. }
  destruct (xs_have_start (rl_session (w_lane w))) eqn:Eh; cbn [negb]; [| by apply accept_start_cases].
  intros H. left. destruct (_ =? _); [| open_ok H; keeps].
  destruct (ctl_authentic _ _) as [| | []]; cbn [res_bind] in H; [done | done | | open_ok H; keeps].
  destruct (negb (peer_eqb src _)); cbn [res_bind] in H; [| open_ok H; keeps].
  destruct (probe_path _ _ _ _ _) as [| | w1] eqn:Ep; cbn [res_bind] in H; [done | done |].
  apply probe_path_kept in Ep. open_ok H. etrans; [exact Ep |]. keeps.
Qed.

Lemma on_data_cases w src dg room w' :
  on_data cfg w src dg room = Ok w' -> w' = w \/ block_handed w src dg room w'.
Proof.
  unfold on_data. destruct (xs_have_start _) eqn:Eh; cbn [negb]; [| intros H; open_ok H; by left].
  destruct (decode_data_datagram dg) as [| | d] eqn:Ed; cbn [try_decode]; [done | intros H; open_ok H; by left |].
  set (b := rl_blocks (w_lane w)). set (q := bh_seq_no (dd_hdr d)).
  destruct (Z.ltb_spec q (rs_base_seq_no (xb_rx b))); [intros H'; open_ok H'; by left |].
  destruct ((kWindow <=? q - rs_base_seq_no (xb_rx b)) || is_received (xb_rx b) (q - rs_base_seq_no (xb_rx b))) eqn:Er;
    [intros H'; open_ok H'; by left |]. apply orb_false_elim in Er as [Ew Er].
  destruct (Z.eqb_spec (getZ (xb_dispatched b) (q mod kWindow)) q); [intros H'; open_ok H'; by left |].
  destruct (Z.eqb_spec (room (route cfg (dd_hdr d))) 0); [intros H'; open_ok H'; by left |].
  intros <-%Ok_inj. right. exists d. split; [done |]. cbn zeta. fold b. fold q. split_and!; (done || lia).
Qed.

(** What a datagram can do to a lane. *)
Lemma on_datagram_cases w src dg now rnd room w' :
  on_datagram cfg lane w src dg now rnd room = Ok w' ->
  kept w w' \/ start_refused w src dg w' \/ start_joined w src dg w' \/ block_handed w src dg room w'.
Proof.
  unfold on_datagram. destruct (peek_msg_type dg) as [| | t]; cbn [try_decode]; [done | by intros ?%on_foreign_kept; left |].
  repeat (match goal with |- (if ?c then _ else _) = _ -> _ => destruct c end).
  - intros [? | [? | ?]]%on_stream_start_cases; auto.
  - intros ?%on_stream_close_kept; auto.
  - intros ?%on_path_probe_kept; auto.
  - intros ?%on_path_probe_kept; auto.
  - intros ?%on_file_digest_kept; auto.
  - intros [-> | ?]%on_data_cases; auto. left. reflexivity.
  - intros <-%Ok_inj. left. reflexivity.
Qed.

(** ** What the rest of a turn leaves alone *)

Lemma note_arrival_kept w now : kept w (note_arrival w now).
Proof. unfold note_arrival. destruct (_ =? _); keeps. Qed.

Lemma send_ack_kept w rwnd w' : send_ack w rwnd = Ok w' -> kept w w'.
Proof. apply sent_by_kept. Qed.

Lemma maybe_ack_kept w t room w' : maybe_ack cfg w t room = Ok w' -> kept w w'.
Proof.
  unfold maybe_ack. destruct (ack_due _ _ _); [| intros <-%Ok_inj; keeps].
  intros H%send_ack_kept. etrans; [| exact H]. keeps.
Qed.

Lemma maybe_nack_cases w t w' :
  maybe_nack w t = Ok w' ->
  exists rx nack sent_ns, let b := rl_blocks (w_lane w) in
    collect_nacks (xb_rx b) t (reorder_ns (xb_rtt_est_ns b)) (renack_ns (xb_rtt_est_ns b)) default_nack = Ok (rx, nack) /\
    kept (set_lane w (set_blocks (w_lane w) (set_nacked b rx sent_ns))) w'.
Proof.
  unfold maybe_nack. destruct (collect_nacks _ _ _ _ _) as [| | [rx nack]] eqn:E; cbn [res_bind]; [done | done |].
  destruct (0 <? nack_count nack).
  - intros H%sent_by_kept. by exists rx, nack, t.
  - intros <-%Ok_inj. exists rx, nack, (xb_nack_sent_ns (rl_blocks (w_lane w))). split; [done |]. reflexivity.
Qed.

Lemma check_complete_kept w t w' q :
  check_complete lane w t = (w', q) ->
  kept w w' /\
  (q = true -> xb_final_seq (rl_blocks (w_lane w)) <> kUnset /\
               xb_final_seq (rl_blocks (w_lane w)) < rs_base_seq_no (xb_rx (rl_blocks (w_lane w)))).
Proof.
  unfold check_complete. destruct (negb _ && _) eqn:E; [| intros [= <- <-]; done].
  apply andb_true_iff in E as [E1 E2]. apply negb_true_iff, Z.eqb_neq in E1. apply Z.ltb_lt in E2.
  destruct (xt_completed_at_ns _ =? 0); intros [= <- _]; (split; [keeps | done]).
Qed.

Lemma final_acks_kept rooms w w' : final_acks cfg w rooms = Ok w' -> kept w w'.
Proof.
  revert w. induction rooms as [| room rooms IH]; intros w; cbn [final_acks]; [intros <-%Ok_inj; reflexivity |].
  destruct (send_ack _ _) as [| | w1] eqn:E; cbn [res_bind]; [done | done |].
  apply send_ack_kept in E. intros H%IH. by etrans.
Qed.

(** A lane that leaves keeps its state and returns the status it stores. *)
Lemma leave_kept w st : kept (set_exit w st) (leave w st).
Proof. keeps. Qed.

Lemma set_exit_kept w w' st : kept w w' -> kept (set_exit w st) (set_exit w' st).
Proof. intros (? & ? & ? & ? & ? & ?). by split_and!. Qed.

Lemma abandon_kept w st w' : abandon lane w st = Ok w' -> kept (set_exit w st) w'.
Proof.
  unfold abandon. destruct (xs_have_start _); cbn [res_bind]; [| intros <-%Ok_inj; apply leave_kept].
  destruct (sent_by _ _) as [| | w1] eqn:E; cbn [res_bind]; [done | done |]. intros <-%Ok_inj.
  etrans; [| apply leave_kept]. by apply set_exit_kept, (sent_by_kept _ _ _ E).
Qed.

Lemma finish_lane_kept w rooms w' :
  finish_lane cfg w rooms = Ok w' -> exists w1, kept w w1 /\ kept (set_exit w1 (final_status (w_lane w1))) w'.
Proof.
  unfold finish_lane. destruct (xt_peer_finished _); cbn [res_bind].
  - intros <-%Ok_inj. exists w. split; [reflexivity | apply leave_kept].
  - destruct (final_acks _ _ _) as [| | w1] eqn:E; cbn [res_bind]; [done | done |]. apply final_acks_kept in E.
    intros <-%Ok_inj. exists w1. split; [done | apply leave_kept].
Qed.

(** The end of a turn leaves the shared state alone. *)
Lemma recv_tail_shared w i w' :
  recv_tail cfg lane w i = Ok w' ->
  (sh_file_total (w_shared w'), sh_sink_state (w_shared w'), sh_key (w_shared w'), sh_sink (w_shared w')) =
  (sh_file_total (w_shared w), sh_sink_state (w_shared w), sh_key (w_shared w), sh_sink (w_shared w)).
Proof.
  unfold recv_tail. destruct (maybe_ack _ _ _ _) as [| | w1] eqn:E1; cbn [res_bind]; [done | done |].
  destruct (maybe_nack _ _) as [| | w2] eqn:E2; cbn [res_bind]; [done | done |].
  destruct (check_complete _ _ _) as [w3 q] eqn:E3. intros E4.
  apply maybe_ack_kept in E1 as (_ & _ & E1 & _). apply maybe_nack_cases in E2 as (? & ? & ? & _ & _ & _ & E2 & _). cbn in E2.
  apply check_complete_kept in E3 as [(_ & _ & E3 & _) _]. etrans; [| etrans; [exact E3 | etrans; [exact E2 | exact E1]]].
  destruct q; [| by apply Ok_inj in E4 as <-]. apply finish_lane_kept in E4 as (w4 & (_ & _ & K4 & _) & (_ & _ & K5 & _)). etrans; [exact K5 | exact K4].
Qed.

(** The blocks a verdict leaves. *)
Definition result_blocks (b : RxBlocks) (c : Completion) (b' : RxBlocks) : Prop :=
  let b1 := retire b (cp_seq c) in
  match cp_result c with
  | AuthFailed => b' = count_auth_failure b1
  | IoFailed => b' = b1
  | Written =>
      exists res rx t_recv t_sample, on_receive (xb_rx b1) (cp_seq c) (cp_send_time c) t_recv = Ok (res, rx) /\
        let b2 := enter_block b1 rx (if negb (Z.land (cp_flags c) kFlagLastBlock =? 0) then cp_seq c else xb_final_seq b1) in
        b' = match res with Accepted => count_block b2 (cp_flags c) (cp_bytes c) t_sample | _ => b2 end
  end.

Lemma take_result_cases w c r w' :
  take_result lane w c r = Ok w' ->
  exists b', result_blocks (rl_blocks (w_lane w)) c b' /\ kept (set_lane w (set_blocks (w_lane w) b')) w'.
Proof.
  destruct r as [[[t1 t2] t3] rnd]. unfold take_result, result_blocks. cbn [w_lane set_lane rl_blocks set_blocks].
  destruct (cp_result c).
  2, 3: intros <-%Ok_inj; eexists; (split; [reflexivity |]); keeps.
  destruct (on_receive _ _ _ _) as [| | [res rx]] eqn:E; cbn [res_bind]; [done | done |].
  destruct res.
  2, 3: intros <-%Ok_inj; eexists; (split; [eexists _, rx, t1, t3; (split; [exact E | reflexivity]) |]); keeps.
  destruct (negb (peer_eqb _ _)); cbn [res_bind].
  - destruct (probe_path _ _ _ _ _) as [| | w1] eqn:Ep; cbn [res_bind]; [done | done |]. apply probe_path_kept in Ep as (K1 & K2 & K3 & K4 & K5 & K6).
    cbn in K1, K2, K3, K4, K5, K6.
    intros <-%Ok_inj. eexists. split; [by exists Accepted, rx, t1, t3 |]. rewrite K1. unfold kept. cbn. by split_and!.
  - intros <-%Ok_inj. eexists. split; [by exists Accepted, rx, t1, t3 |]. keeps.
Qed.

End Frame.
