(* ===== verification/RecvSystem.v ===== *)
(** * A receive lane with its consumers

    Puts the reader of a lane (RecvLane.v) and the consumer threads (Pipeline.v)
    together, as [receive_to_sink] of [src/src/proto/transfer.cpp] runs them: the
    reader's handlers and the consumers' batches interleave freely, joined by the
    packet and completion rings, while the other lanes of the transfer work on the
    same output.  The invariant is the pipeline's contract: a block enters the
    window, and so an Ack, only once its bytes are in the output. *)

From S2P Require Import Prelude Wire Control Block Window Receiver SessionCrypto Ranges FileSink Peer Status Sinks Pipeline RecvLane.

(** ** The system *)

(** A ring into a consumer, the ring back, and the consumer's key schedule for the
    lane. *)
Record Channel := mkChannel {
  ch_in : list PacketSlot;
  ch_out : list Completion;
  ch_cs : option LaneKeySchedule;
}.

Definition new_channel : Channel := mkChannel [] [] None.

Record System `{Sink} := mkSystem {
  sy_world : RxWorld;
  sy_channels : list Channel;
}.

Definition push_slot (s : PacketSlot) (c : Channel) : Channel := mkChannel (ch_in c ++ [s]) (ch_out c) (ch_cs c).

(** What the reader has committed to the rings reaches them. *)
Definition hand_over (chs : list Channel) (handed : list (Z * PacketSlot)) : list Channel :=
  foldl (fun chs '(k, s) => match chs !! Z.to_nat k with Some c => <[Z.to_nat k := push_slot s c]> chs | None => chs end) chs handed.

Section Step.
Context `{B : CryptoBackend} `{S : Sink} (cfg : TransferConfig) (lane : Z).

Definition set_sink (w : RxWorld) (s : sink) : RxWorld :=
  let sh := w_shared w in
  set_shared w (mkRxShared _ (sh_file_total sh) (sh_sink_state sh) (sh_session_total sh) (sh_digest sh) (sh_have_digest sh) (sh_key sh) s).

Definition take_handed (w : RxWorld) : RxWorld := mkRxWorld _ (w_lane w) (w_shared w) (w_sent w) [] (w_exit w).

(** The rings of a lane: one per writer and the retransmission ring. *)
Definition new_system (secret : bytes) (now : Z) (s : sink) : System :=
  mkSystem _ (new_rx_world lane secret now s) (replicate (Z.to_nat (writers cfg + 1)) new_channel).

(** What the other lanes do to the state they share with this one, whose part of
    the output starts at [base] and has [len] bytes: claim the transfer's size,
    prepare the output, write their own parts, store the session's total and the
    digest; and what the checkpoints do to the output. *)
Inductive others (base len : Z) : RxShared -> RxShared -> Prop :=
| others_claim total st dg hd key s :
    is_u64 total -> total <> kUnset -> others base len (mkRxShared _ kUnset SinkPending st dg hd key s) (mkRxShared _ total SinkPending st dg hd key s)
| others_prepared total st st' dg hd key s s' :
    total <> kUnset -> sink_ok s' -> lenZ (sink_data s') = total -> total < 2 ^ 63 ->
    others base len (mkRxShared _ total SinkPending st dg hd key s) (mkRxShared _ total SinkReady st' dg hd key s')
| others_failed total st dg hd key s s' :
    total <> kUnset -> others base len (mkRxShared _ total SinkPending st dg hd key s) (mkRxShared _ total SinkFailed st dg hd key s')
| others_write total st dg hd key s s' :
    sink_ok s' -> lenZ (sink_data s') = lenZ (sink_data s) ->
    (forall q, 0 <= q < len -> sink_data s' !! Z.to_nat (base + q) = sink_data s !! Z.to_nat (base + q)) ->
    others base len (mkRxShared _ total SinkReady st dg hd key s) (mkRxShared _ total SinkReady st dg hd key s')
| others_unready total ss st dg hd key s s' :
    ss <> SinkReady -> (sink_fresh s -> sink_fresh s') -> others base len (mkRxShared _ total ss st dg hd key s) (mkRxShared _ total ss st dg hd key s')
| others_aside total ss st st' dg dg' hd hd' key s :
    others base len (mkRxShared _ total ss st dg hd key s) (mkRxShared _ total ss st' dg' hd' key s).

(** One step of the lane's reader or of one of its consumers, or a change [outside]
    makes to what they share.  [net] says which datagrams may arrive. *)
Inductive lane_step (net : LaneKey -> bytes -> Prop) (outside : RxShared -> RxShared -> Prop) : System -> System -> Prop :=
| step_arrival w chs now : w_exit w = None -> lane_step net outside (mkSystem _ w chs) (mkSystem _ (note_arrival w now) chs)
| step_datagram w chs src dg now rnd room w' :
    w_exit w = None -> Forall is_u8 dg -> Forall is_u8 (pa_addr src) -> is_u64 rnd -> net (sh_key (w_shared w)) dg ->
    on_datagram cfg lane w src dg now rnd room = Ok w' ->
    lane_step net outside (mkSystem _ w chs) (mkSystem _ (take_handed w') (hand_over chs (w_handed w')))
| step_result w chs k ch c out r w' :
    w_exit w = None -> is_u64 (snd r) -> chs !! k = Some ch -> ch_out ch = c :: out -> take_result lane w c r = Ok w' ->
    lane_step net outside (mkSystem _ w chs) (mkSystem _ w' (<[k := mkChannel (ch_in ch) out (ch_cs ch)]> chs))
| step_publish w chs : w_exit w = None -> lane_step net outside (mkSystem _ w chs) (mkSystem _ (publish w) chs)
| step_tail w chs i w' :
    w_exit w = None -> xs_have_start (rl_session (w_lane w)) = true -> recv_tail cfg lane w i = Ok w' ->
    lane_step net outside (mkSystem _ w chs) (mkSystem _ w' chs)
| step_abandon w chs st w' :
    w_exit w = None -> st <> StOk -> abandon lane w st = Ok w' -> lane_step net outside (mkSystem _ w chs) (mkSystem _ w' chs)
| step_aborted w chs :
    w_exit w = None -> xt_peer_aborted (rl_timers (w_lane w)) = true ->
    lane_step net outside (mkSystem _ w chs) (mkSystem _ (leave w (classify (w_lane w) PeerAborted)) chs)
| step_consume w chs k ch olds cs s failed comps :
    chs !! k = Some ch ->
    drain_channel (want_crypto cfg) (sh_key (w_shared w)) lane (ch_cs ch) (sh_sink (w_shared w)) (ch_in ch) olds = Ok (cs, s, failed, comps) ->
    lane_step net outside (mkSystem _ w chs)
      (mkSystem _ (set_sink w s) (<[k := mkChannel (drop (length comps) (ch_in ch)) (ch_out ch ++ comps) cs]> chs))
| step_others w chs sh :
    outside (w_shared w) sh -> lane_step net outside (mkSystem _ w chs) (mkSystem _ (set_shared w sh) chs).

(** A lane of [len] bytes from [base] of the output, next to the other lanes. *)
Definition step (net : LaneKey -> bytes -> Prop) (base len : Z) : System -> System -> Prop := lane_step net (others base len).

End Step.

(** ** Blocks with a consumer *)

Definition slot_seq (s : PacketSlot) : Z :=
  match decode_data_datagram (ps_dg s) with Ok d => bh_seq_no (dd_hdr d) | _ => 0 end.

Definition channel_seqs (c : Channel) : list Z := (slot_seq <$> ch_in c) ++ (cp_seq <$> ch_out c).

Definition in_flight (chs : list Channel) : list Z := chs ≫= channel_seqs.

Lemma in_flight_insert chs k ch ch' :
  chs !! k = Some ch ->
  exists rest, in_flight chs ≡ₚ channel_seqs ch ++ rest /\ in_flight (<[k := ch']> chs) ≡ₚ channel_seqs ch' ++ rest.
Proof.
  intros E. exists (in_flight (take k chs) ++ in_flight (drop (S k) chs)). unfold in_flight. split.
  - rewrite <- (take_drop_middle chs k ch E) at 1. rewrite bind_app, bind_cons. solve_Permutation.
  - rewrite insert_take_drop by by eapply lookup_lt_Some. rewrite bind_app, bind_cons. solve_Permutation.
Qed.

(** ** The window and the blocks in flight *)

(** [fl] are the sequence numbers with a consumer, [acc] those the window holds. *)
Record window_inv (b : RxBlocks) (fl : list Z) (acc : gset Z) : Prop := {
  wi_rx : rinv (xb_rx b) acc;
  wi_ws : rs_window_size (xb_rx b) = 1024;
  wi_len : lenZ (xb_dispatched b) = 1024;
  wi_nodup : NoDup fl;
  wi_flight : forall s, s ∈ fl -> rs_base_seq_no (xb_rx b) <= s < rs_base_seq_no (xb_rx b) + 1024 /\ s < kUnset /\ (s ∉ acc) /\
    getZ (xb_dispatched b) (s mod 1024) = s;
  wi_marks : forall i, 0 <= i < 1024 -> getZ (xb_dispatched b) i <> kUnset ->
    getZ (xb_dispatched b) i ∈ fl /\ getZ (xb_dispatched b) i mod 1024 = i;
  wi_pending : xb_pending b = lenZ fl;
}.

#[export] Instance window_inv_proper b : Proper ((≡ₚ) ==> (=) ==> iff) (window_inv b).
Proof.
  assert (forall fl fl' acc, fl ≡ₚ fl' -> window_inv b fl acc -> window_inv b fl' acc) as H.
  { intros fl fl' acc Hp [? ? ? ? Hf Hm ?]. split; try done.
    - by rewrite <- Hp.
    - intros s. rewrite <- Hp. apply Hf.
    - intros i Hi Hne. rewrite <- Hp. by apply Hm.
    - unfold lenZ in *. by rewrite <- Hp. }
  intros fl fl' Hp acc ? <-. split; apply H; [done | by symmetry].
Qed.

Lemma window_count b fl acc : window_inv b fl acc -> 0 <= lenZ fl <= 1024.
Proof.
  intros W. split; [apply lenZ_nonneg |]. set (base := rs_base_seq_no (xb_rx b)).
  assert (fl ⊆+ seqZ base 1024) as H%submseteq_length.
  { apply NoDup_submseteq; [apply W |]. intros s Hs%(wi_flight _ _ _ W). apply elem_of_seqZ. unfold base. lia. }
  rewrite length_seqZ in H. unfold lenZ. lia.
Qed.

Lemma window_new lane : window_inv (rl_blocks (new_rx_lane lane [] 0)) [] ∅.
Proof.
  split; cbn [rl_blocks new_rx_lane xb_rx xb_dispatched xb_pending]; try done.
  - apply new_receiver_inv.
  - constructor.
  - by intros s ?%elem_of_nil.
  - intros i Hi []. apply getZ_lookup; [lia |]. apply lookup_replicate_2. change (Z.to_nat kWindow) with 1024%nat. lia.
Qed.

Lemma window_dispatch b fl acc q :
  window_inv b fl acc -> rs_base_seq_no (xb_rx b) <= q < rs_base_seq_no (xb_rx b) + 1024 -> is_u64 q ->
  is_received (xb_rx b) (q - rs_base_seq_no (xb_rx b)) = false -> getZ (xb_dispatched b) (q mod 1024) <> q ->
  window_inv (dispatch b q) (q :: fl) acc.
Proof.
  intros W Hq Hu Hr Hm. pose proof W as [I Hws Hl Hn Hf Hk Hp]. pose proof (window_count _ _ _ W). destruct I as [R Hmex].
  assert (0 <= q mod 1024 < 1024) as Hi by (apply Z.mod_pos_bound; lia).
  assert (q ∉ fl) as Hnew by (intros Hin; by apply Hf in Hin as (_ & _ & _ & ?)).
  assert (q ∉ acc) as Hacc.
  { unfold is_received in Hr. rewrite Hws, (received_at_repr _ acc) in Hr.
    - destruct (Z.ltb_spec (q - rs_base_seq_no (xb_rx b)) 1024); [| lia]. cbn [andb] in Hr.
      apply bool_decide_eq_false in Hr. by replace (u64 _) with q in Hr by ulia.
    - done.
    - replace (u64 _) with q by ulia. lia. }
  assert (q < kUnset) as Hlt.
  { assert (q <> kUnset); [| unfold kUnset, is_u64 in *; lia]. intros ->.
    destruct (Hk (kUnset mod 1024) Hi Hm) as [Hin Hs]. apply Hf in Hin as (Hin & Hlt & _).
    apply (slot_inj (rs_base_seq_no (xb_rx b))) in Hs; [by destruct Hm | done | done]. }
  split; cbn [dispatch xb_rx xb_dispatched xb_pending]; change kWindow with 1024; try done.
  - by rewrite lenZ_setZ.
  - by constructor.
  - intros s [-> | Hs]%elem_of_cons; [split_and!; try (done || lia); by rewrite getZ_setZ, Z.eqb_refl by lia |].
    destruct (Hf s Hs) as (? & ? & ? & ?). split_and!; try (done || lia).
    pose proof (Z.mod_pos_bound s 1024 ltac:(lia)). rewrite getZ_setZ by lia.
    destruct (Z.eqb_spec (q mod 1024) (s mod 1024)) as [E |]; [| done].
    apply (slot_inj (rs_base_seq_no (xb_rx b))) in E; [by subst | done | done].
  - intros i Hi'. rewrite getZ_setZ by lia. destruct (Z.eqb_spec (q mod 1024) i) as [<- |].
    + split; [by apply elem_of_cons; left | done].
    + intros [? ?]%Hk; [| done]. split; [by apply elem_of_cons; right | done].
  - rewrite Hp, lenZ_cons. ulia.
Qed.

Lemma window_retire b fl acc q :
  window_inv b (q :: fl) acc -> window_inv (retire b q) fl acc /\ (q ∉ acc) /\ 0 <= q < kUnset /\
    rs_base_seq_no (xb_rx b) <= q < rs_base_seq_no (xb_rx b) + 1024.
Proof.
  intros W. pose proof W as [I Hws Hl Hn Hf Hk Hp]. pose proof (window_count _ _ _ W) as Hc. rewrite lenZ_cons in *.
  apply NoDup_cons in Hn as [Hnew Hn]. destruct (Hf q ltac:(by apply elem_of_cons; left)) as (Hq & Hlt & Hna & Hd).
  assert (0 <= q) by (destruct I as [R _]; pose proof (rr_base _ _ _ (rc_ring _ _ R)); lia).
  assert (0 <= q mod 1024 < 1024) as Hi by (apply Z.mod_pos_bound; lia).
  split; [| split_and!; (done || lia)].
  split; cbn [retire xb_rx xb_dispatched xb_pending]; change kWindow with 1024; try done; rewrite ?Hd, ?Z.eqb_refl.
  - by rewrite lenZ_setZ.
  - intros s Hs. destruct (Hf s ltac:(by apply elem_of_cons; right)) as (? & ? & ? & ?). split_and!; try (done || lia).
    pose proof (Z.mod_pos_bound s 1024 ltac:(lia)). rewrite getZ_setZ by lia.
    destruct (Z.eqb_spec (q mod 1024) (s mod 1024)) as [E |]; [| done].
    apply (slot_inj (rs_base_seq_no (xb_rx b))) in E; [by subst | done | done].
  - intros i Hi'. rewrite getZ_setZ by lia. destruct (Z.eqb_spec (q mod 1024) i) as [<- | Hne]; [done |].
    intros [[E | ?]%elem_of_cons Hs]%Hk; [| done | done]. congruence.
  - rewrite Hp. pose proof (lenZ_nonneg fl). ulia.
Qed.

(** The window takes a new block: those in flight stay inside it. *)
Lemma window_enter b fl acc rx acc' fs :
  window_inv b fl acc -> rinv rx acc' -> rs_window_size rx = 1024 -> acc ⊆ acc' ->
  (forall s, s ∈ fl -> s ∉ acc') -> window_inv (enter_block b rx fs) fl acc'.
Proof.
  intros W I' Hws' Hsub Hno. pose proof W as [I Hws Hl Hn Hf Hk Hp].
  assert (rs_base_seq_no (xb_rx b) <= rs_base_seq_no rx) as Hmono.
  { destruct I as [R _], I' as [R' Hm']. destruct (Z.le_gt_cases (rs_base_seq_no (xb_rx b)) (rs_base_seq_no rx)); [done |].
    destruct Hm'. apply Hsub, (rr_below _ _ _ (rc_ring _ _ R)). pose proof (rr_base _ _ _ (rc_ring _ _ R')). lia. }
  split; cbn [enter_block xb_rx xb_dispatched xb_pending]; try done.
  intros s Hs. destruct (Hf s Hs) as (? & ? & ? & ?). pose proof (Hno s Hs) as Hna. split_and!; try (done || lia).
  destruct I' as [R' _]. destruct (Z.le_gt_cases (rs_base_seq_no rx) s); [done |].
  destruct Hna. apply (rr_below _ _ _ (rc_ring _ _ R')). destruct I as [R _]. pose proof (rr_base _ _ _ (rc_ring _ _ R)). lia.
Qed.

(** ** What a block's bytes in the output amount to *)

Section Contract.
Context `{B : CryptoBackend} `{S : Sink} `{!SinkLaws S} (cfg : TransferConfig) (lane : Z).

(** The sender's side: the bytes of the lane, where the lane starts in the output,
    and the blocks by sequence number as offset and length. *)
Context (source : bytes) (base : Z) (plan : list (Z * Z)).

Definition wf_plan : Prop :=
  0 <= base /\ lenZ plan < 2 ^ 64 - 1 /\ Forall (fun '(o, l) => 0 <= o /\ 0 <= l /\ o + l <= lenZ source) plan.

(** A DATA datagram that passes authentication is a block of the plan. *)
Definition honest_block (key : LaneKey) (dg : bytes) : Prop :=
  forall d body, decode_data_datagram dg = Ok d -> body_of (want_crypto cfg) key lane d = Some body ->
    exists l, plan !! Z.to_nat (bh_seq_no (dd_hdr d)) = Some (bh_offset (dd_hdr d), l) /\
      default [] body = slice source (bh_offset (dd_hdr d)) l /\
      (Z.land (bh_flags (dd_hdr d)) kFlagLastBlock <> 0 <-> bh_seq_no (dd_hdr d) + 1 = lenZ plan).

(** A StreamStart that passes authentication announces the lane. *)
Definition honest_start (dg : bytes) : Prop :=
  forall ss key trial, decode_stream_start dg default_stream_start = Ok ss ->
    authenticate_start cfg lane ss dg = Ok (true, key, trial) ->
    ss_stream_base_offset ss = base /\ ss_total_bytes ss = lenZ source.

(** What may arrive while [key] is the lane's; before a key is agreed, blocks are not
    looked at. *)
Definition honest (key : LaneKey) (dg : bytes) : Prop :=
  ((want_crypto cfg = true -> lk_ready key = true) -> honest_block key dg) /\ honest_start dg.

(** The output holds the source's bytes [o, o+l) of the lane. *)
Definition landed (data : bytes) (o l : Z) : Prop :=
  forall q, o <= q < o + l -> data !! Z.to_nat (base + q) = source !! Z.to_nat q.

Definition keeps_landed (data data' : bytes) : Prop :=
  forall o l, 0 <= o -> o + l <= lenZ source -> landed data o l -> landed data' o l.

(** Outside the lane's part the output is as before. *)
Definition keeps_outside (data data' : bytes) : Prop :=
  forall q, 0 <= q -> q < base \/ base + lenZ source <= q -> data' !! Z.to_nat q = data !! Z.to_nat q.

Definition block_len (s : Z) : Z := match plan !! Z.to_nat s with Some (_, l) => l | None => 0 end.

Definition block_landed (data : bytes) (s : Z) : Prop :=
  0 <= s < lenZ plan /\ exists o l, plan !! Z.to_nat s = Some (o, l) /\ landed data o l.

(** An item of a batch is a piece of the source at its place. *)
Definition sourced (item : option (Z * bytes)) : Prop :=
  match item with
  | Some (off, b) => exists o, off = base + o /\ 0 <= o /\ o + lenZ b <= lenZ source /\ b = slice source o (lenZ b)
  | None => True
  end.

Definition item_landed (data : bytes) (item : option (Z * bytes)) : Prop :=
  match item with Some (off, b) => landed data (off - base) (lenZ b) | None => True end.

Lemma landed_splice data o l p k b :
  0 <= base -> base + lenZ source <= lenZ data -> 0 <= o -> 0 <= p -> p + lenZ b <= lenZ source -> b = slice source p (lenZ b) ->
  0 <= k <= lenZ b -> landed data o l -> landed (splice data (base + p) (take (Z.to_nat k) b)) o l.
Proof.
  intros Hb Hd Ho Hp Hl Eb Hk L q Hq. pose proof (lenZ_take b k Hk) as El. rewrite splice_lookup by lia. rewrite El.
  destruct (Z.leb_spec (base + p) (Z.of_nat (Z.to_nat (base + q)))); cbn [andb]; [| by apply L].
  destruct (Z.ltb_spec (Z.of_nat (Z.to_nat (base + q))) (base + p + k)); [| by apply L].
  rewrite lookup_take_lt, Eb, slice_lookup by lia. f_equal. lia.
Qed.

Lemma outside_splice data p k b :
  0 <= base -> base + lenZ source <= lenZ data -> 0 <= p -> p + lenZ b <= lenZ source -> 0 <= k <= lenZ b ->
  keeps_outside data (splice data (base + p) (take (Z.to_nat k) b)).
Proof.
  intros Hb Hd Hp Hl Hk q Hq Ho. pose proof (lenZ_take b k Hk) as El. rewrite splice_lookup by lia. rewrite El.
  destruct (Z.leb_spec (base + p) (Z.of_nat (Z.to_nat q))); cbn [andb]; [| done]. destruct (Z.ltb_spec (Z.of_nat (Z.to_nat q)) (base + p + k)); [lia | done].
Qed.

Lemma landed_block data p b :
  0 <= base -> base + lenZ source <= lenZ data -> 0 <= p -> p + lenZ b <= lenZ source -> b = slice source p (lenZ b) ->
  landed (splice data (base + p) b) p (lenZ b).
Proof.
  intros Hb Hd Hp Hl Eb q Hq. rewrite splice_lookup by lia.
  destruct (Z.leb_spec (base + p) (Z.of_nat (Z.to_nat (base + q)))); cbn [andb]; [| lia].
  destruct (Z.ltb_spec (Z.of_nat (Z.to_nat (base + q))) (base + p + lenZ b)); [| lia].
  rewrite Eb, slice_lookup by lia. f_equal. lia.
Qed.

Lemma splice_whole data p b : splice data p b = splice data p (take (Z.to_nat (lenZ b)) b).
Proof. rewrite firstn_all2 by (unfold lenZ; lia). done. Qed.

(** Writing pieces of the source keeps what has landed, and what is not the lane's. *)
Lemma written_as_keeps data items cs data' cs' failed :
  written_as data items cs data' cs' failed -> 0 <= base -> base + lenZ source <= lenZ data -> Forall sourced items ->
  lenZ data' = lenZ data /\ keeps_landed data data' /\ keeps_outside data data'.
Proof.
  intros W Hb. induction W as [data | data c items cs data' cs' f W IH | data off b c items cs data' cs' f W IH
    | data off b k c items cs data' cs' f Hk W IH]; intros Hd Hs; [by split; [| split; intros ?] | | |];
    apply Forall_cons in Hs as [Hs1 Hs]; [by apply IH | |];
    destruct Hs1 as (p & -> & Hp & Hl & Eb).
  - rewrite (splice_whole _ _ b) in *. pose proof (lenZ_nonneg b).
    assert (lenZ (splice data (base + p) (take (Z.to_nat (lenZ b)) b)) = lenZ data) as El
      by (apply splice_length; rewrite ?lenZ_take; lia).
    destruct IH as (-> & IH & IHo); [lia | done |]. split; [done |]. split.
    + intros o l Ho Hol L. apply IH; [done | done |]. apply landed_splice; (done || lia).
    + intros q Hq Ho. rewrite IHo by done. apply outside_splice; (done || lia).
  - assert (lenZ (splice data (base + p) (take (Z.to_nat k) b)) = lenZ data) as El
      by (apply splice_length; rewrite ?lenZ_take; lia).
    destruct IH as (-> & IH & IHo); [lia | done |]. split; [done |]. split.
    + intros o l Ho Hol L. apply IH; [done | done |]. apply landed_splice; (done || lia).
    + intros q Hq Ho. rewrite IHo by done. apply outside_splice; (done || lia).
Qed.

(** Every block of a batch is reported as it stands and has landed, or reported as
    not written. *)
Lemma written_as_reports {A} (P : Prop) (f : A -> option (Z * bytes)) (g : A -> Completion) batch data data' cs' failed :
  written_as data (f <$> batch) (g <$> batch) data' cs' failed ->
  (P -> 0 <= base /\ base + lenZ source <= lenZ data /\ Forall (fun a => sourced (f a)) batch) ->
  Forall2 (fun a c => (c = g a /\ (P -> item_landed data' (f a))) \/ c = set_result (g a) 0 IoFailed) batch cs'.
Proof.
  intros W. remember (f <$> batch) as items eqn:Ei. remember (g <$> batch) as cs eqn:Ec. revert batch Ei Ec.
  induction W as [data | data c items cs data' cs' fl W IH | data off b c items cs data' cs' fl W IH
    | data off b k c items cs data' cs' fl Hk W IH]; intros [| a batch] Ei Ec HP; try done;
    cbn in Ei, Ec; injection Ei as Ea Ei; injection Ec as Eg Ec; subst c.
  - constructor; [left; by rewrite <- Ea |]. apply IH; [done | done |]. intros (? & ? & [_ ?]%Forall_cons)%HP. done.
  - assert (P -> exists p, off = base + p /\ 0 <= p /\ p + lenZ b <= lenZ source /\ b = slice source p (lenZ b) /\
      lenZ (splice data off b) = lenZ data) as Hb.
    { intros (? & ? & [Hs1 _]%Forall_cons)%HP. rewrite <- Ea in Hs1. destruct Hs1 as (p & -> & Hp & Hl & Eb). exists p.
      split_and!; try done. apply splice_length; lia. }
    constructor.
    + left. split; [done |]. intros HPP. destruct (Hb HPP) as (p & -> & Hp & Hl & Eb & El). destruct (HP HPP) as (? & ? & [_ ?]%Forall_cons).
      rewrite <- Ea. cbn [item_landed]. replace (base + p - base) with p by lia.
      eapply (written_as_keeps _ _ _ _ _ _ W); [done | lia | subst; by apply Forall_fmap | done | done |]. by apply landed_block.
    + apply IH; [done | done |]. intros HPP. destruct (Hb HPP) as (p & -> & _ & _ & _ & El). destruct (HP HPP) as (? & ? & [_ ?]%Forall_cons). by rewrite El.
  - constructor; [by right |]. apply IH; [done | done |]. intros (? & ? & [Hs1 ?]%Forall_cons)%HP. rewrite <- Ea in Hs1.
    destruct Hs1 as (p & -> & Hp & Hl & Eb). rewrite splice_length by (rewrite ?lenZ_take; lia). done.
Qed.

(** ** The invariant *)

(** What concerns the contents is claimed if the network is honest; the rest holds
    whatever it delivers. *)
Context (hon : Prop).

Definition slot_good (total : Z) (key : LaneKey) (s : PacketSlot) : Prop :=
  slot_ok total s /\ (hon -> ps_lane_base s = base /\ ps_lane_total s = lenZ source /\ honest_block key (ps_dg s)).

Definition done_good (data : bytes) (c : Completion) : Prop :=
  is_u64 (cp_send_time c) /\
  (hon -> cp_result c = Written ->
   block_landed data (cp_seq c) /\ cp_bytes c = block_len (cp_seq c) /\
   (Z.land (cp_flags c) kFlagLastBlock <> 0 <-> cp_seq c + 1 = lenZ plan)).

Record chan_good (data : bytes) (key : LaneKey) (ch : Channel) : Prop := {
  cg_in : Forall (slot_good (lenZ data) key) (ch_in ch);
  cg_out : Forall (done_good data) (ch_out ch);
  cg_cs : consumer_inv key lane (ch_cs ch);
}.

(** The shared output. *)
Definition shared_inv (sh : RxShared) (live : Prop) : Prop :=
  match sh_sink_state sh with
  | SinkReady => sink_ok (sh_sink sh) /\ lenZ (sink_data (sh_sink sh)) = sh_file_total sh /\ sh_file_total sh < 2 ^ 63
  | SinkPending => sh_file_total sh = kUnset -> sink_fresh (sh_sink sh)
  | SinkFailed => sh_file_total sh = kUnset -> ~ live
  end.

(** The session, once it has started; until then nothing is in flight. *)
Definition session_inv (w : RxWorld) (chs : list Channel) (acc : gset Z) : Prop :=
  let s := rl_session (w_lane w) in
  let sh := w_shared w in
  if xs_have_start s
  then sh_sink_state sh = SinkReady /\ 0 <= xs_lane_base s /\ 0 <= xs_shard_bytes s /\
       xs_lane_base s + xs_shard_bytes s <= lenZ (sink_data (sh_sink sh)) /\ (want_crypto cfg = true -> lk_ready (sh_key sh) = true) /\
       (hon -> xs_lane_base s = base /\ xs_shard_bytes s = lenZ source)
  else acc = ∅ /\ Forall (eq new_channel) chs.

(** [order] lists the blocks the window has accepted. *)
Record sys_inv (sy : System) (acc : gset Z) (order : list Z) : Prop := {
  si_window : window_inv (rl_blocks (w_lane (sy_world sy))) (in_flight (sy_channels sy)) acc;
  si_count : lenZ (sy_channels sy) = writers cfg + 1;
  si_handed : w_handed (sy_world sy) = [];
  si_chans : Forall (chan_good (sink_data (sh_sink (w_shared (sy_world sy)))) (sh_key (w_shared (sy_world sy)))) (sy_channels sy);
  si_shared : shared_inv (w_shared (sy_world sy)) (w_exit (sy_world sy) = None);
  si_session : session_inv (sy_world sy) (sy_channels sy) acc;
  si_acc : hon -> forall s, s ∈ acc -> block_landed (sink_data (sh_sink (w_shared (sy_world sy)))) s;
  si_nodup : NoDup order;
  si_order : forall s, s ∈ order <-> s ∈ acc;
  si_written : hon -> xb_written (rl_blocks (w_lane (sy_world sy))) = u64 (sumZ block_len order);
  si_final : hon -> xb_final_seq (rl_blocks (w_lane (sy_world sy))) = kUnset \/
             xb_final_seq (rl_blocks (w_lane (sy_world sy))) = lenZ plan - 1;
  si_exit : hon -> w_exit (sy_world sy) = Some StOk ->
    (forall s, 0 <= s < lenZ plan -> s ∈ acc) /\
    xb_written (rl_blocks (w_lane (sy_world sy))) = xs_expected_bytes (rl_session (w_lane (sy_world sy)));
}.

Lemma sys_inv_kept w w' chs acc order : sys_inv (mkSystem _ w chs) acc order -> kept w w' -> sys_inv (mkSystem _ w' chs) acc order.
Proof.
  intros [] (Eb & Es & Esh & Eh & Ee & _). cbn [sy_world sy_channels] in *.
  injection Es as E1 E2 E3 E4 E5. injection Esh as F1 F2 F3 F4.
  unfold session_inv, shared_inv in *.
  split; cbn [sy_world sy_channels]; unfold session_inv, shared_inv; rewrite ?Eb, ?E1, ?E3, ?E4, ?E5, ?F1, ?F2, ?F3, ?F4, ?Eh, ?Ee; done.
Qed.

Lemma sys_inv_exit w chs acc order st :
  sys_inv (mkSystem _ w chs) acc order ->
  (hon -> st = StOk -> (forall s, 0 <= s < lenZ plan -> s ∈ acc) /\
     xb_written (rl_blocks (w_lane w)) = xs_expected_bytes (rl_session (w_lane w))) ->
  sys_inv (mkSystem _ (set_exit w st) chs) acc order.
Proof.
  intros [] Hst. split; cbn in *; try done.
  - unfold shared_inv in *. by destruct (sh_sink_state (w_shared w)).
  - by intros Hh [= ->]; apply Hst.
Qed.

Lemma new_in_flight chs : Forall (eq new_channel) chs -> in_flight chs = [].
Proof. induction 1 as [| c chs <- _ IH]; [done |]. unfold in_flight in *. rewrite bind_cons, IH. done. Qed.

Lemma new_chan_good data key chs : Forall (eq new_channel) chs -> Forall (chan_good data key) chs.
Proof. intros H. eapply Forall_impl; [exact H |]. intros c <-. by repeat constructor. Qed.

(** ** The consumers' side *)

Lemma plan_entry s o l : wf_plan -> plan !! Z.to_nat s = Some (o, l) -> 0 <= o /\ 0 <= l /\ o + l <= lenZ source.
Proof. intros (_ & _ & H) E. by apply (Forall_lookup_1 _ _ _ _ H E). Qed.

Lemma slot_decoded total s : slot_ok total s -> exists d, decode_data_datagram (ps_dg s) = Ok d /\
    is_u64 (bh_seq_no (dd_hdr d)) /\ is_u64 (bh_offset (dd_hdr d)) /\ is_u64 (dd_send_time_ns d).
Proof. intros ([d Ed] & Hb & _). exists d. split; [done |]. destruct (data_sound _ _ Hb Ed) as [(Hh & ? & _) _]. by destruct Hh as (_ & ? & _ & _ & ?). Qed.

Lemma report_seq key s : decodable s -> cp_seq (report_of (want_crypto cfg) key lane s) = slot_seq s.
Proof. intros [d Ed]. unfold report_of, slot_seq. rewrite Ed. by destruct (body_of _ _ _ _). Qed.

Lemma slot_sourced total key s :
  hon -> wf_plan -> total < 2 ^ 63 -> slot_good total key s -> sourced (item_of (want_crypto cfg) key lane s).
Proof.
  intros Hhon Hp Ht (Hok & Hg). destruct (Hg Hhon) as (Hb & Hl & Hh). destruct (slot_decoded _ _ Hok) as (d & Ed & Hs & Ho & _). destruct Hok as (_ & _ & Hb0 & Hl0 & Hle).
  unfold item_of. rewrite Ed. destruct (body_of _ _ _ _) as [body |] eqn:Eb; [| done].
  destruct (Hh d body Ed Eb) as (l & Epl & Ebody & _). destruct (plan_entry _ _ _ Hp Epl) as (? & ? & ?).
  destruct body as [b |]; [| done]. cbn in Ebody. cbn [block_item]. split_if; [| done]. subst b. rewrite lenZ_slice in * by lia.
  rewrite Hb, Hl in *. exists (bh_offset (dd_hdr d)). rewrite lenZ_slice by lia. split_and!; try (done || lia). apply u64_small. unfold is_u64. lia.
Qed.

Lemma slot_report total data key s :
  (hon -> wf_plan) -> total < 2 ^ 63 -> slot_good total key s -> (hon -> item_landed data (item_of (want_crypto cfg) key lane s)) ->
  done_good data (report_of (want_crypto cfg) key lane s).
Proof.
  intros Hp Ht (Hok & Hg) L. destruct (slot_decoded _ _ Hok) as (d & Ed & Hs & Ho & Hti). destruct Hok as (_ & _ & Hb0 & Hl0 & Hle).
  split; [unfold report_of; rewrite Ed; by destruct (body_of _ _ _ _) |]. intros Hhon. specialize (L Hhon). specialize (Hp Hhon). destruct (Hg Hhon) as (Hb & Hl & Hh).
  revert L. unfold report_of, item_of, block_len. rewrite Ed. destruct (body_of _ _ _ _) as [body |] eqn:Eb; [| done].
  destruct (Hh d body Ed Eb) as (l & Epl & Ebody & Hlast). destruct (plan_entry _ _ _ Hp Epl) as (? & ? & ?).
  pose proof (lookup_lt_Some _ _ _ Epl) as Hlt.
  pose proof (lenZ_slice source (bh_offset (dd_hdr d)) l ltac:(lia) ltac:(lia) ltac:(lia)) as Esl. rewrite <- Ebody in Esl.
  cbn [set_result cp_seq cp_bytes cp_flags cp_result]. intros L _. rewrite Epl.
  assert (0 <= bh_seq_no (dd_hdr d) < lenZ plan) as Hr by (unfold lenZ, is_u64 in *; lia).
  destruct body as [b |]; cbn in Ebody, Esl; cbn [block_item] in L |- *.
  2: { assert (l = 0) as -> by (unfold lenZ in Esl; cbn in Esl; lia). split; [split; [done |] | by split; [lia |]].
       eexists _, 0. split; [done |]. intros q Hq. lia. }
  destruct ((0 <? lenZ b) && _ && _) eqn:Ec; cbn [item_landed] in L.
  - rewrite u64_small in L by (unfold is_u64; lia). rewrite Hb, Esl in L. replace (base + _ - base) with (bh_offset (dd_hdr d)) in L by lia.
    split; [split; [done |] | done]. by eexists _, l.
  - assert (l = 0) as -> by (rewrite Hl in Ec; lia). split; [split; [done |] | done]. eexists _, 0. split; [done |]. intros q Hq. lia.
Qed.

Lemma done_good_keeps data data' c :
  (hon -> wf_plan) -> (hon -> keeps_landed data data') -> done_good data c -> done_good data' c.
Proof.
  intros Hp' K' [Gt G]. split; [done |]. intros Hhon E. pose proof (K' Hhon) as K. pose proof (Hp' Hhon) as Hp. destruct (G Hhon E) as ((Hr & o & l & Epl & L) & ? & ?). split; [split; [done |] | done]. exists o, l. split; [done |].
  destruct (plan_entry _ _ _ Hp Epl) as (? & ? & ?). by apply K.
Qed.

Lemma block_landed_keeps data data' s :
  wf_plan -> keeps_landed data data' -> block_landed data s -> block_landed data' s.
Proof.
  intros Hp K (Hr & o & l & Epl & L). split; [done |]. exists o, l. split; [done |].
  destruct (plan_entry _ _ _ Hp Epl) as (? & ? & ?). by apply K.
Qed.

Lemma chan_good_keeps data data' key ch :
  (hon -> wf_plan) -> lenZ data' = lenZ data -> (hon -> keeps_landed data data') ->
  chan_good data key ch -> chan_good data' key ch.
Proof.
  intros Hp El K [Hi Ho Hc]. split; [by rewrite El | | done]. eapply Forall_impl; [exact Ho |]. intros c. by apply done_good_keeps.
Qed.

Lemma reports_good total data key batch comps :
  (hon -> wf_plan) -> total < 2 ^ 63 -> Forall (slot_good total key) batch ->
  Forall2 (fun a c => (c = report_of (want_crypto cfg) key lane a /\ (hon -> item_landed data (item_of (want_crypto cfg) key lane a))) \/
    c = set_result (report_of (want_crypto cfg) key lane a) 0 IoFailed) batch comps ->
  Forall (done_good data) comps /\ cp_seq <$> comps = slot_seq <$> batch.
Proof.
  intros Hp Ht G R. induction R as [| a c l l' Hac R IH]; [done |]. apply Forall_cons in G as [Ga G].
  destruct (IH G) as [IH1 IH2]. cbn. rewrite IH2.
  assert (cp_seq (report_of (want_crypto cfg) key lane a) = slot_seq a) as Ea by (apply report_seq, Ga).
  destruct Hac as [[-> L] | ->]; (split; [constructor; [| done] | cbn; by rewrite Ea]).
  - by eapply slot_report.
  - split; [| done]. destruct (slot_decoded _ _ (proj1 Ga)) as (d & Ed & _ & _ & ?). cbn. unfold report_of. rewrite Ed. by destruct (body_of _ _ _ _).
Qed.

(** A batch of a channel: its blocks move from one ring to the other. *)
Lemma drain_good key sk ch olds cs s failed comps :
  (hon -> wf_plan /\ base + lenZ source <= lenZ (sink_data sk)) -> sink_ok sk -> lenZ (sink_data sk) < 2 ^ 63 ->
  (want_crypto cfg = true -> lk_ready key = true) -> chan_good (sink_data sk) key ch ->
  drain_channel (want_crypto cfg) key lane (ch_cs ch) sk (ch_in ch) olds = Ok (cs, s, failed, comps) ->
  let ch' := mkChannel (drop (length comps) (ch_in ch)) (ch_out ch ++ comps) cs in
  sink_ok s /\ lenZ (sink_data s) = lenZ (sink_data sk) /\
  (hon -> keeps_landed (sink_data sk) (sink_data s) /\ keeps_outside (sink_data sk) (sink_data s)) /\
  chan_good (sink_data s) key ch' /\ channel_seqs ch' ≡ₚ channel_seqs ch.
Proof.
  intros Hp Hs Ht Hr G E. pose proof G as [Gi Go Gc]. assert (hon -> wf_plan) as Hp' by (intros []%Hp; done).
  destruct (drain_channel_spec (want_crypto cfg) key lane (ch_cs ch) sk (ch_in ch) olds) as (cs' & s' & comps' & E' & Hc' & Hs' & El & f & W);
    [done | lia | done | done | eapply Forall_impl; [exact Gi | by intros ? []] |].
  rewrite E in E'. injection E' as <- <- _ <-. set (n := Z.to_nat (Z.min (Z.min (lenZ (ch_in ch)) (lenZ olds)) kWriteBatch)) in *.
  assert (Forall (slot_good (lenZ (sink_data sk)) key) (take n (ch_in ch))) as Gt by by apply Forall_take.
  assert (hon -> 0 <= base /\ base + lenZ source <= lenZ (sink_data sk) /\
    Forall (fun a => sourced (item_of (want_crypto cfg) key lane a)) (take n (ch_in ch))) as Hsrc.
  { intros Hhon. destruct (Hp Hhon) as [Hw Hle]. split_and!; [apply Hw | done |].
    eapply Forall_impl; [exact Gt |]. intros a Ha. by eapply slot_sourced. }
  assert (hon -> keeps_landed (sink_data sk) (sink_data s) /\ keeps_outside (sink_data sk) (sink_data s)) as K.
  { intros (? & ? & ?)%Hsrc. eapply (written_as_keeps _ _ _ _ _ _ W); [done | done | by apply Forall_fmap]. }
  pose proof (written_as_reports hon _ _ _ _ _ _ _ W Hsrc) as R.
  assert (length comps = length (take n (ch_in ch))) as Elen by (symmetry; by eapply Forall2_length).
  assert (take (length comps) (ch_in ch) = take n (ch_in ch)) as Etk by (by rewrite Elen, length_take, <- take_take, firstn_all).
  destruct (reports_good _ _ _ _ _ Hp' Ht Gt R) as [Gn Eseq].
  split_and!; try done.
  - split; cbn; [rewrite El; by apply Forall_drop | | done]. apply Forall_app. split; [| done].
    eapply Forall_impl; [exact Go |]. intros c. apply done_good_keeps; [done |]. by intros []%K.
  - unfold channel_seqs. cbn. rewrite fmap_app, Eseq, <- Etk.
    rewrite <- (take_drop (length comps) (ch_in ch)) at 3. rewrite fmap_app. solve_Permutation.
Qed.

(** ** Every step keeps the invariant *)

Lemma window_same b b' fl acc :
  xb_rx b' = xb_rx b -> xb_dispatched b' = xb_dispatched b -> xb_pending b' = xb_pending b -> window_inv b fl acc -> window_inv b' fl acc.
Proof. intros E1 E2 E3 []. by split; rewrite ?E1, ?E2, ?E3. Qed.

(** The output changes under the lane, without losing what has landed. *)
Lemma sys_inv_sink w chs acc order sh :
  (hon -> wf_plan) -> sys_inv (mkSystem _ w chs) acc order -> sh_key sh = sh_key (w_shared w) ->
  shared_inv sh (w_exit w = None) ->
  (sh_sink_state (w_shared w) = SinkReady -> sh_sink_state sh = SinkReady /\
     lenZ (sink_data (sh_sink sh)) = lenZ (sink_data (sh_sink (w_shared w))) /\
     (hon -> keeps_landed (sink_data (sh_sink (w_shared w))) (sink_data (sh_sink sh)))) ->
  sys_inv (mkSystem _ (set_shared w sh) chs) acc order.
Proof.
  intros Hp [W Hn Hh Hc Hsh Hs Ha Ho1 Ho2 Hw Hf He] Ek Hsh' K. cbn [sy_world sy_channels] in *.
  unfold session_inv in Hs. split; cbn [sy_world sy_channels set_shared w_lane w_shared w_exit w_handed]; try done; rewrite ?Ek.
  - destruct (xs_have_start _); [| by apply new_chan_good, Hs]. destruct Hs as (Hr & _). destruct (K Hr) as (_ & El & Kl).
    eapply Forall_impl; [exact Hc |]. intros ch. by apply chan_good_keeps.
  - unfold session_inv. cbn. destruct (xs_have_start _); [| done]. destruct Hs as (Hr & ? & ? & ? & ? & ?). destruct (K Hr) as (-> & -> & _). by rewrite Ek.
  - intros Hhon s Hs'. destruct (xs_have_start _); [| by destruct Hs as [-> _]]. destruct Hs as (Hr & _). destruct (K Hr) as (_ & _ & Kl).
    eapply block_landed_keeps; [by apply Hp | by apply Kl | by apply Ha].
Qed.

Lemma others_inv w chs acc order sh :
  (hon -> wf_plan) -> sys_inv (mkSystem _ w chs) acc order -> others base (lenZ source) (w_shared w) sh ->
  sys_inv (mkSystem _ (set_shared w sh) chs) acc order.
Proof.
  intros Hp I O. pose proof (si_shared _ _ _ I) as Hsh. cbn [sy_world] in Hsh.
  remember (w_shared w) as sh0 eqn:E0. unfold shared_inv in Hsh.
  destruct O as [total st dg hd key sk Hu Hne | total st st' dg hd key sk sk' Hne Hok El Hlt | total st dg hd key sk sk' Hne
    | total st dg hd key sk sk' Hok El Hq | total ss st dg hd key sk sk' Hns Hfr | total ss st st' dg dg' hd hd' key sk];
    apply sys_inv_sink; rewrite <- ?E0; try done; unfold shared_inv; cbn [sh_sink_state sh_sink sh_file_total] in *; try done.
  - rewrite El. destruct Hsh as (_ & -> & ?). done.
  - intros _. split_and!; try done. intros _ o l Ho Hol L q Hq'. rewrite Hq by lia. by apply L.
  - destruct ss; [by intros Hu; apply Hfr, Hsh | done | done].
  - intros Hr. split_and!; [done | done |]. by intros _ ?.
Qed.

Lemma consumed_inv w chs acc order k ch olds cs s failed comps :
  (hon -> wf_plan) -> sys_inv (mkSystem _ w chs) acc order -> chs !! k = Some ch ->
  drain_channel (want_crypto cfg) (sh_key (w_shared w)) lane (ch_cs ch) (sh_sink (w_shared w)) (ch_in ch) olds = Ok (cs, s, failed, comps) ->
  sys_inv (mkSystem _ (set_sink w s) (<[k := mkChannel (drop (length comps) (ch_in ch)) (ch_out ch ++ comps) cs]> chs)) acc order.
Proof.
  intros Hp I Ek E. pose proof I as [W Hn Hh Hc Hsh Hs Ha Ho1 Ho2 Hw Hf He]. cbn [sy_world sy_channels] in *.
  pose proof (Forall_lookup_1 _ _ _ _ Hc Ek) as Gch. unfold session_inv in Hs. destruct (xs_have_start _) eqn:Eh.
  - destruct Hs as (Hr & Hb & Hl & Hle & Hk & Hhon). unfold shared_inv in Hsh. rewrite Hr in Hsh. destruct Hsh as (Hok & Hft & Hlt).
    destruct (fun H => drain_good _ _ _ _ _ _ _ _ H Hok ltac:(lia) Hk Gch E) as (Hok' & El & Kl & Gch' & Hperm).
    { intros Hh'. destruct (Hhon Hh') as [<- <-]. split; [by apply Hp | done]. }
    assert (sys_inv (mkSystem _ (set_sink w s) chs) acc order) as I'.
    { apply sys_inv_sink; try done; [| intros _; split_and!; [done | done |]; by intros []%Kl]. unfold shared_inv. cbn. rewrite Hr. split_and!; (done || lia). }
    destruct I' as [W' _ Hh' Hc' Hsh' Hs' Ha' _ _ Hw' Hf' He']. cbn [sy_world sy_channels] in *.
    destruct (in_flight_insert chs k ch (mkChannel (drop (length comps) (ch_in ch)) (ch_out ch ++ comps) cs) Ek) as (rest & P1 & P2).
    split; cbn [sy_world sy_channels]; try done.
    + by rewrite P2, Hperm, <- P1.
    + unfold lenZ in *. by rewrite length_insert.
    + by apply Forall_insert.
    + unfold session_inv in *. cbn in *. by rewrite Eh in *.
  - destruct Hs as [-> Hnew]. pose proof (Forall_lookup_1 _ _ _ _ Hnew Ek) as <-.
    unfold drain_channel in E. cbn [new_channel ch_in ch_cs] in E. change (lenZ (@nil PacketSlot)) with 0 in E.
    replace (Z.min (Z.min 0 (lenZ olds)) kWriteBatch) with 0 in E by (pose proof (lenZ_nonneg olds); unfold kWriteBatch; lia).
    injection E as <- <- <- <-. rewrite list_insert_id by done. apply (sys_inv_kept w); [done |]. by split_and!.
Qed.

(** A verdict: the block leaves its ring and, if it was written, enters the window. *)
Lemma result_window b b' fl acc c data :
  window_inv b (cp_seq c :: fl) acc -> done_good data c -> result_blocks b c b' ->
  if decide (cp_result c = Written)
  then window_inv b' fl ({[cp_seq c]} ∪ acc) /\ (cp_seq c ∉ acc) /\
       (hon -> block_landed data (cp_seq c) /\ xb_written b' = u64 (xb_written b + block_len (cp_seq c)) /\
          (xb_final_seq b' = xb_final_seq b \/ xb_final_seq b' = lenZ plan - 1))
  else window_inv b' fl acc /\ xb_written b' = xb_written b /\ xb_final_seq b' = xb_final_seq b.
Proof.
  intros W [_ G] R. destruct (window_retire _ _ _ _ W) as (W1 & Hna & Hq & Hwin).
  pose proof (wi_nodup _ _ _ W) as [Hnfl _]%NoDup_cons.
  unfold result_blocks in R. destruct (cp_result c); cbn [decide].
  2, 3: subst b'; (split; [by eapply window_same, W1 | done]).
  destruct R as (res & rx & t1 & t2 & E & Eb). pose proof (wi_ws _ _ _ W1) as Hws.
  pose proof (on_receive_correct _ acc (cp_seq c) (cp_send_time c) t1 (wi_rx _ _ _ W1) Hq) as H.
  unfold receive_spec in H. rewrite decide_False in H by done. rewrite Hws in H. cbn [retire xb_rx] in H, E.
  destruct (Z.leb_spec 1024 (cp_seq c - rs_base_seq_no (xb_rx b))); [lia |].
  destruct H as (rx' & E' & I' & Hws' & _). rewrite E in E'. injection E' as -> ->. subst b'. split_and!; [| done |].
  - assert (window_inv (enter_block (retire b (cp_seq c)) rx' 0) fl ({[cp_seq c]} ∪ acc)) as W2; [| by eapply window_same, W2].
    apply (window_enter _ _ acc); [done | done | by rewrite Hws' | set_solver |].
    intros s Hs. pose proof (wi_flight _ _ _ W1 s Hs) as (_ & _ & ? & _).
    intros [->%elem_of_singleton | ?]%elem_of_union; done.
  - intros Hhon. destruct (G Hhon eq_refl) as (HL & Hby & Hlast). cbn. rewrite Hby. split_and!; [done | done |].
    destruct (Z.eqb_spec (Z.land (cp_flags c) kFlagLastBlock) 0) as [_ | Hne]; cbn [negb]; [by left |]. right. apply Hlast in Hne. lia.
Qed.

Lemma take_head chs k ch c out :
  chs !! k = Some ch -> ch_out ch = c :: out ->
  in_flight chs ≡ₚ cp_seq c :: in_flight (<[k := mkChannel (ch_in ch) out (ch_cs ch)]> chs).
Proof.
  intros Ek Eo. destruct (in_flight_insert chs k ch (mkChannel (ch_in ch) out (ch_cs ch)) Ek) as (rest & -> & ->).
  unfold channel_seqs. cbn. rewrite Eo. cbn. solve_Permutation.
Qed.

Lemma result_inv w chs acc order k ch c out r w' :
  sys_inv (mkSystem _ w chs) acc order -> w_exit w = None -> chs !! k = Some ch -> ch_out ch = c :: out ->
  take_result lane w c r = Ok w' ->
  exists acc' order', acc ⊆ acc' /\ sys_inv (mkSystem _ w' (<[k := mkChannel (ch_in ch) out (ch_cs ch)]> chs)) acc' order'.
Proof.
  intros I Ex Ek Eo (b' & R & K)%take_result_cases. pose proof I as [W Hn Hh Hc Hsh Hs Ha Ho1 Ho2 Hw Hf He]. cbn [sy_world sy_channels] in *.
  pose proof (Forall_lookup_1 _ _ _ _ Hc Ek) as [Gi Go Gcs]. rewrite Eo in Go. apply Forall_cons in Go as [Gc Go].
  rewrite (take_head _ _ _ _ _ Ek Eo) in W. pose proof (result_window _ _ _ _ _ _ W Gc R) as RW.
  assert (session_inv (set_lane w (set_blocks (w_lane w) b')) (<[k := mkChannel (ch_in ch) out (ch_cs ch)]> chs) acc /\
          xs_have_start (rl_session (w_lane w)) = true) as [Hs' Hst].
  { unfold session_inv in *. cbn in *. destruct (xs_have_start _); [done |]. destruct Hs as [_ Hnew].
    pose proof (Forall_lookup_1 _ _ _ _ Hnew Ek) as <-. done. }
  assert (forall acc' order', window_inv b' (in_flight (<[k := mkChannel (ch_in ch) out (ch_cs ch)]> chs)) acc' ->
    (hon -> forall s, s ∈ acc' -> block_landed (sink_data (sh_sink (w_shared w))) s) -> NoDup order' -> (forall s, s ∈ order' <-> s ∈ acc') ->
    (hon -> xb_written b' = u64 (sumZ block_len order')) -> (hon -> xb_final_seq b' = kUnset \/ xb_final_seq b' = lenZ plan - 1) ->
    sys_inv (mkSystem _ w' (<[k := mkChannel (ch_in ch) out (ch_cs ch)]> chs)) acc' order') as Build.
  { intros acc' order' W' Ha' Hno Hor Hw' Hf'. eapply sys_inv_kept, K. split; cbn [sy_world sy_channels set_lane w_lane w_shared w_handed w_exit set_blocks rl_blocks]; try done.
    - unfold lenZ in *. by rewrite length_insert.
    - by apply Forall_insert.
    - unfold session_inv in *. cbn in *. by rewrite Hst in *.
    - by rewrite Ex. }
  destruct (decide (cp_result c = Written)).
  - destruct RW as (W' & Hna & HL). exists ({[cp_seq c]} ∪ acc), (cp_seq c :: order). split; [set_solver |]. apply Build; [done | | | | |].
    + intros Hhon s [->%elem_of_singleton | ?]%elem_of_union; [by apply HL | by apply Ha].
    + constructor; [by rewrite Ho2 | done].
    + intros s. rewrite elem_of_cons, elem_of_union, elem_of_singleton, Ho2. done.
    + intros Hhon. destruct (HL Hhon) as (_ & -> & _). rewrite (Hw Hhon). unfold sumZ. cbn [foldr]. fold (sumZ block_len order). ulia.
    + intros Hhon. destruct (HL Hhon) as (_ & _ & [-> | ->]); [by apply Hf | by right].
  - destruct RW as (W' & Hw' & Hf'). exists acc, order. split; [done |]. apply Build; try done; rewrite ?Hw', ?Hf'; done.
Qed.

(** *** Starting the session *)

Lemma claim_ready sh ss sh' (live : Prop) :
  wf_msg ss -> shared_inv sh live -> live -> claim_output sh ss = Ok (Some sh') -> sh_sink_state sh' = SinkReady ->
  shared_inv sh' live /\ sh_file_total sh' = ss_file_total_bytes ss.
Proof.
  intros Hwf Hsh Hlive. unfold claim_output. destruct (Z.eqb_spec (sh_file_total sh) kUnset) as [Eu | Eu].
  - assert (sink_fresh (sh_sink sh)) as Hfr.
    { unfold shared_inv in Hsh. destruct (sh_sink_state sh); [by apply Hsh | unfold kUnset in Eu; lia | by destruct Hsh]. }
    destruct (sink_prepare_result (sh_sink sh) (ss_file_total_bytes ss) (ss_file_id ss)) as (s' & ok & -> & Hok); [done | apply Hwf | apply Hwf |].
    cbn [res_bind]. intros [= <-]. cbn. destruct ok; [| done]. destruct (Hok eq_refl) as (? & ? & ?). intros _. by unfold shared_inv.
  - destruct (Z.eqb_spec (sh_file_total sh) (ss_file_total_bytes ss)); cbn [negb]; [| done]. by intros [= <-].
Qed.

Lemma refused_inv w chs acc order src dg w' :
  sys_inv (mkSystem _ w chs) acc order -> start_refused cfg lane w src dg w' -> sys_inv (mkSystem _ w' chs) acc order.
Proof.
  intros [W Hn Hh Hc Hsh Hs Ha Ho1 Ho2 Hw Hf He] (ss & key & trial & sh & A & Hst & Eb & Es & Esh & Eh & _ & Ee). cbn [sy_world sy_channels] in *.
  unfold session_inv in Hs. rewrite (sa_new _ _ _ _ _ _ _ _ _ A) in Hs. destruct Hs as [-> Hnew].
  split; cbn [sy_world sy_channels]; rewrite ?Eb, ?Es, ?Esh, ?Eh, ?Ee; try done.
  - by apply new_chan_good.
  - unfold shared_inv. by rewrite Hst.
  - unfold session_inv. by rewrite Es, (sa_new _ _ _ _ _ _ _ _ _ A).
Qed.

Lemma joined_inv w chs acc order src dg w' :
  Forall is_u8 dg -> (hon -> honest_start dg) -> w_exit w = None ->
  sys_inv (mkSystem _ w chs) acc order -> start_joined cfg lane w src dg w' -> sys_inv (mkSystem _ w' chs) acc order.
Proof.
  intros Hb Hh0 Ex [W Hn Hh Hc Hsh Hs Ha Ho1 Ho2 Hw Hf He]
    (ss & key & trial & sh & want & A & Hst & _ & (answer & Es & _) & Esh & Eb & Eh & Ee & _). cbn [sy_world sy_channels] in *.
  pose proof (sa_new _ _ _ _ _ _ _ _ _ A) as Hnew. unfold session_inv in Hs. rewrite Hnew in Hs. destruct Hs as [-> Hchs].
  pose proof (fun H => Hh0 H ss key trial (sa_decoded _ _ _ _ _ _ _ _ _ A) (sa_authentic _ _ _ _ _ _ _ _ _ A)) as Hhon.
  destruct (stream_start_sound dg ss Hb (sa_decoded _ _ _ _ _ _ _ _ _ A)) as [Hwf _].
  destruct (claim_ready _ _ _ _ Hwf Hsh Ex (sa_claimed _ _ _ _ _ _ _ _ _ A) Hst) as [Hsh' Hft].
  pose proof (sa_inside _ _ _ _ _ _ _ _ _ A) as Hin.
  assert (sh_sink_state (w_shared w') = SinkReady /\ sh_sink (w_shared w') = sh_sink sh /\ sh_file_total (w_shared w') = sh_file_total sh /\
          (want_crypto cfg = true -> lk_ready (sh_key (w_shared w')) = true)) as (F1 & F2 & F3 & F4) by (rewrite Esh; by destruct (want_crypto cfg)).
  assert (shared_inv (w_shared w') (w_exit w = None)) as Hsh'' by (unfold shared_inv in *; by rewrite F1, F2, F3; rewrite Hst in Hsh').
  split; cbn [sy_world sy_channels]; rewrite ?Eb, ?Eh, ?Ee; try done.
  - by apply new_chan_good.
  - unfold session_inv. rewrite Es. cbn. rewrite F1, F2. unfold shared_inv in Hsh'. rewrite Hst in Hsh'.
    destruct Hwf as (_ & _ & _ & ? & _ & _ & ? & _). unfold is_u64 in *. split_and!; (done || lia).
  - by rewrite Ex.
Qed.

(** *** Handing out a block *)

Lemma route_range hdr : wf_config cfg -> 0 <= route cfg hdr < writers cfg + 1.
Proof.
  intros Hc. assert (1 <= writers cfg <= 65535) as Hw by (unfold writers, wf_config, is_u16 in *; lia).
  unfold route. destruct (negb _); [lia |]. assert (0 <= bh_seq_no hdr / kRouteRun mod writers cfg < writers cfg) by (apply Z.mod_pos_bound; lia).
  rewrite u16_small; [lia |]. unfold is_u16. lia.
Qed.

Lemma handed_inv w chs acc order src dg room w' :
  wf_config cfg -> Forall is_u8 dg ->
  (hon -> (want_crypto cfg = true -> lk_ready (sh_key (w_shared w)) = true) -> honest_block (sh_key (w_shared w)) dg) -> w_exit w = None ->
  sys_inv (mkSystem _ w chs) acc order -> block_handed cfg w src dg room w' ->
  sys_inv (mkSystem _ (take_handed w') (hand_over chs (w_handed w'))) acc order.
Proof.
  intros Hcfg Hby Hh0 Ex [W Hn Hh Hc Hsh Hs Ha Ho1 Ho2 Hw Hf He] (d & Ed & Hst & Hwin & Hrec & Hmark & _ & ->).
  cbn [sy_world sy_channels] in *. unfold session_inv in Hs. rewrite Hst in Hs. destruct Hs as (Hr & Hb & Hl & Hle & Hk & Hhon).
  pose proof (route_range (dd_hdr d) Hcfg) as Hroute. set (k := Z.to_nat (route cfg (dd_hdr d))).
  set (sl := mkPacketSlot src (xs_lane_base (rl_session (w_lane w))) (xs_shard_bytes (rl_session (w_lane w))) dg).
  destruct (data_sound _ _ Hby Ed) as [(Hhdr & _) _]. destruct Hhdr as (_ & Hseq & _ & _ & _).
  destruct (lookup_lt_is_Some_2 chs k) as [ch Ech]; [unfold k, lenZ in *; lia |].
  assert (hand_over chs (w_handed (add_handed (set_lane w (set_blocks (w_lane w) (dispatch (rl_blocks (w_lane w)) (bh_seq_no (dd_hdr d)))))
    (route cfg (dd_hdr d)) sl)) = <[k := push_slot sl ch]> chs) as ->.
  { cbn [add_handed w_handed set_lane]. rewrite Hh. cbn. fold k. by rewrite Ech. }
  destruct (in_flight_insert chs k ch (push_slot sl ch) Ech) as (rest & P1 & P2).
  assert (in_flight (<[k := push_slot sl ch]> chs) ≡ₚ bh_seq_no (dd_hdr d) :: in_flight chs) as P.
  { rewrite P2, P1. unfold channel_seqs, push_slot. cbn. rewrite fmap_app. cbn. unfold slot_seq at 2. cbn. rewrite Ed. solve_Permutation. }
  pose proof (Forall_lookup_1 _ _ _ _ Hc Ech) as [Gi Go Gcs].
  split; cbn [sy_world sy_channels take_handed add_handed set_lane w_lane w_shared w_handed w_exit set_blocks rl_blocks]; try done.
  - rewrite P. by apply window_dispatch.
  - unfold lenZ in *. by rewrite length_insert.
  - apply Forall_insert; [done |]. split; cbn; [| done | done]. apply Forall_app. split; [done |]. constructor; [| done].
    split; [unfold slot_ok; cbn; split_and!; try (done || lia); by exists d |]. intros Hh'. destruct (Hhon Hh') as [<- <-]. split_and!; [done | done | by apply Hh0].
  - unfold session_inv. cbn. by rewrite Hst.
Qed.

(** *** Acknowledging, and leaving *)

Lemma window_nacked b fl acc rx nack t d1 d2 sent_ns :
  window_inv b fl acc -> collect_nacks (xb_rx b) t d1 d2 default_nack = Ok (rx, nack) -> window_inv (set_nacked b rx sent_ns) fl acc.
Proof.
  intros W E. pose proof W as [I Hws Hl Hn Hf Hk Hpd].
  destruct (collect_nacks_correct _ acc t d1 d2 default_nack I) as (rx' & nack' & E' & Sc); [done |].
  rewrite E in E'. injection E' as <- <-. destruct Sc as (_ & _ & _ & _ & _ & _ & [Er _] & I').
  split; cbn [set_nacked xb_rx xb_dispatched xb_pending]; try done; rewrite Er; done.
Qed.

(** All of the plan is in the window when the base is past the last block. *)
Lemma window_complete b fl acc :
  window_inv b fl acc -> (forall s, s ∈ acc -> 0 <= s < lenZ plan) -> xb_final_seq b = kUnset \/ xb_final_seq b = lenZ plan - 1 ->
  xb_final_seq b <> kUnset -> xb_final_seq b < rs_base_seq_no (xb_rx b) -> forall s, 0 <= s < lenZ plan -> s ∈ acc.
Proof.
  intros W Ha [? | Ef] Hne Hlt s Hs; [done |]. destruct (wi_rx _ _ _ W) as [R _]. apply (rr_below _ _ _ (rc_ring _ _ R)). lia.
Qed.

Lemma classify_ok l st : classify l st = StOk -> st = StOk.
Proof. unfold classify. destruct (_ && _); [done |]. by destruct (_ && _). Qed.

Lemma tail_inv w chs acc order i w' :
  sys_inv (mkSystem _ w chs) acc order -> recv_tail cfg lane w i = Ok w' -> sys_inv (mkSystem _ w' chs) acc order.
Proof.
  intros I. unfold recv_tail. destruct (maybe_ack _ _ _ _) as [| | w1] eqn:E1; cbn [res_bind]; [done | done |].
  apply maybe_ack_kept in E1. pose proof (sys_inv_kept _ _ _ _ _ I E1) as I1.
  destruct (maybe_nack _ _) as [| | w2] eqn:E2; cbn [res_bind]; [done | done |].
  apply maybe_nack_cases in E2 as (rx & nack & sent_ns & En & K2).
  assert (sys_inv (mkSystem _ w2 chs) acc order) as I2.
  { eapply sys_inv_kept, K2. destruct I1. cbn [sy_world sy_channels] in *. split; cbn; try done. by eapply window_nacked. }
  destruct (check_complete _ _ _) as [w3 q] eqn:E3. apply check_complete_kept in E3 as [K3 Hq].
  pose proof (sys_inv_kept _ _ _ _ _ I2 K3) as I3. destruct q; [| by intros <-%Ok_inj].
  intros (w4 & K4 & K5)%finish_lane_kept. pose proof (sys_inv_kept _ _ _ _ _ I3 K4) as I4.
  eapply sys_inv_kept, K5. apply sys_inv_exit; [done |]. intros Hhon Hst. unfold final_status in Hst. apply classify_ok in Hst.
  destruct (Z.eqb_spec (xb_written (rl_blocks (w_lane w4))) (xs_expected_bytes (rl_session (w_lane w4)))); [| done]. split; [| done].
  destruct (Hq eq_refl) as [Hne Hlt]. apply (window_complete _ _ _ (si_window _ _ _ I2)); [| by apply I2 | done | done].
  intros s Hs%(si_acc _ _ _ I2 Hhon). apply Hs.
Qed.

(** *** All steps *)

Lemma step_inv net sy sy' acc order :
  (hon -> wf_plan) -> (forall key dg, net key dg -> hon -> honest key dg) -> wf_config cfg ->
  sys_inv sy acc order -> step cfg lane net base (lenZ source) sy sy' ->
  exists acc' order', acc ⊆ acc' /\ sys_inv sy' acc' order'.
Proof.
  intros Hp Hnet Hcfg I St. destruct St as [w chs now Ex | w chs src dg now rnd room w' Ex Hby _ _ Hnd E | w chs k ch c out r w' Ex _ Ek Eo E
    | w chs Ex | w chs i w' Ex Hst E | w chs st w' Ex Hst E | w chs Ex Hab | w chs k ch olds cs s failed comps Ek E | w chs sh O].
  - exists acc, order. split; [done |]. eapply sys_inv_kept; [exact I | apply note_arrival_kept].
  - exists acc, order. split; [done |]. pose proof (Hnet _ _ Hnd) as Hh0. apply on_datagram_cases in E as [K | [R | [J | H]]].
    + pose proof (sys_inv_kept _ _ _ _ _ I K) as I'. pose proof (si_handed _ _ _ I') as Hh. cbn in Hh. rewrite Hh.
      eapply sys_inv_kept; [exact I' |]. by split_and!.
    + pose proof (refused_inv _ _ _ _ _ _ _ I R) as I'. pose proof (si_handed _ _ _ I') as Hh. cbn in Hh. rewrite Hh.
      eapply sys_inv_kept; [exact I' |]. by split_and!.
    + pose proof (joined_inv _ _ _ _ _ _ _ Hby (fun H => proj2 (Hh0 H)) Ex I J) as I'. pose proof (si_handed _ _ _ I') as Hh. cbn in Hh. rewrite Hh.
      eapply sys_inv_kept; [exact I' |]. by split_and!.
    + by apply (handed_inv _ _ _ _ _ _ _ _ Hcfg Hby (fun H => proj1 (Hh0 H)) Ex I H).
  - by eapply result_inv.
  - exists acc, order. split; [done |]. eapply sys_inv_kept; [exact I |]. by split_and!.
  - exists acc, order. split; [done |]. by eapply tail_inv.
  - exists acc, order. split; [done |]. eapply sys_inv_kept; [| by eapply abandon_kept]. by apply sys_inv_exit.
  - exists acc, order. split; [done |]. eapply sys_inv_kept; [| apply leave_kept]. apply sys_inv_exit; [done |]. by intros _ ?%classify_ok.
  - exists acc, order. split; [done |]. by eapply consumed_inv.
  - exists acc, order. split; [done |]. by apply others_inv.
Qed.

Lemma new_system_inv secret now s :
  sink_fresh s -> sys_inv (new_system cfg lane secret now s) ∅ [].
Proof.
  intros Hf. assert (Forall (eq new_channel) (replicate (Z.to_nat (writers cfg + 1)) new_channel)) as Hnew by (by apply Forall_replicate).
  split; cbn [new_system sy_world sy_channels new_rx_world w_lane w_shared w_handed w_exit]; try done.
  - rewrite new_in_flight by done. apply window_new.
  - unfold lenZ. rewrite length_replicate. unfold writers. lia.
  - by apply new_chan_good.
  - by intros _.
  - constructor.
  - intros s'. by rewrite elem_of_nil, elem_of_empty.
  - by left.
Qed.

Lemma reach_inv net secret now s sy :
  (hon -> wf_plan) -> (forall key dg, net key dg -> hon -> honest key dg) -> wf_config cfg -> sink_fresh s ->
  rtc (step cfg lane net base (lenZ source)) (new_system cfg lane secret now s) sy -> exists acc order, sys_inv sy acc order.
Proof.
  intros Hp Hnet Hcfg Hf R. assert (exists acc order, sys_inv (new_system cfg lane secret now s) acc order) as H by (eexists _, _; by apply new_system_inv).
  induction R as [sy | sy1 sy2 sy3 St R IH]; [done |]. destruct H as (acc & order & I).
  destruct (step_inv _ _ _ _ _ Hp Hnet Hcfg I St) as (acc' & order' & _ & I'). apply IH. by eexists _, _.
Qed.

(** *** What the invariant says of an acknowledgement and of the total *)

Lemma landed_slice data o l :
  0 <= base -> 0 <= o -> 0 <= l -> o + l <= lenZ source -> base + lenZ source <= lenZ data -> landed data o l ->
  slice data (base + o) l = slice source o l.
Proof.
  intros Hb Ho Hl Hs Hd L. apply list_eq. intros i. destruct (Z.lt_ge_cases (Z.of_nat i) l).
  - rewrite !slice_lookup by lia. replace (Z.to_nat (base + o) + i)%nat with (Z.to_nat (base + (o + Z.of_nat i))) by lia.
    rewrite L by lia. f_equal. lia.
  - rewrite !lookup_ge_None_2; [done | ..]; unfold slice; rewrite length_take; lia.
Qed.

Lemma block_landed_slice sy acc order s :
  hon -> wf_plan -> sys_inv sy acc order -> s ∈ acc ->
  exists o l, plan !! Z.to_nat s = Some (o, l) /\ slice (sink_data (sh_sink (w_shared (sy_world sy)))) (base + o) l = slice source o l.
Proof.
  intros Hhon Hp I Hs. destruct (si_acc _ _ _ I Hhon s Hs) as (_ & o & l & Epl & L). exists o, l. split; [done |].
  destruct (plan_entry _ _ _ Hp Epl) as (? & ? & ?). pose proof (si_session _ _ _ I) as Hses. unfold session_inv in Hses.
  destruct (xs_have_start _); [| destruct Hses as [-> _]; by apply elem_of_empty in Hs]. destruct Hses as (_ & _ & _ & Hle & _ & He).
  destruct (He Hhon) as [E1 E2]. apply landed_slice; try done; [apply Hp | lia].
Qed.

Lemma order_total order :
  NoDup order -> (forall s, s ∈ order <-> 0 <= s < lenZ plan) -> sumZ block_len order = sumZ snd plan.
Proof.
  intros Hn Ho. assert (order ≡ₚ seqZ 0 (lenZ plan)) as P.
  { apply NoDup_Permutation; [done | apply NoDup_seqZ |]. intros s. rewrite Ho, elem_of_seqZ. lia. }
  rewrite (sumZ_perm _ _ _ P). clear. unfold block_len. assert (forall k, sumZ (fun s => match plan !! Z.to_nat s with Some (_, l) => l | None => 0 end) (seqZ (Z.of_nat k) (lenZ plan - Z.of_nat k)) = sumZ snd (drop k plan)) as H.
  { intros k. remember (drop k plan) as rest eqn:E. revert k E. induction rest as [| [o l] rest IH]; intros k E.
    - assert (lenZ plan - Z.of_nat k <= 0) by (pose proof (f_equal length E) as El; rewrite length_drop in El; unfold lenZ; cbn in El; lia).
      by rewrite seqZ_nil.
    - assert (plan !! k = Some (o, l)) as Ek by (rewrite <- (Nat.add_0_r k), <- lookup_drop, <- E; done).
      pose proof (lookup_lt_Some _ _ _ Ek). rewrite seqZ_cons by (unfold lenZ; lia). unfold sumZ in *. cbn [foldr].
      rewrite Nat2Z.id, Ek. cbn. f_equal. rewrite <- (IH (Datatypes.S k)); [do 2 f_equal; lia |]. rewrite <- Nat.add_1_r, <- drop_drop, <- E. done. }
  specialize (H 0%nat). cbn in H. by rewrite Z.sub_0_r in H.
Qed.

End Contract.

(** ** Properties *)

Section Properties.
Context `{B : CryptoBackend} `{S : Sink} `{!SinkLaws S} (cfg : TransferConfig) (lane : Z) (source : bytes) (base : Z) (plan : list (Z * Z)).

(** A lane that reports success has delivered: when a lane returns Ok, every block
    of the sender's plan is in the output at its place, and the bytes it counted are
    those of the plan, each block once, and equal to what it had asked for. *)
Theorem ok_lane_has_delivered secret now s sy :
  wf_plan source base plan -> wf_config cfg -> sink_fresh s ->
  rtc (step cfg lane (honest cfg lane source base plan) base (lenZ source)) (new_system cfg lane secret now s) sy ->
  w_exit (sy_world sy) = Some StOk ->
  (forall seq o l, plan !! seq = Some (o, l) ->
     slice (sink_data (sh_sink (w_shared (sy_world sy)))) (base + o) l = slice source o l) /\
  xb_written (rl_blocks (w_lane (sy_world sy))) = u64 (sumZ snd plan) /\
  xs_expected_bytes (rl_session (w_lane (sy_world sy))) = u64 (sumZ snd plan).
Proof.
  intros Hp Hcfg Hf R Ex. destruct (reach_inv cfg lane source base plan True _ _ _ _ _ (fun _ => Hp) (fun _ _ H _ => H) Hcfg Hf R) as (acc & order & I).
  destruct (si_exit _ _ _ _ _ _ _ _ _ I Logic.I Ex) as [Hall He]. rewrite <- He, (si_written _ _ _ _ _ _ _ _ _ I Logic.I).
  rewrite (order_total plan order); [split; [| done] | apply I |].
  - intros seq o l Epl. pose proof (lookup_lt_Some _ _ _ Epl).
    destruct (block_landed_slice cfg lane _ _ _ True _ acc order (Z.of_nat seq) Logic.I Hp I) as (o' & l' & Epl' & E); [apply Hall; unfold lenZ; lia |].
    rewrite Nat2Z.id, Epl in Epl'. by injection Epl' as <- <-.
  - intros q. rewrite (si_order _ _ _ _ _ _ _ _ _ I). split; [| apply Hall]. intros Hq%(si_acc _ _ _ _ _ _ _ _ _ I Logic.I). apply Hq.
Qed.

(** A block is never with two consumers: whatever the network delivers, in every
    state the blocks handed out and
    not yet reported are distinct, lie inside the window and are not acknowledged;
    [pending] counts them, and [dispatched] marks exactly them, so that no mark ever
    blocks a retransmission for good. *)
Theorem blocks_in_flight_once net secret now s sy :
  wf_config cfg -> sink_fresh s ->
  rtc (step cfg lane net base (lenZ source)) (new_system cfg lane secret now s) sy ->
  let b := rl_blocks (w_lane (sy_world sy)) in
  let fl := in_flight (sy_channels sy) in
  NoDup fl /\ xb_pending b = lenZ fl /\
  (forall q, q ∈ fl -> rs_base_seq_no (xb_rx b) <= q < rs_base_seq_no (xb_rx b) + kWindow /\
     is_received (xb_rx b) (q - rs_base_seq_no (xb_rx b)) = false) /\
  (forall q, q ∈ fl <-> getZ (xb_dispatched b) (q mod kWindow) = q /\ q <> kUnset /\ 0 <= q).
Proof.
  intros Hcfg Hf R b fl. destruct (reach_inv cfg lane source base [] False net _ _ _ _ ltac:(done) ltac:(done) Hcfg Hf R) as (acc & order & I).
  pose proof (si_window _ _ _ _ _ _ _ _ _ I) as W. fold b fl in W. destruct (wi_rx _ _ _ W) as [Rc _].
  pose proof (rr_base _ _ _ (rc_ring _ _ Rc)) as Hb0. split_and!; [apply W | apply W | |].
  - intros q Hq. destruct (wi_flight _ _ _ W q Hq) as (Hr & Hlt & Hna & _). split; [done |]. unfold is_received.
    replace (u64 _) with q by (unfold kUnset in Hlt; ulia). rewrite (received_at_repr _ acc) by done.
    rewrite bool_decide_eq_false_2 by done. apply andb_false_r.
  - intros q. change kWindow with 1024. split.
    + intros Hq. destruct (wi_flight _ _ _ W q Hq) as (Hr & Hlt & _ & Hd). split_and!; (done || lia).
    + intros (Hd & Hne & H0). pose proof (Z.mod_pos_bound q 1024 ltac:(lia)) as Hm.
      destruct (wi_marks _ _ _ W (q mod 1024) Hm) as [Hin _]; [by rewrite Hd |]. by rewrite Hd in Hin.
Qed.

End Properties.

(** ** Runs *)

(** Steps of a concrete system, computed. *)
Definition ok_or {A} (r : res A) (a : A) : A := match r with Ok x => x | _ => a end.
Definition is_ok {A} (r : res A) : bool := match r with Ok _ => true | _ => false end.

Lemma ok_or_ok {A} (r : res A) a : is_ok r = true -> r = Ok (ok_or r a).
Proof. by destruct r. Qed.

Section Runs.
Context `{B : CryptoBackend} `{S : Sink} (cfg : TransferConfig) (lane : Z) (net : LaneKey -> bytes -> Prop) (outside : RxShared -> RxShared -> Prop).

Definition room (k : Z) : Z := 16.

Definition running (sy : System) (r : res System) : res System := match w_exit (sy_world sy) with None => r | Some _ => Reject end.

Definition run_arrive (sy : System) (src : PeerAddr) (dg : bytes) : res System :=
  running sy (res_bind (on_datagram cfg lane (sy_world sy) src dg 10 0 room) (fun w =>
  Ok (mkSystem _ (take_handed w) (hand_over (sy_channels sy) (w_handed w))))).

Definition run_consume (sy : System) (k : nat) : res System :=
  match sy_channels sy !! k with
  | None => Reject
  | Some ch =>
      let w := sy_world sy in
      res_bind (drain_channel (want_crypto cfg) (sh_key (w_shared w)) lane (ch_cs ch) (sh_sink (w_shared w)) (ch_in ch) [new_completion]) (fun '(cs, s, _, comps) =>
      Ok (mkSystem _ (set_sink w s) (<[k := mkChannel (drop (length comps) (ch_in ch)) (ch_out ch ++ comps) cs]> (sy_channels sy))))
  end.

Definition run_result (sy : System) (k : nat) : res System :=
  running sy
    match sy_channels sy !! k with
    | Some (mkChannel slots (c :: out) cs) =>
        res_bind (take_result lane (sy_world sy) c (20, 20, 20, 0)) (fun w => Ok (mkSystem _ w (<[k := mkChannel slots out cs]> (sy_channels sy))))
    | _ => Reject
    end.

Definition run_tail (sy : System) (now : Z) : res System :=
  running sy
    (if xs_have_start (rl_session (w_lane (sy_world sy)))
     then res_bind (recv_tail cfg lane (sy_world sy) (mkRxInputs false false false 0 [] [] now room [])) (fun w => Ok (mkSystem _ w (sy_channels sy)))
     else Reject).

Lemma running_inv sy r sy' : running sy r = Ok sy' -> w_exit (sy_world sy) = None /\ r = Ok sy'.
Proof. unfold running. by destruct (w_exit _). Qed.

Lemma run_arrive_step sy src dg :
  Forall is_u8 dg -> Forall is_u8 (pa_addr src) -> net (sh_key (w_shared (sy_world sy))) dg -> is_ok (run_arrive sy src dg) = true ->
  lane_step cfg lane net outside sy (ok_or (run_arrive sy src dg) sy).
Proof.
  intros Hb Hs Hn E. apply (fun H => ok_or_ok _ sy H) in E. revert E. generalize (ok_or (run_arrive sy src dg) sy). intros sy' [Ex E]%running_inv. destruct sy as [w chs]. cbn [sy_world sy_channels] in *.
  destruct (on_datagram _ _ _ _ _ _ _ _) as [| | w'] eqn:Ed; cbn [res_bind] in E; [done | done |]. apply Ok_inj in E as <-.
  by apply (step_datagram cfg lane net outside w chs src dg 10 0 room w').
Qed.

Lemma run_consume_step sy k : is_ok (run_consume sy k) = true -> lane_step cfg lane net outside sy (ok_or (run_consume sy k) sy).
Proof.
  intros E. apply (fun H => ok_or_ok _ sy H) in E. revert E. generalize (ok_or (run_consume sy k) sy). intros sy'.
  unfold run_consume. destruct sy as [w chs]. cbn [sy_world sy_channels]. destruct (chs !! k) as [ch |] eqn:Ek; [| done].
  destruct (drain_channel _ _ _ _ _ _ _) as [| | [[[cs s] f] comps]] eqn:E; cbn [res_bind]; [done | done |]. intros <-%Ok_inj. by eapply step_consume.
Qed.

Lemma run_result_step sy k : is_ok (run_result sy k) = true -> lane_step cfg lane net outside sy (ok_or (run_result sy k) sy).
Proof.
  intros E. apply (fun H => ok_or_ok _ sy H) in E. revert E. generalize (ok_or (run_result sy k) sy). intros sy'.
  intros [Ex E]%running_inv. destruct sy as [w chs]. cbn [sy_world sy_channels] in *.
  destruct (chs !! k) as [[slots [| c out] cs] |] eqn:Ek; [done | | done]. destruct (take_result _ _ _ _) as [| | w'] eqn:Er; cbn [res_bind] in E; [done | done |].
  apply Ok_inj in E as <-. by apply (step_result cfg lane net outside w chs k (mkChannel slots (c :: out) cs) c out (20, 20, 20, 0) w').
Qed.

Lemma run_tail_step sy now : is_ok (run_tail sy now) = true -> lane_step cfg lane net outside sy (ok_or (run_tail sy now) sy).
Proof.
  intros E. apply (fun H => ok_or_ok _ sy H) in E. revert E. generalize (ok_or (run_tail sy now) sy). intros sy'.
  intros [Ex E]%running_inv. destruct sy as [w chs]. cbn [sy_world sy_channels] in *. destruct (xs_have_start _) eqn:Eh; [| done].
  destruct (recv_tail _ _ _ _) as [| | w'] eqn:Er; cbn [res_bind] in E; [done | done |]. apply Ok_inj in E as <-. by eapply step_tail.
Qed.

End Runs.

(** One lane of three bytes, received in the clear into memory: the StreamStart, its
    only block, the write, the verdict, the sender's close, the end. *)
Module Example.

Definition cfg : TransferConfig := mkTransferConfig 4433 1 1200 [] 1000 1000 1 16.
Definition secret : bytes := replicate 16 0.
Definition source : bytes := [7; 8; 9].
Definition plan : list (Z * Z) := [(0, 3)].

Definition start_dg : bytes :=
  stream_start_wire (mkStreamStart 0 1 1200 3 (replicate 16 0) 5 0 3 0 (address_token secret peer_example 5) 0
    (replicate (Z.to_nat kMaxExtensionBytes) 0)).
Definition data_dg : bytes :=
  data_wire (mkDataDatagram (mkBlockHeader 0 0 kFlagLastBlock 3 0) 9 (Some source)).
Definition close_dg : bytes := stream_close_wire (mkStreamClose 0 5 kStreamCloseFinished).

#[local] Existing Instance toy_backend.
#[local] Existing Instance MemorySink.sink.
#[local] Existing Instance MemorySink.sink_laws.

Definition sy0 : System := new_system cfg 0 secret 1 ([], true).
Definition sy1 : System := ok_or (run_arrive cfg 0 sy0 peer_example start_dg) sy0.
Definition sy2 : System := ok_or (run_arrive cfg 0 sy1 peer_example data_dg) sy1.
Definition sy3 : System := ok_or (run_consume cfg 0 sy2 0) sy2.
Definition sy4 : System := ok_or (run_result 0 sy3 0) sy3.
Definition sy5 : System := ok_or (run_arrive cfg 0 sy4 peer_example close_dg) sy4.
Definition sy6 : System := ok_or (run_tail cfg 0 sy5 30) sy5.

Lemma wf : wf_plan source 0 plan /\ wf_config cfg.
Proof.
  split; [| vm_compute; split_and!; (done || constructor)]. split_and!; [done | done |]. apply Forall_singleton. vm_compute. done.
Qed.

Lemma honest_start_dg key : honest cfg 0 source 0 plan key start_dg.
Proof.
  split.
  - intros _ d body E. vm_compute in E. discriminate.
  - intros ss k trial E _. vm_compute in E. injection E as <-. done.
Qed.

Lemma honest_data_dg key : honest cfg 0 source 0 plan key data_dg.
Proof.
  split.
  - intros _ d body E. vm_compute in E. injection E as <-. intros Eb. vm_compute in Eb. injection Eb as <-. exists 3. split_and!; try done.
  - intros ss k trial E _. vm_compute in E. discriminate.
Qed.

Lemma honest_close_dg key : honest cfg 0 source 0 plan key close_dg.
Proof. split; [intros _ ? ? E | intros ? ? ? E]; vm_compute in E; discriminate. Qed.

Lemma bytes_ok : Forall is_u8 start_dg /\ Forall is_u8 data_dg /\ Forall is_u8 close_dg /\ Forall is_u8 (pa_addr peer_example).
Proof. vm_compute. split_and!; repeat constructor; discriminate. Qed.

Notation next := (step cfg 0 (honest cfg 0 source 0 plan) 0 3).

Lemma step1 : next sy0 sy1.
Proof. unfold step, sy1. apply run_arrive_step; [apply bytes_ok | apply bytes_ok | apply honest_start_dg | vm_compute; reflexivity]. Qed.

Lemma step2 : next sy1 sy2.
Proof. unfold step, sy2. apply run_arrive_step; [apply bytes_ok | apply bytes_ok | apply honest_data_dg | vm_compute; reflexivity]. Qed.

Lemma step3 : next sy2 sy3.
Proof. unfold step, sy3. apply run_consume_step. vm_compute. reflexivity. Qed.

Lemma step4 : next sy3 sy4.
Proof. unfold step, sy4. apply run_result_step. vm_compute. reflexivity. Qed.

Lemma step5 : next sy4 sy5.
Proof. unfold step, sy5. apply run_arrive_step; [apply bytes_ok | apply bytes_ok | apply honest_close_dg | vm_compute; reflexivity]. Qed.

Lemma step6 : next sy5 sy6.
Proof. unfold step, sy6. apply run_tail_step. vm_compute. reflexivity. Qed.

Lemma run2 : rtc next sy0 sy2.
Proof. eapply rtc_l; [exact step1 |]. apply rtc_once. exact step2. Qed.

Lemma run : rtc next sy0 sy6.
Proof.
  etrans; [exact run2 |]. eapply rtc_l; [exact step3 |]. eapply rtc_l; [exact step4 |]. eapply rtc_l; [exact step5 |]. apply rtc_once. exact step6.
Qed.

End Example.

Lemma ok_lane_has_delivered_witness :
  (forall seq o l, Example.plan !! seq = Some (o, l) ->
     slice (fst (sh_sink (w_shared (sy_world Example.sy6)))) (0 + o) l = slice Example.source o l) /\
  xb_written (rl_blocks (w_lane (sy_world Example.sy6))) = u64 (sumZ snd Example.plan) /\
  xs_expected_bytes (rl_session (w_lane (sy_world Example.sy6))) = u64 (sumZ snd Example.plan).
Proof.
  destruct Example.wf. apply (ok_lane_has_delivered (B := toy_backend) (S := MemorySink.sink) (SinkLaws0 := MemorySink.sink_laws) Example.cfg 0 Example.source 0 Example.plan
    Example.secret 1 ([], true) Example.sy6); [done | done | done | apply Example.run | vm_compute; reflexivity].
Defined.

Lemma blocks_in_flight_once_witness :
  let b := rl_blocks (w_lane (sy_world Example.sy6)) in
  let fl := in_flight (sy_channels Example.sy6) in
  NoDup fl /\ xb_pending b = lenZ fl /\
  (forall q, q ∈ fl -> rs_base_seq_no (xb_rx b) <= q < rs_base_seq_no (xb_rx b) + kWindow /\
     is_received (xb_rx b) (q - rs_base_seq_no (xb_rx b)) = false) /\
  (forall q, q ∈ fl <-> getZ (xb_dispatched b) (q mod kWindow) = q /\ q <> kUnset /\ 0 <= q).
Proof.
  destruct Example.wf. apply (blocks_in_flight_once (B := toy_backend) (S := MemorySink.sink) (SinkLaws0 := MemorySink.sink_laws) Example.cfg 0 Example.source 0
    (honest (B := toy_backend) Example.cfg 0 Example.source 0 Example.plan) Example.secret 1 ([], true) Example.sy6); [done | done | apply Example.run].
Defined.
