(* ===== verification/RecvSafety.v ===== *)
(** * The receive lane never faults, and what it sends

    Every handler of a receive lane (RecvLane.v) returns on any datagram, any
    completion its consumers can report and any clock: no decoder, encoder or
    signature reads or writes outside its buffer, no loop runs on.  Together with
    RecvSystem.v this makes the pipeline's steps total.  The same pass over the
    handlers follows the datagrams they send: an Ack among them only claims blocks
    that were in the window when it was built, and so in the output. *)

From S2P Require Import Prelude Wire Control Block Hash Window Receiver SessionCrypto Ranges FileSink Peer Status Sinks Pipeline RecvLane RecvSystem Returns.

(** ** The answer to a StreamStart *)

Lemma shift_ordered lo rs hi base :
  0 <= base -> ordered (base + lo) rs (base + hi) -> 0 <= lo -> base + hi < 2 ^ 64 ->
  ordered lo ((fun r => mkResumeRange (u64 (rr_offset r - base)) (rr_length r)) <$> rs) hi.
Proof.
  intros Hb. revert lo. induction rs as [| r rs IH]; intros lo; cbn [fmap list_fmap ordered rr_offset rr_length]; [lia |].
  intros (H1 & H2 & H3) Hl Hh. pose proof (ordered_le _ _ _ H3). rewrite u64_small by (unfold is_u64; lia). split_and!; [lia | done |].
  apply IH; [| lia | done]. by replace (base + (rr_offset r - base + rr_length r)) with (rr_offset r + rr_length r) by lia.
Qed.

(** ** What an Ack claims *)

(** The blocks an Ack reports as received, by its base or by its bitmask. *)
Definition claims (ack : Ack) (seq : Z) : Prop :=
  0 <= seq < ack_base_seq_no ack \/ (0 <= seq - ack_base_seq_no ack < kMaxWindow /\ ack_bit ack (seq - ack_base_seq_no ack) = true).

(** A datagram that, read as an Ack, only claims blocks of [acc]. *)
Definition vouches (acc : gset Z) (dg : bytes) : Prop := forall ack seq, decode_ack dg = Ok ack -> claims ack seq -> seq ∈ acc.

Lemma vouches_mono acc acc' dg : acc ⊆ acc' -> vouches acc dg -> vouches acc' dg.
Proof. intros Hs H ack seq E Hc. by apply Hs, (H ack). Qed.

Lemma peek_vouches acc dg t : peek_msg_type dg = Ok (MsgType.code t) -> t <> MsgType.Ack -> vouches acc dg.
Proof.
  intros E Ht ack seq Ea _. rewrite (decoder_peeks dg MsgType.Ack (exists m, decode_ack dg = Ok m)) in E; [| by do 3 right; left | by exists ack].
  injection E as E%(MsgType.code_inj MsgType.Ack). by subst.
Qed.

Lemma empty_vouches acc : vouches acc [].
Proof. done. Qed.

Lemma typed_vouches acc t to out : typed t to out -> t <> MsgType.Ack -> Forall (fun d => vouches acc (snd d)) out.
Proof. intros H Ht. eapply Forall_impl; [exact H |]. intros d [_ E]. by eapply peek_vouches. Qed.

Lemma build_ack_claims l acc rwnd seq :
  rinv (xb_rx (rl_blocks l)) acc -> claims (ack_of l rwnd) seq -> seq ∈ acc.
Proof.
  intros [R _] [Hlt | [Hr Hbit]]; [by apply (rr_below _ _ _ (rc_ring _ _ R)) |]. change kMaxWindow with 1024 in Hr.
  change (ack_bit (ack_of l rwnd)) with (ack_bit (build_ack (xb_rx (rl_blocks l)))) in Hbit. rewrite (build_ack_bit _ acc) in Hbit by done.
  apply bool_decide_eq_true in Hbit. by replace (_ + _) with seq in Hbit by (cbn; lia).
Qed.

Lemma encode_answer_total `{B : CryptoBackend} (auth : option ControlAuth) acc lane nonce resumed want :
  lenZ want <= kMaxResumeRanges -> Forall is_range want -> is_u16 lane -> is_u64 nonce ->
  returns (encode_resume_answer seal_ctl auth lane nonce resumed want) (fun x => Forall (vouches acc) (snd x)).
Proof.
  intros Hw Hr Hl Hn. unfold encode_resume_answer.
  assert (forall i, i ∈ seqZ 0 (resume_parts want) -> 0 <= i < resume_parts want) as Hin by (intros i Hi%elem_of_seqZ; lia).
  revert auth Hin. generalize (seqZ 0 (resume_parts want)). induction l as [| i l IH]; intros auth Hin; [by apply returns_ok |].
  cbn [answer_loop]. destruct (resume_part_wf lane nonce resumed want i Hw Hr Hl Hn) as (Wm & Hlen); [apply Hin; by left |].
  set (m := resume_part lane nonce resumed want i) in *. set (out := replicate 2048 0).
  destruct (codec_encodes_safely ResumeRanges m out Wm) as (buf & n & E & _). cbn [encode resume_ranges_codec] in E.
  rewrite E. cbn [res_bind]. destruct (seal_ctl auth buf n) as [[a b] k] eqn:Es. eapply returns_bind; [apply IH; intros; apply Hin; by right |].
  intros [a' msgs] Hms. apply returns_ok. cbn [snd] in *. constructor; [| done].
  destruct (seal_encoded ResumeRanges m auth out buf n a b k Wm E Es) as [-> | [tail ->]]; [apply empty_vouches |].
  eapply peek_vouches; [by apply (wire_peeks m) | done].
Qed.

Lemma version_reply_sent `{B : CryptoBackend} to :
  send_ctl None encode_version_mismatch kTxCap to = Ok (None, [(to, mismatch_reply kProtocolVersion)]).
Proof.
  unfold send_ctl. rewrite encode_version_mismatch_reply; [done |]. rewrite lenZ_replicate. done.
Qed.

Section Handlers.
Context `{B : CryptoBackend} `{S : Sink} `{!SinkLaws S} (cfg : TransferConfig) (lane : Z).

Lemma wanted_ranges_total s base shard :
  sink_ok s -> 0 <= base -> 0 <= shard -> base + shard <= lenZ (sink_data s) -> lenZ (sink_data s) < 2 ^ 63 ->
  returns (wanted_ranges s base shard) (fun want => lenZ want <= kMaxResumeRanges /\ Forall is_range want).
Proof.
  intros Hs Hb Hsh Hle Hlt. unfold wanted_ranges. rewrite u64_small by (unfold is_u64; lia).
  pose proof (sink_missing_ordered s base (base + shard) Hs ltac:(lia) Hle) as Ho.
  assert (ordered 0 ((fun r => mkResumeRange (u64 (rr_offset r - base)) (rr_length r)) <$> sink_missing s base (base + shard)) shard) as Ho'
    by (apply shift_ordered; rewrite ?Z.add_0_r; (done || lia)).
  unfold coarsen_ranges. edestruct coarsen_loop_correct as (want & -> & Hl & Hw & _); [apply Nat.lt_succ_diag_r | | exact Ho' | lia |]; [done |].
  apply returns_ok. split; [done |]. by eapply ordered_is_range; [exact Hw | lia | lia].
Qed.

(** What the lane stores fits the fields it is sent in. *)
Record wire_ok (acc : gset Z) (w : RxWorld) : Prop := {
  wo_nonce : is_u64 (xs_nonce (rl_session (w_lane w)));
  wo_challenge : is_u64 (pv_challenge (rl_path (w_lane w)));
  wo_id : rs_stream_id (xb_rx (rl_blocks (w_lane w))) = lane;
  wo_time : is_u64 (rs_last_send_time (xb_rx (rl_blocks (w_lane w))));
  wo_secret : Forall is_u8 (rl_token_secret (w_lane w));
  wo_answer : Forall (vouches acc) (xs_resume_answer (rl_session (w_lane w)));
  wo_sent : Forall (fun d => vouches acc (snd d)) (w_sent w);
  wo_status : lr_status (rl_result (w_lane w)) = default Incomplete (w_exit w);
}.

Context (lane_u16 : is_u16 lane).

Section Turn.
Context (acc : gset Z).

Lemma sent_ok_add w out : wire_ok acc w -> Forall (fun d => vouches acc (snd d)) out -> Forall (fun d => vouches acc (snd d)) (w_sent w ++ out).
Proof. intros [] H. by apply Forall_app. Qed.

Lemma sent_by_total w r : wire_ok acc w -> returns r (fun x => Forall (fun d => vouches acc (snd d)) (snd x)) -> returns (sent_by w r) (wire_ok acc).
Proof.
  intros W H. unfold sent_by. eapply returns_bind; [exact H |]. intros [a out] Ho. apply returns_ok. pose proof (sent_ok_add w out W Ho). destruct W. by split.
Qed.

Lemma sent_by_typed t to w r :
  t <> MsgType.Ack -> wire_ok acc w -> returns r (fun x => auth_view (fst x) = auth_view (rl_auth (w_lane w)) /\ typed t to (snd x)) -> returns (sent_by w r) (wire_ok acc).
Proof. intros Ht W (x & E & _ & Ho). apply sent_by_total; [done |]. exists x. split; [done |]. by eapply typed_vouches. Qed.

Lemma probe_path_total w src now rnd : wire_ok acc w -> is_u64 rnd -> returns (probe_path lane w src now rnd) (wire_ok acc).
Proof.
  intros W Hr. pose proof W as [Hn Hc Hi Ht Hk Han Hse Hlr]. unfold probe_path, want_probe.
  destruct (negb (pv_active _ && _)); cbn [pv_sent_ns pv_challenge pv_candidate pv_active negb andb Z.eqb].
  - apply (sent_by_typed MsgType.PathChallenge src); [done | by split |]. apply send_path_probe_typed; auto.
  - destruct (_ && _); [by apply returns_ok; split |]. apply (sent_by_typed MsgType.PathChallenge src); [done | by split |]. apply send_path_probe_typed; auto.
Qed.

Lemma on_foreign_total w src dg now : wire_ok acc w -> returns (on_foreign w src dg now) (wire_ok acc).
Proof.
  intros W. pose proof W as [Hn Hc Hi Ht Hk Han Hse Hlr]. unfold on_foreign, is_foreign_version. change kOuterHeaderSize with 2.
  destruct (Z.leb_spec 2 (lenZ dg)); cbn [negb]; [| by apply returns_ok; split].
  destruct (nthZ_Some dg 0 ltac:(lia)) as [v ->], (nthZ_Some dg 1 ltac:(lia)) as [t ->]. cbn [res_bind].
  destruct (_ && _); [| by apply returns_ok; split]. rewrite version_reply_sent. cbn [res_bind].
  apply returns_ok. pose proof (sent_ok_add w [(src, mismatch_reply kProtocolVersion)] W) as Hadd. split; try done. apply Hadd.
  constructor; [| constructor]. intros ack seq E. vm_compute in E. discriminate.
Qed.

Lemma on_stream_close_total w dg : wire_ok acc w -> Forall is_u8 dg -> returns (on_stream_close cfg w dg) (wire_ok acc).
Proof.
  intros W Hb. pose proof W as [Hn Hc Hi Ht Hk Han Hse Hlr]. unfold on_stream_close. apply (returns_decode StreamClose _ dg); [done | done | | by apply returns_ok].
  intros sc _. apply returns_if; [| apply returns_if; apply returns_ok; by split].
  apply returns_if; [by apply returns_ok |]. eapply returns_bind; [apply ctl_authentic_total |]. intros [] _; cbn [negb]; [| by apply returns_ok].
  apply returns_if; apply returns_ok; by split.
Qed.

Lemma on_path_probe_total w src dg type :
  wire_ok acc w -> Forall is_u8 dg -> type = MsgType.PathChallenge \/ type = MsgType.PathResponse -> returns (on_path_probe lane w src dg type) (wire_ok acc).
Proof.
  intros W Hb Hty. pose proof W as [Hn Hc Hi Ht Hk Han Hse Hlr]. unfold on_path_probe. apply returns_if; [by apply returns_ok |].
  apply (returns_decode PathProbe (H := path_probe_codec type) (H0 := path_probe_laws type Hty) _ dg); [done | done | | by apply returns_ok].
  intros pp (_ & _ & Hpc). apply returns_if; [by apply returns_ok |]. eapply returns_bind; [apply ctl_authentic_total |].
  intros [] _; cbn [negb]; [| by apply returns_ok]. apply returns_if.
  - apply (sent_by_typed MsgType.PathResponse src); [done | done |]. apply send_path_probe_typed; auto.
  - unfold validated. destruct (_ || _); apply returns_ok; by split.
Qed.

Lemma on_file_digest_total w src dg : wire_ok acc w -> Forall is_u8 dg -> returns (on_file_digest lane w src dg) (wire_ok acc).
Proof.
  intros W Hb. pose proof W as [Hn Hc Hi Ht Hk Han Hse Hlr]. unfold on_file_digest. apply returns_if; [by apply returns_ok |].
  apply (returns_decode DigestMessage _ dg); [done | done | | by apply returns_ok].
  intros dm Hdm. apply returns_if; [by apply returns_ok |]. eapply returns_bind; [apply ctl_authentic_total |].
  intros [] _; cbn [negb]; [| by apply returns_ok]. apply (sent_by_typed MsgType.FileDigest src); [done | by split |]. by apply (send_msg_typed DigestMessage MsgType.FileDigest dm).
Qed.

Lemma on_data_total w src dg room : wire_ok acc w -> Forall is_u8 dg -> returns (on_data cfg w src dg room) (wire_ok acc).
Proof.
  intros W Hb. pose proof W as [Hn Hc Hi Ht Hk Han Hse Hlr]. unfold on_data. apply returns_if; [by apply returns_ok |].
  apply (returns_decode DataDatagram _ dg); [done | done | | by apply returns_ok].
  intros d _. repeat (apply returns_if; [by apply returns_ok |]). apply returns_ok. by split.
Qed.

(** *** StreamStart *)

Lemma authenticate_start_total ss dg : returns (authenticate_start cfg lane ss dg) (fun _ => True).
Proof.
  unfold authenticate_start. apply returns_if; [| by apply returns_ok]. destruct (derive_session_key _ _); [| by apply returns_ok].
  destruct (control_init _ _ _ _) as [trial ok]. apply returns_if; [by apply returns_ok |].
  eapply returns_bind; [apply control_open_total |]. intros r _. by apply returns_ok.
Qed.

Lemma on_bad_start_total w src ss now : wire_ok acc w -> wf_msg ss -> returns (on_bad_start lane w src ss now) (wire_ok acc).
Proof.
  intros W Hss. pose proof W as [Hn Hc Hi Ht Hk Han Hse Hlr]. unfold on_bad_start. apply returns_if; [| apply returns_ok; by split].
  eapply returns_bind; [apply send_stream_close_typed; [done | apply Hss | done] |]. intros [a out] [_ Ho]. apply returns_ok.
  pose proof (sent_ok_add w out W (typed_vouches _ _ _ _ Ho ltac:(done))). by split.
Qed.

Lemma claim_output_total sh ss :
  wf_msg ss -> shared_inv sh True -> returns (claim_output sh ss) (fun c => match c with Some sh' => sh_sink_state sh' = SinkReady -> shared_inv sh' True /\ sh_file_total sh' = ss_file_total_bytes ss | None => True end).
Proof.
  intros Hwf Hsh. assert (exists c, claim_output sh ss = Ok c) as [c E].
  { unfold claim_output. destruct (Z.eqb_spec (sh_file_total sh) kUnset) as [Eu |]; [| by destruct (negb _); eexists].
    assert (sink_fresh (sh_sink sh)) as Hfr.
    { unfold shared_inv in Hsh. destruct (sh_sink_state sh); [by apply Hsh | unfold kUnset in Eu; lia | by destruct Hsh]. }
    destruct (sink_prepare_result (sh_sink sh) (ss_file_total_bytes ss) (ss_file_id ss)) as (s' & ok & -> & _); [done | apply Hwf | apply Hwf |].
    cbn [res_bind]. by eexists. }
  exists c. split; [done |]. destruct c as [sh' |]; [| done]. intros Hr. by apply (claim_ready _ ss _ _ Hwf Hsh).
Qed.

Lemma start_session_total w src ss key trial :
  wire_ok acc w -> wf_msg ss -> sh_sink_state (w_shared w) = SinkReady -> shared_inv (w_shared w) True ->
  sh_file_total (w_shared w) = ss_file_total_bytes ss -> ss_total_bytes ss <= ss_file_total_bytes ss ->
  ss_stream_base_offset ss <= ss_file_total_bytes ss - ss_total_bytes ss ->
  returns (start_session cfg lane w src ss key trial) (wire_ok acc).
Proof.
  intros [Hn Hc Hi Ht Hk Han Hse Hlr] Hss Hr Hsh Hft H1 H2. unfold shared_inv in Hsh. rewrite Hr in Hsh. destruct Hsh as (Hok & Hl & Hlt).
  destruct Hss as (_ & _ & _ & Htb & _ & Hno & Hbo & _). unfold is_u64 in *. unfold start_session.
  eapply returns_bind.
  - apply wanted_ranges_total; destruct (want_crypto cfg); cbn; (done || lia).
  - intros want [Hw1 Hw2]. eapply returns_bind; [by apply (encode_answer_total _ acc) |]. intros [a answer] Ha. apply returns_ok.
    assert (Forall (fun d => vouches acc (snd d)) (w_sent w ++ ((fun m => (src, m)) <$> answer))) by (apply Forall_app; split; [done | by apply Forall_fmap]).
    destruct (want_crypto cfg); by split.
Qed.

Lemma accept_start_total w src dg ss now :
  wire_ok acc w -> Forall is_u8 dg -> wf_msg ss -> shared_inv (w_shared w) True -> returns (accept_start cfg lane w src dg ss now) (wire_ok acc).
Proof.
  intros W Hb Hss Hsh. pose proof W as [Hn Hc Hi Ht Hk Han Hse Hlr]. unfold accept_start. eapply returns_bind; [apply authenticate_start_total |].
  intros [[ok key] trial] _. apply returns_if; [by apply on_bad_start_total |].
  destruct (_ || _) eqn:Eo; [by apply returns_ok |]. apply orb_false_elim in Eo as [E1 E2].
  eapply returns_bind; [by apply claim_output_total |]. intros [sh |] Hc'; [| by apply returns_ok].
  destruct (sh_sink_state sh) eqn:Es; [by apply returns_ok; split | | by apply returns_ok; split].
  destruct (Hc' eq_refl) as [? ?]. apply start_session_total; cbn; (done || lia || by split).
Qed.

Lemma on_stream_start_total w src dg now rnd :
  wire_ok acc w -> Forall is_u8 dg -> Forall is_u8 (pa_addr src) -> is_u64 rnd -> shared_inv (w_shared w) True ->
  returns (on_stream_start cfg lane w src dg now rnd) (wire_ok acc).
Proof.
  intros W Hb Hp Hr Hsh. pose proof W as [Hn Hc Hi Ht Hk Han Hse Hlr]. unfold on_stream_start.
  apply (returns_decode StreamStart _ dg); [done | done | | by apply returns_ok]. intros ss Hss. apply returns_if.
  - assert (is_u64 (address_token (rl_token_secret (w_lane w)) src (ss_nonce ss))) as Htok by by apply address_token_u64.
    eapply returns_bind; [apply (send_msg_typed Retry MsgType.Retry (mkRetry lane (ss_nonce ss) (address_token (rl_token_secret (w_lane w)) src (ss_nonce ss)))); [done |]; split_and!; [done | apply Hss | done] |].
    intros [a out] [_ Ho]. apply returns_ok. pose proof (sent_ok_add w out W (typed_vouches _ _ _ _ Ho ltac:(done))). by split.
  - apply returns_if; [by apply accept_start_total |]. apply returns_if; [| by apply returns_ok].
    eapply returns_bind; [apply ctl_authentic_total |]. intros authentic _. apply returns_if; [| by apply returns_ok].
    eapply (returns_bind _ _ (wire_ok acc)); [apply returns_if; [by apply probe_path_total | by apply returns_ok] |].
    intros w' W'. pose proof W' as [Hn' Hc' Hi' Ht' Hk' Han' Hse' Hlr']. apply returns_ok.
    assert (Forall (fun d => vouches acc (snd d)) (w_sent (send_resume_answer w'))) by (apply sent_ok_add; [done | by apply Forall_fmap]). by split.
Qed.

Lemma on_datagram_total w src dg now rnd room :
  wire_ok acc w -> Forall is_u8 dg -> Forall is_u8 (pa_addr src) -> is_u64 rnd -> shared_inv (w_shared w) True ->
  returns (on_datagram cfg lane w src dg now rnd room) (wire_ok acc).
Proof.
  intros W Hb Hp Hr Hsh. unfold on_datagram. apply (returns_try _ _ _ (fun _ => True)); [apply peek_total | done | | by apply on_foreign_total].
  intros t _. repeat (match goal with |- returns (if ?c then _ else _) _ => destruct c end).
  - by apply on_stream_start_total.
  - by apply on_stream_close_total.
  - apply on_path_probe_total; auto.
  - apply on_path_probe_total; auto.
  - by apply on_file_digest_total.
  - by apply on_data_total.
  - by apply returns_ok.
Qed.

(** *** The consumers' verdicts *)

Lemma slide_fields fuel st st' :
  slide_base_over_contiguous_prefix fuel st = Ok st' -> rs_stream_id st' = rs_stream_id st /\ rs_last_send_time st' = rs_last_send_time st.
Proof.
  revert st. induction fuel as [| fuel IH]; intros st; cbn [slide_base_over_contiguous_prefix]; [done |].
  destruct (received_at _ _); [intros H; by apply IH in H | by intros <-%Ok_inj].
Qed.

Lemma on_receive_fields st seq send now r st' :
  on_receive st seq send now = Ok (r, st') -> rs_stream_id st' = rs_stream_id st /\
    (rs_last_send_time st' = rs_last_send_time st \/ rs_last_send_time st' = send).
Proof.
  unfold on_receive. destruct (_ <? _); [intros [= _ <-]; auto |]. destruct (_ <=? _); [intros [= _ <-]; auto |].
  destruct (received_at _ _); [intros [= _ <-]; auto |].
  destruct (slide_base_over_contiguous_prefix _ _) as [| | st1] eqn:E; cbn [res_bind]; [done | done |]. intros [= _ <-].
  apply slide_fields in E as [-> ->]. destruct (recorded_fields st seq send now) as (F1 & _ & _ & _ & _ & _ & _ & _ & _ & F2).
  unfold recorded in *. rewrite F1, F2. split; [done |]. destruct (_ || _); auto.
Qed.

Lemma take_result_total w c r fl data source base plan hon :
  wire_ok acc w -> window_inv (rl_blocks (w_lane w)) (cp_seq c :: fl) acc -> done_good source base plan hon data c -> is_u64 (snd r) ->
  returns (take_result lane w c r) (wire_ok acc).
Proof.
  intros W Hwin [Hst _] Hr. pose proof W as [Hn Hc Hi Ht Hk Han Hse Hlr]. destruct r as [[[t1 t2] t3] rnd]. unfold take_result. cbn [snd] in Hr.
  destruct (window_retire _ _ _ _ Hwin) as (W1 & _ & Hq & _). destruct (cp_result c); [| by apply returns_ok; split ..].
  pose proof (on_receive_correct _ acc (cp_seq c) (cp_send_time c) t1 (wi_rx _ _ _ W1) Hq) as H.
  destruct (receive_spec _ _ _ _) as [res acc']. destruct H as (rx & E & _).
  cbn [set_lane w_lane set_blocks rl_blocks]. rewrite E. cbn [res_bind].
  apply on_receive_fields in E as [Eid Etm]. cbn [retire xb_rx] in Eid, Etm.
  match goal with |- context [set_lane ?w0 (set_blocks _ (enter_block ?b rx ?fs))] => set (w1 := set_lane w0 (set_blocks (w_lane w0) (enter_block b rx fs))) end.
  assert (wire_ok acc w1) as Ww1 by (split; cbn; try done; [by rewrite Eid | destruct Etm as [-> | ->]; done]).
  destruct res; [| by apply returns_ok ..]. eapply (returns_bind _ _ (wire_ok acc)).
  - apply returns_if; [by apply probe_path_total | by apply returns_ok].
  - intros w2 []. apply returns_ok. by split.
Qed.

(** *** Acknowledgements *)

Lemma base_u64 st : rinv st acc -> is_u64 (rs_base_seq_no st).
Proof.
  intros [R _]. pose proof (rr_base _ _ _ (rc_ring _ _ R)) as H0. unfold is_u64. split; [done |].
  destruct (Z.eq_dec (rs_base_seq_no st) 0); [lia |].
  pose proof (rc_max _ _ R (rs_base_seq_no st - 1) ltac:(apply (rr_below _ _ _ (rc_ring _ _ R)); lia)). lia.
Qed.

Lemma send_ack_total w rwnd : wire_ok acc w -> rinv (xb_rx (rl_blocks (w_lane w))) acc -> is_u32 rwnd -> returns (send_ack w rwnd) (wire_ok acc).
Proof.
  intros W I Hr. pose proof W as [Hn Hc Hi Ht Hk Han Hse Hlr]. unfold send_ack. apply sent_by_total; [done |].
  assert (wf_msg (ack_of (w_lane w) rwnd)) as Hwf.
  { destruct (build_ack_wf _ acc (proj1 I)) as (H1 & H2 & H3 & H4 & H5 & _); [by rewrite Hi | by eapply base_u64 | done |]. by split_and!. }
  destruct (send_msg_emits Ack (ack_of (w_lane w) rwnd) (rl_auth (w_lane w)) (encode (ack_of (w_lane w) rwnd)) kTxCap (xs_peer (rl_session (w_lane w))) eq_refl Hwf) as (x & E & _ & Ho).
  exists x. split; [exact E |]. eapply Forall_impl; [exact Ho |]. intros d [_ [tail Ed]] ack seq Ea Hc'.
  rewrite Ed in Ea. pose proof (decode_wire (CodecLaws := ack_laws) _ tail Hwf) as Ea'. change (decode_ack (wire (ack_of (w_lane w) rwnd) ++ tail) = Ok (ack_of (w_lane w) rwnd)) in Ea'.
  rewrite Ea in Ea'. apply Ok_inj in Ea' as ->. by eapply build_ack_claims.
Qed.

Lemma maybe_ack_total w t room : wire_ok acc w -> rinv (xb_rx (rl_blocks (w_lane w))) acc -> returns (maybe_ack cfg w t room) (wire_ok acc).
Proof.
  intros W I. pose proof W as [Hn Hc Hi Ht Hk Han Hse Hlr]. unfold maybe_ack. apply returns_if; [| by apply returns_ok].
  apply send_ack_total; [by split | done | apply u32_range].
Qed.

Lemma nack_wf st st' now out nack due :
  rinv st acc -> is_u16 (rs_stream_id st) -> out = default_nack -> scan_post st st' acc now out nack due -> (forall s, s ∈ due -> is_u64 s) -> wf_msg nack.
Proof.
  intros I Hid -> (E1 & E2 & E3 & E4 & E5 & E6 & _) Hdue. split_and!; [by rewrite E1 | rewrite E2; apply lenZ_nonneg | done | done | | done].
  rewrite <- (take_drop (Z.to_nat (nack_count nack)) (nack_missing nack)). apply Forall_app. split.
  - rewrite E5. by apply list.Forall_forall.
  - rewrite E6. apply Forall_drop, Forall_replicate. unfold is_u64. lia.
Qed.

Lemma maybe_nack_total w t : wire_ok acc w -> rinv (xb_rx (rl_blocks (w_lane w))) acc -> returns (maybe_nack w t) (wire_ok acc).
Proof.
  intros W I. pose proof W as [Hn Hc Hi Ht Hk Han Hse Hlr]. unfold maybe_nack. set (b := rl_blocks (w_lane w)) in *.
  destruct (collect_nacks_correct _ acc t (reorder_ns (xb_rtt_est_ns b)) (renack_ns (xb_rtt_est_ns b)) default_nack I) as (rx & nack & -> & Sc); [done |].
  cbn [res_bind]. assert (wf_msg nack) as Hwf.
  { eapply nack_wf; [done | by rewrite Hi | done | exact Sc |]. intros s Hs. unfold due_gaps in Hs.
    destruct I as [R _]. pose proof (rr_base _ _ _ (rc_ring _ _ R)). pose proof (rc_high _ _ R) as Hh.
    destruct (rs_lossless _ && rs_have_any (xb_rx b)) eqn:E; [| by apply elem_of_nil in Hs]. apply andb_true_iff in E as [_ E]. rewrite E in Hh.
    apply list_elem_of_filter in Hs as [_ Hs%elem_of_gaps]. pose proof (rc_max _ _ R _ (proj1 Hh)). unfold is_u64. lia. }
  destruct Sc as (_ & _ & _ & _ & _ & _ & [Er _] & I').
  assert (forall ns, wire_ok acc (set_lane w (set_blocks (w_lane w) (set_nacked b rx ns)))) as Hw' by (intros; split; cbn; try done; by rewrite Er).
  apply returns_if; [| by apply returns_ok]. apply (sent_by_typed MsgType.Nack (xs_peer (rl_session (w_lane w)))); [done | done |].
  by apply (send_msg_typed Nack MsgType.Nack nack).
Qed.

(** *** The end of a turn *)

Lemma kept_rx w w' : kept w w' -> xb_rx (rl_blocks (w_lane w')) = xb_rx (rl_blocks (w_lane w)).
Proof. by intros (-> & _). Qed.

Lemma final_acks_total w rooms :
  wire_ok acc w -> rinv (xb_rx (rl_blocks (w_lane w))) acc -> returns (final_acks cfg w rooms) (wire_ok acc).
Proof.
  revert w. induction rooms as [| room rooms IH]; intros w W I; cbn [final_acks]; [by apply returns_ok |].
  destruct (send_ack_total w (receive_window cfg (xb_pending (rl_blocks (w_lane w))) room) W I) as (w1 & E & W1); [apply u32_range |].
  rewrite E. cbn [res_bind]. apply IH; [done |]. by rewrite (kept_rx _ _ (send_ack_kept _ _ _ E)).
Qed.

Lemma finish_lane_total w rooms :
  wire_ok acc w -> rinv (xb_rx (rl_blocks (w_lane w))) acc -> returns (finish_lane cfg w rooms) (wire_ok acc).
Proof.
  intros W I. unfold finish_lane. eapply returns_bind; [apply returns_if; [by apply returns_ok | by apply final_acks_total] |].
  intros w1 []. apply returns_ok. by split.
Qed.

Lemma recv_tail_total w i :
  wire_ok acc w -> rinv (xb_rx (rl_blocks (w_lane w))) acc -> returns (recv_tail cfg lane w i) (wire_ok acc).
Proof.
  intros W I. unfold recv_tail. destruct (maybe_ack_total w (in_ns i) (in_room i) W I) as (w1 & E1 & W1). rewrite E1. cbn [res_bind].
  rewrite <- (kept_rx _ _ (maybe_ack_kept _ _ _ _ _ E1)) in I. destruct (maybe_nack_total w1 (in_ns i) W1 I) as (w2 & E2 & W2). rewrite E2. cbn [res_bind].
  assert (rinv (xb_rx (rl_blocks (w_lane w2))) acc) as I2.
  { apply maybe_nack_cases in E2 as (rx & nack & ns & En & K). rewrite (kept_rx _ _ K). cbn.
    destruct (collect_nacks_correct _ acc (in_ns i) (reorder_ns (xb_rtt_est_ns (rl_blocks (w_lane w1)))) (renack_ns (xb_rtt_est_ns (rl_blocks (w_lane w1)))) default_nack I)
      as (rx' & nack' & En' & Sc); [done |]. rewrite En in En'. injection En' as <- <-. apply Sc. }
  destruct (check_complete lane w2 (in_ns i)) as [w3 q] eqn:E3. pose proof (check_complete_kept _ _ _ _ _ E3) as [K3 _].
  assert (wire_ok acc w3) as W3.
  { destruct W2 as [Hn Hc Hi Ht Hk Han Hse Hlr]. unfold check_complete in E3. destruct (negb _ && _); [| by injection E3 as <- _].
    destruct (xt_completed_at_ns _ =? 0); injection E3 as <- _; by split. }
  apply returns_if; [| by apply returns_ok]. apply finish_lane_total; [done |]. by rewrite (kept_rx _ _ K3).
Qed.

Lemma abandon_total w st : wire_ok acc w -> returns (abandon lane w st) (wire_ok acc).
Proof.
  intros W. unfold abandon. eapply (returns_bind _ _ (wire_ok acc)).
  - apply returns_if; [| by apply returns_ok]. apply (sent_by_typed MsgType.StreamClose (xs_peer (rl_session (w_lane w)))); [done | done |].
    apply send_stream_close_typed; [done | apply W | done].
  - intros w1 [Hn Hc Hi Ht Hk Han Hse Hlr]. apply returns_ok. by split.
Qed.

End Turn.

(** ** All steps *)

Lemma returns_eq {A} (r : res A) (P : A -> Prop) a : returns r P -> r = Ok a -> P a.
Proof. intros (a' & -> & H). by intros [= ->]. Qed.

Lemma wire_ok_mono acc acc' w : acc ⊆ acc' -> wire_ok acc w -> wire_ok acc' w.
Proof.
  intros Hs [? ? ? ? ? Ha Ho ?]. split; try done; (eapply Forall_impl; [eassumption |]); intros; by eapply vouches_mono.
Qed.

Section Steps.
Context (source : bytes) (base : Z) (plan : list (Z * Z)) (hon : Prop) (net : LaneKey -> bytes -> Prop).

Lemma step_wire sy sy' acc order :
  sys_inv cfg lane source base plan hon sy acc order -> wire_ok acc (sy_world sy) ->
  step cfg lane net base (lenZ source) sy sy' -> wire_ok acc (sy_world sy').
Proof.
  intros I W St. destruct St as [w chs now Ex | w chs src dg now rnd room w' Ex Hby Hsrc Hrnd Hnd E | w chs k ch c out r w' Ex Hr Ek Eo E
    | w chs Ex | w chs i w' Ex Hst E | w chs st w' Ex Hst E | w chs Ex Hab | w chs k ch olds cs s failed comps Ek E | w chs sh O];
    cbn [sy_world] in *; pose proof (si_window _ _ _ _ _ _ _ _ _ I) as Hwin; cbn [sy_world sy_channels] in Hwin.
  - unfold note_arrival. destruct W. destruct (_ =? _); by split.
  - assert (shared_inv (w_shared w) True) as Hsh.
    { pose proof (si_shared _ _ _ _ _ _ _ _ _ I) as H. cbn in H. rewrite Ex in H. unfold shared_inv in *.
      destruct (sh_sink_state _); [done | done |]. intros Hu _. by apply (H Hu). }
    destruct (returns_eq _ _ _ (on_datagram_total acc w src dg now rnd room W Hby Hsrc Hrnd Hsh) E). by split.
  - rewrite (take_head _ _ _ _ _ Ek Eo) in Hwin. pose proof (Forall_lookup_1 _ _ _ _ (si_chans _ _ _ _ _ _ _ _ _ I) Ek) as [_ Go _].
    rewrite Eo in Go. apply Forall_cons in Go as [Gc _]. apply (returns_eq _ _ _ (take_result_total acc w c r _ _ _ _ _ _ W Hwin Gc Hr) E).
  - destruct W. by split.
  - apply (returns_eq _ _ _ (recv_tail_total acc w i W (wi_rx _ _ _ Hwin)) E).
  - apply (returns_eq _ _ _ (abandon_total acc w st W) E).
  - destruct W. by split.
  - destruct W. by split.
  - destruct W. by split.
Qed.

Lemma run_wire sy sy' acc order :
  (hon -> wf_plan source base plan) -> (forall key dg, net key dg -> hon -> honest cfg lane source base plan key dg) -> wf_config cfg ->
  rtc (step cfg lane net base (lenZ source)) sy sy' -> wire_ok acc (sy_world sy) -> sys_inv cfg lane source base plan hon sy acc order ->
  exists acc' order', acc ⊆ acc' /\ wire_ok acc' (sy_world sy') /\ sys_inv cfg lane source base plan hon sy' acc' order'.
Proof.
  intros Hp Hnet Hcfg R. revert acc order. induction R as [sy | sy1 sy2 sy3 St R IH]; intros acc order W I; [by exists acc, order |].
  destruct (step_inv _ _ _ _ _ _ net _ _ _ _ Hp Hnet Hcfg I St) as (acc' & order' & Hsub & I').
  destruct (IH acc' order') as (acc'' & order'' & Hsub' & H); [by eapply wire_ok_mono, step_wire | done |]. exists acc'', order''. split; [set_solver | done].
Qed.

Lemma reach_wire secret now s sy :
  (hon -> wf_plan source base plan) -> (forall key dg, net key dg -> hon -> honest cfg lane source base plan key dg) ->
  wf_config cfg -> sink_fresh s -> Forall is_u8 secret ->
  rtc (step cfg lane net base (lenZ source)) (new_system cfg lane secret now s) sy ->
  exists acc order, wire_ok acc (sy_world sy) /\ sys_inv cfg lane source base plan hon sy acc order.
Proof.
  intros Hp Hnet Hcfg Hf Hs R. destruct (run_wire _ _ ∅ [] Hp Hnet Hcfg R) as (acc & order & _ & H).
  - split; try done; constructor.
  - by apply new_system_inv.
  - by exists acc, order.
Qed.

End Steps.

End Handlers.

(** ** Before a session *)

Lemma send_plain `{B : CryptoBackend} (M : Type) `{CodecLaws M} (m : M) enc cap to :
  enc = encode m -> wf_msg m -> 0 < lenZ (wire m) <= cap -> send_ctl None enc cap to = Ok (None, [(to, wire m)]).
Proof.
  intros -> Hm Hl. unfold send_ctl. rewrite (encode_wire m) by (done || (unfold lenZ at 2; rewrite length_replicate; lia)).
  cbn [res_bind seal_ctl]. destruct (Z.eqb_spec (lenZ (wire m)) 0); [lia |]. by rewrite take_all_lenZ.
Qed.

Section Unvalidated.
Context `{B : CryptoBackend} `{S : Sink} (cfg : TransferConfig) (lane : Z).

(** The lane's state is kept, and everything sent goes to [src], at most [n] bytes. *)
Definition only_replies (w : RxWorld) (src : PeerAddr) (n : Z) (w' : RxWorld) : Prop :=
  kept w w' /\ exists out, w_sent w' = w_sent w ++ out /\ Forall (fun d => fst d = src) out /\ sumZ (fun d => lenZ (snd d)) out <= n.

Lemma silent_replies w w' src n : 0 <= n -> kept w w' -> w_sent w' = w_sent w -> only_replies w src n w'.
Proof. intros Hn K E. split; [done |]. exists []. by rewrite E, app_nil_r. Qed.

Lemma one_reply w w' src n m : kept w w' -> w_sent w' = w_sent w ++ [(src, m)] -> lenZ m <= n -> only_replies w src n w'.
Proof.
  intros K E Hm. split; [done |]. exists [(src, m)]. split_and!; [done | by repeat constructor |]. unfold sumZ. cbn. lia.
Qed.

Lemma retry_replies w src dg ss now rnd :
  is_u16 lane -> Forall is_u8 (rl_token_secret (w_lane w)) -> Forall is_u8 (pa_addr src) -> Forall is_u8 dg ->
  decode_stream_start dg default_stream_start = Ok ss -> ss_token ss <> address_token (rl_token_secret (w_lane w)) src (ss_nonce ss) ->
  returns (on_stream_start cfg lane w src dg now rnd) (only_replies w src (lenZ dg)).
Proof.
  intros Hl Hs Ha Hb Ed Ht. destruct (stream_start_sound dg ss Hb Ed) as [Hss [tail Edg]]. unfold on_stream_start. rewrite Ed. cbn [try_decode].
  destruct (Z.eqb_spec (ss_token ss) (address_token (rl_token_secret (w_lane w)) src (ss_nonce ss))); [done |]. cbn [negb].
  set (m := mkRetry lane (ss_nonce ss) (address_token (rl_token_secret (w_lane w)) src (ss_nonce ss))).
  assert (wf_msg m) as Hm by (split_and!; [done | apply Hss | by apply address_token_u64]).
  assert (lenZ (wire m) = 20) as El
    by (change (wire m) with (retry_wire m); unfold retry_wire; by rewrite !lenZ_app, !lenZ_be, lenZ_outer).
  rewrite (send_plain Retry m) by (done || (rewrite El; done)). cbn [res_bind]. apply returns_ok, (one_reply _ _ _ _ (wire m)); [by split_and! | done |].
  rewrite El, Edg, lenZ_app. change (wire ss) with (stream_start_wire ss). rewrite lenZ_stream_start_wire by done.
  destruct Hss as (_ & _ & _ & _ & _ & _ & _ & _ & _ & _ & ? & _). pose proof (lenZ_nonneg tail). lia.
Qed.

Lemma foreign_replies w src dg now : returns (on_foreign w src dg now) (only_replies w src 3).
Proof.
  unfold on_foreign, is_foreign_version. change kOuterHeaderSize with 2.
  destruct (Z.leb_spec 2 (lenZ dg)); cbn [negb]; [| by apply returns_ok, silent_replies].
  destruct (nthZ_Some dg 0 ltac:(lia)) as [v ->], (nthZ_Some dg 1 ltac:(lia)) as [t ->]. cbn [res_bind].
  destruct (_ && _); [| by apply returns_ok, silent_replies].
  rewrite version_reply_sent. cbn [res_bind].
  apply returns_ok, (one_reply _ _ _ _ (mismatch_reply kProtocolVersion)); [by split_and! | done | done].
Qed.

End Unvalidated.

(** ** Properties *)

(** C6: Acknowledgements never run ahead of the output.  However the reader, the
    consumer threads and the other lanes interleave, whatever is lost, duplicated,
    reordered or forged, and whichever writes fail: every block that an Ack the lane
    has sent, or would send now, covers by its base or by its bitmask is a block the
    sender sent, and its bytes are in the output at their place.  (A DATA datagram
    that authenticates is taken to be one of the sender's; one that does not is
    arbitrary.) *)
Theorem acks_cover_written_blocks `{B : CryptoBackend} `{S : Sink} `{!SinkLaws S} cfg lane source base plan secret now s sy ack seq :
  wf_plan source base plan -> wf_config cfg -> is_u16 lane -> sink_fresh s -> Forall is_u8 secret ->
  rtc (step cfg lane (honest cfg lane source base plan) base (lenZ source)) (new_system cfg lane secret now s) sy ->
  (exists d, d ∈ w_sent (sy_world sy) /\ decode_ack (snd d) = Ok ack) \/ (exists rwnd, ack = ack_of (w_lane (sy_world sy)) rwnd) ->
  claims ack seq ->
  exists o l, plan !! Z.to_nat seq = Some (o, l) /\
    slice (sink_data (sh_sink (w_shared (sy_world sy)))) (base + o) l = slice source o l.
Proof.
  intros Hp Hcfg Hl Hf Hs R Hack Hseq.
  destruct (reach_wire cfg lane Hl source base plan True _ secret now s sy (fun _ => Hp) (fun _ _ H _ => H) Hcfg Hf Hs R) as (acc & order & W & I).
  apply (block_landed_slice cfg lane source base plan True sy acc order); [done | done | done |]. destruct Hack as [(d & Hd & Ed) | [rwnd ->]].
  - pose proof (wo_sent _ _ _ W) as Ho. rewrite list.Forall_forall in Ho. by apply (Ho d Hd ack).
  - eapply build_ack_claims; [apply (si_window _ _ _ _ _ _ _ _ _ I) | done].
Qed.


Lemma acks_cover_written_blocks_witness :
  exists o l, Example.plan !! Z.to_nat 0 = Some (o, l) /\
    slice (fst (sh_sink (w_shared (sy_world Example.sy6)))) (0 + o) l = slice Example.source o l.
Proof.
  destruct Example.wf. apply (acks_cover_written_blocks (B := toy_backend) (S := MemorySink.sink) (SinkLaws0 := MemorySink.sink_laws) Example.cfg 0 Example.source 0 Example.plan
    Example.secret 1 ([], true) Example.sy6 (ack_of (w_lane (sy_world Example.sy6)) 16) 0); [done | done | done | done | by repeat constructor | apply Example.run | |].
  - right. by exists 16.
  - left. vm_compute. done.
Defined.



