(* ===== verification/RecvLanes.v ===== *)
(** * All receive lanes of a transfer

    The lanes [receive_to_sink] of [src/src/proto/transfer.cpp] starts, each with its
    reader and its consumers (RecvSystem.v), on one output and one size of the
    transfer: every lane moves on its own and what it does to the shared state is what
    the others see next, and so does the thread that saves the progress of the output.  Each lane of such a run is a run of RecvSystem.v among other
    lanes, and so what is known of one lane holds of all of them together.

    A lane claims the size of the transfer and prepares the output in one step here:
    what another lane can do in between is to ignore a StreamStart. *)

From S2P Require Import Prelude Wire Control Block Window Receiver SessionCrypto Ranges FileSink Peer Returns Status Sinks Pipeline RecvLane RecvSystem RecvSafety.

(** A lane's part of the transfer: where it starts, how long it is, the sender's
    blocks, and what the network may deliver to it. *)
Record Part := mkPart {
  pt_base : Z;
  pt_len : Z;
  pt_plan : list (Z * Z);
  pt_net : LaneKey -> bytes -> Prop;
}.

Section Lanes.
Context `{B : CryptoBackend} `{S : Sink} `{!SinkLaws S} (cfg : TransferConfig) (whole : bytes) (parts : list Part).

Definition part_bytes (p : Part) : bytes := slice whole (pt_base p) (pt_len p).

Definition nothing (sh sh' : RxShared) : Prop := False.

(** What a lane sees of the shared state: all of it but the keys of the others. *)
Definition share (sh : RxShared) (sy : System) : System :=
  mkSystem _ (set_shared (sy_world sy) (set_key sh (sh_key (w_shared (sy_world sy))))) (sy_channels sy).

Definition new_lanes (secret : nat -> bytes) (now : nat -> Z) (s : sink) : list System :=
  imap (fun i _ => new_system cfg (Z.of_nat i) (secret i) (now i) s) parts.

(** What the checkpoint thread does to the output, as a lane sees it. *)
Definition checkpointed (s : sink) (sy : System) : System := mkSystem _ (set_sink (sy_world sy) s) (sy_channels sy).

(** One lane moves, or the checkpoint thread saves the progress. *)
Inductive lanes_step : list System -> list System -> Prop :=
| lane_moves i p sy sy' sys :
    parts !! i = Some p -> sys !! i = Some sy -> lane_step cfg (Z.of_nat i) (pt_net p) nothing sy sy' ->
    lanes_step sys (<[i := sy']> (share (w_shared (sy_world sy')) <$> sys))
| checkpoint_runs i sy s sys :
    sys !! i = Some sy -> sink_checkpoint (sh_sink (w_shared (sy_world sy))) = Ok s -> lanes_step sys (checkpointed s <$> sys).

(** The parts lie apart inside the transfer, the senders are honest and announce its
    size. *)
Record honest_parts : Prop := {
  hp_size : lenZ whole < 2 ^ 63;
  hp_count : lenZ parts < 2 ^ 16;
  hp_inside i p : parts !! i = Some p -> 0 <= pt_base p /\ 0 <= pt_len p /\ pt_base p + pt_len p <= lenZ whole;
  hp_apart i j p q : parts !! i = Some p -> parts !! j = Some q -> i <> j -> pt_base p + pt_len p <= pt_base q \/ pt_base q + pt_len q <= pt_base p;
  hp_plan i p : parts !! i = Some p -> wf_plan (part_bytes p) (pt_base p) (pt_plan p) /\ pt_plan p <> [];
  hp_net i p key dg : parts !! i = Some p -> pt_net p key dg -> honest cfg (Z.of_nat i) (part_bytes p) (pt_base p) (pt_plan p) key dg;
  hp_total i p key dg ss k trial : parts !! i = Some p -> pt_net p key dg -> decode_stream_start dg default_stream_start = Ok ss ->
    authenticate_start cfg (Z.of_nat i) ss dg = Ok (true, k, trial) -> ss_file_total_bytes ss = lenZ whole;
}.

Context (H : honest_parts) (Hcfg : wf_config cfg).

Lemma part_len i p : parts !! i = Some p -> lenZ (part_bytes p) = pt_len p.
Proof. intros (? & ? & ?)%(hp_inside H). apply lenZ_slice; lia. Qed.

(** ** What a lane does to the shared state *)

Lemma set_key_key (sh : RxShared) k k' : set_key (set_key sh k) k' = set_key sh k'.
Proof. done. Qed.

Lemma set_key_own (sh : RxShared) : set_key sh (sh_key sh) = sh.
Proof. by destruct sh. Qed.

Lemma effect_aside (sh sh' : RxShared) base len k :
  (sh_file_total sh', sh_sink_state sh', sh_sink sh') = (sh_file_total sh, sh_sink_state sh, sh_sink sh) ->
  rtc (others base len) (set_key sh k) (set_key sh' k).
Proof. destruct sh, sh'. cbn. intros [= -> -> ->]. apply rtc_once, others_aside. Qed.

Lemma effect_kept (w w' : RxWorld) base len k : kept w w' -> rtc (others base len) (set_key (w_shared w) k) (set_key (w_shared w') k).
Proof. intros (_ & _ & [= E1 E2 _ E4] & _). apply effect_aside. congruence. Qed.

(** The transfer's size is unset or the right one. *)
Definition total_ok (sh : RxShared) : Prop := sh_file_total sh = kUnset \/ sh_file_total sh = lenZ whole.

Lemma effect_claim sh ss sh' base len k :
  shared_inv sh True -> wf_msg ss -> ss_file_total_bytes ss = lenZ whole -> claim_output sh ss = Ok (Some sh') ->
  rtc (others base len) (set_key sh k) (set_key sh' k) /\ total_ok sh'.
Proof.
  intros Hsh Hss Et. unfold claim_output. destruct (Z.eqb_spec (sh_file_total sh) kUnset) as [Eu |].
  - assert (sh_sink_state sh = SinkPending /\ sink_fresh (sh_sink sh)) as [Ep Hf].
    { unfold shared_inv in Hsh. destruct (sh_sink_state sh); [split; [done | by apply Hsh] | unfold kUnset in Eu; lia | by destruct Hsh]. }
    destruct (sink_prepare_result (sh_sink sh) (ss_file_total_bytes ss) (ss_file_id ss)) as (s' & ok & -> & Hok); [done | apply Hss | apply Hss |].
    cbn [res_bind]. intros [= <-]. split; [| by right]. assert (lenZ whole <> kUnset) as Hne by (pose proof (hp_size H); unfold kUnset; lia).
    rewrite Et in *. destruct sh as [total ss0 st dg hd key s]. cbn in Ep, Eu, Hok |- *. subst total ss0. eapply rtc_l.
    + apply others_claim; [| exact Hne]. rewrite <- Et. apply Hss.
    + destruct ok; apply rtc_once; [| by apply others_failed]. destruct (Hok eq_refl) as (? & ? & ?). by apply others_prepared.
  - destruct (Z.eqb_spec (sh_file_total sh) (ss_file_total_bytes ss)); cbn [negb]; [| done]. intros [= <-]. split; [done |]. right. congruence.
Qed.

Lemma kept_total (w w' : RxWorld) : kept w w' -> total_ok (w_shared w) -> total_ok (w_shared w').
Proof. intros (_ & _ & [= E _ _ _] & _). unfold total_ok. by rewrite E. Qed.

(** A lane's consumers write inside its part. *)
Lemma effect_consume i p w chs ch acc order olds cs s failed comps base' len' k key :
  parts !! i = Some p -> sys_inv cfg (Z.of_nat i) (part_bytes p) (pt_base p) (pt_plan p) True (mkSystem _ w chs) acc order -> chs !! k = Some ch ->
  drain_channel (want_crypto cfg) (sh_key (w_shared w)) (Z.of_nat i) (ch_cs ch) (sh_sink (w_shared w)) (ch_in ch) olds = Ok (cs, s, failed, comps) ->
  0 <= base' -> base' + len' <= pt_base p \/ pt_base p + pt_len p <= base' ->
  rtc (others base' len') (set_key (w_shared w) key) (set_key (w_shared (set_sink w s)) key).
Proof.
  intros Ep I Ek E Hb Hd. pose proof (Forall_lookup_1 _ _ _ _ (si_chans _ _ _ _ _ _ _ _ _ I) Ek) as Gch. destruct (hp_plan H i p Ep) as [Hp _].
  pose proof (si_session _ _ _ _ _ _ _ _ _ I) as Hs. pose proof (si_shared _ _ _ _ _ _ _ _ _ I) as Hsh. unfold session_inv in Hs. cbn [sy_world sy_channels] in *.
  destruct (xs_have_start _) eqn:Eh.
  - destruct Hs as (Hr & _ & _ & Hle & Hk & Hhon). destruct (Hhon Logic.I) as [E1 E2]. unfold shared_inv in Hsh. rewrite Hr in Hsh. destruct Hsh as (Hok & Hft & Hlt).
    destruct (fun P => drain_good _ _ _ _ _ True _ _ _ _ _ _ _ _ P Hok ltac:(lia) Hk Gch E) as (Hok' & El & Ko & _ & _); [intros _; split; [done |]; lia |].
    destruct (Ko Logic.I) as [_ Kout]. cbn [set_sink set_shared w_shared]. destruct (w_shared w) as [total ss st dg hd key0 sk]. cbn in Hr, El, Kout, Hok' |- *. subst ss.
    apply rtc_once, others_write; [done | done |]. intros q Hq. apply Kout; [lia |]. rewrite (part_len _ _ Ep). lia.
  - destruct Hs as [_ Hnew]. pose proof (Forall_lookup_1 _ _ _ _ Hnew Ek) as <-.
    unfold drain_channel in E. cbn [new_channel ch_in ch_cs] in E. change (lenZ (@nil PacketSlot)) with 0 in E.
    replace (Z.min (Z.min 0 (lenZ olds)) kWriteBatch) with 0 in E by (pose proof (lenZ_nonneg olds); unfold kWriteBatch; lia).
    injection E as _ <- _ _. by apply effect_aside.
Qed.

Lemma step_effect i p sy sy' acc order base' len' key :
  parts !! i = Some p -> sys_inv cfg (Z.of_nat i) (part_bytes p) (pt_base p) (pt_plan p) True sy acc order ->
  lane_step cfg (Z.of_nat i) (pt_net p) nothing sy sy' -> total_ok (w_shared (sy_world sy)) ->
  0 <= base' -> base' + len' <= pt_base p \/ pt_base p + pt_len p <= base' ->
  rtc (others base' len') (set_key (w_shared (sy_world sy)) key) (set_key (w_shared (sy_world sy')) key) /\ total_ok (w_shared (sy_world sy')).
Proof.
  intros Ep I St Ht Hb Hd.
  assert (forall w w', kept w w' -> total_ok (w_shared w) -> rtc (others base' len') (set_key (w_shared w) key) (set_key (w_shared w') key) /\ total_ok (w_shared w')) as K
    by (intros w w' Kw Htw; split; [by apply effect_kept | by eapply kept_total]).
  destruct St as [w chs now Ex | w chs src dg now rnd room w' Ex Hby _ _ Hnd E | w chs k ch c out r w' Ex _ Ek Eo E
    | w chs Ex | w chs j w' Ex Hst E | w chs st w' Ex Hst E | w chs Ex Hab | w chs k ch olds cs s failed comps Ek E | w chs sh []]; cbn [sy_world] in *.
  - apply K; [apply note_arrival_kept | done].
  - cbn [take_handed w_shared]. assert (shared_inv (w_shared w) True) as Hsh.
    { pose proof (si_shared _ _ _ _ _ _ _ _ _ I) as Hs. cbn in Hs. rewrite Ex in Hs. unfold shared_inv in *.
      destruct (sh_sink_state _); [done | done |]. intros Hu _. by apply (Hs Hu). }
    assert (forall ss kk trial sh, start_accepted cfg (Z.of_nat i) w src dg ss kk trial sh ->
      rtc (others base' len') (set_key (w_shared w) key) (set_key sh key) /\ total_ok sh) as Claim.
    { intros ss kk trial sh A. eapply effect_claim; [done | | | apply A].
      - by apply (decode_sound (CodecLaws := stream_start_laws) dg ss Hby (sa_decoded _ _ _ _ _ _ _ _ _ A)).
      - by eapply (hp_total H i p); [| | apply A | apply A]. }
    apply on_datagram_cases in E as [E | [E | [E | E]]]; [by apply K | | |].
    + destruct E as (ss & kk & trial & sh & A & _ & _ & _ & -> & _). by eapply Claim.
    + destruct E as (ss & kk & trial & sh & want & A & _ & _ & _ & -> & _). destruct (want_crypto cfg); by apply (Claim ss kk trial sh A).
    + by destruct E as (d & _ & _ & _ & _ & _ & _ & ->).
  - apply take_result_cases in E as (b' & _ & E). by apply (K _ _ E).
  - done.
  - apply recv_tail_shared in E as [= E1 E2 _ E4]. split; [apply effect_aside; congruence | unfold total_ok; by rewrite E1].
  - by apply (K _ _ (abandon_kept _ _ _ _ E)).
  - done.
  - split; [by eapply effect_consume | done].
Qed.

(** ** Every lane is a lane among others *)

Notation lane_of i p := (step cfg (Z.of_nat i) (pt_net p) (pt_base p) (lenZ (part_bytes p))).

Lemma own_step i p sy sy' : lane_step cfg (Z.of_nat i) (pt_net p) nothing sy sy' -> lane_of i p sy sy'.
Proof.
  intros St. destruct St as [| w chs src dg now rnd room w' H1 H2 H3 H4 H5 H6 | | | | | | | ? ? ? []];
    [by apply step_arrival | by apply (step_datagram _ _ _ _ w chs src dg now rnd room w' H1 H2 H3 H4 H5 H6) | by eapply step_result | by apply step_publish | by eapply step_tail
    | by eapply step_abandon | by apply step_aborted | by eapply step_consume].
Qed.

Lemma set_shared_own (w : RxWorld) : set_shared w (w_shared w) = w.
Proof. by destruct w. Qed.

Lemma others_run i p (sy : System) sh :
  rtc (others (pt_base p) (lenZ (part_bytes p))) (w_shared (sy_world sy)) sh -> rtc (lane_of i p) sy (mkSystem _ (set_shared (sy_world sy) sh) (sy_channels sy)).
Proof.
  intros R. assert (forall w chs sh1 sh2, rtc (others (pt_base p) (lenZ (part_bytes p))) sh1 sh2 ->
    rtc (lane_of i p) (mkSystem _ (set_shared w sh1) chs) (mkSystem _ (set_shared w sh2) chs)) as Lift.
  { intros w chs sh1 sh2 R'. induction R' as [sh1 | sh1 sh2 sh3 O R' IH]; [done |]. eapply rtc_l; [| exact IH].
    apply (step_others cfg (Z.of_nat i) (pt_net p) _ (set_shared w sh1) chs sh2 O). }
  specialize (Lift (sy_world sy) (sy_channels sy) _ _ R). rewrite set_shared_own in Lift. by destruct sy.
Qed.

Section Runs.
Context (secret : nat -> bytes) (now : nat -> Z) (s : sink) (Hfresh : sink_fresh s) (Hsecret : forall i, Forall is_u8 (secret i)).

Notation reaches_lane i p := (rtc (lane_of i p) (new_system cfg (Z.of_nat i) (secret i) (now i) s)).

Record lanes_inv (sys : list System) : Prop := {
  li_count : length sys = length parts;
  li_shared : exists sh0, total_ok sh0 /\ forall i sy, sys !! i = Some sy -> w_shared (sy_world sy) = set_key sh0 (sh_key (w_shared (sy_world sy)));
  li_lane i p sy : parts !! i = Some p -> sys !! i = Some sy -> reaches_lane i p sy;
}.

Lemma lane_facts sys i p sy :
  lanes_inv sys -> parts !! i = Some p -> sys !! i = Some sy ->
  exists acc order, wire_ok (Z.of_nat i) acc (sy_world sy) /\ sys_inv cfg (Z.of_nat i) (part_bytes p) (pt_base p) (pt_plan p) True sy acc order.
Proof.
  intros I Ep Es. assert (is_u16 (Z.of_nat i)) as Hi by (apply lookup_lt_Some in Ep; pose proof (hp_count H); unfold lenZ, is_u16 in *; lia).
  apply (reach_wire cfg (Z.of_nat i) Hi _ _ _ True (pt_net p) (secret i) (now i) s);
    [intros _; by apply (hp_plan H i p) | intros key dg Hn _; by apply (hp_net H i p) | done | done | done | by apply (li_lane _ I)].
Qed.

Lemma new_lanes_inv : lanes_inv (new_lanes secret now s).
Proof.
  unfold new_lanes. split.
  - apply length_imap.
  - exists (new_rx_shared s). split; [by left |]. intros i sy E. rewrite list_lookup_imap in E. destruct (parts !! i); [| done]. by injection E as <-.
  - intros i p sy Ep E. rewrite list_lookup_imap, Ep in E. by injection E as <-.
Qed.

Lemma lane_moves_inv sys i p sy sy' :
  lanes_inv sys -> parts !! i = Some p -> sys !! i = Some sy -> lane_step cfg (Z.of_nat i) (pt_net p) nothing sy sy' ->
  lanes_inv (<[i := sy']> (share (w_shared (sy_world sy')) <$> sys)).
Proof.
  intros I Ep Es St. destruct (lane_facts sys i p sy I Ep Es) as (acc & order & _ & Isy).
  destruct (li_shared _ I) as (sh0 & Ht0 & Hsh). assert (total_ok (w_shared (sy_world sy))) as Ht by (rewrite (Hsh i sy Es); exact Ht0).
  destruct (hp_inside H i p Ep) as (Hb & Hl & _). set (sh' := w_shared (sy_world sy')).
  assert (forall base' len' key, 0 <= base' -> base' + len' <= pt_base p \/ pt_base p + pt_len p <= base' ->
    rtc (others base' len') (set_key (w_shared (sy_world sy)) key) (set_key sh' key) /\ total_ok sh') as Eff by (intros; by eapply step_effect).
  split.
  - by rewrite length_insert, length_fmap, (li_count _ I).
  - exists sh'. split; [apply (Eff (pt_base p + pt_len p) 0 (mkLaneKey [] false)); lia |]. intros j x Ej. destruct (decide (j = i)) as [-> | Hne].
    + rewrite list_lookup_insert_eq in Ej by (rewrite length_fmap; by eapply lookup_lt_Some). injection Ej as <-. by rewrite set_key_own.
    + rewrite list_lookup_insert_ne, list_lookup_fmap in Ej by done. destruct (sys !! j) as [y |]; [| done]. by injection Ej as <-.
  - intros j q x Eq Ej. destruct (decide (j = i)) as [-> | Hne].
    + rewrite list_lookup_insert_eq in Ej by (rewrite length_fmap; by eapply lookup_lt_Some). injection Ej as <-. rewrite Ep in Eq. injection Eq as <-.
      eapply rtc_r; [by apply (li_lane _ I i p sy) | by apply own_step].
    + rewrite list_lookup_insert_ne, list_lookup_fmap in Ej by done. destruct (sys !! j) as [y |] eqn:Ey; [| done]. injection Ej as <-.
      etrans; [by apply (li_lane _ I j q y) |]. apply others_run. rewrite (part_len j q Eq).
      assert (w_shared (sy_world y) = set_key (w_shared (sy_world sy)) (sh_key (w_shared (sy_world y)))) as Ey' by (rewrite (Hsh i sy Es); exact (Hsh j y Ey)).
      rewrite Ey' at 1.
      destruct (hp_inside H j q Eq) as (? & ? & _). apply Eff; [done |]. destruct (hp_apart H i j p q Ep Eq); (done || lia).
Qed.

(** A checkpoint is, to every lane, a change from outside that leaves the output. *)
Lemma effect_checkpoint sh live s' base' len' :
  shared_inv sh live -> sink_checkpoint (sh_sink sh) = Ok s' ->
  others base' len' sh (mkRxShared _ (sh_file_total sh) (sh_sink_state sh) (sh_session_total sh) (sh_digest sh) (sh_have_digest sh) (sh_key sh) s').
Proof.
  destruct sh as [total ss st dg hd key s0]. unfold shared_inv. cbn. intros Hsh E.
  destruct ss; [by apply others_unready; [| intros Hf; eapply sink_checkpoint_fresh] | | by apply others_unready; [| intros Hf; eapply sink_checkpoint_fresh]].
  destruct Hsh as (Hok & _). destruct (sink_checkpoint_keeps s0 Hok) as (s1 & E' & Hok' & Hd). rewrite E in E'. injection E' as <-.
  apply others_write; [done | by rewrite Hd | by rewrite Hd].
Qed.

Lemma checkpoint_runs_inv sys i sy s' :
  lanes_inv sys -> sys !! i = Some sy -> sink_checkpoint (sh_sink (w_shared (sy_world sy))) = Ok s' -> lanes_inv (checkpointed s' <$> sys).
Proof.
  intros I Es E. destruct (li_shared _ I) as (sh0 & Ht0 & Hsh). rewrite (Hsh i sy Es) in E. cbn in E. split.
  - by rewrite length_fmap, (li_count _ I).
  - eexists (mkRxShared _ (sh_file_total sh0) (sh_sink_state sh0) (sh_session_total sh0) (sh_digest sh0) (sh_have_digest sh0) (sh_key sh0) s').
    split; [exact Ht0 |]. intros j x Ej. rewrite list_lookup_fmap in Ej. destruct (sys !! j) as [y |] eqn:Ey; [| done]. injection Ej as <-.
    cbn. by rewrite (Hsh j y Ey).
  - intros j q x Eq Ej. rewrite list_lookup_fmap in Ej. destruct (sys !! j) as [y |] eqn:Ey; [| done]. injection Ej as <-.
    etrans; [by apply (li_lane _ I j q y) |]. apply others_run, rtc_once. destruct (lane_facts sys j q y I Eq Ey) as (acc & order & _ & J).
    eapply effect_checkpoint; [apply (si_shared _ _ _ _ _ _ _ _ _ J) |]. by rewrite (Hsh j y Ey).
Qed.

Lemma lanes_step_inv sys sys' : lanes_inv sys -> lanes_step sys sys' -> lanes_inv sys'.
Proof.
  intros I St. destruct St as [i p sy sy' sys Ep Es St | i sy s' sys Es E]; [by apply (lane_moves_inv sys i p sy) | by apply (checkpoint_runs_inv sys i sy)].
Qed.

Lemma lanes_run_inv sys : rtc lanes_step (new_lanes secret now s) sys -> lanes_inv sys.
Proof.
  intros R. pose proof new_lanes_inv as I. revert I. induction R as [sys | sys1 sys2 sys3 St R IH]; intros I; [done |]. by apply IH, (lanes_step_inv sys1).
Qed.

(** A block a lane has accepted is in the shared output, which is as long as the
    transfer. *)
Lemma accepted_in_output sys i p sy acc order o l n :
  lanes_inv sys -> parts !! i = Some p -> sys !! i = Some sy -> sys_inv cfg (Z.of_nat i) (part_bytes p) (pt_base p) (pt_plan p) True sy acc order ->
  Z.of_nat n ∈ acc -> pt_plan p !! n = Some (o, l) ->
  (sink_ok (sh_sink (w_shared (sy_world sy))) /\ lenZ (sink_data (sh_sink (w_shared (sy_world sy)))) = lenZ whole) /\
  forall q, o <= q < o + l -> sink_data (sh_sink (w_shared (sy_world sy))) !! Z.to_nat (pt_base p + q) = whole !! Z.to_nat (pt_base p + q).
Proof.
  intros I Ep Es J Hin En. destruct (hp_plan H i p Ep) as [Hp _]. destruct (hp_inside H i p Ep) as (Hb & Hl & Hle).
  destruct (si_acc _ _ _ _ _ _ _ _ _ J Logic.I _ Hin) as (_ & o' & l' & Epl & L). rewrite Nat2Z.id, En in Epl. injection Epl as <- <-.
  destruct (plan_entry _ _ _ _ _ _ Hp ltac:(rewrite Nat2Z.id; exact En)) as (Ho & Hl' & Hol). rewrite (part_len i p Ep) in Hol. split.
  - pose proof (si_session _ _ _ _ _ _ _ _ _ J) as Hs. unfold session_inv in Hs. destruct (xs_have_start _); [| destruct Hs as [-> _]; by apply elem_of_empty in Hin].
    destruct Hs as (Hr & _). pose proof (si_shared _ _ _ _ _ _ _ _ _ J) as Hsh. unfold shared_inv in Hsh. rewrite Hr in Hsh. destruct Hsh as (Hok & -> & Hlt). split; [done |].
    destruct (li_shared _ I) as (sh0 & Ht & Hsh0). rewrite (Hsh0 i sy Es) in Hlt |- *. cbn in Hlt |- *. destruct Ht as [Ht | Ht]; [unfold kUnset in Ht; lia | done].
  - intros q Hq. rewrite L by done. unfold part_bytes. rewrite slice_lookup by lia. f_equal. lia.
Qed.

(** A lane with the status Ok has accepted all its blocks. *)
Lemma ok_lane_in_output sys i p sy o l n :
  lanes_inv sys -> parts !! i = Some p -> sys !! i = Some sy -> lr_status (rl_result (w_lane (sy_world sy))) = StOk -> pt_plan p !! n = Some (o, l) ->
  (sink_ok (sh_sink (w_shared (sy_world sy))) /\ lenZ (sink_data (sh_sink (w_shared (sy_world sy)))) = lenZ whole) /\
  forall q, o <= q < o + l -> sink_data (sh_sink (w_shared (sy_world sy))) !! Z.to_nat (pt_base p + q) = whole !! Z.to_nat (pt_base p + q).
Proof.
  intros I Ep Es Hst En. destruct (lane_facts sys i p sy I Ep Es) as (acc & order & W & J). rewrite (wo_status _ _ _ W) in Hst.
  assert (w_exit (sy_world sy) = Some StOk) as Hx by (destruct (w_exit (sy_world sy)) as [st |]; cbn in Hst; by subst).
  destruct (si_exit _ _ _ _ _ _ _ _ _ J Logic.I Hx) as [Hall _]. pose proof (lookup_lt_Some _ _ _ En) as Hn.
  apply (accepted_in_output sys i p sy acc order o l n); try done. apply Hall. unfold lenZ. lia.
Qed.

End Runs.
End Lanes.

(** ** All lanes together *)

(** The results the lanes report. *)
Definition lane_results `{Sink} (sys : list System) : list LaneResult := (fun sy => rl_result (w_lane (sy_world sy))) <$> sys.

(** All lanes Ok means the whole file.  However the lanes, their consumers and the
    network interleave: when the worst status of all lanes is Ok, and the senders'
    blocks cover the file (which they do in a transfer that does not resume), the
    output the lanes share is the file, byte for byte. *)
Lemma all_lanes_ok_is_whole `{B : CryptoBackend} `{S : Sink} `{!SinkLaws S} cfg whole parts secret now s sys :
  honest_parts cfg whole parts -> wf_config cfg -> sink_fresh s -> (forall i, Forall is_u8 (secret i)) ->
  rtc (lanes_step cfg parts) (new_lanes cfg parts secret now s) sys -> worst (lane_results sys) = StOk ->
  (forall q, 0 <= q < lenZ whole -> exists i p n o l, parts !! i = Some p /\ pt_plan p !! n = Some (o, l) /\ pt_base p + o <= q < pt_base p + o + l) ->
  forall sy, sy ∈ sys -> sink_ok (sh_sink (w_shared (sy_world sy))) /\ sink_data (sh_sink (w_shared (sy_world sy))) = whole.
Proof.
  intros Hh Hcfg Hf Hs R Hw Hcov sy Hin. pose proof (lanes_run_inv cfg whole parts Hh Hcfg secret now s Hf Hs sys R) as I.
  apply worst_ok in Hw. unfold lane_results in Hw. rewrite Forall_fmap in Hw. destruct (li_shared _ _ _ _ _ _ _ I) as (sh0 & _ & Hsh).
  assert (forall i x, sys !! i = Some x -> sh_sink (w_shared (sy_world x)) = sh_sink sh0) as Hsame by (intros i x Ex; by rewrite (Hsh i x Ex)).
  apply list_elem_of_lookup in Hin as [k Ek]. rewrite (Hsame k sy Ek).
  assert (forall i p x o l n, parts !! i = Some p -> sys !! i = Some x -> pt_plan p !! n = Some (o, l) -> (sink_ok (sh_sink sh0) /\ lenZ (sink_data (sh_sink sh0)) = lenZ whole) /\
    forall q, o <= q < o + l -> sink_data (sh_sink sh0) !! Z.to_nat (pt_base p + q) = whole !! Z.to_nat (pt_base p + q)) as Hok.
  { intros i p x o l n Ep Ex En. rewrite <- (Hsame i x Ex). eapply (ok_lane_in_output cfg whole parts Hh Hcfg secret now s Hf Hs); try done. by apply (Forall_lookup_1 _ _ _ _ Hw Ex). }
  pose proof (li_count _ _ _ _ _ _ _ I) as Hlen. destruct (lookup_lt_is_Some_2 parts k) as [p Ep]; [rewrite <- Hlen; by eapply lookup_lt_Some |].
  destruct (hp_plan _ _ _ Hh k p Ep) as [_ Hne]. destruct (pt_plan p) as [| [o l] plan] eqn:Epl; [done |].
  destruct (Hok k p sy o l 0%nat Ep Ek) as [[Hsk El] _]; [by rewrite Epl |]. split; [done |].
  apply (list_eq_same_length _ _ (length whole)); [done | unfold lenZ in El; lia |]. intros j x y Hj Ex Ey.
  destruct (Hcov (Z.of_nat j)) as (i & p' & n & o' & l' & Ep' & En & Hq); [unfold lenZ; lia |].
  destruct (lookup_lt_is_Some_2 sys i) as [x' Ex']; [rewrite Hlen; by eapply lookup_lt_Some |].
  destruct (Hok i p' x' o' l' n Ep' Ex' En) as [_ Hq']. specialize (Hq' (Z.of_nat j - pt_base p') ltac:(lia)).
  replace (Z.to_nat (pt_base p' + (Z.of_nat j - pt_base p'))) with j in Hq' by lia. rewrite Ex, Ey in Hq'. by injection Hq'.
Qed.

(** ** Two lanes *)

(** Three bytes, two of them on the first lane. *)
Module TwoLanes.

#[local] Existing Instance toy_backend.
#[local] Existing Instance MemorySink.sink.
#[local] Existing Instance MemorySink.sink_laws.

Definition cfg : TransferConfig := mkTransferConfig 4433 2 1200 [] 1000 1000 1 16.
Definition whole : bytes := [7; 8; 9].
Definition secret (i : nat) : bytes := replicate 16 0.
Definition now (i : nat) : Z := 1.

(** What the sender of a lane sends. *)
Definition start_dg (lane base len : Z) : bytes :=
  stream_start_wire (mkStreamStart lane 1 1200 len (replicate 16 0) 5 base 3 0 (address_token (replicate 16 0) peer_example 5) 0
    (replicate (Z.to_nat kMaxExtensionBytes) 0)).
Definition data_dg (lane : Z) (bs : bytes) : bytes :=
  data_wire (mkDataDatagram (mkBlockHeader lane 0 kFlagLastBlock (lenZ bs) 0) 9 (Some bs)).
Definition close_dg (lane : Z) : bytes := stream_close_wire (mkStreamClose lane 5 kStreamCloseFinished).

Definition sends (dgs : list bytes) (key : LaneKey) (dg : bytes) : Prop := dg ∈ dgs.
Definition dgs0 : list bytes := [start_dg 0 0 2; data_dg 0 [7; 8]; close_dg 0].
Definition dgs1 : list bytes := [start_dg 1 2 1; data_dg 1 [9]; close_dg 1].
Definition parts : list Part := [mkPart 0 2 [(0, 2)] (sends dgs0); mkPart 2 1 [(0, 1)] (sends dgs1)].

Definition at_lane (sys : list System) (i : nat) : System := default (new_system cfg 0 [] 0 ([], true)) (sys !! i).
Definition put (sys : list System) (i : nat) (r : System -> res System) : list System :=
  let sy' := ok_or (r (at_lane sys i)) (at_lane sys i) in <[i := sy']> (share (w_shared (sy_world sy')) <$> sys).

Definition arrive (i : nat) (dg : bytes) (sy : System) : res System := run_arrive cfg (Z.of_nat i) sy peer_example dg.
Definition consume (i : nat) (sy : System) : res System := run_consume cfg (Z.of_nat i) sy 0.
Definition result (i : nat) (sy : System) : res System := run_result (Z.of_nat i) sy 0.
Definition tail (i : nat) (sy : System) : res System := run_tail cfg (Z.of_nat i) sy 30.

Definition m0 : list System := new_lanes cfg parts secret now ([], true).
Definition m1 := put m0 0 (arrive 0 (start_dg 0 0 2)).
Definition m2 := put m1 1 (arrive 1 (start_dg 1 2 1)).
Definition m3 := put m2 1 (arrive 1 (data_dg 1 [9])).
Definition m4 := put m3 0 (arrive 0 (data_dg 0 [7; 8])).
Definition m5 := put m4 1 (consume 1).
Definition m6 := put m5 0 (consume 0).
Definition m7 := put m6 0 (result 0).
Definition m8 := put m7 1 (result 1).
Definition m9 := put m8 0 (arrive 0 (close_dg 0)).
Definition m10 := put m9 0 (tail 0).
Definition m11 := put m10 1 (arrive 1 (close_dg 1)).
Definition m12 := put m11 1 (tail 1).

Lemma moves sys i p r :
  parts !! i = Some p -> (match sys !! i with Some _ => true | None => false end) = true ->
  lane_step cfg (Z.of_nat i) (pt_net p) nothing (at_lane sys i) (ok_or (r (at_lane sys i)) (at_lane sys i)) -> lanes_step cfg parts sys (put sys i r).
Proof.
  intros Ep Es St. unfold put. cbv zeta. unfold at_lane in *. destruct (sys !! i) as [sy |] eqn:E; [| done]. cbn [default] in *. by eapply lane_moves.
Qed.

Lemma arrives sys i p dg :
  parts !! i = Some p -> (match sys !! i with Some _ => true | None => false end) = true -> Forall is_u8 dg -> (forall key, pt_net p key dg) ->
  is_ok (arrive i dg (at_lane sys i)) = true -> lanes_step cfg parts sys (put sys i (arrive i dg)).
Proof. intros Ep Es Hb Hn E. eapply moves; [done | done |]. apply run_arrive_step; [done | by repeat constructor | done | done]. Qed.

Lemma all_bytes : Forall (Forall is_u8) dgs0 /\ Forall (Forall is_u8) dgs1.
Proof. vm_compute. split; repeat constructor; discriminate. Qed.

Lemma arrives0 sys dg : (match sys !! 0%nat with Some _ => true | None => false end) = true -> dg ∈ dgs0 ->
  is_ok (arrive 0 dg (at_lane sys 0)) = true -> lanes_step cfg parts sys (put sys 0 (arrive 0 dg)).
Proof.
  intros Es Hd E. eapply arrives; [reflexivity | done | | done | done]. destruct all_bytes as [Hb _]. rewrite list.Forall_forall in Hb. by apply Hb.
Qed.

Lemma arrives1 sys dg : (match sys !! 1%nat with Some _ => true | None => false end) = true -> dg ∈ dgs1 ->
  is_ok (arrive 1 dg (at_lane sys 1)) = true -> lanes_step cfg parts sys (put sys 1 (arrive 1 dg)).
Proof.
  intros Es Hd E. eapply arrives; [reflexivity | done | | done | done]. destruct all_bytes as [_ Hb]. rewrite list.Forall_forall in Hb. by apply Hb.
Qed.

Notation next := (lanes_step cfg parts).

Lemma go1 : next m0 m1.
Proof. apply arrives0; [reflexivity | by left | vm_compute; reflexivity]. Qed.
Lemma go2 : next m1 m2.
Proof. apply arrives1; [vm_compute; reflexivity | by left | vm_compute; reflexivity]. Qed.
Lemma go3 : next m2 m3.
Proof. apply arrives1; [vm_compute; reflexivity | by right; left | vm_compute; reflexivity]. Qed.
Lemma go4 : next m3 m4.
Proof. apply arrives0; [vm_compute; reflexivity | by right; left | vm_compute; reflexivity]. Qed.
Lemma go5 : next m4 m5.
Proof. eapply moves; [reflexivity | vm_compute; reflexivity |]. apply run_consume_step. vm_compute. reflexivity. Qed.
Lemma go6 : next m5 m6.
Proof. eapply moves; [reflexivity | vm_compute; reflexivity |]. apply run_consume_step. vm_compute. reflexivity. Qed.
Lemma go7 : next m6 m7.
Proof. eapply moves; [reflexivity | vm_compute; reflexivity |]. apply run_result_step. vm_compute. reflexivity. Qed.
Lemma go8 : next m7 m8.
Proof. eapply moves; [reflexivity | vm_compute; reflexivity |]. apply run_result_step. vm_compute. reflexivity. Qed.
Lemma go9 : next m8 m9.
Proof. apply arrives0; [vm_compute; reflexivity | by do 2 right; left | vm_compute; reflexivity]. Qed.
Lemma go10 : next m9 m10.
Proof. eapply moves; [reflexivity | vm_compute; reflexivity |]. apply run_tail_step. vm_compute. reflexivity. Qed.
Lemma go11 : next m10 m11.
Proof. apply arrives1; [vm_compute; reflexivity | by do 2 right; left | vm_compute; reflexivity]. Qed.
Lemma go12 : next m11 m12.
Proof. eapply moves; [reflexivity | vm_compute; reflexivity |]. apply run_tail_step. vm_compute. reflexivity. Qed.

Lemma lanes_run : rtc next m0 m12.
Proof.
  eapply rtc_l; [exact go1 |]. eapply rtc_l; [exact go2 |]. eapply rtc_l; [exact go3 |]. eapply rtc_l; [exact go4 |].
  eapply rtc_l; [exact go5 |]. eapply rtc_l; [exact go6 |]. eapply rtc_l; [exact go7 |]. eapply rtc_l; [exact go8 |].
  eapply rtc_l; [exact go9 |]. eapply rtc_l; [exact go10 |]. eapply rtc_l; [exact go11 |].
  apply rtc_once. exact go12.
Qed.

Lemma in_three {A} (P : A -> Prop) a b c x : x ∈ [a; b; c] -> P a -> P b -> P c -> P x.
Proof. intros [-> | [-> | [-> | []%elem_of_nil]%elem_of_cons]%elem_of_cons]%elem_of_cons; done. Qed.

Lemma parts_honest : honest_parts cfg whole parts.
Proof.
  assert (forall i p, parts !! i = Some p -> (i = 0%nat /\ p = mkPart 0 2 [(0, 2)] (sends dgs0)) \/ (i = 1%nat /\ p = mkPart 2 1 [(0, 1)] (sends dgs1))) as Hp.
  { intros [| [| i]] p E; [left | right | done]; by injection E as <-. }
  split.
  - done.
  - done.
  - intros i p [[-> ->] | [-> ->]]%Hp; done.
  - intros i j p q [[-> ->] | [-> ->]]%Hp [[-> ->] | [-> ->]]%Hp Hne; (done || (left; done) || (right; done)).
  - intros i p [[-> ->] | [-> ->]]%Hp; (split; [| done]); (split; [done |]); (split; [done |]); apply Forall_singleton; vm_compute; done.
  - intros i p key dg [[-> ->] | [-> ->]]%Hp Hd; apply (in_three (honest cfg _ _ _ _ key) _ _ _ _ Hd).
    + split; [intros _ d body E; vm_compute in E; discriminate | intros ss k trial E _; vm_compute in E; injection E as <-; done].
    + split; [intros _ d body E Eb; vm_compute in E; injection E as <-; vm_compute in Eb; injection Eb as <-; exists 2; done | intros ss k trial E _; vm_compute in E; discriminate].
    + split; [intros _ d body E; vm_compute in E; discriminate | intros ss k trial E _; vm_compute in E; discriminate].
    + split; [intros _ d body E; vm_compute in E; discriminate | intros ss k trial E _; vm_compute in E; injection E as <-; done].
    + split; [intros _ d body E Eb; vm_compute in E; injection E as <-; vm_compute in Eb; injection Eb as <-; exists 1; done | intros ss k trial E _; vm_compute in E; discriminate].
    + split; [intros _ d body E; vm_compute in E; discriminate | intros ss k trial E _; vm_compute in E; discriminate].
  - intros i p key dg ss k trial [[-> ->] | [-> ->]]%Hp Hd;
      apply (in_three (fun dg => decode_stream_start dg default_stream_start = Ok ss -> authenticate_start cfg _ ss dg = Ok (true, k, trial) -> ss_file_total_bytes ss = lenZ whole) _ _ _ _ Hd);
      intros E _; vm_compute in E; (discriminate || (injection E as <-; done)).
Qed.

End TwoLanes.
