(* ===== verification/ReceiveEntry.v ===== *)
(** * Receiving a transfer

    Models what [receive_to_sink] of [src/src/proto/transfer.cpp] does once its lanes
    have ended (RecvLanes.v): the status it reports, the digest a resumed copy is held
    to, and what becomes of the output; the [verify] and [finish] of both sinks; and
    the entry points [receive_buffer] and [receive_file]. *)

From S2P Require Import Prelude Wire Control Block Window Receiver SessionCrypto Digest Ranges FileSink Peer Returns Status Sinks Pipeline RecvLane RecvSystem RecvSafety RecvLanes.

(** ** The end of a sink *)

(** [sink_left] is what the sink leaves behind and [sink_delivered] the output its
    caller finds there. *)
Class SinkEnd (S : Sink) := {
  sink_left : Type;
  sink_delivered : sink_left -> option bytes;
  sink_verify : sink -> bytes -> res bool;
  sink_finish : sink -> End -> res (sink_left * bool);
}.

(** Only a [Commit] that reports success delivers the output, and all of it; what
    has been verified has the digest. *)
Class SinkEndLaws (S : Sink) (E : SinkEnd S) (digest : bytes -> bytes) := {
  sink_verified s d : sink_ok s -> sink_resumed s = true -> sink_verify s d = Ok true -> digest (sink_data s) = d;
  sink_finish_returns s e : sink_ok s \/ e <> Commit -> exists r, sink_finish s e = Ok r;
  sink_commits s l ok : sink_ok s -> sink_finish s Commit = Ok (l, ok) -> sink_delivered l = if ok then Some (sink_data s) else None;
  sink_withholds s e l ok : e <> Commit -> sink_finish s e = Ok (l, ok) -> sink_delivered l = None;
}.

(** *** The memory sink *)

Definition memory_finish (s : bytes * bool) (e : End) : res (bytes * End * bool) := Ok (MemorySink.finish (fst s) e, e, true).

(** The vector of the caller, which counts as the output unless it has been cleared. *)
Definition memory_delivered (l : bytes * End) : option bytes := match snd l with Commit => Some (fst l) | _ => None end.

Definition memory_end : SinkEnd MemorySink.sink :=
  Build_SinkEnd MemorySink.sink (bytes * End) memory_delivered (fun _ _ => Ok true) memory_finish.

#[export] Instance memory_end_laws digest : SinkEndLaws MemorySink.sink memory_end digest.
Proof.
  split.
  - done.
  - intros s e _. by eexists.
  - intros s l ok _ [= <- <-]. done.
  - intros s [] l ok Hne [= <- <-]; done.
Qed.

(** *** The file sink *)

(** What the calls at the end report: the digest's threads, contexts and reads, the
    [ftruncate], [fdatasync], [close] and [rename] of a commit together, and the last
    checkpoint. *)
Record FileEnd := mkFileEnd {
  fe_hw : Z;
  fe_allocs : Z -> bool;
  fe_reads : Z -> list io;
  fe_ok : bool;
  fe_schedule : list nat;
  fe_commit_ok : bool;
  fe_sync_ok : bool;
  fe_calls : list io;
}.

Section FileEnds.
Context `{D : FileDigest} `{!FileDigestLaws D} (env : FileEnd).

(** [FileSink::verify]; it has not returned while the schedule is not a complete run. *)
Definition file_verify (s : file_state) (digest : bytes) : res bool :=
  match segmented_digest_fd (fe_hw env) (fk_file (fs_sink s)) (fk_total (fs_sink s)) (fe_allocs env) (fe_reads env) (fe_ok env) (fe_schedule env) with
  | Some (got, ok) => Ok (ok && bool_decide (got = digest))
  | None => Fault
  end.

Definition file_finish (s : file_state) (e : End) : res (fate * bool) :=
  finish (fs_sink s) e (fe_commit_ok env) (fe_sync_ok env) (fe_calls env ++ [IoError]).

Definition file_delivered (f : fate) : option bytes := match f with Renamed file => Some file | _ => None end.

Definition file_end : SinkEnd file_sink := Build_SinkEnd file_sink fate file_delivered file_verify file_finish.

Lemma file_finish_returns s e : exists r, file_finish s e = Ok r.
Proof.
  unfold file_finish, finish. destruct e; [destruct (fe_commit_ok env); by eexists | | by eexists].
  split_if; [| split_if; by eexists]. unfold checkpoint. split_if; [by eexists |]. split_if; [by eexists |].
  destruct (pwrite_all_returns (fe_calls env) (fk_file (fs_sink s)) (make_trailer (fs_sink s)) (fk_total (fs_sink s))) as [[file ok] ->]. by eexists.
Qed.

Lemma file_end_laws : fe_ok env = true -> (forall off, fe_allocs env off = true) -> SinkEndLaws file_sink file_end segmented_spec.
Proof.
  intros Hok Ha. split; cbn [sink_ok sink_data sink_resumed sink_delivered sink_verify sink_finish file_sink file_end].
  - intros s d (W & _ & _) _. unfold file_verify. rewrite Hok.
    destruct (segmented_digest_fd _ _ _ _ _ _ _) as [[got ok] |] eqn:E; [| done]. intros [= Hv]. bool_hyps. subst ok.
    pose proof (wk_total _ W) as Ht. apply segmented_fd_spec in E as [_ ->]; [| unfold kOffMax, kSegment in *; change (Z.shiftl 64 20) with 67108864; lia | done].
    by case_bool_decide.
  - intros s e _. apply file_finish_returns.
  - intros s l ok (W & _ & Hf). unfold file_finish, finish. pose proof (wk_total _ W) as Ht. destruct (fe_commit_ok env); intros [= <- <-]; [| done].
    f_equal. unfold ftruncate, pad. rewrite take_app_le; [done |]. unfold lenZ in Hf. lia.
  - intros s e l ok Hne. unfold file_finish, finish. destruct e; [done | | by intros [= <- <-]].
    split_if; [| split_if; by intros [= <- <-]]. destruct (checkpoint _ _ _); [done | done |]. by intros [= <- <-].
Qed.

End FileEnds.

(** ** The end of a receive *)

Section Receive.
Context `{S : Sink} `{E : !SinkEnd S}.

(** The status before the sink is finished: a resumed copy is held to the sender's
    digest. *)
Definition conclude (results : list LaneResult) (sh : RxShared) : res TransferStatus :=
  let status := worst results in
  if bool_decide (status = StOk) && sink_resumed (sh_sink sh) then
    if negb (sh_have_digest sh) then Ok VerifyFailed
    else res_bind (sink_verify (sh_sink sh) (sh_digest sh)) (fun ok => Ok (if negb ok then VerifyFailed else status))
  else Ok status.

Definition end_of (status : TransferStatus) : End :=
  match status with StOk => Commit | VerifyFailed => Discard | _ => KeepPartial end.

(** [receive_to_sink] after its threads have been joined. *)
Definition receive_end (results : list LaneResult) (sh : RxShared) : res (TransferStatus * TransferStats * sink_left) :=
  res_bind (conclude results sh) (fun status =>
  res_bind (sink_finish (sh_sink sh) (end_of status)) (fun '(after, ok) =>
  let status := if negb ok && bool_decide (status = StOk) then StIoError else status in
  let total := foldl (fun n r => u64 (n + lr_bytes r)) 0 results in
  Ok (status, fill_stats results total (sink_resumed_bytes (sh_sink sh)), after))).

Context `{B : CryptoBackend}.

(** [receive_to_sink]: the lanes run until each reader has left its loop. *)
Inductive receive_to_sink (cfg : TransferConfig) (parts : list Part) (secret : nat -> bytes) (now : nat -> Z) (s : sink) :
    TransferStatus * TransferStats * sink_left -> Prop :=
| lanes_ended sys sy out :
    lenZ parts = cf_lanes cfg -> rtc (lanes_step cfg parts) (new_lanes cfg parts secret now s) sys -> Forall (fun sy => is_Some (w_exit (sy_world sy))) sys ->
    sys !! 0%nat = Some sy -> receive_end (lane_results sys) (w_shared (sy_world sy)) = Ok out -> receive_to_sink cfg parts secret now s out.

End Receive.

(** ** The entry points *)

Section Entry.
Context `{B : CryptoBackend} (cfg : TransferConfig) (parts : list Part) (available : bool) (secret : nat -> bytes) (now : nat -> Z).

(** [receive_buffer] with the caller's vector ([None] for a null pointer) and whether
    it can be allocated: the status and the vector afterwards. *)
Inductive receive_buffer (alloc_ok : bool) : option bytes -> TransferStatus -> option bytes -> Prop :=
| buffer_null : receive_buffer alloc_ok None ConfigError None
| buffer_refused out st : check_receive_config cfg available = st -> st <> StOk -> receive_buffer alloc_ok (Some out) st (Some out)
| buffer_received out st stats after e :
    check_receive_config cfg available = StOk ->
    receive_to_sink (S := MemorySink.sink) (E := memory_end) cfg parts secret now ([], alloc_ok) (st, stats, (after, e)) ->
    receive_buffer alloc_ok (Some out) st (Some after).

(** [receive_file]: the partial file an earlier run has left, if any, whether it can
    be opened, what the calls of the sink report, and what becomes of it ([None] if
    it is not touched). *)
Inductive receive_file `{D : FileDigest} (part : option bytes) (open_ok : bool) (prep : bool * bool * bool) (writes : list (list io))
    (checkpoints : list (bool * list io)) (env : FileEnd) : TransferStatus -> option fate -> Prop :=
| file_refused st : check_receive_config cfg available = st -> st <> StOk -> receive_file part open_ok prep writes checkpoints env st None
| file_unopened :
    check_receive_config cfg available = StOk -> open_ok = false -> receive_file part open_ok prep writes checkpoints env ConfigError None
| file_received st stats f :
    check_receive_config cfg available = StOk -> open_ok = true ->
    receive_to_sink (S := file_sink) (E := file_end env) cfg parts secret now
      (mkFileState (open_sink (bool_decide (is_Some part)) (default [] part)) prep writes checkpoints) (st, stats, f) ->
    receive_file part open_ok prep writes checkpoints env st (Some f).

End Entry.

(** ** What a receive reports *)

Lemma conclude_cases `{S : Sink} `{E : !SinkEnd S} results (sh : RxShared) st :
  conclude results sh = Ok st ->
  (st = StOk /\ worst results = StOk /\ (sink_resumed (sh_sink sh) = true -> sh_have_digest sh = true /\ sink_verify (sh_sink sh) (sh_digest sh) = Ok true)) \/
  (st = VerifyFailed /\ worst results = StOk /\ sink_resumed (sh_sink sh) = true /\
     (sh_have_digest sh = false \/ sink_verify (sh_sink sh) (sh_digest sh) = Ok false)) \/
  (st = worst results /\ st <> StOk).
Proof.
  unfold conclude. case_bool_decide as Ew; cbn [andb]; [rewrite Ew | intros [= <-]; by right; right].
  destruct (sink_resumed _); [| intros [= <-]; by left]. destruct (sh_have_digest sh); cbn [negb]; [| intros [= <-]; right; left; by auto].
  destruct (sink_verify _ _) as [| | []]; cbn [res_bind negb]; [done | done | intros [= <-]; by left | intros [= <-]; right; left; by auto].
Qed.

Lemma end_of_commit st : end_of st = Commit -> st = StOk.
Proof. by destruct st. Qed.


(** C2: A receive that reports Ok has the whole transfer.  However the lanes, their
    consumers, the checkpoints and the network interleave: when the senders are honest
    and their blocks cover the transfer (which they do unless it resumes), and
    [receive_to_sink] reports Ok, its caller finds the transfer, byte for byte. *)
Theorem received_ok_is_whole `{B : CryptoBackend} `{S : Sink} `{!SinkLaws S} `{E : !SinkEnd S} digest `{!SinkEndLaws S E digest}
    cfg whole parts secret now s stats after :
  honest_parts cfg whole parts -> wf_config cfg -> sink_fresh s -> (forall i, Forall is_u8 (secret i)) ->
  (forall q, 0 <= q < lenZ whole -> exists i p n o l, parts !! i = Some p /\ pt_plan p !! n = Some (o, l) /\ pt_base p + o <= q < pt_base p + o + l) ->
  receive_to_sink cfg parts secret now s (StOk, stats, after) -> sink_delivered after = Some whole.
Proof.
  intros Hh Hcfg Hf Hs Hcov R. inversion R as [sys sy out _ Rs _ E0 Ee]; subst. apply list_elem_of_lookup_2 in E0 as Hin.
  unfold receive_end in Ee. destruct (conclude _ _) as [| | st] eqn:Ec; cbn [res_bind] in Ee; [done | done |].
  destruct (sink_finish _ _) as [| | [after' ok]] eqn:Ef; cbn [res_bind] in Ee; [done | done |]. injection Ee as Est _ ->.
  destruct (conclude_cases _ _ _ Ec) as [(-> & Hw & _) | [(-> & _) | (-> & Hne)]].
  - destruct (all_lanes_ok_is_whole cfg whole parts secret now s sys Hh Hcfg Hf Hs Rs Hw Hcov sy Hin) as [Hok Hd].
    destruct ok; [| done]. rewrite <- Hd. by apply (sink_commits (digest := digest) _ _ _ Hok Ef).
  - by destruct ok.
  - rewrite (bool_decide_eq_false_2 _ Hne), andb_false_r in Est. done.
Qed.

(** A resumed copy of three bytes with the digest of another file. *)
Definition resumed_example : file_state :=
  mkFileState (mkFileSink [7; 8; 9] true None true true 3 5 3 65536 1 [3]) (true, true, true) [] [].
Definition end_example : FileEnd := mkFileEnd 4 (fun _ => true) (fun _ => [IoBytes 2; IoIntr; IoBytes 5]) true [0; 0; 0]%nat true true [].
Definition shared_example : RxShared (H := file_sink) := mkRxShared file_sink 3 SinkReady 3 [1; 2] true (mkLaneKey [] false) resumed_example.
Definition ok_example : LaneResult := mkLaneResult 3 0 0 0 1 2 StOk 3 true 0 true.


Lemma two_lanes_left : Forall (fun sy : System (H := MemorySink.sink) => is_Some (w_exit (sy_world sy))) TwoLanes.m12.
Proof.
  apply Forall_forall. intros sy Hin. assert (forallb (fun sy : System (H := MemorySink.sink) => bool_decide (is_Some (w_exit (sy_world sy)))) TwoLanes.m12 = true) as E
    by (vm_compute; reflexivity).
  rewrite forallb_forall in E. apply (bool_decide_unpack _), Is_true_true, E, list_elem_of_In, Hin.
Qed.

Lemma two_lanes_end : exists stats, receive_to_sink (B := toy_backend) (S := MemorySink.sink) (E := memory_end) TwoLanes.cfg TwoLanes.parts TwoLanes.secret TwoLanes.now
  ([], true) (StOk, stats, (TwoLanes.whole, Commit)).
Proof.
  eexists. eapply lanes_ended; [reflexivity | exact TwoLanes.lanes_run | exact two_lanes_left | reflexivity | vm_compute; reflexivity].
Qed.

Lemma received_ok_is_whole_witness : exists stats,
  receive_to_sink (B := toy_backend) (S := MemorySink.sink) (E := memory_end) TwoLanes.cfg TwoLanes.parts TwoLanes.secret TwoLanes.now
    ([], true) (StOk, stats, (TwoLanes.whole, Commit)) /\ memory_delivered (TwoLanes.whole, Commit) = Some TwoLanes.whole.
Proof.
  destruct two_lanes_end as [stats R]. exists stats. split; [exact R |].
  apply (received_ok_is_whole (B := toy_backend) (S := MemorySink.sink) (SinkLaws0 := MemorySink.sink_laws) (E := memory_end) (fun d => d)
    (SinkEndLaws0 := memory_end_laws _) TwoLanes.cfg TwoLanes.whole TwoLanes.parts TwoLanes.secret TwoLanes.now ([], true) stats (TwoLanes.whole, Commit)).
  - exact TwoLanes.parts_honest.
  - by vm_compute.
  - done.
  - intros i. by repeat constructor.
  - intros q Hq. change (lenZ TwoLanes.whole) with 3 in Hq. destruct (Z.le_gt_cases 2 q).
    + exists 1%nat, (mkPart 2 1 [(0, 1)] (TwoLanes.sends TwoLanes.dgs1)), 0%nat, 0, 1. split; [reflexivity |]. split; [reflexivity |]. cbn. lia.
    + exists 0%nat, (mkPart 0 2 [(0, 2)] (TwoLanes.sends TwoLanes.dgs0)), 0%nat, 0, 2. split; [reflexivity |]. split; [reflexivity |]. cbn. lia.
  - exact R.
Defined.
