(* ===== verification/SendLane.v ===== *)
(** * A send lane

    Models [send_lane] of [src/src/proto/transfer.cpp]: the handshake, the batches
    of new blocks, what the lane does with each kind of datagram it receives, the
    retransmission timeout, the adaptation of the block size, the exchange of the
    whole-file digest, and every exit.

    The operating system is an argument: clock readings, random numbers, the
    outcomes of sends and the datagrams received.  [tw_sent] collects what has been
    handed to the socket, a batch sent in one call as the datagrams the kernel makes
    of it.  Sleeps and [did_work], which only decides on a sleep, are left out; so is
    the value of the pacing interval, which is rounded in the platform's
    [long double] and is an argument here. *)

From S2P Require Import Prelude Wire Control Block Window Receiver Registry Congestion SessionCrypto Ranges Peer Status Pipeline RecvLane.

Definition kGsoBudget : Z := 60000.
Definition kCleanBatchesToGrow : Z := 8.
Definition kMaxGsoSegments : Z := 64.
Definition kRtoHoles : Z := 8.

Record Keys := mkKeys { ky_enabled : bool; ky_key : bytes; ky_salt : bytes }.

(** [res->status], [res->retransmits], [res->started] with what goes with them, and
    [res->final_block]. *)
Definition store_exit (r : LaneResult) (st : TransferStatus) : LaneResult :=
  store_status r (lr_bytes r) (lr_auth_failures r) st.
Definition store_retransmits (r : LaneResult) (n : Z) : LaneResult :=
  mkLaneResult (lr_bytes r) n (lr_auth_failures r) (lr_final_block r) (lr_start_ns r) (lr_end_ns r) (lr_status r) (lr_expected r)
    (lr_started r) (lr_skipped r) (lr_finished r).
Definition store_plan (r : LaneResult) (expected skipped : Z) : LaneResult :=
  mkLaneResult (lr_bytes r) (lr_retransmits r) (lr_auth_failures r) (lr_final_block r) (lr_start_ns r) (lr_end_ns r) (lr_status r) expected
    true skipped (lr_finished r).
Definition store_final_block (r : LaneResult) (block : Z) : LaneResult :=
  mkLaneResult (lr_bytes r) (lr_retransmits r) (lr_auth_failures r) block (lr_start_ns r) (lr_end_ns r) (lr_status r) (lr_expected r)
    (lr_started r) (lr_skipped r) (lr_finished r).

(** ** The handshake *)

Record Hs := mkHs {
  hs_start : StreamStart;
  hs_acked : bool;
  hs_answer : Answer;
  hs_every_ns : Z;
  hs_next_ns : Z;
  hs_auth : option ControlAuth;
  hs_result : LaneResult;
  hs_stop_all : bool;
  hs_sent : list datagram;
  hs_exit : option TransferStatus;
}.

Definition hs_set_start (h : Hs) (ss : StreamStart) (next : Z) : Hs :=
  mkHs ss (hs_acked h) (hs_answer h) (hs_every_ns h) next (hs_auth h) (hs_result h) (hs_stop_all h) (hs_sent h) (hs_exit h).
Definition hs_set_answer (h : Hs) (acked : bool) (a : Answer) : Hs :=
  mkHs (hs_start h) acked a (hs_every_ns h) (hs_next_ns h) (hs_auth h) (hs_result h) (hs_stop_all h) (hs_sent h) (hs_exit h).
Definition hs_end (h : Hs) (st : TransferStatus) (stop : bool) : Hs :=
  mkHs (hs_start h) (hs_acked h) (hs_answer h) (hs_every_ns h) (hs_next_ns h) (hs_auth h) (store_exit (hs_result h) st)
    (hs_stop_all h || stop) (hs_sent h) (Some st).
Definition hs_sent_by (h : Hs) (auth : option ControlAuth) (out : list datagram) : Hs :=
  mkHs (hs_start h) (hs_acked h) (hs_answer h) (hs_every_ns h) (hs_next_ns h) auth (hs_result h) (hs_stop_all h) (hs_sent h ++ out) (hs_exit h).
Definition hs_set_pace (h : Hs) (every next : Z) : Hs :=
  mkHs (hs_start h) (hs_acked h) (hs_answer h) every next (hs_auth h) (hs_result h) (hs_stop_all h) (hs_sent h) (hs_exit h).

Definition set_token (ss : StreamStart) (token : Z) : StreamStart :=
  mkStreamStart (ss_stream_id ss) (ss_total_blocks ss) (ss_block_size ss) (ss_total_bytes ss) (ss_session_salt ss) (ss_nonce ss)
    (ss_stream_base_offset ss) (ss_file_total_bytes ss) (ss_file_id ss) token (ss_ext_len ss) (ss_ext ss).

Section Handshake.
Context `{B : CryptoBackend} (cfg : TransferConfig) (lane : Z) (keys : Keys) (dst : PeerAddr).

(** The socket and the lane's keys: an exit status, or what the lane starts with. *)
Definition open_lane (resolved : option PeerAddr) (opened available : bool) :
    TransferStatus + (PeerAddr * LaneKeySchedule * option ControlAuth) :=
  match resolved with
  | None => inl ConfigError
  | Some dst =>
      if negb opened then inl SocketError
      else
        let '(cipher, ok) :=
          if ky_enabled keys then schedule_init new_key_schedule available (ky_key keys) lane else (new_key_schedule, true) in
        if negb ok then inl Unsupported
        else if ky_enabled keys then
          let '(auth, ok) := control_init new_control_auth (ky_key keys) lane 0 in
          if negb ok then inl Unsupported else inr (dst, cipher, Some auth)
        else inr (dst, cipher, None)
  end.

Definition lane_start (shard_bytes lane_base file_total file_id nonce : Z) : StreamStart :=
  let d := default_stream_start in
  mkStreamStart lane 0 (cf_block_size cfg) shard_bytes (if ky_enabled keys then ky_salt keys else ss_session_salt d) nonce
    lane_base file_total file_id (ss_token d) (ss_ext_len d) (ss_ext d).

Definition new_hs (ss : StreamStart) (auth : option ControlAuth) : Hs :=
  mkHs ss false no_answer 1000000 0 auth new_lane_result false [] None.

Definition hs_limit_ns : Z := u64 (Z.min (cf_connect_timeout_ms cfg) (cf_timeout_ms cfg) * 1000000).

(** The exits of the loop's head. *)
Definition hs_leave (h : Hs) (cancelled sibling_stopped : bool) : res Hs :=
  res_bind (send_stream_close (hs_auth h) dst lane (ss_nonce (hs_start h)) kStreamCloseAborted) (fun '(auth, out) =>
  Ok (hs_end (hs_sent_by h auth out) (if cancelled then Cancelled else if sibling_stopped then PeerAborted else Timeout) cancelled)).

Definition hs_send (h : Hs) (t : Z) : res Hs :=
  res_bind (send_ctl (hs_auth h) (encode_stream_start (hs_start h)) kTxCap dst) (fun '(auth, out) =>
  let h := hs_sent_by h auth out in
  Ok (hs_set_pace h (Z.min (u64 (hs_every_ns h * 2)) 200000000) (u64 (t + hs_every_ns h)))).

Definition hs_on_close (h : Hs) (dg : bytes) : res Hs :=
  try_decode (decode_stream_close dg)
    (fun sc =>
       if (sc_nonce sc =? ss_nonce (hs_start h)) && (sc_reason sc =? kStreamCloseAuthFailed)
       then Ok (hs_end h StAuthFailed true) else Ok h)
    (Ok h).

Definition hs_on_retry (h : Hs) (dg : bytes) : res Hs :=
  try_decode (decode_retry dg)
    (fun r =>
       if (rt_nonce r =? ss_nonce (hs_start h)) && negb (rt_token r =? ss_token (hs_start h))
       then Ok (hs_set_start h (set_token (hs_start h) (rt_token r)) 0) else Ok h)
    (Ok h).

Definition hs_on_ack (h : Hs) (dg : bytes) : res Hs :=
  try_decode (decode_ack dg)
    (fun ack => if ack_nonce ack =? ss_nonce (hs_start h) then Ok (hs_set_answer h true (hs_answer h)) else Ok h)
    (Ok h).

Definition hs_receive (h : Hs) (dg : bytes) : res Hs :=
  try_decode (decode_version_mismatch dg)
    (fun _ => Ok (hs_end h VersionMismatch true))
    (try_decode (peek_msg_type dg)
       (fun type =>
          res_bind (ctl_authentic (hs_auth h) dg) (fun authentic =>
          if type =? MsgType.code MsgType.StreamClose then hs_on_close h dg
          else if type =? MsgType.code MsgType.Retry then hs_on_retry h dg
          else if (type =? MsgType.code MsgType.Ack) && authentic then hs_on_ack h dg
          else if (type =? MsgType.code MsgType.ResumeRanges) && authentic then
            res_bind (on_resume_ranges (ss_nonce (hs_start h)) (hs_answer h) dg) (fun a => Ok (hs_set_answer h (hs_acked h) a))
          else Ok h))
       (Ok h)).

Definition hs_started (h : Hs) : bool := hs_acked h && answer_complete (hs_answer h).

(** What one turn finds: the clock, the flags, and a datagram if one has arrived. *)
Definition hs_input : Type := Z * bool * bool * option bytes.

Definition hs_turn (hs_begin : Z) (h : Hs) (i : hs_input) : res Hs :=
  let '(t, cancelled, sibling_stopped, received) := i in
  if cancelled || sibling_stopped || (hs_limit_ns <? u64 (t - hs_begin)) then hs_leave h cancelled sibling_stopped
  else
    res_bind (if hs_next_ns h <=? t then hs_send h t else Ok h) (fun h =>
    match received with Some dg => hs_receive h dg | None => Ok h end).

(** [while (!started)], as far as the inputs go. *)
Fixpoint handshake (hs_begin : Z) (h : Hs) (inputs : list hs_input) : res Hs :=
  match inputs with
  | [] => Ok h
  | i :: inputs =>
      if hs_started h then Ok h
      else
        res_bind (hs_turn hs_begin h i) (fun h =>
        match hs_exit h with Some _ => Ok h | None => handshake hs_begin h inputs end)
  end.

End Handshake.

(** ** The state of the sending loop *)

(** The blocks: what is held for retransmission, what has been sent and confirmed,
    and where the next block comes from. *)
Record TxBlocks := mkTxBlocks {
  tb_reg : SenderRegistry;
  tb_base : Z;
  tb_next_seq : Z;
  tb_ri : Z;
  tb_next_offset : Z;
  tb_sent_bytes : Z;
  tb_acked_bytes : Z;
  tb_received_end : Z;
  tb_sent_last : bool;
  tb_retransmits : Z;
}.

(** The block size and its growth. *)
Record TxSize := mkTxSize {
  tz_block : Z;
  tz_growth_ceiling : Z;
  tz_pre_growth_block : Z;
  tz_clean_since_growth : Z;
  tz_reprobe_after : Z;
  tz_clean_at_ceiling : Z;
  tz_clean_batches : Z;
}.

Record TxTimers := mkTxTimers {
  tt_next_batch_ns : Z;
  tt_last_base : Z;
  tt_last_progress : Z;
  tt_last_real_progress : Z;
  tt_last_rtt_echo : Z;
}.

Record TxWorld := mkTxWorld {
  tw_dst : PeerAddr;
  tw_path : PathValidator;
  tw_auth : option ControlAuth;
  tw_cipher : LaneKeySchedule;
  tw_blocks : TxBlocks;
  tw_size : TxSize;
  tw_timers : TxTimers;
  tw_cc : CongestionController;
  tw_peer_rwnd : Z;
  tw_result : LaneResult;
  tw_stop_all : bool;
  tw_sent : list datagram;
  tw_exit : option TransferStatus;
}.

Definition tx_set_peer (w : TxWorld) (dst : PeerAddr) (path : PathValidator) : TxWorld :=
  mkTxWorld dst path (tw_auth w) (tw_cipher w) (tw_blocks w) (tw_size w) (tw_timers w) (tw_cc w) (tw_peer_rwnd w) (tw_result w)
    (tw_stop_all w) (tw_sent w) (tw_exit w).
Definition tx_add_sent (w : TxWorld) (auth : option ControlAuth) (out : list datagram) : TxWorld :=
  mkTxWorld (tw_dst w) (tw_path w) auth (tw_cipher w) (tw_blocks w) (tw_size w) (tw_timers w) (tw_cc w) (tw_peer_rwnd w) (tw_result w)
    (tw_stop_all w) (tw_sent w ++ out) (tw_exit w).
Definition tx_set_blocks (w : TxWorld) (k : LaneKeySchedule) (b : TxBlocks) : TxWorld :=
  mkTxWorld (tw_dst w) (tw_path w) (tw_auth w) k b (tw_size w) (tw_timers w) (tw_cc w) (tw_peer_rwnd w) (tw_result w)
    (tw_stop_all w) (tw_sent w) (tw_exit w).
Definition tx_set_size (w : TxWorld) (z : TxSize) : TxWorld :=
  mkTxWorld (tw_dst w) (tw_path w) (tw_auth w) (tw_cipher w) (tw_blocks w) z (tw_timers w) (tw_cc w) (tw_peer_rwnd w) (tw_result w)
    (tw_stop_all w) (tw_sent w) (tw_exit w).
Definition tx_set_timers (w : TxWorld) (t : TxTimers) (cc : CongestionController) : TxWorld :=
  mkTxWorld (tw_dst w) (tw_path w) (tw_auth w) (tw_cipher w) (tw_blocks w) (tw_size w) t cc (tw_peer_rwnd w) (tw_result w)
    (tw_stop_all w) (tw_sent w) (tw_exit w).
Definition tx_set_rwnd (w : TxWorld) (rwnd : Z) : TxWorld :=
  mkTxWorld (tw_dst w) (tw_path w) (tw_auth w) (tw_cipher w) (tw_blocks w) (tw_size w) (tw_timers w) (tw_cc w) rwnd (tw_result w)
    (tw_stop_all w) (tw_sent w) (tw_exit w).
Definition tx_set_result (w : TxWorld) (r : LaneResult) : TxWorld :=
  mkTxWorld (tw_dst w) (tw_path w) (tw_auth w) (tw_cipher w) (tw_blocks w) (tw_size w) (tw_timers w) (tw_cc w) (tw_peer_rwnd w) r
    (tw_stop_all w) (tw_sent w) (tw_exit w).
Definition tx_set_exit (w : TxWorld) (st : TransferStatus) (stop : bool) : TxWorld :=
  mkTxWorld (tw_dst w) (tw_path w) (tw_auth w) (tw_cipher w) (tw_blocks w) (tw_size w) (tw_timers w) (tw_cc w) (tw_peer_rwnd w)
    (tw_result w) (tw_stop_all w || stop) (tw_sent w) (Some st).

Definition tb_set_reg (b : TxBlocks) (reg : SenderRegistry) : TxBlocks :=
  mkTxBlocks reg (tb_base b) (tb_next_seq b) (tb_ri b) (tb_next_offset b) (tb_sent_bytes b) (tb_acked_bytes b) (tb_received_end b)
    (tb_sent_last b) (tb_retransmits b).
Definition tb_set_acked (b : TxBlocks) (reg : SenderRegistry) (base acked received_end : Z) : TxBlocks :=
  mkTxBlocks reg base (tb_next_seq b) (tb_ri b) (tb_next_offset b) (tb_sent_bytes b) acked received_end (tb_sent_last b) (tb_retransmits b).
Definition tb_count_retransmit (b : TxBlocks) : TxBlocks :=
  mkTxBlocks (tb_reg b) (tb_base b) (tb_next_seq b) (tb_ri b) (tb_next_offset b) (tb_sent_bytes b) (tb_acked_bytes b) (tb_received_end b)
    (tb_sent_last b) (u64 (tb_retransmits b + 1)).

(** ** Sending *)

Section Sending.
Context `{B : CryptoBackend} (cfg : TransferConfig) (lane : Z) (keys : Keys).

(** The lane's bytes, the session's ranges of them, its nonce, and the offset of the
    clock on the wire. *)
Context (data : bytes) (ranges : list ResumeRange) (nonce clock_offset : Z).

Definition wire_time (now : Z) : Z := u64 (now + clock_offset).

Definition block_ceiling : Z := if ky_enabled keys then u16 (kMaxPayloadSize - kAeadTagLen) else kMaxPayloadSize.

(** [block] at the start and after a loss; also [base_block]. *)
Definition first_block : Z := Z.min (cf_block_size cfg) block_ceiling.

Definition tag_room : Z := if ky_enabled keys then kAeadTagLen else 0.

Definition mtu_ceiling (mtu : Z) (dst : PeerAddr) : Z :=
  let overhead := ip_udp_overhead dst + kDataPrefixSize + tag_room in
  if overhead <? mtu then u16 (Z.max first_block (Z.min block_ceiling (mtu - overhead))) else first_block.

(** The cap of the congestion window; [Fault] is a division by a zero block size. *)
Definition max_units (mtu_ceiling : Z) : res Z :=
  if first_block =? 0 then Fault else Ok (Z.min 65535 (Z.max kWindow (kWindow * mtu_ceiling / first_block))).

Definition new_tx (dst : PeerAddr) (cipher : LaneKeySchedule) (auth : option ControlAuth) (r : LaneResult) (stop_all : bool)
    (sent : list datagram) (mtu t_progress t_real t0 : Z) : res TxWorld :=
  let ceiling := mtu_ceiling mtu dst in
  res_bind (max_units ceiling) (fun units =>
  Ok (mkTxWorld dst new_path auth cipher
        (mkTxBlocks (new_registry lane kWindow) 0 0 0 (match ranges with [] => 0 | r :: _ => rr_offset r end) 0 0 0 false 0)
        (mkTxSize first_block ceiling 0 0 64 0 0)
        (mkTxTimers 0 0 t_progress t_real 0)
        (enable_slow_start (new_controller (u16 units) true 1 16) 128)
        kRwndUnlimited (store_times r t0 (lr_end_ns r)) stop_all sent None)).

(** [give_up] *)
Definition tx_leave (w : TxWorld) (st : TransferStatus) (tell_peer stop : bool) : res TxWorld :=
  res_bind (if tell_peer then send_stream_close (tw_auth w) (tw_dst w) lane nonce kStreamCloseAborted else Ok (tw_auth w, []))
    (fun '(auth, out) =>
  let w := tx_add_sent w auth out in
  Ok (tx_set_exit (tx_set_result w (store_exit (store_retransmits (tw_result w) (tb_retransmits (tw_blocks w))) st)) st stop)).

(** *** Blocks *)

(** [seal] *)
Definition seal (k : LaneKeySchedule) (seq : Z) (aad pt : bytes) : LaneKeySchedule * option bytes :=
  let '(k, c) := cipher_for k seq in
  (k, match c with Some c => cipher_seal c lane seq aad pt | None => None end).

(** The body and the payload length of the datagram of a block with [len] bytes at
    [pt]; nothing if it cannot be sealed. *)
Definition block_body (k : LaneKeySchedule) (seq offset flags : Z) (pt : bytes) (len : Z) : LaneKeySchedule * option (bytes * Z) :=
  if ky_enabled keys then
    let '(k, sealed) := seal k seq (build_aad lane seq offset flags) (take (Z.to_nat len) pt) in
    (k, match sealed with Some body => Some (body, u16 (len + kAeadTagLen)) | None => None end)
  else (k, Some (pt, len)).

(** [resend], at wire clock [t]; [ok] is what the socket says. *)
Definition resend (w : TxWorld) (seq : Z) (o : Z * bool) : res (TxWorld * bool) :=
  let '(t, ok) := o in
  match lookup (tb_reg (tw_blocks w)) seq with
  | None => Ok (w, false)
  | Some sl =>
      let flags := Z.lor (sl_flags sl) kFlagRetransmission in
      let '(k, body) := block_body (tw_cipher w) seq (sl_offset sl) flags (sl_payload sl) (sl_payload_len sl) in
      let w := tx_set_blocks w k (tw_blocks w) in
      match body with
      | None => Ok (w, false)
      | Some (body, plen) =>
          res_bind (encode_data_datagram (mkBlockHeader lane seq flags plen (sl_offset sl)) (wire_time t) (Some body)
                      (replicate (Z.to_nat (kMaxDatagramSize + 64)) 0)) (fun '(buf, n) =>
          if (n =? 0) || negb ok then Ok (w, false)
          else
            let w := tx_add_sent w (tw_auth w) [(tw_dst w, take (Z.to_nat n) buf)] in
            Ok (tx_set_blocks w (tw_cipher w) (tb_count_retransmit (tw_blocks w)), true))
      end
  end.

(** *** A batch of new blocks *)

Record Batch := mkBatch {
  bt_blocks : TxBlocks;
  bt_cipher : LaneKeySchedule;
  bt_packed : Z;
  bt_staging : bytes;
}.

(** The blocks after the one packed at [next_offset], [len] bytes long. *)
Definition advance (b : TxBlocks) (reg : SenderRegistry) (len range_end : Z) (is_last : bool) : TxBlocks :=
  let off := u64 (tb_next_offset b + len) in
  let done_range := (tb_ri b <? lenZ ranges) && (range_end <=? off) in
  let ri := if done_range then tb_ri b + 1 else tb_ri b in
  let off := if done_range then match nthZ ranges ri with Some r => rr_offset r | None => off end else off in
  mkTxBlocks reg (tb_base b) (u64 (tb_next_seq b + 1)) ri off (u64 (tb_sent_bytes b + len)) (tb_acked_bytes b) (tb_received_end b)
    (is_last || tb_sent_last b) (tb_retransmits b).

(** The body of the packing loop; the flag says whether it goes on. [now] and [wire]
    are the two clock readings. *)
Definition pack_one (block seg : Z) (b : Batch) (now wire : Z) : res (Batch * bool) :=
  let t := bt_blocks b in
  let range_end := match nthZ ranges (tb_ri t) with Some r => range_end r | None => 0 end in
  let remaining := u64 (range_end - tb_next_offset t) in
  if (remaining <? block) && (0 <? bt_packed b) then Ok (b, false)
  else
    let len := u16 (Z.min block remaining) in
    let is_last := (lenZ ranges <=? tb_ri t + 1) && (range_end <=? u64 (tb_next_offset t + len)) in
    let flags := if is_last then kFlagLastBlock else 0 in
    let pt := drop (Z.to_nat (tb_next_offset t)) data in
    res_bind (store (tb_reg t) (tb_next_seq t) (Some pt) len now (tb_next_offset t) flags) (fun '(_, reg) =>
    let '(k, body) := block_body (bt_cipher b) (tb_next_seq t) (tb_next_offset t) flags pt len in
    match body with
    | None => Ok (mkBatch (tb_set_reg t reg) k (bt_packed b) (bt_staging b), false)
    | Some (body, plen) =>
        res_bind (encode_data_datagram (mkBlockHeader lane (tb_next_seq t) flags plen (tb_next_offset t)) (wire_time wire) (Some body)
                    (replicate (Z.to_nat (kGsoBudget + kMaxDatagramSize - lenZ (bt_staging b))) 0)) (fun '(buf, n) =>
        if n =? 0 then Ok (mkBatch (tb_set_reg t reg) k (bt_packed b) (bt_staging b), false)
        else
          Ok (mkBatch (advance t reg len range_end is_last) k (bt_packed b + 1) (bt_staging b ++ take (Z.to_nat n) buf),
              negb is_last && (n =? seg)))
    end).

(** The packing loop with [n] segments left; [need_empty_last] as in the code. *)
Fixpoint pack (n : nat) (block seg : Z) (need_empty_last : bool) (clock : Z -> Z * Z) (b : Batch) : res Batch :=
  match n with
  | O => Ok b
  | S n =>
      if (tb_ri (bt_blocks b) <? lenZ ranges) || need_empty_last then
        let '(now, wire) := clock (bt_packed b) in
        res_bind (pack_one block seg b now wire) (fun '(b, more) =>
        if more then pack n block seg need_empty_last clock b else Ok b)
      else Ok b
  end.

(** [n] datagrams of [seg] bytes, as long as there are bytes. *)
Fixpoint cut (n : nat) (seg : Z) (buf : bytes) : list bytes :=
  match n, buf with
  | O, _ | _, [] => []
  | S n, _ => take (Z.to_nat seg) buf :: cut n seg (drop (Z.to_nat seg) buf)
  end.

(** The datagrams a batch leaves as: one by one, or cut by the kernel at every [seg]
    bytes. *)
Definition emit (packed seg : Z) (staging : bytes) (gso_ok : bool) : list bytes :=
  if (packed =? 1) || negb gso_ok then cut (Z.to_nat packed) seg staging else cut (length staging) seg staging.

Definition window_bytes (w : TxWorld) : Z :=
  let window := Z.max 4 (cg_window (tw_cc w)) in
  let rwnd_bytes := if tw_peer_rwnd w =? kRwndUnlimited then 2 ^ 64 - 1 else u64 (Z.max (tw_peer_rwnd w) 4 * tz_block (tw_size w)) in
  Z.min (u64 (window * first_block)) rwnd_bytes.

Definition inflight (b : TxBlocks) : Z := u64 (tb_sent_bytes b - tb_acked_bytes b).

Definition segment_size (block : Z) : Z := u16 (kDataPrefixSize + block + tag_room).

(** [max_segs]; [Fault] is a division by zero. *)
Definition max_segments (w : TxWorld) : res Z :=
  let b := tw_blocks w in
  let block := tz_block (tw_size w) in
  let seg := segment_size block in
  if (block =? 0) || (seg =? 0) then Fault
  else
    let byte_room := u64 (u64 (u64 (window_bytes w - inflight b) + block) - 1) / block in
    let burst_cap := if 1000000 <? cg_srtt_ns (tw_cc w) then 16 else kMaxGsoSegments in
    Ok (Z.min (Z.min (kGsoBudget / seg) (u64 (kWindow - u64 (tb_next_seq b - tb_base b)))) (Z.min byte_room burst_cap)).

(** What the sending part of a turn reads: the clock for the pace, the clocks of the
    blocks, the clock and the interval for the next batch, and the socket's answer. *)
Record SendIn := mkSendIn {
  si_now : Z;
  si_clock : Z -> Z * Z;
  si_batch_ns : Z;
  si_interval : Z;
  si_gso_ok : bool;
}.

Definition need_empty_last (b : TxBlocks) : bool := match ranges with [] => tb_next_seq b =? 0 | _ => false end.

Definition may_send (w : TxWorld) (now : Z) : bool :=
  let b := tw_blocks w in
  ((tb_ri b <? lenZ ranges) || need_empty_last b) && (tb_next_seq b <? u64 (tb_base b + kWindow)) &&
  (inflight b <? window_bytes w) && (tt_next_batch_ns (tw_timers w) <=? now).

Definition send_batch (w : TxWorld) (i : SendIn) : res TxWorld :=
  if may_send w (si_now i) then
    let b := tw_blocks w in
    let block := tz_block (tw_size w) in
    let seg := segment_size block in
    res_bind (max_segments w) (fun max_segs =>
    res_bind (pack (Z.to_nat max_segs) block seg (need_empty_last b) (si_clock i) (mkBatch b (tw_cipher w) 0 [])) (fun bt =>
    let w := tx_set_blocks w (bt_cipher bt) (bt_blocks bt) in
    if 0 <? bt_packed bt then
      let t := tw_timers w in
      let t := mkTxTimers (u64 (si_batch_ns i + si_interval i)) (tt_last_base t) (tt_last_progress t) (tt_last_real_progress t)
                 (tt_last_rtt_echo t) in
      Ok (tx_add_sent (tx_set_timers w t (tw_cc w)) (tw_auth w)
            (pair (tw_dst w) <$> emit (bt_packed bt) seg (bt_staging bt) (si_gso_ok i)))
    else Ok w))
  else Ok w.

(** *** Datagrams from the receiver *)

(** The clock for the probe, the random number, the wire clock of the round-trip
    sample, and the clock and the socket's answer for each resent block. *)
Definition tx_reading : Type := Z * Z * Z * (Z -> Z * bool).

(** Each [resend] of a list in turn, the results ignored. *)
Fixpoint resend_each (w : TxWorld) (i : Z) (seqs : list Z) (outs : Z -> Z * bool) : res TxWorld :=
  match seqs with
  | [] => Ok w
  | seq :: seqs => res_bind (resend w seq (outs i)) (fun '(w, _) => resend_each w (i + 1) seqs outs)
  end.

Definition tx_probe (w : TxWorld) (src : PeerAddr) (now rnd : Z) : res TxWorld :=
  let '(path, challenge) := want_probe (tw_path w) src now rnd in
  let w := tx_set_peer w (tw_dst w) path in
  match challenge with
  | None => Ok w
  | Some c =>
      res_bind (send_path_probe (tw_auth w) src MsgType.PathChallenge lane nonce c) (fun '(auth, out) => Ok (tx_add_sent w auth out))
  end.

(** What an Ack of this session does to the blocks, the window and the estimates. *)
Definition take_ack (w : TxWorld) (ack : Ack) (wire : Z) : res TxWorld :=
  let b := tw_blocks w in
  res_bind (apply_ack (tb_reg b) ack (tb_base b) (tb_next_seq b) (Some (tb_received_end b)))
    (fun '(reg, base, received_end, bytes) =>
  let acked := u64 (tb_acked_bytes b + bytes) in
  let w := tx_set_blocks w (tw_cipher w) (tb_set_acked b reg base acked (default (tb_received_end b) received_end)) in
  let w := tx_set_rwnd w (ack_rwnd ack) in
  let w := tx_set_result w (store_bytes (tw_result w) acked) in
  let t := tw_timers w in
  if (0 <? ack_echoed_send_time ack) && negb (ack_echoed_send_time ack =? tt_last_rtt_echo t)
  then Ok (tx_set_timers w
             (mkTxTimers (tt_next_batch_ns t) (tt_last_base t) (tt_last_progress t) (tt_last_real_progress t) (ack_echoed_send_time ack))
             (on_rtt_sample (tw_cc w) (rtt_sample_from_echo (wire_time wire) (ack_echoed_send_time ack))))
  else Ok w).

Definition tx_on_ack (w : TxWorld) (src : PeerAddr) (dg : bytes) (now rnd wire : Z) : res TxWorld :=
  try_decode (decode_ack dg)
    (fun ack =>
       if negb (ack_nonce ack =? nonce) then Ok w
       else
         res_bind (if negb (peer_eqb src (tw_dst w)) then tx_probe w src now rnd else Ok w) (fun w => take_ack w ack wire))
    (Ok w).

(** The flag is [loss_seen]. *)
Definition tx_on_nack (w : TxWorld) (dg : bytes) (outs : Z -> Z * bool) : res (TxWorld * bool) :=
  try_decode (decode_nack dg default_nack)
    (fun nack =>
       let w := tx_set_timers w (tw_timers w) (on_loss (tw_cc w)) in
       res_bind (resend_each w 0 (take (Z.to_nat (nack_count nack)) (nack_missing nack)) outs) (fun w => Ok (w, true)))
    (Ok (w, false)).

Definition tx_on_path_probe (w : TxWorld) (src : PeerAddr) (dg : bytes) (type : MsgType.MsgType) : res TxWorld :=
  try_decode (decode_path_probe type dg)
    (fun pp =>
       if negb (pp_nonce pp =? nonce) then Ok w
       else if MsgType.code type =? MsgType.code MsgType.PathChallenge then
         res_bind (send_path_probe (tw_auth w) src MsgType.PathResponse lane nonce (pp_challenge pp)) (fun '(auth, out) =>
         Ok (tx_add_sent w auth out))
       else
         let '(path, ok) := validated (tw_path w) src (pp_challenge pp) in
         Ok (tx_set_peer w (if ok then src else tw_dst w) path))
    (Ok w).

Definition tx_on_close (w : TxWorld) (dg : bytes) : res TxWorld :=
  try_decode (decode_stream_close dg)
    (fun sc =>
       if (sc_nonce sc =? nonce) && (sc_reason sc =? kStreamCloseAborted) then tx_leave w PeerAborted false true else Ok w)
    (Ok w).

Definition tx_on_datagram (w : TxWorld) (src : PeerAddr) (dg : bytes) (r : tx_reading) : res (TxWorld * bool) :=
  let '(now, rnd, wire, outs) := r in
  let quiet (m : res TxWorld) := res_bind m (fun w => Ok (w, false)) in
  try_decode (peek_msg_type dg)
    (fun type =>
       res_bind (ctl_authentic (tw_auth w) dg) (fun authentic =>
       if negb authentic then Ok (w, false)
       else if type =? MsgType.code MsgType.Ack then quiet (tx_on_ack w src dg now rnd wire)
       else if type =? MsgType.code MsgType.Nack then tx_on_nack w dg outs
       else if type =? MsgType.code MsgType.PathChallenge then quiet (tx_on_path_probe w src dg MsgType.PathChallenge)
       else if type =? MsgType.code MsgType.PathResponse then quiet (tx_on_path_probe w src dg MsgType.PathResponse)
       else if type =? MsgType.code MsgType.StreamClose then quiet (tx_on_close w dg)
       else Ok (w, false)))
    (Ok (w, false)).

(** The drain loop; the flag accumulates [loss_seen]. *)
Fixpoint tx_drain (w : TxWorld) (loss_seen : bool) (dgs : list (PeerAddr * bytes * tx_reading)) : res (TxWorld * bool) :=
  match dgs with
  | [] => Ok (w, loss_seen)
  | (src, dg, r) :: dgs =>
      res_bind (tx_on_datagram w src dg r) (fun '(w, loss) =>
      match tw_exit w with
      | Some _ => Ok (w, loss_seen || loss)
      | None => tx_drain w (loss_seen || loss) dgs
      end)
  end.

(** *** The retransmission timeout *)

Definition tx_rto_ns (w : TxWorld) : Z := rto_ns (tw_cc w) 5000000 1000000000 1000000000.

(** The loop over the holes from [s] on, [n] sequence numbers of it left: the number
    of holes found, and the flags [sent] and [refused]. *)
Fixpoint rto_holes (n : nat) (w : TxWorld) (s holes : Z) (sent : bool) (outs : Z -> Z * bool) : res (TxWorld * Z * bool * bool) :=
  match n with
  | O => Ok (w, holes, sent, false)
  | S n =>
      if kRtoHoles <=? holes then Ok (w, holes, sent, false)
      else if negb (s =? tb_base (tw_blocks w)) && (tb_received_end (tw_blocks w) <=? s) then Ok (w, holes, sent, false)
      else
        match lookup (tb_reg (tw_blocks w)) s with
        | None => rto_holes n w (u64 (s + 1)) holes sent outs
        | Some _ =>
            res_bind (resend w s (outs holes)) (fun '(w, ok) =>
            if ok then rto_holes n w (u64 (s + 1)) (holes + 1) true outs else Ok (w, holes + 1, sent, true))
        end
  end.

Definition set_progress (w : TxWorld) (t : Z) (cc : CongestionController) : TxWorld :=
  let m := tw_timers w in
  tx_set_timers w (mkTxTimers (tt_next_batch_ns m) (tt_last_base m) t (tt_last_real_progress m) (tt_last_rtt_echo m)) cc.

Definition on_timer (w : TxWorld) (t : Z) (outs : Z -> Z * bool) : res TxWorld :=
  let b := tw_blocks w in
  let m := tw_timers w in
  if negb (tb_base b =? tt_last_base m) then
    Ok (tx_set_timers w (mkTxTimers (tt_next_batch_ns m) (tb_base b) t t (tt_last_rtt_echo m)) (on_progress (tw_cc w)))
  else if tx_rto_ns w <? u64 (t - tt_last_progress m) then
    res_bind (rto_holes (Z.to_nat (tb_next_seq b - tb_base b)) w (tb_base b) 0 false outs) (fun '(w, holes, sent, refused) =>
    if holes =? 0 then Ok (set_progress w t (tw_cc w))
    else if sent && negb refused then Ok (set_progress w t (on_timeout (tw_cc w)))
    else Ok w)
  else Ok w.

(** *** The block size *)

Definition count_clean (mtu_ceiling : Z) (z : TxSize) : TxSize :=
  let since := u32 (tz_clean_since_growth z + 1) in
  if tz_growth_ceiling z <? mtu_ceiling then
    let at_ceiling := u32 (tz_clean_at_ceiling z + 1) in
    if tz_reprobe_after z <=? at_ceiling
    then mkTxSize (tz_block z) mtu_ceiling (tz_pre_growth_block z) since (tz_reprobe_after z) 0 (tz_clean_batches z)
    else mkTxSize (tz_block z) (tz_growth_ceiling z) (tz_pre_growth_block z) since (tz_reprobe_after z) at_ceiling (tz_clean_batches z)
  else mkTxSize (tz_block z) (tz_growth_ceiling z) (tz_pre_growth_block z) since (tz_reprobe_after z) (tz_clean_at_ceiling z) (tz_clean_batches z).

Definition adapt (mtu_ceiling : Z) (base_advanced loss_seen : bool) (z : TxSize) : TxSize :=
  let z := if base_advanced then count_clean mtu_ceiling z else z in
  if loss_seen then
    let failed := negb (tz_pre_growth_block z =? 0) && (tz_clean_since_growth z <? kCleanBatchesToGrow) in
    mkTxSize first_block (if failed then tz_pre_growth_block z else tz_growth_ceiling z) 0 (tz_clean_since_growth z)
      (if failed then Z.min (u32 (tz_reprobe_after z * 2)) 4096 else tz_reprobe_after z) 0 0
  else if base_advanced then
    let clean := u32 (tz_clean_batches z + 1) in
    if (kCleanBatchesToGrow <=? clean) && (tz_block z <? tz_growth_ceiling z)
    then mkTxSize (u16 (Z.min (tz_growth_ceiling z) (u32 (tz_block z * 2)))) (tz_growth_ceiling z) (tz_block z) 0
           (tz_reprobe_after z) (tz_clean_at_ceiling z) 0
    else mkTxSize (tz_block z) (tz_growth_ceiling z) (tz_pre_growth_block z) (tz_clean_since_growth z) (tz_reprobe_after z)
           (tz_clean_at_ceiling z) clean
  else z.

(** *** The loop *)

Definition deadline_ns : Z := u64 (cf_timeout_ms cfg * 1000000).

(** What one turn finds. *)
Record TxInputs := mkTxInputs {
  ti_cancel : bool;
  ti_stop : bool;
  ti_poll_ns : Z;
  ti_send : SendIn;
  ti_datagrams : list (PeerAddr * bytes * tx_reading);
  ti_now : Z;
  ti_outs : Z -> Z * bool;
}.

(** One turn of [for (;;)]; the flag says that the loop is left towards the digest
    and the end of the lane. *)
Definition tx_turn (mtu_ceiling : Z) (w : TxWorld) (i : TxInputs) : res (TxWorld * bool) :=
  let fin (m : res TxWorld) := res_bind m (fun w => Ok (w, false)) in
  if ti_cancel i then fin (tx_leave w Cancelled true true)
  else if ti_stop i then fin (tx_leave w PeerAborted true false)
  else
    let w := tx_set_timers w (tw_timers w) (poll (tw_cc w) (ti_poll_ns i)) in
    res_bind (send_batch w (ti_send i)) (fun w =>
    res_bind (tx_drain w false (take 64 (ti_datagrams i))) (fun '(w, loss_seen) =>
    match tw_exit w with
    | Some _ => Ok (w, false)
    | None =>
        let base_advanced := negb (tb_base (tw_blocks w) =? tt_last_base (tw_timers w)) in
        res_bind (on_timer w (ti_now i) (ti_outs i)) (fun w =>
        let w := tx_set_size w (adapt mtu_ceiling base_advanced loss_seen (tw_size w)) in
        let w := tx_set_result w (store_retransmits (tw_result w) (tb_retransmits (tw_blocks w))) in
        let b := tw_blocks w in
        if tb_sent_last b && (tb_next_seq b <=? tb_base b) then Ok (w, true)
        else if deadline_ns <? u64 (ti_now i - tt_last_real_progress (tw_timers w)) then fin (tx_leave w Timeout true false)
        else Ok (w, false))
    end)).

(** *** The digest and the end *)

Definition digest_on_datagram (digest : bytes) (w : TxWorld) (dg : bytes) : res (TxWorld * bool) :=
  try_decode (peek_msg_type dg)
    (fun type =>
       res_bind (ctl_authentic (tw_auth w) dg) (fun authentic =>
       if negb authentic then Ok (w, false)
       else if type =? MsgType.code MsgType.FileDigest then
         try_decode (decode_digest dg)
           (fun echo => Ok (w, (dm_nonce echo =? nonce) && bool_decide (dm_digest echo = digest)))
           (Ok (w, false))
       else if type =? MsgType.code MsgType.StreamClose then res_bind (tx_on_close w dg) (fun w => Ok (w, false))
       else Ok (w, false)))
    (Ok (w, false)).

(** [while (!echoed && recv_from(...))] *)
Fixpoint digest_drain (digest : bytes) (w : TxWorld) (dgs : list bytes) : res (TxWorld * bool) :=
  match dgs with
  | [] => Ok (w, false)
  | dg :: dgs =>
      res_bind (digest_on_datagram digest w dg) (fun '(w, echoed) =>
      match tw_exit w with
      | Some _ => Ok (w, false)
      | None => if echoed then Ok (w, true) else digest_drain digest w dgs
      end)
  end.

(** The exchange, a turn for each element of [inputs]: the flags, the clock and the
    datagrams that have arrived. [msg] is the signed datagram; the result's flag is
    [echoed]. *)
Fixpoint digest_loop (digest msg : bytes) (begin next_send : Z) (w : TxWorld) (inputs : list (bool * bool * Z * list bytes)) :
    res (TxWorld * bool) :=
  match inputs with
  | [] => Ok (w, false)
  | (cancelled, stopped, t, dgs) :: inputs =>
      let fin (m : res TxWorld) := res_bind m (fun w => Ok (w, false)) in
      if cancelled then fin (tx_leave w Cancelled true true)
      else if stopped then fin (tx_leave w PeerAborted true false)
      else if deadline_ns <? u64 (t - begin) then fin (tx_leave w Timeout true false)
      else
        let due := next_send <=? t in
        let w := if due then tx_add_sent w (tw_auth w) [(tw_dst w, msg)] else w in
        let next_send := if due then u64 (t + 50000000) else next_send in
        res_bind (digest_drain digest w dgs) (fun '(w, echoed) =>
        match tw_exit w with
        | Some _ => Ok (w, false)
        | None => if echoed then Ok (w, true) else digest_loop digest msg begin next_send w inputs
        end)
  end.

(** [if (resumed && lane == 0)]: the flag says that the lane goes on to its end. *)
Definition exchange_digest (resumed : bool) (digest : bytes) (begin : Z) (w : TxWorld) (inputs : list (bool * bool * Z * list bytes)) :
    res (TxWorld * bool) :=
  if resumed && (lane =? 0) then
    res_bind (encode_digest (mkDigestMessage lane nonce digest) (replicate (Z.to_nat (kMaxDatagramSize + 64)) 0)) (fun '(buf, n) =>
    let '(auth, buf, dn) := seal_ctl (tw_auth w) buf n in
    digest_loop digest (take (Z.to_nat dn) buf) begin 0 (tx_add_sent w auth []) inputs)
  else Ok (w, true).

(** The successful end of the lane. *)
Definition tx_finish (session_bytes : Z) (w : TxWorld) : res TxWorld :=
  res_bind (send_stream_close (tw_auth w) (tw_dst w) lane nonce kStreamCloseFinished) (fun '(auth, out) =>
  let w := tx_add_sent w auth out in
  let r := store_retransmits (store_bytes (tw_result w) session_bytes) (tb_retransmits (tw_blocks w)) in
  Ok (tx_set_exit (tx_set_result w (store_exit (store_final_block r (tz_block (tw_size w))) StOk)) StOk false)).

(** The loop with what follows it: turns until the loop is left, then the digest
    exchange (at [begin], with [exchange] as its inputs) and the end. *)
Fixpoint tx_loop (mtu_ceiling session_bytes end_ns : Z) (resumed : bool) (digest : bytes) (begin : Z)
    (exchange : list (bool * bool * Z * list bytes)) (w : TxWorld) (inputs : list TxInputs) : res TxWorld :=
  match inputs with
  | [] => Ok w
  | i :: inputs =>
      res_bind (tx_turn mtu_ceiling w i) (fun '(w, left_loop) =>
      match tw_exit w with
      | Some _ => Ok w
      | None =>
          if left_loop then
            let w := tx_set_result w (store_times (tw_result w) (lr_start_ns (tw_result w)) end_ns) in
            res_bind (exchange_digest resumed digest begin w exchange) (fun '(w, go_on) =>
            match tw_exit w with
            | Some _ => Ok w
            | None => if go_on then tx_finish session_bytes w else Ok w
            end)
          else tx_loop mtu_ceiling session_bytes end_ns resumed digest begin exchange w inputs
      end)
  end.

End Sending.

(** ** The whole lane *)

(** What the lane finds outside: the address the host resolves to, whether the socket
    opens and the cryptography is there, its nonce, the clock and the datagrams of the
    handshake, the route's MTU, the clocks at the loop's start, the offset of the
    clock on the wire, the turns, the file's digest and the digest exchange. *)
Record SendEnv := mkSendEnv {
  se_resolved : option PeerAddr;
  se_opened : bool;
  se_available : bool;
  se_nonce : Z;
  se_hs_begin : Z;
  se_hs_inputs : list hs_input;
  se_mtu : Z;
  se_progress_ns : Z;
  se_real_ns : Z;
  se_start_ns : Z;
  se_clock_offset : Z;
  se_turns : list TxInputs;
  se_end_ns : Z;
  se_digest : bytes;
  se_digest_begin : Z;
  se_exchange : list (bool * bool * Z * list bytes);
}.

(** [*res], [*stop_all], the datagrams sent, and the status of the exit the lane has
    taken, if the inputs have led it to one. *)
Record Sent := mkSent {
  sn_result : LaneResult;
  sn_stop_all : bool;
  sn_sent : list datagram;
  sn_exit : option TransferStatus;
}.

Section Lane.
Context `{B : CryptoBackend} (cfg : TransferConfig) (lane : Z) (keys : Keys).

(** From the end of the handshake on. *)
Definition send_session (data : bytes) (dst : PeerAddr) (cipher : LaneKeySchedule) (h : Hs) (env : SendEnv) : res TxWorld :=
  let '(ranges, session_bytes) := plan_session (lenZ data) (an_answer (hs_answer h)) in
  let r := store_plan (hs_result h) session_bytes (u64 (lenZ data - session_bytes)) in
  res_bind (new_tx cfg lane keys ranges dst cipher (hs_auth h) r (hs_stop_all h) (hs_sent h) (se_mtu env) (se_progress_ns env) (se_real_ns env) (se_start_ns env)) (fun w =>
  tx_loop cfg lane keys data ranges (se_nonce env) (se_clock_offset env) (mtu_ceiling cfg keys (se_mtu env) dst) session_bytes (se_end_ns env)
    (an_resumed (hs_answer h)) (se_digest env) (se_digest_begin env) (se_exchange env) w (se_turns env)).

Definition send_lane (data : bytes) (lane_base file_total file_id : Z) (env : SendEnv) : res Sent :=
  match open_lane lane keys (se_resolved env) (se_opened env) (se_available env) with
  | inl st => Ok (mkSent (store_exit new_lane_result st) false [] (Some st))
  | inr (dst, cipher, auth) =>
      let ss := lane_start cfg lane keys (lenZ data) lane_base file_total file_id (se_nonce env) in
      res_bind (handshake cfg lane dst (se_hs_begin env) (new_hs ss auth) (se_hs_inputs env)) (fun h =>
      match hs_exit h with
      | Some st => Ok (mkSent (hs_result h) (hs_stop_all h) (hs_sent h) (Some st))
      | None =>
          if hs_started h then
            res_bind (send_session data dst cipher h env) (fun w => Ok (mkSent (tw_result w) (tw_stop_all w) (tw_sent w) (tw_exit w)))
          else Ok (mkSent (hs_result h) (hs_stop_all h) (hs_sent h) None)
      end)
  end.

End Lane.
