(* ===== verification/SendPlan.v ===== *)
(** * What a send lane sends

    The invariant of the sending loop of SendLane.v.  A ghost [plan] lists the blocks
    sent so far by sequence number, as offset and length; the registry, the counters
    and every datagram handed to the socket are described in terms of it.  The
    theorems: the plan tiles the session's ranges exactly and every DATA datagram,
    first transmission or not, carries its block of the plan; the accounting of the
    bytes in flight is exact and bounded by the windows; the block size stays within
    what the path allows; and no turn of the loop faults, whatever arrives. *)

From S2P Require Import Prelude Wire Control Block Window Receiver Registry Congestion SessionCrypto Ranges Peer Returns Status Pipeline RecvLane SendLane.

(** ** Byte positions *)

Definition range_bytes (rs : list ResumeRange) : list Z := mjoin ((fun r => seqZ (rr_offset r) (rr_length r)) <$> rs).
Definition plan_bytes (plan : list (Z * Z)) : list Z := mjoin ((fun p => seqZ (fst p) (snd p)) <$> plan).

Lemma lenZ_seqZ o l : 0 <= l -> lenZ (seqZ o l) = l.
Proof. intros. unfold lenZ. rewrite length_seqZ. lia. Qed.

Lemma plan_bytes_snoc plan o l : plan_bytes (plan ++ [(o, l)]) = plan_bytes plan ++ seqZ o l.
Proof. unfold plan_bytes. rewrite fmap_app, join_app. cbn. by rewrite app_nil_r. Qed.

Lemma lenZ_plan_bytes plan : Forall (fun p => 0 <= snd p) plan -> lenZ (plan_bytes plan) = sumZ snd plan.
Proof.
  induction 1 as [| [o l] plan Hl _ IH]; [done |]. change (plan_bytes ((o, l) :: plan)) with (seqZ o l ++ plan_bytes plan).
  rewrite lenZ_app, IH, lenZ_seqZ by done. done.
Qed.

Lemma lenZ_range_bytes lo rs hi : ordered lo rs hi -> lenZ (range_bytes rs) <= hi - lo.
Proof.
  revert lo. induction rs as [| r rs IH]; intros lo; cbn [ordered]; [intros; change (lenZ (range_bytes [])) with 0; lia |]. intros (H1 & H2 & H3).
  change (range_bytes (r :: rs)) with (seqZ (rr_offset r) (rr_length r) ++ range_bytes rs). rewrite lenZ_app, lenZ_seqZ by done.
  specialize (IH _ H3). lia.
Qed.

Lemma ordered_lookup lo rs hi i r : ordered lo rs hi -> rs !! i = Some r -> lo <= rr_offset r /\ 0 <= rr_length r /\ rr_offset r + rr_length r <= hi.
Proof.
  revert lo i. induction rs as [| x rs IH]; intros lo i; [done |]. cbn [ordered]. intros (H1 & H2 & H3) E. pose proof (ordered_le _ _ _ H3).
  destruct i as [| i]; [injection E as <-; lia |]. destruct (IH _ _ H3 E). lia.
Qed.

(** Blocks of at least one byte are no more than the bytes they cover. *)
Lemma plan_count plan : Forall (fun p => 0 < snd p) plan -> lenZ plan <= lenZ (plan_bytes plan).
Proof.
  induction 1 as [| [o l] plan Hl _ IH]; [done |]. cbn [snd] in Hl. change (plan_bytes ((o, l) :: plan)) with (seqZ o l ++ plan_bytes plan).
  rewrite lenZ_app, lenZ_cons, lenZ_seqZ; lia.
Qed.

(** ** Framing: a batch leaves as the datagrams it was packed from *)

(** All datagrams but the last have the segment size. *)
Inductive framed (seg : Z) : list bytes -> Prop :=
| framed_nil : framed seg []
| framed_last dg : 0 < lenZ dg <= seg -> framed seg [dg]
| framed_full dg dgs : lenZ dg = seg -> framed seg dgs -> framed seg (dg :: dgs).

Lemma framed_snoc seg dgs dg : 0 < seg -> Forall (fun d => lenZ d = seg) dgs -> 0 < lenZ dg <= seg -> framed seg (dgs ++ [dg]).
Proof.
  intros Hs H Hd. induction H as [| d dgs Hd' _ IH]; cbn [app]; [by apply framed_last | by apply framed_full].
Qed.

Lemma framed_all seg dgs : Forall (fun d => lenZ d = seg) dgs -> framed seg dgs.
Proof. induction 1; by constructor. Qed.

Lemma cut_framed seg dgs n : 0 < seg -> framed seg dgs -> (length dgs <= n)%nat -> cut n seg (mjoin dgs) = dgs.
Proof.
  intros Hs H. revert n. induction H as [| dg Hd | dg dgs Hd _ IH]; intros [| n] Hn; cbn [length] in Hn; try lia; [done | done | |].
  - cbn [mjoin list_join]. rewrite app_nil_r. destruct dg as [| b dg]; [unfold lenZ in Hd; cbn in Hd; lia |]. cbn [cut].
    rewrite take_ge, drop_ge by (unfold lenZ in Hd; lia). by destruct n.
  - change (mjoin (dg :: dgs)) with (dg ++ mjoin dgs). destruct dg as [| b dg]; [unfold lenZ in Hd; cbn in Hd; lia |].
    cbn [cut app]. change (b :: dg ++ mjoin dgs) with ((b :: dg) ++ mjoin dgs). rewrite <- Hd, drop_pre_0, take_all_lenZ, Hd.
    by rewrite IH by lia.
Qed.

Lemma mjoin_length seg dgs : 0 < seg -> framed seg dgs -> (length dgs <= length (mjoin dgs))%nat.
Proof.
  intros Hs. induction 1 as [| dg Hd | dg dgs Hd _ IH]; [done | |].
  - change (mjoin [dg]) with (dg ++ []). rewrite app_nil_r. unfold lenZ in Hd. cbn [length]. lia.
  - change (mjoin (dg :: dgs)) with (dg ++ mjoin dgs). rewrite length_app. unfold lenZ in Hd. cbn [length]. lia.
Qed.

Lemma emit_framed packed seg dgs gso_ok : 0 < seg -> framed seg dgs -> packed = lenZ dgs -> emit packed seg (mjoin dgs) gso_ok = dgs.
Proof.
  intros Hs H ->. unfold emit. destruct (_ || _); apply cut_framed; try done; [unfold lenZ; lia | by eapply mjoin_length].
Qed.

(** ** The blocks of a lane *)

Section Plan.
Context `{B : CryptoBackend} `{!CryptoLaws B} (cfg : TransferConfig) (lane : Z) (keys : Keys).
Context (data : bytes) (ranges : list ResumeRange) (nonce clock_offset : Z).

(** What [send_lane] is called with, after the checks of its caller, and the ranges
    as [plan_session] leaves them. *)
Record sendable : Prop := {
  sd_lane : is_u16 lane;
  sd_block : 1 <= cf_block_size cfg < 2 ^ 16;
  sd_data : lenZ data < 2 ^ 63;
  sd_ranges : ordered 0 ranges (lenZ data);
  sd_nonempty : Forall (fun r => 0 < rr_length r) ranges;
  sd_nonce : is_u64 nonce;
}.

Context (Hs : sendable).

Lemma ceiling_tag : block_ceiling keys + tag_room keys = kMaxPayloadSize /\ 0 <= tag_room keys <= 16.
Proof. unfold block_ceiling, tag_room. by destruct (ky_enabled keys). Qed.

Lemma first_block_bounds : 1 <= first_block cfg keys <= block_ceiling keys.
Proof. unfold first_block, block_ceiling. pose proof (sd_block Hs). change (u16 _) with 16368. change kMaxPayloadSize with 16384. destruct (ky_enabled keys); lia. Qed.

(** *** Sealing *)

(** The key schedule answers for the session's key. *)
Definition keys_inv (k : LaneKeySchedule) : Prop := ky_enabled keys = true -> schedule_inv k (ky_key keys) lane.

(** What sealing block [seq] gives, whatever has been sealed before. *)
Definition sealed_body (seq offset flags : Z) (pt : bytes) : option bytes :=
  match epoch_cipher (ky_key keys) lane (Z.shiftr seq kKeyEpochShift) with
  | Some c => cipher_seal c lane seq (build_aad lane seq offset flags) pt
  | None => None
  end.

Definition body_spec (seq offset flags : Z) (pt : bytes) (len : Z) : option (bytes * Z) :=
  if ky_enabled keys then (fun body => (body, u16 (len + kAeadTagLen))) <$> sealed_body seq offset flags (take (Z.to_nat len) pt)
  else Some (pt, len).

Lemma block_body_spec k seq offset flags pt len :
  keys_inv k -> exists k', keys_inv k' /\ block_body lane keys k seq offset flags pt len = (k', body_spec seq offset flags pt len).
Proof.
  intros K. unfold block_body, body_spec, keys_inv in *. destruct (ky_enabled keys); [| by exists k].
  destruct (cipher_for_spec k _ _ seq (K eq_refl)) as (k' & E & I). exists k'. split; [done |]. unfold seal. rewrite E. unfold sealed_body.
  destruct (epoch_cipher _ _ _) as [c |]; [| done]. by destruct (cipher_seal _ _ _ _ _).
Qed.

(** A retransmission is sealed as the first transmission was. *)
Lemma sealed_body_retransmission seq offset flags pt :
  sealed_body seq offset (Z.lor flags kFlagRetransmission) pt = sealed_body seq offset flags pt.
Proof. unfold sealed_body. by rewrite build_aad_retransmission. Qed.

(** *** What a DATA datagram carries *)

(** The block that ends the session. *)
Definition final (plan : list (Z * Z)) (fin : bool) (s : Z) : Prop := fin = true /\ s + 1 = lenZ plan.

Definition carries (plan : list (Z * Z)) (fin : bool) (dg : bytes) : Prop :=
  exists d body, decode_data_datagram dg = Ok d /\ bh_stream_id (dd_hdr d) = lane /\ 0 <= bh_seq_no (dd_hdr d) /\
    (exists l, plan !! Z.to_nat (bh_seq_no (dd_hdr d)) = Some (bh_offset (dd_hdr d), l) /\
       default [] body = slice data (bh_offset (dd_hdr d)) l /\ lenZ dg = kDataPrefixSize + l + tag_room keys) /\
    body_of (ky_enabled keys) (mkLaneKey (ky_key keys) true) lane d = Some body /\
    (Z.land (bh_flags (dd_hdr d)) kFlagLastBlock <> 0 <-> final plan fin (bh_seq_no (dd_hdr d))).

Definition sends_seq (dg : bytes) (s : Z) : Prop := exists d, decode_data_datagram dg = Ok d /\ bh_seq_no (dd_hdr d) = s.

Lemma header_wf seq flags plen offset :
  is_u64 seq -> is_u8 flags -> 0 <= plen <= 16384 -> is_u64 offset -> wf_header (mkBlockHeader lane seq flags plen offset).
Proof. intros. split; [by apply sd_lane |]. by repeat (split; [done |]). Qed.

Lemma body_opens seq offset flags pt len body plen t :
  is_u64 seq -> is_u64 offset -> is_u8 flags -> 0 <= len <= block_ceiling keys -> len <= lenZ pt -> is_u64 t ->
  body_spec seq offset flags pt len = Some (body, plen) ->
  let d := block_datagram (mkBlockHeader lane seq flags plen offset) t body in
  plen = len + tag_room keys /\ wf_header (mkBlockHeader lane seq flags plen offset) /\ plen <= lenZ body /\
  default [] (default (Some []) (body_of (ky_enabled keys) (mkLaneKey (ky_key keys) true) lane d)) = take (Z.to_nat len) pt /\
  body_of (ky_enabled keys) (mkLaneKey (ky_key keys) true) lane d <> None.
Proof.
  intros H1 H2 H3 Hl Hp Ht E d. pose proof ceiling_tag as [Hc Htag]. unfold body_spec, tag_room in *. change kMaxPayloadSize with 16384 in *.
  pose proof (sd_lane Hs) as Hlane. destruct (ky_enabled keys) eqn:Ek; cbv iota in Hc, Htag |- *.
  - change kAeadTagLen with 16 in *. destruct (sealed_body _ _ _ _) as [b |] eqn:Eb; [| done]. cbn in E. injection E as -> <-.
    subst d. rewrite u16_small in * by (unfold is_u16; lia). unfold sealed_body in Eb. destruct (epoch_cipher _ _ _) as [c |] eqn:Ec; [| done].
    assert (lenZ (take (Z.to_nat len) pt) = len) as Et by (apply lenZ_take; lia).
    destruct (cipher_seal_open c lane seq _ _ _ ltac:(rewrite Et; lia) Eb) as [Eo Elen]. rewrite Et in Elen.
    set (d := block_datagram _ _ _). assert (dd_payload d = Some body) as Ed.
    { subst d. unfold block_datagram. cbn [bh_payload_len dd_payload]. destruct (Z.ltb_spec 0 (len + 16)); [| lia].
      rewrite take_ge by (unfold lenZ in Elen; lia). done. }
    unfold body_of. cbn [lk_key]. rewrite Ed. subst d. cbn [block_datagram dd_hdr bh_seq_no bh_payload_len bh_offset bh_flags]. rewrite Ec.
    change kAeadTagLen with 16. destruct (Z.ltb_spec (len + 16) 16); [lia |]. rewrite Eo. cbn.
    repeat split; try (by apply header_wf; (done || lia)); lia || done.
  - injection E as <- <-. split; [lia |]. split; [apply header_wf; (done || lia) |]. split; [done |]. split; [| done].
    subst d. unfold body_of, block_datagram. cbn [dd_payload bh_payload_len]. destruct (Z.ltb_spec 0 len); [done |].
    by replace len with 0 by lia.
Qed.

Lemma block_carries plan fin seq offset flags pt len body plen t :
  0 <= seq < 2 ^ 64 -> is_u64 offset -> is_u8 flags -> 0 <= len <= block_ceiling keys -> len <= lenZ pt -> is_u64 t ->
  body_spec seq offset flags pt len = Some (body, plen) ->
  plan !! Z.to_nat seq = Some (offset, len) -> take (Z.to_nat len) pt = slice data offset len ->
  (Z.land flags kFlagLastBlock <> 0 <-> final plan fin seq) ->
  let dg := data_wire (block_datagram (mkBlockHeader lane seq flags plen offset) t body) in
  plen = len + tag_room keys /\ lenZ dg = kDataPrefixSize + plen /\ carries plan fin dg /\ sends_seq dg seq /\
  (forall out, kDataPrefixSize + plen <= lenZ out ->
     encode_data_datagram (mkBlockHeader lane seq flags plen offset) t (Some body) out = Ok (dg ++ drop (length dg) out, kDataPrefixSize + plen)).
Proof.
  intros H1 H2 H3 Hl Hp Ht E Epl Ept Hf dg. destruct (body_opens seq offset flags pt len body plen t) as (E1 & Hh & Hb & Eb & Hn); try done.
  pose proof (block_datagram_wf _ t body Hh Ht Hb) as Hd. set (d := block_datagram _ _ _) in *.
  assert (decode_data_datagram dg = Ok d) as Edec.
  { subst dg. rewrite <- (app_nil_r (data_wire d)). change decode_data_datagram with (decode (M := DataDatagram)).
    change (data_wire d) with (wire d). by apply decode_wire. }
  split; [done |]. split; [by apply lenZ_data_wire |]. split; [| split; [by exists d |]].
  - destruct (body_of _ _ _ d) as [b |] eqn:Ebody; [| done]. cbn [default] in Eb.
    exists d, b. split; [done |]. split; [done |]. split; [cbn; lia |]. split; [| by split].
    exists len. cbn [block_datagram dd_hdr bh_offset d]. split; [done |]. unfold default, from_option, id in Eb. split; [by rewrite <- Ept, <- Eb |].
    subst dg. rewrite lenZ_data_wire by done. cbn [block_datagram dd_hdr bh_payload_len d]. lia.
  - intros out Ho. by apply encode_block.
Qed.

(** *** The invariant of the blocks *)

(** The bound on the block size that the path allows. *)
Context (mtu_ceil : Z) (Hmtu : first_block cfg keys <= mtu_ceil <= block_ceiling keys).

(** What is left to send, from the cursor on. *)
Definition todo (b : TxBlocks) : list Z :=
  match nthZ ranges (tb_ri b) with
  | Some r => seqZ (tb_next_offset b) (rr_offset r + rr_length r - tb_next_offset b) ++ range_bytes (drop (Z.to_nat (tb_ri b + 1)) ranges)
  | None => []
  end.

(** A slot of the registry that holds block [s] of the plan. *)
Definition slot_holds (plan : list (Z * Z)) (fin : bool) (s : Z) (sl : RegistrySlot) : Prop :=
  plan !! Z.to_nat s = Some (sl_offset sl, sl_payload_len sl) /\
  sl_flags sl = (if fin && (s + 1 =? lenZ plan) then kFlagLastBlock else 0).

(** A block that was stored but could not be sealed, and so was not sent. *)
Definition unsealed (s : Z) (sl : RegistrySlot) : Prop :=
  ky_enabled keys = true /\ sealed_body s (sl_offset sl) (sl_flags sl) (take (Z.to_nat (sl_payload_len sl)) (sl_payload sl)) = None.

Record blocks_inv (b : TxBlocks) (plan : list (Z * Z)) : Prop := {
  bi_reg : wf_registry (tb_reg b);
  bi_ws : sr_window_size (tb_reg b) = kWindow;
  bi_placed : placed (tb_reg b);
  bi_seq : tb_next_seq b = lenZ plan;
  bi_base : 0 <= tb_base b <= tb_next_seq b;
  bi_window : tb_next_seq b <= tb_base b + kWindow;
  bi_ri : 0 <= tb_ri b <= lenZ ranges;
  bi_off : match nthZ ranges (tb_ri b) with
           | Some r => rr_offset r <= tb_next_offset b < rr_offset r + rr_length r
           | None => ranges = [] -> tb_next_offset b = 0
           end;
  bi_todo : plan_bytes plan ++ todo b = range_bytes ranges;
  bi_blocks : Forall (fun p => 0 <= fst p /\ 0 <= snd p <= mtu_ceil /\ fst p + snd p <= lenZ data /\ (ranges <> [] -> 0 < snd p)) plan;
  bi_empty : ranges = [] -> lenZ plan <= 1;
  bi_last : tb_sent_last b = true <-> tb_ri b = lenZ ranges /\ plan <> [];
  bi_held : forall s sl, lookup (tb_reg b) s = Some sl ->
    tb_base b <= s <= tb_next_seq b /\ 0 <= sl_offset sl /\ 0 <= sl_payload_len sl <= mtu_ceil /\
    lenZ (sl_payload sl) = kMaxPayloadSize /\ sl_offset sl + sl_payload_len sl <= lenZ data /\
    take (Z.to_nat (sl_payload_len sl)) (sl_payload sl) = slice data (sl_offset sl) (sl_payload_len sl) /\
    if s =? tb_next_seq b then unsealed s sl else slot_holds plan (tb_sent_last b) s sl;
  bi_sent : tb_sent_bytes b = sumZ snd plan;
  bi_acked : tb_acked_bytes b + resident (tb_reg b) = tb_sent_bytes b + held (tb_reg b) (tb_next_seq b);
  bi_acked0 : 0 <= tb_acked_bytes b;
}.

Lemma plan_bounds b plan : blocks_inv b plan -> 0 <= sumZ snd plan <= lenZ data /\ lenZ plan <= lenZ data + 1.
Proof.
  intros I. pose proof (lenZ_range_bytes _ _ _ (sd_ranges Hs)) as Hr. pose proof (bi_todo _ _ I) as Ht. apply (f_equal lenZ) in Ht.
  rewrite lenZ_app in Ht. pose proof (lenZ_nonneg (todo b)). pose proof (lenZ_nonneg data).
  assert (Forall (fun p : Z * Z => 0 <= snd p) plan) as Hp by (eapply Forall_impl; [apply (bi_blocks _ _ I) |]; cbn; lia).
  rewrite <- lenZ_plan_bytes by done. split; [pose proof (lenZ_nonneg (plan_bytes plan)); lia |].
  destruct (decide (ranges = [])) as [E | E]; [pose proof (bi_empty _ _ I E); lia |].
  assert (Forall (fun p : Z * Z => 0 < snd p) plan) as Hp' by (eapply Forall_impl; [apply (bi_blocks _ _ I) |]; cbn; intuition).
  pose proof (plan_count _ Hp'). lia.
Qed.

(** *** Storing the next block *)

Lemma same_index reg t s : sr_window_size reg = kWindow -> index_of reg t = index_of reg s -> Z.abs (t - s) < kWindow -> t = s.
Proof. unfold index_of, kWindow, kMaxWindow. intros ->. intros. mlia. Qed.

(** The slot of a block of [len] bytes at [offset]. *)
Definition is_slot (offset len flags : Z) (sl : RegistrySlot) : Prop :=
  sl_offset sl = offset /\ sl_payload_len sl = len /\ sl_flags sl = flags /\ lenZ (sl_payload sl) = kMaxPayloadSize /\
  take (Z.to_nat len) (sl_payload sl) = slice data offset len.

Lemma store_block b plan len now flags :
  blocks_inv b plan -> tb_next_seq b < tb_base b + kWindow -> 0 <= tb_next_offset b -> 0 <= len <= mtu_ceil ->
  tb_next_offset b + len <= lenZ data ->
  exists reg sl, store (tb_reg b) (tb_next_seq b) (Some (drop (Z.to_nat (tb_next_offset b)) data)) len now (tb_next_offset b) flags = Ok (true, reg) /\
    wf_registry reg /\ sr_window_size reg = kWindow /\ placed reg /\
    resident reg = resident (tb_reg b) + len - held (tb_reg b) (tb_next_seq b) /\
    lookup reg (tb_next_seq b) = Some sl /\ is_slot (tb_next_offset b) len flags sl /\
    (forall t, t <> tb_next_seq b -> lookup reg t = lookup (tb_reg b) t).
Proof.
  intros I Hw Ho Hl Hd. pose proof ceiling_tag as [Hc Ht]. change kMaxPayloadSize with 16384 in Hc.
  assert (forall t, lookup (tb_reg b) t <> None -> index_of (tb_reg b) t = index_of (tb_reg b) (tb_next_seq b) -> t = tb_next_seq b) as Hu.
  { intros t Hn Hi. destruct (lookup (tb_reg b) t) eqn:E; [| done]. destruct (bi_held _ _ I _ _ E) as [? _].
    eapply same_index; [apply (bi_ws _ _ I) | done | lia]. }
  assert (len <= lenZ (drop (Z.to_nat (tb_next_offset b)) data)) as Hdr by (rewrite lenZ_drop; lia).
  assert (0 <= len <= kMaxPayloadSize) as Hmax by (unfold kMaxPayloadSize; lia).
  destruct (store_correct (tb_reg b) (tb_next_seq b) (Some (drop (Z.to_nat (tb_next_offset b)) data)) len now (tb_next_offset b) flags)
    as (reg & sl & E & W & Ews & (old & Hold & Esl) & Hlk); [apply I | done | by intros p [= <-] |].
  destruct (store_held _ _ _ _ _ _ _ _ _ (bi_reg _ _ I) (bi_placed _ _ I) Hmax Hu E) as [P R].
  exists reg, sl. split; [done |]. split; [done |]. split; [by rewrite Ews; apply I |]. split; [done |]. split; [done |].
  split; [by rewrite Hlk, Z.eqb_refl |]. split.
  - subst sl. unfold is_slot, stored_slot. cbn. assert (lenZ (take (Z.to_nat len) (drop (Z.to_nat (tb_next_offset b)) data)) = len) as El by (apply lenZ_take; lia).
    destruct (Z.ltb_spec 0 len).
    + split_and!; try done; [rewrite splice_length; [done | lia | rewrite El, Hold; unfold kMaxPayloadSize; lia] |].
      unfold splice. change (take (Z.to_nat 0) old) with (@nil Z). cbn [app]. rewrite take_app_le by (unfold lenZ in El; lia). by rewrite take_take, Nat.min_id.
    + replace len with 0 by lia. by split_and!.
  - intros t Hne. rewrite Hlk. destruct (Z.eqb_spec (tb_next_seq b) t); [done |].
    destruct (Z.eqb_spec (index_of (tb_reg b) (tb_next_seq b)) (index_of (tb_reg b) t)) as [Ei |]; [| done].
    destruct (lookup (tb_reg b) t) eqn:El; [| done]. exfalso. apply Hne. by apply Hu; [rewrite El |].
Qed.

(** The block is stored but not sent. *)
Lemma unsent_inv b plan reg sl len :
  blocks_inv b plan -> wf_registry reg -> sr_window_size reg = kWindow -> placed reg ->
  resident reg = resident (tb_reg b) + len - held (tb_reg b) (tb_next_seq b) -> 0 <= tb_next_offset b -> 0 <= len <= mtu_ceil ->
  tb_next_offset b + len <= lenZ data ->
  lookup reg (tb_next_seq b) = Some sl -> (exists flags, is_slot (tb_next_offset b) len flags sl) ->
  (forall t, t <> tb_next_seq b -> lookup reg t = lookup (tb_reg b) t) -> unsealed (tb_next_seq b) sl ->
  blocks_inv (tb_set_reg b reg) plan.
Proof.
  intros I W Ews P R Ho Hl Hd Esl (flags & E1 & E2 & E3 & E4 & E5) Hlk U. pose proof I as []. split; try done.
  - intros s x E. cbn [tb_set_reg tb_base tb_next_seq tb_sent_last tb_reg] in *. destruct (Z.eqb_spec s (tb_next_seq b)) as [-> | Hne].
    + rewrite Esl in E. injection E as <-. rewrite E1, E2. repeat (split; [lia || done |]). done.
    + rewrite Hlk in E by done. apply bi_held0 in E. destruct (Z.eqb_spec s (tb_next_seq b)); [done | exact E].
  - cbn [tb_set_reg tb_acked_bytes tb_reg tb_sent_bytes tb_next_seq]. rewrite R. unfold held at 2. rewrite Esl, E2. lia.
Qed.

(** *** Sending the next block *)

(** There is something to send, and up to where the cursor's range goes. *)
Definition pending (b : TxBlocks) (plan : list (Z * Z)) (rend : Z) : Prop :=
  (exists r, nthZ ranges (tb_ri b) = Some r /\ rend = rr_offset r + rr_length r) \/ (ranges = [] /\ plan = [] /\ rend = 0).

Lemma pending_bounds b plan rend :
  blocks_inv b plan -> pending b plan rend -> 0 <= tb_next_offset b <= rend /\ rend <= lenZ data /\ tb_sent_last b = false /\
  (ranges <> [] -> tb_next_offset b < rend).
Proof.
  intros I [(r & Er & ->) | (E & -> & ->)].
  - pose proof (bi_off _ _ I) as Ho. rewrite Er in Ho. apply nthZ_inv in Er as [Hr Er].
    destruct (ordered_lookup _ _ _ _ _ (sd_ranges Hs) Er) as (? & ? & ?). repeat split; try lia.
    destruct (tb_sent_last b) eqn:E; [| done]. apply (bi_last _ _ I) in E as [E _]. lia.
  - pose proof (bi_off _ _ I) as Ho. pose proof (bi_last _ _ I) as Hl. destruct (nthZ ranges (tb_ri b)) eqn:En; [by rewrite E in En; apply nthZ_inv in En as [_ En] |].
    rewrite (Ho E). pose proof (lenZ_nonneg data). repeat split; try lia; [| done]. destruct (tb_sent_last b); [| done]. by destruct (proj1 Hl eq_refl).
Qed.

(** Where the cursor goes. *)
Lemma advance_cursor b plan rend len reg is_last :
  blocks_inv b plan -> pending b plan rend -> 0 <= len -> tb_next_offset b + len <= rend ->
  is_last = (lenZ ranges <=? tb_ri b + 1) && (rend <=? tb_next_offset b + len) ->
  let b' := advance ranges b reg len rend is_last in
  0 <= tb_ri b' <= lenZ ranges /\
  (match nthZ ranges (tb_ri b') with
   | Some r => rr_offset r <= tb_next_offset b' < rr_offset r + rr_length r
   | None => ranges = [] -> tb_next_offset b' = 0
   end) /\
  todo b = seqZ (tb_next_offset b) len ++ todo b' /\ (is_last = true <-> tb_ri b' = lenZ ranges).
Proof.
  intros I Hp Hl Hle El b'. pose proof (bi_ri _ _ I). pose proof (sd_data Hs). destruct (pending_bounds _ _ _ I Hp) as (Ho & Hd & _ & Hne).
  subst b'. unfold advance, todo. cbn [tb_ri tb_next_offset]. rewrite !u64_small by (unfold is_u64; lia). destruct Hp as [(r & Er & ->) | (E & -> & ->)].
  - pose proof (nthZ_inv _ _ _ Er) as [Hr Er']. assert (ranges <> []) as Hne' by (intros ->; done). specialize (Hne Hne').
    destruct (Z.ltb_spec (tb_ri b) (lenZ ranges)); [| lia]. cbn [andb]. rewrite Er.
    destruct (Z.leb_spec (rr_offset r + rr_length r) (tb_next_offset b + len)).
    + assert (rr_offset r + rr_length r - tb_next_offset b = len) as -> by lia. rewrite andb_true_r in El. subst is_last.
      split; [lia |]. destruct (nthZ ranges (tb_ri b + 1)) as [r' |] eqn:Er2.
      * pose proof (nthZ_inv _ _ _ Er2) as [Hr2 Er2']. pose proof (Forall_lookup_1 _ _ _ _ (sd_nonempty Hs) Er2') as Hpos. cbn in Hpos.
        split; [lia |]. split; [| lia]. f_equal. replace (rr_offset r' + rr_length r' - rr_offset r') with (rr_length r') by lia.
        rewrite (drop_S _ _ _ Er2'). unfold range_bytes. cbn. by replace (Datatypes.S (Z.to_nat (tb_ri b + 1))) with (Z.to_nat (tb_ri b + 1 + 1)) by lia.
      * assert (tb_ri b + 1 = lenZ ranges) as Elast.
        { destruct (Z.eq_dec (tb_ri b + 1) (lenZ ranges)); [done |]. destruct (nthZ_Some ranges (tb_ri b + 1)) as [x Ex]; [lia |]. by rewrite Ex in Er2. }
        split; [by intros -> |]. split; [| lia]. rewrite drop_ge by (unfold lenZ in *; lia). unfold range_bytes. cbn. by rewrite !app_nil_r.
    + pose proof (bi_off _ _ I) as Hoff. rewrite Er in Hoff. rewrite andb_false_r in El. subst is_last. split; [lia |]. rewrite Er. split; [lia |]. split; [| split; [done | lia]].
      rewrite app_assoc, <- seqZ_app by lia. do 2 f_equal. lia.
  - pose proof (bi_off _ _ I) as Hoff. rewrite E in *. change (lenZ (@nil ResumeRange)) with 0 in *. assert (tb_ri b = 0) as Eri by lia. rewrite Eri in *.
    change (nthZ (@nil ResumeRange) 0) with (@None ResumeRange) in *. cbn [Z.ltb Z.compare andb] in *. specialize (Hoff eq_refl).
    assert (len = 0) as -> by lia. rewrite Hoff in *. subst is_last. repeat split; try lia; done.
Qed.

Lemma sent_inv b plan rend len reg sl is_last :
  blocks_inv b plan -> pending b plan rend -> tb_next_seq b < tb_base b + kWindow ->
  wf_registry reg -> sr_window_size reg = kWindow -> placed reg ->
  resident reg = resident (tb_reg b) + len - held (tb_reg b) (tb_next_seq b) ->
  0 <= len <= mtu_ceil -> (ranges <> [] -> 0 < len) -> tb_next_offset b + len <= rend ->
  is_last = (lenZ ranges <=? tb_ri b + 1) && (rend <=? tb_next_offset b + len) ->
  lookup reg (tb_next_seq b) = Some sl -> is_slot (tb_next_offset b) len (if is_last then kFlagLastBlock else 0) sl ->
  (forall t, t <> tb_next_seq b -> lookup reg t = lookup (tb_reg b) t) ->
  blocks_inv (advance ranges b reg len rend is_last) (plan ++ [(tb_next_offset b, len)]).
Proof.
  intros I Hp Hw W Ews P R Hl Hpos Hle El Esl (E1 & E2 & E3 & E4 & E5) Hlk.
  destruct (pending_bounds _ _ _ I Hp) as (Ho & Hd & Hfin & _). destruct (plan_bounds _ _ I) as [Hsum Hcount]. pose proof (sd_data Hs) as Hdat.
  pose proof (advance_cursor b plan rend len reg is_last I Hp (proj1 Hl) Hle El) as (C1 & C2 & C3 & C4).
  pose proof I as []. pose proof (lenZ_nonneg plan). set (b' := advance ranges b reg len rend is_last) in *.
  assert (lenZ (plan ++ [(tb_next_offset b, len)]) = lenZ plan + 1) as Elen by (by rewrite lenZ_app).
  assert (tb_next_seq b' = tb_next_seq b + 1) as Eseq by (cbn; apply u64_small; unfold is_u64; lia).
  assert (tb_sent_last b' = is_last) as Elast by (cbn; rewrite Hfin; apply orb_false_r).
  assert (held reg (tb_next_seq b + 1) = 0) as Hh.
  { unfold held. rewrite Hlk by lia. destruct (lookup (tb_reg b) (tb_next_seq b + 1)) eqn:E; [| done]. apply bi_held0 in E as [E _]. lia. }
  split; rewrite ?Eseq, ?Elast, ?Elen; try done.
  - lia.
  - change (tb_base b') with (tb_base b). lia.
  - change (tb_base b') with (tb_base b). lia.
  - by rewrite plan_bytes_snoc, <- app_assoc, <- C3.
  - apply Forall_app. split; [done |]. constructor; [| done]. cbn. repeat split; (lia || done).
  - intros E. destruct Hp as [(r & Er & _) | (_ & -> & _)]; [by rewrite E in Er; apply nthZ_inv in Er as [_ ?] | done].
  - rewrite C4. split; [| by intros [? _]]. intros ->. split; [done |]. by destruct plan.
  - intros s x E. change (tb_base b') with (tb_base b). change (tb_reg b') with reg in E. destruct (Z.eq_dec s (tb_next_seq b)) as [-> | Hne].
    + rewrite Esl in E. injection E as <-. rewrite E1, E2. repeat (split; [lia || done |]). destruct (Z.eqb_spec (tb_next_seq b) (tb_next_seq b + 1)); [lia |].
      split; [rewrite E1, E2, bi_seq0; unfold lenZ; rewrite Nat2Z.id; by rewrite lookup_app_r, Nat.sub_diag by lia |].
      rewrite E3, Elen, bi_seq0, Z.eqb_refl. by destruct is_last.
    + rewrite Hlk in E by done. apply bi_held0 in E as (H1 & H2 & H3 & H4 & H5 & H6 & H7). repeat (split; [lia || done |]).
      destruct (Z.eqb_spec s (tb_next_seq b)); [done |]. destruct (Z.eqb_spec s (tb_next_seq b + 1)); [lia |]. destruct H7 as [H7 H8]. split.
      * apply lookup_app_l_Some. done.
      * rewrite H8, Hfin, Elen. destruct (Z.eqb_spec (s + 1) (lenZ plan + 1)); [lia |]. by rewrite andb_false_r.
  - cbn. rewrite bi_sent0, sumZ_app. change (sumZ snd [(tb_next_offset b, len)]) with (len + 0). rewrite u64_small by (unfold is_u64; lia). lia.
  - change (tb_reg b') with reg. rewrite Hh. cbn. rewrite u64_small by (unfold is_u64; lia). lia.
Qed.

(** A plan as it grows: only while the last block has not been sent. *)
Definition extends (plan : list (Z * Z)) (fin : bool) (plan' : list (Z * Z)) (fin' : bool) : Prop :=
  (plan' = plan /\ fin' = fin) \/ (fin = false /\ exists p new, plan' = plan ++ p :: new).

Lemma extends_trans p1 f1 p2 f2 p3 f3 : extends p1 f1 p2 f2 -> extends p2 f2 p3 f3 -> extends p1 f1 p3 f3.
Proof.
  intros [[-> ->] | (-> & p & new & ->)]; [done |]. intros [[-> ->] | (-> & p' & new' & ->)]; right; (split; [done |]); [by eexists _, _ |].
  exists p, (new ++ p' :: new'). by rewrite <- app_assoc.
Qed.

(** A datagram sent before the last block still carries its block when more follow. *)
Lemma carries_extends plan fin plan' fin' dg : extends plan fin plan' fin' -> carries plan fin dg -> carries plan' fin' dg.
Proof.
  intros [[-> ->] | (-> & p & new & ->)]; [done |]. intros (d & body & H1 & H2 & H3 & (l & H4 & H5) & H6 & H7). exists d, body.
  split; [done |]. split; [done |]. split; [done |]. split; [| split; [done |]].
  - exists l. split; [by apply lookup_app_l_Some | done].
  - rewrite H7. unfold final. apply lookup_lt_Some in H4. rewrite lenZ_app, lenZ_cons. unfold lenZ.
    split; [by intros [? _] | lia].
Qed.

(** The sizes a batch is packed with. *)
Lemma segment_bounds block : 1 <= block <= mtu_ceil -> segment_size keys block = kDataPrefixSize + block + tag_room keys /\ 32 <= segment_size keys block <= 16415.
Proof.
  intros H. pose proof ceiling_tag as [Hc Ht]. change kMaxPayloadSize with 16384 in Hc. unfold segment_size. change kDataPrefixSize with 31.
  rewrite u16_small by (unfold is_u16; lia). lia.
Qed.

(** What the cursor and the counters of the acknowledgements keep while a block is
    packed. *)
Definition same_acks (b b' : TxBlocks) : Prop :=
  tb_base b' = tb_base b /\ tb_acked_bytes b' = tb_acked_bytes b /\ tb_received_end b' = tb_received_end b /\ tb_retransmits b' = tb_retransmits b.

Lemma same_acks_trans b1 b2 b3 : same_acks b1 b2 -> same_acks b2 b3 -> same_acks b1 b3.
Proof. unfold same_acks. intros (-> & -> & -> & ->). done. Qed.

Definition packed_one (b : Batch) (plan : list (Z * Z)) (block : Z) (b' : Batch) (more : bool) : Prop :=
  exists o l dg, 0 <= l <= block /\ bt_packed b' = bt_packed b + 1 /\ bt_staging b' = bt_staging b ++ dg /\
    blocks_inv (bt_blocks b') (plan ++ [(o, l)]) /\ carries (plan ++ [(o, l)]) (tb_sent_last (bt_blocks b')) dg /\ sends_seq dg (lenZ plan) /\
    lenZ dg = kDataPrefixSize + l + tag_room keys /\ tb_sent_last (bt_blocks b) = false /\
    (more = true -> l = block /\ tb_ri (bt_blocks b') < lenZ ranges).

Definition packed_none (b : Batch) (plan : list (Z * Z)) (b' : Batch) (more : bool) : Prop :=
  more = false /\ bt_packed b' = bt_packed b /\ bt_staging b' = bt_staging b /\ blocks_inv (bt_blocks b') plan /\
  tb_sent_last (bt_blocks b') = tb_sent_last (bt_blocks b).

(** The end of the cursor's range, as the code computes it. *)
Lemma pending_end t plan :
  blocks_inv t plan -> tb_ri t < lenZ ranges \/ need_empty_last ranges t = true ->
  exists rend, pending t plan rend /\ match nthZ ranges (tb_ri t) with Some r => range_end r | None => 0 end = rend.
Proof.
  intros I Hp. pose proof (bi_ri _ _ I) as Hri. pose proof (sd_data Hs). destruct (nthZ ranges (tb_ri t)) as [r |] eqn:Er.
  - exists (rr_offset r + rr_length r). split; [left; by exists r |]. apply nthZ_inv in Er as [_ Er].
    destruct (ordered_lookup _ _ _ _ _ (sd_ranges Hs) Er) as (? & ? & ?). unfold range_end. rewrite u64_small by (unfold is_u64; lia). done.
  - exists 0. split; [| done]. right. destruct Hp as [Hlt | Hne]; [destruct (nthZ_Some ranges (tb_ri t)) as [x Ex]; [lia |]; by rewrite Ex in Er |].
    unfold need_empty_last in Hne. destruct ranges; [| done]. split_and!; [done | | done]. apply Z.eqb_eq in Hne. rewrite (bi_seq _ _ I) in Hne. by destruct plan.
Qed.

Lemma pack_one_spec b plan block now wire :
  blocks_inv (bt_blocks b) plan -> keys_inv (bt_cipher b) -> 1 <= block <= mtu_ceil ->
  tb_ri (bt_blocks b) < lenZ ranges \/ need_empty_last ranges (bt_blocks b) = true ->
  tb_next_seq (bt_blocks b) < tb_base (bt_blocks b) + kWindow -> lenZ (bt_staging b) <= kGsoBudget ->
  exists b' more, pack_one lane keys data ranges clock_offset block (segment_size keys block) b now wire = Ok (b', more) /\
    keys_inv (bt_cipher b') /\ same_acks (bt_blocks b) (bt_blocks b') /\ (packed_none b plan b' more \/ packed_one b plan block b' more).
Proof.
  intros I K Hb Hp Hw Hst. destruct (segment_bounds block Hb) as [Eseg Hseg]. pose proof ceiling_tag as [Hc Htag]. change kMaxPayloadSize with 16384 in Hc.
  set (t := bt_blocks b) in *. pose proof (bi_ri _ _ I) as Hri. pose proof (sd_data Hs). destruct (plan_bounds _ _ I) as [_ Hcount].
  destruct (pending_end t plan I Hp) as (rend & Hpend & Erend).
  destruct (pending_bounds _ _ _ I Hpend) as (Ho & Hd & Hfin & Hne).
  unfold pack_one. fold t. rewrite Erend. rewrite (u64_small (rend - _)) by (unfold is_u64; lia).
  destruct (_ && _) eqn:Eshort.
  { exists b, false. split; [done |]. split; [done |]. split; [by split_and! |]. left. by split_and!. }
  rewrite (u16_small (Z.min _ _)) by (unfold is_u16; lia). set (len := Z.min block (rend - tb_next_offset t)).
  assert (0 <= len <= block) as Hlen by lia. rewrite (u64_small (tb_next_offset t + len)) by (unfold is_u64; lia).
  set (is_last := (lenZ ranges <=? tb_ri t + 1) && (rend <=? tb_next_offset t + len)). set (flags := if is_last then kFlagLastBlock else 0).
  destruct (store_block t plan len now flags I Hw ltac:(lia) ltac:(lia) ltac:(lia)) as (reg & sl & -> & W & Ews & P & R & Esl & Hsl & Hlk). cbn [res_bind].
  destruct (block_body_spec (bt_cipher b) (tb_next_seq t) (tb_next_offset t) flags (drop (Z.to_nat (tb_next_offset t)) data) len K) as (k & Kk & ->).
  set (pt := drop (Z.to_nat (tb_next_offset t)) data). destruct (body_spec (tb_next_seq t) (tb_next_offset t) flags pt len) as [[body plen] |] eqn:Ebody.
  2: { eexists _, _. split; [done |]. split; [done |]. split; [by split_and! |]. left. split; [done |]. split; [done |]. split; [done |]. split; [| done].
       apply (unsent_inv _ _ _ sl len I); try done; try lia; [by eexists |]. unfold unsealed. destruct Hsl as (-> & -> & -> & _ & ->).
       unfold body_spec in Ebody. destruct (ky_enabled keys); [| done]. split; [done |].
       change (take (Z.to_nat len) pt) with (slice data (tb_next_offset t) len) in Ebody. by destruct (sealed_body _ _ _ _). }
  pose proof (sent_inv t plan rend len reg sl is_last I Hpend Hw W Ews P R ltac:(lia) ltac:(intros Hx; specialize (Hne Hx); lia) ltac:(lia) eq_refl Esl Hsl Hlk) as I'.
  pose proof (advance_cursor t plan rend len reg is_last I Hpend ltac:(lia) ltac:(lia) eq_refl) as (C1 & _ & _ & C4).
  set (t' := advance ranges t reg len rend is_last) in *. assert (tb_sent_last t' = is_last) as Elast by (cbn; rewrite Hfin; apply orb_false_r).
  pose proof (bi_seq _ _ I) as Eseq. pose proof (bi_base _ _ I).
  destruct (block_carries (plan ++ [(tb_next_offset t, len)]) is_last (tb_next_seq t) (tb_next_offset t) flags pt len body plen (wire_time clock_offset wire))
    as (Eplen & Edg & Hcar & Hsq & Henc); [lia | unfold is_u64; lia | by unfold flags; destruct is_last | lia | subst pt; rewrite lenZ_drop; lia | apply u64_range | done | | done | |].
  { rewrite Eseq. unfold lenZ. rewrite Nat2Z.id. by rewrite lookup_app_r, Nat.sub_diag by lia. }
  { unfold final. rewrite lenZ_app, Eseq. change (lenZ [_]) with 1. unfold flags. destruct is_last; split; (done || by intros [? _]). }
  set (dg := data_wire _) in *. change kDataPrefixSize with 31 in *.
  rewrite Henc by (rewrite lenZ_replicate; change kMaxDatagramSize with 16415; lia).
  cbn [res_bind]. destruct (Z.eqb_spec (31 + plen) 0); [lia |]. eexists _, _. split; [done |]. split; [done |]. split; [by split_and! |].
  right. exists (tb_next_offset t), len, dg. cbn [bt_packed bt_staging bt_blocks bt_cipher]. rewrite Elast. change kDataPrefixSize with 31 in *.
  split; [done |]. split; [done |]. split; [by rewrite <- Edg, take_all_lenZ |]. split; [done |]. split; [done |].
  split; [by rewrite <- Eseq |]. split; [lia |]. split; [done |].
  intros [Hm1 Hm2]%andb_prop. apply Z.eqb_eq in Hm2. split; [lia |]. destruct (Z.eq_dec (tb_ri t') (lenZ ranges)) as [Ee | ?]; [| lia].
  apply C4 in Ee. by rewrite Ee in Hm1.
Qed.

(** The packing loop, from a batch of full datagrams. *)
Lemma pack_spec n block need clock b plan dgs :
  let seg := segment_size keys block in
  blocks_inv (bt_blocks b) plan -> keys_inv (bt_cipher b) -> 1 <= block <= mtu_ceil ->
  (need = true -> tb_ri (bt_blocks b) < lenZ ranges \/ need_empty_last ranges (bt_blocks b) = true) ->
  tb_next_seq (bt_blocks b) + Z.of_nat n <= tb_base (bt_blocks b) + kWindow -> (bt_packed b + Z.of_nat n) * seg <= kGsoBudget ->
  bt_staging b = mjoin dgs -> Forall (fun d => lenZ d = seg) dgs -> bt_packed b = lenZ dgs ->
  exists b' new sent, pack lane keys data ranges clock_offset n block seg need clock b = Ok b' /\
    keys_inv (bt_cipher b') /\ same_acks (bt_blocks b) (bt_blocks b') /\ blocks_inv (bt_blocks b') (plan ++ new) /\
    extends plan (tb_sent_last (bt_blocks b)) (plan ++ new) (tb_sent_last (bt_blocks b')) /\
    bt_staging b' = mjoin (dgs ++ sent) /\ framed seg (dgs ++ sent) /\ bt_packed b' = lenZ (dgs ++ sent) /\
    Forall (carries (plan ++ new) (tb_sent_last (bt_blocks b'))) sent /\
    (forall s, lenZ plan <= s < lenZ (plan ++ new) -> exists dg, dg ∈ sent /\ sends_seq dg s) /\
    0 <= sumZ snd new <= Z.of_nat n * block.
Proof.
  intros seg. revert b plan dgs. induction n as [| n IH]; intros b plan dgs I K Hb Hneed Hw Hroom Est Hall Epk.
  { exists b, [], []. rewrite !app_nil_r. split_and!; try done; [by left | by apply framed_all |]. intros s ?. lia. }
  destruct (segment_bounds block Hb) as [Eseg Hseg]. fold seg in Eseg, Hseg. cbn [pack].
  destruct (_ || need) eqn:Ec.
  2: { exists b, [], []. rewrite !app_nil_r. split_and!; try done; [by left | by apply framed_all | intros s ?; lia | unfold sumZ; cbn; lia]. }
  destruct (clock (bt_packed b)) as [now wire].
  assert (lenZ (bt_staging b) = bt_packed b * seg) as Elen.
  { rewrite Est, Epk. clear -Hall. induction Hall as [| d dgs Hd _ IH]; [done |]. change (mjoin (d :: dgs)) with (d ++ mjoin dgs).
    rewrite lenZ_app, IH, lenZ_cons. lia. }
  destruct (pack_one_spec b plan block now wire) as (b1 & more & E0 & K1 & S1 & H1); try done; try nia.
  { apply orb_prop in Ec as [Ec | Ec]; [left; lia | by apply Hneed]. }
  fold seg in E0. rewrite E0. cbn [res_bind]. destruct H1 as [(-> & E1 & E2 & I1 & E3) | (o & l & dg & Hl & E1 & E2 & I1 & C1 & Q1 & Edg & Efin & Hmore)].
  { exists b1, [], []. rewrite !app_nil_r, E1, E2, E3. split_and!; try done; [by left | by apply framed_all | intros s ?; lia | unfold sumZ; cbn; lia]. }
  assert (extends plan (tb_sent_last (bt_blocks b)) (plan ++ [(o, l)]) (tb_sent_last (bt_blocks b1))) as Hext by (right; split; [done | by eexists _, _]).
  assert (forall s, lenZ plan <= s < lenZ (plan ++ [(o, l)]) -> s = lenZ plan) as Hs1 by (intros s; rewrite lenZ_app; change (lenZ [_]) with 1; lia).
  destruct more.
  - destruct (Hmore eq_refl) as [-> Hri]. pose proof S1 as (Sb & Sa & Sr & St).
    pose proof (bi_seq _ _ I1) as Es1. pose proof (bi_seq _ _ I) as Es0. rewrite lenZ_app in Es1. change (lenZ [_]) with 1 in Es1.
    destruct (IH b1 (plan ++ [(o, block)]) (dgs ++ [dg])) as (b2 & new & sent & -> & K2 & S2 & I2 & X2 & F2 & F3 & F4 & F5 & F6 & F7); try done.
    + intros _. by left.
    + lia.
    + rewrite E1. lia.
    + rewrite E2, Est, join_app. cbn. by rewrite app_nil_r.
    + apply Forall_app. split; [done |]. constructor; [lia | done].
    + rewrite E1, Epk, lenZ_app. done.
    + rewrite <- !app_assoc in *. cbn [app] in *. exists b2, ((o, block) :: new), (dg :: sent). split; [done |]. split; [done |].
      split; [by eapply same_acks_trans |]. split; [done |]. split; [by eapply extends_trans |]. split_and!; try done.
      * constructor; [| done]. eapply carries_extends; [| exact C1]. done.
      * intros s Hsr. destruct (Z.eq_dec s (lenZ plan)) as [-> | n0]; [exists dg; split; [by left | done] |].
        destruct (F6 s) as (x & Hx & ?); [clear -Hsr n0; rewrite ?lenZ_app, ?lenZ_cons, ?lenZ_nil in *; lia |]. exists x. split; [by right | done].
      * unfold sumZ in *. cbn in *. lia.
      * unfold sumZ in *. cbn in *. lia.
  - exists b1, [(o, l)], [dg]. split_and!; try done.
    + rewrite E2, Est, join_app. cbn. by rewrite app_nil_r.
    + apply framed_snoc; [lia | done |]. change kDataPrefixSize with 31 in *. pose proof ceiling_tag. lia.
    + rewrite E1, Epk, lenZ_app. done.
    + by repeat constructor.
    + intros s ->%Hs1. exists dg. split; [by left | done].
    + unfold sumZ. cbn. lia.
    + unfold sumZ. cbn. nia.
Qed.

(** ** The invariant of the lane *)

(** The control messages a lane sends after its handshake; a digest that cannot be
    signed leaves as an empty datagram. *)
Definition control (dg : bytes) : Prop :=
  dg = [] \/ exists t, peek_msg_type dg = Ok (MsgType.code t) /\
    (t = MsgType.StreamClose \/ t = MsgType.PathChallenge \/ t = MsgType.PathResponse \/ t = MsgType.FileDigest).

Definition sent_ok (plan : list (Z * Z)) (fin : bool) (d : datagram) : Prop := carries plan fin (snd d) \/ control (snd d).

(** What has been sent since the handshake: blocks of the plan, each at least once,
    and control messages. *)
Definition out_inv (plan : list (Z * Z)) (fin : bool) (out : list datagram) : Prop :=
  Forall (sent_ok plan fin) out /\ forall s, 0 <= s < lenZ plan -> exists d, d ∈ out /\ sends_seq (snd d) s.

Record size_inv (z : TxSize) : Prop := {
  zi_block : first_block cfg keys <= tz_block z <= tz_growth_ceiling z;
  zi_ceiling : tz_growth_ceiling z <= mtu_ceil;
  zi_pre : tz_pre_growth_block z = 0 \/ first_block cfg keys <= tz_pre_growth_block z <= mtu_ceil;
}.

(** The datagrams sent before, what the lane checks signatures with, and what is
    known of the Acks it takes. *)
Context (sent0 : list datagram) (view0 : option (LaneCipher * Z * Z)) (genuine : Ack -> Prop).

(** The base has been confirmed by an Ack. *)
Definition base_acked (base : Z) : Prop := base = 0 \/ exists ack, genuine ack /\ base <= ack_base_seq_no ack.

Record tx_inv (w : TxWorld) (plan : list (Z * Z)) : Prop := {
  xi_blocks : blocks_inv (tw_blocks w) plan;
  xi_keys : keys_inv (tw_cipher w);
  xi_size : size_inv (tw_size w);
  xi_cc : cc_inv 1 (kMaxEcho - 1) (tw_cc w);
  xi_rwnd : is_u32 (tw_peer_rwnd w);
  xi_path : is_u64 (pv_challenge (tw_path w));
  xi_auth : auth_view (tw_auth w) = view0;
  xi_base : base_acked (tb_base (tw_blocks w));
  xi_sent : exists out, tw_sent w = sent0 ++ out /\ out_inv plan (tb_sent_last (tw_blocks w)) out;
  xi_told : forall st, tw_exit w = Some st -> lr_status (tw_result w) = st;
}.

Lemma inv_peer w plan dst path : tx_inv w plan -> is_u64 (pv_challenge path) -> tx_inv (tx_set_peer w dst path) plan.
Proof. intros [] ?. by split. Qed.

Lemma inv_timers w plan t cc : tx_inv w plan -> cc_inv 1 (kMaxEcho - 1) cc -> tx_inv (tx_set_timers w t cc) plan.
Proof. intros [] ?. by split. Qed.

Lemma inv_result w plan r : tx_inv w plan -> lr_status r = lr_status (tw_result w) -> tx_inv (tx_set_result w r) plan.
Proof. intros [] E. split; try done. cbn. by rewrite E. Qed.

Lemma inv_exit w plan r st stop : tx_inv w plan -> lr_status r = st -> tx_inv (tx_set_exit (tx_set_result w r) st stop) plan.
Proof. intros [] E. split; try done. cbn. by intros st' [= <-]. Qed.

Lemma inv_sent w plan auth new :
  tx_inv w plan -> auth_view auth = auth_view (tw_auth w) -> Forall (sent_ok plan (tb_sent_last (tw_blocks w))) new ->
  tx_inv (tx_add_sent w auth new) plan.
Proof.
  intros [? ? ? ? ? ? ? ? (out & E & H1 & H2)] Ha Hn. split; try done; [by etrans; [exact Ha |] |]. exists (out ++ new). cbn. rewrite E, app_assoc. split; [done |]. split.
  - by apply Forall_app.
  - intros s (d & Hd & Hq)%H2. exists d. split; [| done]. apply elem_of_app. by left.
Qed.

Lemma inv_blocks w plan k b :
  tx_inv w plan -> blocks_inv b plan -> keys_inv k -> tb_sent_last b = tb_sent_last (tw_blocks w) -> base_acked (tb_base b) ->
  tx_inv (tx_set_blocks w k b) plan.
Proof. intros [? ? ? ? ? ? ? ? (out & E & H)] Hb Hk Ef Hbase. split; try done. exists out. cbn. by rewrite Ef. Qed.

(** *** Control messages *)

Lemma typed_control plan fin t to (out : list datagram) :
  t = MsgType.StreamClose \/ t = MsgType.PathChallenge \/ t = MsgType.PathResponse \/ t = MsgType.FileDigest ->
  typed t to out -> Forall (sent_ok plan fin) out.
Proof. intros Ht H. eapply Forall_impl; [exact H |]. intros d [_ ?]. right. right. by exists t. Qed.

Lemma close_emits auth to reason plan fin :
  is_u8 reason -> returns (send_stream_close auth to lane nonce reason) (fun r => auth_view (fst r) = auth_view auth /\ Forall (sent_ok plan fin) (snd r)).
Proof.
  intros Hr. destruct (send_stream_close_typed auth to lane nonce reason (sd_lane Hs) (sd_nonce Hs) Hr) as (r & E & Hv & Ho).
  exists r. split; [done |]. split; [done |]. eapply typed_control, Ho. auto.
Qed.

Lemma probe_emits auth to type value plan fin :
  type = MsgType.PathChallenge \/ type = MsgType.PathResponse -> is_u64 value ->
  returns (send_path_probe auth to type lane nonce value) (fun r => auth_view (fst r) = auth_view auth /\ Forall (sent_ok plan fin) (snd r)).
Proof.
  intros Ht Hv. destruct (send_path_probe_typed auth to type lane nonce value Ht (sd_lane Hs) (sd_nonce Hs) Hv) as (r & E & Hvw & Ho).
  exists r. split; [done |]. split; [done |]. eapply typed_control, Ho. destruct Ht as [-> | ->]; auto.
Qed.

(** *** Batches *)

Lemma held_le reg s : wf_registry reg -> 0 <= held reg s <= resident reg.
Proof.
  intros W. unfold held. pose proof (resident_bounds reg W). destruct (lookup reg s) as [sl |] eqn:E; [| lia].
  destruct (resident_confirm reg s sl W E). pose proof (resident_bounds _ (confirm_wf reg s W)). lia.
Qed.

(** The bytes in flight are those of the blocks sent and not yet confirmed. *)
Lemma inflight_exact b plan : blocks_inv b plan -> inflight b = resident (tb_reg b) - held (tb_reg b) (tb_next_seq b) /\ 0 <= inflight b <= 2 ^ 24.
Proof.
  intros I. pose proof (held_le (tb_reg b) (tb_next_seq b) (bi_reg _ _ I)). pose proof (resident_bounds _ (bi_reg _ _ I)).
  pose proof (bi_acked _ _ I). unfold inflight. rewrite u64_small by (unfold is_u64; lia). lia.
Qed.

Lemma window_bytes_bounds w plan : tx_inv w plan -> 0 <= window_bytes cfg keys w <= 2 ^ 30.
Proof.
  intros I. pose proof first_block_bounds as Hf. pose proof ceiling_tag as [Hc Ht]. change kMaxPayloadSize with 16384 in Hc.
  destruct (xi_cc _ _ I) as [? ? ? _ _ _ _ _ _ _]. unfold window_bytes. set (r := if _ =? _ then _ else _).
  assert (0 <= r) by (subst r; destruct (_ =? _); [lia | apply u64_range]). rewrite u64_small by (unfold is_u64; nia). nia.
Qed.

(** Room for a batch, and that it does not overshoot the window by a block. *)
Lemma max_segments_spec w plan :
  tx_inv w plan -> inflight (tw_blocks w) < window_bytes cfg keys w ->
  let block := tz_block (tw_size w) in
  returns (max_segments cfg keys w) (fun n =>
    0 <= n /\ n * segment_size keys block <= kGsoBudget /\ tb_next_seq (tw_blocks w) + n <= tb_base (tw_blocks w) + kWindow /\
    inflight (tw_blocks w) + n * block <= window_bytes cfg keys w + block - 1).
Proof.
  intros I Hroom block. destruct (xi_size _ _ I) as [Hb Hg _]. pose proof first_block_bounds as Hf. pose proof (xi_blocks _ _ I) as J.
  destruct (inflight_exact _ _ J) as [_ Hi]. pose proof (window_bytes_bounds _ _ I) as Hw. pose proof (bi_base _ _ J). pose proof (bi_window _ _ J).
  assert (1 <= block <= mtu_ceil) as Hbl by (subst block; lia). destruct (segment_bounds block Hbl) as [_ Hseg].
  pose proof ceiling_tag as [Hc Ht]. change kMaxPayloadSize with 16384 in Hc. unfold max_segments. fold block. set (seg := segment_size keys block) in *.
  destruct (plan_bounds _ _ J) as [_ Hcnt]. pose proof (bi_seq _ _ J). pose proof (sd_data Hs).
  destruct (Z.eqb_spec block 0), (Z.eqb_spec seg 0); try lia. cbn [orb]. apply returns_ok. unfold kWindow, kMaxWindow in *.
  rewrite (u64_small (tb_next_seq _ - _)), (u64_small (1024 - _)) by (unfold is_u64; lia).
  rewrite (u64_small (window_bytes cfg keys w - _)), (u64_small (_ + block)), (u64_small (_ - 1)) by (unfold is_u64; lia).
  set (room := (_ - 1) / block). set (cap := if _ <? _ then _ else _). assert (16 <= cap) by (subst cap; destruct (_ <? _); unfold kMaxGsoSegments; lia).
  assert (0 <= room /\ room * block <= window_bytes cfg keys w - inflight (tw_blocks w) + block - 1) as [Hr1 Hr2].
  { subst room. split; [apply Z.div_pos; lia |]. rewrite Z.mul_comm. apply Z.mul_div_le. lia. }
  assert (0 <= kGsoBudget / seg /\ kGsoBudget / seg * seg <= kGsoBudget) as [Hg1 Hg2].
  { split; [apply Z.div_pos; unfold kGsoBudget; lia |]. rewrite Z.mul_comm. apply Z.mul_div_le. lia. }
  set (k := Z.min _ _). assert (0 <= k /\ k <= kGsoBudget / seg /\ k <= room /\ k <= 1024 - (tb_next_seq (tw_blocks w) - tb_base (tw_blocks w))) as (? & ? & ? & ?) by (subst k; lia).
  pose proof (Z.mul_le_mono_nonneg_r k (kGsoBudget / seg) seg). pose proof (Z.mul_le_mono_nonneg_r k room block). repeat split; lia.
Qed.

Lemma inv_extend w plan w' plan' sent :
  tx_inv w plan -> blocks_inv (tw_blocks w') plan' -> keys_inv (tw_cipher w') -> tw_size w' = tw_size w -> tw_cc w' = tw_cc w ->
  tw_auth w' = tw_auth w -> tb_base (tw_blocks w') = tb_base (tw_blocks w) ->
  tw_peer_rwnd w' = tw_peer_rwnd w -> tw_path w' = tw_path w -> (tw_result w', tw_exit w') = (tw_result w, tw_exit w) -> tw_sent w' = tw_sent w ++ sent ->
  extends plan (tb_sent_last (tw_blocks w)) plan' (tb_sent_last (tw_blocks w')) ->
  Forall (fun d => carries plan' (tb_sent_last (tw_blocks w')) (snd d)) sent ->
  (forall s, lenZ plan <= s < lenZ plan' -> exists d, d ∈ sent /\ sends_seq (snd d) s) -> tx_inv w' plan'.
Proof.
  intros [? ? ? ? ? ? ? ? (out & Eo & H1 & H2) Ht] Hb Hk Ez Ec Ea Eb Er Ep [= E1 E2] Es X C Q. split; rewrite ?Ez, ?Ec, ?Ea, ?Eb, ?Er, ?Ep, ?E1, ?E2; try done.
  exists (out ++ sent). rewrite Es, Eo, app_assoc. split; [done |]. split.
  - apply Forall_app. split; [| eapply Forall_impl; [exact C |]; intros d ?; by left]. eapply Forall_impl; [exact H1 |].
    intros d [Hd | Hd]; [left | by right]. by eapply carries_extends.
  - intros s Hr. destruct (Z.lt_ge_cases s (lenZ plan)) as [Hlt | Hge].
    + destruct (H2 s ltac:(lia)) as (d & Hd & ?). exists d. split; [apply elem_of_app; by left | done].
    + destruct (Q s ltac:(lia)) as (d & Hd & ?). exists d. split; [apply elem_of_app; by right | done].
Qed.

(** What a batch does, beyond the invariant: blocks are added at the end of the plan,
    and the bytes in flight stay within a block of the window. *)
Lemma send_batch_spec w plan i :
  tx_inv w plan ->
  returns (send_batch cfg lane keys data ranges clock_offset w i) (fun w' => exists plan',
    tx_inv w' plan' /\ extends plan (tb_sent_last (tw_blocks w)) plan' (tb_sent_last (tw_blocks w')) /\ tw_exit w' = tw_exit w /\
    tw_size w' = tw_size w /\ (tw_blocks w' = tw_blocks w \/ inflight (tw_blocks w') <= window_bytes cfg keys w + tz_block (tw_size w) - 1)).
Proof.
  intros I. unfold send_batch. destruct (may_send _ _ _ _ _) eqn:Em.
  2: { apply returns_ok. exists plan. split; [done |]. split; [by left |]. by split_and!; [| | left]. }
  unfold may_send in Em. bool_hyps. destruct (xi_size _ _ I) as [Hb Hg _]. pose proof first_block_bounds as Hf. pose proof (xi_blocks _ _ I) as J.
  set (block := tz_block (tw_size w)) in *. assert (1 <= block <= mtu_ceil) as Hbl by lia. pose proof (sd_data Hs).
  destruct (segment_bounds block Hbl) as [_ Hseg].
  eapply returns_bind; [by apply (max_segments_spec w plan) |]. fold block. cbv beta zeta. intros n (Hn & Hn1 & Hn2 & Hn3).
  destruct (pack_spec (Z.to_nat n) block (need_empty_last ranges (tw_blocks w)) (si_clock i) (mkBatch (tw_blocks w) (tw_cipher w) 0 []) plan [])
    as (b' & new & sent & -> & K' & Sm & I' & X & E1 & F & E2 & C & Q & Hsum); cbn [bt_blocks bt_cipher bt_packed bt_staging] in *; try done;
    [apply I | by right | lia | lia |]. cbn [res_bind].
  assert (inflight (bt_blocks b') <= window_bytes cfg keys w + block - 1) as Hfl.
  { destruct Sm as (_ & Ea & _). pose proof (bi_sent _ _ J) as S0. pose proof (bi_sent _ _ I') as S1. rewrite sumZ_app in S1.
    destruct (inflight_exact _ _ J) as [_ Hi]. unfold inflight in *. rewrite Ea, S1. rewrite S0 in *. destruct (plan_bounds _ _ I') as [Hp' _]. rewrite sumZ_app in Hp'.
    pose proof (bi_acked0 _ _ J). pose proof (held_le (tb_reg (tw_blocks w)) (tb_next_seq (tw_blocks w)) (bi_reg _ _ J)). pose proof (bi_acked _ _ J).
    destruct (plan_bounds _ _ J) as [Hp _]. rewrite u64_small in * by (unfold is_u64; lia). lia. }
  rewrite app_nil_l in *. destruct (Z.ltb_spec 0 (bt_packed b')) as [Hpk | Hpk]; apply returns_ok; exists (plan ++ new).
  - split; [| split; [done |]; split; [done |]; split; [done |]; right; exact Hfl].
    rewrite E1, emit_framed by (done || lia).
    apply (inv_extend w plan _ _ (pair (tw_dst w) <$> sent)); try done; [apply Sm | |].
    + apply Forall_fmap. done.
    + intros s (dg & Hd & ?)%Q. exists (tw_dst w, dg). split; [| done]. apply list_elem_of_fmap. by exists dg.
  - split; [| split; [done |]; split; [done |]; split; [done |]; right; exact Hfl]. assert (sent = []) as -> by (destruct sent; [done |]; rewrite lenZ_cons in E2; pose proof (lenZ_nonneg sent); lia).
    apply (inv_extend w plan _ _ []); try done; [apply Sm | by rewrite app_nil_r |]. intros s (dg & Hd & ?)%Q. by apply elem_of_nil in Hd.
Qed.

(** *** Retransmission *)

(** What a retransmission leaves alone. *)
Definition same_blocks (b b' : TxBlocks) : Prop := exists n, b' = mkTxBlocks (tb_reg b) (tb_base b) (tb_next_seq b) (tb_ri b) (tb_next_offset b)
  (tb_sent_bytes b) (tb_acked_bytes b) (tb_received_end b) (tb_sent_last b) n.

Lemma same_blocks_refl b : same_blocks b b.
Proof. exists (tb_retransmits b). by destruct b. Qed.

Lemma same_blocks_trans b1 b2 b3 : same_blocks b1 b2 -> same_blocks b2 b3 -> same_blocks b1 b3.
Proof. intros [n ->] [m ->]. by exists m. Qed.

Lemma same_blocks_inv b b' plan : same_blocks b b' -> blocks_inv b plan -> blocks_inv b' plan.
Proof. intros [n ->] []. by split. Qed.

Definition resent (w w' : TxWorld) (plan : list (Z * Z)) : Prop :=
  tx_inv w' plan /\ tw_exit w' = tw_exit w /\ same_blocks (tw_blocks w) (tw_blocks w') /\ tw_cc w' = tw_cc w /\ tw_size w' = tw_size w /\
  tw_timers w' = tw_timers w.

Lemma resent_refl w plan : tx_inv w plan -> resent w w plan.
Proof. intros I. split_and!; try done. apply same_blocks_refl. Qed.

Lemma resent_trans w1 w2 w3 plan : resent w1 w2 plan -> resent w2 w3 plan -> resent w1 w3 plan.
Proof.
  intros (_ & E1 & S1 & C1 & Z1 & T1) (I & E2 & S2 & C2 & Z2 & T2). split; [done |]. split; [congruence |]. split; [by eapply same_blocks_trans |].
  split_and!; congruence.
Qed.

Lemma resend_spec w plan seq o :
  tx_inv w plan -> returns (resend lane keys clock_offset w seq o) (fun r => resent w (fst r) plan).
Proof.
  intros I. destruct o as [t ok]. unfold resend. destruct (lookup (tb_reg (tw_blocks w)) seq) as [sl |] eqn:El; [| by apply returns_ok, resent_refl].
  pose proof (xi_blocks _ _ I) as J. destruct (bi_held _ _ J _ _ El) as (Hr & Ho & Hl & Hp & Hd & Ept & Hst).
  pose proof ceiling_tag as [Hc Htag]. change kMaxPayloadSize with 16384 in Hc, Hp. pose proof (sd_data Hs). destruct (plan_bounds _ _ J) as [_ Hcnt].
  pose proof (bi_seq _ _ J). pose proof (bi_base _ _ J). set (flags := Z.lor (sl_flags sl) kFlagRetransmission).
  destruct (block_body_spec (tw_cipher w) seq (sl_offset sl) flags (sl_payload sl) (sl_payload_len sl) (xi_keys _ _ I)) as (k & Kk & ->).
  set (w1 := tx_set_blocks w k (tw_blocks w)).
  assert (resent w w1 plan) as R1.
  { split; [by apply inv_blocks; try done; apply I |]. split_and!; try done. apply same_blocks_refl. }
  destruct (body_spec _ _ _ _ _) as [[body plen] |] eqn:Eb; [| by apply returns_ok].
  assert (seq < tb_next_seq (tw_blocks w) /\ slot_holds plan (tb_sent_last (tw_blocks w)) seq sl) as [Hlt [Epl Efl]].
  { destruct (Z.eqb_spec seq (tb_next_seq (tw_blocks w))) as [-> | ?]; [| split; [lia | done]]. exfalso. destruct Hst as [Hk Hn].
    unfold body_spec in Eb. rewrite Hk in Eb. subst flags. rewrite sealed_body_retransmission, Hn in Eb. done. }
  destruct (block_carries plan (tb_sent_last (tw_blocks w)) seq (sl_offset sl) flags (sl_payload sl) (sl_payload_len sl) body plen (wire_time clock_offset t))
    as (Eplen & Edg & Hcar & _ & Henc); try done; try lia; [unfold is_u64; lia | by unfold flags; rewrite Efl; destruct (_ && _) | apply u64_range | |].
  { unfold final, flags. rewrite Efl. destruct (tb_sent_last (tw_blocks w)); cbn [andb]; [| by split; [| intros [? _]]].
    destruct (Z.eqb_spec (seq + 1) (lenZ plan)); split; (done || by intros [_ ?]). }
  set (dg := data_wire _) in *. rewrite Henc by (rewrite lenZ_replicate; change kDataPrefixSize with 31; change kMaxDatagramSize with 16415; lia).
  cbn [res_bind]. destruct (_ || _); [by apply returns_ok |]. apply returns_ok. eapply resent_trans; [exact R1 |]. destruct R1 as [I1 _]. cbn [fst].
  rewrite <- Edg, take_all_lenZ. split; [| split_and!; try done; by eexists].
  apply inv_blocks; [| | done | done | apply I].
  - apply inv_sent; [done | done |]. constructor; [by left | done].
  - eapply same_blocks_inv; [by eexists |]. apply J.
Qed.

Lemma resend_each_spec seqs w plan i outs :
  tx_inv w plan -> returns (resend_each lane keys clock_offset w i seqs outs) (fun w' => resent w w' plan).
Proof.
  revert w i. induction seqs as [| s seqs IH]; intros w i I; cbn [resend_each]; [by apply returns_ok, resent_refl |].
  eapply returns_bind; [by apply resend_spec |]. intros [w1 b] R1. cbn [fst] in R1. destruct (IH w1 (i + 1)) as (w2 & -> & R2); [apply R1 |].
  apply returns_ok. by eapply resent_trans.
Qed.

(** *** Datagrams from the receiver *)

Definition took (w w' : TxWorld) (plan : list (Z * Z)) : Prop :=
  tx_inv w' plan /\ tw_size w' = tw_size w /\ tb_sent_last (tw_blocks w') = tb_sent_last (tw_blocks w) /\ (tw_exit w' = tw_exit w \/ tw_exit w' = Some PeerAborted).

Lemma took_refl w plan : tx_inv w plan -> took w w plan.
Proof. intros. split_and!; try done. by left. Qed.

Lemma resent_took w w' plan : resent w w' plan -> took w w' plan.
Proof. intros (I & E & [n S1] & _ & Z1 & _). split_and!; try done; [by rewrite S1 | by left]. Qed.

Lemma tx_probe_spec w plan src now rnd :
  tx_inv w plan -> is_u64 rnd -> returns (tx_probe lane nonce w src now rnd) (fun w' => tx_inv w' plan /\ tw_size w' = tw_size w /\ tw_blocks w' = tw_blocks w /\ tw_exit w' = tw_exit w).
Proof.
  intros I Hr. unfold tx_probe. destruct (want_probe (tw_path w) src now rnd) as [path c] eqn:E.
  assert (is_u64 (pv_challenge path) /\ forall v, c = Some v -> is_u64 v) as [Hp Hc].
  { pose proof (xi_path _ _ I). unfold want_probe in E. destruct (negb (pv_active _ && _)); cbn [pv_sent_ns pv_challenge pv_candidate pv_active negb andb Z.eqb] in E.
    - injection E as <- <-. cbn. split; [done |]. by intros v [= <-].
    - destruct (_ && _); injection E as <- <-; cbn; (split; [done |]); [done |]. by intros v [= <-]. }
  pose proof (inv_peer w plan (tw_dst w) path I Hp) as I1. destruct c as [v |]; [| by apply returns_ok].
  eapply returns_bind; [apply (probe_emits _ _ _ v plan (tb_sent_last (tw_blocks w))); [by left | by apply Hc] |]. intros [a out] [Hv Ho]. apply returns_ok.
  split; [| done]. by apply inv_sent.
Qed.

Lemma acked_base_bounds ack b n : b <= n -> b <= acked_base ack b n <= n.
Proof. unfold acked_base. lia. Qed.

Lemma apply_ack_inv b plan ack :
  blocks_inv b plan -> wf_msg ack ->
  exists reg re n, apply_ack (tb_reg b) ack (tb_base b) (tb_next_seq b) (Some (tb_received_end b)) = Ok (reg, acked_base ack (tb_base b) (tb_next_seq b), re, n) /\
    blocks_inv (tb_set_acked b reg (acked_base ack (tb_base b) (tb_next_seq b)) (u64 (tb_acked_bytes b + n)) (default (tb_received_end b) re)) plan.
Proof.
  intros I Ha. destruct (plan_bounds _ _ I) as [Hsum Hcnt]. pose proof (sd_data Hs). pose proof (bi_base _ _ I) as Hb. pose proof (bi_seq _ _ I) as Eseq.
  destruct (apply_ack_correct (tb_reg b) ack (tb_base b) (tb_next_seq b) (Some (tb_received_end b))) as (reg & re & n & E & W & Ews & Hn & Hyes & Hno & _);
    [apply I | done | lia | done |]. exists reg, re, n. split; [done |].
  pose proof (apply_ack_placed _ _ _ _ _ _ _ _ _ (bi_reg _ _ I) (bi_placed _ _ I) Hb ltac:(lia) Ha E) as P.
  pose proof (acked_base_bounds ack _ _ (proj2 Hb)) as Hnb. set (nb := acked_base ack (tb_base b) (tb_next_seq b)) in *.
  assert (forall q, q < tb_base b \/ tb_next_seq b <= q -> ~ acks ack (tb_base b) (tb_next_seq b) q) as Hout.
  { intros q Hq. unfold acks, selects. fold nb. lia. }
  assert (held reg (tb_next_seq b) = held (tb_reg b) (tb_next_seq b)) as Eh by (unfold held; rewrite Hno by (apply Hout; lia); done).
  pose proof (held_le (tb_reg b) (tb_next_seq b) (bi_reg _ _ I)). pose proof (held_le reg (tb_next_seq b) W). pose proof (bi_sent _ _ I). pose proof (bi_acked0 _ _ I).
  pose proof (bi_acked _ _ I). pose proof (resident_bounds _ (bi_reg _ _ I)).
  assert (0 <= n) as Hn0.
  { pose proof (apply_ack_folds (tb_reg b) ack (tb_base b) (tb_next_seq b) (Some (tb_received_end b)) Hb ltac:(lia) Ha) as F. cbv zeta in F. rewrite F in E.
    apply Ok_inj in E. injection E as E1 _ E2. destruct (foldl _ _ _) as [r m] eqn:Ef.
    apply take_fold in Ef as (_ & _ & Hm0 & _); [cbn in E2; lia | apply I | done | lia]. }
  assert (u64 (tb_acked_bytes b + n) = tb_acked_bytes b + n) as Eu by (apply u64_small; unfold is_u64; pose proof (resident_bounds _ W); lia).
  pose proof I as []. split; cbn [tb_set_acked tb_reg tb_base tb_next_seq tb_ri tb_next_offset tb_sent_bytes tb_acked_bytes tb_sent_last]; try done; try lia.
  - intros s sl El. destruct (decide (tb_base b <= s < nb \/ (nb <= s /\ selects ack (tb_next_seq b) s))) as [Hacks | Hacks].
    + rewrite Hyes in El; [done |]. exact Hacks.
    + rewrite Hno in El by exact Hacks. apply bi_held0 in El as [Hq1 Hq2]. split; [lia | done].
Qed.

Lemma take_ack_spec w plan ack wire :
  tx_inv w plan -> wf_msg ack -> genuine ack ->
  returns (take_ack clock_offset w ack wire) (fun w' => took w w' plan /\ tw_exit w' = tw_exit w /\
    tb_base (tw_blocks w') = acked_base ack (tb_base (tw_blocks w)) (tb_next_seq (tw_blocks w)) /\ tb_next_seq (tw_blocks w') = tb_next_seq (tw_blocks w)).
Proof.
  intros I Ha Hg. unfold take_ack. destruct (apply_ack_inv _ _ ack (xi_blocks _ _ I) Ha) as (reg & re & n & -> & J). cbn [res_bind].
  set (b := tb_set_acked _ _ _ _ _) in *.
  assert (base_acked (tb_base b)) as Hbase.
  { cbn. destruct (xi_base _ _ I) as [E | (a & Ga & Le)]; unfold acked_base.
    - destruct (Z.le_ge_cases (Z.min (ack_base_seq_no ack) (tb_next_seq (tw_blocks w))) (tb_base (tw_blocks w))); [left; lia | right; exists ack; split; [done | lia]].
    - destruct (Z.le_ge_cases (Z.min (ack_base_seq_no ack) (tb_next_seq (tw_blocks w))) (tb_base (tw_blocks w))); right; [exists a | exists ack]; (split; [done | lia]). }
  assert (tx_inv (tx_set_result (tx_set_rwnd (tx_set_blocks w (tw_cipher w) b) (ack_rwnd ack))
            (store_bytes (tw_result w) (u64 (tb_acked_bytes (tw_blocks w) + n)))) plan) as I1.
  { apply inv_result; [| done]. pose proof (inv_blocks w plan (tw_cipher w) b I J (xi_keys _ _ I) eq_refl Hbase) as []. split; try done. apply Ha. }
  destruct (_ && _); apply returns_ok; (split; [| by split_and!]); (split; [| by split_and!; [| | left]]); [| done].
  apply inv_timers; [done |]. apply on_rtt_sample_inv; [unfold kMaxEcho; lia | | apply I].
  unfold rtt_sample_from_echo. pose proof (u64_range (wire_time clock_offset wire - ack_echoed_send_time ack)) as Hr. unfold is_u64 in Hr.
  destruct (Z.ltb_spec (u64 (wire_time clock_offset wire - ack_echoed_send_time ack)) kMaxEcho); lia.
Qed.

(** A datagram the lane would take an Ack of its session from. *)
Definition vouched (dg : bytes) : Prop :=
  forall ack auth, auth_view auth = view0 -> ctl_authentic auth dg = Ok true -> decode_ack dg = Ok ack -> ack_nonce ack = nonce -> genuine ack.

Lemma tx_on_ack_spec w plan src dg now rnd wire :
  tx_inv w plan -> Forall is_u8 dg -> is_u64 rnd -> vouched dg -> ctl_authentic (tw_auth w) dg = Ok true -> returns (tx_on_ack lane nonce clock_offset w src dg now rnd wire) (fun w' => took w w' plan /\ tw_exit w' = tw_exit w).
Proof.
  intros I Hb Hr Hv Hau. unfold tx_on_ack. destruct (decode_ack dg) as [| | ack] eqn:Ed; cbn [try_decode].
  { by destruct (decode_no_fault (CodecLaws := ack_laws) dg Hb). }
  { by apply returns_ok; split; [apply took_refl |]. }
  destruct (decode_sound (CodecLaws := ack_laws) dg ack Hb Ed) as [Ha _].
  destruct (Z.eqb_spec (ack_nonce ack) nonce) as [Hn |]; cbn [negb]; [| by apply returns_ok; split; [apply took_refl |]].
  pose proof (Hv ack (tw_auth w) (xi_auth _ _ I) Hau Ed Hn) as Hg.
  apply (returns_bind _ _ (fun w1 => tx_inv w1 plan /\ tw_size w1 = tw_size w /\ tw_blocks w1 = tw_blocks w /\ tw_exit w1 = tw_exit w)).
  - apply returns_if; [by apply tx_probe_spec | by apply returns_ok].
  - intros w1 (I1 & E1 & E2 & E3). destruct (take_ack_spec w1 plan ack wire I1 Ha Hg) as (w2 & -> & (I2 & F1 & F2 & F3) & F4 & _). apply returns_ok.
    split; [| congruence]. split; [done |]. rewrite F1, F2, E1, E2. split_and!; try done. destruct F3 as [-> | ->]; [left | right]; congruence.
Qed.

Lemma tx_on_nack_spec w plan dg outs :
  tx_inv w plan -> Forall is_u8 dg -> returns (tx_on_nack lane keys clock_offset w dg outs) (fun r => took w (fst r) plan /\ tw_exit (fst r) = tw_exit w).
Proof.
  intros I Hb. unfold tx_on_nack. apply (returns_decode Nack _ dg); [done | done | | by apply returns_ok; split; [apply took_refl |]].
  intros nack _. assert (tx_inv (tx_set_timers w (tw_timers w) (on_loss (tw_cc w))) plan) as I1 by (apply inv_timers; [done |]; apply on_loss_inv, I).
  eapply returns_bind; [by apply resend_each_spec |]. intros w' R. apply returns_ok. cbn [fst]. destruct (resent_took _ _ _ R) as (I2 & E1 & E2 & E3).
  split; [| apply R]. by split_and!.
Qed.

Lemma tx_on_path_probe_spec w plan src dg type :
  tx_inv w plan -> Forall is_u8 dg -> type = MsgType.PathChallenge \/ type = MsgType.PathResponse ->
  returns (tx_on_path_probe lane nonce w src dg type) (fun w' => took w w' plan /\ tw_exit w' = tw_exit w).
Proof.
  intros I Hb Ht. unfold tx_on_path_probe.
  apply (returns_decode PathProbe (H := path_probe_codec type) (H0 := path_probe_laws type Ht) _ dg); [done | done | | by apply returns_ok; split; [apply took_refl |]].
  intros pp (_ & _ & Hpc). apply returns_if; [by apply returns_ok; split; [apply took_refl |] |]. apply returns_if.
  - eapply returns_bind; [apply (probe_emits _ _ _ _ plan (tb_sent_last (tw_blocks w))); [by right | done] |]. intros [a out] [Hv Ho]. apply returns_ok.
    split; [| done]. split; [by apply inv_sent | by split_and!; [| | left]].
  - destruct (validated (tw_path w) src (pp_challenge pp)) as [path ok] eqn:Ev. apply returns_ok. split; [| done]. split; [| by split_and!; [| | left]].
    apply inv_peer; [done |]. pose proof (xi_path _ _ I). unfold validated in Ev. destruct (_ || _); injection Ev as <- _; done.
Qed.

Lemma tx_leave_spec w plan st tell stop :
  tx_inv w plan -> returns (tx_leave lane nonce w st tell stop) (fun w' => tx_inv w' plan /\ tw_size w' = tw_size w /\ tw_blocks w' = tw_blocks w /\ tw_exit w' = Some st).
Proof.
  intros I. unfold tx_leave. apply (returns_bind _ _ (fun r => auth_view (fst r) = auth_view (tw_auth w) /\ Forall (sent_ok plan (tb_sent_last (tw_blocks w))) (snd r))).
  - apply returns_if; [by apply close_emits | by apply returns_ok].
  - intros [a out] [Hv Ho]. apply returns_ok. split; [| done]. apply inv_exit; [by apply inv_sent | done].
Qed.

Lemma tx_on_close_spec w plan dg :
  tx_inv w plan -> Forall is_u8 dg -> returns (tx_on_close lane nonce w dg) (fun w' => took w w' plan /\ tw_blocks w' = tw_blocks w).
Proof.
  intros I Hb. unfold tx_on_close. apply (returns_decode StreamClose _ dg); [done | done | | by apply returns_ok; split; [apply took_refl |]].
  intros sc _. apply returns_if; [| by apply returns_ok; split; [apply took_refl |]]. destruct (tx_leave_spec w plan PeerAborted false true I) as (w' & -> & I' & E1 & E2 & E3).
  apply returns_ok. split; [| done]. split; [done |]. rewrite E2. split_and!; try done. by right.
Qed.

Lemma tx_on_datagram_spec w plan src dg r :
  tx_inv w plan -> Forall is_u8 dg -> is_u64 (snd (fst (fst r))) -> vouched dg -> returns (tx_on_datagram lane keys nonce clock_offset w src dg r) (fun x => took w (fst x) plan).
Proof.
  intros I Hb Hr Hv. destruct r as [[[now rnd] wire] outs]. cbn [fst snd] in Hr. unfold tx_on_datagram.
  assert (forall m (P : TxWorld -> Prop), returns m P -> (forall w', P w' -> took w w' plan) -> returns (res_bind m (fun w => Ok (w, false))) (fun x => took w (fst x) plan)) as Quiet.
  { intros m P (w' & -> & Hw) H. apply returns_ok. by apply H. }
  apply (returns_try _ _ _ (fun _ => True)); [apply peek_total | done | | by apply returns_ok, took_refl].
  intros t _. destruct (ctl_authentic_total (tw_auth w) dg) as (auth & Ea & _). rewrite Ea. cbn [res_bind].
  destruct auth; cbn [negb]; [| by apply returns_ok, took_refl].
  apply returns_if; [eapply Quiet; [by apply tx_on_ack_spec |]; by intros ? [? _] |].
  apply returns_if; [destruct (tx_on_nack_spec w plan dg outs I Hb) as (x & -> & H & _); by apply returns_ok |].
  apply returns_if; [eapply Quiet; [apply (tx_on_path_probe_spec w plan); auto |]; by intros ? [? _] |].
  apply returns_if; [eapply Quiet; [apply (tx_on_path_probe_spec w plan); auto |]; by intros ? [? _] |].
  apply returns_if; [eapply Quiet; [by apply tx_on_close_spec |]; by intros ? [? _] | by apply returns_ok, took_refl].
Qed.

(** A datagram with the readings its handling may use. *)
Definition readable (x : PeerAddr * bytes * tx_reading) : Prop :=
  Forall is_u8 (snd (fst x)) /\ is_u64 (snd (fst (fst (snd x)))) /\ vouched (snd (fst x)).

Lemma took_trans w1 w2 w3 plan : took w1 w2 plan -> took w2 w3 plan -> took w1 w3 plan.
Proof.
  intros (_ & E1 & E2 & E3) (I & F1 & F2 & F3). split; [done |]. split; [congruence |]. split; [congruence |].
  destruct F3 as [-> | ->]; [done | by right].
Qed.

Lemma tx_drain_spec dgs w plan loss :
  tx_inv w plan -> Forall readable dgs -> returns (tx_drain lane keys nonce clock_offset w loss dgs) (fun x => took w (fst x) plan).
Proof.
  intros I H. revert w loss I. induction H as [| [[src dg] r] dgs (Hd & Hr & Hv) _ IH]; intros w loss I; cbn [tx_drain]; [by apply returns_ok, took_refl |].
  eapply returns_bind; [by apply (tx_on_datagram_spec w plan) |]. intros [w1 l1] T. cbn [fst] in T.
  destruct (tw_exit w1); [by apply returns_ok |]. destruct (IH w1 (loss || l1)) as (x & -> & T2); [apply T |]. apply returns_ok. by eapply took_trans.
Qed.

(** *** The timer *)

Lemma rto_holes_spec n w plan s holes sent outs :
  tx_inv w plan -> returns (rto_holes lane keys clock_offset n w s holes sent outs) (fun x => resent w (fst (fst (fst x))) plan).
Proof.
  revert w s holes sent. induction n as [| n IH]; intros w s holes sent I; cbn [rto_holes]; [by apply returns_ok, resent_refl |].
  apply returns_if; [by apply returns_ok, resent_refl |]. apply returns_if; [by apply returns_ok, resent_refl |].
  destruct (lookup _ s); [| by apply IH]. eapply returns_bind; [by apply (resend_spec w plan) |]. intros [w1 ok] R. cbn [fst] in R.
  destruct ok; [| by apply returns_ok]. destruct (IH w1 (u64 (s + 1)) (holes + 1) true) as (x & -> & R2); [apply R |]. apply returns_ok. by eapply resent_trans.
Qed.

Lemma on_timer_spec w plan t outs :
  tx_inv w plan -> returns (on_timer lane keys clock_offset w t outs) (fun w' => tx_inv w' plan /\ tw_exit w' = tw_exit w /\
    same_blocks (tw_blocks w) (tw_blocks w') /\ tw_size w' = tw_size w).
Proof.
  intros I. unfold on_timer. apply returns_if.
  { apply returns_ok. split; [| split_and!; try done; apply same_blocks_refl]. apply inv_timers; [done |]. apply set_backoff_inv; [done | apply I]. }
  apply returns_if; [| apply returns_ok; split_and!; try done; apply same_blocks_refl].
  eapply returns_bind; [by apply (rto_holes_spec _ w plan) |]. intros [[[w1 holes] sent] refused] (I1 & E1 & S1 & C1 & Z1 & T1). cbn [fst] in *.
  apply returns_if; [| apply returns_if]; apply returns_ok; (split; [| by split_and!]); [| | done]; apply inv_timers; try done; [apply I1 |].
  apply on_timeout_inv, I1.
Qed.

(** *** The block size *)

Lemma adapt_inv advanced loss z : size_inv z -> size_inv (adapt cfg keys mtu_ceil advanced loss z).
Proof.
  intros I. pose proof first_block_bounds as Hf. pose proof ceiling_tag as [Hc Ht]. change kMaxPayloadSize with 16384 in Hc.
  set (z1 := if advanced then count_clean mtu_ceil z else z).
  assert (size_inv z1) as I1.
  { subst z1. destruct advanced; [| done]. destruct I. unfold count_clean. repeat split_if; split; cbn; (lia || done). }
  unfold adapt. fold z1. destruct I1 as [H1 H2 H3]. destruct loss; [| destruct advanced; [| by split]].
  - split; cbn; [split; [lia |] | | by left]; split_if; lia.
  - split_if; [| by split]. split; cbn; [| done | right; lia]. rewrite u32_small by (unfold is_u32; lia). rewrite u16_small by (unfold is_u16; lia). lia.
Qed.

(** *** The loop *)

Definition inputs_ok (i : TxInputs) : Prop := Forall readable (ti_datagrams i).

Lemma tx_turn_spec w plan i :
  tx_inv w plan -> inputs_ok i ->
  returns (tx_turn cfg lane keys data ranges nonce clock_offset mtu_ceil w i) (fun x => exists plan',
    tx_inv (fst x) plan' /\ extends plan (tb_sent_last (tw_blocks w)) plan' (tb_sent_last (tw_blocks (fst x))) /\
    (snd x = true -> tb_sent_last (tw_blocks (fst x)) = true /\ tb_base (tw_blocks (fst x)) = lenZ plan') /\
    (tw_exit w <> Some StOk -> tw_exit (fst x) <> Some StOk)).
Proof.
  intros I Hi. unfold tx_turn.
  assert (forall w' p st tell stop, st <> StOk -> tx_inv w' p -> extends plan (tb_sent_last (tw_blocks w)) p (tb_sent_last (tw_blocks w')) ->
    returns (res_bind (tx_leave lane nonce w' st tell stop) (fun w => Ok (w, false))) (fun x => exists plan',
      tx_inv (fst x) plan' /\ extends plan (tb_sent_last (tw_blocks w)) plan' (tb_sent_last (tw_blocks (fst x))) /\
      (snd x = true -> tb_sent_last (tw_blocks (fst x)) = true /\ tb_base (tw_blocks (fst x)) = lenZ plan') /\
      (tw_exit w <> Some StOk -> tw_exit (fst x) <> Some StOk))) as Leave.
  { intros w' p st tell stop Hst I' X. destruct (tx_leave_spec w' p st tell stop I') as (w2 & -> & I2 & _ & E & Ex). apply returns_ok. exists p. cbn [fst snd].
    rewrite E, Ex. split; [done |]. split; [done |]. split; [done |]. congruence. }
  apply returns_if; [apply (Leave w plan); [done | done | by left] |]. apply returns_if; [apply (Leave w plan); [done | done | by left] |].
  assert (tx_inv (tx_set_timers w (tw_timers w) (poll (tw_cc w) (ti_poll_ns i))) plan) as I0.
  { apply inv_timers; [done |]. apply (cc_apply_inv 1 (kMaxEcho - 1) ltac:(unfold kMaxEcho; lia) _ (EvPoll (ti_poll_ns i))); [done | apply I]. }
  eapply returns_bind; [by apply (send_batch_spec _ plan) |]. intros w1 (p1 & I1 & X1 & Ex1 & Z1 & _).
  change (tb_sent_last (tw_blocks (tx_set_timers _ _ _))) with (tb_sent_last (tw_blocks w)) in X1.
  eapply returns_bind; [apply (tx_drain_spec _ w1 p1); [done | by apply Forall_take] |]. intros [w2 loss] (I2 & Z2 & F2 & Ex2). cbn [fst] in *.
  assert (tw_exit w <> Some StOk -> tw_exit w2 <> Some StOk) as Hok by (intros H0; destruct Ex2 as [-> | ->]; [by rewrite Ex1 | done]).
  assert (extends plan (tb_sent_last (tw_blocks w)) p1 (tb_sent_last (tw_blocks w2))) as X2 by by rewrite F2.
  destruct (tw_exit w2) eqn:Ew2; [apply returns_ok; exists p1; by rewrite <- Ew2 in Hok |].
  eapply returns_bind; [by apply (on_timer_spec w2 p1) |]. intros w3 (I3 & Ex3 & [n S3] & Z3).
  set (w4 := tx_set_result _ _). assert (tx_inv w4 p1) as I4.
  { apply inv_result; [| done]. destruct I3. split; try done. cbn. by apply adapt_inv. }
  assert (tb_sent_last (tw_blocks w4) = tb_sent_last (tw_blocks w2)) as E4 by (change (tw_blocks w4) with (tw_blocks w3); by rewrite S3).
  destruct (_ && _) eqn:Eleft.
  - apply returns_ok. exists p1. cbn [fst snd]. rewrite E4. split; [done |]. split; [done |]. split; [| change (tw_exit w4) with (tw_exit w3); by rewrite Ex3, Ew2]. intros _. apply andb_prop in Eleft as [El1 El2].
    rewrite E4 in El1. split; [done |]. pose proof (bi_base _ _ (xi_blocks _ _ I4)). pose proof (bi_seq _ _ (xi_blocks _ _ I4)). lia.
  - apply returns_if; [apply (Leave w4 p1); [done | done | by rewrite E4] |]. apply returns_ok. exists p1. cbn [fst snd]. rewrite E4.
    change (tw_exit w4) with (tw_exit w3). by rewrite Ex3, Ew2.
Qed.

(** *** The digest and the end *)

(** What the part after the loop keeps: the invariant and the blocks. *)
Definition ended (w w' : TxWorld) (plan : list (Z * Z)) : Prop := tx_inv w' plan /\ tw_blocks w' = tw_blocks w.

Lemma ended_trans w1 w2 w3 plan : ended w1 w2 plan -> ended w2 w3 plan -> ended w1 w3 plan.
Proof. intros [_ E1] [I E2]. split; [done | congruence]. Qed.

Definition exchange_ok (x : bool * bool * Z * list bytes) : Prop := Forall (Forall is_u8) (snd x).

Lemma digest_drain_spec digest dgs w plan :
  tx_inv w plan -> tw_exit w <> Some StOk -> Forall (Forall is_u8) dgs ->
  returns (digest_drain lane nonce digest w dgs) (fun x => ended w (fst x) plan /\ tw_exit (fst x) <> Some StOk).
Proof.
  intros I Hx H. revert w I Hx. induction H as [| dg dgs Hd _ IH]; intros w I Hx; cbn [digest_drain]; [by apply returns_ok |].
  apply (returns_bind _ _ (fun x => ended w (fst x) plan /\ tw_exit (fst x) <> Some StOk)).
  - unfold digest_on_datagram. apply (returns_try _ _ _ (fun _ => True)); [apply peek_total | done | | by apply returns_ok].
    intros t _. eapply returns_bind; [apply ctl_authentic_total |]. intros auth _. apply returns_if; [by apply returns_ok |].
    apply returns_if; [apply (returns_decode DigestMessage _ dg); [done | done | | by apply returns_ok]; intros echo _; by apply returns_ok |].
    apply returns_if; [| by apply returns_ok]. destruct (tx_on_close_spec w plan dg I Hd) as (w' & -> & (I' & _ & _ & Ex) & E). apply returns_ok.
    split; [done |]. cbn [fst]. by destruct Ex as [-> | ->].
  - intros [w1 echoed] [E1 Ex1]. cbn [fst] in *. destruct (tw_exit w1) eqn:Ew1; [apply returns_ok; split; [done |]; cbn [fst]; congruence |].
    destruct echoed; [apply returns_ok; split; [done |]; cbn [fst]; congruence |].
    destruct (IH w1) as (x & -> & E2 & Ex2); [apply E1 | congruence |]. apply returns_ok. split; [by eapply ended_trans | done].
Qed.

Lemma digest_loop_spec digest msg begin inputs next w plan :
  tx_inv w plan -> tw_exit w <> Some StOk -> control msg -> Forall exchange_ok inputs ->
  returns (digest_loop cfg lane nonce digest msg begin next w inputs) (fun x => ended w (fst x) plan /\ tw_exit (fst x) <> Some StOk).
Proof.
  intros I Hx Hc H. revert next w I Hx. induction H as [| [[[c s] t] dgs] inputs Hd _ IH]; intros next w I Hx; cbn [digest_loop]; [by apply returns_ok |].
  assert (forall st tell stop, st <> StOk -> returns (res_bind (tx_leave lane nonce w st tell stop) (fun w => Ok (w, false)))
    (fun x => ended w (fst x) plan /\ tw_exit (fst x) <> Some StOk)) as Leave.
  { intros st tell stop Hst. destruct (tx_leave_spec w plan st tell stop I) as (w2 & -> & I2 & _ & E & Ex). apply returns_ok. split; [done |]. cbn [fst]. congruence. }
  apply returns_if; [by apply Leave |]. apply returns_if; [by apply Leave |]. apply returns_if; [by apply Leave |].
  set (w1 := if next <=? t then _ else _). assert (ended w w1 plan /\ tw_exit w1 <> Some StOk) as [E1 Hx1].
  { subst w1. destruct (_ <=? _); [| done]. split; [| done]. split; [| done]. apply inv_sent; [done | done |]. constructor; [by right | done]. }
  destruct (digest_drain_spec digest dgs w1 plan) as ([w2 echoed] & -> & E2 & Hx2); [apply E1 | done | done |]. cbn [res_bind fst] in *.
  pose proof (ended_trans _ _ _ _ E1 E2) as E3.
  destruct (tw_exit w2) eqn:Ew2; [apply returns_ok; split; [done |]; cbn [fst]; congruence |].
  destruct echoed; [apply returns_ok; split; [done |]; cbn [fst]; congruence |].
  edestruct (IH (if next <=? t then u64 (t + 50000000) else next) w2) as (x & -> & E4 & Ex4); [apply E2 | congruence |].
  apply returns_ok. split; [by eapply ended_trans | done].
Qed.

Lemma exchange_digest_spec resumed digest begin w plan inputs :
  tx_inv w plan -> tw_exit w <> Some StOk -> lenZ digest = kDigestLen -> Forall exchange_ok inputs ->
  returns (exchange_digest cfg lane nonce resumed digest begin w inputs) (fun x => ended w (fst x) plan /\ tw_exit (fst x) <> Some StOk).
Proof.
  intros I Hx Hd Hin. unfold exchange_digest. destruct (resumed && (lane =? 0)); [| by apply returns_ok].
  set (m := mkDigestMessage lane nonce digest). assert (wf_msg m) as Hm by (split_and!; [apply Hs | apply Hs | done]).
  set (out := replicate _ 0). clearbody out. destruct (codec_encodes_safely DigestMessage m out Hm) as (buf0 & n0 & Ee & _).
  change (encode m out) with (encode_digest m out) in Ee. rewrite Ee. cbn [res_bind]. destruct (seal_ctl (tw_auth w) buf0 n0) as [[auth buf] n] eqn:Es.
  assert (control (take (Z.to_nat n) buf)) as Hc.
  { destruct (seal_encoded DigestMessage m (tw_auth w) out buf0 n0 auth buf n Hm Ee Es) as [-> | [tail ->]]; [by left |].
    right. exists MsgType.FileDigest. split; [by apply (wire_peeks m) | auto]. }
  destruct (digest_loop_spec digest (take (Z.to_nat n) buf) begin inputs 0 (tx_add_sent w auth []) plan) as (x & -> & E & Ex); try done.
  - apply inv_sent; [done | by eapply seal_ctl_view | constructor].
  - by apply returns_ok.
Qed.

Lemma tx_finish_spec session_bytes w plan :
  tx_inv w plan -> returns (tx_finish lane nonce session_bytes w) (fun w' => ended w w' plan /\ tw_exit w' = Some StOk /\
    lr_status (tw_result w') = StOk /\ lr_bytes (tw_result w') = session_bytes).
Proof.
  intros I. unfold tx_finish. eapply returns_bind; [by apply (close_emits _ _ _ plan (tb_sent_last (tw_blocks w))) |]. intros [a out] [Hv Ho]. apply returns_ok.
  split; [| done]. split; [| done]. apply inv_exit; [by apply inv_sent | done].
Qed.

Lemma tx_loop_spec session_bytes end_ns resumed digest begin exchange inputs w plan :
  tx_inv w plan -> tw_exit w = None -> lenZ digest = kDigestLen -> Forall exchange_ok exchange -> Forall inputs_ok inputs ->
  returns (tx_loop cfg lane keys data ranges nonce clock_offset mtu_ceil session_bytes end_ns resumed digest begin exchange w inputs) (fun w' =>
    exists plan', tx_inv w' plan' /\ (tw_exit w' = Some StOk -> tb_sent_last (tw_blocks w') = true /\ tb_base (tw_blocks w') = lenZ plan' /\
      lr_status (tw_result w') = StOk /\ lr_bytes (tw_result w') = session_bytes)).
Proof.
  intros I Hx Hd He H. revert w plan I Hx. induction H as [| i inputs Hi _ IH]; intros w plan I Hx; cbn [tx_loop].
  { apply returns_ok. exists plan. split; [done |]. congruence. }
  eapply returns_bind; [by apply (tx_turn_spec w plan) |]. intros [w1 left_loop] (p1 & I1 & _ & Hleft & Hok). cbn [fst snd] in *.
  assert (tw_exit w1 <> Some StOk) as Hx1 by (apply Hok; congruence).
  destruct (tw_exit w1) eqn:Ew1; [apply returns_ok; exists p1; split; [done |]; congruence |].
  destruct left_loop; [| by apply (IH w1 p1)]. destruct (Hleft eq_refl) as [L1 L2]. set (w2 := tx_set_result w1 _).
  assert (tx_inv w2 p1) as I2 by (by apply inv_result).
  destruct (exchange_digest_spec resumed digest begin w2 p1 exchange) as ([w3 go_on] & -> & [I3 E3] & Hx3); try done; [by change (tw_exit w2) with (tw_exit w1); rewrite Ew1 |].
  cbn [res_bind fst] in *. change (tw_blocks w2) with (tw_blocks w1) in E3.
  destruct (tw_exit w3) eqn:Ew3; [apply returns_ok; exists p1; split; [done |]; congruence |].
  destruct go_on; [| apply returns_ok; exists p1; split; [done |]; congruence].
  destruct (tx_finish_spec session_bytes w3 p1 I3) as (w4 & -> & [I4 E4] & _ & Hst). apply returns_ok. exists p1. split; [done |]. intros _. by rewrite E4, E3.
Qed.

(** *** Runs *)

Lemma new_registry_empty sid : resident (new_registry sid kWindow) = 0 /\ forall s, lookup (new_registry sid kWindow) s = None.
Proof.
  assert (forall i sl, nthZ (sr_slots (new_registry sid kWindow)) i = Some sl -> sl = default_slot) as H.
  { intros i sl [_ E]%nthZ_inv. by apply lookup_replicate in E as [-> _]. }
  split; [by vm_compute |]. intros s. unfold lookup. destruct (nthZ _ _) eqn:E; [| done]. apply H in E as ->. done.
Qed.

Lemma new_blocks_inv :
  blocks_inv (mkTxBlocks (new_registry lane kWindow) 0 0 0 (match ranges with [] => 0 | r :: _ => rr_offset r end) 0 0 0 false 0) [].
Proof.
  destruct (new_registry_empty lane) as [Hr Hl]. split; cbn [tb_reg tb_base tb_next_seq tb_ri tb_next_offset tb_sent_bytes tb_acked_bytes tb_sent_last].
  - apply new_registry_wf.
  - done.
  - apply new_registry_placed.
  - done.
  - done.
  - done.
  - pose proof (lenZ_nonneg ranges). lia.
  - destruct ranges as [| r rs] eqn:E; [done |]. change (nthZ (r :: rs) 0) with (Some r). pose proof (sd_nonempty Hs) as H. rewrite E in H. apply Forall_cons in H as [H _]. lia.
  - unfold todo. cbn [tb_ri tb_next_offset]. destruct ranges as [| r rs]; [done |]. change (nthZ (r :: rs) 0) with (Some r). cbn.
    by replace (rr_offset r + rr_length r - rr_offset r) with (rr_length r) by lia.
  - done.
  - intros _. done.
  - by split; [| intros [_ ?]].
  - intros s sl E. by rewrite Hl in E.
  - done.
  - rewrite Hr. unfold held. by rewrite Hl.
  - done.
Qed.

Lemma new_tx_inv dst cipher auth r stop mtu t_progress t_real t0 :
  keys_inv cipher -> auth_view auth = view0 -> mtu_ceil = mtu_ceiling cfg keys mtu dst ->
  returns (new_tx cfg lane keys ranges dst cipher auth r stop sent0 mtu t_progress t_real t0) (fun w => tx_inv w []).
Proof.
  intros K Ev Em. pose proof first_block_bounds as Hf. unfold new_tx, max_units. rewrite <- Em. destruct (Z.eqb_spec (first_block cfg keys) 0); [lia |].
  cbn [res_bind]. apply returns_ok. split; cbn [tw_blocks tw_cipher tw_size tw_cc tw_peer_rwnd tw_path tw_sent]; try done.
  - apply new_blocks_inv.
  - split; cbn; [lia | lia | by left].
  - apply enable_slow_start_inv, new_controller_inv; [unfold kMaxEcho; lia | apply u16_range | done | lia].
  - by left.
  - exists []. rewrite app_nil_r. split; [done |]. split; [done |]. intros s Hr. change (lenZ (@nil (Z * Z))) with 0 in Hr. lia.
Qed.

(** A turn of a lane that has not returned. *)
Inductive turn (w : TxWorld) : TxWorld -> Prop :=
| turn_taken i w' left_loop :
    tw_exit w = None -> inputs_ok i -> tx_turn cfg lane keys data ranges nonce clock_offset mtu_ceil w i = Ok (w', left_loop) -> turn w w'.

Lemma turns_inv w0 w plan0 : rtc turn w0 w -> tx_inv w0 plan0 -> exists plan, tx_inv w plan.
Proof.
  intros R. revert plan0. induction R as [w | w0 w1 w T R IH]; intros plan0 I; [by exists plan0 |]. destruct T as [i w1 l Hx Hi E].
  destruct (tx_turn_spec w0 plan0 i I Hi) as (x & E' & plan1 & I1 & _). rewrite E in E'. apply Ok_inj in E' as <-. by apply (IH plan1).
Qed.

(** When everything has been packed, the plan is the ranges. *)
Lemma plan_complete b plan : blocks_inv b plan -> plan_bytes plan `prefix_of` range_bytes ranges /\
  (tb_sent_last b = true <-> plan_bytes plan = range_bytes ranges /\ plan <> []).
Proof.
  intros I. pose proof (bi_todo _ _ I) as Ht. split; [by exists (todo b) |]. rewrite (bi_last _ _ I). pose proof (bi_ri _ _ I).
  assert (todo b = [] <-> tb_ri b = lenZ ranges) as Hn.
  { unfold todo. pose proof (bi_off _ _ I) as Ho. destruct (nthZ ranges (tb_ri b)) as [r |] eqn:Er.
    - apply nthZ_inv in Er as [Hr _]. split; [| lia]. rewrite seqZ_cons by lia. done.
    - split; [| done]. intros _. destruct (Z.eq_dec (tb_ri b) (lenZ ranges)); [done |]. destruct (nthZ_Some ranges (tb_ri b)) as [x Ex]; [lia |]. by rewrite Ex in Er. }
  rewrite <- Hn. split; intros [E Hne]; (split; [| done]).
  - by rewrite <- Ht, E, app_nil_r.
  - rewrite <- Ht in E. rewrite <- (app_nil_r (plan_bytes plan)) in E at 1. by apply app_inv_head in E.
Qed.

End Plan.

Lemma open_lane_keys `{B : CryptoBackend} lane keys resolved opened available dst cipher auth :
  open_lane lane keys resolved opened available = inr (dst, cipher, auth) -> keys_inv lane keys cipher.
Proof.
  unfold open_lane, keys_inv. destruct resolved; [| done]. destruct (negb opened); [done |]. intros E Hk. rewrite Hk in E.
  destruct available; [| by unfold schedule_init in E; cbn in E]. destruct (schedule_init_inv (ky_key keys) lane) as (k & Ek & I). rewrite Ek in E. cbn [negb] in E.
  destruct (control_init _ _ _ _) as [a ok]. destruct ok; [| done]. by injection E as _ <- _.
Qed.

Lemma mtu_ceiling_bounds `{B : CryptoBackend} cfg lane keys data ranges nonce mtu dst :
  sendable cfg lane data ranges nonce -> first_block cfg keys <= mtu_ceiling cfg keys mtu dst <= block_ceiling keys.
Proof.
  intros Hs. pose proof (first_block_bounds cfg lane keys data ranges nonce Hs) as Hf. pose proof (ceiling_tag keys) as [Hc Ht].
  change kMaxPayloadSize with 16384 in Hc. unfold mtu_ceiling. destruct (_ <? _); [| lia]. rewrite u16_small by (unfold is_u16; lia). lia.
Qed.

(** ** An example lane *)

(** A plaintext lane of five bytes in two ranges, with blocks of two bytes. *)
Module SendExample.

#[local] Existing Instance toy_backend.

Definition cfg : TransferConfig := mkTransferConfig 4433 1 2 [] 1000 1000 1 16.
Definition keys : Keys := mkKeys false [] [].
Definition data : bytes := [7; 8; 9; 10; 11].
Definition ranges : list ResumeRange := [mkResumeRange 0 3; mkResumeRange 4 1].

Definition ok_or {A} (r : res A) (a : A) : A := match r with Ok x => x | _ => a end.
Definition is_ok {A} (r : res A) : bool := match r with Ok _ => true | _ => false end.

Lemma ok_or_is {A} (r : res A) a : is_ok r = true -> r = Ok (ok_or r a).
Proof. by destruct r. Qed.

Lemma can_send : sendable cfg 0 data ranges 5.
Proof. split; vm_compute; try done. by repeat constructor. Qed.

Definition blank : TxWorld :=
  mkTxWorld peer_example new_path None new_key_schedule (mkTxBlocks (new_registry 0 1) 0 0 0 0 0 0 0 false 0) (mkTxSize 0 0 0 0 0 0 0)
    (mkTxTimers 0 0 0 0 0) (new_controller 1 false 0 0) 0 new_lane_result false [] None.
Definition start : res TxWorld := new_tx cfg 0 keys ranges peer_example new_key_schedule None new_lane_result false [] 1500 0 0 0.
Definition w0 : TxWorld := ok_or start blank.
Definition input (dgs : list (PeerAddr * bytes * tx_reading)) : TxInputs :=
  mkTxInputs false false 0 (mkSendIn 0 (fun _ => (0, 0)) 0 0 true) dgs 0 (fun _ => (0, true)).
Definition after (w : TxWorld) (i : TxInputs) : TxWorld := fst (ok_or (tx_turn cfg 0 keys data ranges 5 0 (mtu_ceiling cfg keys 1500 peer_example) w i) (w, false)).
Definition w1 : TxWorld := after w0 (input []).
Definition w2 : TxWorld := after w1 (input []).
Definition w3 : TxWorld := after w2 (input []).

Notation turn := (turn cfg 0 keys data ranges 5 0 (mtu_ceiling cfg keys 1500 peer_example) None (fun _ => True)).

Lemma after_turn w i :
  tw_exit w = None -> inputs_ok 5 None (fun _ => True) i -> is_ok (tx_turn cfg 0 keys data ranges 5 0 (mtu_ceiling cfg keys 1500 peer_example) w i) = true -> turn w (after w i).
Proof.
  intros Hx Hi E%(fun H => ok_or_is _ (w, false) H). unfold after. destruct (ok_or _ (w, false)) as [w' l]. by eapply turn_taken.
Qed.

Lemma turns : rtc turn w0 w3.
Proof.
  assert (inputs_ok 5 None (fun _ => True) (input [])) as Hi by constructor.
  assert (turn w0 w1) as T1 by (unfold w1; apply after_turn; [vm_compute; reflexivity | done | vm_compute; reflexivity]).
  assert (turn w1 w2) as T2 by (unfold w2; apply after_turn; [vm_compute; reflexivity | done | vm_compute; reflexivity]).
  assert (turn w2 w3) as T3 by (unfold w3; apply after_turn; [vm_compute; reflexivity | done | vm_compute; reflexivity]).
  exact (rtc_l _ _ _ _ T1 (rtc_l _ _ _ _ T2 (rtc_once _ _ T3))).
Qed.

Lemma opened : open_lane 0 keys (Some peer_example) true true = inr (peer_example, new_key_schedule, None).
Proof. reflexivity. Qed.

Lemma started : new_tx cfg 0 keys ranges peer_example new_key_schedule None new_lane_result false [] 1500 0 0 0 = Ok w0.
Proof. apply (ok_or_is start blank). vm_compute. reflexivity. Qed.

End SendExample.

(** ** Properties *)

Section Properties.
Context `{B : CryptoBackend} `{!CryptoLaws B} (cfg : TransferConfig) (lane : Z) (keys : Keys).
Context (data : bytes) (ranges : list ResumeRange) (nonce clock_offset : Z).

(** Any Ack at all. *)
Definition any_ack (ack : Ack) : Prop := True.

(** The states a lane reaches from a start with [sent0] already sent, when the Acks
    it takes are [genuine]. *)
Definition reaches (genuine : Ack -> Prop) (dst : PeerAddr) (mtu : Z) (sent0 : list datagram) (w : TxWorld) : Prop :=
  exists resolved opened available cipher auth r stop t_progress t_real t0 w0,
    open_lane lane keys resolved opened available = inr (dst, cipher, auth) /\
    new_tx cfg lane keys ranges dst cipher auth r stop sent0 mtu t_progress t_real t0 = Ok w0 /\
    rtc (turn cfg lane keys data ranges nonce clock_offset (mtu_ceiling cfg keys mtu dst) (auth_view auth) genuine) w0 w.

Lemma reaches_inv genuine dst mtu sent0 w :
  sendable cfg lane data ranges nonce -> reaches genuine dst mtu sent0 w ->
  exists view plan, tx_inv cfg lane keys data ranges (mtu_ceiling cfg keys mtu dst) sent0 view genuine w plan.
Proof.
  intros Hs (resolved & opened & available & cipher & auth & r & stop & tp & tr & t0 & w0 & E1 & E2 & R).
  pose proof (mtu_ceiling_bounds cfg lane keys data ranges nonce mtu dst Hs) as Hm.
  destruct (new_tx_inv cfg lane keys data ranges nonce Hs _ Hm sent0 (auth_view auth) genuine dst cipher auth r stop mtu tp tr t0) as (w0' & E2' & I0);
    [by eapply open_lane_keys | done | done |]. rewrite E2 in E2'. apply Ok_inj in E2' as <-. exists (auth_view auth). by eapply turns_inv.
Qed.

(** C8: What a lane sends.  At every point of a run, whatever datagrams arrive and
    whatever the clocks, the socket and the block-size adaptation do, there is a plan
    of blocks (offset and length by sequence number) such that every datagram sent
    since the handshake is a control message or a DATA datagram of this lane that
    the receiver opens to exactly the bytes of its block, with the last-block flag on
    the final block only; every block of the plan has been sent; the positions the
    blocks cover, in order, are a prefix of those of the session's ranges, without
    gap or overlap; and the final block is sent exactly when they are all of them. *)
Theorem sent_blocks_tile_session dst mtu sent0 w :
  sendable cfg lane data ranges nonce -> reaches any_ack dst mtu sent0 w ->
  exists plan out, tw_sent w = sent0 ++ out /\
    Forall (fun d => carries lane keys data plan (tb_sent_last (tw_blocks w)) (snd d) \/ control (snd d)) out /\
    (forall s, 0 <= s < lenZ plan -> exists d, d ∈ out /\ sends_seq (snd d) s) /\
    plan_bytes plan `prefix_of` range_bytes ranges /\
    (tb_sent_last (tw_blocks w) = true <-> plan_bytes plan = range_bytes ranges /\ plan <> []).
Proof.
  intros Hs R. destruct (reaches_inv _ _ _ _ _ Hs R) as (view & plan & I). destruct (xi_sent _ _ _ _ _ _ _ _ _ _ _ I) as (out & E & H1 & H2). exists plan, out.
  split; [done |]. split; [exact H1 |]. split; [exact H2 |]. eapply plan_complete. apply I.
Qed.

(** C18: The bytes in flight.  At every point of a run the counter is exactly the
    bytes of the blocks sent and not yet confirmed that the registry holds; a batch
    always returns, and leaves the counter at most a block short of reaching past the
    smaller of congestion and receive window, with no more than a window of blocks
    unconfirmed. *)
Theorem inflight_within_windows dst mtu sent0 w i :
  sendable cfg lane data ranges nonce -> reaches any_ack dst mtu sent0 w ->
  inflight (tw_blocks w) = resident (tb_reg (tw_blocks w)) - held (tb_reg (tw_blocks w)) (tb_next_seq (tw_blocks w)) /\
  exists w', send_batch cfg lane keys data ranges clock_offset w i = Ok w' /\
    (tw_blocks w' = tw_blocks w \/ inflight (tw_blocks w') <= window_bytes cfg keys w + tz_block (tw_size w) - 1) /\
    tb_next_seq (tw_blocks w') <= tb_base (tw_blocks w') + kWindow.
Proof.
  intros Hs R. destruct (reaches_inv _ _ _ _ _ Hs R) as (view & plan & I). pose proof (mtu_ceiling_bounds cfg lane keys data ranges nonce mtu dst Hs) as Hm.
  split; [by eapply inflight_exact; apply I |].
  destruct (send_batch_spec cfg lane keys data ranges nonce clock_offset Hs _ Hm _ _ _ w plan i I) as (w' & E & plan' & I' & _ & _ & _ & H).
  exists w'. split; [done |]. split; [exact H |]. apply (bi_window _ _ _ _ _ _ _ (xi_blocks _ _ _ _ _ _ _ _ _ _ _ I')).
Qed.


(** The sending loop always returns, and Ok means acknowledged.  Whatever
    arrives, from every state a lane starts its loop in, the turns, the digest
    exchange and the end of the lane return without touching memory outside their
    buffers; and a lane whose result is Ok has sent all its ranges and has had every
    block of them acknowledged. *)
Theorem send_loop_ok_means_acked dst mtu sent0 cipher auth r stop t_progress t_real t0 w0 session_bytes end_ns resumed digest begin exchange inputs :
  sendable cfg lane data ranges nonce -> keys_inv lane keys cipher ->
  new_tx cfg lane keys ranges dst cipher auth r stop sent0 mtu t_progress t_real t0 = Ok w0 ->
  lenZ digest = kDigestLen -> Forall exchange_ok exchange -> Forall (inputs_ok nonce (auth_view auth) any_ack) inputs ->
  exists w plan, tx_loop cfg lane keys data ranges nonce clock_offset (mtu_ceiling cfg keys mtu dst) session_bytes end_ns resumed digest begin exchange w0 inputs = Ok w /\
    tb_next_seq (tw_blocks w) = lenZ plan /\
    (tw_exit w = Some StOk -> plan_bytes plan = range_bytes ranges /\ tb_base (tw_blocks w) = lenZ plan).
Proof.
  intros Hs K E0 Hd He Hi. pose proof (mtu_ceiling_bounds cfg lane keys data ranges nonce mtu dst Hs) as Hm.
  destruct (new_tx_inv cfg lane keys data ranges nonce Hs _ Hm sent0 (auth_view auth) any_ack dst cipher auth r stop mtu t_progress t_real t0) as (w0' & E & I0); [done | done | done |].
  rewrite E0 in E. apply Ok_inj in E as <-.
  assert (tw_exit w0 = None) as Hx by (revert E0; unfold new_tx; destruct (max_units _ _ _); cbn [res_bind]; [done | done |]; by intros <-%Ok_inj).
  destruct (tx_loop_spec cfg lane keys data ranges nonce clock_offset Hs _ Hm sent0 (auth_view auth) any_ack session_bytes end_ns resumed digest begin exchange inputs w0 []) as (w & E & plan & I & H);
    try done. exists w, plan. split; [done |]. pose proof (xi_blocks _ _ _ _ _ _ _ _ _ _ _ I) as J. split; [apply J |].
  intros (H1 & H2 & _)%H. split; [| done]. by apply (proj2 (plan_complete _ _ _ _ _ _ _ J)).
Qed.

End Properties.

(** ** The properties on the example *)

Lemma example_reached :
  reaches (B := toy_backend) SendExample.cfg 0 SendExample.keys SendExample.data SendExample.ranges 5 0 any_ack peer_example 1500 [] SendExample.w3.
Proof.
  exists (Some peer_example), true, true, new_key_schedule, None, new_lane_result, false, 0, 0, 0, SendExample.w0.
  split; [apply SendExample.opened | split; [apply SendExample.started | apply SendExample.turns]].
Qed.

Lemma sent_blocks_tile_session_witness :
  exists plan out, tw_sent SendExample.w3 = [] ++ out /\
    Forall (fun d => carries (B := toy_backend) 0 SendExample.keys SendExample.data plan (tb_sent_last (tw_blocks SendExample.w3)) (snd d) \/ control (snd d)) out /\
    (forall s, 0 <= s < lenZ plan -> exists d, d ∈ out /\ sends_seq (snd d) s) /\
    plan_bytes plan `prefix_of` range_bytes SendExample.ranges /\
    (tb_sent_last (tw_blocks SendExample.w3) = true <-> plan_bytes plan = range_bytes SendExample.ranges /\ plan <> []).
Proof.
  apply (sent_blocks_tile_session (B := toy_backend) (CryptoLaws0 := toy_laws) SendExample.cfg 0 SendExample.keys SendExample.data SendExample.ranges 5 0 peer_example 1500 []);
    [apply SendExample.can_send | apply example_reached].
Defined.

Lemma inflight_within_windows_witness :
  inflight (tw_blocks SendExample.w3) =
    resident (tb_reg (tw_blocks SendExample.w3)) - held (tb_reg (tw_blocks SendExample.w3)) (tb_next_seq (tw_blocks SendExample.w3)) /\
  exists w', send_batch (B := toy_backend) SendExample.cfg 0 SendExample.keys SendExample.data SendExample.ranges 0 SendExample.w3 (mkSendIn 0 (fun _ => (0, 0)) 0 0 true) = Ok w' /\
    (tw_blocks w' = tw_blocks SendExample.w3 \/
     inflight (tw_blocks w') <= window_bytes SendExample.cfg SendExample.keys SendExample.w3 + tz_block (tw_size SendExample.w3) - 1) /\
    tb_next_seq (tw_blocks w') <= tb_base (tw_blocks w') + kWindow.
Proof.
  apply (inflight_within_windows (B := toy_backend) (CryptoLaws0 := toy_laws) SendExample.cfg 0 SendExample.keys SendExample.data SendExample.ranges 5 0 peer_example 1500 []);
    [apply SendExample.can_send | apply example_reached].
Defined.


Lemma send_loop_ok_means_acked_witness :
  exists w plan, tx_loop (B := toy_backend) SendExample.cfg 0 SendExample.keys SendExample.data SendExample.ranges 5 0 (mtu_ceiling SendExample.cfg SendExample.keys 1500 peer_example)
      4 0 false (replicate 32 0) 0 [] SendExample.w0 [SendExample.input []] = Ok w /\
    tb_next_seq (tw_blocks w) = lenZ plan /\
    (tw_exit w = Some StOk -> plan_bytes plan = range_bytes SendExample.ranges /\ tb_base (tw_blocks w) = lenZ plan).
Proof.
  apply (send_loop_ok_means_acked (B := toy_backend) (CryptoLaws0 := toy_laws) SendExample.cfg 0 SendExample.keys SendExample.data SendExample.ranges 5 0 peer_example 1500 []
    new_key_schedule None new_lane_result false 0 0 0);
    [apply SendExample.can_send | intros E; discriminate E | apply SendExample.started | reflexivity | constructor | repeat constructor].
Defined.
