(* ===== verification/SendStart.v ===== *)
(** * The start of a send lane

    The handshake of SendLane.v, for every sequence of clock readings, flags and
    datagrams: it returns, each of its exits has its cause among what the lane found,
    it only completes on authenticated messages of its own session, and every
    StreamStart it sends announces the same lane.  With SendPlan.v this gives the
    whole of [send_lane] of [src/src/proto/transfer.cpp]. *)

From S2P Require Import Prelude Wire Control Block Window Registry Congestion SessionCrypto Ranges Peer Returns Status Pipeline RecvLane SendLane SendPlan.

(** ** The answer *)

(** How many parts have arrived. *)
Definition b2z (b : bool) : Z := if b then 1 else 0.

(** The ranges of an answer that [P] part by part allows. *)
Record answer_inv (P : Z -> Z -> list ResumeRange -> Prop) (a : Answer) : Prop := {
  ai_parts : is_u16 (an_parts_expected a);
  ai_have : lenZ (an_have_part a) = an_parts_expected a;
  ai_answer : lenZ (an_answer a) = an_parts_expected a;
  ai_seen : an_parts_seen a = sumZ b2z (an_have_part a);
  ai_part : forall p, nthZ (an_have_part a) p = Some true -> exists rs, nthZ (an_answer a) p = Some rs /\ P (an_parts_expected a) p rs;
  ai_ranges : Forall (Forall is_range) (an_answer a);
}.

Lemma count_bounds l : 0 <= sumZ b2z l <= lenZ l.
Proof. induction l as [| b l IH]; unfold sumZ in *; cbn [foldr]; [done |]. rewrite lenZ_cons. destruct b; cbn [b2z]; lia. Qed.

Lemma count_set l p : nthZ l p = Some false -> sumZ b2z (setZ l p true) = sumZ b2z l + 1.
Proof.
  intros E. apply nthZ_inv in E as [Hp E]. unfold setZ. rewrite insert_take_drop by by eapply lookup_lt_Some.
  rewrite <- (take_drop_middle l (Z.to_nat p) false E) at 3. unfold sumZ. rewrite !foldr_app. cbn [foldr b2z].
  set (k := foldr _ 0 (drop _ l)). generalize (take (Z.to_nat p) l). intros l'. induction l' as [| b l' IH]; cbn [foldr]; lia.
Qed.

Lemma count_all l : sumZ b2z l = lenZ l -> forall p, 0 <= p < lenZ l -> nthZ l p = Some true.
Proof.
  intros E p Hp. destruct (nthZ_Some l p Hp) as [b Eb]. rewrite Eb. destruct b; [done |]. pose proof (count_set l p Eb) as H.
  pose proof (count_bounds (setZ l p true)) as Hb. rewrite lenZ_setZ in Hb. lia.
Qed.

(** A message of the receiver's answer: part [p] of [n], with its ranges. *)
Definition part_of (nonce : Z) (dg : bytes) (n p : Z) (rs : list ResumeRange) : Prop :=
  exists rr, decode_resume_ranges dg default_resume_ranges = Ok rr /\ rrs_nonce rr = nonce /\ rrs_parts rr = n /\ rrs_part rr = p /\
    rs = take (Z.to_nat (rrs_count rr)) (rrs_ranges rr).

Lemma no_answer_inv P : answer_inv P no_answer.
Proof. split; try done. intros p E. by apply nthZ_inv in E as [_ E]. Qed.

Lemma fresh_answer_inv P a n : is_u16 n -> an_parts_seen a = 0 ->
  answer_inv P (mkAnswer n (an_parts_seen a) (replicate (Z.to_nat n) []) (replicate (Z.to_nat n) false) (an_resumed a)).
Proof.
  intros Hn Hz. unfold is_u16 in Hn. split; cbn [an_parts_expected an_have_part an_answer an_parts_seen]; try done.
  - rewrite lenZ_replicate. lia.
  - rewrite lenZ_replicate. lia.
  - rewrite Hz. clear. induction (Z.to_nat n) as [| k IH]; [done |]. unfold sumZ in *. cbn. done.
  - intros p E. apply nthZ_inv in E as [_ E]. by apply lookup_replicate_1 in E as [? _].
  - by apply Forall_replicate.
Qed.

Lemma add_part_inv (P : Z -> Z -> list ResumeRange -> Prop) a p rs resumed :
  answer_inv P a -> nthZ (an_have_part a) p = Some false -> Forall is_range rs -> P (an_parts_expected a) p rs ->
  answer_inv P (mkAnswer (an_parts_expected a) (u16 (an_parts_seen a + 1)) (setZ (an_answer a) p rs) (setZ (an_have_part a) p true) resumed).
Proof.
  intros [Hp Hh Ha Hs Hpart Hr] E Hrs HP. pose proof E as E'. apply nthZ_inv in E' as [Hi _].
  pose proof (count_set _ _ E) as Hc. pose proof (count_bounds (setZ (an_have_part a) p true)) as Hb. rewrite lenZ_setZ in Hb.
  split; cbn [an_parts_expected an_have_part an_answer an_parts_seen]; rewrite ?lenZ_setZ; try done.
  - rewrite u16_small, Hc by (unfold is_u16 in *; lia). lia.
  - intros q Eq. assert (0 <= q < lenZ (an_have_part a)) by (apply nthZ_inv in Eq as [Hq _]; by rewrite lenZ_setZ in Hq).
    rewrite nthZ_setZ in Eq by lia. rewrite nthZ_setZ by lia. destruct (Z.eqb_spec p q) as [Epq |]; [subst q; by exists rs | by apply Hpart].
  - unfold setZ. by apply Forall_insert.
Qed.

Lemma on_resume_ranges_inv (P : Z -> Z -> list ResumeRange -> Prop) nonce a dg :
  answer_inv P a -> Forall is_u8 dg -> (forall n p rs, part_of nonce dg n p rs -> P n p rs) ->
  returns (on_resume_ranges nonce a dg) (answer_inv P).
Proof.
  intros I Hb HP. unfold on_resume_ranges. destruct (decode_resume_ranges dg default_resume_ranges) as [| | rr] eqn:E.
  { by destruct (decode_no_fault (CodecLaws := resume_ranges_laws) dg Hb). }
  { by apply returns_ok. }
  destruct (decode_sound (CodecLaws := resume_ranges_laws) dg rr Hb E) as [(_ & _ & _ & Hn & Hp & Hc & Hl & Hr & _) _].
  destruct (Z.eqb_spec (rrs_nonce rr) nonce) as [Hnonce |]; [| by apply returns_ok]. set (a' := if an_parts_expected a =? 0 then _ else a).
  assert (answer_inv P a') as I'.
  { unfold a'. destruct (Z.eqb_spec (an_parts_expected a) 0) as [Hz |]; [| done]. apply fresh_answer_inv; [done |]. rewrite (ai_seen _ _ I).
    pose proof (count_bounds (an_have_part a)) as Hcb. rewrite (ai_have _ _ I) in Hcb. lia. }
  clearbody a'. destruct (Z.eqb_spec (rrs_parts rr) (an_parts_expected a')) as [Hpe |]; [| by apply returns_ok].
  destruct (nthZ_Some (an_have_part a') (rrs_part rr)) as [b Eb]; [rewrite (ai_have _ _ I'); lia |]. rewrite Eb. destruct b; [by apply returns_ok |].
  apply returns_ok, add_part_inv; [done | done | by apply Forall_take |]. apply HP. exists rr. by rewrite <- Hpe.
Qed.

Lemma answer_complete_parts P a : answer_inv P a -> answer_complete a = true ->
  0 < an_parts_expected a /\ forall p, 0 <= p < an_parts_expected a -> exists rs, nthZ (an_answer a) p = Some rs /\ P (an_parts_expected a) p rs.
Proof.
  intros [Hp Hh Ha Hs Hpart Hr] E. unfold answer_complete in E. unfold is_u16 in Hp. split; [lia |]. intros p Hi. apply Hpart, count_all; lia.
Qed.

(** ** The handshake *)

(** Why a handshake ends: what one turn found for the status the lane left with. *)
Definition caused (cfg : TransferConfig) (hs_begin nonce : Z) (i : hs_input) (st : TransferStatus) : Prop :=
  let '(t, cancelled, sibling_stopped, received) := i in
  match st with
  | Cancelled => cancelled = true
  | PeerAborted => cancelled = false /\ sibling_stopped = true
  | Timeout => hs_limit_ns cfg < u64 (t - hs_begin)
  | VersionMismatch => exists dg v, received = Some dg /\ decode_version_mismatch dg = Ok v
  | StAuthFailed => exists dg sc, received = Some dg /\ decode_stream_close dg = Ok sc /\ sc_nonce sc = nonce /\ sc_reason sc = kStreamCloseAuthFailed
  | _ => False
  end.

(** The statuses that end the other lanes too. *)
Definition stops_siblings (st : TransferStatus) : bool :=
  match st with Cancelled | VersionMismatch | StAuthFailed => true | _ => false end.

Section Handshake.
Context `{B : CryptoBackend} (cfg : TransferConfig) (lane : Z) (dst : PeerAddr) (hs_begin : Z).
Context (ss0 : StreamStart) (auth0 : option ControlAuth) (inputs0 : list hs_input).
Context (Hlane : is_u16 lane) (Hss : wf_msg ss0).

(** A datagram of the inputs that passes the check of its signature. *)
Definition authentic_arrival (dg : bytes) : Prop :=
  (exists i, i ∈ inputs0 /\ snd i = Some dg) /\ ctl_authentic auth0 dg = Ok true.

(** What the handshake sends: the StreamStart with some token, or its close. *)
Definition starts (d : datagram) : Prop :=
  fst d = dst /\ exists tail,
    (exists token, is_u64 token /\ snd d = wire (set_token ss0 token) ++ tail) \/
    snd d = wire (mkStreamClose lane (ss_nonce ss0) kStreamCloseAborted) ++ tail.

Definition exit_ok (h : Hs) : Prop :=
  match hs_exit h with
  | None => hs_stop_all h = false
  | Some st => lr_status (hs_result h) = st /\ hs_stop_all h = stops_siblings st /\ exists i, i ∈ inputs0 /\ caused cfg hs_begin (ss_nonce ss0) i st
  end.

Record hs_inv (h : Hs) : Prop := {
  hv_start : exists token, is_u64 token /\ hs_start h = set_token ss0 token;
  hv_view : auth_view (hs_auth h) = auth_view auth0;
  hv_sent : Forall starts (hs_sent h);
  hv_acked : hs_acked h = true -> exists dg ack, authentic_arrival dg /\ decode_ack dg = Ok ack /\ ack_nonce ack = ss_nonce ss0;
  hv_answer : answer_inv (fun n p rs => exists dg, authentic_arrival dg /\ part_of (ss_nonce ss0) dg n p rs) (hs_answer h);
  hv_exit : exit_ok h;
}.

Lemma set_token_wf token : is_u64 token -> wf_msg (set_token ss0 token).
Proof. intros Ht. destruct Hss as (? & ? & ? & ? & ? & ? & ? & ? & ? & ? & H). by repeat (split; [done |]). Qed.

Lemma new_hs_inv : hs_inv (new_hs ss0 auth0).
Proof.
  split; cbn [new_hs hs_start hs_auth hs_sent hs_acked hs_answer]; try done.
  - exists (ss_token ss0). split; [apply Hss | by destruct ss0].
  - apply no_answer_inv.
Qed.

Lemma hs_nonce h : hs_inv h -> ss_nonce (hs_start h) = ss_nonce ss0.
Proof. intros [(token & _ & ->) _ _ _ _ _]. done. Qed.

(** An exit of a lane still in its handshake. *)
Lemma hs_end_inv h st i : hs_inv h -> hs_exit h = None -> i ∈ inputs0 -> caused cfg hs_begin (ss_nonce ss0) i st ->
  hs_inv (hs_end h st (stops_siblings st)).
Proof.
  intros [? ? ? ? ? He] Ex Hi Hc. split; try done. unfold exit_ok in *. rewrite Ex in He. cbn [hs_end hs_exit hs_result hs_stop_all]. split; [done |].
  split; [by rewrite He |]. by exists i.
Qed.

Lemma hs_sent_inv h auth out : hs_inv h -> auth_view auth = auth_view (hs_auth h) -> Forall starts out -> hs_inv (hs_sent_by h auth out).
Proof. intros [? Hv Hs ? ? ?] Ha Ho. split; try done; cbn [hs_sent_by hs_auth hs_sent]; [congruence | by apply Forall_app]. Qed.

Lemma hs_leave_inv h i (cancelled stopped : bool) :
  hs_inv h -> hs_exit h = None -> i ∈ inputs0 ->
  caused cfg hs_begin (ss_nonce ss0) i (if cancelled then Cancelled else if stopped then PeerAborted else Timeout) ->
  returns (hs_leave lane dst h cancelled stopped) hs_inv.
Proof.
  intros I Ex Hi Hc. unfold hs_leave, send_stream_close. rewrite (hs_nonce h I). set (m := mkStreamClose _ _ _).
  assert (wf_msg m) as Hm by (destruct Hss as (_ & _ & _ & _ & _ & Hn & _); by repeat (split; [done |])).
  assert (returns (send_ctl (hs_auth h) (encode_stream_close m) 64 dst) (fun r => auth_view (fst r) = auth_view (hs_auth h) /\
    Forall (fun d => fst d = dst /\ exists tail, snd d = wire m ++ tail) (snd r))) as ([a out] & -> & Hv & Ho) by (by apply (send_msg_emits StreamClose m)).
  cbn [fst snd res_bind] in *. apply returns_ok.
  assert (Forall starts out) as Hst.
  { eapply Forall_impl; [exact Ho |]. intros d [E [tail Et]]. split; [done |]. exists tail. by right. }
  replace cancelled with (stops_siblings (if cancelled then Cancelled else if stopped then PeerAborted else Timeout)) at 2 by (by destruct cancelled, stopped).
  eapply hs_end_inv; [| done | done | done]. apply hs_sent_inv; [done | done |]. by repeat (apply Forall_app; split).
Qed.

Lemma hs_send_inv h t : hs_inv h -> hs_exit h = None -> returns (hs_send dst h t) (fun h' => hs_inv h' /\ hs_exit h' = None).
Proof.
  intros I Ex. unfold hs_send. destruct (hv_start h I) as (token & Ht & Es).
  assert (returns (send_ctl (hs_auth h) (encode_stream_start (hs_start h)) kTxCap dst) (fun r => auth_view (fst r) = auth_view (hs_auth h) /\
    Forall (fun d => fst d = dst /\ exists tail, snd d = wire (hs_start h) ++ tail) (snd r))) as ([a out] & -> & Hv & Ho).
  { apply (send_msg_emits StreamStart (hs_start h)); [done |]. rewrite Es. by apply set_token_wf. }
  cbn [fst snd res_bind] in *. apply returns_ok.
  assert (hs_inv (hs_sent_by h a out)) as [] by (apply hs_sent_inv; [done | done |]; eapply Forall_impl; [exact Ho |];
    intros d [E [tail Et]]; split; [done |]; exists tail; left; exists token; by rewrite <- Es).
  split; [by split | done].
Qed.

Lemma mismatch_total dg : decode_version_mismatch dg <> Fault.
Proof.
  unfold decode_version_mismatch. change kVersionMismatchSize with 3. destruct (Z.ltb_spec (lenZ dg) 3); [done |].
  destruct (nthZ_Some dg 0 ltac:(lia)) as [v ->], (nthZ_Some dg 1 ltac:(lia)) as [t ->], (nthZ_Some dg 2 ltac:(lia)) as [v' ->]. by destruct (_ || _).
Qed.

Lemma hs_receive_inv h t cancelled stopped dg :
  hs_inv h -> hs_exit h = None -> (t, cancelled, stopped, Some dg) ∈ inputs0 -> Forall is_u8 dg -> returns (hs_receive h dg) hs_inv.
Proof.
  intros I Ex Hi Hb. pose proof (hs_nonce h I) as En. unfold hs_receive.
  apply (returns_try _ _ _ (fun v => decode_version_mismatch dg = Ok v)); [apply mismatch_total | done | |].
  { intros v Ev. apply returns_ok, (hs_end_inv h VersionMismatch _ I Ex Hi). by exists dg, v. }
  apply (returns_try _ _ _ (fun _ => True)); [apply peek_total | done | | by apply returns_ok]. intros type _.
  eapply (returns_bind _ _ (fun ok => ctl_authentic auth0 dg = Ok ok)).
  { destruct (ctl_authentic_total (hs_auth h) dg) as (ok & E & _). exists ok. split; [done |]. rewrite <- E. apply ctl_authentic_view. by rewrite (hv_view h I). }
  intros ok Hok. assert (ok = true -> authentic_arrival dg) as Hau by (intros ->; split; [by eexists _ |]; done).
  apply returns_if; [| apply returns_if; [| destruct ((type =? MsgType.code MsgType.Ack) && ok) eqn:Ea;
    [| destruct ((type =? MsgType.code MsgType.ResumeRanges) && ok) eqn:Er; [| by apply returns_ok]]]].
  - unfold hs_on_close. apply (returns_try _ _ _ (fun sc => decode_stream_close dg = Ok sc));
      [by apply (decode_no_fault (CodecLaws := stream_close_laws) dg) | done | | by apply returns_ok].
    intros sc Ed. destruct (_ && _) eqn:Ec; [| by apply returns_ok]. apply returns_ok, (hs_end_inv h StAuthFailed _ I Ex Hi). exists dg, sc. rewrite En in Ec.
    split; [done |]. split; [done |]. lia.
  - unfold hs_on_retry. apply (returns_decode Retry _ dg); [done | done | | by apply returns_ok].
    intros r (_ & _ & Ht). apply returns_if; apply returns_ok; [| done]. destruct I as [(token & Htk & Es) ? ? ? ? ?]. split; try done.
    exists (rt_token r). split; [done |]. cbn [hs_set_start hs_start]. by rewrite Es.
  - apply andb_prop in Ea as [_ Ea]. unfold hs_on_ack. apply (returns_try _ _ _ (fun ack => decode_ack dg = Ok ack));
      [by apply (decode_no_fault (CodecLaws := ack_laws) dg) | done | | by apply returns_ok].
    intros ack Ed. destruct (Z.eqb_spec (ack_nonce ack) (ss_nonce (hs_start h))) as [Ek |]; apply returns_ok; [| done].
    rewrite En in Ek. destruct I as [? ? ? ? ? ?]. split; try done. intros _. exists dg, ack. split; [by apply Hau | done].
  - apply andb_prop in Er as [_ Er]. eapply returns_bind; [apply (on_resume_ranges_inv _ _ _ _ (hv_answer h I) Hb) |].
    + intros n p rs Hp. exists dg. rewrite En in Hp. split; [by apply Hau | done].
    + intros a Ha. apply returns_ok. destruct I. by split.
Qed.

Lemma hs_turn_inv h i : hs_inv h -> hs_exit h = None -> i ∈ inputs0 -> (forall dg, snd i = Some dg -> Forall is_u8 dg) ->
  returns (hs_turn cfg lane dst hs_begin h i) hs_inv.
Proof.
  destruct i as [[[t cancelled] stopped] received]. cbn [snd]. intros I Ex Hi Hb. unfold hs_turn. destruct (_ || _) eqn:El.
  - apply (hs_leave_inv h _ cancelled stopped I Ex Hi). destruct cancelled; [done |]. destruct stopped; [done |]. cbn in El |- *. lia.
  - eapply (returns_bind _ _ (fun h' => hs_inv h' /\ hs_exit h' = None)); [apply returns_if; [by apply hs_send_inv | by apply returns_ok] |].
    intros h' [I' Ex']. destruct received as [dg |]; [| by apply returns_ok]. eapply hs_receive_inv; [done | done | exact Hi | by apply Hb].
Qed.

Lemma handshake_inv h inputs :
  hs_inv h -> hs_exit h = None -> Forall (fun i => i ∈ inputs0 /\ forall dg, snd i = Some dg -> Forall is_u8 dg) inputs ->
  returns (handshake cfg lane dst hs_begin h inputs) hs_inv.
Proof.
  intros I Ex H. revert h I Ex. induction H as [| i inputs [Hi Hb] _ IH]; intros h I Ex; cbn [handshake]; [by apply returns_ok |].
  destruct (hs_started h); [by apply returns_ok |]. eapply returns_bind; [by apply (hs_turn_inv h i) |]. intros h' I'.
  destruct (hs_exit h') eqn:E; [by apply returns_ok | by apply IH].
Qed.

End Handshake.

(** ** The whole lane *)

Section Lane.
Context `{B : CryptoBackend} `{!CryptoLaws B} (cfg : TransferConfig) (lane : Z) (keys : Keys).
Context (data : bytes) (lane_base file_total file_id : Z).

(** What a caller of [send_lane] passes. *)
Record lane_args : Prop := {
  la_lane : is_u16 lane;
  la_block : 1 <= cf_block_size cfg < 2 ^ 16;
  la_data : lenZ data < 2 ^ 63;
  la_base : is_u64 lane_base;
  la_total : is_u64 file_total;
  la_id : is_u64 file_id;
  la_salt : ky_enabled keys = true -> lenZ (ky_salt keys) = 16;
}.

(** What the lane finds outside, when the Acks of its session that it finds authentic
    are [genuine]. *)
Record env_ok (genuine : Ack -> Prop) (env : SendEnv) : Prop := {
  eo_nonce : is_u64 (se_nonce env);
  eo_hs : Forall (fun i => forall dg, snd i = Some dg -> Forall is_u8 dg) (se_hs_inputs env);
  eo_turns : forall dst cipher auth, open_lane lane keys (se_resolved env) (se_opened env) (se_available env) = inr (dst, cipher, auth) ->
    Forall (inputs_ok (se_nonce env) (auth_view auth) genuine) (se_turns env);
  eo_digest : lenZ (se_digest env) = kDigestLen;
  eo_exchange : Forall exchange_ok (se_exchange env);
}.

Definition start_msg (env : SendEnv) : StreamStart := lane_start cfg lane keys (lenZ data) lane_base file_total file_id (se_nonce env).

Lemma lane_start_wf genuine env : lane_args -> env_ok genuine env -> wf_msg (start_msg env).
Proof.
  intros [] []. unfold start_msg, lane_start. pose proof (lenZ_nonneg data).
  repeat (split; [done || (unfold is_u16, is_u64 in *; cbn; lia) || (cbn; destruct (ky_enabled keys); [by apply la_salt0 | done]) |]). split; [| done]. exists []. split; [done | constructor].
Qed.

(** What an Ok lane has behind it: the session's ranges of the data, its plan of blocks,
    what it has sent, and the Ack that covers the plan. *)
Record completed (genuine : Ack -> Prop) (env : SendEnv) (s : Sent) (ranges : list ResumeRange) (plan : list (Z * Z)) : Prop := {
  cm_sendable : sendable cfg lane data ranges (se_nonce env);
  cm_status : lr_status (sn_result s) = StOk /\ lr_bytes (sn_result s) = sumZ rr_length ranges;
  cm_sent : exists dst sent0 out, sn_sent s = sent0 ++ out /\ Forall (starts lane dst (start_msg env)) sent0 /\ Forall (sent_ok lane keys data plan true) out;
  cm_plan : plan_bytes plan = range_bytes ranges /\ plan <> [];
  cm_blocks : Forall (fun p => 0 <= fst p /\ 0 <= snd p /\ fst p + snd p <= lenZ data) plan;
  cm_count : lenZ plan <= lenZ data + 1;
  cm_answer : exists dst cipher auth h,
    open_lane lane keys (se_resolved env) (se_opened env) (se_available env) = inr (dst, cipher, auth) /\
    handshake cfg lane dst (se_hs_begin env) (new_hs (start_msg env) auth) (se_hs_inputs env) = Ok h /\
    ranges = fst (plan_session (lenZ data) (an_answer (hs_answer h)));
  cm_acked : exists ack, genuine ack /\ lenZ plan <= ack_base_seq_no ack;
}.

Lemma open_lane_not_ok resolved opened available st : open_lane lane keys resolved opened available = inl st -> st <> StOk.
Proof.
  unfold open_lane. destruct resolved; [| by intros [= <-]]. destruct (negb opened); [by intros [= <-] |].
  destruct (if ky_enabled keys then _ else _) as [cipher ok]. destruct (negb ok); [by intros [= <-] |]. destruct (ky_enabled keys); [| done].
  destruct (control_init _ _ _ _) as [auth ok']. destruct (negb ok'); [by intros [= <-] | done].
Qed.

(** After the handshake. *)
Lemma send_session_spec genuine env dst cipher auth h :
  lane_args -> env_ok genuine env -> open_lane lane keys (se_resolved env) (se_opened env) (se_available env) = inr (dst, cipher, auth) ->
  handshake cfg lane dst (se_hs_begin env) (new_hs (start_msg env) auth) (se_hs_inputs env) = Ok h ->
  hs_inv cfg lane dst (se_hs_begin env) (start_msg env) auth (se_hs_inputs env) h ->
  returns (send_session cfg lane keys data dst cipher h env) (fun w =>
    (forall st, tw_exit w = Some st -> lr_status (tw_result w) = st) /\
    (tw_exit w = Some StOk -> exists ranges plan, completed genuine env (mkSent (tw_result w) (tw_stop_all w) (tw_sent w) (tw_exit w)) ranges plan)).
Proof.
  intros A V Eo Eh I. pose proof V as [Hn _ Ht Hd Hx]. pose proof (lenZ_nonneg data) as Hnn.
  pose proof (plan_session_sound (lenZ data) (an_answer (hs_answer h)) ltac:(split; [done | apply A]) (ai_ranges _ _ (hv_answer _ _ _ _ _ _ _ _ I))) as Hplan.
  unfold send_session. destruct (plan_session _ _) as [ranges session_bytes] eqn:Ep. destruct Hplan as (Hord & Hpos & Hsb).
  assert (sendable cfg lane data ranges (se_nonce env)) as Hs by (split; try done; apply A).
  pose proof (mtu_ceiling_bounds cfg lane keys data ranges (se_nonce env) (se_mtu env) dst Hs) as Hm.
  edestruct (new_tx_inv cfg lane keys data ranges (se_nonce env) Hs _ Hm (hs_sent h) (auth_view auth) genuine dst cipher (hs_auth h)) as (w0 & E0 & I0);
    [by eapply open_lane_keys | apply I | done |]. rewrite E0. cbn [res_bind].
  assert (tw_exit w0 = None) as Hx0 by (revert E0; unfold new_tx; destruct (max_units _ _ _); cbn [res_bind]; [done | done |]; by intros <-%Ok_inj).
  edestruct (tx_loop_spec cfg lane keys data ranges (se_nonce env) (se_clock_offset env) Hs _ Hm (hs_sent h) (auth_view auth) genuine) as (w & E & plan & J & H);
    [exact I0 | done | exact Hd | exact Hx | by eapply Ht |]. rewrite E. apply returns_ok. split; [apply J |]. intros (H1 & H2 & H3 & H4)%H. exists ranges, plan.
  pose proof (xi_blocks _ _ _ _ _ _ _ _ _ _ _ J) as Jb. destruct (plan_complete _ _ _ _ _ _ _ Jb) as [_ Hc]. apply Hc in H1 as Hfin. split; try done.
  - split; [done |]. cbn. by rewrite H4.
  - destruct (xi_sent _ _ _ _ _ _ _ _ _ _ _ J) as (out & Es & Ho & _). rewrite H1 in Ho. exists dst, (hs_sent h), out. split; [done |]. split; [apply I | done].
  - eapply Forall_impl; [apply (bi_blocks _ _ _ _ _ _ _ Jb) |]. intros p (? & ? & ? & _). split; [done |]. split; [lia | done].
  - eapply plan_bounds; [exact Hs | exact Hm | exact Jb].
  - exists dst, cipher, auth, h. by rewrite Ep.
  - destruct (xi_base _ _ _ _ _ _ _ _ _ _ _ J) as [Hz | (ack & Hg & Hle)]; [| exists ack; split; [done |]; lia].
    rewrite H2 in Hz. destruct Hfin as [_ []]. destruct plan; [done |]. rewrite lenZ_cons in Hz. pose proof (lenZ_nonneg plan). lia.
Qed.

(** A lane always returns with the status of its exit, and an Ok one is complete. *)
Lemma send_lane_spec genuine env :
  lane_args -> env_ok genuine env ->
  returns (send_lane cfg lane keys data lane_base file_total file_id env) (fun s =>
    (forall st, sn_exit s = Some st -> lr_status (sn_result s) = st) /\
    (sn_exit s = Some StOk -> exists ranges plan, completed genuine env s ranges plan)).
Proof.
  intros A V. unfold send_lane. destruct (open_lane _ _ _ _ _) as [st | [[dst cipher] auth]] eqn:Eo.
  { apply returns_ok. cbn [sn_exit sn_result]. split; [by intros st' [= <-] |]. intros [= ->]. by apply open_lane_not_ok in Eo. }
  fold (start_msg env). pose proof (lane_start_wf genuine env A V) as Hss.
  edestruct (handshake_inv cfg lane dst (se_hs_begin env) (start_msg env) auth (se_hs_inputs env) (la_lane A) Hss (new_hs (start_msg env) auth) (se_hs_inputs env)) as (h & Eh & I).
  { by apply new_hs_inv. }
  { done. }
  { apply Forall_forall. intros i Hi. split; [done |]. pose proof (eo_hs _ _ V) as H. rewrite Forall_forall in H. by apply H. }
  rewrite Eh. cbn [res_bind]. destruct (hs_exit h) as [st |] eqn:Ex.
  - apply returns_ok. cbn [sn_exit sn_result]. pose proof (hv_exit _ _ _ _ _ _ _ _ I) as He. unfold exit_ok in He. rewrite Ex in He.
    destruct He as (Hst & _ & [[[t c] b] r] & _ & Hc). split; [by intros st' [= <-] |]. intros [= ->]. by destruct Hc.
  - destruct (hs_started h); [| by apply returns_ok]. eapply returns_bind; [by eapply (send_session_spec genuine) |]. intros w Hw. by apply returns_ok.
Qed.

End Lane.

(** ** Properties *)


