(* ===== verification/SendEntry.v ===== *)
(** * Sending a transfer

    Models [send_impl] of [src/src/proto/transfer.cpp], which splits the data into the
    shards of the lanes, runs a [send_lane] on each (SendLane.v) and reports the worst
    of their statuses; the identity a file is resumed by; and the entry points
    [send_buffer] and [send_file]. *)

From S2P Require Import Prelude Wire Control Block Window Hash Receiver SessionCrypto Ranges FileSink Peer Returns Status Pipeline RecvLane SendLane SendPlan SendStart.

(** ** Shards *)

Section Shards.
Context (lanes len : Z).

Definition shard : Z := u64 (u64 (len + lanes) - 1) / (if lanes =? 0 then 1 else lanes).
Definition shard_off (i : Z) : Z := Z.min (u64 (i * shard)) len.
Definition shard_len (i : Z) : Z := Z.min shard (u64 (len - shard_off i)).

End Shards.

(** ** The identity of a file *)

(** The fields of [struct stat] that [file_identity] reads. *)
Record FileStat := mkFileStat {
  st_size : Z;
  st_mtime_sec : Z;
  st_mtime_nsec : Z;
  st_ctime_sec : Z;
  st_ctime_nsec : Z;
  st_ino : Z;
  st_dev : Z;
}.

(** [path.substr(path.find_last_of('/') + 1)]: what follows the last slash, or all of
    it ([npos + 1] is 0). *)
Fixpoint base_name (path : bytes) : bytes :=
  match path with
  | [] => []
  | c :: rest => if bool_decide (47 ∈ rest) then base_name rest else if c =? 47 then rest else path
  end.

Definition identity_bytes (path : bytes) (st : FileStat) : bytes :=
  base_name path ++ be 8 (u64 (st_size st)) ++ be 8 (u64 (st_mtime_sec st)) ++ be 8 (u64 (st_mtime_nsec st)) ++ be 8 (u64 (st_ctime_sec st)) ++
  be 8 (u64 (st_ctime_nsec st)) ++ be 8 (u64 (st_ino st)) ++ be 8 (u64 (st_dev st)).

Definition file_identity (path : bytes) (st : FileStat) : Z :=
  let id := hash64 (identity_bytes path st) in
  if negb (id =? 0) then id else 1.

(** ** Sending *)

Section Send.
Context `{B : CryptoBackend} (cfg : TransferConfig).

(** The configuration check of [send_impl]; [None] is a null pointer. *)
Definition send_config_ok (data : option bytes) (len : Z) : bool :=
  negb ((cf_lanes cfg =? 0) || (cf_base_port cfg =? 0) || ports_overflow cfg || (cf_block_size cfg =? 0) || psk_too_short cfg ||
        (bool_decide (data = None) && (0 <? len))).

(** The keys of the session: [salt] is what [random_bytes] has drawn, if it could. *)
Definition session_keys (available : bool) (salt : option bytes) : option Keys :=
  if lenZ (cf_pre_shared_key cfg) =? 0 then Some (mkKeys false [] [])
  else if negb available then None
  else
    match salt with
    | None => None
    | Some salt =>
        match derive_session_key (cf_pre_shared_key cfg) salt with
        | None => None
        | Some key => Some (mkKeys true key salt)
        end
    end.

(** The lane [i] of [send_impl] on its shard. *)
Definition send_shard (keys : Keys) (data : bytes) (len file_id : Z) (env : nat -> SendEnv) (i : nat) : res Sent :=
  let off := shard_off (cf_lanes cfg) len (Z.of_nat i) in
  send_lane cfg (Z.of_nat i) keys (slice data off (shard_len (cf_lanes cfg) len (Z.of_nat i))) off len file_id (env i).

Fixpoint send_shards (keys : Keys) (data : bytes) (len file_id : Z) (env : nat -> SendEnv) (lanes : list nat) : res (list Sent) :=
  match lanes with
  | [] => Ok []
  | i :: lanes =>
      res_bind (send_shard keys data len file_id env i) (fun s =>
      res_bind (send_shards keys data len file_id env lanes) (fun ss => Ok (s :: ss)))
  end.

(** [send_impl]: the status, what is stored in [stats] and what the lanes did, or
    [None] while a lane has not returned. *)
Definition send_impl (data : option bytes) (len file_id : Z) (available : bool) (salt : option bytes) (env : nat -> SendEnv) :
    res (option (TransferStatus * option TransferStats * list Sent)) :=
  if negb (send_config_ok data len) then Ok (Some (ConfigError, None, []))
  else
    match session_keys available salt with
    | None => Ok (Some (Unsupported, None, []))
    | Some keys =>
        res_bind (send_shards keys (default [] data) len file_id env (seq 0 (Z.to_nat (cf_lanes cfg)))) (fun sents =>
        if forallb (fun s => bool_decide (is_Some (sn_exit s))) sents then
          let results := sn_result <$> sents in
          let skipped := foldl (fun n r => u64 (n + lr_skipped r)) 0 results in
          Ok (Some (worst results, Some (fill_stats results (u64 (len - skipped)) skipped), sents))
        else Ok None)
    end.

Definition send_buffer (data : option bytes) (len : Z) (available : bool) (salt : option bytes) (env : nat -> SendEnv) :
    res (option (TransferStatus * option TransferStats * list Sent)) := send_impl data len 0 available salt env.

(** [send_file]: [st] is what [stat] reports of a regular file, [contents] the bytes
    the stream reads, if it opens and as many as asked for can be read. *)
Definition send_file (path : bytes) (st : option FileStat) (contents : option bytes) (available : bool) (salt : option bytes) (env : nat -> SendEnv) :
    res (option (TransferStatus * option TransferStats * list Sent)) :=
  match st, contents with
  | Some st, Some contents =>
      let len := u64 (st_size st) in
      if lenZ contents <? len then Ok (Some (ConfigError, None, []))
      else send_impl (Some (take (Z.to_nat len) contents)) len (file_identity path st) available salt env
  | _, _ => Ok (Some (ConfigError, None, []))
  end.

End Send.

(** ** The shards tile the data *)

Section Tiling.
Context (lanes len : Z) (Hlanes : 0 < lanes < 2 ^ 16) (Hlen : 0 <= len < 2 ^ 63).

Lemma shard_ceil : shard lanes len = (len + lanes - 1) / lanes /\ 0 <= shard lanes len <= len /\ len <= lanes * shard lanes len.
Proof.
  unfold shard. destruct (Z.eqb_spec lanes 0); [lia |]. rewrite (u64_small (len + lanes)), u64_small by (unfold is_u64; lia).
  split; [done |]. set (q := (len + lanes - 1) / lanes).
  assert (lanes * q <= len + lanes - 1 < lanes * q + lanes) as Hq by (subst q; pose proof (Z.div_mod (len + lanes - 1) lanes ltac:(lia)); pose proof (Z.mod_pos_bound (len + lanes - 1) lanes ltac:(lia)); lia).
  assert (0 <= q) by (apply Z.div_pos; lia). split; [| lia]. split; [done |].
  destruct (Z.le_gt_cases q len); [done |]. assert (lanes * (len + 1) <= lanes * q) by (apply Z.mul_le_mono_nonneg_l; lia). nia.
Qed.

Lemma shard_edges i : 0 <= i <= lanes -> shard_off lanes len i = Z.min (i * shard lanes len) len /\
  shard_off lanes len i + shard_len lanes len i = Z.min ((i + 1) * shard lanes len) len.
Proof.
  intros Hi. destruct shard_ceil as (_ & Hs & _). assert (0 <= i * shard lanes len < 2 ^ 64) as Hb.
  { split; [apply Z.mul_nonneg_nonneg; lia |]. destruct (Z.le_gt_cases len 0); [assert (shard lanes len = 0) as -> by lia; lia |].
    destruct shard_ceil as (E & _). assert (lanes * shard lanes len <= len + lanes - 1) by (rewrite E; apply Z.mul_div_le; lia). nia. }
  assert (shard_off lanes len i = Z.min (i * shard lanes len) len) as Eo by (unfold shard_off; by rewrite u64_small by (unfold is_u64; lia)).
  split; [done |]. unfold shard_len. rewrite Eo, u64_small by (unfold is_u64; lia). lia.
Qed.

Lemma shard_inside i : 0 <= i < lanes -> 0 <= shard_off lanes len i /\ 0 <= shard_len lanes len i /\ shard_off lanes len i + shard_len lanes len i <= len.
Proof. intros Hi. destruct shard_ceil as (_ & Hs & _). destruct (shard_edges i ltac:(lia)) as [E1 E2]. assert (0 <= i * shard lanes len) by (apply Z.mul_nonneg_nonneg; lia). lia. Qed.

Lemma shard_apart i j : 0 <= i < j -> j < lanes -> shard_off lanes len i + shard_len lanes len i <= shard_off lanes len j.
Proof.
  intros Hi Hj. destruct shard_ceil as (_ & Hs & _). destruct (shard_edges i ltac:(lia)) as [_ ->]. destruct (shard_edges j ltac:(lia)) as [-> _].
  assert ((i + 1) * shard lanes len <= j * shard lanes len) by (apply Z.mul_le_mono_nonneg_r; lia). lia.
Qed.

(** Every position lies in a shard. *)
Lemma shard_of q : 0 <= q < len -> exists i, 0 <= i < lanes /\ shard_off lanes len i <= q < shard_off lanes len i + shard_len lanes len i.
Proof.
  intros Hq. destruct shard_ceil as (_ & Hs & Hc). assert (0 < shard lanes len) by nia. exists (q / shard lanes len).
  pose proof (Z.div_mod q (shard lanes len) ltac:(lia)) as Hd. pose proof (Z.mod_pos_bound q (shard lanes len) ltac:(lia)).
  assert (0 <= q / shard lanes len < lanes) as Hi by (split; [apply Z.div_pos; lia | apply Z.div_lt_upper_bound; lia]). split; [done |].
  destruct (shard_edges (q / shard lanes len) ltac:(lia)) as [-> ->]. lia.
Qed.

Lemma shards_prefix (data : bytes) n : lenZ data = len -> Z.of_nat n <= lanes ->
  mjoin ((fun i => slice data (shard_off lanes len (Z.of_nat i)) (shard_len lanes len (Z.of_nat i))) <$> seq 0 n) =
  take (Z.to_nat (Z.min (Z.of_nat n * shard lanes len) len)) data.
Proof.
  intros Hd Hn. destruct shard_ceil as (_ & Hs & _). induction n as [| n IH]; [by rewrite Z.mul_0_l, Z.min_l by lia |].
  rewrite seq_S, fmap_app, join_app, IH by lia. cbn [fmap list_fmap mjoin list_join Nat.add]. rewrite app_nil_r.
  destruct (shard_edges (Z.of_nat n) ltac:(lia)) as [E1 E2]. destruct (shard_inside (Z.of_nat n) ltac:(lia)) as (H1 & H2 & _).
  rewrite <- E1. replace (Z.of_nat (S n) * shard lanes len) with ((Z.of_nat n + 1) * shard lanes len) by lia. rewrite <- E2.
  unfold slice. rewrite Z2Nat.inj_add by lia. by rewrite take_take_drop.
Qed.

End Tiling.

(** ** What a send reports *)

Section Outcome.
Context `{B : CryptoBackend} `{!CryptoLaws B} (cfg : TransferConfig) (data : bytes) (file_id : Z) (env : nat -> SendEnv) (genuine : nat -> Ack -> Prop).

(** What a caller passes, and what the lanes find outside. *)
Record send_args (available : bool) (salt : option bytes) : Prop := {
  sa_config : wf_config cfg;
  sa_data : lenZ data < 2 ^ 63;
  sa_id : is_u64 file_id;
  sa_salt : forall s, salt = Some s -> lenZ s = 16;
  sa_env : forall keys i, session_keys cfg available salt = Some keys -> Z.of_nat i < cf_lanes cfg -> env_ok (Z.of_nat i) keys (genuine i) (env i);
}.

Definition shard_data (i : nat) : bytes :=
  slice data (shard_off (cf_lanes cfg) (lenZ data) (Z.of_nat i)) (shard_len (cf_lanes cfg) (lenZ data) (Z.of_nat i)).

Notation base i := (shard_off (cf_lanes cfg) (lenZ data) (Z.of_nat i)).

Lemma config_ok_bounds : wf_config cfg -> send_config_ok cfg (Some data) (lenZ data) = true -> 0 < cf_lanes cfg < 2 ^ 16 /\ 1 <= cf_block_size cfg < 2 ^ 16.
Proof. intros (_ & Hl & Hb & _). unfold send_config_ok. rewrite negb_true_iff, !orb_false_iff. unfold is_u16 in *. intros (((((? & ?) & ?) & ?) & ?) & ?). lia. Qed.

Lemma lenZ_shard_data i : 0 < cf_lanes cfg < 2 ^ 16 -> lenZ data < 2 ^ 63 -> Z.of_nat i < cf_lanes cfg ->
  lenZ (shard_data i) = shard_len (cf_lanes cfg) (lenZ data) (Z.of_nat i).
Proof.
  intros Hl Hd Hi. pose proof (lenZ_nonneg data). destruct (shard_inside (cf_lanes cfg) (lenZ data) Hl ltac:(lia) (Z.of_nat i) ltac:(lia)) as (? & ? & ?).
  apply lenZ_slice; lia.
Qed.

Lemma session_keys_salt available salt keys : session_keys cfg available salt = Some keys ->
  (forall s, salt = Some s -> lenZ s = 16) -> ky_enabled keys = true -> lenZ (ky_salt keys) = 16.
Proof.
  unfold session_keys. destruct (_ =? 0); [by intros [= <-] |]. destruct (negb _); [done |]. destruct salt as [s |]; [| done].
  destruct (derive_session_key _ _); [| done]. intros [= <-] H _. by apply H.
Qed.

Lemma shard_args salt available keys i :
  send_args available salt -> send_config_ok cfg (Some data) (lenZ data) = true -> session_keys cfg available salt = Some keys -> Z.of_nat i < cf_lanes cfg ->
  lane_args cfg (Z.of_nat i) keys (shard_data i) (base i) (lenZ data) file_id.
Proof.
  intros [Hc Hd Hid Hsalt _] Hok Hk Hi. destruct (config_ok_bounds Hc Hok) as [Hl Hb]. pose proof (lenZ_nonneg data).
  destruct (shard_inside (cf_lanes cfg) (lenZ data) Hl ltac:(lia) (Z.of_nat i) ltac:(lia)) as (H1 & H2 & H3).
  split; try done; unfold is_u16, is_u64, shard_data in *; rewrite ?lenZ_slice by lia; try lia. intros He. by eapply session_keys_salt.
Qed.

Lemma send_shards_spec salt available keys ids :
  send_args available salt -> send_config_ok cfg (Some data) (lenZ data) = true -> session_keys cfg available salt = Some keys ->
  Forall (fun i => Z.of_nat i < cf_lanes cfg) ids ->
  returns (send_shards cfg keys data (lenZ data) file_id env ids) (Forall2 (fun i s =>
    send_lane cfg (Z.of_nat i) keys (shard_data i) (base i) (lenZ data) file_id (env i) = Ok s /\
    forall st, sn_exit s = Some st -> lr_status (sn_result s) = st) ids).
Proof.
  intros A Hok Hk. induction 1 as [| i ids Hi _ IH]; cbn [send_shards]; [by apply returns_ok |].
  destruct (send_lane_spec cfg (Z.of_nat i) keys (shard_data i) (base i) (lenZ data) file_id (genuine i) (env i)) as (s & Es & Hs & _);
    [by eapply shard_args | by apply (sa_env _ _ A) |].
  unfold send_shard. fold (shard_data i). rewrite Es. cbn [res_bind]. eapply returns_bind; [exact IH |]. intros ss Hss. apply returns_ok. by constructor.
Qed.

Lemma told_worst (ids : list nat) (sents : list Sent) (P : nat -> Sent -> Prop) :
  Forall2 (fun i s => P i s /\ forall st, sn_exit s = Some st -> lr_status (sn_result s) = st) ids sents ->
  forallb (fun s => bool_decide (is_Some (sn_exit s))) sents = true ->
  worst (sn_result <$> sents) = StOk <-> Forall (fun s => sn_exit s = Some StOk) sents.
Proof.
  intros H Hx. rewrite worst_ok, Forall_fmap, !list.Forall_forall. rewrite forallb_forall in Hx. split; intros H0 s Hs.
  - specialize (Hx s ltac:(by apply list_elem_of_In)). apply bool_decide_eq_true in Hx as [st Hst]. apply list_elem_of_lookup in Hs as Hk. destruct Hk as [k Ek].
    destruct (Forall2_lookup_r _ _ _ _ _ H Ek) as (i & _ & _ & Ht). rewrite Hst. by rewrite <- (Ht st Hst), (H0 s Hs : lr_status (sn_result s) = StOk).
  - apply list_elem_of_lookup in Hs as Hk. destruct Hk as [k Ek]. destruct (Forall2_lookup_r _ _ _ _ _ H Ek) as (i & _ & _ & Ht). cbn. by apply Ht, H0.
Qed.

(** The lanes of a send whose configuration and keys are in order. *)
Lemma send_lanes_run salt available keys :
  send_args available salt -> send_config_ok cfg (Some data) (lenZ data) = true -> session_keys cfg available salt = Some keys ->
  exists sents, send_shards cfg keys data (lenZ data) file_id env (seq 0 (Z.to_nat (cf_lanes cfg))) = Ok sents /\ lenZ sents = cf_lanes cfg /\
    (forallb (fun s => bool_decide (is_Some (sn_exit s))) sents = true -> worst (sn_result <$> sents) = StOk <-> Forall (fun s => sn_exit s = Some StOk) sents) /\
    forall i s, sents !! i = Some s -> Z.of_nat i < cf_lanes cfg /\
      send_lane cfg (Z.of_nat i) keys (shard_data i) (base i) (lenZ data) file_id (env i) = Ok s.
Proof.
  intros A Hok Hk. destruct (config_ok_bounds (sa_config _ _ A) Hok) as [Hl _].
  destruct (send_shards_spec salt available keys (seq 0 (Z.to_nat (cf_lanes cfg))) A Hok Hk) as (sents & E & Hs); [apply Forall_forall; intros i Hi%elem_of_seq; lia |].
  pose proof (Forall2_length _ _ _ Hs) as Hlen. rewrite length_seq in Hlen. exists sents. split; [done |]. split; [unfold lenZ; lia |].
  split; [exact (told_worst _ _ _ Hs) |]. intros i s Ei. destruct (Forall2_lookup_r _ _ _ _ _ Hs Ei) as (j & Ej & Ej' & _). apply lookup_seq in Ej as [-> Hj].
  split; [lia | done].
Qed.

(** A send that reports Ok. *)
Lemma send_impl_ok salt available stats sents :
  send_args available salt -> send_impl cfg (Some data) (lenZ data) file_id available salt env = Ok (Some (StOk, stats, sents)) ->
  exists keys, session_keys cfg available salt = Some keys /\ send_config_ok cfg (Some data) (lenZ data) = true /\ lenZ sents = cf_lanes cfg /\
    forall i s, sents !! i = Some s -> Z.of_nat i < cf_lanes cfg /\ sn_exit s = Some StOk /\
      send_lane cfg (Z.of_nat i) keys (shard_data i) (base i) (lenZ data) file_id (env i) = Ok s.
Proof.
  intros A. unfold send_impl. destruct (send_config_ok _ _ _) eqn:Hok; cbn [negb]; [| done]. destruct (session_keys _ _ _) as [keys |] eqn:Hk; [| done].
  destruct (send_lanes_run salt available keys A Hok Hk) as (sents' & E & Hn & Hw & Hs). change (default [] (Some data)) with data. rewrite E. cbn [res_bind].
  destruct (forallb _ sents') eqn:Hx; [| done]. intros [= Hst _ <-]. exists keys. split; [done |]. split; [done |]. split; [done |].
  intros i s Ei. destruct (Hs i s Ei) as [Hi El]. split; [done |]. split; [| done]. apply (Hw eq_refl) in Hst. by apply (Forall_lookup_1 _ _ _ _ Hst Ei).
Qed.

End Outcome.

