(* ===== verification/EndToEnd.v ===== *)
(** * A send lane and a receive lane

    Puts [send_lane] (SendLane.v, SendPlan.v, SendStart.v) and a receive lane with its
    consumers (RecvLane.v, RecvSystem.v, RecvSafety.v) of
    [src/src/proto/transfer.cpp] on the two ends of a network that loses, duplicates,
    reorders and forges datagrams, as long as it cannot make one that authenticates. *)

From S2P Require Import Prelude Wire Control Block Window Receiver SessionCrypto Ranges FileSink Peer Returns Status Sinks Pipeline RecvLane RecvSystem RecvSafety SendLane SendPlan SendStart.

Section EndToEnd.
Context `{B : CryptoBackend} `{!CryptoLaws B} `{S : Sink} `{!SinkLaws S}.

(** The two ends, the sender's lane and what it finds outside, and the receiver's
    token key, clock and output. *)
Context (cfg_s cfg_r : TransferConfig) (lane : Z) (keys : Keys) (data : bytes) (lane_base file_total file_id : Z) (env : SendEnv).
Context (secret : bytes) (now : Z) (s0 : sink).

(** Both sides have the same pre-shared key, or none. *)
Definition same_keys : Prop :=
  want_crypto cfg_r = ky_enabled keys /\
  (ky_enabled keys = true -> derive_session_key (cf_pre_shared_key cfg_r) (ky_salt keys) = Some (ky_key keys)).

(** A datagram that does not authenticate, as a block or as a StreamStart. *)
Definition forged (key : LaneKey) (dg : bytes) : Prop :=
  (forall d, decode_data_datagram dg = Ok d -> body_of (want_crypto cfg_r) key lane d = None) /\
  (forall ss k trial, decode_stream_start dg default_stream_start = Ok ss -> authenticate_start cfg_r lane ss dg <> Ok (true, k, trial)).

(** What the network may deliver to the receiver. *)
Definition network (sent : list datagram) (key : LaneKey) (dg : bytes) : Prop := (exists to, (to, dg) ∈ sent) \/ forged key dg.

(** The states of the receiver when the sender has sent [sent]. *)
Definition receiver_step (sent : list datagram) : System -> System -> Prop := step cfg_r lane (network sent) lane_base (lenZ data).
Definition receiver_reaches (sent : list datagram) (sy : System) : Prop := rtc (receiver_step sent) (new_system cfg_r lane secret now s0) sy.

(** An Ack that the receiver sends. *)
Definition sent_by_receiver (sent : list datagram) (ack : Ack) : Prop :=
  exists sy d, receiver_reaches sent sy /\ d ∈ w_sent (sy_world sy) /\ decode_ack (snd d) = Ok ack.

(** ** What the sender's datagrams are to the receiver *)

Context (sent : list datagram) (plan : list (Z * Z)).
Context (Hsent : exists dst sent0 out, sent = sent0 ++ out /\
  Forall (starts lane dst (start_msg cfg_s lane keys data lane_base file_total file_id env)) sent0 /\ Forall (sent_ok lane keys data plan true) out).
Context (Hstart : wf_msg (start_msg cfg_s lane keys data lane_base file_total file_id env)).
Context (Hlane : is_u16 lane) (Hkeys : same_keys).

Lemma peeks_one_type dg t1 t2 P : peek_msg_type dg = Ok (MsgType.code t1) -> (t2, P) ∈ message_decoders dg -> P -> t1 = t2.
Proof. intros E Hin HP. rewrite (decoder_peeks dg t2 P Hin HP) in E. injection E as E. symmetry. by apply MsgType.code_inj. Qed.

Lemma empty_not dg t P : dg = [] -> (t, P) ∈ message_decoders dg -> ~ P.
Proof. intros -> Hin HP. apply (decoder_peeks _ _ _ Hin) in HP. done. Qed.

Notation start_msg := (start_msg cfg_s lane keys data lane_base file_total file_id env).

Lemma starts_peek dst d : starts lane dst start_msg d ->
  (peek_msg_type (snd d) = Ok (MsgType.code MsgType.StreamStart) /\ exists token tail, is_u64 token /\ snd d = wire (set_token start_msg token) ++ tail) \/
  peek_msg_type (snd d) = Ok (MsgType.code MsgType.StreamClose).
Proof.
  intros (_ & tail & [(token & Ht & ->) | ->]); [left | right].
  - split; [| by exists token, tail]. apply (wire_peeks (M := StreamStart)). by apply set_token_wf.
  - apply (wire_peeks (M := StreamClose)). destruct Hstart as (_ & _ & _ & _ & _ & Hn & _). by repeat (split; [done |]).
Qed.

(** What a datagram of the sender is, by the decoder that accepts it. *)
Lemma sent_typed to dg t P :
  (to, dg) ∈ sent -> (t, P) ∈ message_decoders dg -> P ->
  (t = MsgType.StreamStart /\ exists token tail, is_u64 token /\ dg = wire (set_token start_msg token) ++ tail) \/
  (t = MsgType.Data /\ carries lane keys data plan true dg) \/
  (t = MsgType.StreamClose \/ t = MsgType.PathChallenge \/ t = MsgType.PathResponse \/ t = MsgType.FileDigest).
Proof.
  intros Hin Hm HP. destruct Hsent as (dst & sent0 & out & -> & H1 & H2). rewrite Forall_forall in H1. rewrite Forall_forall in H2.
  apply elem_of_app in Hin as [Hin | Hin].
  - destruct (starts_peek _ _ (H1 _ Hin)) as [[Ep Hs] | Ep]; pose proof (peeks_one_type _ _ _ _ Ep Hm HP) as <-; [by left | auto].
  - destruct (H2 _ Hin) as [C | [E | (t' & E & Ht)]]; cbn [snd] in *.
    + right. left. pose proof C as (d & body & E & _). split; [| done]. symmetry. eapply (peeks_one_type dg); [| exact Hm | done].
      eapply (decoder_peeks dg); [by left | by exists d].
    + by destruct (empty_not dg _ _ E Hm).
    + pose proof (peeks_one_type _ _ _ _ E Hm HP) as ->. auto.
Qed.

Lemma sent_start to dg ss :
  (to, dg) ∈ sent -> decode_stream_start dg default_stream_start = Ok ss ->
  exists token, ss = set_token start_msg token.
Proof.
  intros Hin Ed. edestruct (sent_typed to dg MsgType.StreamStart) as [[_ (token & tail & Ht & E)] | [[? _] | H]];
    [done | by do 2 right; left | by exists ss, default_stream_start | | done | by destruct H as [? | [? | [? | ?]]]].
  exists token. pose proof (decode_wire (CodecLaws := stream_start_laws) _ tail (set_token_wf _ Hstart token Ht)) as E'. rewrite <- E in E'.
  change (decode_stream_start dg default_stream_start = Ok (set_token start_msg token)) in E'.
  rewrite Ed in E'. by apply Ok_inj in E'.
Qed.

Lemma sent_block to dg d : (to, dg) ∈ sent -> decode_data_datagram dg = Ok d -> carries lane keys data plan true dg.
Proof.
  intros Hin Ed. edestruct (sent_typed to dg MsgType.Data) as [[? _] | [[_ C] | H]];
    [done | by left | by exists d | done | done | by destruct H as [? | [? | [? | ?]]]].
Qed.

(** ** The receiver's key *)

(** Once the receiver has a key, it is the sender's. *)
Definition key_agreed (key : LaneKey) : Prop := want_crypto cfg_r = true -> lk_ready key = true -> lk_key key = ky_key keys.

Lemma claim_output_key sh ss sh' : claim_output sh ss = Ok (Some sh') -> sh_key sh' = sh_key sh.
Proof.
  unfold claim_output. destruct (_ =? kUnset).
  - destruct (sink_prepare _ _ _) as [| | [s' ok]]; cbn [res_bind]; [done | done |]. by intros [= <-].
  - destruct (negb _); by intros [= <-].
Qed.

Lemma start_key dg ss key trial :
  (exists to, (to, dg) ∈ sent) -> decode_stream_start dg default_stream_start = Ok ss -> authenticate_start cfg_r lane ss dg = Ok (true, key, trial) ->
  want_crypto cfg_r = true -> key = ky_key keys.
Proof.
  intros [to Hin] Ed Ea Hw. destruct Hkeys as [Hk Hd]. rewrite Hw in Hk. destruct (sent_start to dg ss Hin Ed) as [token ->].
  unfold authenticate_start in Ea. rewrite Hw in Ea. cbn [set_token ss_session_salt start_msg lane_start andb negb] in Ea. rewrite <- Hk in Ea.
  rewrite (Hd (eq_sym Hk)) in Ea. destruct (existsb _ _); [| done]. destruct (control_init _ _ _ _) as [a ok]. destruct (negb ok); [done |].
  destruct (control_open a dg); cbn [res_bind] in Ea; [done | done |]. by injection Ea as _ <- _.
Qed.

Lemma others_key pos len sh sh' : others pos len sh sh' -> sh_key sh' = sh_key sh.
Proof. by intros []. Qed.

Lemma lane_step_key outside sy sy' :
  (forall sh sh', outside sh sh' -> sh_key sh' = sh_key sh) -> lane_step cfg_r lane (network sent) outside sy sy' -> key_agreed (sh_key (w_shared (sy_world sy))) -> key_agreed (sh_key (w_shared (sy_world sy'))).
Proof.
  assert (forall w w', kept w w' -> sh_key (w_shared w') = sh_key (w_shared w)) as K by (by intros w w' (_ & _ & [= _ _ E _] & _)).
  intros Ho St Ha. destruct St as [w chs now' Ex | w chs src dg now' rnd room w' Ex Hby _ _ Hnd E | w chs k ch c out r w' Ex _ Ek Eo E
    | w chs Ex | w chs i w' Ex Hst E | w chs st w' Ex Hst E | w chs Ex Hab | w chs k ch olds cs s failed comps Ek E | w chs sh O]; cbn [sy_world] in *.
  - by rewrite (K _ _ (note_arrival_kept w now')).
  - cbn [take_handed w_shared]. apply on_datagram_cases in E as [E | [E | [E | E]]].
    + by rewrite (K _ _ E).
    + destruct E as (ss & key & trial & sh & A & _ & _ & _ & -> & _). by rewrite (claim_output_key _ _ _ (sa_claimed _ _ _ _ _ _ _ _ _ A)).
    + destruct E as (ss & key & trial & sh & want & A & _ & _ & _ & -> & _). pose proof (claim_output_key _ _ _ (sa_claimed _ _ _ _ _ _ _ _ _ A)) as Ec.
      destruct (want_crypto cfg_r) eqn:Hw; [| by rewrite Ec]. intros _ _. cbn [set_key sh_key lk_key].
      destruct Hnd as [Hin | [_ Hf]]; [| by destruct (Hf ss key trial (sa_decoded _ _ _ _ _ _ _ _ _ A) (sa_authentic _ _ _ _ _ _ _ _ _ A))].
      by apply (start_key dg ss key trial Hin (sa_decoded _ _ _ _ _ _ _ _ _ A) (sa_authentic _ _ _ _ _ _ _ _ _ A)).
    + by destruct E as (d & _ & _ & _ & _ & _ & _ & ->).
  - apply take_result_cases in E as (b' & _ & E). by rewrite (K _ _ E).
  - done.
  - apply recv_tail_shared in E as [= _ _ Ek _]. by rewrite Ek.
  - by rewrite (K _ _ (abandon_kept _ _ _ _ E)).
  - done.
  - done.
  - cbn [set_shared w_shared]. by rewrite (Ho _ _ O).
Qed.

(** ** An honest network *)

Definition agreed_network (key : LaneKey) (dg : bytes) : Prop := network sent key dg /\ key_agreed key.

Lemma body_of_key key key' d : (want_crypto cfg_r = true -> lk_key key = lk_key key') ->
  body_of (want_crypto cfg_r) key lane d = body_of (want_crypto cfg_r) key' lane d.
Proof. intros H. unfold body_of. destruct (want_crypto cfg_r); [| done]. by rewrite H. Qed.

Lemma network_honest key dg : agreed_network key dg -> honest cfg_r lane data lane_base plan key dg.
Proof.
  intros [[[to Hin] | [Hf1 Hf2]] Ha]; split.
  - intros Hr d body Ed Eb. destruct (sent_block to dg d Hin Ed) as (d' & body' & Ed' & _ & _ & (l & Epl & Ebody & _) & Eb' & Hfin).
    rewrite Ed in Ed'. apply Ok_inj in Ed' as <-. rewrite <- (proj1 Hkeys) in Eb'.
    rewrite (body_of_key key (mkLaneKey (ky_key keys) true)), Eb' in Eb by (intros Hw; by apply Ha, Hr). injection Eb as <-.
    exists l. split; [done |]. split; [done |]. rewrite Hfin. unfold final. tauto.
  - intros ss k trial Ed _. by destruct (sent_start to dg ss Hin Ed) as [token ->].
  - intros _ d body Ed Eb. by rewrite Hf1 in Eb.
  - intros ss k trial Ed Ea. by destruct (Hf2 ss k trial Ed).
Qed.

Lemma agreed_step outside sy sy' :
  lane_step cfg_r lane (network sent) outside sy sy' -> key_agreed (sh_key (w_shared (sy_world sy))) -> lane_step cfg_r lane agreed_network outside sy sy'.
Proof.
  intros St Ha. destruct St as [| w chs src dg now' rnd room w' H1 H2 H3 H4 H5 H6 | | | | | | |];
    [by apply step_arrival | by apply (step_datagram _ _ _ _ w chs src dg now' rnd room w' H1 H2 H3 H4 (conj H5 Ha) H6) | by eapply step_result | by apply step_publish | by eapply step_tail
    | by eapply step_abandon | by apply step_aborted | by eapply step_consume | by apply step_others].
Qed.

Lemma agreed_run sy sy' :
  rtc (receiver_step sent) sy sy' -> key_agreed (sh_key (w_shared (sy_world sy))) ->
  rtc (step cfg_r lane agreed_network lane_base (lenZ data)) sy sy' /\ key_agreed (sh_key (w_shared (sy_world sy'))).
Proof.
  intros R. induction R as [sy | sy1 sy2 sy3 St R IH]; intros Ha; [done |]. destruct IH as [R' Ha']; [by eapply lane_step_key; [apply others_key | |] |].
  split; [| done]. eapply rtc_l; [by apply agreed_step | done].
Qed.

(** Every block an Ack of the receiver claims is in the output, from then on. *)
Lemma claimed_blocks_stay sy sy' d ack :
  wf_plan data lane_base plan -> wf_config cfg_r -> sink_fresh s0 -> Forall is_u8 secret ->
  receiver_reaches sent sy -> d ∈ w_sent (sy_world sy) -> decode_ack (snd d) = Ok ack -> rtc (receiver_step sent) sy sy' ->
  forall seq, claims ack seq -> exists o l, plan !! Z.to_nat seq = Some (o, l) /\
    slice (sink_data (sh_sink (w_shared (sy_world sy')))) (lane_base + o) l = slice data o l.
Proof.
  intros Hp Hcfg Hf Hs R Hd Ed R'. assert (key_agreed (sh_key (w_shared (sy_world (new_system cfg_r lane secret now s0))))) as Ha by done.
  destruct (agreed_run _ _ R Ha) as [Ra Ha1]. destruct (agreed_run _ _ R' Ha1) as [Ra' _].
  destruct (reach_wire cfg_r lane Hlane data lane_base plan True agreed_network secret now s0 sy (fun _ => Hp) (fun key dg H _ => network_honest key dg H) Hcfg Hf Hs Ra)
    as (acc & order & W & I).
  destruct (run_wire cfg_r lane Hlane data lane_base plan True agreed_network sy sy' acc order (fun _ => Hp) (fun key dg H _ => network_honest key dg H) Hcfg Ra' W I)
    as (acc' & order' & Hsub & _ & I').
  intros seq Hc. apply (block_landed_slice cfg_r lane data lane_base plan True sy' acc' order'); [done | done | done |]. apply Hsub.
  pose proof (wo_sent _ _ _ W) as Ho. rewrite list.Forall_forall in Ho. by apply (Ho d Hd ack).
Qed.

End EndToEnd.

(** ** Positions *)

Lemma in_range_bytes rs o : o ∈ range_bytes rs <-> covers rs o.
Proof.
  unfold range_bytes, covers. rewrite list_elem_of_join. split.
  - intros (l & Ho & (r & -> & Hr)%list_elem_of_fmap). apply elem_of_seqZ in Ho. exists r. split; [done | lia].
  - intros (r & Hr & Ho). exists (seqZ (rr_offset r) (rr_length r)). split; [apply elem_of_seqZ; lia | by apply list_elem_of_fmap; exists r].
Qed.

Lemma in_plan_bytes plan o : o ∈ plan_bytes plan -> exists i p l, plan !! i = Some (p, l) /\ p <= o < p + l.
Proof.
  unfold plan_bytes. rewrite list_elem_of_join. intros (l & Ho & ([p n] & -> & Hp)%list_elem_of_fmap).
  apply elem_of_seqZ in Ho. apply list_elem_of_lookup in Hp as [i Hi]. exists i, p, n. split; [done |]. cbn in Ho. lia.
Qed.

Lemma slice_position (out data : bytes) base p l o :
  0 <= base -> 0 <= p -> p <= o < p + l -> slice out (base + p) l = slice data p l -> out !! Z.to_nat (base + o) = data !! Z.to_nat o.
Proof.
  intros Hb Hp Ho E. apply (f_equal (fun x => x !! Z.to_nat (o - p))) in E. rewrite !slice_lookup in E by lia.
  by replace (Z.to_nat (base + p) + Z.to_nat (o - p))%nat with (Z.to_nat (base + o)) in E by lia;
    replace (Z.to_nat p + Z.to_nat (o - p))%nat with (Z.to_nat o) in E by lia.
Qed.

(** ** The property *)


(** ** A run of both ends *)

(** Three bytes in one block, in the clear: the StreamStart, the Retry, the StreamStart
    with its token, the answer, the block, the Ack. *)
Module Transfer.

#[local] Existing Instance toy_backend.
#[local] Existing Instance MemorySink.sink.
#[local] Existing Instance MemorySink.sink_laws.

Definition keys : Keys := mkKeys false [] [].
Definition token : Z := address_token Example.secret peer_example 5.

(** What the sender receives. *)
Definition retry_dg : bytes := wire (mkRetry 0 5 token).
Definition first_ack_dg : bytes := wire (mkAck 0 0 (replicate 16 0) 0 5 1024).
Definition answer_dg : bytes :=
  wire (mkResumeRanges 0 5 0 0 1 1 (mkResumeRange 0 3 :: replicate 63 (mkResumeRange 0 0))).

(** What the receiver receives. *)
Definition start_dg : bytes := wire (set_token (lane_start Example.cfg 0 keys 3 0 3 0 5) token).
Definition data_dg : bytes := data_wire (mkDataDatagram (mkBlockHeader 0 0 kFlagLastBlock 3 0) 0 (Some [7; 8; 9])).

Definition sy1 : System := ok_or (run_arrive Example.cfg 0 Example.sy0 peer_example start_dg) Example.sy0.
Definition sy2 : System := ok_or (run_arrive Example.cfg 0 sy1 peer_example data_dg) sy1.
Definition sy3 : System := ok_or (run_consume Example.cfg 0 sy2 0) sy2.
Definition sy4 : System := ok_or (run_result 0 sy3 0) sy3.
Definition sy5 : System := ok_or (run_tail Example.cfg 0 sy4 1000000) sy4.

Definition ack_dg : bytes := List.last (snd <$> w_sent (sy_world sy5)) [].

(** What the sender finds. *)
Definition arrivals : list hs_input :=
  [(0, false, false, Some retry_dg); (1, false, false, Some answer_dg); (2, false, false, Some first_ack_dg)].
Definition turns : list TxInputs :=
  [mkTxInputs false false 3 (mkSendIn 3 (fun _ => (0, 0)) 0 0 true) [] 3 (fun _ => (3, true));
   mkTxInputs false false 4 (mkSendIn 4 (fun _ => (0, 0)) 0 0 true) [(peer_example, ack_dg, (4, 0, 4, fun _ => (4, true)))] 4 (fun _ => (4, true))].
Definition env : SendEnv :=
  mkSendEnv (Some peer_example) true true 5 0 arrivals 1500 3 3 3 0 turns 5 (replicate 32 0) 5 [].
Definition sent : Sent :=
  ok_or (send_lane Example.cfg 0 keys [7; 8; 9] 0 3 0 env) (mkSent new_lane_result false [] None).

Notation rstep := (receiver_step Example.cfg 0 [7; 8; 9] 0 (sn_sent sent)).

Lemma sent_is : send_lane Example.cfg 0 keys [7; 8; 9] 0 3 0 env = Ok sent.
Proof. apply ok_or_ok. vm_compute. reflexivity. Qed.

Lemma datagram_bytes : Forall is_u8 start_dg /\ Forall is_u8 data_dg /\ Forall is_u8 ack_dg.
Proof. vm_compute. repeat split; repeat constructor; discriminate. Qed.

Lemma was_sent : (peer_example, start_dg) ∈ sn_sent sent /\ (peer_example, data_dg) ∈ sn_sent sent.
Proof. split; apply (bool_decide_unpack _); vm_compute; exact I. Qed.

Lemma rstep1 : rstep Example.sy0 sy1.
Proof.
  unfold receiver_step, step, sy1. apply run_arrive_step; [apply datagram_bytes | by repeat constructor | left; exists peer_example; apply was_sent | vm_compute; reflexivity].
Qed.

Lemma rstep2 : rstep sy1 sy2.
Proof.
  unfold receiver_step, step, sy2. apply run_arrive_step; [apply datagram_bytes | by repeat constructor | left; exists peer_example; apply was_sent | vm_compute; reflexivity].
Qed.

Lemma rstep3 : rstep sy2 sy3.
Proof. unfold receiver_step, step, sy3. apply run_consume_step. vm_compute. reflexivity. Qed.

Lemma rstep4 : rstep sy3 sy4.
Proof. unfold receiver_step, step, sy4. apply run_result_step. vm_compute. reflexivity. Qed.

Lemma rstep5 : rstep sy4 sy5.
Proof. unfold receiver_step, step, sy5. apply run_tail_step. vm_compute. reflexivity. Qed.

Lemma reached : receiver_reaches Example.cfg 0 [7; 8; 9] 0 Example.secret 1 ([], true) (sn_sent sent) sy5.
Proof.
  eapply rtc_l; [exact rstep1 |]. eapply rtc_l; [exact rstep2 |]. eapply rtc_l; [exact rstep3 |]. eapply rtc_l; [exact rstep4 |]. apply rtc_once. exact rstep5.
Qed.

Lemma acked : (peer_example, ack_dg) ∈ w_sent (sy_world sy5).
Proof. apply (bool_decide_unpack _). vm_compute. exact I. Qed.

Lemma args_ok : lane_args Example.cfg 0 keys [7; 8; 9] 0 3 0.
Proof. by split; vm_compute. Qed.

Lemma found : env_ok 0 keys (sent_by_receiver Example.cfg 0 [7; 8; 9] 0 Example.secret 1 ([], true) (sn_sent sent)) env.
Proof.
  destruct datagram_bytes as (_ & _ & Hb). split; [done | | | done | constructor].
  - repeat constructor; intros dg [= <-]; vm_compute; repeat constructor; discriminate.
  - intros dst cipher auth _. constructor; [constructor |]. constructor; [| constructor]. constructor; [| constructor].
    split; [exact Hb |]. split; [done |]. intros ack a _ _ Ea _. exists sy5, (peer_example, ack_dg). split; [exact reached |]. split; [exact acked | exact Ea].
Qed.

Lemma asked : covers [mkResumeRange 0 3] 2.
Proof. exists (mkResumeRange 0 3). split; [by left | done]. Qed.

End Transfer.

