(* ===== verification/WholeTransfer.v ===== *)
(** * A transfer from end to end

    Puts [send_impl] with all its lanes (SendEntry.v) and the lanes of
    [receive_to_sink] (RecvLanes.v) of [src/src/proto/transfer.cpp] on the two ends of
    the network of EndToEnd.v: every lane of the sender talks to the lane of the
    receiver with the same number, and the lanes of the receiver share one output. *)

From S2P Require Import Prelude Wire Control Block Window Receiver SessionCrypto Ranges FileSink Peer Returns Status Sinks Pipeline RecvLane RecvSystem RecvSafety RecvLanes SendLane SendPlan SendStart SendEntry EndToEnd.

Section Whole.
Context `{B : CryptoBackend} `{!CryptoLaws B} `{S : Sink} `{!SinkLaws S}.
Context (cfg_s cfg_r : TransferConfig) (data : bytes) (secret : nat -> bytes) (now : nat -> Z) (s0 : sink).

Notation base i := (shard_off (cf_lanes cfg_s) (lenZ data) (Z.of_nat i)).
Notation len i := (shard_len (cf_lanes cfg_s) (lenZ data) (Z.of_nat i)).

(** The receiver's lanes when the sender's lanes have sent [sents]; what the sender
    plans matters to no step. *)
Definition opposite (sents : list Sent) : list Part :=
  imap (fun i s => mkPart (base i) (len i) [] (network cfg_r (Z.of_nat i) (sn_sent s))) sents.

Definition receiver_at (sents : list Sent) (sys : list System) : Prop :=
  rtc (lanes_step cfg_r (opposite sents)) (new_lanes cfg_r (opposite sents) secret now s0) sys.

(** An Ack the lane [i] of the receiver has sent. *)
Definition acked_by (sys : list System) (i : nat) (ack : Ack) : Prop :=
  exists sy d, sys !! i = Some sy /\ d ∈ w_sent (sy_world sy) /\ decode_ack (snd d) = Ok ack.

(** ** The receiver in view of the sender's plans *)

Context (file_id : Z) (keys : Keys) (env : nat -> SendEnv) (genuine : nat -> Ack -> Prop) (sents : list Sent) (marks : list (list ResumeRange * list (Z * Z))).
Context (Hlanes : 0 < cf_lanes cfg_s < 2 ^ 16) (Hlen : lenZ data < 2 ^ 63) (Hsize : lenZ sents = cf_lanes cfg_s) (Hmarks : length marks = length sents).
Context (Hkeys : same_keys cfg_r keys).
Context (Hstart : forall i s, sents !! i = Some s -> wf_msg (start_msg cfg_s (Z.of_nat i) keys (shard_data cfg_s data i) (base i) (lenZ data) file_id (env i))).
Context (Hdone : forall i s m, sents !! i = Some s -> marks !! i = Some m ->
  completed cfg_s (Z.of_nat i) keys (shard_data cfg_s data i) (base i) (lenZ data) file_id (genuine i) (env i) s (fst m) (snd m)).

Definition planned : list Part :=
  imap (fun i s => mkPart (base i) (len i) (default [] (snd <$> marks !! i)) (agreed_network cfg_r (Z.of_nat i) keys (sn_sent s))) sents.

Lemma lane_index i s : sents !! i = Some s -> 0 <= Z.of_nat i < cf_lanes cfg_s /\ is_u16 (Z.of_nat i) /\ exists m, marks !! i = Some m.
Proof.
  intros E. pose proof (lookup_lt_Some _ _ _ E) as Hi. unfold lenZ in Hsize. unfold is_u16. split; [lia |]. split; [lia |]. apply lookup_lt_is_Some_2. lia.
Qed.

Lemma planned_lookup i p : planned !! i = Some p -> exists s m, sents !! i = Some s /\ marks !! i = Some m /\
  p = mkPart (base i) (len i) (snd m) (agreed_network cfg_r (Z.of_nat i) keys (sn_sent s)).
Proof.
  unfold planned. rewrite list_lookup_imap. destruct (sents !! i) as [s |] eqn:E; [| done]. intros [= <-].
  destruct (lane_index i s E) as (_ & _ & m & Em). exists s, m. by rewrite Em.
Qed.

Lemma planned_honest : honest_parts cfg_r data planned.
Proof.
  pose proof (lenZ_nonneg data). assert (0 <= lenZ data < 2 ^ 63) as Hl by lia. split.
  - done.
  - unfold planned, lenZ in *. rewrite length_imap. lia.
  - intros i p (s & m & Es & _ & ->)%planned_lookup. cbn. apply (shard_inside _ _ Hlanes Hl). by eapply lane_index.
  - intros i j p q (s & m & Es & _ & ->)%planned_lookup (s' & m' & Es' & _ & ->)%planned_lookup Hne. cbn.
    destruct (lane_index i s Es) as [Hi _]. destruct (lane_index j s' Es') as [Hj _]. destruct (Nat.lt_ge_cases i j); [left | right]; apply shard_apart; lia.
  - intros i p (s & m & Es & Em & ->)%planned_lookup. pose proof (Hdone i s m Es Em) as C. destruct (lane_index i s Es) as [Hi _].
    destruct (shard_inside _ _ Hlanes Hl _ Hi) as (H1 & H2 & H3). unfold part_bytes. cbn. split; [| apply C]. split; [done |].
    pose proof (cm_count _ _ _ _ _ _ _ _ _ _ _ _ C) as Hc. unfold shard_data in Hc. rewrite lenZ_slice in Hc by lia. split; [lia |].
    eapply Forall_impl; [apply C |]. by intros [].
  - intros i p key dg (s & m & Es & Em & ->)%planned_lookup Hn. cbn in Hn |- *. pose proof (Hdone i s m Es Em) as C.
    apply (network_honest cfg_s cfg_r (Z.of_nat i) keys (shard_data cfg_s data i) (base i) (lenZ data) file_id (env i) (sn_sent s) (snd m));
      [apply C | by apply (Hstart i s) | by eapply lane_index | done | done].
  - intros i p key dg ss k trial (s & m & Es & Em & ->)%planned_lookup Hn Ed Ea. cbn in Hn. destruct Hn as [[[to Hin] | [_ Hf]] _]; [| by destruct (Hf ss k trial Ed)].
    pose proof (Hdone i s m Es Em) as C.
    by destruct (sent_start cfg_s (Z.of_nat i) keys (shard_data cfg_s data i) (base i) (lenZ data) file_id (env i) (sn_sent s) (snd m)
      (cm_sent _ _ _ _ _ _ _ _ _ _ _ _ C) (Hstart i s Es) ltac:(by eapply lane_index) to dg ss Hin Ed) as [token ->].
Qed.

Definition keys_agreed (sys : list System) : Prop :=
  forall i sy, sys !! i = Some sy -> key_agreed cfg_r keys (sh_key (w_shared (sy_world sy))).

Lemma agreed_lanes_step sys sys' :
  lanes_step cfg_r (opposite sents) sys sys' -> keys_agreed sys -> lanes_step cfg_r planned sys sys' /\ keys_agreed sys'.
Proof.
  intros St Ha. destruct St as [i p sy sy' sys Ep Es St | i sy s' sys Es E].
  - unfold opposite in Ep. rewrite list_lookup_imap in Ep. destruct (sents !! i) as [s |] eqn:E; [| done]. injection Ep as <-. cbn in St.
    destruct (lane_index i s E) as (_ & Hu & m & Em). pose proof (Hdone i s m E Em) as C. split.
    + eapply (lane_moves cfg_r planned i); [unfold planned; by rewrite list_lookup_imap, E | done |]. cbn. apply agreed_step; [done | by apply (Ha i)].
    + intros j x Ej. destruct (decide (j = i)) as [-> | Hne].
      * rewrite list_lookup_insert_eq in Ej by (rewrite length_fmap; by eapply lookup_lt_Some). injection Ej as <-.
        eapply (lane_step_key cfg_s cfg_r (Z.of_nat i) keys (shard_data cfg_s data i) (base i) (lenZ data) file_id (env i) (sn_sent s) (snd m));
          [apply C | by apply (Hstart i s) | done | done | | exact St | by apply (Ha i)]. by intros sh sh' [].
      * rewrite list_lookup_insert_ne, list_lookup_fmap in Ej by done. destruct (sys !! j) as [y |] eqn:Ey; [| done]. injection Ej as <-. by apply (Ha j y).
  - split; [by eapply (checkpoint_runs cfg_r planned i sy) |]. intros j x Ej. rewrite list_lookup_fmap in Ej. destruct (sys !! j) as [y |] eqn:Ey; [| done].
    injection Ej as <-. by apply (Ha j y).
Qed.

Lemma planned_run sys : receiver_at sents sys -> rtc (lanes_step cfg_r planned) (new_lanes cfg_r planned secret now s0) sys.
Proof.
  unfold receiver_at. assert (new_lanes cfg_r (opposite sents) secret now s0 = new_lanes cfg_r planned secret now s0) as ->.
  { apply list_eq. intros i. unfold new_lanes, opposite, planned. rewrite !list_lookup_imap. by destruct (sents !! i). }
  assert (keys_agreed (new_lanes cfg_r planned secret now s0)) as Ha.
  { intros i sy E. unfold new_lanes in E. rewrite list_lookup_imap in E. destruct (planned !! i); [| done]. by injection E as <-. }
  intros R. revert Ha. induction R as [sys | sys1 sys2 sys3 St R IH]; intros Ha; [done |].
  destruct (agreed_lanes_step _ _ St Ha) as [St' Ha']. eapply rtc_l; [exact St' | by apply IH].
Qed.

(** What a complete lane has had acknowledged is in the output. *)
Lemma lane_delivered sys i s m :
  wf_config cfg_r -> sink_fresh s0 -> (forall i, Forall is_u8 (secret i)) -> receiver_at sents sys -> (forall ack, genuine i ack -> acked_by sys i ack) ->
  sents !! i = Some s -> marks !! i = Some m ->
  (exists sy, sys !! i = Some sy) /\ forall sy, sy ∈ sys -> lenZ (sink_data (sh_sink (w_shared (sy_world sy)))) = lenZ data /\
    forall o, covers (fst m) o -> sink_data (sh_sink (w_shared (sy_world sy))) !! Z.to_nat (base i + o) = data !! Z.to_nat (base i + o).
Proof.
  intros Hcfg Hf Hs R Hg Es Em. pose proof (Hdone i s m Es Em) as C. destruct (cm_acked _ _ _ _ _ _ _ _ _ _ _ _ C) as (ack & (sy & d & Ey & Hd & Ed)%Hg & Hle).
  pose proof planned_honest as Hh. pose proof (lanes_run_inv cfg_r data planned Hh Hcfg secret now s0 Hf Hs sys (planned_run sys R)) as I.
  set (p := mkPart (base i) (len i) (snd m) (agreed_network cfg_r (Z.of_nat i) keys (sn_sent s))).
  assert (planned !! i = Some p) as Ep by (unfold planned; by rewrite list_lookup_imap, Es, Em).
  destruct (lane_facts cfg_r data planned Hh Hcfg secret now s0 Hf Hs sys i p sy I Ep Ey) as (acc & order & W & J).
  assert (forall n o l, snd m !! n = Some (o, l) -> lenZ (sink_data (sh_sink (w_shared (sy_world sy)))) = lenZ data /\
    forall q, o <= q < o + l -> sink_data (sh_sink (w_shared (sy_world sy))) !! Z.to_nat (base i + q) = data !! Z.to_nat (base i + q)) as Hin.
  { intros n o l En. assert (Z.of_nat n ∈ acc) as Hn.
    { pose proof (wo_sent _ _ _ W) as Ho. rewrite list.Forall_forall in Ho. apply (Ho d Hd ack); [done |]. left. apply lookup_lt_Some in En. unfold lenZ in Hle. lia. }
    by destruct (accepted_in_output cfg_r data planned Hh secret now s0 sys i p sy acc order o l n I Ep Ey J Hn En) as [[_ ?] ?]. }
  split; [by exists sy |]. intros x [k Ek]%list_elem_of_lookup. destruct (li_shared _ _ _ _ _ _ _ I) as (sh0 & _ & Hsh).
  assert (sh_sink (w_shared (sy_world x)) = sh_sink (w_shared (sy_world sy))) as -> by (by rewrite (Hsh k x Ek), (Hsh i sy Ey)).
  destruct (cm_plan _ _ _ _ _ _ _ _ _ _ _ _ C) as [Hpb Hne]. split.
  - destruct (snd m) as [| [o l] rest] eqn:El; [done |]. by destruct (Hin 0%nat o l).
  - intros o Ho%in_range_bytes. rewrite <- Hpb in Ho. apply in_plan_bytes in Ho as (n & p' & l & En & Ho). by apply (Hin n p' l).
Qed.

End Whole.

(** ** Counting *)

(** Ranges inside a stretch that are together as long as it are all of it. *)
Lemma ordered_total lo rs hi : ordered lo rs hi -> 0 <= sumZ rr_length rs <= hi - lo /\ (sumZ rr_length rs = hi - lo -> forall o, lo <= o < hi -> covers rs o).
Proof.
  revert lo. induction rs as [| r rs IH]; intros lo; cbn [ordered sumZ foldr]; [intros; split; [cbn; lia | cbn; intros; lia] |].
  intros (H1 & H2 & H3). destruct (IH _ H3) as [Hb Hc]. fold (sumZ rr_length rs). change (sumZ rr_length (r :: rs)) with (rr_length r + sumZ rr_length rs) in *.
  split; [lia |]. intros E o Ho. destruct (Z.lt_ge_cases o (rr_offset r + rr_length r)).
  - exists r. split; [by left | lia].
  - destruct (Hc ltac:(lia) o ltac:(lia)) as (r' & Hr & ?). exists r'. split; [by right | done].
Qed.

(** Numbers below bounds that add up to the bounds are the bounds. *)
Lemma sum_reaches {A} (f g : A -> Z) l : (forall x, x ∈ l -> f x <= g x) -> sumZ f l = sumZ g l -> forall x, x ∈ l -> f x = g x.
Proof.
  assert (forall l, (forall x, x ∈ l -> f x <= g x) -> sumZ f l <= sumZ g l) as Hle.
  { clear l. induction l as [| y l IH]; intros H; [done |]. change (f y + sumZ f l <= g y + sumZ g l).
    pose proof (H y ltac:(by left)). pose proof (IH (fun x Hx => H x (list_elem_of_further _ _ _ Hx))). lia. }
  induction l as [| y l IH]; intros H E x Hx; [by apply elem_of_nil in Hx |]. change (f y + sumZ f l = g y + sumZ g l) in E.
  pose proof (H y ltac:(by left)). assert (forall x, x ∈ l -> f x <= g x) as H' by (intros z Hz; apply H; by right). pose proof (Hle l H').
  apply elem_of_cons in Hx as [-> | Hx]; [lia |]. apply IH; [done | lia | done].
Qed.

Lemma choose_list {A C} (P : nat -> A -> C -> Prop) (l : list A) :
  (forall i a, l !! i = Some a -> exists c, P i a c) -> exists cs, length cs = length l /\ forall i a c, l !! i = Some a -> cs !! i = Some c -> P i a c.
Proof.
  revert P. induction l as [| a l IH]; intros P H; [by exists [] |]. destruct (H 0%nat a eq_refl) as [c Hc].
  destruct (IH (fun i => P (S i))) as (cs & El & Hcs); [intros i x; apply (H (S i)) |]. exists (c :: cs). split; [by cbn; rewrite El |].
  intros [| i] a' c' Ea Ec; [by injection Ea as <-; injection Ec as <- | by eapply Hcs].
Qed.

Lemma shard_lens lanes len n : 0 < lanes < 2 ^ 16 -> 0 <= len < 2 ^ 63 -> Z.of_nat n <= lanes ->
  sumZ (fun i => shard_len lanes len (Z.of_nat i)) (seq 0 n) = Z.min (Z.of_nat n * shard lanes len) len.
Proof.
  intros Hl Hn. induction n as [| n IH]; intros Hle; [cbn [seq]; rewrite Z.mul_0_l; cbn; lia |].
  rewrite seq_S, sumZ_app, IH by lia. cbn. destruct (shard_edges lanes len Hl Hn (Z.of_nat n) ltac:(lia)) as [E1 E2].
  replace (Z.of_nat (S n) * shard lanes len) with ((Z.of_nat n + 1) * shard lanes len) by lia. lia.
Qed.

Lemma sumZ_ext {A} (f g : A -> Z) l : (forall x, x ∈ l -> f x = g x) -> sumZ f l = sumZ g l.
Proof. induction l as [| x l IH]; intros H; [done |]. cbn. rewrite (H x) by (by left). f_equal. apply IH. intros y Hy. apply H. by right. Qed.

Lemma sumZ_seq {A} (f : A -> Z) (l : list A) : sumZ f l = sumZ (fun i => from_option f 0 (l !! i)) (seq 0 (length l)).
Proof.
  induction l as [| x l IH] using rev_ind; [done |]. rewrite length_app, sumZ_app, IH. cbn [length]. rewrite Nat.add_1_r, seq_S, sumZ_app. f_equal.
  - apply sumZ_ext. intros i Hi%elem_of_seq. by rewrite lookup_app_l by lia.
  - cbn. by rewrite lookup_app_r, Nat.sub_diag by lia.
Qed.

Lemma session_same_keys `{B : CryptoBackend} cfg_s cfg_r available salt keys :
  cf_pre_shared_key cfg_r = cf_pre_shared_key cfg_s -> session_keys cfg_s available salt = Some keys -> same_keys cfg_r keys.
Proof.
  intros E. unfold session_keys, same_keys, want_crypto. rewrite E. destruct (lenZ (cf_pre_shared_key cfg_s) =? 0); [by intros [= <-] |].
  destruct (negb available); [done |]. destruct salt as [s |]; [| done]. destruct (derive_session_key _ s) eqn:Ek; [| done]. by intros [= <-].
Qed.

(** Lanes that report together the bytes of the data have agreed on all of it. *)
Lemma all_agreed lanes len (sents : list Sent) (marks : list (list ResumeRange)) :
  0 < lanes < 2 ^ 16 -> 0 <= len < 2 ^ 63 -> lenZ sents = lanes -> length marks = length sents ->
  (forall i s rs, sents !! i = Some s -> marks !! i = Some rs -> lr_bytes (sn_result s) = sumZ rr_length rs /\ ordered 0 rs (shard_len lanes len (Z.of_nat i))) ->
  sumZ (fun s => lr_bytes (sn_result s)) sents = len ->
  forall i rs, marks !! i = Some rs -> forall o, 0 <= o < shard_len lanes len (Z.of_nat i) -> covers rs o.
Proof.
  intros Hl Hn Hs Hm H Hsum i rs Em. pose proof (lookup_lt_Some _ _ _ Em) as Hi. destruct (lookup_lt_is_Some_2 sents i) as [s Es]; [lia |].
  destruct (H i s rs Es Em) as [Eb Ho]. destruct (ordered_total _ _ _ Ho) as [_ Hc]. intros o Hob. apply Hc; [| done]. rewrite <- Eb, Z.sub_0_r.
  assert (lr_bytes (sn_result s) = from_option (fun s => lr_bytes (sn_result s)) 0 (sents !! i)) as -> by by rewrite Es.
  apply (sum_reaches (fun i => from_option (fun s => lr_bytes (sn_result s)) 0 (sents !! i)) (fun i => shard_len lanes len (Z.of_nat i)) (seq 0 (length sents))); [| | apply elem_of_seq; lia].
  - intros j Hj%elem_of_seq. destruct (lookup_lt_is_Some_2 sents j) as [s' Es']; [lia |]. destruct (lookup_lt_is_Some_2 marks j) as [rs' Em']; [lia |].
    destruct (H j s' rs' Es' Em') as [Eb' Ho']. rewrite Es'. cbn. rewrite Eb'. destruct (ordered_total _ _ _ Ho'). lia.
  - rewrite <- sumZ_seq, Hsum. unfold lenZ in Hs. rewrite shard_lens by lia. destruct (shard_ceil lanes len Hl Hn) as (_ & _ & Hc'). nia.
Qed.

(** An output that has every agreed byte of the shards is the data, when all of it has
    been agreed on. *)
Lemma lanes_fill {C} (data out : bytes) lanes (sents : list C) (marks : list (list ResumeRange * list (Z * Z))) :
  0 < lanes < 2 ^ 16 -> lenZ data < 2 ^ 63 -> lenZ sents = lanes -> length marks = length sents ->
  (forall i s m, sents !! i = Some s -> marks !! i = Some m -> lenZ out = lenZ data /\
     forall o, covers (fst m) o -> out !! Z.to_nat (shard_off lanes (lenZ data) (Z.of_nat i) + o) = data !! Z.to_nat (shard_off lanes (lenZ data) (Z.of_nat i) + o)) ->
  (forall i rs, (fst <$> marks) !! i = Some rs -> forall o, 0 <= o < shard_len lanes (lenZ data) (Z.of_nat i) -> covers rs o) ->
  out = data.
Proof.
  intros Hl Hd Hn Hm Hin Hcov. pose proof (lenZ_nonneg data).
  assert (forall i, (i < length sents)%nat -> exists s m, sents !! i = Some s /\ marks !! i = Some m) as Hat.
  { intros i Hi. destruct (lookup_lt_is_Some_2 sents i Hi) as [s Es]. destruct (lookup_lt_is_Some_2 marks i) as [m Em]; [lia |]. by exists s, m. }
  assert (lenZ out = lenZ data) as El.
  { unfold lenZ in Hn. destruct (Hat 0%nat) as (s & m & Es & Em); [lia |]. by apply (Hin 0%nat s m). }
  apply (list_eq_same_length _ _ (length data)); [done | unfold lenZ in El; lia |]. intros k x y Hk Ex Ey.
  destruct (shard_of lanes (lenZ data) Hl ltac:(lia) (Z.of_nat k)) as (i & Hi & Ho); [unfold lenZ; lia |].
  unfold lenZ in Hn. destruct (Hat (Z.to_nat i)) as (s & m & Es & Em); [lia |]. destruct (Hin _ s m Es Em) as [_ Hq]. rewrite Z2Nat.id in Hq by lia.
  specialize (Hq (Z.of_nat k - shard_off lanes (lenZ data) i)). rewrite Zplus_minus, Nat2Z.id, Ex, Ey in Hq. apply (inj Some), Hq.
  eapply (Hcov (Z.to_nat i)); [by rewrite list_lookup_fmap, Em | rewrite Z2Nat.id by lia; lia].
Qed.

(** ** The property *)


(** The transfer of EndToEnd.v as one with a single lane. *)
Module OneLane.

#[local] Existing Instance toy_backend.
#[local] Existing Instance MemorySink.sink.
#[local] Existing Instance MemorySink.sink_laws.

Definition env (i : nat) : SendEnv := Transfer.env.
Definition sents : list Sent := [Transfer.sent].
Definition sys : list System := [Transfer.sy5].
Definition part : Part := mkPart 0 3 [] (network Example.cfg 0 (sn_sent Transfer.sent)).

Lemma lane_alone p (sy sy' : System) : lane_step Example.cfg 0 (pt_net p) nothing sy sy' -> lanes_step Example.cfg [p] [sy] [sy'].
Proof. exact (lane_moves Example.cfg [p] 0 p sy sy' [sy] eq_refl eq_refl). Qed.

Lemma alone1 : lanes_step Example.cfg [part] [Example.sy0] [Transfer.sy1].
Proof.
  apply lane_alone. unfold Transfer.sy1. apply run_arrive_step;
    [apply Transfer.datagram_bytes | by repeat constructor | left; exists peer_example; apply Transfer.was_sent | vm_compute; reflexivity].
Qed.
Lemma alone2 : lanes_step Example.cfg [part] [Transfer.sy1] [Transfer.sy2].
Proof.
  apply lane_alone. unfold Transfer.sy2. apply run_arrive_step;
    [apply Transfer.datagram_bytes | by repeat constructor | left; exists peer_example; apply Transfer.was_sent | vm_compute; reflexivity].
Qed.
Lemma alone3 : lanes_step Example.cfg [part] [Transfer.sy2] [Transfer.sy3].
Proof. apply lane_alone. unfold Transfer.sy3. apply run_consume_step. vm_compute. reflexivity. Qed.
Lemma alone4 : lanes_step Example.cfg [part] [Transfer.sy3] [Transfer.sy4].
Proof. apply lane_alone. unfold Transfer.sy4. apply run_result_step. vm_compute. reflexivity. Qed.
Lemma alone5 : lanes_step Example.cfg [part] [Transfer.sy4] [Transfer.sy5].
Proof. apply lane_alone. unfold Transfer.sy5. apply run_tail_step. vm_compute. reflexivity. Qed.

Lemma alone_parts : opposite Example.cfg Example.cfg [7; 8; 9] sents = [part].
Proof. reflexivity. Qed.

Lemma alone_received : receiver_at Example.cfg Example.cfg [7; 8; 9] (fun _ => Example.secret) (fun _ => 1) ([], true) sents sys.
Proof.
  unfold receiver_at. rewrite alone_parts.
  eapply rtc_l; [exact alone1 |]. eapply rtc_l; [exact alone2 |]. eapply rtc_l; [exact alone3 |]. eapply rtc_l; [exact alone4 |]. apply rtc_once. exact alone5.
Qed.

Lemma alone_args : send_args Example.cfg [7; 8; 9] 0 env (acked_by sys) true None.
Proof.
  split; [apply Example.wf | done | done | done |]. intros keys i Hk Hi. assert (i = 0%nat) as -> by (change (cf_lanes Example.cfg) with 1 in Hi; lia).
  injection Hk as <-. destruct Transfer.datagram_bytes as (_ & _ & Hb). split; [done | | | done | constructor].
  - repeat constructor; intros dg [= <-]; vm_compute; repeat constructor; discriminate.
  - intros dst cipher auth _. constructor; [constructor |]. constructor; [| constructor]. constructor; [| constructor].
    split; [exact Hb |]. split; [done |]. intros ack a _ _ Ea _. exists Transfer.sy5, (peer_example, Transfer.ack_dg).
    split; [reflexivity |]. split; [exact Transfer.acked | exact Ea].
Qed.

Lemma alone_sent : exists stats, send_impl Example.cfg (Some [7; 8; 9]) 3 0 true None env = Ok (Some (StOk, stats, sents)).
Proof. eexists. vm_compute. reflexivity. Qed.

Lemma alone_bytes : sumZ (fun s => lr_bytes (sn_result s)) sents = lenZ [7; 8; 9].
Proof. vm_compute. reflexivity. Qed.

Lemma alone_here : Transfer.sy5 ∈ sys.
Proof. apply list_elem_of_here. Qed.

End OneLane.


