(* ===== verification/MuxRecv.v ===== *)
(** * The receiving end of a multiplexed transfer

    Models the receiver of [src/src/proto/mux_transfer.cpp]: the state of a stream, the
    handling of a datagram, the service that acknowledges and requests blocks, and the
    end of the transfer.  Each handler runs under the mutex of its stream, so it is one
    atomic step; clock readings and the outcome of the allocation are arguments, and the
    datagrams handed to the socket are returned. *)

From S2P Require Import Prelude Wire Control Block Bits Window Receiver Setup Handshake Peer Returns Status RecvLane RecvSafety.

(** ** A stream *)

Record MuxRxData := mkMuxRxData {
  md_shard : bytes;
  md_written : Z;
  md_delivered : Z;
  md_final_seq : Z;
}.

Record MuxRxSession := mkMuxRxSession {
  ms_have_start : bool;
  ms_resource_limit : bool;
  ms_peer_nonce : Z;
  ms_shard_bytes : Z;
}.

Record MuxRxTimers := mkMuxRxTimers {
  mm_last_ack_delivered : Z;
  mm_rtt_est_ns : Z;
  mm_nack_sent_ns : Z;
  mm_last_ack_ns : Z;
}.

Record ReceiverStreamState := mkReceiverStreamState {
  mr_stream_id : Z;
  mr_rx : ReceiverStream;
  mr_data : MuxRxData;
  mr_session : MuxRxSession;
  mr_timers : MuxRxTimers;
  mr_done : bool;
  mr_last_progress_ns : Z;
}.

(** [UINT64_MAX] *)
Definition no_seq : Z := 2 ^ 64 - 1.

Definition new_rx_stream (id window_size now : Z) : ReceiverStreamState :=
  mkReceiverStreamState id (new_receiver id window_size true) (mkMuxRxData [] 0 0 no_seq) (mkMuxRxSession false false 0 0)
    (mkMuxRxTimers 0 0 0 0) false now.

(** [build_streams], at [now]. *)
Definition rx_build_streams (negotiated : SetupPayload) (now : Z) : list ReceiverStreamState :=
  (fun i => new_rx_stream (sg_stream_id (stream_at negotiated i)) (sg_window_size (stream_at negotiated i)) now) <$> seqZ 0 (sp_num_streams negotiated).

(** ** Datagrams *)

(** The largest vector of bytes. *)
Definition vector_max_size : Z := 2 ^ 63 - 1.

(** The branch of [StreamStart]; [alloc_ok] is whether there is memory for the shard. *)
Definition rx_on_start (s : ReceiverStreamState) (ss : StreamStart) (alloc_ok : bool) : ReceiverStreamState :=
  if ms_have_start (mr_session s) then s
  else if (vector_max_size <? ss_total_bytes ss) || negb alloc_ok then
    mkReceiverStreamState (mr_stream_id s) (mr_rx s) (mr_data s)
      (mkMuxRxSession false true (ms_peer_nonce (mr_session s)) (ms_shard_bytes (mr_session s))) (mr_timers s) true (mr_last_progress_ns s)
  else
    mkReceiverStreamState (mr_stream_id s) (mr_rx s)
      (mkMuxRxData (replicate (Z.to_nat (ss_total_bytes ss)) 0) (md_written (mr_data s)) (md_delivered (mr_data s)) (md_final_seq (mr_data s)))
      (mkMuxRxSession true (ms_resource_limit (mr_session s)) (ss_nonce ss) (ss_total_bytes ss)) (mr_timers s) (mr_done s) (mr_last_progress_ns s).

(** The round-trip estimate after a retransmission accepted at [now]. *)
Definition rx_sample (m : MuxRxTimers) (flags now : Z) : MuxRxTimers :=
  if negb (Z.land flags kFlagRetransmission =? 0) && negb (mm_nack_sent_ns m =? 0) then
    let est :=
      if mm_nack_sent_ns m <? now then
        let sample := now - mm_nack_sent_ns m in
        if mm_rtt_est_ns m =? 0 then sample else u64 (u64 (mm_rtt_est_ns m * 7) + sample) / 8
      else mm_rtt_est_ns m in
    mkMuxRxTimers (mm_last_ack_delivered m) est 0 (mm_last_ack_ns m)
  else m.

(** The copy of an accepted block: the shard and the bytes written. [Fault] is a read
    past the payload. *)
Definition rx_copy (d : MuxRxData) (hdr : BlockHeader) (payload : option bytes) : res (bytes * Z) :=
  match payload with
  | Some p =>
      if (bh_offset hdr <=? lenZ (md_shard d)) && (bh_payload_len hdr <=? lenZ (md_shard d) - bh_offset hdr) then
        if lenZ p <? bh_payload_len hdr then Fault
        else Ok (splice (md_shard d) (bh_offset hdr) (take (Z.to_nat (bh_payload_len hdr)) p), u64 (md_written d + bh_payload_len hdr))
      else Ok (md_shard d, md_written d)
  | None => Ok (md_shard d, md_written d)
  end.

Record RxClock := mkRxClock { rc_receive : Z; rc_sample : Z; rc_progress : Z }.

Definition mr_set_rx (s : ReceiverStreamState) (rx : ReceiverStream) : ReceiverStreamState :=
  mkReceiverStreamState (mr_stream_id s) rx (mr_data s) (mr_session s) (mr_timers s) (mr_done s) (mr_last_progress_ns s).

(** The branch of [Data]. *)
Definition rx_on_data (s : ReceiverStreamState) (d : DataDatagram) (c : RxClock) : res ReceiverStreamState :=
  let hdr := dd_hdr d in
  if negb (ms_have_start (mr_session s)) then Ok s
  else
    res_bind (on_receive (mr_rx s) (bh_seq_no hdr) (dd_send_time_ns d) (rc_receive c)) (fun '(rr, rx) =>
    let s := mr_set_rx s rx in
    match rr with
    | Accepted =>
        let m := rx_sample (mr_timers s) (bh_flags hdr) (rc_sample c) in
        res_bind (rx_copy (mr_data s) hdr (dd_payload d)) (fun '(shard, written) =>
        let final := if negb (Z.land (bh_flags hdr) kFlagLastBlock =? 0) then bh_seq_no hdr else md_final_seq (mr_data s) in
        Ok (mkReceiverStreamState (mr_stream_id s) rx (mkMuxRxData shard written (u64 (md_delivered (mr_data s) + 1)) final)
              (mr_session s) m (mr_done s) (rc_progress c)))
    | _ => Ok s
    end).

(** Runs a handler on the stream a message names; a stream that does not exist is
    ignored. *)
Definition on_stream {S : Type} (streams : list S) (id : Z) (f : S -> res S) : res (list S) :=
  match nthZ streams id with
  | Some s => res_bind (f s) (fun s => Ok (setZ streams id s))
  | None => Ok streams
  end.

Definition rx_dispatch_incoming (streams : list ReceiverStreamState) (dg : bytes) (alloc_ok : bool) (c : RxClock) : res (list ReceiverStreamState) :=
  try_decode (peek_msg_type dg) (fun type =>
    if type =? MsgType.code MsgType.StreamStart then
      try_decode (decode_stream_start dg default_stream_start) (fun ss =>
        on_stream streams (ss_stream_id ss) (fun s => Ok (rx_on_start s ss alloc_ok))) (Ok streams)
    else if negb (type =? MsgType.code MsgType.Data) then Ok streams
    else
      try_decode (decode_data_datagram dg) (fun d =>
        on_stream streams (bh_stream_id (dd_hdr d)) (fun s => rx_on_data s d c)) (Ok streams))
    (Ok streams).

(** ** Service *)

Definition mux_ack (s : ReceiverStreamState) : Ack :=
  let a := build_ack (mr_rx s) in
  mkAck (mr_stream_id s) (ack_base_seq_no a) (ack_received_bitmask a) (ack_echoed_send_time a) (ms_peer_nonce (mr_session s)) (ack_rwnd a).

(** [uint8_t ctl[kMaxAuxDatagramSize + 64]] *)
Definition ctl_buffer : bytes := replicate (Z.to_nat (kMaxAuxDatagramSize + 64)) 0.

(** What [if (n) sock_.send_to(ctl, n, peer_)] hands to the socket. *)
Definition mux_send (enc : bytes -> res (bytes * Z)) : res (list bytes) :=
  res_bind (enc ctl_buffer) (fun '(buf, n) => Ok (emitted buf n)).

Definition mr_set_timers (s : ReceiverStreamState) (m : MuxRxTimers) : ReceiverStreamState :=
  mkReceiverStreamState (mr_stream_id s) (mr_rx s) (mr_data s) (mr_session s) m (mr_done s) (mr_last_progress_ns s).

Definition rx_ack_due (s : ReceiverStreamState) (t : Z) : bool :=
  (8 <=? u64 (md_delivered (mr_data s) - mm_last_ack_delivered (mr_timers s))) || (u64 (mm_last_ack_ns (mr_timers s) + 200000) <? t).

Definition rx_maybe_ack (s : ReceiverStreamState) (t : Z) : res (ReceiverStreamState * list bytes * bool) :=
  if rx_ack_due s t then
    let m := mr_timers s in
    let s := mr_set_timers s (mkMuxRxTimers (md_delivered (mr_data s)) (mm_rtt_est_ns m) (mm_nack_sent_ns m) t) in
    res_bind (mux_send (encode_ack (mux_ack s))) (fun out => Ok (s, out, true))
  else Ok (s, [], false).

Definition rx_maybe_nack (s : ReceiverStreamState) (t : Z) : res (ReceiverStreamState * list bytes * bool) :=
  let m := mr_timers s in
  res_bind (collect_nacks (mr_rx s) t (reorder_ns (mm_rtt_est_ns m)) (renack_ns (mm_rtt_est_ns m)) default_nack) (fun '(rx, nack) =>
  let s := mr_set_rx s rx in
  if 0 <? nack_count nack then
    res_bind (mux_send (encode_nack (mkNack (mr_stream_id s) (nack_count nack) (nack_missing nack)))) (fun out =>
    Ok (mr_set_timers s (mkMuxRxTimers (mm_last_ack_delivered m) (mm_rtt_est_ns m) t (mm_last_ack_ns m)), out, true))
  else Ok (s, [], false)).

Definition rx_check_done (s : ReceiverStreamState) : ReceiverStreamState :=
  let final := md_final_seq (mr_data s) in
  if negb (final =? no_seq) && (final <? rs_base_seq_no (mr_rx s)) then
    mkReceiverStreamState (mr_stream_id s) (mr_rx s) (mr_data s) (mr_session s) (mr_timers s) true (mr_last_progress_ns s)
  else s.

(** [try_service_one], at [t]. *)
Definition rx_try_service_one (s : ReceiverStreamState) (t : Z) : res (ReceiverStreamState * list bytes * bool) :=
  if mr_done s || negb (ms_have_start (mr_session s)) then Ok (s, [], false)
  else
    res_bind (rx_maybe_ack s t) (fun '(s, out1, did1) =>
    res_bind (rx_maybe_nack s t) (fun '(s, out2, did2) =>
    Ok (rx_check_done s, out1 ++ out2, did1 || did2))).

(** ** The end of the transfer *)

Definition rx_all_done (streams : list ReceiverStreamState) : bool := forallb mr_done streams.

(** The longest a stream that is not done has been without progress at [t]; [last] is
    the progress clock the loop reads. *)
Definition worst_stall {S : Type} (done : S -> bool) (last : S -> Z) (streams : list S) (t : Z) : Z :=
  foldl (fun worst s => if done s then worst else if last s <? t then Z.max worst (t - last s) else worst) 0 streams.

(** One turn of the polling loop: whether it ends, and then whether it timed out. *)
Definition poll_turn {S : Type} (done : S -> bool) (last : S -> Z) (streams : list S) (t timeout_ms : Z) : option bool :=
  if forallb done streams then Some false
  else if u64 (timeout_ms * 1000000) <? worst_stall done last streams t then Some true
  else None.

(** The burst of Acks for a stream. *)
Definition rx_final_acks (s : ReceiverStreamState) : res (list bytes) :=
  if negb (ms_have_start (mr_session s)) || ms_resource_limit (mr_session s) then Ok []
  else res_bind (mux_send (encode_ack (mux_ack s))) (fun out => Ok (mjoin (replicate 6 out))).

Definition rx_result (timed_out : bool) (s : ReceiverStreamState) : TransferStatus :=
  if ms_resource_limit (mr_session s) then ResourceLimit
  else if ms_have_start (mr_session s) && (md_written (mr_data s) =? ms_shard_bytes (mr_session s)) then StOk
  else if timed_out then Timeout else Incomplete.

Definition worst_of (statuses : list TransferStatus) : TransferStatus :=
  foldl (fun st s => if severity st <? severity s then s else st) StOk statuses.

(** The status and [*out] with which [run] returns after the loop. *)
Definition rx_finish (streams : list ReceiverStreamState) (timed_out : bool) : TransferStatus * bytes :=
  let status := worst_of (rx_result timed_out <$> streams) in
  (status, if bool_decide (status = StOk) then mjoin ((fun s => md_shard (mr_data s)) <$> streams) else []).

(** ** What the handlers do *)

(** A decoder in a handler, its result named. *)
Lemma returns_decoded (M : Type) `{CodecLaws M} {A} (r : res M) dg (k : M -> res A) e Q :
  r = decode dg -> Forall is_u8 dg -> (forall m, r = Ok m -> wf_msg m -> returns (k m) Q) -> returns e Q -> returns (try_decode r k e) Q.
Proof.
  intros -> Hb Hk He. destruct (decode dg) as [| | m] eqn:E; cbn [try_decode]; [by apply decode_no_fault in E | done |].
  apply Hk; [done |]. by apply (decode_sound dg m Hb).
Qed.

Lemma rinv_base_u64 st acc : rinv st acc -> rs_base_seq_no st < 2 ^ 64.
Proof.
  intros [R _]. destruct (Z.lt_ge_cases (rs_base_seq_no st) (2 ^ 64)); [done |].
  assert (2 ^ 64 - 1 ∈ acc) as Hin by (apply (rr_below _ _ _ (rc_ring _ _ R)); lia). pose proof (rc_max _ _ R _ Hin). lia.
Qed.

(** [on_receive] while the window is far from the end of the sequence numbers. *)
Lemma on_receive_any st acc seq send now :
  rinv st acc -> is_u64 seq -> rs_base_seq_no st + 1024 < 2 ^ 64 -> is_u64 send -> is_u64 (rs_last_send_time st) ->
  let '(result, acc') := receive_spec (rs_window_size st) (rs_base_seq_no st) acc seq in
  exists st', on_receive st seq send now = Ok (result, st') /\ rinv st' acc' /\
    rs_window_size st' = rs_window_size st /\ is_u64 (rs_last_send_time st').
Proof.
  intros I Hs Hb Hsend Hlast. pose proof (rc_ws _ _ (proj1 I)). destruct (decide (seq = 2 ^ 64 - 1)) as [-> | Hne].
  - assert (2 ^ 64 - 1 ∉ acc) as Hout by (intros Hin%(rc_max _ _ (proj1 I)); lia). unfold receive_spec, on_receive.
    rewrite decide_False by done. destruct (Z.leb_spec (rs_window_size st) (2 ^ 64 - 1 - rs_base_seq_no st)); [| lia].
    destruct (Z.ltb_spec (2 ^ 64 - 1) (rs_base_seq_no st)); [lia |]. exists (count_overflow st). by split_and!; [| apply count_overflow_inv | |].
  - unfold is_u64 in Hs. pose proof (on_receive_correct st acc seq send now I ltac:(lia)) as HR. destruct (receive_spec _ _ _ _) as [r acc'].
    destruct HR as (st' & E & I' & E1 & _). exists st'. split_and!; try done. apply on_receive_fields in E as [_ [-> | ->]]; done.
Qed.

(** A stream that has accepted the blocks [acc], each of which [seen] allows. *)
Record rx_inv (seen : Z -> Prop) (s : ReceiverStreamState) (acc : gset Z) : Prop := {
  ri_rx : rinv (mr_rx s) acc;
  ri_acc : forall q, q ∈ acc -> seen q;
  ri_time : is_u64 (rs_last_send_time (mr_rx s));
  ri_id : is_u16 (mr_stream_id s);
  ri_nonce : is_u64 (ms_peer_nonce (mr_session s));
  ri_shard : if ms_have_start (mr_session s)
             then lenZ (md_shard (mr_data s)) = ms_shard_bytes (mr_session s) /\ 0 <= ms_shard_bytes (mr_session s) <= vector_max_size
             else acc = ∅ /\ mr_data s = mkMuxRxData [] 0 0 no_seq;
}.

Lemma rx_inv_mono (seen seen' : Z -> Prop) s acc : (forall q, seen q -> seen' q) -> rx_inv seen s acc -> rx_inv seen' s acc.
Proof. intros H []. split; try done. auto. Qed.

Lemma new_rx_stream_inv seen id window now : is_u16 id -> rx_inv seen (new_rx_stream id window now) ∅.
Proof. intros Hid. split; cbn; try done. apply new_receiver_inv. Qed.

Lemma rx_on_start_inv seen s acc ss alloc_ok :
  rx_inv seen s acc -> wf_msg ss -> rx_inv seen (rx_on_start s ss alloc_ok) acc.
Proof.
  intros I Hss. pose proof I as [H1 H2 H3 H4 H5 H6]. unfold rx_on_start. destruct (ms_have_start (mr_session s)) eqn:Eh; [done |].
  destruct H6 as [-> Ed]. unfold vector_max_size in *. destruct (Z.ltb_spec (2 ^ 63 - 1) (ss_total_bytes ss)); cbn [orb]; [split; cbn; auto |].
  destruct alloc_ok; [| split; cbn; auto]. destruct Hss as (_ & _ & _ & Ht & _ & Hn & _). unfold is_u64 in Ht. split; cbn; auto.
  rewrite lenZ_replicate. unfold vector_max_size. lia.
Qed.

(** What an accepted or refused block changes. *)
Definition rx_took (s s' : ReceiverStreamState) (acc acc' : gset Z) (d : DataDatagram) : Prop :=
  mr_stream_id s' = mr_stream_id s /\ mr_session s' = mr_session s /\ mr_done s' = mr_done s /\
  (acc' = acc /\ mr_data s' = mr_data s \/
   bh_seq_no (dd_hdr d) ∉ acc /\ acc' = {[bh_seq_no (dd_hdr d)]} ∪ acc /\
   exists shard written, rx_copy (mr_data s) (dd_hdr d) (dd_payload d) = Ok (shard, written) /\
     mr_data s' = mkMuxRxData shard written (u64 (md_delivered (mr_data s) + 1))
       (if negb (Z.land (bh_flags (dd_hdr d)) kFlagLastBlock =? 0) then bh_seq_no (dd_hdr d) else md_final_seq (mr_data s))).

Lemma rx_copy_total d hdr p :
  is_u64 (bh_offset hdr) -> wf_data (mkDataDatagram hdr 0 p) ->
  exists shard written, rx_copy d hdr p = Ok (shard, written) /\ lenZ shard = lenZ (md_shard d).
Proof.
  intros Ho (Hh & _ & Hp). cbn in Hp. unfold rx_copy. destruct p as [p |]; [| by eexists _, _].
  destruct (_ && _) eqn:E; [| by eexists _, _]. destruct Hp as [Hp El]. rewrite El, Z.ltb_irrefl. eexists _, _. split; [done |].
  unfold is_u64 in Ho. apply splice_length; [lia |]. rewrite lenZ_take; lia.
Qed.

Lemma rx_on_data_spec seen s acc d c :
  rx_inv seen s acc -> ms_have_start (mr_session s) = true -> wf_data d -> rs_base_seq_no (mr_rx s) + 1024 < 2 ^ 64 -> seen (bh_seq_no (dd_hdr d)) ->
  returns (rx_on_data s d c) (fun s' => exists acc', rx_inv seen s' acc' /\ rx_took s s' acc acc' d).
Proof.
  intros [H1 H2 H3 H4 H5 H6] Eh Hd Hb Hs. pose proof Hd as ((_ & Hq & _ & _ & Ho) & Ht & Hp). unfold rx_on_data. rewrite Eh in *. cbn [negb].
  pose proof (on_receive_any (mr_rx s) acc (bh_seq_no (dd_hdr d)) (dd_send_time_ns d) (rc_receive c) H1 Hq Hb Ht H3) as HR.
  destruct (receive_spec _ _ _ _) as [r acc'] eqn:Es. destruct HR as (st' & -> & I' & _ & T'). cbn [res_bind].
  assert (r <> Accepted -> returns (Ok (mr_set_rx s st')) (fun s' => exists acc', rx_inv seen s' acc' /\ rx_took s s' acc acc' d)) as Hquiet.
  { intros Hr. apply returns_ok. exists acc. assert (acc' = acc) as -> by (unfold receive_spec in Es; destruct (decide _); [by injection Es as <- <- |]; destruct (_ <=? _); by injection Es as <- <-).
    split; [split; cbn; try done; by rewrite Eh |]. by split_and!; [.. | left]. }
  destruct r; [| by apply Hquiet ..]. clear Hquiet.
  assert (bh_seq_no (dd_hdr d) ∉ acc /\ acc' = {[bh_seq_no (dd_hdr d)]} ∪ acc) as [Hn ->].
  { unfold receive_spec in Es. destruct (decide _); [done |]. destruct (_ <=? _); [done |]. by injection Es as <-. }
  destruct (rx_copy_total (mr_data s) (dd_hdr d) (dd_payload d) Ho) as (shard & written & E & El); [by split_and!; try apply Hd |].
  cbn [mr_set_rx mr_data]. rewrite E. cbn [res_bind]. apply returns_ok. eexists. split; [split; cbn; try done |].
  - intros q [->%elem_of_singleton | Hin]%elem_of_union; auto.
  - rewrite Eh, El. done.
  - split_and!; try done. right. split_and!; [done | done |]. by exists shard, written.
Qed.

(** ** Service *)

Lemma encode_emitted (M : Type) `{CodecLaws M} (m : M) out :
  wf_msg m -> returns (encode m out) (fun '(buf, n) => emitted buf n = [] \/ emitted buf n = [wire m]).
Proof.
  intros Hm. destruct (Z.le_gt_cases (lenZ (wire m)) (lenZ out)) as [Hle | Hgt].
  - rewrite encode_wire by done. apply returns_ok. unfold emitted. destruct (_ =? 0); [by left |]. right. by rewrite take_all_lenZ.
  - rewrite encode_too_small by done. apply returns_ok. by left.
Qed.

Lemma mux_send_wire (M : Type) `{CodecLaws M} (m : M) : wf_msg m -> returns (mux_send (encode m)) (fun out => out = [] \/ out = [wire m]).
Proof. intros Hm. unfold mux_send. eapply returns_bind; [by apply (encode_emitted M m ctl_buffer) |]. intros [buf n] Ho. by apply returns_ok. Qed.

(** What the receiver of stream [id] may say about the blocks [acc] it has. *)
Definition rx_says (id nonce : Z) (acc : gset Z) (dg : bytes) : Prop :=
  forall a, decode_ack dg = Ok a -> ack_stream_id a = id /\ ack_nonce a = nonce /\ forall q, claims a q -> q ∈ acc.

Lemma rx_says_mono id nonce acc acc' dg : acc ⊆ acc' -> rx_says id nonce acc dg -> rx_says id nonce acc' dg.
Proof. intros Hs H a E. destruct (H a E) as (? & ? & Hc). split_and!; try done. intros q Hq. by apply Hs, Hc. Qed.

(** The Ack a receiver builds, restamped with the stream and nonce of its session. *)
Lemma stamped_ack_wf st acc id nonce :
  rinv st acc -> is_u64 (rs_last_send_time st) -> is_u16 id -> is_u64 nonce ->
  wf_msg (mkAck id (ack_base_seq_no (build_ack st)) (ack_received_bitmask (build_ack st)) (ack_echoed_send_time (build_ack st)) nonce (ack_rwnd (build_ack st))).
Proof.
  intros H1 H3 H4 H5.
  destruct (build_ack_wf (mkReceiverStream 0 (rs_window_size st) (rs_lossless st) (rs_base_seq_no st) (rs_ring st)
    (rs_highest_received st) (rs_have_any st) (rs_last_send_time st) (rs_window_overflow_count st) (rs_first_missing_ns st) (rs_last_nack_ns st)) acc)
    as (_ & E2 & E3 & E4 & E5 & _ & E6).
  - destruct (proj1 H1). by split.
  - done.
  - cbn. split; [apply (rr_base _ _ _ (rc_ring _ _ (proj1 H1))) | by eapply rinv_base_u64].
  - done.
  - by split_and!.
Qed.

Lemma mux_ack_said seen s acc :
  rx_inv seen s acc -> wf_msg (mux_ack s) /\ rx_says (mr_stream_id s) (ms_peer_nonce (mr_session s)) acc (wire (mux_ack s)).
Proof.
  intros [H1 H2 H3 H4 H5 H6]. assert (wf_msg (mux_ack s)) as Hw by (by eapply stamped_ack_wf).
  split; [done |]. intros a E. assert (a = mux_ack s) as ->.
  { pose proof (decode_wire (M := Ack) (mux_ack s) [] Hw) as E'. rewrite app_nil_r in E'. cbn [decode ack_codec] in E'. rewrite E in E'. by apply Ok_inj in E'. }
  split_and!; try done. destruct H1 as [R _]. intros q [Hlt | [Hr Hbit]]; [by apply (rr_below _ _ _ (rc_ring _ _ R)) |]. change kMaxWindow with 1024 in Hr.
  change (ack_bit (mux_ack s)) with (ack_bit (build_ack (mr_rx s))) in Hbit. rewrite (build_ack_bit _ acc) in Hbit by done.
  apply bool_decide_eq_true in Hbit. by replace (_ + _) with q in Hbit by (cbn; lia).
Qed.

Lemma due_gap_u64 st acc now delay interval q : rinv st acc -> q ∈ due_gaps st acc now delay interval -> is_u64 q.
Proof.
  intros [R _] Hq. unfold due_gaps in Hq. pose proof (rr_base _ _ _ (rc_ring _ _ R)). pose proof (rc_high _ _ R) as Hh.
  destruct (rs_lossless st && rs_have_any st) eqn:E; [| by apply elem_of_nil in Hq]. apply andb_true_iff in E as [_ E]. rewrite E in Hh.
  apply list_elem_of_filter in Hq as [_ Hq%elem_of_gaps]. pose proof (rc_max _ _ R _ (proj1 Hh)). unfold is_u64. lia.
Qed.

(** What [collect_nacks] leaves of the window, and that its Nack can be sent. *)
Lemma collected_nack st acc t delay interval id :
  rinv st acc -> is_u16 id ->
  exists rx nack, collect_nacks st t delay interval default_nack = Ok (rx, nack) /\ rinv rx acc /\
    rx = set_last_nack st (rs_last_nack_ns rx) /\ wf_msg (mkNack id (nack_count nack) (nack_missing nack)).
Proof.
  intros H1 Hid. destruct (collect_nacks_correct st acc t delay interval default_nack H1) as (rx & nack & E & Sc); [done |].
  pose proof Sc as (_ & E2 & E3 & E4 & E5 & E6 & [Er _] & I'). exists rx, nack. do 3 (split; [done |]). split_and!; cbn; try done; [rewrite E2; apply lenZ_nonneg |].
  rewrite <- (take_drop (Z.to_nat (nack_count nack)) (nack_missing nack)). apply Forall_app. split.
  - rewrite E5. apply list.Forall_forall. intros q Hq. eapply due_gap_u64; [exact H1 | exact Hq].
  - rewrite E6. apply Forall_drop, Forall_replicate. unfold is_u64. lia.
Qed.

(** A Nack says nothing about what has arrived. *)
Lemma nack_said (m : Nack) id nonce acc : wf_msg m -> rx_says id nonce acc (wire m).
Proof.
  intros Hm a E. exfalso. pose proof (wire_peeks (M := Nack) m [] Hm) as Ep. rewrite app_nil_r in Ep.
  rewrite (decoder_peeks (wire m) MsgType.Ack (exists a, decode_ack (wire m) = Ok a)) in Ep; [done | by do 3 right; left | by exists a].
Qed.

Definition rx_served (seen : Z -> Prop) (acc : gset Z) (s s' : ReceiverStreamState) (out : list bytes) : Prop :=
  rx_inv seen s' acc /\ mr_stream_id s' = mr_stream_id s /\ mr_session s' = mr_session s /\ mr_data s' = mr_data s /\
  Forall (rx_says (mr_stream_id s) (ms_peer_nonce (mr_session s)) acc) out /\
  (mr_done s' = true -> mr_done s = true \/
     md_final_seq (mr_data s) <> no_seq /\ forall q, 0 <= q <= md_final_seq (mr_data s) -> q ∈ acc) /\
  (mr_done s = true -> mr_done s' = true).

Lemma rx_served_trans seen acc s1 s2 s3 out1 out2 :
  rx_served seen acc s1 s2 out1 -> rx_served seen acc s2 s3 out2 -> rx_served seen acc s1 s3 (out1 ++ out2).
Proof.
  intros (_ & A1 & A2 & A3 & A4 & A5 & A6) (B0 & B1 & B2 & B3 & B4 & B5 & B6). rewrite A1, A2, A3 in *. split_and!; try done; [by apply Forall_app | | auto].
  intros [H | H]%B5; [by apply A5 | by right].
Qed.

Lemma rx_maybe_ack_spec seen s acc t :
  rx_inv seen s acc -> returns (rx_maybe_ack s t) (fun '(s', out, _) => rx_served seen acc s s' out).
Proof.
  intros I. unfold rx_maybe_ack. destruct (rx_ack_due s t); [| apply returns_ok; split_and!; auto].
  set (s1 := mr_set_timers s _). assert (rx_inv seen s1 acc) as I1 by (destruct I; by split). destruct (mux_ack_said _ _ _ I1) as [Hw Hs].
  eapply returns_bind; [exact (mux_send_wire Ack _ Hw) |]. intros out Ho. apply returns_ok. split_and!; try done; [| auto].
  destruct Ho as [-> | ->]; [done |]. by constructor.
Qed.

Lemma rx_maybe_nack_spec seen s acc t :
  rx_inv seen s acc -> returns (rx_maybe_nack s t) (fun '(s', out, _) => rx_served seen acc s s' out).
Proof.
  intros I. pose proof I as [H1 H2 H3 H4 H5 H6]. unfold rx_maybe_nack. set (m := mr_timers s).
  destruct (collected_nack (mr_rx s) acc t (reorder_ns (mm_rtt_est_ns m)) (renack_ns (mm_rtt_est_ns m)) (mr_stream_id s) H1 H4) as (rx & nack & -> & I' & Er & Hwf).
  cbn [res_bind]. assert (rx_inv seen (mr_set_rx s rx) acc) as I1 by (split; cbn; try done; by rewrite Er).
  destruct (_ <? _); [| apply returns_ok; split_and!; auto].
  eapply returns_bind; [exact (mux_send_wire Nack _ Hwf) |]. intros out Ho. apply returns_ok. split_and!; try done; [by destruct I1; split | | auto].
  destruct Ho as [-> | ->]; [done |]. constructor; [| done]. by apply nack_said.
Qed.

Lemma rx_check_done_spec seen s acc : rx_inv seen s acc -> rx_served seen acc s (rx_check_done s) [].
Proof.
  intros I. unfold rx_check_done. destruct (_ && _) eqn:E; [| by split_and!; auto]. pose proof I as [H1 H2 H3 H4 H5 H6].
  split_and!; try done. intros _. right. split; [lia |]. intros q Hq. apply (rr_below _ _ _ (rc_ring _ _ (proj1 H1))). lia.
Qed.

Lemma rx_try_service_one_spec seen s acc t :
  rx_inv seen s acc -> returns (rx_try_service_one s t) (fun '(s', out, _) => rx_served seen acc s s' out).
Proof.
  intros I. unfold rx_try_service_one. destruct (_ || _); [apply returns_ok; split_and!; auto |].
  eapply returns_bind; [by apply rx_maybe_ack_spec |]. intros [[s1 out1] did1] V1. eapply returns_bind; [apply rx_maybe_nack_spec, V1 |].
  intros [[s2 out2] did2] V2. apply returns_ok. rewrite <- (app_nil_r out2). eapply rx_served_trans; [exact V1 |].
  eapply rx_served_trans; [exact V2 |]. apply rx_check_done_spec, V2.
Qed.

Lemma rx_final_acks_spec seen s acc :
  rx_inv seen s acc -> returns (rx_final_acks s) (Forall (rx_says (mr_stream_id s) (ms_peer_nonce (mr_session s)) acc)).
Proof.
  intros I. unfold rx_final_acks. destruct (_ || _); [by apply returns_ok |]. destruct (mux_ack_said _ _ _ I) as [Hw Hs].
  eapply returns_bind; [exact (mux_send_wire Ack _ Hw) |]. intros out Ho. apply returns_ok.
  assert (Forall (rx_says (mr_stream_id s) (ms_peer_nonce (mr_session s)) acc) out) as Hf by (destruct Ho as [-> | ->]; [done | by constructor]).
  change (mjoin (replicate 6 out)) with (out ++ out ++ out ++ out ++ out ++ out ++ []). by repeat (apply Forall_app; split).
Qed.

(** ** Any datagrams at all *)

Inductive rx_event :=
| RxDatagram (dg : bytes) (alloc_ok : bool) (c : RxClock)
| RxService (i t : Z).

(** The workers' steps, in the order the streams' mutexes put them. *)
Definition rx_step (streams : list ReceiverStreamState) (e : rx_event) : res (list ReceiverStreamState * list bytes) :=
  match e with
  | RxDatagram dg alloc_ok c => res_bind (rx_dispatch_incoming streams dg alloc_ok c) (fun streams => Ok (streams, []))
  | RxService i t =>
      match nthZ streams i with
      | Some s => res_bind (rx_try_service_one s t) (fun '(s, out, _) => Ok (setZ streams i s, out))
      | None => Ok (streams, [])
      end
  end.

Fixpoint rx_run (streams : list ReceiverStreamState) (evs : list rx_event) : res (list ReceiverStreamState * list bytes) :=
  match evs with
  | [] => Ok (streams, [])
  | e :: evs =>
      res_bind (rx_step streams e) (fun '(streams, out) =>
      res_bind (rx_run streams evs) (fun '(streams, outs) => Ok (streams, out ++ outs)))
  end.

(** Block [q] of stream [id] is among the datagrams [hist]. *)
Definition arrived (hist : list bytes) (id q : Z) : Prop :=
  exists dg d, dg ∈ hist /\ decode_data_datagram dg = Ok d /\ bh_stream_id (dd_hdr d) = id /\ bh_seq_no (dd_hdr d) = q.

Definition event_dg (e : rx_event) : list bytes := match e with RxDatagram dg _ _ => [dg] | RxService _ _ => [] end.

Lemma arrived_mono h1 h2 id q : h1 ⊆ h2 -> arrived h1 id q -> arrived h2 id q.
Proof. intros Hs (dg & d & Hin & H). exists dg, d. by split; [apply Hs |]. Qed.

(** The base has counted up over accepted blocks. *)
Lemma rinv_base_size st acc : rinv st acc -> rs_base_seq_no st <= Z.of_nat (size acc).
Proof.
  intros [R _]. pose proof (rr_base _ _ _ (rc_ring _ _ R)).
  assert (list_to_set (seqZ 0 (rs_base_seq_no st)) ⊆ acc) as Hs by (intros q Hq; apply (rr_below _ _ _ (rc_ring _ _ R)); set_solver by lia).
  apply subseteq_size in Hs. rewrite size_list_to_set in Hs by apply NoDup_seqZ. rewrite length_seqZ in Hs. lia.
Qed.

(** After the datagrams [hist], of which each stream has accepted at most as many as
    there were. *)
Definition rx_streams_inv (hist : list bytes) (streams : list ReceiverStreamState) : Prop :=
  forall i s, streams !! i = Some s -> mr_stream_id s = Z.of_nat i /\
    exists acc, rx_inv (arrived hist (Z.of_nat i)) s acc /\ (size acc <= length hist)%nat.

Lemma rx_streams_mono hist dg streams : rx_streams_inv hist streams -> rx_streams_inv (hist ++ [dg]) streams.
Proof.
  intros I i s E. destruct (I i s E) as (Hi & acc & J & Hs). split; [done |]. exists acc. split; [| rewrite length_app; lia].
  eapply rx_inv_mono; [| exact J]. intros q. apply arrived_mono. set_solver.
Qed.

(** A handler that keeps the invariant of the stream it runs on keeps that of all. *)
Lemma on_stream_inv hist dg streams id f :
  rx_streams_inv hist streams ->
  (forall s acc, mr_stream_id s = id -> rx_inv (arrived (hist ++ [dg]) id) s acc -> (size acc <= length hist)%nat ->
     returns (f s) (fun s' => mr_stream_id s' = id /\ exists acc', rx_inv (arrived (hist ++ [dg]) id) s' acc' /\ (size acc' <= S (length hist))%nat)) ->
  returns (on_stream streams id f) (fun streams' => rx_streams_inv (hist ++ [dg]) streams' /\ length streams' = length streams).
Proof.
  intros I Hf. unfold on_stream. destruct (nthZ streams id) as [s |] eqn:E; [| apply returns_ok; by split; [apply rx_streams_mono |]].
  apply nthZ_inv in E as [Hr E]. destruct (I _ _ E) as (Hi & acc & J & Hs). rewrite Z2Nat.id in * by lia.
  assert (rx_inv (arrived (hist ++ [dg]) id) s acc) as J1 by (eapply rx_inv_mono; [| exact J]; intros q; apply arrived_mono; set_solver).
  eapply returns_bind; [exact (Hf s acc Hi J1 Hs) |]. intros s' (Hi' & acc' & J' & Hs'). apply returns_ok. split; [| unfold setZ; apply length_insert].
  intros k x Ek. unfold setZ in Ek. apply list_lookup_insert_Some in Ek as [(<- & <- & _) | [Hne Ek]].
  - rewrite Z2Nat.id by lia. split; [done |]. exists acc'. rewrite length_app. split; [done | cbn; lia].
  - exact (rx_streams_mono hist dg streams I k x Ek).
Qed.

Lemma rx_dispatch_inv hist streams dg alloc_ok c :
  rx_streams_inv hist streams -> Forall is_u8 dg -> Z.of_nat (length hist) < 2 ^ 63 ->
  returns (rx_dispatch_incoming streams dg alloc_ok c) (fun streams' => rx_streams_inv (hist ++ [dg]) streams' /\ length streams' = length streams).
Proof.
  intros I Hb Hn. assert (returns (Ok streams) (fun streams' => rx_streams_inv (hist ++ [dg]) streams' /\ length streams' = length streams)) as Hskip
    by (apply returns_ok; by split; [apply rx_streams_mono |]).
  unfold rx_dispatch_incoming. destruct (peek_msg_type dg) as [| | type] eqn:Ep; cbn [try_decode]; [by apply peek_total in Ep | done |].
  destruct (type =? _); [| destruct (negb _); [done |]].
  - apply (returns_decoded StreamStart _ dg); [done | done | | done]. intros ss _ Hss. apply on_stream_inv; [done |]. intros s acc Hi J Hs. apply returns_ok.
    split; [unfold rx_on_start; destruct (ms_have_start _); [done |]; by destruct (_ || _) |]. exists acc. split; [by apply rx_on_start_inv | lia].
  - apply (returns_decoded DataDatagram _ dg); [done | done | | done]. intros d Ed Hd. apply on_stream_inv; [done |]. intros s acc Hi J Hs.
    destruct (ms_have_start (mr_session s)) eqn:Eh; [| unfold rx_on_data; rewrite Eh; apply returns_ok; split; [done |]; exists acc; split; [done | lia]].
    destruct (rx_on_data_spec _ s acc d c J Eh Hd) as (s' & E & acc' & J' & T).
    + pose proof (rinv_base_size _ _ (ri_rx _ _ _ J)). lia.
    + exists dg, d. split_and!; try done. set_solver.
    + exists s'. split; [done |]. destruct T as (Ei & _ & _ & T). split; [congruence |]. exists acc'. split; [done |].
      destruct T as [[-> _] | (_ & -> & _)]; [lia |]. rewrite size_union_alt, size_singleton.
      pose proof (subseteq_size (acc ∖ {[bh_seq_no (dd_hdr d)]}) acc ltac:(set_solver)). lia.
Qed.

Lemma rx_step_inv hist streams e :
  rx_streams_inv hist streams -> Forall (Forall is_u8) (event_dg e) -> Z.of_nat (length hist) < 2 ^ 63 ->
  returns (rx_step streams e) (fun '(streams', out) => rx_streams_inv (hist ++ event_dg e) streams' /\ length streams' = length streams /\
    forall dg a q, dg ∈ out -> decode_ack dg = Ok a -> claims a q -> arrived hist (ack_stream_id a) q).
Proof.
  intros I Hb Hn. destruct e as [dg alloc_ok c | i t]; cbn [rx_step event_dg] in *.
  - apply Forall_cons_1 in Hb as [Hb _]. eapply returns_bind; [by apply rx_dispatch_inv |]. intros streams' [I' El]. apply returns_ok. split_and!; try done. by intros ? ? ? ?%elem_of_nil.
  - rewrite app_nil_r. destruct (nthZ streams i) as [s |] eqn:E; [| apply returns_ok; split_and!; try done; by intros ? ? ? ?%elem_of_nil].
    apply nthZ_inv in E as [Hr E]. destruct (I _ _ E) as (Hi & acc & J & Hs). rewrite Z2Nat.id in * by lia.
    eapply returns_bind; [exact (rx_try_service_one_spec _ s acc t J) |]. intros [[s' out] did] (J' & Ei & _ & _ & Ho & _ & _). apply returns_ok.
    split_and!; [| unfold setZ; apply length_insert |].
    + intros k x Ek. unfold setZ in Ek. apply list_lookup_insert_Some in Ek as [(<- & <- & _) | [_ Ek]]; [| by apply I].
      rewrite Z2Nat.id by lia. split; [congruence |]. by exists acc.
    + intros dg a q Hin Ea Hc. destruct (proj1 (list.Forall_forall _ _) Ho dg Hin a Ea) as (-> & _ & Hq). rewrite Hi. by apply (ri_acc _ _ _ J), Hq.
Qed.

Lemma rx_run_inv evs : forall hist streams,
  rx_streams_inv hist streams -> Forall (Forall is_u8) (mjoin (event_dg <$> evs)) -> Z.of_nat (length hist + length evs) < 2 ^ 63 ->
  returns (rx_run streams evs) (fun '(streams', outs) => rx_streams_inv (hist ++ mjoin (event_dg <$> evs)) streams' /\ length streams' = length streams /\
    forall dg a q, dg ∈ outs -> decode_ack dg = Ok a -> claims a q -> arrived (hist ++ mjoin (event_dg <$> evs)) (ack_stream_id a) q).
Proof.
  induction evs as [| e evs IH]; intros hist streams I Hb Hn; cbn [rx_run].
  { apply returns_ok. rewrite app_nil_r. split_and!; try done. by intros ? ? ? ?%elem_of_nil. }
  change (mjoin (event_dg <$> e :: evs)) with (event_dg e ++ mjoin (event_dg <$> evs)) in *. apply Forall_app in Hb as [Hb1 Hb2]. cbn [length] in Hn.
  eapply returns_bind; [apply (rx_step_inv hist); [done | done | lia] |]. intros [streams1 out1] (I1 & El & Ho1).
  assert (length (event_dg e) <= 1)%nat by (destruct e; cbn; lia).
  eapply returns_bind; [apply (IH (hist ++ event_dg e)); [done | done | rewrite length_app; lia] |]. intros [streams2 outs] (I2 & El2 & Ho2). apply returns_ok.
  rewrite <- app_assoc in I2, Ho2. split_and!; [done | congruence |]. intros dg a q [Hin | Hin]%elem_of_app Ea Hc; [| by eapply Ho2].
  eapply arrived_mono; [| by eapply Ho1]. set_solver.
Qed.

Lemma rx_build_streams_inv negotiated now :
  0 <= sp_num_streams negotiated <= kMaxStreams -> (forall i, 0 <= i < sp_num_streams negotiated -> sg_stream_id (stream_at negotiated i) = i) ->
  rx_streams_inv [] (rx_build_streams negotiated now).
Proof.
  intros Hn Hid i s E. unfold rx_build_streams in E. rewrite list_lookup_fmap in E. apply fmap_Some in E as (x & Ex & ->).
  apply lookup_seqZ in Ex as [-> Hi]. unfold kMaxStreams in Hn. rewrite Hid by lia. split; [done |]. exists ∅. split; [| by rewrite size_empty].
  apply new_rx_stream_inv. unfold is_u16. lia.
Qed.

(** The receiver on any datagrams, from streams numbered from 0. *)
Lemma rx_run_total streams0 evs :
  rx_streams_inv [] streams0 -> Forall (Forall is_u8) (mjoin (event_dg <$> evs)) -> Z.of_nat (length evs) < 2 ^ 63 ->
  exists streams outs, rx_run streams0 evs = Ok (streams, outs) /\ length streams = length streams0 /\
    (forall s, s ∈ streams -> ms_have_start (mr_session s) = true -> lenZ (md_shard (mr_data s)) = ms_shard_bytes (mr_session s)) /\
    (forall dg a q, dg ∈ outs -> decode_ack dg = Ok a -> claims a q -> arrived (mjoin (event_dg <$> evs)) (ack_stream_id a) q).
Proof.
  intros I Hb Hl. destruct (rx_run_inv evs [] _ I Hb Hl) as ([streams outs] & E & I' & El & Ho). exists streams, outs. split; [done |].
  split; [done |]. split; [| exact Ho].
  intros s [i Ei]%list_elem_of_lookup Eh. destruct (I' _ _ Ei) as (_ & acc & J & _). pose proof (ri_shard _ _ _ J) as Hs. rewrite Eh in Hs. apply Hs.
Qed.
