(* ===== verification/MuxSend.v ===== *)
(** * The sending end of a multiplexed transfer

    Models the sender of [src/src/proto/mux_transfer.cpp]: the state of a stream, one
    attempt to send on it, the handling of Acks and Nacks, and the end of the transfer.
    Each handler runs under the mutex of its stream, so it is one atomic step; clock
    readings and what the socket says are arguments, and the datagrams handed to the
    socket are returned.

    [std::clamp] with its bounds crossed is undefined and modelled as [Fault]. *)

From S2P Require Import Prelude Wire Control Block Bits Window Receiver Registry Setup Handshake Congestion SendQueue Peer Returns Status RecvLane RecvSafety MuxRecv.

(** ** A stream *)

(** The constants of a stream; the shard is the part of the caller's buffer it sends. *)
Record MuxTxSession := mkMuxTxSession {
  mx_stream_id : Z;
  mx_block_size : Z;
  mx_window_size : Z;
  mx_shard : bytes;
  mx_nonce : Z;
  mx_clock_offset : Z;
}.

Record MuxTxBlocks := mkMuxTxBlocks {
  mb_reg : SenderRegistry;
  mb_backlog : SendQueue;
  mb_queued : list Z;
  mb_base : Z;
  mb_next_seq : Z;
  mb_next_offset : Z;
  mb_sent_last : bool;
  mb_received_end : Z;
}.

Record MuxTxTimers := mkMuxTxTimers {
  mt_start_acked : bool;
  mt_last_start_send_ns : Z;
  mt_last_progress_ns : Z;
  mt_last_rtt_echo_ns : Z;
  mt_retransmit_count : Z;
  mt_last_real_progress_ns : Z;
}.

Record SenderStreamState := mkSenderStreamState {
  mt_session : MuxTxSession;
  mt_blocks : MuxTxBlocks;
  mt_cc : CongestionController;
  mt_timers : MuxTxTimers;
  mt_done : bool;
}.

Definition new_tx_stream (x : MuxTxSession) (now : Z) : SenderStreamState :=
  let w := mx_window_size x in
  mkSenderStreamState x
    (mkMuxTxBlocks (new_registry (mx_stream_id x) w) (new_send_queue w false) (replicate (Z.to_nat (if w =? 0 then 1 else w)) no_seq) 0 0 0 false 0)
    (enable_slow_start (new_controller w true 1 16) 16)
    (mkMuxTxTimers false 0 now 0 0 now) false.

(** The fields the modelled code reads. *)
Record MuxTransferConfig := mkMuxTransferConfig {
  mc_port : Z;
  mc_num_streams : Z;
  mc_block_size : Z;
  mc_window_size : Z;
  mc_timeout_ms : Z;
}.

(** The shards: where stream [i] of [n] begins and how long it is. *)
Definition mux_shard (n len : Z) : Z := u64 (u64 (len + n) - 1) / (if n =? 0 then 1 else n).
Definition mux_shard_off (n len i : Z) : Z := Z.min (u64 (i * mux_shard n len)) len.
Definition mux_shard_len (n len i : Z) : Z := Z.min (mux_shard n len) (u64 (len - mux_shard_off n len i)).

(** The configuration the sender offers in [run_setup_handshake]. *)
Definition mux_payload (cfg : MuxTransferConfig) : SetupPayload :=
  let n := mc_num_streams cfg in
  mkSetupPayload kProtocolVersion 1 n
    (((fun i => mkStreamConfig i 0 kStreamFlagLossless (mc_block_size cfg) (mc_window_size cfg)) <$> seqZ 0 n) ++
     replicate (Z.to_nat (kMaxStreams - n)) default_stream_config)
    (sp_ext_len default_setup_payload) (sp_ext default_setup_payload).

(** [build_streams]; [rnd i] are the nonce and the clock offset of stream [i]. *)
Definition mux_session (cfg : MuxTransferConfig) (data : bytes) (rnd : Z -> Z * Z) (i : nat) : MuxTxSession :=
  let n := mc_num_streams cfg in
  let off := mux_shard_off n (lenZ data) (Z.of_nat i) in
  mkMuxTxSession (Z.of_nat i) (mc_block_size cfg) (mc_window_size cfg) (slice data off (mux_shard_len n (lenZ data) (Z.of_nat i)))
    (fst (rnd (Z.of_nat i))) (snd (rnd (Z.of_nat i))).

Definition tx_build_streams (cfg : MuxTransferConfig) (data : bytes) (rnd : Z -> Z * Z) (now : Z) : list SenderStreamState :=
  (fun i => new_tx_stream (mux_session cfg data rnd i) now) <$> seq 0 (Z.to_nat (mc_num_streams cfg)).

Definition mt_set_blocks (s : SenderStreamState) (b : MuxTxBlocks) : SenderStreamState :=
  mkSenderStreamState (mt_session s) b (mt_cc s) (mt_timers s) (mt_done s).
Definition mt_set_cc (s : SenderStreamState) (cc : CongestionController) : SenderStreamState :=
  mkSenderStreamState (mt_session s) (mt_blocks s) cc (mt_timers s) (mt_done s).
Definition mt_set_timers (s : SenderStreamState) (m : MuxTxTimers) : SenderStreamState :=
  mkSenderStreamState (mt_session s) (mt_blocks s) (mt_cc s) m (mt_done s).

(** ** Sending *)

Definition mux_out : bytes := replicate (Z.to_nat kMaxDatagramSize) 0.

(** [now_ns() + s.clock_offset] *)
Definition mux_wire_time (s : SenderStreamState) (t : Z) : Z := u64 (t + mx_clock_offset (mt_session s)).

Definition mt_count_retransmit (s : SenderStreamState) : SenderStreamState :=
  let m := mt_timers s in
  mt_set_timers s (mkMuxTxTimers (mt_start_acked m) (mt_last_start_send_ns m) (mt_last_progress_ns m) (mt_last_rtt_echo_ns m)
    (u64 (mt_retransmit_count m + 1)) (mt_last_real_progress_ns m)).

(** [resend]: the clock reading and what the socket says. *)
Definition mux_resend (s : SenderStreamState) (seq : Z) (o : Z * bool) : res (SenderStreamState * list bytes * bool) :=
  match lookup (mb_reg (mt_blocks s)) seq with
  | None => Ok (s, [], false)
  | Some sl =>
      let hdr := mkBlockHeader (mx_stream_id (mt_session s)) seq (Z.lor (sl_flags sl) kFlagRetransmission) (sl_payload_len sl) (sl_offset sl) in
      res_bind (encode_data_datagram hdr (mux_wire_time s (fst o)) (Some (sl_payload sl)) mux_out) (fun '(buf, n) =>
      if n =? 0 then Ok (s, [], false)
      else if negb (snd o) then Ok (s, emitted buf n, false)
      else Ok (mt_count_retransmit s, emitted buf n, true))
  end.

Definition kStreamStartRtoNs : Z := 50000000.

Definition mux_stream_start (s : SenderStreamState) : StreamStart :=
  let x := mt_session s in
  mkStreamStart (mx_stream_id x) 0 (mx_block_size x) (lenZ (mx_shard x)) (ss_session_salt default_stream_start) (mx_nonce x)
    (ss_stream_base_offset default_stream_start) (ss_file_total_bytes default_stream_start) (ss_file_id default_stream_start)
    (ss_token default_stream_start) (ss_ext_len default_stream_start) (ss_ext default_stream_start).

(** The branch before the first Ack. *)
Definition send_start (s : SenderStreamState) (t : Z) : res (SenderStreamState * list bytes * bool) :=
  let m := mt_timers s in
  if negb (mt_last_start_send_ns m =? 0) && (t <? u64 (mt_last_start_send_ns m + kStreamStartRtoNs)) then Ok (s, [], false)
  else
    res_bind (encode_stream_start (mux_stream_start s) ctl_buffer) (fun '(buf, n) =>
    if n =? 0 then Ok (s, [], false)
    else Ok (mt_set_timers s (mkMuxTxTimers (mt_start_acked m) t (mt_last_progress_ns m) (mt_last_rtt_echo_ns m) (mt_retransmit_count m) (mt_last_real_progress_ns m)),
             emitted buf n, true)).

(** [queued[seq % queued.size()]]; [Fault] is outside the vector. *)
Definition queued_mark (b : MuxTxBlocks) (seq : Z) : res Z :=
  match nthZ (mb_queued b) (seq mod lenZ (mb_queued b)) with Some v => Ok v | None => Fault end.

Definition set_queued (b : MuxTxBlocks) (q : SendQueue) (queued : list Z) : MuxTxBlocks :=
  mkMuxTxBlocks (mb_reg b) q queued (mb_base b) (mb_next_seq b) (mb_next_offset b) (mb_sent_last b) (mb_received_end b).

(** A sequence number popped from the backlog. *)
Definition take_backlog (s : SenderStreamState) (q : SendQueue) (seq : Z) (o : Z * bool) : res (SenderStreamState * list bytes) :=
  let b := mt_blocks s in
  res_bind (queued_mark b seq) (fun mark =>
  let queued := if mark =? seq then setZ (mb_queued b) (seq mod lenZ (mb_queued b)) no_seq else mb_queued b in
  res_bind (mux_resend (mt_set_blocks s (set_queued b q queued)) seq o) (fun '(s, out, _) => Ok (s, out))).

(** The loop over the holes from [q] on, [n] sequence numbers of it left. *)
Fixpoint mux_holes (n : nat) (s : SenderStreamState) (q holes : Z) (sent : bool) (outs : Z -> Z * bool) : res (SenderStreamState * list bytes * bool) :=
  match n with
  | O => Ok (s, [], sent)
  | S n =>
      if negb (holes <? 8) then Ok (s, [], sent)
      else if negb (q =? mb_base (mt_blocks s)) && (mb_received_end (mt_blocks s) <=? q) then Ok (s, [], sent)
      else
        match lookup (mb_reg (mt_blocks s)) q with
        | None => mux_holes n s (u64 (q + 1)) holes sent outs
        | Some _ =>
            res_bind (mux_resend s q (outs holes)) (fun '(s, out, ok) =>
            res_bind (mux_holes n s (u64 (q + 1)) (holes + 1) (sent || ok) outs) (fun '(s, out', sent) => Ok (s, out ++ out', sent)))
        end
  end.

Definition mt_set_progress (s : SenderStreamState) (t : Z) : SenderStreamState :=
  let m := mt_timers s in
  mt_set_timers s (mkMuxTxTimers (mt_start_acked m) (mt_last_start_send_ns m) t (mt_last_rtt_echo_ns m) (mt_retransmit_count m) (mt_last_real_progress_ns m)).

Definition mux_rto (s : SenderStreamState) (t : Z) (outs : Z -> Z * bool) : res (SenderStreamState * list bytes) :=
  let b := mt_blocks s in
  res_bind (mux_holes (Z.to_nat (mb_next_seq b - mb_base b)) s (mb_base b) 0 false outs) (fun '(s, out, sent) =>
  let s := if sent then mt_set_cc s (on_timeout (mt_cc s)) else s in
  Ok (mt_set_progress s t, out)).

(** [std::clamp] for the window; undefined if [hi < lo]. *)
Definition std_clamp (x lo hi : Z) : res Z := if hi <? lo then Fault else Ok (clamp x lo hi).

(** The next block, stored at [t_store] and stamped at [t_wire]. *)
Definition send_block (s : SenderStreamState) (t_store t_wire : Z) : res (SenderStreamState * list bytes * bool) :=
  let x := mt_session s in
  let b := mt_blocks s in
  let shard_bytes := lenZ (mx_shard x) in
  let need_empty_last := (shard_bytes =? 0) && (mb_next_seq b =? 0) in
  res_bind (std_clamp (cg_window (mt_cc s)) 4 (mx_window_size x)) (fun window =>
  if ((mb_next_offset b <? shard_bytes) || need_empty_last) && (mb_next_seq b <? u64 (mb_base b + window)) then
    let remaining := u64 (shard_bytes - mb_next_offset b) in
    let blen := u16 (Z.min (mx_block_size x) remaining) in
    let is_last := shard_bytes <=? u64 (mb_next_offset b + blen) in
    let flags := if is_last then kFlagLastBlock else 0 in
    let hdr := mkBlockHeader (mx_stream_id x) (mb_next_seq b) flags blen (mb_next_offset b) in
    let payload := Some (drop (Z.to_nat (mb_next_offset b)) (mx_shard x)) in
    res_bind (store (mb_reg b) (mb_next_seq b) payload blen t_store (mb_next_offset b) flags) (fun '(_, reg) =>
    res_bind (encode_data_datagram hdr (mux_wire_time s t_wire) payload mux_out) (fun '(buf, n) =>
    if n =? 0 then
      Ok (mt_set_blocks s (mkMuxTxBlocks reg (mb_backlog b) (mb_queued b) (mb_base b) (mb_next_seq b) (mb_next_offset b) (mb_sent_last b) (mb_received_end b)), [], false)
    else
      Ok (mt_set_blocks s (mkMuxTxBlocks reg (mb_backlog b) (mb_queued b) (mb_base b) (u64 (mb_next_seq b + 1)) (u64 (mb_next_offset b + blen))
            (mb_sent_last b || is_last) (mb_received_end b)), emitted buf n, true)))
  else Ok (s, [], false)).

Record TxClock := mkTxClock { tc_turn : Z; tc_store : Z; tc_wire : Z; tc_sends : Z -> Z * bool }.

(** [try_send_one] *)
Definition try_send_one (s : SenderStreamState) (c : TxClock) : res (SenderStreamState * list bytes * bool) :=
  let t := tc_turn c in
  if mt_done s then Ok (s, [], false)
  else if negb (mt_start_acked (mt_timers s)) then send_start s t
  else
    let s := mt_set_cc s (poll (mt_cc s) t) in
    res_bind (pop (mb_backlog (mt_blocks s))) (fun '(q, popped) =>
    match popped with
    | Some seq => res_bind (take_backlog s q seq (tc_sends c 0)) (fun '(s, out) => Ok (s, out, true))
    | None =>
        let b := mt_blocks s in
        if (mb_base b <? mb_next_seq b) && (u64 (mt_last_progress_ns (mt_timers s) + rto_ns (mt_cc s) 5000000 1000000000 1000000000) <? t)
        then res_bind (mux_rto s t (tc_sends c)) (fun '(s, out) => Ok (s, out, true))
        else send_block s (tc_store c) (tc_wire c)
    end).

(** ** Acks and Nacks *)

Record AckClock := mkAckClock { kc_progress : Z; kc_wire : Z }.

Definition mux_on_ack (s : SenderStreamState) (ack : Ack) (c : AckClock) : res SenderStreamState :=
  if negb (ack_nonce ack =? mx_nonce (mt_session s)) then Ok s
  else
    let b := mt_blocks s in
    let m := mt_timers s in
    res_bind (apply_ack (mb_reg b) ack (mb_base b) (mb_next_seq b) (Some (mb_received_end b))) (fun '(reg, base, received_end, _) =>
    let b' := mkMuxTxBlocks reg (mb_backlog b) (mb_queued b) base (mb_next_seq b) (mb_next_offset b) (mb_sent_last b) (default 0 received_end) in
    let advanced := mb_base b <? base in
    let cc := if advanced then on_progress (mt_cc s) else mt_cc s in
    let echo := (0 <? ack_echoed_send_time ack) && negb (ack_echoed_send_time ack =? mt_last_rtt_echo_ns m) in
    let cc := if echo then on_rtt_sample cc (rtt_sample_from_echo (mux_wire_time s (kc_wire c)) (ack_echoed_send_time ack)) else cc in
    let m' := mkMuxTxTimers true (mt_last_start_send_ns m) (if advanced then kc_progress c else mt_last_progress_ns m)
                (if echo then ack_echoed_send_time ack else mt_last_rtt_echo_ns m) (mt_retransmit_count m)
                (if advanced then kc_progress c else mt_last_real_progress_ns m) in
    Ok (mkSenderStreamState (mt_session s) b' cc m' (mt_done s || ((mb_next_seq b <=? base) && mb_sent_last b)))).

(** The loop of a Nack over the sequence numbers [seqs], [i] of them handled. *)
Fixpoint nack_each (s : SenderStreamState) (i : Z) (seqs : list Z) (outs : Z -> Z * bool) : res (SenderStreamState * list bytes) :=
  match seqs with
  | [] => Ok (s, [])
  | seq :: seqs =>
      let b := mt_blocks s in
      res_bind (queued_mark b seq) (fun mark =>
      if mark =? seq then nack_each s (i + 1) seqs outs
      else
        res_bind (push (mb_backlog b) seq) (fun '(q, pushed) =>
        if pushed then nack_each (mt_set_blocks s (set_queued b q (setZ (mb_queued b) (seq mod lenZ (mb_queued b)) seq))) (i + 1) seqs outs
        else
          res_bind (mux_resend (mt_set_blocks s (set_queued b q (mb_queued b))) seq (outs i)) (fun '(s, out, _) =>
          res_bind (nack_each s (i + 1) seqs outs) (fun '(s, out') => Ok (s, out ++ out')))))
  end.

Definition mux_on_nack (s : SenderStreamState) (nack : Nack) (outs : Z -> Z * bool) : res (SenderStreamState * list bytes) :=
  if mt_done s then Ok (s, [])
  else nack_each (mt_set_cc s (on_loss (mt_cc s))) 0 (take (Z.to_nat (nack_count nack)) (nack_missing nack)) outs.

(** [dispatch_incoming]: the streams, the handshake kept alive, and what is sent. *)
Definition tx_dispatch_incoming (streams : list SenderStreamState) (init : option SetupInitiator) (dg : bytes) (c : AckClock) (outs : Z -> Z * bool) (now : Z)
  : res (list SenderStreamState * option SetupInitiator * list bytes) :=
  try_decode (peek_msg_type dg) (fun type =>
    if type =? MsgType.code MsgType.Ack then
      try_decode (decode_ack dg) (fun ack =>
        res_bind (on_stream streams (ack_stream_id ack) (fun s => mux_on_ack s ack c)) (fun streams => Ok (streams, init, []))) (Ok (streams, init, []))
    else if type =? MsgType.code MsgType.Nack then
      try_decode (decode_nack dg default_nack) (fun nack =>
        match nthZ streams (nack_stream_id nack) with
        | Some s => res_bind (mux_on_nack s nack outs) (fun '(s, out) => Ok (setZ streams (nack_stream_id nack) s, init, out))
        | None => Ok (streams, init, [])
        end) (Ok (streams, init, []))
    else if type =? MsgType.code MsgType.SetupHashReply then
      match init with
      | Some i =>
          res_bind (initiator_on_datagram i dg (replicate (Z.to_nat kMaxSetupDatagramSize) 0) now) (fun '(i, buf, n) =>
          Ok (streams, Some i, emitted buf n))
      | None => Ok (streams, init, [])
      end
    else Ok (streams, init, []))
    (Ok (streams, init, [])).

(** ** The end of the transfer *)

Definition tx_result (timed_out : bool) (s : SenderStreamState) : TransferStatus :=
  if mt_done s then StOk else if timed_out then Timeout else Incomplete.

Definition tx_finish (streams : list SenderStreamState) (timed_out : bool) : TransferStatus := worst_of (tx_result timed_out <$> streams).

(** ** The plan of a stream *)

Section Stream.
Context (x : MuxTxSession).
Notation len := (lenZ (mx_shard x)).
Notation bs := (mx_block_size x).

(** How many blocks there are, and the bytes of block [q]. *)
Definition block_count : Z := Z.max 1 ((len + bs - 1) / bs).
Definition block_len (q : Z) : Z := Z.max 0 (Z.min bs (len - q * bs)).
Definition block_flags (q : Z) : Z := if q =? block_count - 1 then kFlagLastBlock else 0.

(** A datagram of block [q], fresh or resent. *)
Definition plan_block (q : Z) (d : DataDatagram) : Prop :=
  0 <= q < block_count /\ bh_stream_id (dd_hdr d) = mx_stream_id x /\ bh_seq_no (dd_hdr d) = q /\ bh_offset (dd_hdr d) = q * bs /\
  bh_payload_len (dd_hdr d) = block_len q /\ (bh_flags (dd_hdr d) = block_flags q \/ bh_flags (dd_hdr d) = Z.lor (block_flags q) kFlagRetransmission) /\
  payload_bytes (dd_payload d) = slice (mx_shard x) (q * bs) (block_len q).

(** What the stream may have handed to the socket. *)
Inductive tx_says : bytes -> Prop :=
| says_start m : wf_msg m -> ss_stream_id m = mx_stream_id x -> ss_total_bytes m = len -> ss_nonce m = mx_nonce x -> tx_says (wire m)
| says_block q d : wf_msg d -> plan_block q d -> tx_says (wire d).

Record wf_session : Prop := {
  wx_id : is_u16 (mx_stream_id x);
  wx_block : 0 < bs <= kMaxPayloadSize;
  wx_window : 4 <= mx_window_size x <= kMaxWindow;
  wx_len : len < 2 ^ 63;
  wx_nonce : is_u64 (mx_nonce x);
}.
End Stream.

Section StreamProofs.
Context (x : MuxTxSession) (X : wf_session x).
Notation len := (lenZ (mx_shard x)).
Notation bs := (mx_block_size x).

Lemma bs_pos : 0 < bs <= 16384.
Proof. apply X. Qed.

Lemma len_bound : 0 <= len < 2 ^ 63.
Proof. split; [apply lenZ_nonneg | apply X]. Qed.

Lemma block_count_spec : 1 <= block_count x /\ len <= block_count x * bs /\ (block_count x - 1) * bs <= len /\ (0 < len -> (block_count x - 1) * bs < len) /\ block_count x <= len + 1.
Proof.
  pose proof bs_pos. pose proof len_bound. unfold block_count.
  assert ((len + bs - 1) / bs * bs <= len + bs - 1 < (len + bs - 1) / bs * bs + bs) as Hq by (pose proof (Z.div_mod (len + bs - 1) bs ltac:(lia)); pose proof (Z.mod_pos_bound (len + bs - 1) bs ltac:(lia)); lia).
  set (k := (len + bs - 1) / bs) in *. destruct (Z.le_gt_cases 1 k); [rewrite Z.max_r by lia | rewrite Z.max_l by lia]; nia.
Qed.

(** Block [q] of the plan: within the shard, ending where the next begins. *)
Lemma block_bounds q : 0 <= q < block_count x ->
  0 <= q * bs <= len /\ 0 <= block_len x q <= bs /\ q * bs + block_len x q = Z.min ((q + 1) * bs) len /\
  (q * bs + block_len x q = len <-> q = block_count x - 1) /\ is_u64 q /\ is_u64 (q * bs).
Proof.
  intros Hq. pose proof bs_pos. pose proof len_bound. destruct block_count_spec as (H1 & H2 & H3 & H4 & H5).
  assert (q * bs <= (block_count x - 1) * bs) by (apply Z.mul_le_mono_nonneg_r; lia). unfold block_len.
  split_and!; try (unfold is_u64; lia); try nia.
Qed.

Definition slot_is (q : Z) (sl : RegistrySlot) : Prop :=
  sl_offset sl = q * bs /\ sl_payload_len sl = block_len x q /\ sl_flags sl = block_flags x q /\ lenZ (sl_payload sl) = kMaxPayloadSize /\
  take (Z.to_nat (block_len x q)) (sl_payload sl) = slice (mx_shard x) (q * bs) (block_len x q).

(** [confirmed] are the blocks Acks have reported. *)
Record mtx_inv (confirmed : Z -> Prop) (s : SenderStreamState) : Prop := {
  ti_session : mt_session s = x;
  ti_reg : wf_registry (mb_reg (mt_blocks s));
  ti_ws : sr_window_size (mb_reg (mt_blocks s)) = mx_window_size x;
  ti_bounds : 0 <= mb_base (mt_blocks s) <= mb_next_seq (mt_blocks s) /\ mb_next_seq (mt_blocks s) <= block_count x /\
    mb_next_seq (mt_blocks s) <= mb_base (mt_blocks s) + mx_window_size x;
  ti_offset : mb_next_offset (mt_blocks s) = Z.min (mb_next_seq (mt_blocks s) * bs) len;
  ti_last : mb_sent_last (mt_blocks s) = (mb_next_seq (mt_blocks s) =? block_count x);
  ti_held : forall q sl, lookup (mb_reg (mt_blocks s)) q = Some sl -> mb_base (mt_blocks s) <= q < mb_next_seq (mt_blocks s) /\ slot_is q sl;
  ti_lost : forall q, mb_base (mt_blocks s) <= q < mb_next_seq (mt_blocks s) -> lookup (mb_reg (mt_blocks s)) q = None -> confirmed q;
  ti_base : forall q, 0 <= q < mb_base (mt_blocks s) -> confirmed q;
  ti_queue : exists items, sq_repr (mb_backlog (mt_blocks s)) items /\ sq_coalesce (mb_backlog (mt_blocks s)) = false;
  ti_queued : 0 < lenZ (mb_queued (mt_blocks s));
  ti_done : mt_done s = true -> mb_base (mt_blocks s) = block_count x;
}.

(** The sends of a stream keep its invariant, and say only what its plan has. *)
Definition tx_sent (confirmed : Z -> Prop) (s : SenderStreamState) (out : list bytes) : Prop := mtx_inv confirmed s /\ Forall (tx_says x) out.

Lemma mtx_inv_mono (c1 c2 : Z -> Prop) s : (forall q, c1 q -> c2 q) -> mtx_inv c1 s -> mtx_inv c2 s.
Proof. intros H []. split; auto. Qed.

(** Changes that leave the blocks alone. *)
Lemma mtx_inv_blocks confirmed s s' : mtx_inv confirmed s -> mt_session s' = mt_session s -> mt_blocks s' = mt_blocks s -> mt_done s' = mt_done s -> mtx_inv confirmed s'.
Proof. intros [] E1 E2 E3. split; rewrite ?E1, ?E2, ?E3; done. Qed.

Lemma emit_block hdr sent p q :
  wf_header hdr -> is_u64 sent -> bh_payload_len hdr <= lenZ p -> plan_block x q (block_datagram hdr sent p) ->
  exists buf n, encode_data_datagram hdr sent (Some p) mux_out = Ok (buf, n) /\ n <> 0 /\ Forall (tx_says x) (emitted buf n).
Proof.
  intros Hh Hs Hp Hb. pose proof Hh as (_ & _ & _ & Hl & _). eexists _, _. split; [apply encode_block; try done |].
  { unfold mux_out. rewrite lenZ_replicate. unfold kMaxDatagramSize, kDataPrefixSize, kMaxPayloadSize in *. lia. }
  pose proof (block_datagram_wf hdr sent p Hh Hs Hp) as Hd. pose proof (lenZ_data_wire _ Hd) as El. change (dd_hdr (block_datagram hdr sent p)) with hdr in El.
  assert (kDataPrefixSize + bh_payload_len hdr <> 0) as Hn by (change kDataPrefixSize with 31; lia). split; [done |]. unfold emitted. destruct (Z.eqb_spec (kDataPrefixSize + bh_payload_len hdr) 0); [done |].
  rewrite <- El, take_all_lenZ. constructor; [| done]. by apply (says_block x q (block_datagram hdr sent p)).
Qed.

Lemma block_flags_u8 q : is_u8 (block_flags x q) /\ is_u8 (Z.lor (block_flags x q) kFlagRetransmission).
Proof. unfold block_flags, is_u8. by destruct (_ =? _). Qed.

Lemma plan_datagram q flags sent p :
  0 <= q < block_count x -> flags = block_flags x q \/ flags = Z.lor (block_flags x q) kFlagRetransmission ->
  take (Z.to_nat (block_len x q)) p = slice (mx_shard x) (q * bs) (block_len x q) ->
  plan_block x q (block_datagram (mkBlockHeader (mx_stream_id x) q flags (block_len x q) (q * bs)) sent p).
Proof.
  intros Hq Hf Hp. destruct (block_bounds q Hq) as (_ & Hl & _). unfold plan_block, block_datagram. cbn [dd_hdr dd_payload bh_stream_id bh_seq_no bh_offset bh_payload_len bh_flags].
  do 6 (split; [done |]). destruct (Z.ltb_spec 0 (block_len x q)); [exact Hp |]. by replace (block_len x q) with 0 in * by lia.
Qed.

Lemma plan_header q flags :
  0 <= q < block_count x -> is_u8 flags -> wf_header (mkBlockHeader (mx_stream_id x) q flags (block_len x q) (q * bs)).
Proof.
  intros Hq Hf. destruct (block_bounds q Hq) as (B1 & B2 & B3 & B4 & B5 & B6). pose proof bs_pos.
  split; [apply X |]. split; [done |]. split; [done |]. split; [unfold kMaxPayloadSize; cbn; lia | done].
Qed.

Lemma mux_resend_spec confirmed s q o :
  mtx_inv confirmed s -> returns (mux_resend s q o) (fun '(s', out, _) => tx_sent confirmed s' out /\ mt_blocks s' = mt_blocks s).
Proof.
  intros I. unfold mux_resend. destruct (lookup (mb_reg (mt_blocks s)) q) as [sl |] eqn:E; [| by apply returns_ok].
  destruct (ti_held _ _ I _ _ E) as (Hq & E1 & E2 & E3 & E4 & E5). rewrite (ti_session _ _ I), E1, E2, E3. set (hdr := mkBlockHeader _ _ _ _ _).
  destruct (ti_bounds _ _ I) as (Hb1 & Hb2 & _). destruct (block_bounds q ltac:(lia)) as (B1 & B2 & B3 & B4 & B5 & B6). pose proof bs_pos.
  destruct (emit_block hdr (mux_wire_time s (fst o)) (sl_payload sl) q) as (buf & n & -> & Hn & Ho).
  - apply plan_header; [lia | apply block_flags_u8].
  - apply u64_range.
  - cbn. rewrite E4. unfold kMaxPayloadSize. lia.
  - apply plan_datagram; [lia | by right | done].
  - cbn [res_bind]. destruct (Z.eqb_spec n 0); [done |]. destruct (negb (snd o)); apply returns_ok; (split; [split; [| done] | done]); [done |].
    by eapply mtx_inv_blocks.
Qed.

Lemma mux_stream_start_wf s : mt_session s = x -> wf_msg (mux_stream_start s).
Proof.
  intros E. unfold mux_stream_start. rewrite E. assert (is_u64 len) as Hl by (pose proof len_bound; unfold is_u64; lia). pose proof bs_pos.
  repeat split; cbn; try (unfold is_u64, is_u16, kMaxExtensionBytes; lia); try apply X; try done; [apply Hl | apply Hl |]. by exists [].
Qed.

Lemma send_start_spec confirmed s t :
  mtx_inv confirmed s -> returns (send_start s t) (fun '(s', out, _) => tx_sent confirmed s' out).
Proof.
  intros I. unfold send_start. destruct (_ && _); [by apply returns_ok |]. pose proof (mux_stream_start_wf s (ti_session _ _ I)) as Hw.
  eapply returns_bind; [exact (encode_emitted StreamStart _ ctl_buffer Hw) |]. intros [buf n] Ho.
  destruct (n =? 0); apply returns_ok; [by split |]. split; [by eapply mtx_inv_blocks |]. destruct Ho as [-> | ->]; [done |].
  constructor; [| done]. apply says_start; [done | ..]; unfold mux_stream_start; cbn [ss_stream_id ss_total_bytes ss_nonce]; by rewrite (ti_session _ _ I).
Qed.

Lemma queued_mark_total confirmed s seq : mtx_inv confirmed s -> returns (queued_mark (mt_blocks s) seq) (fun _ => True).
Proof.
  intros I. pose proof (ti_queued _ _ I) as Hq. unfold queued_mark. destruct (nthZ_Some (mb_queued (mt_blocks s)) (seq mod lenZ (mb_queued (mt_blocks s)))) as [v ->]; [| by apply returns_ok].
  by apply Z.mod_pos_bound.
Qed.

(** The backlog and its marks may change freely. *)
Lemma set_queued_inv confirmed s q queued :
  mtx_inv confirmed s -> (exists items, sq_repr q items /\ sq_coalesce q = false) -> lenZ queued = lenZ (mb_queued (mt_blocks s)) ->
  mtx_inv confirmed (mt_set_blocks s (set_queued (mt_blocks s) q queued)).
Proof. intros [] Hq Hl. split; cbn; try done. by rewrite Hl. Qed.

Lemma take_backlog_spec confirmed s q seq o :
  mtx_inv confirmed s -> (exists items, sq_repr q items /\ sq_coalesce q = false) -> returns (take_backlog s q seq o) (fun '(s', out) => tx_sent confirmed s' out).
Proof.
  intros I Hq. unfold take_backlog. eapply returns_bind; [by apply queued_mark_total with confirmed |]. intros mark _.
  eapply returns_bind; [apply (mux_resend_spec confirmed); apply set_queued_inv; [done | done |]; by destruct (_ =? _); [apply lenZ_setZ |] |].
  intros [[s' out] ok] [H _]. by apply returns_ok.
Qed.

Lemma mux_holes_spec confirmed n outs : forall s q holes sent,
  mtx_inv confirmed s -> returns (mux_holes n s q holes sent outs) (fun '(s', out, _) => tx_sent confirmed s' out).
Proof.
  induction n as [| n IH]; intros s q holes sent I; cbn [mux_holes]; [by apply returns_ok |].
  destruct (negb _); [by apply returns_ok |]. destruct (_ && _); [by apply returns_ok |]. destruct (lookup _ _); [| by apply IH].
  eapply returns_bind; [by apply (mux_resend_spec confirmed) |]. intros [[s1 out1] ok] [[I1 O1] _].
  eapply returns_bind; [by apply IH |]. intros [[s2 out2] sent2] [I2 O2]. apply returns_ok. split; [done | by apply Forall_app].
Qed.

Lemma mux_rto_spec confirmed s t outs : mtx_inv confirmed s -> returns (mux_rto s t outs) (fun '(s', out) => tx_sent confirmed s' out).
Proof.
  intros I. unfold mux_rto. eapply returns_bind; [by apply (mux_holes_spec confirmed) |]. intros [[s1 out] sent] [I1 O1]. apply returns_ok.
  split; [| done]. destruct sent; by eapply mtx_inv_blocks.
Qed.

(** The block about to be sent. *)
Lemma next_block confirmed s :
  mtx_inv confirmed s -> let b := mt_blocks s in
  mb_next_offset b < len \/ len = 0 /\ mb_next_seq b = 0 ->
  0 <= mb_next_seq b < block_count x /\ mb_next_offset b = mb_next_seq b * bs /\
  u16 (Z.min bs (u64 (len - mb_next_offset b))) = block_len x (mb_next_seq b).
Proof.
  intros I b Hc. subst b. set (b := mt_blocks s) in *. destruct (ti_bounds _ _ I) as (Hb1 & Hb2 & _). pose proof (ti_offset _ _ I) as Eo. fold b in Hb1, Hb2, Eo.
  pose proof bs_pos. pose proof len_bound. destruct block_count_spec as (K1 & K2 & K3 & K4 & K5).
  assert (mb_next_seq b < block_count x) as Hlt by nia. destruct (block_bounds (mb_next_seq b) ltac:(lia)) as (B1 & B2 & B3 & _).
  assert (mb_next_offset b = mb_next_seq b * bs) as E by lia. split; [lia |]. split; [done |].
  rewrite E, u64_small by (unfold is_u64; lia). unfold block_len in *. rewrite u16_small by (unfold is_u16; lia). lia.
Qed.

Lemma store_next confirmed s t_store :
  mtx_inv confirmed s -> let b := mt_blocks s in 0 <= mb_next_seq b < block_count x -> mb_next_seq b < mb_base b + mx_window_size x ->
  let q := mb_next_seq b in
  exists reg, store (mb_reg b) q (Some (drop (Z.to_nat (q * bs)) (mx_shard x))) (block_len x q) t_store (q * bs) (block_flags x q) = Ok (true, reg) /\
    wf_registry reg /\ sr_window_size reg = mx_window_size x /\ (exists sl, lookup reg q = Some sl /\ slot_is q sl) /\
    (forall r, r <> q -> lookup reg r = lookup (mb_reg b) r).
Proof.
  intros I b Hq Hw q. subst b q. set (b := mt_blocks s) in *. set (q := mb_next_seq b) in *. destruct (block_bounds q Hq) as (B1 & B2 & B3 & B4 & B5 & B6). pose proof bs_pos.
  assert (lenZ (take (Z.to_nat (block_len x q)) (drop (Z.to_nat (q * bs)) (mx_shard x))) = block_len x q) as El by (apply lenZ_take; rewrite lenZ_drop; lia).
  destruct (store_correct (mb_reg b) q (Some (drop (Z.to_nat (q * bs)) (mx_shard x))) (block_len x q) t_store (q * bs) (block_flags x q))
    as (reg & sl & E & W & Ews & (old & Hold & Esl) & Hlk); [apply I | unfold kMaxPayloadSize; lia | intros p [= <-]; rewrite lenZ_drop; lia |].
  exists reg. split; [done |]. split; [done |]. split; [rewrite Ews; apply I |]. split.
  - exists sl. split; [by rewrite Hlk, Z.eqb_refl |]. subst sl. unfold slot_is, stored_slot. cbn. destruct (Z.ltb_spec 0 (block_len x q)).
    + split_and!; try done; [rewrite splice_length; [done | lia | rewrite El, Hold; unfold kMaxPayloadSize; lia] |].
      unfold splice. change (take (Z.to_nat 0) old) with (@nil Z). cbn [app]. rewrite take_app_le by (unfold lenZ in El; lia). by rewrite take_take, Nat.min_id.
    + replace (block_len x q) with 0 by lia. by split_and!.
  - intros r Hne. rewrite Hlk. destruct (Z.eqb_spec q r); [done |]. destruct (Z.eqb_spec (index_of (mb_reg b) q) (index_of (mb_reg b) r)) as [Ei |]; [| done].
    destruct (lookup (mb_reg b) r) as [sl' |] eqn:E'; [| done]. destruct (ti_held _ _ I _ _ E') as [Hr _]. fold b q in Hr. exfalso. apply Hne.
    unfold index_of in Ei. pose proof (ti_ws _ _ I) as Ew. fold b in Ew. rewrite Ew in Ei. pose proof (wx_window _ X).
    assert ((q - r) mod mx_window_size x = 0) as Em by (rewrite Zminus_mod, Ei, Z.sub_diag; apply Zmod_0_l). rewrite Z.mod_small in Em by lia. lia.
Qed.

Lemma send_block_spec confirmed s t_store t_wire :
  mtx_inv confirmed s -> mt_done s = false -> returns (send_block s t_store t_wire) (fun '(s', out, _) => tx_sent confirmed s' out).
Proof.
  intros I Hd. unfold send_block. rewrite (ti_session _ _ I). set (b := mt_blocks s). unfold std_clamp. pose proof (wx_window _ X) as Hw. unfold kMaxWindow in Hw.
  destruct (Z.ltb_spec (mx_window_size x) 4); [lia |]. cbn [res_bind]. set (w := clamp _ _ _). assert (w <= mx_window_size x) as Hcl by (subst w; unfold clamp; repeat split_if; lia).
  destruct (_ && _) eqn:Ec; [| by apply returns_ok]. destruct (ti_bounds _ _ I) as (Hb1 & Hb2 & Hb3). fold b in Hb1, Hb2, Hb3.
  pose proof len_bound. destruct block_count_spec as (K1 & K2 & K3 & K4 & K5).
  assert (mb_next_offset b < len \/ len = 0 /\ mb_next_seq b = 0) as Hc by lia. destruct (next_block _ _ I Hc) as (Hq & Eo & Eb). fold b in Hq, Eo, Eb. rewrite Eb, Eo.
  set (q := mb_next_seq b) in *. destruct (block_bounds q Hq) as (B1 & B2 & B3 & B4 & B5 & B6). pose proof bs_pos.
  assert (q < mb_base b + mx_window_size x) as Hqw.
  { apply andb_prop in Ec as [_ Ec]. pose proof (Z.mod_le (mb_base b + w) (2 ^ 64)). assert (0 <= w) by (subst w; unfold clamp; repeat split_if; lia). unfold u64 in Ec. lia. }
  destruct (store_next _ s t_store I Hq Hqw) as (reg & Es & W & Ews & (sl & Esl & Hsl) & Hlk). fold b q in Es, Esl, Hsl, Hlk.
  rewrite (u64_small (q * bs + block_len x q)) by (unfold is_u64; lia).
  assert ((len <=? q * bs + block_len x q) = (q =? block_count x - 1)) as -> by (destruct (Z.eqb_spec q (block_count x - 1)); lia).
  fold (block_flags x q). rewrite Es. cbn [res_bind].
  destruct (emit_block (mkBlockHeader (mx_stream_id x) q (block_flags x q) (block_len x q) (q * bs)) (mux_wire_time s t_wire) (drop (Z.to_nat (q * bs)) (mx_shard x)) q)
    as (buf & n & -> & Hn & Ho); [apply plan_header; [done | apply block_flags_u8] | apply u64_range | cbn; rewrite lenZ_drop; lia | apply plan_datagram; [done | by left | done] |].
  cbn [res_bind]. destruct (Z.eqb_spec n 0); [done |]. apply returns_ok. split; [| done]. rewrite (u64_small (q + 1)) by (unfold is_u64; lia).
  split; cbn [mt_set_blocks mt_session mt_blocks mt_done mb_reg mb_backlog mb_queued mb_base mb_next_seq mb_next_offset mb_sent_last]; try apply I; try done.
  - lia.
  - pose proof (ti_last _ _ I) as El. fold b q in El. rewrite El. destruct (Z.eqb_spec q (block_count x)), (Z.eqb_spec q (block_count x - 1)), (Z.eqb_spec (q + 1) (block_count x)); cbn; done || lia.
  - intros r sl' El. destruct (Z.eqb_spec r q) as [-> | Hne].
    + rewrite Esl in El. injection El as <-. split; [lia | done].
    + rewrite Hlk in El by done. destruct (ti_held _ _ I _ _ El) as [Hr Hs]. fold b q in Hr. split; [lia | done].
  - intros r Hr El. destruct (Z.eqb_spec r q) as [-> | Hne]; [by rewrite Esl in El |]. rewrite Hlk in El by done. apply (ti_lost _ _ I); [fold b q; lia | done].
Qed.

Lemma try_send_one_spec confirmed s c :
  mtx_inv confirmed s -> returns (try_send_one s c) (fun '(s', out, _) => tx_sent confirmed s' out).
Proof.
  intros I. unfold try_send_one. destruct (mt_done s) eqn:Ed; [by apply returns_ok |]. destruct (negb _); [by apply send_start_spec |].
  set (s1 := mt_set_cc s _). assert (mtx_inv confirmed s1) as I1 by (by eapply mtx_inv_blocks). destruct (ti_queue _ _ I1) as (items & R & Hco).
  destruct (pop_repr _ _ R) as (q & -> & R' & _ & Hco'). cbn [res_bind]. rewrite Hco in Hco'. destruct (head _) as [seq |].
  - eapply returns_bind; [apply (take_backlog_spec confirmed); [done |]; by eexists |]. intros [s2 out] H2. by apply returns_ok.
  - destruct (_ && _); [| by apply send_block_spec]. eapply returns_bind; [by apply (mux_rto_spec confirmed) |]. intros [s2 out] H2. by apply returns_ok.
Qed.

Lemma acks_claims ack base next q : 0 <= base -> acks ack base next q -> claims ack q.
Proof. intros Hb [Hq | [_ (Hr & _ & Hbit)]]; unfold acked_base in *; [left; lia | right]. split; [unfold kMaxWindow; lia | done]. Qed.

Lemma mux_on_ack_spec (confirmed : Z -> Prop) s ack c :
  mtx_inv confirmed s -> wf_msg ack -> (ack_nonce ack = mx_nonce x -> forall q, claims ack q -> confirmed q) -> returns (mux_on_ack s ack c) (mtx_inv confirmed).
Proof.
  intros I Ha Hc. unfold mux_on_ack. rewrite (ti_session _ _ I). destruct (Z.eqb_spec (ack_nonce ack) (mx_nonce x)) as [En |]; cbn [negb]; [| by apply returns_ok].
  specialize (Hc En). destruct (ti_bounds _ _ I) as (Hb1 & Hb2 & Hb3). pose proof len_bound. destruct block_count_spec as (K1 & K2 & K3 & K4 & K5).
  set (b := mt_blocks s) in *. destruct (apply_ack_correct (mb_reg b) ack (mb_base b) (mb_next_seq b) (Some (mb_received_end b)))
    as (reg & re & n & E & W & Ews & _ & Hyes & Hno & _); [apply I | done | lia | done |]. rewrite E. cbn [res_bind].
  set (nb := acked_base ack (mb_base b) (mb_next_seq b)) in *. assert (mb_base b <= nb <= mb_next_seq b) as Hnb by (subst nb; unfold acked_base; lia).
  pose proof (ti_last _ _ I) as El. fold b in El. apply returns_ok. split; cbn [mt_session mt_blocks mt_done mb_reg mb_backlog mb_queued mb_base mb_next_seq mb_next_offset mb_sent_last];
    try apply I; try done.
  - rewrite Ews. apply I.
  - lia.
  - intros q sl Eq. destruct (decide (mb_base b <= q < nb \/ nb <= q /\ selects ack (mb_next_seq b) q)) as [Hk | Hk].
    { rewrite Hyes in Eq by exact Hk. done. }
    rewrite Hno in Eq by exact Hk. destruct (ti_held _ _ I _ _ Eq) as [Hq Hsl]. fold b in Hq. split; [lia | done].
  - intros q Hq Eq. destruct (decide (mb_base b <= q < nb \/ nb <= q /\ selects ack (mb_next_seq b) q)) as [Hk | Hk].
    { apply Hc. by apply (acks_claims ack (mb_base b) (mb_next_seq b)); [lia |]. }
    rewrite Hno in Eq by exact Hk. apply (ti_lost _ _ I); [fold b; lia | done].
  - intros q Hq. destruct (Z.lt_ge_cases q (mb_base b)); [apply (ti_base _ _ I); fold b; lia |]. apply Hc.
    apply (acks_claims ack (mb_base b) (mb_next_seq b)); [lia |]. left. fold nb. lia.
  - intros [Hd | Hd]%orb_prop; [pose proof (ti_done _ _ I Hd) as Hb; fold b in Hb; lia |]. apply andb_prop in Hd as [Hd1 Hd2]. rewrite El in Hd2. lia.
Qed.

Lemma push_total q seq : (exists items, sq_repr q items) -> sq_coalesce q = false ->
  returns (push q seq) (fun '(q', _) => exists items, sq_repr q' items /\ sq_coalesce q' = false).
Proof.
  intros [items R] Hco. pose proof (queue_op_refines q items (Push seq) R) as H. destruct (spec_op _ _ _ _) as [s' out]. destruct H as (q' & E & R' & _ & Hco').
  cbn [queue_op_run] in E. destruct (push q seq) as [| | [q1 pushed]]; cbn [res_bind] in E; try done. injection E as -> <-. apply returns_ok. exists s'. by rewrite Hco'.
Qed.

Lemma nack_each_spec confirmed outs seqs : forall s i,
  mtx_inv confirmed s -> returns (nack_each s i seqs outs) (fun '(s', out) => tx_sent confirmed s' out).
Proof.
  induction seqs as [| seq seqs IH]; intros s i I; cbn [nack_each]; [by apply returns_ok |].
  eapply returns_bind; [by apply queued_mark_total with confirmed |]. intros mark _. destruct (mark =? seq); [by apply IH |].
  destruct (ti_queue _ _ I) as (items & R & Hco). eapply returns_bind; [apply push_total; [by exists items | done] |]. intros [q pushed] Hq. destruct pushed.
  - apply IH. apply set_queued_inv; [done | done | apply lenZ_setZ].
  - eapply returns_bind; [apply (mux_resend_spec confirmed); by apply set_queued_inv |]. intros [[s1 out1] ok] [[I1 O1] _].
    eapply returns_bind; [by apply IH |]. intros [s2 out2] [I2 O2]. apply returns_ok. split; [done | by apply Forall_app].
Qed.

Lemma mux_on_nack_spec confirmed s nack outs : mtx_inv confirmed s -> returns (mux_on_nack s nack outs) (fun '(s', out) => tx_sent confirmed s' out).
Proof. intros I. unfold mux_on_nack. destruct (mt_done s); [by apply returns_ok |]. apply nack_each_spec. by eapply mtx_inv_blocks. Qed.

Lemma new_tx_stream_inv now : mtx_inv (fun _ => False) (new_tx_stream x now).
Proof.
  pose proof (wx_window _ X) as Hw. unfold kMaxWindow in Hw. pose proof len_bound. destruct block_count_spec as (K1 & _).
  split; cbn [new_tx_stream mt_session mt_blocks mt_done mb_reg mb_backlog mb_queued mb_base mb_next_seq mb_next_offset mb_sent_last]; try done; try lia.
  - apply new_registry_wf.
  - unfold new_registry, kMaxWindow. cbn. by repeat split_if; try lia.
  - intros q sl E. exfalso. unfold lookup in E. destruct (nthZ _ _) as [sl' |] eqn:En; [| done]. apply nthZ_inv in En as [_ En]. cbn [new_registry sr_slots] in En.
    apply lookup_replicate in En as [-> _]. done.
  - exists (mkQueueSpec [] 0). split; [| done]. unfold new_send_queue. destruct (Z.eqb_spec (mx_window_size x) 0); [lia |]. split; cbn; try done; try lia.
    + rewrite lenZ_replicate. lia.
    + change (lenZ []) with 0. lia.
  - destruct (Z.eqb_spec (mx_window_size x) 0); rewrite lenZ_replicate; lia.
Qed.

End StreamProofs.
