(* ===== verification/MuxSystem.v ===== *)
(** * A multiplexed transfer end to end

    Joins the two ends of MuxSend.v and MuxRecv.v by a network that may lose, delay,
    reorder and duplicate datagrams, and that may hand the sender Acks of other
    sessions.  The steps are those of the workers, in any interleaving.  The theorem is
    that a status of Ok, on either end, means that the receiver's output is the
    sender's data. *)

From S2P Require Import Prelude Wire Control Block Bits Window Receiver Registry Setup Handshake Congestion SendQueue Peer Returns Status RecvLane RecvSafety SendEntry MuxRecv MuxSend.

Record MuxNet := mkMuxNet {
  mn_tx : list SenderStreamState;
  mn_init : option SetupInitiator;
  mn_rx : list ReceiverStreamState;
  mn_fwd : list bytes;
  mn_back : list bytes;
}.

(** The Ack in [dg], if there is one, is of another session of its stream. *)
Definition foreign_ack (tx : list SenderStreamState) (dg : bytes) : Prop :=
  forall a s, decode_ack dg = Ok a -> nthZ tx (ack_stream_id a) = Some s -> ack_nonce a <> mx_nonce (mt_session s).

Inductive mux_step : MuxNet -> MuxNet -> Prop :=
| mux_try_send n i s c s' out did :
    mn_tx n !! i = Some s -> try_send_one s c = Ok (s', out, did) ->
    mux_step n (mkMuxNet (<[i := s']> (mn_tx n)) (mn_init n) (mn_rx n) (mn_fwd n ++ out) (mn_back n))
| mux_reply n dg c outs now tx' init' out :
    Forall is_u8 dg -> dg ∈ mn_back n \/ foreign_ack (mn_tx n) dg -> tx_dispatch_incoming (mn_tx n) (mn_init n) dg c outs now = Ok (tx', init', out) ->
    mux_step n (mkMuxNet tx' init' (mn_rx n) (mn_fwd n ++ out) (mn_back n))
| mux_arrive n dg alloc_ok c rx' :
    Forall is_u8 dg -> dg ∈ mn_fwd n -> rx_dispatch_incoming (mn_rx n) dg alloc_ok c = Ok rx' ->
    mux_step n (mkMuxNet (mn_tx n) (mn_init n) rx' (mn_fwd n) (mn_back n))
| mux_service n i r t r' out did :
    mn_rx n !! i = Some r -> rx_try_service_one r t = Ok (r', out, did) ->
    mux_step n (mkMuxNet (mn_tx n) (mn_init n) (<[i := r']> (mn_rx n)) (mn_fwd n) (mn_back n ++ out))
| mux_last_acks n r out :
    r ∈ mn_rx n -> rx_final_acks r = Ok out ->
    mux_step n (mkMuxNet (mn_tx n) (mn_init n) (mn_rx n) (mn_fwd n) (mn_back n ++ out)).

(** Both ends after the handshake. *)
Definition mux_start (cfg : MuxTransferConfig) (data : bytes) (rnd : Z -> Z * Z) (init : option SetupInitiator) (negotiated : SetupPayload) (now now' : Z) : MuxNet :=
  mkMuxNet (tx_build_streams cfg data rnd now) init (rx_build_streams negotiated now') [] [].

(** ** The bytes a set of blocks covers *)

Section Covered.
Context (x : MuxTxSession) (X : wf_session x).
Notation len := (lenZ (mx_shard x)).
Notation bs := (mx_block_size x).

Definition covered_by (acc : gset Z) (q : Z) : Z := if bool_decide (q ∈ acc) then block_len x q else 0.
Definition covered (acc : gset Z) : Z := sumZ (covered_by acc) (seqZ 0 (block_count x)).

Lemma sumZ_eq {A} (f g : A -> Z) l : (forall a, a ∈ l -> f a = g a) -> sumZ f l = sumZ g l.
Proof. induction l as [| a l IH]; intros H; [done |]. cbn. rewrite (H a) by (by left). f_equal. apply IH. intros b Hb. apply H. by right. Qed.

Lemma covered_add acc q : 0 <= q < block_count x -> q ∉ acc -> covered ({[q]} ∪ acc) = covered acc + block_len x q.
Proof.
  intros Hq Hn. unfold covered. replace (block_count x) with (q + (1 + (block_count x - q - 1))) by lia. rewrite !seqZ_app by lia. rewrite !sumZ_app.
  rewrite (sumZ_eq (covered_by ({[q]} ∪ acc)) (covered_by acc) (seqZ 0 q)).
  2: { intros r Hr%elem_of_seqZ. unfold covered_by. rewrite (bool_decide_ext _ (r ∈ acc)); [done |]. set_solver by lia. }
  rewrite (sumZ_eq (covered_by ({[q]} ∪ acc)) (covered_by acc) (seqZ (0 + q + 1) _)).
  2: { intros r Hr%elem_of_seqZ. unfold covered_by. rewrite (bool_decide_ext _ (r ∈ acc)); [done |]. set_solver by lia. }
  replace (seqZ (0 + q) 1) with [q] by (rewrite seqZ_cons by lia; rewrite seqZ_nil by lia; f_equal; lia).
  cbn [sumZ foldr]. unfold covered_by at 2 5. rewrite bool_decide_eq_true_2 by set_solver. rewrite (bool_decide_eq_false_2 (q ∈ acc)) by done. lia.
Qed.

Lemma blocks_sum n : 0 <= n <= block_count x -> sumZ (block_len x) (seqZ 0 n) = Z.min (n * bs) len.
Proof.
  intros Hn. pose proof (len_bound x X). rewrite <- (Z2Nat.id n) in * by lia. revert Hn. induction (Z.to_nat n) as [| k IH]; intros Hk; [rewrite seqZ_nil by lia; cbn [sumZ foldr]; lia |].
  replace (Z.of_nat (S k)) with (Z.of_nat k + 1) in * by lia. rewrite seqZ_app by lia. rewrite sumZ_app, IH by lia.
  replace (seqZ (0 + Z.of_nat k) 1) with [Z.of_nat k] by (rewrite seqZ_cons by lia; rewrite seqZ_nil by lia; f_equal; lia). cbn [sumZ foldr].
  destruct (block_bounds x X (Z.of_nat k) ltac:(lia)) as (B1 & B2 & B3 & _). lia.
Qed.

Lemma sumZ_le {A} (f g : A -> Z) l : (forall a, a ∈ l -> f a <= g a) -> sumZ f l <= sumZ g l.
Proof. induction l as [| a l IH]; intros H; [done |]. cbn. pose proof (H a ltac:(by left)). assert (sumZ f l <= sumZ g l) by (apply IH; intros b Hb; apply H; by right). unfold sumZ in *. lia. Qed.

Lemma covered_le acc : covered acc <= len.
Proof.
  destruct (block_count_spec x X) as (K1 & K2 & _). transitivity (sumZ (block_len x) (seqZ 0 (block_count x))); [| rewrite blocks_sum; lia].
  apply sumZ_le. intros q Hq. unfold covered_by, block_len. case_bool_decide; lia.
Qed.

(** When as many bytes are covered as there are, every block with bytes is in. *)
Lemma covered_full acc q : covered acc = len -> 0 <= q < block_count x -> 0 < block_len x q -> q ∈ acc.
Proof.
  intros Hc Hq Hp. destruct (decide (q ∈ acc)) as [| Hn]; [done |]. pose proof (covered_le ({[q]} ∪ acc)) as Hl. rewrite covered_add in Hl by done. lia.
Qed.

Lemma covered_all acc : (forall q, 0 <= q < block_count x -> q ∈ acc) -> covered acc = len.
Proof.
  intros H. unfold covered. rewrite (sumZ_eq _ (block_len x)); [destruct (block_count_spec x X) as (K1 & K2 & _); rewrite blocks_sum; lia |].
  intros q Hq%elem_of_seqZ. unfold covered_by. rewrite bool_decide_eq_true_2; [done |]. apply H. lia.
Qed.

Lemma covered_empty : covered ∅ = 0.
Proof.
  unfold covered. generalize (seqZ 0 (block_count x)). induction l as [| q l IH]; [done |]. cbn [sumZ foldr]. unfold sumZ in IH. rewrite IH. unfold covered_by.
  by rewrite bool_decide_eq_false_2 by set_solver.
Qed.

(** The block that holds position [p]. *)
Lemma block_at p : 0 <= p < len -> 0 <= p / bs < block_count x /\ p / bs * bs <= p < p / bs * bs + block_len x (p / bs).
Proof.
  intros Hp. pose proof (bs_pos x X). destruct (block_count_spec x X) as (K1 & K2 & _).
  pose proof (Z.div_mod p bs ltac:(lia)) as Hd. pose proof (Z.mod_pos_bound p bs ltac:(lia)). assert (0 <= p / bs) by (apply Z.div_pos; lia).
  assert (p / bs < block_count x) by (apply Z.div_lt_upper_bound; nia). split; [lia |]. unfold block_len. lia.
Qed.

End Covered.

(** ** A stream's receiver *)

(** The receiver of the stream [x] with the blocks [acc]. *)
Record rx_link (x : MuxTxSession) (r : ReceiverStreamState) (acc : gset Z) : Prop := {
  rl_inv : rx_inv (fun q => 0 <= q < block_count x) r acc;
  rl_id : mr_stream_id r = mx_stream_id x;
  rl_start : ms_have_start (mr_session r) = true -> ms_peer_nonce (mr_session r) = mx_nonce x /\ ms_shard_bytes (mr_session r) = lenZ (mx_shard x);
  rl_bytes : forall q p, q ∈ acc -> q * mx_block_size x <= p < q * mx_block_size x + block_len x q ->
    md_shard (mr_data r) !! Z.to_nat p = mx_shard x !! Z.to_nat p;
  rl_written : md_written (mr_data r) = covered x acc;
  rl_final : md_final_seq (mr_data r) = if bool_decide (block_count x - 1 ∈ acc) then block_count x - 1 else no_seq;
  rl_limit : ms_resource_limit (mr_session r) = true -> mr_done r = true;
  rl_done : mr_done r = true -> ms_resource_limit (mr_session r) = true \/ forall q, 0 <= q < block_count x -> q ∈ acc;
}.

Section Link.
Context (x : MuxTxSession) (X : wf_session x).
Notation len := (lenZ (mx_shard x)).
Notation bs := (mx_block_size x).

Lemma link_idle r acc : rx_link x r acc -> ms_have_start (mr_session r) = false -> acc = ∅ /\ mr_data r = mkMuxRxData [] 0 0 no_seq.
Proof. intros L E. pose proof (ri_shard _ _ _ (rl_inv _ _ _ L)) as H. by rewrite E in H. Qed.

Lemma link_start r acc ss alloc_ok :
  rx_link x r acc -> wf_msg ss -> ss_total_bytes ss = len -> ss_nonce ss = mx_nonce x -> rx_link x (rx_on_start r ss alloc_ok) acc.
Proof.
  intros L Hss Et En. pose proof (rx_on_start_inv _ r acc ss alloc_ok (rl_inv _ _ _ L) Hss) as I. unfold rx_on_start in *.
  destruct (ms_have_start (mr_session r)) eqn:Eh; [done |]. destruct (link_idle r acc L Eh) as [-> Ed]. destruct L as [_ H2 H3 H4 H5 H6 H7 H8].
  destruct (_ || _); split; cbn in *; try done; auto.
Qed.

Lemma blocks_apart q r p : 0 <= q < block_count x -> 0 <= r < block_count x -> q <> r -> q * bs <= p < q * bs + block_len x q -> r * bs <= p < r * bs + block_len x r -> False.
Proof.
  intros Hq Hr Hne H1 H2. pose proof (bs_pos x X). destruct (block_bounds x X q Hq) as (_ & B1 & _). destruct (block_bounds x X r Hr) as (_ & B2 & _).
  destruct (Z.lt_ge_cases q r); [assert ((q + 1) * bs <= r * bs) by (apply Z.mul_le_mono_nonneg_r; lia) | assert ((r + 1) * bs <= q * bs) by (apply Z.mul_le_mono_nonneg_r; lia)]; lia.
Qed.

(** What the copy of a planned block does. *)
Lemma copy_block r acc q d shard written :
  rx_link x r acc -> ms_have_start (mr_session r) = true -> wf_data d -> plan_block x q d -> q ∉ acc -> rx_copy (mr_data r) (dd_hdr d) (dd_payload d) = Ok (shard, written) ->
  written = covered x ({[q]} ∪ acc) /\
  forall p, 0 <= p -> shard !! Z.to_nat p = if decide (q * bs <= p < q * bs + block_len x q) then mx_shard x !! Z.to_nat p else md_shard (mr_data r) !! Z.to_nat p.
Proof.
  intros L Eh Hd (Hq & _ & _ & Eo & El & _ & Ep) Hn E. destruct (block_bounds x X q Hq) as (B1 & B2 & B3 & _). pose proof (bs_pos x X). pose proof (len_bound x X).
  pose proof (ri_shard _ _ _ (rl_inv _ _ _ L)) as Hs. rewrite Eh in Hs. destruct (rl_start _ _ _ L Eh) as [_ Es]. rewrite Es in Hs. destruct Hs as [Hs _].
  pose proof (covered_le x X ({[q]} ∪ acc)) as Hle. rewrite covered_add in Hle |- * by done. destruct Hd as (_ & _ & Hp). unfold rx_copy in E. destruct (dd_payload d) as [p |].
  - rewrite Eo, El, Hs in E. destruct (Z.leb_spec (q * bs) len); [| lia]. destruct (Z.leb_spec (block_len x q) (len - q * bs)); [| lia]. cbn [andb] in E.
    rewrite El in Hp. destruct Hp as [Hp0 Hp]. destruct (Z.ltb_spec (lenZ p) (block_len x q)); [lia |]. apply Ok_inj in E. injection E as <- <-.
    rewrite (rl_written _ _ _ L). split.
    { apply u64_small. unfold is_u64. assert (0 <= covered x acc) by (apply sumZ_nonneg; intros r' _; unfold covered_by, block_len; case_bool_decide; lia). lia. }
    assert (take (Z.to_nat (block_len x q)) p = slice (mx_shard x) (q * bs) (block_len x q)) as -> by (cbn in Ep; rewrite <- Ep; apply take_ge; unfold lenZ in Hp; lia).
    intros i Hi. rewrite splice_lookup by (rewrite ?lenZ_slice by lia; lia). rewrite lenZ_slice by lia. rewrite Z2Nat.id by lia.
    destruct (Z.leb_spec (q * bs) i), (Z.ltb_spec i (q * bs + block_len x q)); cbn [andb]; [rewrite decide_True by lia | by rewrite decide_False by lia ..].
    rewrite slice_lookup by lia. f_equal. lia.
  - rewrite El in Hp. apply Ok_inj in E. injection E as <- <-. rewrite (rl_written _ _ _ L). split; [lia |]. intros i Hi. by rewrite decide_False by lia.
Qed.

Lemma link_base r acc : rx_link x r acc -> rs_base_seq_no (mr_rx r) + 1024 < 2 ^ 64.
Proof.
  intros L. pose proof (rl_inv _ _ _ L) as I. pose proof (len_bound x X). destruct (block_count_spec x X) as (_ & _ & _ & _ & K5).
  destruct (Z.le_gt_cases (rs_base_seq_no (mr_rx r)) 0); [lia |].
  assert (rs_base_seq_no (mr_rx r) - 1 ∈ acc) as Hin by (apply (rr_below _ _ _ (rc_ring _ _ (proj1 (ri_rx _ _ _ I)))); lia).
  pose proof (ri_acc _ _ _ I _ Hin) as Hr. cbn beta in Hr. lia.
Qed.

Lemma plan_last q d : plan_block x q d -> negb (Z.land (bh_flags (dd_hdr d)) kFlagLastBlock =? 0) = (q =? block_count x - 1).
Proof. intros (_ & _ & _ & _ & _ & Hf & _). unfold block_flags in Hf. destruct (q =? block_count x - 1); by destruct Hf as [-> | ->]. Qed.

Lemma link_data r acc q d c :
  rx_link x r acc -> wf_data d -> plan_block x q d ->
  returns (rx_on_data r d c) (fun r' => exists acc', acc ⊆ acc' /\ rx_link x r' acc' /\ mr_session r' = mr_session r).
Proof.
  intros L Hd Hp. destruct (ms_have_start (mr_session r)) eqn:Eh; [| unfold rx_on_data; rewrite Eh; apply returns_ok; exists acc; done].
  pose proof Hp as (Hq & _ & Eq & _). destruct (rx_on_data_spec _ r acc d c (rl_inv _ _ _ L) Eh Hd (link_base _ _ L)) as (r' & E & acc' & I' & Ei & Es & Ed & T); [by rewrite Eq |].
  exists r'. split; [done |]. exists acc'. rewrite Eq in T. destruct T as [[-> Edt] | (Hn & -> & shard & written & Ec & Edt)].
  { split; [done |]. split; [| done]. destruct L as [_ H2 H3 H4 H5 H6 H7 H8]. split; rewrite ?Ei, ?Es, ?Edt, ?Ed; done. }
  split; [set_solver |]. split; [| done]. destruct (copy_block r acc q d shard written L Eh Hd Hp Hn Ec) as [Hw Hsh]. rewrite (plan_last q d Hp) in Edt.
  pose proof L as [_ H2 H3 H4 H5 H6 H7 H8]. split; rewrite ?Ei, ?Es, ?Edt, ?Ed; cbn [md_shard md_written md_final_seq]; try done.
  - intros k p Hk Hr. pose proof (ri_acc _ _ _ I' _ Hk) as Hk0. cbn beta in Hk0. rewrite Hsh by (pose proof (bs_pos x X); nia). destruct (decide _) as [| Hout]; [done |].
    apply elem_of_union in Hk as [->%elem_of_singleton | Hk]; [done | by apply (H4 k)].
  - rewrite H6. destruct (Z.eqb_spec q (block_count x - 1)) as [-> | Hne]; [by rewrite bool_decide_eq_true_2 by set_solver |].
    rewrite (bool_decide_ext (block_count x - 1 ∈ {[q]} ∪ acc) (block_count x - 1 ∈ acc)); [done | set_solver].
  - intros Hdn. destruct (H8 Hdn) as [| Hall]; [by left | right]. intros k Hk. apply elem_of_union_r. auto.
Qed.

(** What the receiver says to the stream's sender: an Ack of its only claims blocks
    that have arrived and will be kept. *)
Definition kept_block (r : ReceiverStreamState) (acc : gset Z) (q : Z) : Prop := q ∈ acc /\ ms_resource_limit (mr_session r) = false.

Definition vouched_ack (r : ReceiverStreamState) (acc : gset Z) (dg : bytes) : Prop :=
  forall a, decode_ack dg = Ok a -> ack_stream_id a = mx_stream_id x -> forall q, claims a q -> kept_block r acc q.

Lemma link_served r r' acc out :
  rx_link x r acc -> rx_served (fun q => 0 <= q < block_count x) acc r r' out -> (ms_resource_limit (mr_session r) = true -> out = []) ->
  rx_link x r' acc /\ Forall (vouched_ack r' acc) out.
Proof.
  intros L (I & E1 & E2 & E3 & Ho & Hd & Hd') Hl. pose proof L as [_ H2 H3 H4 H5 H6 H7 H8]. split.
  - split; rewrite ?E1, ?E2, ?E3; try done.
    + auto.
    + intros Hdn. destruct (Hd Hdn) as [Hdn' | [Hf Hall]]; [auto |]. right. rewrite H6 in Hf, Hall. case_bool_decide; [| done]. intros q Hq. apply Hall. lia.
  - destruct (ms_resource_limit (mr_session r)) eqn:Er; [by rewrite Hl |]. eapply Forall_impl; [exact Ho |]. intros dg Hs a Ea _ q Hc. split; [| by rewrite E2].
    by apply (Hs a Ea).
Qed.

End Link.

(** ** The whole transfer *)

(** A datagram the receiver's dispatch ignores. *)
Definition neutral (dg : bytes) : Prop := forall t, peek_msg_type dg = Ok t -> t <> MsgType.code MsgType.StreamStart /\ t <> MsgType.code MsgType.Data.

Definition stream_link (back : list bytes) (x : MuxTxSession) (s : SenderStreamState) (r : ReceiverStreamState) : Prop :=
  exists acc, rx_link x r acc /\ mtx_inv x (kept_block r acc) s /\ Forall (vouched_ack x r acc) back.

(** The transfer of the streams [xs]. *)
Record mux_inv (xs : list MuxTxSession) (n : MuxNet) : Prop := {
  mi_tx : length (mn_tx n) = length xs;
  mi_rx : length (mn_rx n) = length xs;
  mi_link : forall i x s r, xs !! i = Some x -> mn_tx n !! i = Some s -> mn_rx n !! i = Some r -> stream_link (mn_back n) x s r;
  mi_fwd : Forall (fun dg => (exists x, x ∈ xs /\ tx_says x dg) \/ neutral dg) (mn_fwd n);
}.

Section System.
Context (xs : list MuxTxSession) (Hxs : forall i x, xs !! i = Some x -> wf_session x /\ mx_stream_id x = Z.of_nat i).

Lemma streams_at n i s : mux_inv xs n -> mn_tx n !! i = Some s -> exists x r, xs !! i = Some x /\ mn_rx n !! i = Some r /\ stream_link (mn_back n) x s r.
Proof.
  intros I Es. destruct (lookup_lt_is_Some_2 xs i) as [x Ex]; [rewrite <- (mi_tx _ _ I); by eapply lookup_lt_Some |].
  destruct (lookup_lt_is_Some_2 (mn_rx n) i) as [r Er]; [rewrite (mi_rx _ _ I), <- (mi_tx _ _ I); by eapply lookup_lt_Some |].
  exists x, r. split_and!; try done. by eapply (mi_link _ _ I).
Qed.

Lemma receivers_at n i r : mux_inv xs n -> mn_rx n !! i = Some r -> exists x s, xs !! i = Some x /\ mn_tx n !! i = Some s /\ stream_link (mn_back n) x s r.
Proof.
  intros I Er. destruct (lookup_lt_is_Some_2 (mn_tx n) i) as [s Es]; [rewrite (mi_tx _ _ I), <- (mi_rx _ _ I); by eapply lookup_lt_Some |].
  destruct (streams_at n i s I Es) as (x & r' & Ex & Er' & L). rewrite Er in Er'. injection Er' as <-. by exists x, s.
Qed.

Lemma says_in i x out : xs !! i = Some x -> Forall (tx_says x) out -> Forall (fun dg => (exists x, x ∈ xs /\ tx_says x dg) \/ neutral dg) out.
Proof. intros Ex Ho. eapply Forall_impl; [exact Ho |]. intros dg Hd. left. exists x. split; [by eapply list_elem_of_lookup_2 | done]. Qed.

(** A stream's sender changed. *)
Lemma inv_tx n i s s' x r init out :
  mux_inv xs n -> mn_tx n !! i = Some s -> xs !! i = Some x -> mn_rx n !! i = Some r -> stream_link (mn_back n) x s' r -> Forall (tx_says x) out ->
  mux_inv xs (mkMuxNet (<[i := s']> (mn_tx n)) init (mn_rx n) (mn_fwd n ++ out) (mn_back n)).
Proof.
  intros I Es Ex Er L Ho. split; cbn; [by rewrite length_insert; apply I | apply I | | apply Forall_app; split; [apply I | by eapply says_in]].
  intros k x' t r' Ex' Et Er'. apply list_lookup_insert_Some in Et as [(<- & <- & _) | [_ Et]]; [| by eapply (mi_link _ _ I)].
  rewrite Ex in Ex'. rewrite Er in Er'. by injection Ex' as <-; injection Er' as <-.
Qed.

(** A stream's receiver changed, keeping what it has. *)
Lemma inv_rx n i r r' x s acc acc' out :
  mux_inv xs n -> mn_rx n !! i = Some r -> xs !! i = Some x -> mn_tx n !! i = Some s ->
  mtx_inv x (kept_block r acc) s -> Forall (vouched_ack x r acc) (mn_back n) -> (forall q, kept_block r acc q -> kept_block r' acc' q) -> rx_link x r' acc' ->
  Forall (vouched_ack x r' acc') out -> Forall (fun dg => forall a, decode_ack dg = Ok a -> ack_stream_id a = Z.of_nat i) out ->
  mux_inv xs (mkMuxNet (mn_tx n) (mn_init n) (<[i := r']> (mn_rx n)) (mn_fwd n) (mn_back n ++ out)).
Proof.
  intros I Er Ex Es T V Hk L Ho Hid. split; cbn; [apply I | by rewrite length_insert; apply I | | apply I].
  intros k x' t r'' Ex' Et Er'. apply list_lookup_insert_Some in Er' as [(<- & <- & _) | [Hne Er']].
  - rewrite Ex in Ex'. rewrite Es in Et. injection Ex' as <-; injection Et as <-. exists acc'. split; [done |]. split; [by eapply mtx_inv_mono |].
    apply Forall_app. split; [| done]. eapply Forall_impl; [exact V |]. intros dg H a Ea Ei q Hc. by eapply Hk, H.
  - destruct (mi_link _ _ I k x' t r'' Ex' Et Er') as (acc2 & L2 & T2 & V2). exists acc2. split_and!; [done | done |]. apply Forall_app. split; [done |].
    eapply Forall_impl; [exact Hid |]. intros dg H a Ea Ei. exfalso. rewrite (H a Ea) in Ei. destruct (Hxs _ _ Ex') as [_ Ek]. lia.
Qed.

Lemma try_send_inv n i s c :
  mux_inv xs n -> mn_tx n !! i = Some s ->
  returns (try_send_one s c) (fun '(s', out, _) => mux_inv xs (mkMuxNet (<[i := s']> (mn_tx n)) (mn_init n) (mn_rx n) (mn_fwd n ++ out) (mn_back n))).
Proof.
  intros I Es. destruct (streams_at n i s I Es) as (x & r & Ex & Er & acc & L & T & V). destruct (Hxs _ _ Ex) as [X _].
  destruct (try_send_one_spec x X _ s c T) as ([[s' out] did] & E & T' & O). exists (s', out, did). split; [done |]. eapply inv_tx; try done. by exists acc.
Qed.

Lemma service_inv n i r t :
  mux_inv xs n -> mn_rx n !! i = Some r ->
  returns (rx_try_service_one r t) (fun '(r', out, _) => mux_inv xs (mkMuxNet (mn_tx n) (mn_init n) (<[i := r']> (mn_rx n)) (mn_fwd n) (mn_back n ++ out))).
Proof.
  intros I Er. destruct (receivers_at n i r I Er) as (x & s & Ex & Es & acc & L & T & V). destruct (Hxs _ _ Ex) as [X Ei].
  destruct (rx_try_service_one_spec _ r acc t (rl_inv _ _ _ L)) as ([[r' out] did] & E & Sv). exists (r', out, did). split; [done |].
  destruct (link_served x r r' acc out L Sv) as [L' V'].
  { intros Hl. pose proof (rl_limit _ _ _ L Hl) as Hd. unfold rx_try_service_one in E. rewrite Hd in E. cbn in E. apply Ok_inj in E. by injection E as _ <- _. }
  destruct Sv as (_ & _ & E2 & _ & Ho & _). eapply inv_rx; try done.
  - intros q [Hq Hr]. split; [done | by rewrite E2].
  - eapply Forall_impl; [exact Ho |]. intros dg H a Ea. destruct (H a Ea) as (-> & _). by rewrite (rl_id _ _ _ L).
Qed.

Lemma last_acks_inv n i r :
  mux_inv xs n -> mn_rx n !! i = Some r ->
  returns (rx_final_acks r) (fun out => mux_inv xs (mkMuxNet (mn_tx n) (mn_init n) (mn_rx n) (mn_fwd n) (mn_back n ++ out))).
Proof.
  intros I Er. destruct (receivers_at n i r I Er) as (x & s & Ex & Es & acc & L & T & V). destruct (Hxs _ _ Ex) as [X Ei].
  destruct (rx_final_acks_spec _ r acc (rl_inv _ _ _ L)) as (out & E & Ho). exists out. split; [done |]. rewrite <- (list_insert_id (mn_rx n) i r Er) at 1.
  assert (Forall (vouched_ack x r acc) out) as Hv.
  { destruct (ms_resource_limit (mr_session r)) eqn:Hl.
    - unfold rx_final_acks in E. rewrite Hl, orb_true_r in E. apply Ok_inj in E as <-. done.
    - eapply Forall_impl; [exact Ho |]. intros dg H a Ea _ q Hc. split; [by apply (H a Ea) | done]. }
  eapply inv_rx; try done. eapply Forall_impl; [exact Ho |]. intros dg H a Ea. destruct (H a Ea) as (-> & _). by rewrite (rl_id _ _ _ L).
Qed.

(** The wire of a message, seen by the dispatchers. *)
Lemma wire_seen (M : Type) t `{MT : MessageType M t} `{!CodecLaws M} (m : M) : wf_msg m -> peek_msg_type (wire m) = Ok (MsgType.code t) /\ decode (wire m) = Ok m.
Proof. intros Hm. pose proof (wire_peeks m [] Hm) as Ep. pose proof (decode_wire m [] Hm) as Ed. by rewrite app_nil_r in Ep, Ed. Qed.

Lemma receiver_of n i x : mux_inv xs n -> xs !! i = Some x -> exists r s, nthZ (mn_rx n) (mx_stream_id x) = Some r /\ mn_rx n !! i = Some r /\ mn_tx n !! i = Some s /\
  (forall r', setZ (mn_rx n) (mx_stream_id x) r' = <[i := r']> (mn_rx n)) /\ stream_link (mn_back n) x s r.
Proof.
  intros I Ex. destruct (Hxs _ _ Ex) as [_ Ei]. destruct (lookup_lt_is_Some_2 (mn_rx n) i) as [r Er]; [rewrite (mi_rx _ _ I); by eapply lookup_lt_Some |].
  destruct (receivers_at n i r I Er) as (x' & s & Ex' & Es & L). rewrite Ex in Ex'. injection Ex' as <-. exists r, s. rewrite Ei. unfold setZ.
  rewrite nthZ_lookup, Nat2Z.id by lia. by split_and!.
Qed.

Lemma arrive_start n x m alloc_ok c :
  mux_inv xs n -> x ∈ xs -> wf_msg m -> ss_stream_id m = mx_stream_id x -> ss_total_bytes m = lenZ (mx_shard x) -> ss_nonce m = mx_nonce x ->
  returns (rx_dispatch_incoming (mn_rx n) (wire m) alloc_ok c) (fun rx' => mux_inv xs (mkMuxNet (mn_tx n) (mn_init n) rx' (mn_fwd n) (mn_back n))).
Proof.
  intros I [i Ex]%list_elem_of_lookup Hm E1 E2 E3. destruct (wire_seen StreamStart MsgType.StreamStart m Hm) as [Ep Ed]. cbn [decode stream_start_codec] in Ed.
  destruct (receiver_of n i x I Ex) as (r & s & En & Er & Es & Eset & acc & L & T & V). unfold rx_dispatch_incoming. rewrite Ep. cbn [try_decode]. rewrite Z.eqb_refl, Ed. cbn [try_decode].
  unfold on_stream. rewrite E1, En. cbn [res_bind]. rewrite Eset. apply returns_ok. rewrite <- (app_nil_r (mn_back n)) at 1.
  eapply (inv_rx n i r _ x s acc acc); try done; [| by apply link_start]. intros q Hq. unfold rx_on_start. destruct (ms_have_start (mr_session r)) eqn:Eh; [done |].
  destruct (link_idle x r acc L Eh) as [-> _]. destruct Hq as [Hq _]. by apply elem_of_empty in Hq.
Qed.

Lemma arrive_block n x q d alloc_ok c :
  mux_inv xs n -> x ∈ xs -> wf_msg d -> plan_block x q d ->
  returns (rx_dispatch_incoming (mn_rx n) (wire d) alloc_ok c) (fun rx' => mux_inv xs (mkMuxNet (mn_tx n) (mn_init n) rx' (mn_fwd n) (mn_back n))).
Proof.
  intros I [i Ex]%list_elem_of_lookup Hd Hp. destruct (wire_seen DataDatagram MsgType.Data d Hd) as [Ep Ed]. cbn [decode data_codec] in Ed.
  destruct (receiver_of n i x I Ex) as (r & s & En & Er & Es & Eset & acc & L & T & V). unfold rx_dispatch_incoming. rewrite Ep. cbn [try_decode].
  change (MsgType.code MsgType.Data =? MsgType.code MsgType.StreamStart) with false. rewrite Z.eqb_refl. cbn [negb]. rewrite Ed. cbn [try_decode].
  destruct (Hxs _ _ Ex) as [X _]. pose proof Hp as (_ & Eid & _). unfold on_stream. rewrite Eid, En. destruct (link_data x X r acc q d c L Hd Hp) as (r' & -> & acc' & Hs & L' & Ese).
  cbn [res_bind]. rewrite Eset. apply returns_ok. rewrite <- (app_nil_r (mn_back n)) at 1. eapply (inv_rx n i r r' x s acc acc'); try done.
  intros k [Hk Hl]. split; [by apply Hs | by rewrite Ese].
Qed.

Lemma arrive_inv n dg alloc_ok c :
  mux_inv xs n -> dg ∈ mn_fwd n ->
  returns (rx_dispatch_incoming (mn_rx n) dg alloc_ok c) (fun rx' => mux_inv xs (mkMuxNet (mn_tx n) (mn_init n) rx' (mn_fwd n) (mn_back n))).
Proof.
  intros I Hin. destruct (proj1 (list.Forall_forall _ _) (mi_fwd _ _ I) dg Hin) as [(x & Hx & Hs) | Hn].
  - destruct Hs as [m Hm E1 E2 E3 | q d Hd Hp]; [by apply arrive_start with x | by apply arrive_block with x q].
  - unfold rx_dispatch_incoming. destruct (peek_msg_type dg) as [| | t] eqn:Ep; cbn [try_decode]; [by apply peek_total in Ep | by apply returns_ok; destruct I |].
    destruct (Hn t Ep) as [N1 N2]. apply Z.eqb_neq in N1 as ->. apply Z.eqb_neq in N2 as ->. by apply returns_ok; destruct I.
Qed.

Lemma sender_of n id s : mux_inv xs n -> nthZ (mn_tx n) id = Some s -> exists i x r, id = Z.of_nat i /\ mn_tx n !! i = Some s /\ xs !! i = Some x /\ mn_rx n !! i = Some r /\
  (forall s', setZ (mn_tx n) id s' = <[i := s']> (mn_tx n)) /\ stream_link (mn_back n) x s r.
Proof.
  intros I [Hr Es]%nthZ_inv. destruct (streams_at n _ s I Es) as (x & r & Ex & Er & L). exists (Z.to_nat id), x, r. unfold setZ. rewrite Z2Nat.id by lia. by split_and!.
Qed.

Lemma reply_ack n dg ack c init :
  mux_inv xs n -> Forall is_u8 dg -> decode_ack dg = Ok ack -> wf_msg ack -> dg ∈ mn_back n \/ foreign_ack (mn_tx n) dg ->
  returns (on_stream (mn_tx n) (ack_stream_id ack) (fun s => mux_on_ack s ack c)) (fun tx' => mux_inv xs (mkMuxNet tx' init (mn_rx n) (mn_fwd n ++ []) (mn_back n))).
Proof.
  intros I Hb Ea Ha Hg. unfold on_stream. destruct (nthZ (mn_tx n) (ack_stream_id ack)) as [s |] eqn:En; [| apply returns_ok; rewrite app_nil_r; by destruct I].
  destruct (sender_of n _ s I En) as (i & x & r & Eid & Es & Ex & Er & Eset & acc & L & T & V). destruct (Hxs _ _ Ex) as [X Ei].
  destruct (mux_on_ack_spec x X _ s ack c T Ha) as (s' & -> & T').
  - intros Hn q Hc. destruct Hg as [Hg | Hg]; [| exfalso; apply (Hg ack s Ea En); by rewrite (ti_session _ _ _ T)].
    apply (proj1 (list.Forall_forall _ _) V dg Hg ack Ea); [congruence | done].
  - cbn [res_bind]. rewrite Eset. apply returns_ok. eapply inv_tx; try done. by exists acc.
Qed.

Lemma reply_nack n nack outs init :
  mux_inv xs n ->
  returns (match nthZ (mn_tx n) (nack_stream_id nack) with
           | Some s => res_bind (mux_on_nack s nack outs) (fun '(s, out) => Ok (setZ (mn_tx n) (nack_stream_id nack) s, init, out))
           | None => Ok (mn_tx n, init, [])
           end) (fun '(tx', init', out) => mux_inv xs (mkMuxNet tx' init' (mn_rx n) (mn_fwd n ++ out) (mn_back n))).
Proof.
  intros I. destruct (nthZ (mn_tx n) (nack_stream_id nack)) as [s |] eqn:En; [| apply returns_ok; rewrite app_nil_r; by destruct I].
  destruct (sender_of n _ s I En) as (i & x & r & Eid & Es & Ex & Er & Eset & acc & L & T & V). destruct (Hxs _ _ Ex) as [X Ei].
  destruct (mux_on_nack_spec x X _ s nack outs T) as ([s' out] & -> & T' & O). cbn [res_bind]. rewrite Eset. apply returns_ok. eapply inv_tx; try done. by exists acc.
Qed.

Lemma finack_neutral i dg out now : Forall is_u8 dg ->
  returns (initiator_on_datagram i dg out now) (fun '(_, buf, n) => Forall neutral (emitted buf n)).
Proof.
  intros Hb. assert (forall st : SetupInitiator, returns (Ok (st, out, 0)) (fun '(_, buf, n) => Forall neutral (emitted buf n))) as Hq by (intros st; by apply returns_ok).
  unfold initiator_on_datagram. destruct (peek_msg_type dg) as [| | t] eqn:Ep; [by apply peek_total in Ep | apply Hq |]. destruct (negb _); [apply Hq |].
  destruct (decode_setup_hash _ dg) as [| | [h m]] eqn:Ed; [by apply decode_setup_hash_no_fault in Ed | apply Hq |]. destruct (negb _); [apply Hq |].
  rewrite encode_setup_hash_writes by (by right). destruct (_ <? _); cbn [res_bind]; [apply Hq |]. apply returns_ok. cbn [emitted si_my_hash si_responder_nonce].
  change (emitted (setup_hash_wire ?t ?a ?b ++ ?rest) 18) with [setup_hash_wire t a b]. constructor; [| done]. unfold setup_hash_wire. intros t' Et. rewrite peek_outer in Et. by apply Ok_inj in Et as <-.
Qed.

Lemma reply_inv n dg c outs now :
  mux_inv xs n -> Forall is_u8 dg -> dg ∈ mn_back n \/ foreign_ack (mn_tx n) dg ->
  returns (tx_dispatch_incoming (mn_tx n) (mn_init n) dg c outs now) (fun '(tx', init', out) => mux_inv xs (mkMuxNet tx' init' (mn_rx n) (mn_fwd n ++ out) (mn_back n))).
Proof.
  intros I Hb Hg. assert (forall init, returns (Ok (mn_tx n, init, [])) (fun '(tx', init', out) => mux_inv xs (mkMuxNet tx' init' (mn_rx n) (mn_fwd n ++ out) (mn_back n)))) as Hskip.
  { intros init. apply returns_ok. rewrite app_nil_r. by destruct I. }
  unfold tx_dispatch_incoming. destruct (peek_msg_type dg) as [| | t] eqn:Ep; cbn [try_decode]; [by apply peek_total in Ep | apply Hskip |].
  destruct (t =? _); [| destruct (t =? _); [| destruct (t =? _); [| apply Hskip]]].
  - apply (returns_decoded Ack _ dg); [done | done | | apply Hskip]. intros ack Ea Ha. eapply returns_bind; [by apply (reply_ack n dg ack c (mn_init n)) |].
    intros tx' I'. by apply returns_ok.
  - apply (returns_decoded Nack _ dg); [done | done | | apply Hskip]. intros nack _ _. by apply reply_nack.
  - destruct (mn_init n) as [i |]; [| apply Hskip]. eapply returns_bind; [by apply finack_neutral |]. intros [[i' buf] k] Ho. apply returns_ok. destruct I as [I1 I2 I3 I4]. split; cbn; try done.
    apply Forall_app. split; [done |]. eapply Forall_impl; [exact Ho |]. auto.
Qed.

Lemma mux_step_inv n n' : mux_inv xs n -> mux_step n n' -> mux_inv xs n'.
Proof.
  intros I Hs. destruct Hs as [n i s c s' out did Es E | n dg c outs now tx' init' out Hb Hg E | n dg alloc_ok c rx' Hb Hin E | n i r t r' out did Er E | n r out Hr E].
  - destruct (try_send_inv n i s c I Es) as (a & E' & H). rewrite E in E'. by apply Ok_inj in E' as <-.
  - destruct (reply_inv n dg c outs now I Hb Hg) as (a & E' & H). rewrite E in E'. by apply Ok_inj in E' as <-.
  - destruct (arrive_inv n dg alloc_ok c I Hin) as (a & E' & H). rewrite E in E'. by apply Ok_inj in E' as <-.
  - destruct (service_inv n i r t I Er) as (a & E' & H). rewrite E in E'. by apply Ok_inj in E' as <-.
  - apply list_elem_of_lookup in Hr as [i Er]. destruct (last_acks_inv n i r I Er) as (a & E' & H). rewrite E in E'. by apply Ok_inj in E' as <-.
Qed.
End System.

(** ** What Ok means *)

Lemma worst_of_ok statuses : worst_of statuses = StOk <-> Forall (fun st => st = StOk) statuses.
Proof.
  set (mk := fun st => mkLaneResult 0 0 0 0 0 0 st 0 false 0 false).
  assert (worst_of statuses = worst (mk <$> statuses)) as ->.
  { unfold worst_of, worst. generalize StOk. induction statuses as [| a l IH]; intros st; [done |]. cbn [fmap list_fmap foldl]. apply IH. }
  rewrite worst_ok, Forall_fmap. done.
Qed.

Record mux_config_ok (cfg : MuxTransferConfig) (data : bytes) (rnd : Z -> Z * Z) : Prop := {
  mo_streams : 1 <= mc_num_streams cfg <= kMaxStreams;
  mo_block : 0 < mc_block_size cfg <= kMaxPayloadSize;
  mo_window : 4 <= mc_window_size cfg <= kMaxWindow;
  mo_data : lenZ data < 2 ^ 63;
  mo_nonce : forall i, is_u64 (fst (rnd i));
}.

Section Transfer.
Context (cfg : MuxTransferConfig) (data : bytes) (rnd : Z -> Z * Z) (O : mux_config_ok cfg data rnd).

Definition mux_sessions : list MuxTxSession := mux_session cfg data rnd <$> seq 0 (Z.to_nat (mc_num_streams cfg)).

Lemma sessions_wf i x : mux_sessions !! i = Some x -> wf_session x /\ mx_stream_id x = Z.of_nat i.
Proof.
  intros E. unfold mux_sessions in E. rewrite list_lookup_fmap in E. apply fmap_Some in E as (k & Ek & ->). apply lookup_seq in Ek as [-> Hk]. cbn [Nat.add] in *.
  pose proof (mo_streams _ _ _ O) as Hn. unfold kMaxStreams in Hn. pose proof (mo_data _ _ _ O) as Hd. pose proof (lenZ_nonneg data).
  destruct (shard_inside (mc_num_streams cfg) (lenZ data) ltac:(lia) ltac:(lia) (Z.of_nat i) ltac:(lia)) as (H1 & H2 & H3).
  split; [| done]. split; cbn; try apply O; [unfold is_u16; lia |]. change mux_shard_off with shard_off. change mux_shard_len with shard_len. rewrite lenZ_slice by lia. lia.
Qed.

Lemma sessions_join : mjoin (mx_shard <$> mux_sessions) = data.
Proof.
  unfold mux_sessions. rewrite <- list_fmap_compose. pose proof (mo_streams _ _ _ O) as Hn. unfold kMaxStreams in Hn. pose proof (mo_data _ _ _ O) as Hd. pose proof (lenZ_nonneg data).
  pose proof (shards_prefix (mc_num_streams cfg) (lenZ data) ltac:(lia) ltac:(lia) data (Z.to_nat (mc_num_streams cfg)) eq_refl ltac:(lia)) as E.
  change (mx_shard ∘ mux_session cfg data rnd) with (fun i => slice data (shard_off (mc_num_streams cfg) (lenZ data) (Z.of_nat i)) (shard_len (mc_num_streams cfg) (lenZ data) (Z.of_nat i))).
  rewrite E. destruct (shard_ceil (mc_num_streams cfg) (lenZ data) ltac:(lia) ltac:(lia)) as (_ & _ & Hc). apply take_ge. unfold lenZ in *. lia.
Qed.

Lemma mux_start_inv init now now' : mux_inv mux_sessions (mux_start cfg data rnd init (mux_payload cfg) now now').
Proof.
  pose proof (mo_streams _ _ _ O) as Hn. unfold kMaxStreams in Hn. split; cbn.
  - unfold tx_build_streams, mux_sessions. by rewrite !length_fmap.
  - unfold rx_build_streams, mux_sessions. rewrite !length_fmap, length_seqZ, length_seq. done.
  - intros i x s r Ex Es Er. destruct (sessions_wf i x Ex) as [X Ei]. exists ∅.
    assert (r = new_rx_stream (mx_stream_id x) (mc_window_size cfg) now') as ->.
    { unfold rx_build_streams in Er. rewrite list_lookup_fmap in Er. apply fmap_Some in Er as (k & Ek & ->). apply lookup_seqZ in Ek as [-> Hk]. cbn in Hk. rewrite Ei.
      unfold stream_at, mux_payload. cbn [sp_streams]. replace (Z.to_nat (0 + Z.of_nat i)) with i by lia. rewrite app_nth1 by (rewrite length_fmap, length_seqZ; lia).
      erewrite nth_lookup_Some; [| rewrite list_lookup_fmap, (proj2 (lookup_seqZ _ _ _ _)) by (split; [done | lia]); done]. cbn. f_equal; lia. }
    assert (s = new_tx_stream x now) as ->.
    { unfold tx_build_streams in Es. unfold mux_sessions in Ex. rewrite list_lookup_fmap in Es. rewrite list_lookup_fmap in Ex.
      destruct (seq _ _ !! i); [| done]. by injection Es as <-; injection Ex as <-. }
    split_and!; [| eapply mtx_inv_mono; [| by apply new_tx_stream_inv]; done | done]. split; cbn; try done.
    + apply new_rx_stream_inv, X.
    + by rewrite covered_empty.
  - done.
Qed.

Lemma reachable_inv init now now' n : rtc mux_step (mux_start cfg data rnd init (mux_payload cfg) now now') n -> mux_inv mux_sessions n.
Proof.
  apply (rtc_ind_r (mux_inv mux_sessions)); [apply mux_start_inv |]. intros n1 n2 _ Hs I. eapply mux_step_inv; [apply sessions_wf | done | done].
Qed.

(** A receiver with every block, or with as many bytes as the stream has. *)
Lemma shard_whole x r acc : wf_session x -> rx_link x r acc -> ms_have_start (mr_session r) = true -> covered x acc = lenZ (mx_shard x) -> md_shard (mr_data r) = mx_shard x.
Proof.
  intros X L Eh Hc. pose proof (ri_shard _ _ _ (rl_inv _ _ _ L)) as Hs. rewrite Eh in Hs. destruct (rl_start _ _ _ L Eh) as [_ Es]. rewrite Es in Hs. destruct Hs as [Hs _].
  apply list_eq. intros p. destruct (decide (Z.of_nat p < lenZ (mx_shard x))) as [Hp | Hp].
  - destruct (block_at x X (Z.of_nat p) ltac:(lia)) as [Hq Hr]. rewrite <- (Nat2Z.id p). apply (rl_bytes _ _ _ L (Z.of_nat p / mx_block_size x)); [| done].
    apply (covered_full x X); [done | done | lia].
  - unfold lenZ in *. rewrite !lookup_ge_None_2 by lia. done.
Qed.

Lemma rx_ok_whole n i x r timed_out :
  mux_inv mux_sessions n -> mux_sessions !! i = Some x -> mn_rx n !! i = Some r -> rx_result timed_out r = StOk -> md_shard (mr_data r) = mx_shard x.
Proof.
  intros I Ex Er Hs. destruct (sessions_wf i x Ex) as [X _]. destruct (receivers_at mux_sessions n i r I Er) as (x' & s & Ex' & _ & acc & L & _). rewrite Ex in Ex'. injection Ex' as <-.
  unfold rx_result in Hs. destruct (ms_resource_limit _); [done |]. destruct (ms_have_start (mr_session r)) eqn:Eh; cbn [andb] in Hs; [| by destruct timed_out].
  destruct (Z.eqb_spec (md_written (mr_data r)) (ms_shard_bytes (mr_session r))) as [Ew |]; [| by destruct timed_out].
  eapply shard_whole; [done | done | done |]. rewrite (rl_written _ _ _ L) in Ew. by rewrite Ew, (proj2 (rl_start _ _ _ L Eh)).
Qed.

(** A sender that is done has a receiver that will report Ok. *)
Lemma tx_done_rx_ok n i x s r timed_out :
  mux_inv mux_sessions n -> mux_sessions !! i = Some x -> mn_tx n !! i = Some s -> mn_rx n !! i = Some r -> mt_done s = true -> rx_result timed_out r = StOk.
Proof.
  intros I Ex Es Er Hd. destruct (sessions_wf i x Ex) as [X _]. destruct (mi_link _ _ I i x s r Ex Es Er) as (acc & L & T & _).
  pose proof (ti_done _ _ _ T Hd) as Hb. destruct (block_count_spec x X) as (K1 & _).
  assert (forall q, 0 <= q < block_count x -> kept_block r acc q) as Hk by (intros q Hq; apply (ti_base _ _ _ T); lia).
  destruct (Hk 0 ltac:(lia)) as [H0 Hl]. destruct (ms_have_start (mr_session r)) eqn:Eh; [| destruct (link_idle x r acc L Eh) as [-> _]; by apply elem_of_empty in H0].
  unfold rx_result. rewrite Hl, Eh, (rl_written _ _ _ L), (proj2 (rl_start _ _ _ L Eh)), (covered_all x X) by (intros q Hq; by apply Hk). by rewrite Z.eqb_refl.
Qed.

Lemma rx_output n timed_out :
  mux_inv mux_sessions n -> worst_of (rx_result timed_out <$> mn_rx n) = StOk -> mjoin ((fun s => md_shard (mr_data s)) <$> mn_rx n) = data.
Proof.
  intros I Hw. apply worst_of_ok in Hw. rewrite Forall_fmap in Hw. rewrite <- sessions_join. f_equal. apply list_eq. intros i. rewrite !list_lookup_fmap.
  destruct (mn_rx n !! i) as [r |] eqn:Er.
  - destruct (lookup_lt_is_Some_2 mux_sessions i) as [x Ex]; [rewrite <- (mi_rx _ _ I); by eapply lookup_lt_Some |]. rewrite Ex. cbn. f_equal.
    eapply rx_ok_whole; [done | done | done |]. by apply (Forall_lookup_1 _ _ _ _ Hw Er).
  - apply lookup_ge_None in Er. rewrite (mi_rx _ _ I) in Er. by rewrite (lookup_ge_None_2 mux_sessions i).
Qed.

Lemma tx_ok_delivers n timed_out timed_out' : mux_inv mux_sessions n -> tx_finish (mn_tx n) timed_out = StOk -> rx_finish (mn_rx n) timed_out' = (StOk, data).
Proof.
  intros I Ht. apply worst_of_ok in Ht. rewrite Forall_fmap in Ht. unfold rx_finish. assert (worst_of (rx_result timed_out' <$> mn_rx n) = StOk) as Es.
  { apply worst_of_ok. rewrite Forall_fmap. apply Forall_lookup_2. intros i r Er. destruct (receivers_at _ n i r I Er) as (x & s & Ex & Es & _).
    eapply (tx_done_rx_ok n i x s r timed_out' I Ex Es Er). pose proof (Forall_lookup_1 _ _ _ _ Ht Es) as Hs. cbn in Hs. unfold tx_result in Hs.
    destruct (mt_done s); [done |]. by destruct timed_out. }
  rewrite Es, bool_decide_eq_true_2 by done. f_equal. by eapply rx_output.
Qed.
End Transfer.

(** ** Running a transfer *)

Inductive mux_cmd :=
| CmdSend (i : nat) (c : TxClock)
| CmdReply (k : nat) (c : AckClock) (now : Z)
| CmdArrive (k : nat) (c : RxClock)
| CmdService (i : nat) (t : Z).

Definition all_bytes (dg : bytes) : bool := forallb (fun b => (0 <=? b) && (b <? 2 ^ 8)) dg.

(** Executes a step: the [k]th datagram of a direction is the one handled. *)
Definition mux_exec (n : MuxNet) (cmd : mux_cmd) : option MuxNet :=
  match cmd with
  | CmdSend i c =>
      s ← mn_tx n !! i;
      match try_send_one s c with
      | Ok (s', out, _) => Some (mkMuxNet (<[i := s']> (mn_tx n)) (mn_init n) (mn_rx n) (mn_fwd n ++ out) (mn_back n))
      | _ => None
      end
  | CmdReply k c now =>
      dg ← mn_back n !! k;
      if all_bytes dg then
        match tx_dispatch_incoming (mn_tx n) (mn_init n) dg c (fun _ => (0, true)) now with
        | Ok (tx', init', out) => Some (mkMuxNet tx' init' (mn_rx n) (mn_fwd n ++ out) (mn_back n))
        | _ => None
        end
      else None
  | CmdArrive k c =>
      dg ← mn_fwd n !! k;
      if all_bytes dg then
        match rx_dispatch_incoming (mn_rx n) dg true c with
        | Ok rx' => Some (mkMuxNet (mn_tx n) (mn_init n) rx' (mn_fwd n) (mn_back n))
        | _ => None
        end
      else None
  | CmdService i t =>
      r ← mn_rx n !! i;
      match rx_try_service_one r t with
      | Ok (r', out, _) => Some (mkMuxNet (mn_tx n) (mn_init n) (<[i := r']> (mn_rx n)) (mn_fwd n) (mn_back n ++ out))
      | _ => None
      end
  end.

Fixpoint mux_execs (n : MuxNet) (cmds : list mux_cmd) : option MuxNet :=
  match cmds with
  | [] => Some n
  | cmd :: cmds => n ← mux_exec n cmd; mux_execs n cmds
  end.

Lemma all_bytes_u8 dg : all_bytes dg = true -> Forall is_u8 dg.
Proof. intros H. apply list.Forall_forall. intros b Hb%list_elem_of_In. unfold all_bytes in H. rewrite forallb_forall in H. apply H in Hb. unfold is_u8. lia. Qed.

Lemma mux_exec_step n cmd n' : mux_exec n cmd = Some n' -> mux_step n n'.
Proof.
  destruct cmd as [i c | k c now | k c | i t]; cbn [mux_exec].
  - intros (s & Es & E)%bind_Some. destruct (try_send_one s c) as [| | [[s' out] did]] eqn:Et; [done | done |]. injection E as <-. by eapply mux_try_send.
  - intros (dg & Ed & E)%bind_Some. destruct (all_bytes dg) eqn:Eb; [| done]. destruct (tx_dispatch_incoming _ _ _ _ _ _) as [| | [[tx' init'] out]] eqn:Et; [done | done |].
    injection E as <-. eapply mux_reply; [by apply all_bytes_u8 | left; by eapply list_elem_of_lookup_2 | done].
  - intros (dg & Ed & E)%bind_Some. destruct (all_bytes dg) eqn:Eb; [| done]. destruct (rx_dispatch_incoming _ _ _ _) as [| | rx'] eqn:Et; [done | done |].
    injection E as <-. eapply mux_arrive; [by apply all_bytes_u8 | by eapply list_elem_of_lookup_2 | done].
  - intros (r & Er & E)%bind_Some. destruct (rx_try_service_one r t) as [| | [[r' out] did]] eqn:Et; [done | done |]. injection E as <-. by eapply mux_service.
Qed.

Lemma mux_execs_steps cmds : forall n n', mux_execs n cmds = Some n' -> rtc mux_step n n'.
Proof.
  induction cmds as [| cmd cmds IH]; intros n n' E; cbn [mux_execs] in E; [injection E as <-; apply rtc_refl |].
  apply bind_Some in E as (n1 & E1 & E). eapply rtc_l; [by eapply mux_exec_step | by apply IH].
Qed.

(** A transfer of three bytes in two blocks on one stream. *)
Definition mux_config_example : MuxTransferConfig := mkMuxTransferConfig 4433 1 2 4 1000.
Definition mux_data_example : bytes := [7; 8; 9].
Definition mux_rnd_example (i : Z) : Z * Z := (77, 1000).
Definition mux_start_example (cfg : MuxTransferConfig) : MuxNet := mux_start cfg mux_data_example mux_rnd_example None (mux_payload cfg) 10 10.
Definition tx_at (t : Z) : TxClock := mkTxClock t t t (fun _ => (t, true)).

(** The start and its Ack; then two blocks of which the first is lost, and sent again
    after a timeout. *)
Definition mux_opening : list mux_cmd :=
  [CmdSend 0 (tx_at 20); CmdArrive 0 (mkRxClock 30 30 30); CmdService 0 300000; CmdReply 0 (mkAckClock 310000 310000) 0].
Definition mux_run_example : list mux_cmd :=
  mux_opening ++
  [CmdSend 0 (tx_at 320000); CmdSend 0 (tx_at 330000); CmdArrive 2 (mkRxClock 340000 340000 340000); CmdSend 0 (tx_at 4000000000);
   CmdArrive 3 (mkRxClock 4000000100 4000000100 4000000100); CmdService 0 4000300000; CmdReply 1 (mkAckClock 4000400000 4000400000) 0].

Lemma mux_config_example_ok : mux_config_ok mux_config_example mux_data_example mux_rnd_example.
Proof. split; try (unfold kMaxStreams, kMaxPayloadSize, kMaxWindow; cbn; lia); [by cbn | done]. Qed.

Lemma mux_example_runs :
  exists n, rtc mux_step (mux_start_example mux_config_example) n /\ tx_finish (mn_tx n) false = StOk.
Proof.
  destruct (mux_execs (mux_start_example mux_config_example) mux_run_example) as [n |] eqn:E.
  - exists n. split; [by eapply mux_execs_steps |].
    assert (match mux_execs (mux_start_example mux_config_example) mux_run_example with Some n => bool_decide (tx_finish (mn_tx n) false = StOk) | None => false end = true) as H by (vm_compute; reflexivity).
    rewrite E in H. by apply bool_decide_eq_true in H.
  - exfalso. assert (match mux_execs (mux_start_example mux_config_example) mux_run_example with Some _ => true | None => false end = true) as H by (vm_compute; reflexivity).
    by rewrite E in H.
Qed.

(** C4: A multiplexed transfer that reports Ok has delivered the data.  Take any valid
    configuration, any data, and any interleaving of the workers of both ends over a
    network that loses, delays, reorders and duplicates datagrams and replays Acks of
    other sessions.  If the receiver's worst stream status is Ok, what it puts in
    [*out] is the sender's data; and if the sender's is Ok, then the receiver's is too
    and [*out] is the data. *)
Theorem mux_transfer_delivers cfg data rnd init now now' n :
  mux_config_ok cfg data rnd -> rtc mux_step (mux_start cfg data rnd init (mux_payload cfg) now now') n ->
  (forall timed_out out, rx_finish (mn_rx n) timed_out = (StOk, out) -> out = data) /\
  (forall timed_out timed_out', tx_finish (mn_tx n) timed_out = StOk -> rx_finish (mn_rx n) timed_out' = (StOk, data)).
Proof.
  intros O R. pose proof (reachable_inv cfg data rnd O _ _ _ _ R) as I. split.
  - intros timed_out out E. unfold rx_finish in E. injection E as Es <-. rewrite Es, bool_decide_eq_true_2 by done. by eapply rx_output.
  - intros timed_out timed_out' Ht. by eapply tx_ok_delivers.
Qed.

Lemma mux_transfer_delivers_witness :
  exists n, rtc mux_step (mux_start_example mux_config_example) n /\ tx_finish (mn_tx n) false = StOk /\ rx_finish (mn_rx n) false = (StOk, [7; 8; 9]).
Proof.
  destruct mux_example_runs as (n & R & Ht). exists n. split; [exact R |]. split; [exact Ht |].
  exact (proj2 (mux_transfer_delivers mux_config_example mux_data_example mux_rnd_example None 10 10 n mux_config_example_ok R) false false Ht).
Defined.

Lemma accepted_here r acc q x : rx_link x r acc -> q ∈ acc -> q < rs_base_seq_no (mr_rx r) \/ received_at (mr_rx r) q = true.
Proof.
  intros L Hq. destruct (Z.lt_ge_cases q (rs_base_seq_no (mr_rx r))); [by left | right]. destruct (ri_rx _ _ _ (rl_inv _ _ _ L)) as [R _].
  pose proof (rc_lt _ _ R q Hq). pose proof (rc_ws _ _ R). rewrite (received_at_repr _ acc) by (done || lia). by apply bool_decide_eq_true_2.
Qed.



