(* ===== verification/MuxEntry.v ===== *)
(** * The entry points of multiplexed transfers

    Models [send_multiplexed] and [receive_multiplexed] of
    [src/src/proto/mux_transfer.cpp]: the configuration checks, the two handshake loops,
    the loop that waits for the streams, and the status returned.  What resolving the
    host and opening the socket give, and what each turn of a handshake loop receives,
    are arguments; a loop that has not ended when its turns run out is still running. *)

From S2P Require Import Prelude Wire Control Block Hash Receiver Registry Setup Handshake Peer Returns Status RecvSafety MuxRecv MuxSend MuxSystem.

(** ** The sender's handshake *)

(** A turn of a handshake loop: the clock when it checks its deadline, the datagram
    received, and the clock when it handles it. *)
Record SetupTurn := mkSetupTurn { st_now : Z; st_got : option (bytes * PeerAddr); st_handled : Z; st_rnd : Z }.

Inductive SetupEnd (S : Type) := SetupRunning (st : S) | SetupMade (st : S) | SetupFailed (version_mismatch : bool).
Arguments SetupRunning {S} st.
Arguments SetupMade {S} st.
Arguments SetupFailed {S} version_mismatch.

Definition setup_buffer : bytes := replicate (Z.to_nat kMaxSetupDatagramSize) 0.

Fixpoint tx_setup_loop (init : SetupInitiator) (deadline : Z) (turns : list SetupTurn) : res (SetupEnd SetupInitiator * list bytes) :=
  if si_matched init || si_failed init then Ok (if si_matched init then SetupMade init else SetupFailed false, [])
  else
    match turns with
    | [] => Ok (SetupRunning init, [])
    | turn :: turns =>
        if deadline <? st_now turn then Ok (SetupFailed false, [])
        else
          let go r :=
            res_bind r (fun '(init, buf, n) =>
            res_bind (tx_setup_loop init deadline turns) (fun '(e, out) => Ok (e, emitted buf n ++ out))) in
          match st_got turn with
          | Some (dg, _) =>
              try_decode (decode_version_mismatch dg) (fun _ => Ok (SetupFailed true, []))
                (go (initiator_on_datagram init dg setup_buffer (st_handled turn)))
          | None => go (initiator_on_timeout init setup_buffer (st_handled turn))
          end
    end.

(** [run_setup_handshake]; [sent] is whether the first datagram could be sent. *)
Definition tx_setup (cfg : MuxTransferConfig) (now : Z) (sent : bool) (start : Z) (turns : list SetupTurn) : res (SetupEnd SetupInitiator * list bytes) :=
  res_bind (new_initiator (mux_payload cfg) kDefaultSetupTimeoutNs kDefaultSetupMaxRetries) (fun init =>
  res_bind (initiator_start init setup_buffer now) (fun '(init, buf, n) =>
  if (n =? 0) || negb sent then Ok (SetupFailed false, emitted buf n)
  else
    res_bind (tx_setup_loop init (u64 (start + u64 (mc_timeout_ms cfg * 1000000))) turns) (fun '(e, out) => Ok (e, emitted buf n ++ out)))).

(** ** The receiver's handshake *)

Record RxSetup := mkRxSetup {
  rs_resp : SetupResponder;
  rs_peer : option PeerAddr;
  rs_last_version_reply_ns : Z;
}.

Definition kVersionReplyGapNs : Z := 100000000.

(** A turn that received [dg] from [from]. *)
Definition rx_setup_datagram (st : RxSetup) (dg : bytes) (from : PeerAddr) (turn : SetupTurn) : res (RxSetup * list (PeerAddr * bytes)) :=
  res_bind (is_foreign_version dg) (fun foreign =>
  if foreign then
    let t := st_handled turn in
    if kVersionReplyGapNs <? u64 (t - rs_last_version_reply_ns st) then
      res_bind (encode_version_mismatch setup_buffer) (fun '(buf, n) =>
      Ok (mkRxSetup (rs_resp st) (rs_peer st) t, pair from <$> emitted buf n))
    else Ok (st, [])
  else
    let is_setup := match peek_msg_type dg with Ok t => t =? MsgType.code MsgType.SetupData | _ => false end in
    let peer := if is_setup then Some from else rs_peer st in
    res_bind (responder_on_datagram (rs_resp st) dg setup_buffer (st_handled turn) (st_rnd turn)) (fun '(resp, buf, n) =>
    Ok (mkRxSetup resp peer (rs_last_version_reply_ns st), match peer with Some p => pair p <$> emitted buf n | None => [] end))).

Definition rx_setup_turn (st : RxSetup) (turn : SetupTurn) : res (RxSetup * list (PeerAddr * bytes)) :=
  match st_got turn with
  | Some (dg, from) => rx_setup_datagram st dg from turn
  | None =>
      res_bind (responder_on_timeout (rs_resp st) setup_buffer (st_handled turn)) (fun '(resp, buf, n) =>
      Ok (mkRxSetup resp (rs_peer st) (rs_last_version_reply_ns st), match rs_peer st with Some p => pair p <$> emitted buf n | None => [] end))
  end.

Fixpoint rx_setup_loop (st : RxSetup) (deadline : Z) (turns : list SetupTurn) : res (SetupEnd RxSetup * list (PeerAddr * bytes)) :=
  if sr_complete (rs_resp st) || sr_failed (rs_resp st) then Ok (if sr_complete (rs_resp st) then SetupMade st else SetupFailed false, [])
  else
    match turns with
    | [] => Ok (SetupRunning st, [])
    | turn :: turns =>
        if deadline <? st_now turn then Ok (SetupFailed false, [])
        else
          res_bind (rx_setup_turn st turn) (fun '(st, out) =>
          res_bind (rx_setup_loop st deadline turns) (fun '(e, out') => Ok (e, out ++ out')))
    end.

(** The check of the ids at the end, and [build_streams]. *)
Definition rx_setup_streams (negotiated : SetupPayload) (now : Z) : option (list ReceiverStreamState) :=
  if forallb (fun i => sg_stream_id (stream_at negotiated i) =? i) (seqZ 0 (sp_num_streams negotiated)) then Some (rx_build_streams negotiated now) else None.

Definition new_rx_setup : RxSetup := mkRxSetup (new_responder kDefaultSetupTimeoutNs kDefaultSetupMaxRetries) None 0.

(** ** The entry points *)

Definition mux_config_valid (cfg : MuxTransferConfig) : bool :=
  negb ((mc_num_streams cfg =? 0) || (kMaxStreams <? mc_num_streams cfg) || (mc_port cfg =? 0) || (mc_block_size cfg =? 0) || (mc_window_size cfg =? 0)).

(** [data] is [None] for a null pointer, whose length is then [len]. *)
Definition mux_send_valid (cfg : MuxTransferConfig) (data : option bytes) (len : Z) : bool :=
  mux_config_valid cfg && negb (bool_decide (data = None) && (0 <? len)).

(** What the environment of a call gives it. *)
Record MuxSendEnv := mkMuxSendEnv {
  se_resolved : bool;
  se_opened : bool;
  se_start_ns : Z;
  se_start_sent : bool;
  se_deadline_from : Z;
  se_turns : list SetupTurn;
  se_rnd : Z -> Z * Z;
}.

(** [send_multiplexed]: the status it returns, and the transfer at that moment if there
    was one.  The workers go on until the pool is stopped, after the loop that polls the
    streams has ended. *)
Inductive send_multiplexed (cfg : MuxTransferConfig) (data : option bytes) (len : Z) (e : MuxSendEnv) : TransferStatus -> option MuxNet -> Prop :=
| send_invalid : mux_send_valid cfg data len = false -> send_multiplexed cfg data len e ConfigError None
| send_unresolved : mux_send_valid cfg data len = true -> se_resolved e = false -> send_multiplexed cfg data len e ConfigError None
| send_unopened : mux_send_valid cfg data len = true -> se_resolved e = true -> se_opened e = false -> send_multiplexed cfg data len e SocketError None
| send_no_setup v out :
    mux_send_valid cfg data len = true -> se_resolved e = true -> se_opened e = true ->
    tx_setup cfg (se_start_ns e) (se_start_sent e) (se_deadline_from e) (se_turns e) = Ok (SetupFailed v, out) ->
    send_multiplexed cfg data len e (if v then VersionMismatch else Timeout) None
| send_polled init out now now' n1 t timed_out n2 :
    mux_send_valid cfg data len = true -> se_resolved e = true -> se_opened e = true ->
    tx_setup cfg (se_start_ns e) (se_start_sent e) (se_deadline_from e) (se_turns e) = Ok (SetupMade init, out) ->
    rtc mux_step (mux_start cfg (default [] data) (se_rnd e) (Some init) (mux_payload cfg) now now') n1 ->
    poll_turn mt_done (fun s => mt_last_real_progress_ns (mt_timers s)) (mn_tx n1) t (mc_timeout_ms cfg) = Some timed_out ->
    rtc mux_step n1 n2 ->
    send_multiplexed cfg data len e (tx_finish (mn_tx n2) timed_out) (Some n2).

(** [receive_multiplexed]: the status and [*out], and the transfer; [has_out] is
    whether [out] is not null.  The negotiated configuration is that of a sender with
    the configuration [peer]. *)
Inductive receive_multiplexed (cfg peer : MuxTransferConfig) (data : bytes) (rnd : Z -> Z * Z) (has_out opened : bool) (deadline : Z) (turns : list SetupTurn)
  : TransferStatus -> option bytes -> Prop :=
| receive_invalid : has_out && mux_config_valid cfg = false -> receive_multiplexed cfg peer data rnd has_out opened deadline turns ConfigError None
| receive_unopened : has_out && mux_config_valid cfg = true -> opened = false -> receive_multiplexed cfg peer data rnd has_out opened deadline turns SocketError None
| receive_no_setup v out :
    has_out && mux_config_valid cfg = true -> opened = true -> rx_setup_loop new_rx_setup deadline turns = Ok (SetupFailed v, out) ->
    receive_multiplexed cfg peer data rnd has_out opened deadline turns Timeout None
| receive_refused st out now :
    has_out && mux_config_valid cfg = true -> opened = true -> rx_setup_loop new_rx_setup deadline turns = Ok (SetupMade st, out) ->
    rx_setup_streams (sr_config (rs_resp st)) now = None ->
    receive_multiplexed cfg peer data rnd has_out opened deadline turns Timeout None
| receive_polled st out init now now' n1 t timed_out n2 :
    has_out && mux_config_valid cfg = true -> opened = true -> rx_setup_loop new_rx_setup deadline turns = Ok (SetupMade st, out) ->
    sr_config (rs_resp st) = mux_payload peer ->
    rx_setup_streams (sr_config (rs_resp st)) now' = Some (mn_rx (mux_start peer data rnd init (mux_payload peer) now now')) ->
    rtc mux_step (mux_start peer data rnd init (mux_payload peer) now now') n1 ->
    poll_turn mr_done mr_last_progress_ns (mn_rx n1) t (mc_timeout_ms cfg) = Some timed_out ->
    rtc mux_step n1 n2 ->
    receive_multiplexed cfg peer data rnd has_out opened deadline turns (fst (rx_finish (mn_rx n2) timed_out)) (Some (snd (rx_finish (mn_rx n2) timed_out))).

(** ** The workers *)

(** The streams a worker looks at, from the cursor on. *)
Definition worker_order (cursor n : Z) : list nat := (fun k => Z.to_nat ((cursor mod n + k) mod n)) <$> seqZ 0 n.

Definition set_tx (n : MuxNet) (i : nat) (s : SenderStreamState) (out : list bytes) : MuxNet :=
  mkMuxNet (<[i := s]> (mn_tx n)) (mn_init n) (mn_rx n) (mn_fwd n ++ out) (mn_back n).

(** The datagrams of a batch, dispatched in turn. *)
Fixpoint tx_receive (n : MuxNet) (batch : list bytes) (c : AckClock) (outs : Z -> Z * bool) (now : Z) : res MuxNet :=
  match batch with
  | [] => Ok n
  | dg :: batch =>
      res_bind (tx_dispatch_incoming (mn_tx n) (mn_init n) dg c outs now) (fun '(tx, init, out) =>
      tx_receive (mkMuxNet tx init (mn_rx n) (mn_fwd n ++ out) (mn_back n)) batch c outs now)
  end.

(** The first stream of [order] with something to send. *)
Fixpoint tx_serve (n : MuxNet) (order : list nat) (c : nat -> TxClock) : res (MuxNet * bool) :=
  match order with
  | [] => Ok (n, false)
  | i :: order =>
      match mn_tx n !! i with
      | None => Fault
      | Some s =>
          if mt_done s then tx_serve n order c
          else res_bind (try_send_one s (c i)) (fun '(s, out, did) => if did then Ok (set_tx n i s out, true) else tx_serve (set_tx n i s out) order c)
      end
  end.

(** [MuxSender::worker_task], when no other worker interferes: the batch read, and the
    value of the cursor. *)
Definition tx_worker_task (n : MuxNet) (batch : list bytes) (cursor : Z) (k : AckClock) (outs : Z -> Z * bool) (now : Z) (c : nat -> TxClock) : res (MuxNet * bool) :=
  res_bind (tx_receive n batch k outs now) (fun n =>
  if lenZ (mn_tx n) =? 0 then Ok (n, 0 <? lenZ batch)
  else res_bind (tx_serve n (worker_order cursor (lenZ (mn_tx n))) c) (fun '(n, did) => Ok (n, (0 <? lenZ batch) || did))).

Fixpoint rx_receive (n : MuxNet) (batch : list bytes) (alloc_ok : bool) (c : RxClock) : res MuxNet :=
  match batch with
  | [] => Ok n
  | dg :: batch =>
      res_bind (rx_dispatch_incoming (mn_rx n) dg alloc_ok c) (fun rx =>
      rx_receive (mkMuxNet (mn_tx n) (mn_init n) rx (mn_fwd n) (mn_back n)) batch alloc_ok c)
  end.

Definition set_rx (n : MuxNet) (i : nat) (r : ReceiverStreamState) (out : list bytes) : MuxNet :=
  mkMuxNet (mn_tx n) (mn_init n) (<[i := r]> (mn_rx n)) (mn_fwd n) (mn_back n ++ out).

Fixpoint rx_serve (n : MuxNet) (order : list nat) (t : nat -> Z) : res (MuxNet * bool) :=
  match order with
  | [] => Ok (n, false)
  | i :: order =>
      match mn_rx n !! i with
      | None => Fault
      | Some r =>
          if mr_done r then rx_serve n order t
          else res_bind (rx_try_service_one r (t i)) (fun '(r, out, did) => if did then Ok (set_rx n i r out, true) else rx_serve (set_rx n i r out) order t)
      end
  end.

(** [MuxReceiver::worker_task] *)
Definition rx_worker_task (n : MuxNet) (batch : list bytes) (cursor : Z) (alloc_ok : bool) (c : RxClock) (t : nat -> Z) : res (MuxNet * bool) :=
  res_bind (rx_receive n batch alloc_ok c) (fun n =>
  if lenZ (mn_rx n) =? 0 then Ok (n, 0 <? lenZ batch)
  else res_bind (rx_serve n (worker_order cursor (lenZ (mn_rx n))) t) (fun '(n, did) => Ok (n, (0 <? lenZ batch) || did))).

Section Workers.
Context (xs : list MuxTxSession) (Hxs : forall i x, xs !! i = Some x -> wf_session x /\ mx_stream_id x = Z.of_nat i).

Lemma worker_order_in cursor n : 0 < n -> Forall (fun i => Z.of_nat i < n) (worker_order cursor n).
Proof. intros Hn. unfold worker_order. apply Forall_fmap, Forall_true. intros k. cbn. pose proof (Z.mod_pos_bound (cursor mod n + k) n Hn). lia. Qed.

(** A worker's pass is a sequence of steps, and returns. *)
Lemma tx_receive_steps batch c outs now : forall n,
  mux_inv xs n -> Forall (Forall is_u8) batch -> (forall dg, dg ∈ batch -> dg ∈ mn_back n) ->
  returns (tx_receive n batch c outs now) (fun n' => rtc mux_step n n' /\ mux_inv xs n' /\ length (mn_tx n') = length (mn_tx n)).
Proof.
  induction batch as [| dg batch IH]; intros n I Hb Hin; cbn [tx_receive]; [by apply returns_ok |]. apply Forall_cons_1 in Hb as [Hb Hbs].
  destruct (reply_inv xs Hxs n dg c outs now I Hb) as ([[tx init] out] & E & I'); [left; apply Hin; by left |]. rewrite E. cbn [res_bind].
  destruct (IH _ I' Hbs) as (n' & En & R & I2 & El); [intros d Hd; apply Hin; by right |]. exists n'. split; [done |]. split; [| split; [done |]].
  - eapply rtc_l; [| exact R]. eapply mux_reply; [done | left; apply Hin; by left | done].
  - rewrite El. cbn. rewrite (mi_tx _ _ I). exact (mi_tx _ _ I').
Qed.

Lemma tx_serve_steps c order : forall n,
  mux_inv xs n -> Forall (fun i => Z.of_nat i < lenZ (mn_tx n)) order -> returns (tx_serve n order c) (fun '(n', _) => rtc mux_step n n' /\ mux_inv xs n').
Proof.
  induction order as [| i order IH]; intros n I Ho; cbn [tx_serve]; [by apply returns_ok |]. apply Forall_cons_1 in Ho as [Hi Ho].
  destruct (lookup_lt_is_Some_2 (mn_tx n) i) as [s Es]; [unfold lenZ in Hi; lia |]. rewrite Es. destruct (mt_done s); [by apply IH |].
  destruct (try_send_inv xs Hxs n i s (c i) I Es) as ([[s' out] did] & E & I'). rewrite E. cbn [res_bind]. assert (mux_step n (set_tx n i s' out)) as Hs by (by eapply mux_try_send).
  destruct did; [apply returns_ok; split; [by apply rtc_once | done] |].
  destruct (IH (set_tx n i s' out) I') as ([n' did'] & En & R & I2); [cbn; unfold lenZ in *; by rewrite length_insert |]. exists (n', did'). split; [done |]. split; [by eapply rtc_l | done].
Qed.

Lemma tx_worker_steps n batch cursor k outs now c :
  mux_inv xs n -> Forall (Forall is_u8) batch -> (forall dg, dg ∈ batch -> dg ∈ mn_back n) ->
  returns (tx_worker_task n batch cursor k outs now c) (fun '(n', _) => rtc mux_step n n').
Proof.
  intros I Hb Hin. unfold tx_worker_task. eapply returns_bind; [by apply tx_receive_steps |]. intros n1 (R1 & I1 & _). destruct (Z.eqb_spec (lenZ (mn_tx n1)) 0); [by apply returns_ok |].
  eapply returns_bind; [apply (tx_serve_steps c _ n1 I1); apply worker_order_in; pose proof (lenZ_nonneg (mn_tx n1)); lia |]. intros [n2 did] [R2 _]. apply returns_ok. by etrans.
Qed.

Lemma rx_receive_steps batch alloc_ok c : forall n,
  mux_inv xs n -> Forall (Forall is_u8) batch -> (forall dg, dg ∈ batch -> dg ∈ mn_fwd n) ->
  returns (rx_receive n batch alloc_ok c) (fun n' => rtc mux_step n n' /\ mux_inv xs n').
Proof.
  induction batch as [| dg batch IH]; intros n I Hb Hin; cbn [rx_receive]; [by apply returns_ok |]. apply Forall_cons_1 in Hb as [Hb Hbs].
  destruct (arrive_inv xs Hxs n dg alloc_ok c I) as (rx & E & I'); [apply Hin; by left |]. rewrite E. cbn [res_bind].
  destruct (IH _ I' Hbs) as (n' & En & R & I2); [intros d Hd; apply Hin; by right |]. exists n'. split; [done |]. split; [| done].
  eapply rtc_l; [| exact R]. eapply mux_arrive; [done | apply Hin; by left | done].
Qed.

Lemma rx_serve_steps t order : forall n,
  mux_inv xs n -> Forall (fun i => Z.of_nat i < lenZ (mn_rx n)) order -> returns (rx_serve n order t) (fun '(n', _) => rtc mux_step n n').
Proof.
  induction order as [| i order IH]; intros n I Ho; cbn [rx_serve]; [by apply returns_ok |]. apply Forall_cons_1 in Ho as [Hi Ho].
  destruct (lookup_lt_is_Some_2 (mn_rx n) i) as [r Er]; [unfold lenZ in Hi; lia |]. rewrite Er. destruct (mr_done r); [by apply IH |].
  destruct (service_inv xs Hxs n i r (t i) I Er) as ([[r' out] did] & E & I'). rewrite E. cbn [res_bind]. assert (mux_step n (set_rx n i r' out)) as Hs by (by eapply mux_service).
  destruct did; [apply returns_ok; by apply rtc_once |].
  destruct (IH (set_rx n i r' out) I') as ([n' did'] & En & R); [cbn; unfold lenZ in *; by rewrite length_insert |]. exists (n', did'). split; [done |]. by eapply rtc_l.
Qed.

Lemma rx_worker_steps n batch cursor alloc_ok c t :
  mux_inv xs n -> Forall (Forall is_u8) batch -> (forall dg, dg ∈ batch -> dg ∈ mn_fwd n) ->
  returns (rx_worker_task n batch cursor alloc_ok c t) (fun '(n', _) => rtc mux_step n n').
Proof.
  intros I Hb Hin. unfold rx_worker_task. eapply returns_bind; [by apply rx_receive_steps |]. intros n1 (R1 & I1). destruct (Z.eqb_spec (lenZ (mn_rx n1)) 0); [by apply returns_ok |].
  eapply returns_bind; [apply (rx_serve_steps t _ n1 I1); apply worker_order_in; pose proof (lenZ_nonneg (mn_rx n1)); lia |]. intros [n2 did] R2. apply returns_ok. by etrans.
Qed.
End Workers.

(** ** Streams that are done stay done *)

Definition all_done {S : Type} (done : S -> bool) (streams : list S) : Prop := Forall (fun s => done s = true) streams.

Lemma all_done_insert {S : Type} (done : S -> bool) streams i s s' :
  streams !! i = Some s -> (done s = true -> done s' = true) -> all_done done streams -> all_done done (<[i := s']> streams).
Proof. intros E H D. apply Forall_insert; [done |]. apply H. by apply (Forall_lookup_1 _ _ _ _ D E). Qed.

Lemma on_stream_done {S : Type} (done : S -> bool) streams id f streams' :
  on_stream streams id f = Ok streams' -> (forall s s', f s = Ok s' -> done s = true -> done s' = true) -> all_done done streams -> all_done done streams'.
Proof.
  unfold on_stream. intros E H D. destruct (nthZ streams id) as [s |] eqn:En; [| by apply Ok_inj in E as <-]. destruct (f s) as [| | s'] eqn:Ef; cbn [res_bind] in E; try done.
  apply Ok_inj in E as <-. apply nthZ_inv in En as [_ En]. eapply all_done_insert; [done | by apply H | done].
Qed.

Lemma mux_on_ack_done s ack c s' : mux_on_ack s ack c = Ok s' -> mt_done s = true -> mt_done s' = true.
Proof.
  unfold mux_on_ack. destruct (negb _); [by intros <-%Ok_inj |]. destruct (apply_ack _ _ _ _ _) as [| | [[[reg base] re] k]]; cbn [res_bind]; [done | done |].
  intros E Hd. apply Ok_inj in E. subst s'. cbn [mt_done]. by rewrite Hd.
Qed.

Lemma rx_on_data_done s d c s' : rx_on_data s d c = Ok s' -> mr_done s = true -> mr_done s' = true.
Proof.
  unfold rx_on_data. destruct (negb _); [by intros <-%Ok_inj |]. destruct (on_receive _ _ _ _) as [| | [rr rx]]; cbn [res_bind]; [done | done |].
  destruct rr; [| by intros <-%Ok_inj ..]. destruct (rx_copy _ _ _) as [| | [shard written]]; cbn [res_bind]; [done | done |]. by intros <-%Ok_inj.
Qed.

Lemma rx_on_start_done s ss alloc_ok : mr_done s = true -> mr_done (rx_on_start s ss alloc_ok) = true.
Proof. intros H. unfold rx_on_start. destruct (ms_have_start _); [done |]. by destruct (_ || _). Qed.

Lemma tx_dispatch_done streams init dg c outs now streams' init' out :
  tx_dispatch_incoming streams init dg c outs now = Ok (streams', init', out) -> all_done mt_done streams -> all_done mt_done streams'.
Proof.
  unfold tx_dispatch_incoming. intros E D. assert (forall i o, Ok (streams, i, o) = Ok (streams', init', out) -> all_done mt_done streams') as Hskip by (by intros i o [= <- _ _]).
  destruct (peek_msg_type dg) as [| | t]; cbn [try_decode] in E; [done | by eapply Hskip |]. destruct (t =? _); [| destruct (t =? _); [| destruct (t =? _)]].
  - destruct (decode_ack dg) as [| | ack]; cbn [try_decode] in E; [done | by eapply Hskip |]. destruct (on_stream _ _ _) as [| | tx'] eqn:Eo; cbn [res_bind] in E; [done | done |].
    apply Ok_inj in E. injection E as <- _ _. eapply on_stream_done; [done | | done]. intros s s'. by apply mux_on_ack_done.
  - destruct (decode_nack dg _) as [| | nack]; cbn [try_decode] in E; [done | by eapply Hskip |]. destruct (nthZ streams _) as [s |] eqn:En; [| by eapply Hskip].
    apply nthZ_inv in En as [_ En]. unfold mux_on_nack in E. rewrite (Forall_lookup_1 _ _ _ _ D En) in E. cbn [res_bind] in E. apply Ok_inj in E. injection E as <- _ _. unfold setZ.
    by rewrite list_insert_id.
  - destruct init as [i |]; [| by eapply Hskip]. destruct (initiator_on_datagram _ _ _ _) as [| | [[i' buf] k]]; cbn [res_bind] in E; [done | done | by eapply Hskip].
  - by eapply Hskip.
Qed.

Lemma rx_dispatch_done streams dg alloc_ok c streams' :
  rx_dispatch_incoming streams dg alloc_ok c = Ok streams' -> all_done mr_done streams -> all_done mr_done streams'.
Proof.
  unfold rx_dispatch_incoming. intros E D. assert (Ok streams = Ok streams' -> all_done mr_done streams') as Hskip by (by intros <-%Ok_inj).
  destruct (peek_msg_type dg) as [| | t]; cbn [try_decode] in E; [done | auto |]. destruct (t =? _); [| destruct (negb _); [auto |]].
  - destruct (decode_stream_start dg _) as [| | ss]; cbn [try_decode] in E; [done | auto |]. eapply on_stream_done; [done | | done]. intros s s' <-%Ok_inj. apply rx_on_start_done.
  - destruct (decode_data_datagram dg) as [| | d]; cbn [try_decode] in E; [done | auto |]. eapply on_stream_done; [done | | done]. intros s s'. apply rx_on_data_done.
Qed.

Lemma mux_step_tx_done n n' : mux_step n n' -> all_done mt_done (mn_tx n) -> all_done mt_done (mn_tx n').
Proof.
  intros Hs. destruct Hs as [n i s c s' out did Es E | n dg c outs now tx' init' out Hb Hg E | | |]; cbn; try done.
  - intros D. eapply all_done_insert; [done | | done]. intros Hd. unfold try_send_one in E. rewrite Hd in E. apply Ok_inj in E. by injection E as <- _ _.
  - by eapply tx_dispatch_done.
Qed.

Lemma rx_service_done r t r' out did : rx_try_service_one r t = Ok (r', out, did) -> mr_done r = true -> mr_done r' = true.
Proof. unfold rx_try_service_one. intros E Hd. rewrite Hd in E. cbn in E. apply Ok_inj in E. by injection E as <- _ _. Qed.

Lemma mux_step_rx_done n n' : mux_step n n' -> all_done mr_done (mn_rx n) -> all_done mr_done (mn_rx n').
Proof.
  intros Hs. destruct Hs as [| | n dg alloc_ok c rx' Hb Hin E | n i r t r' out did Er E |]; cbn; try done.
  - by eapply rx_dispatch_done.
  - intros D. eapply all_done_insert; [done | | done]. by eapply rx_service_done.
Qed.

Lemma rtc_keeps {A} (R : A -> A -> Prop) (P : A -> Prop) x y : (forall x y, R x y -> P x -> P y) -> rtc R x y -> P x -> P y.
Proof. intros H. induction 1; auto. eauto. Qed.

Lemma forallb_all_done {S : Type} (done : S -> bool) streams : forallb done streams = true -> all_done done streams.
Proof. intros H. apply list.Forall_forall. intros s Hs%list_elem_of_In. by apply (proj1 (forallb_forall _ _) H). Qed.

(** The worst status is one of them. *)
Lemma worst_of_in l : worst_of l = StOk \/ worst_of l ∈ l.
Proof.
  unfold worst_of. generalize StOk. induction l as [| a l IH]; intros st; [by left |]. cbn [foldl].
  destruct (severity st <? severity a); [destruct (IH a) as [-> | H] | destruct (IH st) as [-> | H]]; try (right; by right); [right; by left | by left].
Qed.

(** When the polling loop ends without a timeout every stream is done, and stays so. *)
Lemma polled_done {S : Type} (done : S -> bool) last streams t timeout : poll_turn done last streams t timeout = Some false -> all_done done streams.
Proof. unfold poll_turn. destruct (forallb done streams) eqn:E; [by intros _; apply forallb_all_done |]. by destruct (_ <? _). Qed.


(** A receiver that is done has everything, or had no memory for it. *)
Lemma done_result cfg data rnd n r timed_out :
  mux_config_ok cfg data rnd -> mux_inv (mux_sessions cfg data rnd) n -> r ∈ mn_rx n -> mr_done r = true -> rx_result timed_out r = StOk \/ rx_result timed_out r = ResourceLimit.
Proof.
  intros O I [i Er]%list_elem_of_lookup Hd. destruct (receivers_at _ n i r I Er) as (x & s & Ex & Es & acc & L & _). destruct (sessions_wf cfg data rnd O i x Ex) as [X _].
  unfold rx_result. destruct (ms_resource_limit (mr_session r)) eqn:El; [by right | left]. destruct (rl_done _ _ _ L Hd) as [| Hall]; [congruence |].
  destruct (block_count_spec x X) as (K1 & _). destruct (ms_have_start (mr_session r)) eqn:Eh.
  - rewrite (rl_written _ _ _ L), (proj2 (rl_start _ _ _ L Eh)), (covered_all x X) by done. by rewrite Z.eqb_refl.
  - destruct (link_idle x r acc L Eh) as [-> _]. by destruct (not_elem_of_empty (C := gset Z) 0); apply Hall; lia.
Qed.


(** ** Any datagrams at all *)

(** What a responder has agreed to is a payload of at most [kMaxStreams] streams. *)
Definition resp_ok (r : SetupResponder) : Prop :=
  (sr_reply_sent r = true -> 0 <= sp_num_streams (sr_config r) <= kMaxStreams) /\ (sr_complete r = true -> sr_reply_sent r = true).

Lemma setup_hash_total t h n out : is_hash_type t -> exists r, encode_setup_hash t h n out = Ok r.
Proof. intros Ht. rewrite encode_setup_hash_writes by done. destruct (_ <? _); by eexists. Qed.

Lemma responder_datagram_total r dg out now rnd :
  resp_ok r -> Forall is_u8 dg -> returns (responder_on_datagram r dg out now rnd) (fun '(r', _, _) => resp_ok r').
Proof.
  intros K Hb. unfold responder_on_datagram. destruct (peek_msg_type dg) as [| | t] eqn:Ep; [by apply peek_total in Ep | by apply returns_ok |]. destruct (t =? _).
  - destruct (sr_complete r) eqn:Ec; [by apply returns_ok |]. destruct (decode_setup_data dg _) as [| | [p body]] eqn:Ed; [by apply decode_setup_no_fault in Ed | by apply returns_ok |].
    destruct (negb _); [by apply returns_ok |]. apply decode_setup_sound in Ed as (W & _ & _); [| done].
    destruct (setup_hash_total MsgType.SetupHashReply (hash64 body) (if negb (sr_reply_sent r) || negb (hash64 body =? sr_my_hash r) then rnd else sr_nonce r) out) as [[o n] E]; [by left |].
    cbn [sr_my_hash sr_nonce]. rewrite E. apply returns_ok. split; [intros _; apply W | done].
  - destruct (t =? _); [| by apply returns_ok]. destruct (decode_setup_hash _ dg) as [| | [h m]] eqn:Ed; [by apply decode_setup_hash_no_fault in Ed | by apply returns_ok |].
    destruct (_ && _) eqn:Eg; [| by apply returns_ok]. apply returns_ok. apply andb_prop in Eg as [[Eg _]%andb_prop _]. split; cbn; [apply K | done].
Qed.

Lemma responder_timeout_total r out now : resp_ok r -> returns (responder_on_timeout r out now) (fun '(r', _, _) => resp_ok r').
Proof.
  intros K. unfold responder_on_timeout. destruct (_ || _); [by apply returns_ok |]. destruct (_ <? _); [by apply returns_ok |]. destruct (_ <=? _); [by apply returns_ok |].
  cbn [sr_my_hash sr_nonce]. destruct (setup_hash_total MsgType.SetupHashReply (sr_my_hash r) (sr_nonce r) out) as [[o n] ->]; [by left |]. by apply returns_ok.
Qed.

Definition turn_bytes (turn : SetupTurn) : Prop := match st_got turn with Some (dg, _) => Forall is_u8 dg | None => True end.

Lemma foreign_total dg : returns (is_foreign_version dg) (fun _ => True).
Proof.
  unfold is_foreign_version. destruct (negb _) eqn:E; [by apply returns_ok |]. change kOuterHeaderSize with 2 in E.
  destruct (nthZ_Some dg 0) as [v ->]; [lia |]. destruct (nthZ_Some dg 1) as [c ->]; [lia |]. by apply returns_ok.
Qed.

Lemma rx_setup_turn_total st turn : resp_ok (rs_resp st) -> turn_bytes turn -> returns (rx_setup_turn st turn) (fun '(st', _) => resp_ok (rs_resp st')).
Proof.
  intros K Hb. unfold rx_setup_turn, turn_bytes in *. destruct (st_got turn) as [[dg from] |].
  - unfold rx_setup_datagram. eapply returns_bind; [apply foreign_total |]. intros foreign _. destruct foreign.
    + destruct (_ <? _); [| by apply returns_ok]. unfold encode_version_mismatch. destruct (_ <? _); by apply returns_ok.
    + eapply returns_bind; [by apply responder_datagram_total |]. intros [[r buf] n] K'. by apply returns_ok.
  - eapply returns_bind; [by apply responder_timeout_total |]. intros [[r buf] n] K'. by apply returns_ok.
Qed.

Lemma rx_setup_loop_total deadline turns : forall st,
  resp_ok (rs_resp st) -> Forall turn_bytes turns ->
  returns (rx_setup_loop st deadline turns) (fun '(e, _) => forall st', e = SetupMade st' -> 0 <= sp_num_streams (sr_config (rs_resp st')) <= kMaxStreams).
Proof.
  induction turns as [| turn turns IH]; intros st K Hb; cbn [rx_setup_loop]; (destruct (sr_complete (rs_resp st)) eqn:Ec; [cbn [orb]; apply returns_ok; intros st' [= <-]; by apply K, K |]);
    (destruct (sr_failed (rs_resp st)); cbn [orb]; [by apply returns_ok |]); [by apply returns_ok |].
  destruct (_ <? _); [by apply returns_ok |]. apply Forall_cons_1 in Hb as [Hb Hbs]. eapply returns_bind; [by apply rx_setup_turn_total |]. intros [st1 out] K1.
  eapply returns_bind; [by apply IH |]. intros [e out'] He. by apply returns_ok.
Qed.

Lemma rx_setup_streams_inv negotiated now streams :
  0 <= sp_num_streams negotiated <= kMaxStreams -> rx_setup_streams negotiated now = Some streams -> rx_streams_inv [] streams /\ lenZ streams = sp_num_streams negotiated.
Proof.
  unfold rx_setup_streams. intros Hn E. destruct (forallb _ _) eqn:Ef; [| done]. injection E as <-. split.
  - apply rx_build_streams_inv; [done |]. intros i Hi. rewrite forallb_forall in Ef. apply Z.eqb_eq, Ef, list_elem_of_In, elem_of_seqZ. lia.
  - unfold rx_build_streams, lenZ. rewrite length_fmap, length_seqZ. lia.
Qed.

(** C13: The receiver of a multiplexed transfer survives any datagrams.  Whatever arrives
    during the handshake, its loop returns; if it completes and the streams are
    numbered from 0, then whatever datagrams arrive afterwards, in whatever order the
    workers handle them and service the streams (fewer than 2^63 steps, so that no
    sequence number reaches the end of its range), no handler reads or writes out of
    bounds and every one of them returns; there are as many streams as were agreed, a
    stream whose start was accepted has a buffer of exactly the announced size, and an
    Ack that is sent claims only blocks that have arrived for its stream. *)
Theorem mux_receiver_total deadline turns :
  Forall turn_bytes turns ->
  exists e out, rx_setup_loop new_rx_setup deadline turns = Ok (e, out) /\
  forall st now streams0 evs, e = SetupMade st -> rx_setup_streams (sr_config (rs_resp st)) now = Some streams0 ->
    Forall (Forall is_u8) (mjoin (event_dg <$> evs)) -> Z.of_nat (length evs) < 2 ^ 63 ->
    exists streams outs, rx_run streams0 evs = Ok (streams, outs) /\ lenZ streams = sp_num_streams (sr_config (rs_resp st)) /\
      (forall s, s ∈ streams -> ms_have_start (mr_session s) = true -> lenZ (md_shard (mr_data s)) = ms_shard_bytes (mr_session s)) /\
      (forall dg a q, dg ∈ outs -> decode_ack dg = Ok a -> claims a q -> arrived (mjoin (event_dg <$> evs)) (ack_stream_id a) q).
Proof.
  intros Hb. destruct (rx_setup_loop_total deadline turns new_rx_setup) as ([e out] & E & He); [done | done |]. exists e, out. split; [done |].
  intros st now streams0 evs Ee Es Hd Hl. destruct (rx_setup_streams_inv _ _ _ (He st Ee) Es) as [I En].
  destruct (rx_run_total streams0 evs I Hd Hl) as (streams & outs & Er & El & Hs & Ho). exists streams, outs. split; [done |]. split; [unfold lenZ in *; by rewrite El |]. by split.
Qed.

(** ** An example *)

Definition setup_turn_example (dg : bytes) : SetupTurn := mkSetupTurn 5 (Some (dg, no_peer)) 6 55.

Definition mux_hash_example : Z := hash64 (setup_body (mux_payload mux_config_example)).
Definition rx_turns_example : list SetupTurn :=
  [setup_turn_example (setup_wire (mux_payload mux_config_example)); setup_turn_example (setup_hash_wire MsgType.SetupFinAck mux_hash_example 55)].
Definition tx_turns_example : list SetupTurn := [setup_turn_example (setup_hash_wire MsgType.SetupHashReply mux_hash_example 55)].
Definition send_env_example : MuxSendEnv := mkMuxSendEnv true true 1 true 1 tx_turns_example mux_rnd_example.

Lemma rx_turns_example_bytes : Forall turn_bytes rx_turns_example.
Proof. constructor; [| constructor; [| constructor]]; apply all_bytes_u8; by vm_compute. Qed.

(** Both handshake loops complete. *)
Lemma rx_setup_example : exists st out streams, rx_setup_loop new_rx_setup 1000 rx_turns_example = Ok (SetupMade st, out) /\
  sr_config (rs_resp st) = mux_payload mux_config_example /\ rx_setup_streams (sr_config (rs_resp st)) 10 = Some streams /\
  streams = mn_rx (mux_start_example mux_config_example).
Proof.
  assert (match rx_setup_loop new_rx_setup 1000 rx_turns_example with Ok (SetupMade st, _) => sr_config (rs_resp st) = mux_payload mux_config_example | _ => False end) as H
    by (vm_compute; reflexivity).
  destruct (rx_setup_loop new_rx_setup 1000 rx_turns_example) as [| | [[st | st | v] out]]; try done. exists st, out.
  eexists. split; [done |]. split; [done |]. rewrite H. split; [by vm_compute | done].
Qed.

Lemma tx_setup_example : exists init out, tx_setup mux_config_example 1 true 1 tx_turns_example = Ok (SetupMade init, out).
Proof.
  assert (match tx_setup mux_config_example 1 true 1 tx_turns_example with Ok (SetupMade _, _) => true | _ => false end = true) as H by (vm_compute; reflexivity).
  destruct (tx_setup _ _ _ _ _) as [| | [[st | st | v] out]]; try discriminate H. by exists st, out.
Qed.

(** A run of the transfer after the handshake, whatever the initiator. *)
Lemma mux_example_finishes init : exists n, rtc mux_step (mux_start mux_config_example mux_data_example mux_rnd_example init (mux_payload mux_config_example) 10 10) n /\
  tx_finish (mn_tx n) false = StOk /\ poll_turn mt_done (fun s => mt_last_real_progress_ns (mt_timers s)) (mn_tx n) 0 1000 = Some false.
Proof.
  set (n0 := mux_start _ _ _ init _ 10 10).
  assert (match mux_execs n0 mux_run_example with Some n => bool_decide (tx_finish (mn_tx n) false = StOk) && forallb mt_done (mn_tx n) | None => false end = true) as H
    by (destruct init; vm_compute; reflexivity).
  destruct (mux_execs n0 mux_run_example) as [n |] eqn:E; [| discriminate H]. apply andb_prop in H as [H1 H2]. exists n. split; [by eapply mux_execs_steps |].
  split; [by apply bool_decide_eq_true in H1 |]. unfold poll_turn. by rewrite H2.
Qed.

Lemma mux_receiver_total_witness :
  exists st out streams0 streams outs, rx_setup_loop new_rx_setup 1000 rx_turns_example = Ok (SetupMade st, out) /\ rx_setup_streams (sr_config (rs_resp st)) 10 = Some streams0 /\
    rx_run streams0 [RxDatagram [5; 0; 0; 0] true (mkRxClock 1 1 1); RxService 0 7] = Ok (streams, outs) /\ lenZ streams = 1.
Proof.
  destruct rx_setup_example as (st & out & streams0 & E & Ec & Es & _). destruct (mux_receiver_total 1000 rx_turns_example rx_turns_example_bytes) as (e & out' & E' & H).
  rewrite E in E'. injection E' as <- _. destruct (H st 10 streams0 [RxDatagram [5; 0; 0; 0] true (mkRxClock 1 1 1); RxService 0 7] eq_refl Es) as (streams & outs & Er & El & _);
    [by repeat constructor | done |].
  exists st, out, streams0, streams, outs. split; [exact E |]. split; [exact Es |]. split; [exact Er |]. rewrite El, Ec. reflexivity.
Defined.


