(* ===== verification/SdkConn.v ===== *)
(** * A connection of the message API

    Models the connection of [src/src/proto/sdk.cpp]: its state, the handlers of the
    pump thread, one pass of the pump, and the calls of the application.  Everything that
    touches a connection holds its mutex, so a pass of the pump, and what a call does
    between two waits, is one atomic step; clock readings, the datagrams received and
    what the socket says are arguments, and the datagrams handed to the socket are
    returned. *)

From S2P Require Import Prelude Wire Control Block Bits Window Receiver Registry Setup Handshake Congestion SessionCrypto Peer Returns RecvLane RecvSafety MuxRecv.

(** ** State *)

Definition kWindow : Z := kMaxWindow.
Definition kBlockSize : Z := kDefaultPayloadSize.
Definition kMaxMessage : Z := 64 * 2 ^ 20.
Definition kMaxInboxBytes : Z := 256 * 2 ^ 20.
Definition kDefaultTimeoutMs : Z := 10000.
Definition kLaneClientToServer : Z := 0.
Definition kLaneServerToClient : Z := 1.

Inductive fuse_status :=
| FUSE_OK | FUSE_ERR_CONFIG | FUSE_ERR_SOCKET | FUSE_ERR_TIMEOUT | FUSE_ERR_CLOSED | FUSE_ERR_AUTH
| FUSE_ERR_TOO_LARGE | FUSE_ERR_BUFFER | FUSE_ERR_UNSUPPORTED | FUSE_ERR_INTERNAL.

#[export] Instance fuse_status_eq_dec : EqDecision fuse_status.
Proof. solve_decision. Defined.

Record TxMeta := mkTxMeta { tm_offset : Z; tm_flags : Z }.

(** The members that do not change once the connection has started. *)
Record ConnSession := mkConnSession {
  cs_tx_lane : Z;
  cs_rx_lane : Z;
  cs_encrypted : bool;
  cs_tx_cipher : LaneCipher;
  cs_rx_cipher : LaneCipher;
  cs_timeout_ms : Z;
}.

Record ConnTx := mkConnTx {
  ct_reg : SenderRegistry;
  ct_cc : CongestionController;
  ct_next_seq : Z;
  ct_base : Z;
  ct_meta : list TxMeta;
  ct_last_progress_ns : Z;
  ct_last_rtt_echo_ns : Z;
  ct_send_busy : bool;
}.

Record ConnRx := mkConnRx {
  cr_rx : ReceiverStream;
  cr_asm_buf : bytes;
  cr_asm_end_seq : Z;
  cr_asm_total : Z;
  cr_inbox : list bytes;
  cr_inbox_bytes : Z;
  cr_ack_pending : bool;
  cr_last_ack_ns : Z;
  cr_rtt_est_ns : Z;
  cr_nack_sent_ns : Z;
}.

Record ConnFlags := mkConnFlags { cf_peer_closed : bool; cf_failed : bool; cf_closing : bool }.

Record fuse_conn_stats := mkConnStats {
  cn_messages_sent : Z;
  cn_messages_received : Z;
  cn_bytes_sent : Z;
  cn_bytes_received : Z;
  cn_retransmits : Z;
  cn_auth_failures : Z;
}.

Record fuse_conn := mkConn {
  fc_session : ConnSession;
  fc_peer : PeerAddr;
  fc_tx : ConnTx;
  fc_rx : ConnRx;
  fc_flags : ConnFlags;
  fc_stats : fuse_conn_stats;
}.

Definition fc_set_peer (c : fuse_conn) (p : PeerAddr) : fuse_conn := mkConn (fc_session c) p (fc_tx c) (fc_rx c) (fc_flags c) (fc_stats c).
Definition fc_set_tx (c : fuse_conn) (x : ConnTx) : fuse_conn := mkConn (fc_session c) (fc_peer c) x (fc_rx c) (fc_flags c) (fc_stats c).
Definition fc_set_rx (c : fuse_conn) (r : ConnRx) : fuse_conn := mkConn (fc_session c) (fc_peer c) (fc_tx c) r (fc_flags c) (fc_stats c).
Definition fc_set_flags (c : fuse_conn) (f : ConnFlags) : fuse_conn := mkConn (fc_session c) (fc_peer c) (fc_tx c) (fc_rx c) f (fc_stats c).
Definition fc_set_stats (c : fuse_conn) (s : fuse_conn_stats) : fuse_conn := mkConn (fc_session c) (fc_peer c) (fc_tx c) (fc_rx c) (fc_flags c) s.

(** A connection as [start_conn] leaves it, at [now]. *)
Definition start_conn (s : ConnSession) (peer : PeerAddr) (now : Z) : fuse_conn :=
  mkConn s peer
    (mkConnTx (new_registry (cs_tx_lane s) kWindow) (new_controller kWindow true 1 8) 0 0 (replicate (Z.to_nat kWindow) (mkTxMeta 0 0)) now 0 false)
    (mkConnRx (new_receiver (cs_rx_lane s) kWindow true) [] no_seq 0 [] 0 false 0 0 0)
    (mkConnFlags false false false) (mkConnStats 0 0 0 0 0 0).

(** [build_aad] of this file; unlike that of transfer.cpp it covers every flag. *)
Definition sdk_aad (lane seq offset flags : Z) : bytes := be 2 lane ++ be 8 seq ++ be 8 offset ++ [u8 flags].

(** A clock reading put on the wire. *)
Definition now_ns (t : Z) : Z := u64 t.

(** [std::vector<uint8_t> scratch(kMaxDatagramSize + 64)] *)
Definition scratch : bytes := replicate (Z.to_nat (kMaxDatagramSize + 64)) 0.

Definition to_peer (c : fuse_conn) (dgs : list bytes) : list datagram := pair (fc_peer c) <$> dgs.

Section Conn.
Context `{B : CryptoBackend}.

(** ** Sending blocks *)

(** The body of a block and its length on the wire; [None] when sealing fails. *)
Definition seal_body (s : ConnSession) (seq offset flags : Z) (data : bytes) (len : Z) : option (bytes * Z) :=
  if cs_encrypted s then
    match cipher_seal (cs_tx_cipher s) (cs_tx_lane s) seq (sdk_aad (cs_tx_lane s) seq offset flags) (take (Z.to_nat len) data) with
    | Some sealed => Some (sealed, u16 (len + kAeadTagLen))
    | None => None
    end
  else Some (data, len).

Definition count_retransmit (s : fuse_conn_stats) : fuse_conn_stats :=
  mkConnStats (cn_messages_sent s) (cn_messages_received s) (cn_bytes_sent s) (cn_bytes_received s) (u64 (cn_retransmits s + 1)) (cn_auth_failures s).

(** [o] is the clock reading and what the socket says. *)
Definition retransmit_locked (c : fuse_conn) (seq : Z) (o : Z * bool) : res (fuse_conn * list datagram) :=
  match lookup (ct_reg (fc_tx c)) seq with
  | None => Ok (c, [])
  | Some sl =>
      match nthZ (ct_meta (fc_tx c)) (seq mod kWindow) with
      | None => Fault
      | Some meta =>
          let flags := u8 (Z.lor (tm_flags meta) kFlagRetransmission) in
          match seal_body (fc_session c) seq (tm_offset meta) flags (sl_payload sl) (sl_payload_len sl) with
          | None => Ok (c, [])
          | Some (body, len) =>
              res_bind (encode_data_datagram (mkBlockHeader (cs_tx_lane (fc_session c)) seq flags len (tm_offset meta)) (now_ns (fst o)) (Some body) scratch) (fun '(buf, n) =>
              if n =? 0 then Ok (c, [])
              else Ok (if snd o then fc_set_stats c (count_retransmit (fc_stats c)) else c, to_peer c (emitted buf n)))
          end
      end
  end.

Record SendClock := mkSendClock { sk_store : Z; sk_progress : Z; sk_wire : Z }.

(** [send_block_locked]; [data] is the memory behind the pointer. *)
Definition send_block_locked (c : fuse_conn) (seq offset : Z) (data : bytes) (len : Z) (last : bool) (k : SendClock) :
    res (fuse_conn * list datagram * bool) :=
  let x := fc_tx c in
  let flags := if last then kFlagLastBlock else 0 in
  res_bind (store (ct_reg x) seq (Some data) len (sk_store k) offset 0) (fun '(_, reg) =>
  let meta := setZ (ct_meta x) (seq mod kWindow) (mkTxMeta offset flags) in
  let progress := if seq =? ct_base x then sk_progress k else ct_last_progress_ns x in
  let c := fc_set_tx c (mkConnTx reg (ct_cc x) (ct_next_seq x) (ct_base x) meta progress (ct_last_rtt_echo_ns x) (ct_send_busy x)) in
  match seal_body (fc_session c) seq offset flags data len with
  | None => Ok (c, [], false)
  | Some (body, blen) =>
      res_bind (encode_data_datagram (mkBlockHeader (cs_tx_lane (fc_session c)) seq flags blen offset) (now_ns (sk_wire k)) (Some body) scratch) (fun '(buf, n) =>
      if n =? 0 then Ok (c, [], false) else Ok (c, to_peer c (emitted buf n), true))
  end).

(** ** Receiving blocks *)

(** The bytes of a block, once authenticated, and how many of them count. *)
Definition open_body (s : ConnSession) (d : DataDatagram) : option (bytes * Z) :=
  let hdr := dd_hdr d in
  if cs_encrypted s then
    if bh_payload_len hdr <? kAeadTagLen then None
    else
      match cipher_open (cs_rx_cipher s) (cs_rx_lane s) (bh_seq_no hdr) (sdk_aad (cs_rx_lane s) (bh_seq_no hdr) (bh_offset hdr) (bh_flags hdr))
              (payload_bytes (dd_payload d)) with
      | Some plain => Some (plain, u16 (bh_payload_len hdr - kAeadTagLen))
      | None => None
      end
  else Some (payload_bytes (dd_payload d), bh_payload_len hdr).

Definition count_auth_failure (s : fuse_conn_stats) : fuse_conn_stats :=
  mkConnStats (cn_messages_sent s) (cn_messages_received s) (cn_bytes_sent s) (cn_bytes_received s) (cn_retransmits s) (u64 (cn_auth_failures s + 1)).

(** [std::vector::resize] *)
Definition resize (l : bytes) (n : Z) : bytes := take (Z.to_nat n) l ++ replicate (Z.to_nat n - length l) 0.

Definition cr_set_rx (r : ConnRx) (rx : ReceiverStream) : ConnRx :=
  mkConnRx rx (cr_asm_buf r) (cr_asm_end_seq r) (cr_asm_total r) (cr_inbox r) (cr_inbox_bytes r) (cr_ack_pending r) (cr_last_ack_ns r) (cr_rtt_est_ns r) (cr_nack_sent_ns r).

(** The round-trip estimate after an accepted block. *)
Definition sdk_sample (r : ConnRx) (flags now : Z) : ConnRx :=
  if negb (Z.land flags kFlagRetransmission =? 0) && negb (cr_nack_sent_ns r =? 0) then
    let sample := u64 (now - cr_nack_sent_ns r) in
    mkConnRx (cr_rx r) (cr_asm_buf r) (cr_asm_end_seq r) (cr_asm_total r) (cr_inbox r) (cr_inbox_bytes r) (cr_ack_pending r) (cr_last_ack_ns r)
      (if cr_rtt_est_ns r =? 0 then sample else u64 (u64 (cr_rtt_est_ns r * 7) + sample) / 8) 0
  else r.

(** The copy of an accepted block into the message under reassembly. [Fault] is a read
    past the body. *)
Definition place_block (r : ConnRx) (hdr : BlockHeader) (body : bytes) (body_len : Z) : res ConnRx :=
  if (bh_offset hdr <=? kMaxMessage) && (body_len <=? kMaxMessage - bh_offset hdr) then
    let end_ := u64 (bh_offset hdr + body_len) in
    let buf := if lenZ (cr_asm_buf r) <? end_ then resize (cr_asm_buf r) end_ else cr_asm_buf r in
    if (lenZ body <? body_len) || (lenZ buf <? bh_offset hdr + body_len) then Fault
    else
      let buf := splice buf (bh_offset hdr) (take (Z.to_nat body_len) body) in
      let last := negb (Z.land (bh_flags hdr) kFlagLastBlock =? 0) in
      Ok (mkConnRx (cr_rx r) buf (if last then bh_seq_no hdr else cr_asm_end_seq r) (if last then end_ else cr_asm_total r) (cr_inbox r) (cr_inbox_bytes r)
            (cr_ack_pending r) (cr_last_ack_ns r) (cr_rtt_est_ns r) (cr_nack_sent_ns r))
  else Ok r.

Definition cr_set_pending (r : ConnRx) (pending : bool) (last_ack_ns : Z) : ConnRx :=
  mkConnRx (cr_rx r) (cr_asm_buf r) (cr_asm_end_seq r) (cr_asm_total r) (cr_inbox r) (cr_inbox_bytes r) pending last_ack_ns (cr_rtt_est_ns r) (cr_nack_sent_ns r).

(** The message is whole once the window's base has passed its last block. *)
Definition complete_message (c : fuse_conn) : fuse_conn :=
  let r := fc_rx c in
  if negb (cr_asm_end_seq r =? no_seq) && (cr_asm_end_seq r <? rs_base_seq_no (cr_rx r)) then
    let msg := resize (cr_asm_buf r) (cr_asm_total r) in
    let s := fc_stats c in
    fc_set_stats
      (fc_set_rx c (mkConnRx (cr_rx r) [] no_seq 0 (cr_inbox r ++ [msg]) (u64 (cr_inbox_bytes r + lenZ msg)) (cr_ack_pending r) (cr_last_ack_ns r) (cr_rtt_est_ns r) (cr_nack_sent_ns r)))
      (mkConnStats (cn_messages_sent s) (u64 (cn_messages_received s + 1)) (cn_bytes_sent s) (u64 (cn_bytes_received s + lenZ msg)) (cn_retransmits s) (cn_auth_failures s))
  else c.

(** The clock readings of a datagram's handler, and the outcomes of its sends. *)
Record DgEnv := mkDgEnv { de_first : Z; de_second : Z; de_sends : Z -> Z * bool }.

(** A block that passed authentication. *)
Definition accept_block (c : fuse_conn) (d : DataDatagram) (body : bytes) (body_len : Z) (src : PeerAddr) (e : DgEnv) : res fuse_conn :=
  let hdr := dd_hdr d in
  let r := fc_rx c in
  res_bind (on_receive (cr_rx r) (bh_seq_no hdr) (dd_send_time_ns d) (de_first e)) (fun '(rr, rx) =>
  let c := fc_set_rx c (cr_set_rx r rx) in
  res_bind
    match rr with
    | Accepted => res_bind (place_block (sdk_sample (fc_rx c) (bh_flags hdr) (de_second e)) hdr body body_len) (fun r => Ok (fc_set_rx (fc_set_peer c src) r))
    | _ => Ok c
    end (fun c =>
  Ok (complete_message (fc_set_rx c (cr_set_pending (fc_rx c) true (cr_last_ack_ns (fc_rx c))))))).

Definition handle_data_locked (c : fuse_conn) (dg : bytes) (src : PeerAddr) (e : DgEnv) : res fuse_conn :=
  try_decode (decode_data_datagram dg) (fun d =>
    if negb (bh_stream_id (dd_hdr d) =? cs_rx_lane (fc_session c)) then Ok c
    else
      match open_body (fc_session c) d with
      | None => Ok (fc_set_stats c (count_auth_failure (fc_stats c)))
      | Some (body, body_len) =>
          if kMaxInboxBytes <=? cr_inbox_bytes (fc_rx c) then Ok c
          else accept_block c d body body_len src e
      end) (Ok c).

(** ** Acks and Nacks *)

Definition sdk_ack (c : fuse_conn) : Ack :=
  let a := build_ack (cr_rx (fc_rx c)) in
  mkAck (cs_rx_lane (fc_session c)) (ack_base_seq_no a) (ack_received_bitmask a) (ack_echoed_send_time a) (ack_nonce a) (ack_rwnd a).

(** [send_ack_locked], its second clock reading being [now]. *)
Definition send_ack_locked (c : fuse_conn) (now : Z) : res (fuse_conn * list datagram) :=
  res_bind (encode_ack (sdk_ack c) scratch) (fun '(buf, n) =>
  Ok (fc_set_rx c (cr_set_pending (fc_rx c) false now), to_peer c (emitted buf n))).

Definition on_ack (c : fuse_conn) (ack : Ack) (src : PeerAddr) (e : DgEnv) : fuse_conn :=
  let c := fc_set_peer c src in
  let x := fc_tx c in
  let advances := ct_base x <? ack_base_seq_no ack in
  let base := if advances then Z.min (ack_base_seq_no ack) (ct_next_seq x) else ct_base x in
  let reg := foldl confirm (ct_reg x) (seqZ (ct_base x) (base - ct_base x)) in
  let fresh := (0 <? ack_echoed_send_time ack) && negb (ack_echoed_send_time ack =? ct_last_rtt_echo_ns x) in
  let cc := if fresh && (ack_echoed_send_time ack <? de_second e) then on_rtt_sample (ct_cc x) (de_second e - ack_echoed_send_time ack) else ct_cc x in
  fc_set_tx c (mkConnTx reg cc (ct_next_seq x) base (ct_meta x) (if advances then de_first e else ct_last_progress_ns x)
                 (if fresh then ack_echoed_send_time ack else ct_last_rtt_echo_ns x) (ct_send_busy x)).

Definition ct_set_cc (x : ConnTx) (cc : CongestionController) : ConnTx :=
  mkConnTx (ct_reg x) cc (ct_next_seq x) (ct_base x) (ct_meta x) (ct_last_progress_ns x) (ct_last_rtt_echo_ns x) (ct_send_busy x).

(** The blocks of a Nack, [i] of them handled. *)
Fixpoint retransmit_each (c : fuse_conn) (i : Z) (seqs : list Z) (outs : Z -> Z * bool) : res (fuse_conn * list datagram) :=
  match seqs with
  | [] => Ok (c, [])
  | seq :: seqs =>
      res_bind (retransmit_locked c seq (outs i)) (fun '(c, out) =>
      res_bind (retransmit_each c (i + 1) seqs outs) (fun '(c, out') => Ok (c, out ++ out')))
  end.

Definition on_nack (c : fuse_conn) (nack : Nack) (src : PeerAddr) (e : DgEnv) : res (fuse_conn * list datagram) :=
  let c := fc_set_peer c src in
  retransmit_each (fc_set_tx c (ct_set_cc (fc_tx c) (on_loss (ct_cc (fc_tx c))))) 0 (take (Z.to_nat (nack_count nack)) (nack_missing nack)) (de_sends e).

(** ** The pump *)

(** A datagram of the batch, with its source. *)
Record Incoming := mkIncoming { in_dg : bytes; in_src : PeerAddr; in_env : DgEnv }.

Definition pump_datagram (c : fuse_conn) (i : Incoming) : res (fuse_conn * list datagram * bool) :=
  let skip := Ok (c, [], false) in
  try_decode (peek_msg_type (in_dg i)) (fun type =>
    if type =? MsgType.code MsgType.Data then res_bind (handle_data_locked c (in_dg i) (in_src i) (in_env i)) (fun c => Ok (c, [], true))
    else if type =? MsgType.code MsgType.Ack then try_decode (decode_ack (in_dg i)) (fun ack => Ok (on_ack c ack (in_src i) (in_env i), [], false)) skip
    else if type =? MsgType.code MsgType.Nack then
      try_decode (decode_nack (in_dg i) default_nack) (fun nack => res_bind (on_nack c nack (in_src i) (in_env i)) (fun '(c, out) => Ok (c, out, false))) skip
    else if type =? MsgType.code MsgType.Close then
      Ok (fc_set_flags c (mkConnFlags true (cf_failed (fc_flags c)) (cf_closing (fc_flags c))), [], false)
    else skip) skip.

Fixpoint pump_batch (c : fuse_conn) (batch : list Incoming) : res (fuse_conn * list datagram * bool) :=
  match batch with
  | [] => Ok (c, [], false)
  | i :: batch =>
      res_bind (pump_datagram c i) (fun '(c, out, got) =>
      res_bind (pump_batch c batch) (fun '(c, out', got') => Ok (c, out ++ out', got || got')))
  end.

Definition pump_nack (c : fuse_conn) (t : Z) : res (fuse_conn * list datagram) :=
  let r := fc_rx c in
  res_bind (collect_nacks (cr_rx r) t (reorder_ns (cr_rtt_est_ns r)) (renack_ns (cr_rtt_est_ns r)) default_nack) (fun '(rx, nack) =>
  let r := cr_set_rx r rx in
  if 0 <? nack_count nack then
    res_bind (encode_nack (mkNack (cs_rx_lane (fc_session c)) (nack_count nack) (nack_missing nack)) scratch) (fun '(buf, n) =>
    Ok (fc_set_rx c (mkConnRx (cr_rx r) (cr_asm_buf r) (cr_asm_end_seq r) (cr_asm_total r) (cr_inbox r) (cr_inbox_bytes r) (cr_ack_pending r) (cr_last_ack_ns r)
                       (cr_rtt_est_ns r) t), to_peer c (emitted buf n)))
  else Ok (fc_set_rx c r, [])).

Definition sdk_rto (cc : CongestionController) : Z :=
  if cg_srtt_ns cc =? 0 then 200000000 else clamp (u64 (cg_srtt_ns cc * 3)) 20000000 1000000000.

Definition pump_rto (c : fuse_conn) (t : Z) (o : Z * bool) : res (fuse_conn * list datagram) :=
  let x := fc_tx c in
  if (ct_base x <? ct_next_seq x) && negb (ct_last_progress_ns x =? 0) && (sdk_rto (ct_cc x) <? u64 (t - ct_last_progress_ns x)) then
    res_bind (retransmit_locked (fc_set_tx c (ct_set_cc x (on_loss (ct_cc x)))) (ct_base x) o) (fun '(c, out) =>
    let x := fc_tx c in
    Ok (fc_set_tx c (mkConnTx (ct_reg x) (ct_cc x) (ct_next_seq x) (ct_base x) (ct_meta x) t (ct_last_rtt_echo_ns x) (ct_send_busy x)), out))
  else Ok (c, []).

Record PumpEnv := mkPumpEnv { pe_now : Z; pe_ack_ns : Z; pe_rto : Z * bool }.

(** One pass of [pump_main]'s loop, from the moment it has the mutex. *)
Definition pump_pass (c : fuse_conn) (batch : list Incoming) (e : PumpEnv) : res (fuse_conn * list datagram) :=
  let t := pe_now e in
  res_bind (pump_batch c batch) (fun '(c, out1, got_data) =>
  let c := fc_set_tx c (ct_set_cc (fc_tx c) (poll (ct_cc (fc_tx c)) t)) in
  res_bind (if cr_ack_pending (fc_rx c) || got_data then send_ack_locked c (pe_ack_ns e) else Ok (c, [])) (fun '(c, out2) =>
  res_bind (pump_nack c t) (fun '(c, out3) =>
  res_bind (pump_rto c t (pe_rto e)) (fun '(c, out4) => Ok (c, out1 ++ out2 ++ out3 ++ out4))))).

(** ** The calls of the application *)

(** One pass of [wait_for]'s loop: [None] releases the mutex and waits. *)
Definition wait_for (c : fuse_conn) (ready timed_out : bool) : option fuse_status :=
  if ready then Some FUSE_OK
  else if cf_failed (fc_flags c) then Some FUSE_ERR_INTERNAL
  else if cf_closing (fc_flags c) then Some FUSE_ERR_CLOSED
  else if timed_out then Some FUSE_ERR_TIMEOUT
  else None.

(** The checks of [fuse_send] before it takes the mutex. *)
Definition send_args (data : option bytes) (len : Z) : option fuse_status :=
  if kMaxMessage <? len then Some FUSE_ERR_TOO_LARGE
  else match data with None => if 0 <? len then Some FUSE_ERR_CONFIG else None | Some _ => None end.

Definition nblocks (len : Z) : Z := if len =? 0 then 1 else (len + kBlockSize - 1) / kBlockSize.

(** Where a call of [fuse_send] is: before the mutex, waiting for its turn, for room
    for block [sc_i], or for the last Ack; or returned, having sent something or not. *)
Record SendCall := mkSendCall { sc_data : bytes; sc_i : Z; sc_last_seq : Z }.

Inductive SendPhase :=
| SendEnter (data : bytes)
| SendBusy (data : bytes)
| SendRoom (call : SendCall)
| SendDelivered (call : SendCall)
| SendDone (st : fuse_status)
| SendRefused (st : fuse_status).

Definition set_busy (c : fuse_conn) (busy : bool) : fuse_conn :=
  let x := fc_tx c in
  fc_set_tx c (mkConnTx (ct_reg x) (ct_cc x) (ct_next_seq x) (ct_base x) (ct_meta x) (ct_last_progress_ns x) (ct_last_rtt_echo_ns x) busy).

Definition set_next_seq (c : fuse_conn) (next : Z) : fuse_conn :=
  let x := fc_tx c in
  fc_set_tx c (mkConnTx (ct_reg x) (ct_cc x) next (ct_base x) (ct_meta x) (ct_last_progress_ns x) (ct_last_rtt_echo_ns x) (ct_send_busy x)).

(** The predicate [room]. *)
Definition has_room (c : fuse_conn) : bool :=
  let x := fc_tx c in
  (u64 (ct_next_seq x - ct_base x) <? Z.min kWindow (Z.max 4 (cg_window (ct_cc x)))) || cf_peer_closed (fc_flags c).

Definition gone (c : fuse_conn) : bool := cf_peer_closed (fc_flags c) || cf_closing (fc_flags c).

(** The iteration for block [sc_i], once there is room. *)
Definition send_one (c : fuse_conn) (call : SendCall) (k : SendClock) : res (fuse_conn * list datagram * SendPhase) :=
  let len := lenZ (sc_data call) in
  let off := sc_i call * kBlockSize in
  let blen := u16 (Z.min kBlockSize (len - Z.min off len)) in
  let last := sc_i call + 1 =? nblocks len in
  res_bind (send_block_locked c (ct_next_seq (fc_tx c)) off (drop (Z.to_nat off) (sc_data call)) blen last k) (fun '(c, out, ok) =>
  if negb ok then Ok (set_busy c false, out, SendDone FUSE_ERR_INTERNAL)
  else
    let c := set_next_seq c (u64 (ct_next_seq (fc_tx c) + 1)) in
    let call := mkSendCall (sc_data call) (sc_i call + 1) (sc_last_seq call) in
    Ok (c, out, if last then SendDelivered call else SendRoom call)).

Definition count_sent (s : fuse_conn_stats) (len : Z) : fuse_conn_stats :=
  mkConnStats (u64 (cn_messages_sent s + 1)) (cn_messages_received s) (u64 (cn_bytes_sent s + len)) (cn_bytes_received s) (cn_retransmits s) (cn_auth_failures s).

(** What a call of [fuse_send] does when it gets the mutex, up to its next wait. *)
Definition fuse_send (c : fuse_conn) (ph : SendPhase) (timed_out : bool) (k : SendClock) : res (fuse_conn * list datagram * SendPhase) :=
  match ph with
  | SendEnter data => Ok (c, [], if gone c then SendRefused FUSE_ERR_CLOSED else SendBusy data)
  | SendBusy data =>
      match wait_for c (negb (ct_send_busy (fc_tx c)) || gone c) timed_out with
      | None => Ok (c, [], ph)
      | Some FUSE_OK =>
          if gone c then Ok (c, [], SendRefused FUSE_ERR_CLOSED)
          else Ok (set_busy c true, [], SendRoom (mkSendCall data 0 (u64 (ct_next_seq (fc_tx c) + nblocks (lenZ data) - 1))))
      | Some st => Ok (c, [], SendRefused st)
      end
  | SendRoom call =>
      match wait_for c (has_room c) timed_out with
      | None => Ok (c, [], ph)
      | Some FUSE_OK => if cf_peer_closed (fc_flags c) then Ok (set_busy c false, [], SendDone FUSE_ERR_CLOSED) else send_one c call k
      | Some st => Ok (set_busy c false, [], SendDone st)
      end
  | SendDelivered call =>
      match wait_for c ((sc_last_seq call <? ct_base (fc_tx c)) || cf_peer_closed (fc_flags c)) timed_out with
      | None => Ok (c, [], ph)
      | Some FUSE_OK =>
          if ct_base (fc_tx c) <=? sc_last_seq call then Ok (set_busy c false, [], SendDone FUSE_ERR_CLOSED)
          else Ok (set_busy (fc_set_stats c (count_sent (fc_stats c) (lenZ (sc_data call)))) false, [], SendDone FUSE_OK)
      | Some st => Ok (set_busy c false, [], SendDone st)
      end
  | SendDone _ | SendRefused _ => Ok (c, [], ph)
  end.

Definition pop_inbox (c : fuse_conn) (inbox : list bytes) (len : Z) : fuse_conn :=
  let r := fc_rx c in
  fc_set_rx c (mkConnRx (cr_rx r) (cr_asm_buf r) (cr_asm_end_seq r) (cr_asm_total r) inbox (u64 (cr_inbox_bytes r - len)) (cr_ack_pending r) (cr_last_ack_ns r)
                 (cr_rtt_est_ns r) (cr_nack_sent_ns r)).

(** What a receiving call returns: [None] while it waits, else its status, [*out_len]
    and the message. *)
Definition recv_return : Type := option (fuse_status * option Z * option bytes).

(** A call of [fuse_recv] with a buffer of [cap] bytes when it gets the mutex. *)
Definition fuse_recv (c : fuse_conn) (cap : Z) (timed_out : bool) : fuse_conn * recv_return :=
  let inbox := cr_inbox (fc_rx c) in
  match wait_for c (negb (bool_decide (inbox = [])) || cf_peer_closed (fc_flags c)) timed_out with
  | None => (c, None)
  | Some FUSE_OK =>
      match inbox with
      | [] => (c, Some (FUSE_ERR_CLOSED, None, None))
      | front :: rest =>
          if cap <? lenZ front then (c, Some (FUSE_ERR_BUFFER, Some (lenZ front), None))
          else (pop_inbox c rest (lenZ front), Some (FUSE_OK, Some (lenZ front), Some front))
      end
  | Some st => (c, Some (st, None, None))
  end.

(** [fuse_recv_alloc]; [alloc_ok] is whether [malloc] succeeds. *)
Definition fuse_recv_alloc (c : fuse_conn) (alloc_ok timed_out : bool) : fuse_conn * recv_return :=
  let inbox := cr_inbox (fc_rx c) in
  match wait_for c (negb (bool_decide (inbox = [])) || cf_peer_closed (fc_flags c)) timed_out with
  | None => (c, None)
  | Some FUSE_OK =>
      match inbox with
      | [] => (c, Some (FUSE_ERR_CLOSED, None, None))
      | front :: rest =>
          (pop_inbox c rest (lenZ front), Some (if alloc_ok then (FUSE_OK, Some (lenZ front), Some front) else (FUSE_ERR_INTERNAL, None, None)))
      end
  | Some st => (c, Some (st, None, None))
  end.

(** What [fuse_close] does under the mutex. *)
Definition encode_close : bytes := [kProtocolVersion; MsgType.code MsgType.Close].
Definition fuse_close (c : fuse_conn) : fuse_conn * list datagram :=
  (fc_set_flags c (mkConnFlags (cf_peer_closed (fc_flags c)) (cf_failed (fc_flags c)) true), to_peer c (replicate 3 encode_close)).

Definition fuse_conn_is_closed (c : fuse_conn) : bool :=
  (cf_peer_closed (fc_flags c) && bool_decide (cr_inbox (fc_rx c) = [])) || cf_failed (fc_flags c).

(** The statistics and the smoothed round trip in microseconds. *)
Definition fuse_conn_get_stats (c : fuse_conn) : fuse_conn_stats * Z := (fc_stats c, cg_srtt_ns (ct_cc (fc_tx c)) / 1000).

End Conn.
