(* ===== verification/SdkInv.v ===== *)
(** * What a connection of the message API keeps

    Specifications of the handlers of SdkConn.v, for every datagram, over two
    parameters: which blocks the connection may have in its registry, and what is known
    of the message under reassembly.  SdkSystem.v instantiates them once for a peer that
    sends anything at all and once for the other end of the same connection. *)

From S2P Require Import Prelude Wire Control Block Bits Window Receiver Registry Setup Handshake Congestion SessionCrypto Peer Returns RecvLane RecvSafety MuxRecv SdkConn.

(** What [s'] receives is what [s] sends. *)
Definition paired (s s' : ConnSession) : Prop :=
  cs_rx_lane s' = cs_tx_lane s /\ cs_encrypted s' = cs_encrypted s /\ cs_rx_cipher s' = cs_tx_cipher s.

Record wf_conn_session (s : ConnSession) : Prop := {
  ws_tx : is_u16 (cs_tx_lane s);
  ws_rx : is_u16 (cs_rx_lane s);
}.

(** ** Datagrams by type *)

Lemma wire_type_only (M : Type) `{CodecLaws M} t t' P (m : M) :
  MessageType M t -> wf_msg m -> (t', P) ∈ message_decoders (wire m) -> P -> MsgType.code t = MsgType.code t'.
Proof.
  intros HT Hm Hin HP. pose proof (wire_peeks m [] Hm) as E. rewrite app_nil_r in E. rewrite (decoder_peeks _ _ _ Hin HP) in E. by apply Ok_inj in E.
Qed.

Lemma wire_not_data (M : Type) `{CodecLaws M} t (m : M) d : MessageType M t -> wf_msg m -> t <> MsgType.Data -> decode_data_datagram (wire m) <> Ok d.
Proof.
  intros HT Hm Ht E. assert (MsgType.code t = MsgType.code MsgType.Data) as Hc by (apply (wire_type_only M t _ (exists d, decode_data_datagram (wire m) = Ok d) m); [done | done | left | by exists d]).
  by destruct t.
Qed.

Lemma wire_not_ack (M : Type) `{CodecLaws M} t (m : M) a : MessageType M t -> wf_msg m -> t <> MsgType.Ack -> decode_ack (wire m) <> Ok a.
Proof.
  intros HT Hm Ht E. assert (MsgType.code t = MsgType.code MsgType.Ack) as Hc
    by (apply (wire_type_only M t _ (exists a, decode_ack (wire m) = Ok a) m); [done | done | by do 3 right; left | by exists a]).
  by destruct t.
Qed.

Lemma decode_wire_eq (M : Type) `{CodecLaws M} (m m' : M) : wf_msg m -> decode (wire m) = Ok m' -> m' = m.
Proof. intros Hm E. pose proof (decode_wire m [] Hm) as E'. rewrite app_nil_r, E in E'. by apply Ok_inj in E'. Qed.

Lemma to_peer_dgs c dgs : snd <$> to_peer c dgs = dgs.
Proof. unfold to_peer. by rewrite <- list_fmap_compose, (list_fmap_ext _ id _ (fun _ _ _ => eq_refl)), list_fmap_id. Qed.

Section Inv.
Context `{B : CryptoBackend} `{!CryptoLaws B}.

(** [own q p meta]: block [q] of the connection may have payload [p] and metadata [meta].
    [conf q]: the peer has said that it has block [q]. *)
Context (own : Z -> bytes -> TxMeta -> Prop) (conf : Z -> Prop).
Context (own_wf : forall q p meta, own q p meta -> is_u64 q /\ lenZ p <= kBlockSize /\ is_u64 (tm_offset meta) /\ is_u8 (tm_flags meta)).

(** ** The sending half *)

Definition held_block (meta : list TxMeta) (q : Z) (sl : RegistrySlot) : Prop :=
  lenZ (sl_payload sl) = kMaxPayloadSize /\
  exists p m, nthZ meta (q mod kWindow) = Some m /\ own q p m /\ sl_payload_len sl = lenZ p /\ take (Z.to_nat (lenZ p)) (sl_payload sl) = p.

Record conn_tx_inv (x : ConnTx) : Prop := {
  xi_reg : wf_registry (ct_reg x);
  xi_ws : sr_window_size (ct_reg x) = kWindow;
  xi_meta : lenZ (ct_meta x) = kWindow;
  xi_bounds : 0 <= ct_base x <= ct_next_seq x /\ ct_next_seq x <= ct_base x + kWindow /\ ct_next_seq x < 2 ^ 64;
  xi_held : forall q sl, lookup (ct_reg x) q = Some sl -> ct_base x <= q <= ct_next_seq x /\ held_block (ct_meta x) q sl;
  xi_kept : forall q, ct_base x <= q < ct_next_seq x -> is_Some (lookup (ct_reg x) q);
  xi_conf : forall q, 0 <= q < ct_base x -> conf q;
}.

(** A datagram the connection may send: blocks of its own, and Acks for [acc]. *)
Definition sent_by (s : ConnSession) (acc : gset Z) (dg : bytes) : Prop :=
  (forall d, decode_data_datagram dg = Ok d -> bh_stream_id (dd_hdr d) = cs_tx_lane s /\
     exists p m, own (bh_seq_no (dd_hdr d)) p m /\ bh_offset (dd_hdr d) = tm_offset m /\
       (bh_flags (dd_hdr d) = tm_flags m \/ bh_flags (dd_hdr d) = Z.lor (tm_flags m) kFlagRetransmission) /\
       forall s', paired s s' -> open_body s' d = Some (p, lenZ p)) /\
  (forall a q, decode_ack dg = Ok a -> 0 <= q < ack_base_seq_no a -> q ∈ acc).

Lemma sent_by_mono s acc acc' dg : acc ⊆ acc' -> sent_by s acc dg -> sent_by s acc' dg.
Proof. intros Hs [H1 H2]. split; [done |]. intros a q Ha Hq. eapply Hs, H2; done. Qed.

(** The members of [ConnTx] the invariant speaks of. *)
Definition same_blocks (x x' : ConnTx) : Prop :=
  ct_reg x' = ct_reg x /\ ct_next_seq x' = ct_next_seq x /\ ct_base x' = ct_base x /\ ct_meta x' = ct_meta x.

Lemma conn_tx_inv_blocks x x' : same_blocks x x' -> conn_tx_inv x -> conn_tx_inv x'.
Proof. intros (E1 & E2 & E3 & E4) []. split; rewrite ?E1, ?E2, ?E3, ?E4; done. Qed.

(** *** One block on the wire *)

Lemma seal_body_spec s seq offset flags data len body n :
  is_u16 (cs_tx_lane s) -> 0 <= len <= kBlockSize -> len <= lenZ data -> seal_body s seq offset flags data len = Some (body, n) ->
  0 <= n <= kBlockSize + kAeadTagLen /\ n <= lenZ body /\
  forall s' sent, paired s s' -> open_body s' (block_datagram (mkBlockHeader (cs_tx_lane s) seq flags n offset) sent body) = Some (take (Z.to_nat len) data, len).
Proof.
  intros Hl Hlen Hd E. unfold seal_body in E. unfold kBlockSize, kDefaultPayloadSize, kAeadTagLen in *.
  assert (lenZ (take (Z.to_nat len) data) = len) as El by (apply lenZ_take; lia). destruct (cs_encrypted s) eqn:Ee.
  - destruct (cipher_seal _ _ _ _ _) as [sealed |] eqn:Es; [| done]. injection E as <- <-.
    apply cipher_seal_open in Es as [Eo Hs]; [| rewrite El; lia]. rewrite El in Hs. rewrite u16_small by (unfold is_u16; lia). split; [lia |]. split; [lia |].
    intros s' sent (P1 & P2 & P3). unfold open_body, block_datagram. cbn [dd_hdr dd_payload bh_payload_len bh_seq_no bh_offset bh_flags].
    rewrite P1, P2, P3, Ee. unfold kAeadTagLen. destruct (Z.ltb_spec (len + 16) 16); [lia |]. destruct (Z.ltb_spec 0 (len + 16)); [| lia]. cbn [payload_bytes default].
    rewrite take_ge by (unfold lenZ in Hs; lia). unfold payload_bytes. cbn [default id from_option]. rewrite Eo. rewrite u16_small by (unfold is_u16; lia). do 2 f_equal. lia.
  - injection E as <- <-. split; [lia |]. split; [done |]. intros s' sent (P1 & P2 & P3). unfold open_body, block_datagram.
    cbn [dd_hdr dd_payload bh_payload_len]. rewrite P2, Ee. destruct (Z.ltb_spec 0 len); [done |]. by replace len with 0 by lia.
Qed.

(** What sending a block of [own] hands to the socket. *)
Lemma emit_own s acc seq flags m p data sent body n :
  wf_conn_session s -> own seq p m -> flags = tm_flags m \/ flags = Z.lor (tm_flags m) kFlagRetransmission ->
  lenZ p <= lenZ data -> take (Z.to_nat (lenZ p)) data = p -> seal_body s seq (tm_offset m) flags data (lenZ p) = Some (body, n) ->
  exists buf k, encode_data_datagram (mkBlockHeader (cs_tx_lane s) seq flags n (tm_offset m)) (now_ns sent) (Some body) scratch = Ok (buf, k) /\
    k <> 0 /\ Forall (sent_by s acc) (emitted buf k).
Proof.
  intros Hs Ho Hf Hd Ep E. destruct (own_wf _ _ _ Ho) as (Hq & Hp & Hoff & Hm). pose proof (lenZ_nonneg p).
  destruct (seal_body_spec s seq (tm_offset m) flags data (lenZ p) body n (ws_tx _ Hs) ltac:(lia) Hd E) as (Hn & Hb & Hopen). rewrite Ep in Hopen.
  set (hdr := mkBlockHeader _ _ _ _ _). assert (is_u8 flags) as Hfl by (destruct Hf as [-> | ->]; [done |]; unfold is_u8 in *; apply lor_range; [lia | lia | unfold kFlagRetransmission; lia]).
  assert (wf_header hdr) as Hh by (unfold kBlockSize, kDefaultPayloadSize, kAeadTagLen in *; unfold wf_header, kMaxPayloadSize; cbn; pose proof (ws_tx _ Hs); split_and!; done || lia).
  assert (is_u64 (now_ns sent)) as Ht by apply u64_range.
  eexists _, _. split; [apply encode_block; try done |].
  { unfold scratch. rewrite lenZ_replicate. cbn [hdr bh_payload_len]. unfold kMaxDatagramSize, kBlockSize, kDefaultPayloadSize, kAeadTagLen, kMaxPayloadSize in *. lia. }
  pose proof (block_datagram_wf hdr (now_ns sent) body Hh Ht Hb) as Hw. pose proof (lenZ_data_wire _ Hw) as El. change (dd_hdr (block_datagram hdr (now_ns sent) body)) with hdr in El.
  assert (kDataPrefixSize + bh_payload_len hdr <> 0) as Hne by (change kDataPrefixSize with 31; cbn [hdr bh_payload_len]; lia). split; [done |].
  unfold emitted. destruct (Z.eqb_spec (kDataPrefixSize + bh_payload_len hdr) 0); [done |]. rewrite <- El, take_all_lenZ. constructor; [| done].
  change (data_wire (block_datagram hdr (now_ns sent) body)) with (wire (block_datagram hdr (now_ns sent) body)). split.
  - intros d Ed. assert (d = block_datagram hdr (now_ns sent) body) as -> by (by apply (decode_wire_eq DataDatagram)). cbn [block_datagram dd_hdr hdr bh_stream_id bh_seq_no bh_offset bh_flags]. split; [done |].
    exists p, m. split_and!; try done. intros s' Hpair. by apply Hopen.
  - intros a q Ea. exfalso. by apply (wire_not_ack DataDatagram MsgType.Data (block_datagram hdr (now_ns sent) body) a data_type Hw) in Ea.
Qed.

Lemma mod_window_inj base q r : base <= q < base + kWindow -> base <= r < base + kWindow -> q mod kWindow = r mod kWindow -> q = r.
Proof. unfold kWindow, kMaxWindow. intros. mlia. Qed.

Lemma retransmit_spec c acc seq o :
  wf_conn_session (fc_session c) -> conn_tx_inv (fc_tx c) ->
  returns (retransmit_locked c seq o) (fun '(c', out) => (c' = c \/ exists st, c' = fc_set_stats c st) /\ Forall (sent_by (fc_session c) acc) (snd <$> out)).
Proof.
  intros Hs I. unfold retransmit_locked. destruct (lookup _ _) as [sl |] eqn:El; [| apply returns_ok; by split; [left |]].
  destruct (xi_held _ I _ _ El) as (_ & Hp & p & m & Em & Ho & Elen & Et). rewrite Em, Elen.
  destruct (own_wf _ _ _ Ho) as (Hq & Hlp & Hoff & Hm). assert (u8 (Z.lor (tm_flags m) kFlagRetransmission) = Z.lor (tm_flags m) kFlagRetransmission) as ->.
  { apply u8_small. unfold is_u8 in *. apply lor_range; [lia | lia | unfold kFlagRetransmission; lia]. }
  destruct (seal_body _ _ _ _ _ _) as [[body n] |] eqn:Es; [| apply returns_ok; by split; [left |]].
  destruct (emit_own (fc_session c) acc seq _ m p (sl_payload sl) (fst o) body n Hs Ho (or_intror eq_refl)) as (buf & k & -> & Hk & Hout);
    [unfold kBlockSize, kDefaultPayloadSize, kMaxPayloadSize in *; lia | done | done |]. cbn [res_bind].
  destruct (Z.eqb_spec k 0); [done |]. apply returns_ok. split; [destruct (snd o); [right; by eexists | by left] |].
  by rewrite to_peer_dgs.
Qed.

(** What the handlers of Acks, Nacks and timers may change. *)
Record tx_served (acc : gset Z) (c c' : fuse_conn) (out : list datagram) : Prop := {
  ts_session : fc_session c' = fc_session c;
  ts_rx : fc_rx c' = fc_rx c;
  ts_flags : fc_flags c' = fc_flags c;
  ts_inv : conn_tx_inv (fc_tx c');
  ts_next : ct_next_seq (fc_tx c') = ct_next_seq (fc_tx c);
  ts_base : ct_base (fc_tx c) <= ct_base (fc_tx c');
  ts_busy : ct_send_busy (fc_tx c') = ct_send_busy (fc_tx c);
  ts_out : Forall (sent_by (fc_session c) acc) (snd <$> out);
}.

Lemma tx_served_trans acc c1 c2 c3 out1 out2 : tx_served acc c1 c2 out1 -> tx_served acc c2 c3 out2 -> tx_served acc c1 c3 (out1 ++ out2).
Proof.
  intros [] [H1 H2 H3 H4 H5 H6 H7 H8]. split; try congruence; [lia |]. rewrite fmap_app. apply Forall_app. split; [done |]. by rewrite <- ts_session0.
Qed.

(** Changes of the clocks and of the congestion controller. *)
Lemma tx_served_quiet acc c c' :
  conn_tx_inv (fc_tx c) -> fc_session c' = fc_session c -> fc_rx c' = fc_rx c -> fc_flags c' = fc_flags c -> same_blocks (fc_tx c) (fc_tx c') ->
  ct_send_busy (fc_tx c') = ct_send_busy (fc_tx c) -> tx_served acc c c' [].
Proof. intros I E1 E2 E3 Hb E4. pose proof Hb as (_ & Hn & Hba & _). split; try done; [by eapply conn_tx_inv_blocks | lia]. Qed.

Lemma retransmit_served c acc seq o :
  wf_conn_session (fc_session c) -> conn_tx_inv (fc_tx c) -> returns (retransmit_locked c seq o) (fun '(c', out) => tx_served acc c c' out).
Proof.
  intros Hs I. destruct (retransmit_spec c acc seq o Hs I) as ([c' out] & E & Hc & Ho). exists (c', out). split; [done |].
  destruct Hc as [-> | [st ->]]; by split.
Qed.

Lemma retransmit_each_served acc outs seqs : forall c i,
  wf_conn_session (fc_session c) -> conn_tx_inv (fc_tx c) -> returns (retransmit_each c i seqs outs) (fun '(c', out) => tx_served acc c c' out).
Proof.
  induction seqs as [| seq seqs IH]; intros c i Hs I; cbn [retransmit_each]; [apply returns_ok; by apply tx_served_quiet |].
  eapply returns_bind; [by apply (retransmit_served c acc) |]. intros [c1 out1] V1.
  eapply returns_bind; [apply IH; [by rewrite (ts_session _ _ _ _ V1) | apply V1] |]. intros [c2 out2] V2. apply returns_ok. by eapply tx_served_trans.
Qed.

Lemma on_nack_served c acc nack src e :
  wf_conn_session (fc_session c) -> conn_tx_inv (fc_tx c) -> returns (on_nack c nack src e) (fun '(c', out) => tx_served acc c c' out).
Proof.
  intros Hs I. unfold on_nack. set (c1 := fc_set_tx _ _). assert (tx_served acc c c1 []) as V1 by (by apply tx_served_quiet).
  destruct (retransmit_each_served acc (de_sends e) (take (Z.to_nat (nack_count nack)) (nack_missing nack)) c1 0) as ([c2 out] & E & V2); [done | apply V1 |].
  exists (c2, out). split; [done |]. by apply (tx_served_trans acc c c1 c2 [] out).
Qed.

Lemma fold_confirm L : forall reg, wf_registry reg ->
  wf_registry (foldl confirm reg L) /\ sr_window_size (foldl confirm reg L) = sr_window_size reg /\
  forall q, lookup (foldl confirm reg L) q = if decide (q ∈ L) then None else lookup reg q.
Proof.
  induction L as [| x L IH]; intros reg W; cbn [foldl]; [split_and!; try done; intros q; by rewrite decide_False by apply not_elem_of_nil |].
  destruct (IH (confirm reg x) (confirm_wf _ _ W)) as (W' & Ew & Hl). split; [done |]. split.
  - rewrite Ew. unfold confirm. destruct (nthZ _ _); [| done]. by destruct (_ && _).
  - intros q. rewrite Hl, lookup_confirm by done. destruct (Z.eqb_spec x q) as [-> | Hne]; [rewrite (decide_True (P := q ∈ q :: L)) by left; by destruct (decide _) |].
    destruct (decide (q ∈ L)); [by rewrite decide_True by (by right) |]. rewrite decide_False; [done |]. by intros [|]%elem_of_cons.
Qed.

Lemma on_ack_served c acc ack src e :
  conn_tx_inv (fc_tx c) -> (forall q, 0 <= q < ack_base_seq_no ack -> conf q) -> tx_served acc c (on_ack c ack src e) [].
Proof.
  intros I Hc. pose proof (xi_bounds _ I) as (Hb1 & Hb2 & Hb3). unfold on_ack. cbn [fc_set_peer fc_tx fc_session]. set (x := fc_tx c) in *.
  set (base := if ct_base x <? ack_base_seq_no ack then _ else ct_base x). assert (ct_base x <= base <= ct_next_seq x) as Hbase by (subst base; destruct (Z.ltb_spec (ct_base x) (ack_base_seq_no ack)); lia).
  destruct (fold_confirm (seqZ (ct_base x) (base - ct_base x)) (ct_reg x) (xi_reg _ I)) as (W & Ew & Hl).
  split; cbn [fc_set_tx fc_set_peer fc_session fc_rx fc_flags fc_tx ct_base ct_next_seq ct_send_busy]; try done; [| fold x; lia].
  split; cbn [ct_reg ct_base ct_next_seq ct_meta]; try done; try apply I.
  - rewrite Ew. apply I.
  - lia.
  - intros q sl Eq. rewrite Hl in Eq. destruct (decide _) as [| Hn]; [done |]. destruct (xi_held _ I _ _ Eq) as [Hq Hh]. split; [| done].
    rewrite elem_of_seqZ in Hn. fold x in Hq. lia.
  - intros q Hq. rewrite Hl, decide_False by (rewrite elem_of_seqZ; lia). apply (xi_kept _ I). fold x. lia.
  - intros q Hq. destruct (Z.lt_ge_cases q (ct_base x)); [apply (xi_conf _ I); fold x; lia |]. apply Hc. subst base. destruct (Z.ltb_spec (ct_base x) (ack_base_seq_no ack)); lia.
Qed.

Lemma pump_rto_served c acc t o :
  wf_conn_session (fc_session c) -> conn_tx_inv (fc_tx c) -> returns (pump_rto c t o) (fun '(c', out) => tx_served acc c c' out).
Proof.
  intros Hs I. unfold pump_rto. destruct (_ && _); [| apply returns_ok; by apply tx_served_quiet]. set (c1 := fc_set_tx _ _).
  assert (tx_served acc c c1 []) as V1 by (by apply tx_served_quiet).
  eapply returns_bind; [apply (retransmit_served c1 acc); [done | apply V1] |]. intros [c2 out] V2. apply returns_ok.
  rewrite <- (app_nil_r out). apply (tx_served_trans acc c c2). { by apply (tx_served_trans acc c c1 c2 [] out). }
  apply tx_served_quiet; try done. apply V2.
Qed.

(** *** A new block *)

Lemma sdk_block_spec c acc off data len (last : bool) k :
  let x := fc_tx c in let flags := if last then kFlagLastBlock else 0 in
  wf_conn_session (fc_session c) -> conn_tx_inv x -> ct_next_seq x < ct_base x + kWindow ->
  0 <= len <= lenZ data -> own (ct_next_seq x) (take (Z.to_nat len) data) (mkTxMeta off flags) ->
  returns (send_block_locked c (ct_next_seq x) off data len last k) (fun '(c', out, ok) =>
    tx_served acc c c' out /\ is_Some (lookup (ct_reg (fc_tx c')) (ct_next_seq x)) /\ ct_base (fc_tx c') = ct_base x).
Proof.
  intros x flags Hs I Hw Hlen Ho. destruct (own_wf _ _ _ Ho) as (Hq & Hp & Hoff & Hfl). pose proof (xi_bounds _ I) as (Hb1 & Hb2 & Hb3).
  set (q := ct_next_seq x) in *. assert (lenZ (take (Z.to_nat len) data) = len) as El by (apply lenZ_take; lia). rewrite El in Hp.
  unfold send_block_locked. fold x flags.
  destruct (store_correct (ct_reg x) q (Some data) len (sk_store k) off 0) as (reg & sl & -> & W & Ews & (old & Hold & Esl) & Hlk);
    [apply I | unfold kBlockSize, kDefaultPayloadSize, kMaxPayloadSize in *; lia | intros p [= <-]; lia |]. cbn [res_bind].
  set (c1 := fc_set_tx c _). assert (conn_tx_inv (fc_tx c1)) as I1.
  { split; cbn [c1 fc_set_tx fc_tx ct_reg ct_meta ct_base ct_next_seq]; try done; try apply I.
    - rewrite Ews. apply I.
    - rewrite lenZ_setZ. apply I.
    - intros r sl' Er. rewrite Hlk in Er. destruct (Z.eqb_spec q r) as [<- | Hne].
      + injection Er as <-. split; [fold q; lia |]. split.
        { subst sl. unfold stored_slot. cbn. destruct (Z.ltb_spec 0 len); [| done]. rewrite splice_length; [done | lia |]. rewrite El, Hold. unfold kBlockSize, kDefaultPayloadSize, kMaxPayloadSize in *. lia. }
        exists (take (Z.to_nat len) data), (mkTxMeta off flags). split; [| split; [done |]].
        { rewrite nthZ_setZ; [by rewrite Z.eqb_refl | ..]; rewrite ?(xi_meta _ I); unfold kWindow, kMaxWindow; mlia. }
        subst sl. unfold stored_slot. cbn [sl_payload_len sl_payload]. rewrite El. split; [done |]. destruct (Z.ltb_spec 0 len).
        { rewrite splice_0, take_app_length'; [done |]. unfold lenZ in El. lia. }
        by replace len with 0 by lia.
      + destruct (index_of (ct_reg x) q =? index_of (ct_reg x) r); [done |]. destruct (xi_held _ I _ _ Er) as (Hr & Hpl & p & m & Em & Hrest). fold q in Hr. split; [lia |]. split; [done |]. exists p, m. split; [| done].
        rewrite nthZ_setZ; [| rewrite ?(xi_meta _ I); unfold kWindow, kMaxWindow; mlia ..].
        destruct (Z.eqb_spec (q mod kWindow) (r mod kWindow)) as [E |]; [| done]. exfalso. apply Hne, (mod_window_inj (ct_base x)); [lia | lia | done].
    - intros r Hr. rewrite Hlk. destruct (Z.eqb_spec q r); [by eexists |]. fold q in Hr. destruct (Z.eqb_spec (index_of (ct_reg x) q) (index_of (ct_reg x) r)) as [E |]; [| apply (xi_kept _ I); fold x q; lia].
      exfalso. unfold index_of in E. rewrite (xi_ws _ I) in E. assert (q = r); [| done]. apply (mod_window_inj (ct_base x)); [lia | lia | done]. }
  assert (tx_served acc c c1 []) as V1 by (split; done || (cbn; lia)). assert (is_Some (lookup (ct_reg (fc_tx c1)) q)) as Hsome by (cbn; rewrite Hlk, Z.eqb_refl; by eexists).
  change (fc_session c1) with (fc_session c). destruct (seal_body _ _ _ _ _ _) as [[body n] |] eqn:Es; [| by apply returns_ok].
  destruct (emit_own (fc_session c) acc q flags (mkTxMeta off flags) (take (Z.to_nat len) data) data (sk_wire k) body n Hs Ho (or_introl eq_refl)) as (buf & j & Ej & Hj & Hout);
    [lia | by rewrite El | by rewrite El |]. cbn [tm_offset] in Ej. rewrite Ej. cbn [res_bind]. destruct (Z.eqb_spec j 0); [done |]. apply returns_ok. split; [| done].
  destruct V1. split; try done. by rewrite to_peer_dgs.
Qed.

(** ... counted as sent. *)
Lemma next_seq_inv x x' :
  conn_tx_inv x -> is_Some (lookup (ct_reg x) (ct_next_seq x)) -> ct_next_seq x < ct_base x + kWindow -> ct_next_seq x + 1 < 2 ^ 64 ->
  ct_reg x' = ct_reg x -> ct_base x' = ct_base x -> ct_meta x' = ct_meta x -> ct_next_seq x' = ct_next_seq x + 1 -> conn_tx_inv x'.
Proof.
  intros I Hl Hw Hn E1 E2 E3 E4. pose proof (xi_bounds _ I). split; rewrite ?E1, ?E2, ?E3, ?E4; try apply I; [lia | |].
  - intros q sl Eq. destruct (xi_held _ I _ _ Eq) as [Hq Hh]. split; [lia | done].
  - intros q Hq. destruct (decide (q = ct_next_seq x)) as [-> | Hne]; [done |]. apply (xi_kept _ I). lia.
Qed.

End Inv.

(** ** The receiving half *)

(** What the receiver has put together: the base of its window, the message under
    reassembly and the messages that are waiting. *)
Record AsmView := mkAsmView { av_base : Z; av_buf : bytes; av_end : Z; av_total : Z; av_inbox : list bytes }.

Definition asm_view (r : ConnRx) : AsmView := mkAsmView (rs_base_seq_no (cr_rx r)) (cr_asm_buf r) (cr_asm_end_seq r) (cr_asm_total r) (cr_inbox r).

Definition place_view (v : AsmView) (hdr : BlockHeader) (p : bytes) : AsmView :=
  if (bh_offset hdr <=? kMaxMessage) && (lenZ p <=? kMaxMessage - bh_offset hdr) then
    let end_ := bh_offset hdr + lenZ p in
    let last := negb (Z.land (bh_flags hdr) kFlagLastBlock =? 0) in
    mkAsmView (av_base v) (splice (if lenZ (av_buf v) <? end_ then resize (av_buf v) end_ else av_buf v) (bh_offset hdr) p)
      (if last then bh_seq_no hdr else av_end v) (if last then end_ else av_total v) (av_inbox v)
  else v.

Definition complete_view (v : AsmView) : AsmView :=
  if negb (av_end v =? no_seq) && (av_end v <? av_base v) then mkAsmView (av_base v) [] no_seq 0 (av_inbox v ++ [resize (av_buf v) (av_total v)]) else v.

Record conn_rx_inv (r : ConnRx) (acc : gset Z) : Prop := {
  yi_rx : rinv (cr_rx r) acc;
  yi_time : is_u64 (rs_last_send_time (cr_rx r));
  yi_buf : lenZ (cr_asm_buf r) <= kMaxMessage;
  yi_end : cr_asm_end_seq r = no_seq \/ rs_base_seq_no (cr_rx r) <= cr_asm_end_seq r /\ 0 <= cr_asm_total r <= lenZ (cr_asm_buf r);
  yi_bytes : cr_inbox_bytes r = sumZ lenZ (cr_inbox r);
  yi_cap : sumZ lenZ (cr_inbox r) < kMaxInboxBytes + kMaxMessage;
}.

(** The invariant only looks at these. *)
Lemma conn_rx_inv_view r r' acc :
  conn_rx_inv r acc -> rinv (cr_rx r') acc -> rs_last_send_time (cr_rx r') = rs_last_send_time (cr_rx r) -> asm_view r' = asm_view r -> cr_inbox_bytes r' = cr_inbox_bytes r ->
  conn_rx_inv r' acc.
Proof. intros [] Hr Ht [= E1 E2 E3 E4 E5] E6. split; rewrite ?Ht, ?E1, ?E2, ?E3, ?E4, ?E5, ?E6; done. Qed.

Lemma lenZ_resize l n : 0 <= n -> lenZ (resize l n) = n.
Proof. intros Hn. unfold resize, lenZ. rewrite length_app, length_take, length_replicate. lia. Qed.

Lemma resize_take l n : 0 <= n <= lenZ l -> resize l n = take (Z.to_nat n) l.
Proof. intros Hn. unfold resize. unfold lenZ in Hn. replace (Z.to_nat n - length l)%nat with 0%nat by lia. cbn. by rewrite app_nil_r. Qed.

Section Receive.
Context `{B : CryptoBackend} `{!CryptoLaws B}.

Lemma open_body_len s d body n : wf_data d -> open_body s d = Some (body, n) -> lenZ body = n /\ 0 <= n <= kMaxPayloadSize.
Proof.
  intros Hd E. pose proof (lenZ_payload d Hd) as Hp. destruct Hd as ((_ & _ & _ & Hl & _) & _ & _). unfold open_body in E. destruct (cs_encrypted s).
  - unfold kAeadTagLen in *. destruct (Z.ltb_spec (bh_payload_len (dd_hdr d)) 16); [done |]. destruct (cipher_open _ _ _ _ _) as [plain |] eqn:Eo; [| done]. injection E as <- <-.
    unfold kMaxPayloadSize in *. rewrite u16_small by (unfold is_u16; lia).
    unfold cipher_open in Eo. destruct (lc_key _) as [key |]; [| done]. destruct (_ <? _); [done |]. apply gcm_authentic, gcm_lengths in Eo as [Eo _].
    unfold kAeadTagLen in Eo. rewrite Hp, u16_small in Eo by (unfold is_u16; lia). rewrite lenZ_slice in Eo by lia. lia.
  - injection E as <- <-. by rewrite Hp.
Qed.

Definition rx_taken (s : ConnSession) (r r' : ConnRx) (acc acc' : gset Z) (dg : bytes) : Prop :=
  acc' = acc /\ asm_view r' = asm_view r \/
  exists d body rx, decode_data_datagram dg = Ok d /\ bh_stream_id (dd_hdr d) = cs_rx_lane s /\ open_body s d = Some (body, lenZ body) /\
    bh_seq_no (dd_hdr d) ∉ acc /\ acc' = {[bh_seq_no (dd_hdr d)]} ∪ acc /\ rinv rx acc' /\
    asm_view r' = complete_view (place_view (mkAsmView (rs_base_seq_no rx) (cr_asm_buf r) (cr_asm_end_seq r) (cr_asm_total r) (cr_inbox r)) (dd_hdr d) body).

Lemma place_block_spec r hdr body :
  is_u64 (bh_offset hdr) -> lenZ (cr_asm_buf r) <= kMaxMessage ->
  exists r', place_block r hdr body (lenZ body) = Ok r' /\ asm_view r' = place_view (asm_view r) hdr body /\
    cr_rx r' = cr_rx r /\ cr_inbox_bytes r' = cr_inbox_bytes r /\ lenZ (cr_asm_buf r) <= lenZ (cr_asm_buf r') <= kMaxMessage /\
    (cr_asm_end_seq r' = cr_asm_end_seq r /\ cr_asm_total r' = cr_asm_total r \/ cr_asm_end_seq r' = bh_seq_no hdr /\ 0 <= cr_asm_total r' <= lenZ (cr_asm_buf r')).
Proof.
  intros Ho Hb. unfold place_block, place_view. pose proof (lenZ_nonneg body). unfold is_u64 in Ho. destruct (_ && _) eqn:Ec; [| exists r; split_and!; first [done | lia | by left]].
  rewrite u64_small by (unfold is_u64, kMaxMessage in *; lia). rewrite take_ge by (unfold lenZ; lia). set (buf := if _ <? _ then _ else _).
  assert (lenZ (cr_asm_buf r) <= lenZ buf <= kMaxMessage /\ bh_offset hdr + lenZ body <= lenZ buf) as [Hl1 Hl2].
  { subst buf. destruct (Z.ltb_spec (lenZ (cr_asm_buf r)) (bh_offset hdr + lenZ body)); [rewrite lenZ_resize by lia |]; lia. }
  replace ((lenZ body <? lenZ body) || (lenZ buf <? bh_offset hdr + lenZ body)) with false by lia.
  assert (lenZ (splice buf (bh_offset hdr) body) = lenZ buf) as Hs by (apply splice_length; lia).
  eexists. split; [done |]. split; [done |]. cbn. split_and!; try done; try lia. destruct (negb _); [right | by left]. split; [done | lia].
Qed.

Lemma rinv_base_unique st st' acc : rinv st acc -> rinv st' acc -> rs_base_seq_no st = rs_base_seq_no st'.
Proof.
  intros [R N] [R' N']. apply (is_mex_unique _ _ acc); [apply (rr_base _ _ _ (rc_ring _ _ R)) | apply (rr_base _ _ _ (rc_ring _ _ R')) | split; [done |] ..].
  - apply (rr_below _ _ _ (rc_ring _ _ R)).
  - apply (rr_below _ _ _ (rc_ring _ _ R')).
Qed.

Lemma rinv_base_grows st st' acc acc' : rinv st acc -> rinv st' acc' -> acc ⊆ acc' -> rs_base_seq_no st <= rs_base_seq_no st'.
Proof.
  intros [R _] [R' N'] Hs. destruct (Z.le_gt_cases (rs_base_seq_no st) (rs_base_seq_no st')) as [| Hlt]; [done |]. exfalso. apply N', Hs, (rr_below _ _ _ (rc_ring _ _ R)).
  pose proof (rr_base _ _ _ (rc_ring _ _ R')). lia.
Qed.

(** Delivery of the message once its last block is below the base. *)
Lemma complete_message_spec c acc :
  let r := fc_rx c in
  rinv (cr_rx r) acc -> is_u64 (rs_last_send_time (cr_rx r)) -> lenZ (cr_asm_buf r) <= kMaxMessage ->
  cr_asm_end_seq r = no_seq \/ 0 <= cr_asm_total r <= lenZ (cr_asm_buf r) -> cr_inbox_bytes r = sumZ lenZ (cr_inbox r) -> sumZ lenZ (cr_inbox r) < kMaxInboxBytes + kMaxMessage ->
  (cr_asm_end_seq r <> no_seq -> cr_asm_end_seq r < rs_base_seq_no (cr_rx r) -> sumZ lenZ (cr_inbox r) < kMaxInboxBytes) ->
  let c' := complete_message c in
  fc_session c' = fc_session c /\ fc_tx c' = fc_tx c /\ fc_flags c' = fc_flags c /\ conn_rx_inv (fc_rx c') acc /\ asm_view (fc_rx c') = complete_view (asm_view r).
Proof.
  intros r H1 H2 H3 H4 H5 H6 Hcap. unfold complete_message, complete_view. fold r. cbn [asm_view av_base av_end av_buf av_total av_inbox].
  destruct (Z.eqb_spec (cr_asm_end_seq r) no_seq) as [| Hne]; cbn [negb andb]; [split_and!; try done; split; try done; by left |].
  destruct (Z.ltb_spec (cr_asm_end_seq r) (rs_base_seq_no (cr_rx r))); [| split_and!; try done; split; try done; right; split; [done | by destruct H4]].
  destruct H4 as [| H4]; [done |]. pose proof (sumZ_nonneg lenZ (cr_inbox r) (fun x _ => lenZ_nonneg x)). specialize (Hcap Hne ltac:(done)).
  set (msg := resize _ _). assert (lenZ msg = cr_asm_total r) as Hm by (apply lenZ_resize; lia). unfold kMaxInboxBytes, kMaxMessage in *.
  assert (sumZ lenZ (cr_inbox r ++ [msg]) = sumZ lenZ (cr_inbox r) + cr_asm_total r) as Hsum by (rewrite sumZ_app; cbn; lia).
  split_and!; try done. split; cbn [fc_rx fc_set_stats fc_set_rx cr_rx cr_asm_buf cr_asm_end_seq cr_asm_total cr_inbox cr_inbox_bytes]; try done; [by left | rewrite Hsum, H5, Hm; apply u64_small; unfold is_u64; lia | rewrite Hsum; unfold kMaxInboxBytes, kMaxMessage; lia].
Qed.

Lemma accept_block_spec c acc d body src e :
  conn_rx_inv (fc_rx c) acc -> wf_data d -> rs_base_seq_no (cr_rx (fc_rx c)) + 1024 < 2 ^ 64 -> sumZ lenZ (cr_inbox (fc_rx c)) < kMaxInboxBytes ->
  returns (accept_block c d body (lenZ body) src e) (fun c' => fc_session c' = fc_session c /\ fc_tx c' = fc_tx c /\ fc_flags c' = fc_flags c /\
    exists acc', conn_rx_inv (fc_rx c') acc' /\ (acc' = acc /\ asm_view (fc_rx c') = asm_view (fc_rx c) \/
      bh_seq_no (dd_hdr d) ∉ acc /\ acc' = {[bh_seq_no (dd_hdr d)]} ∪ acc /\ exists rx, rinv rx acc' /\
      asm_view (fc_rx c') = complete_view (place_view (mkAsmView (rs_base_seq_no rx) (cr_asm_buf (fc_rx c)) (cr_asm_end_seq (fc_rx c)) (cr_asm_total (fc_rx c)) (cr_inbox (fc_rx c))) (dd_hdr d) body))).
Proof.
  intros [H1 H2 H3 H4 H5 H6] Hd Hb Hcap. pose proof Hd as ((_ & Hq & _ & _ & Ho) & Ht & Hp). unfold accept_block. set (r := fc_rx c) in *.
  pose proof (on_receive_any (cr_rx r) acc (bh_seq_no (dd_hdr d)) (dd_send_time_ns d) (de_first e) H1 Hq Hb Ht H2) as HR.
  destruct (receive_spec _ _ _ _) as [rr acc'] eqn:Es. destruct HR as (rx & -> & I' & _ & T'). cbn [res_bind].
  assert (rr <> Accepted /\ acc' = acc \/ rr = Accepted /\ bh_seq_no (dd_hdr d) ∉ acc /\ acc' = {[bh_seq_no (dd_hdr d)]} ∪ acc) as [[Hrr ->] | (-> & Hnew & ->)].
  { unfold receive_spec in Es. destruct (decide _); [injection Es as <- <-; by left |]. destruct (_ <=? _); injection Es as <- <-; [by left | by right]. }
  - assert (rs_base_seq_no rx = rs_base_seq_no (cr_rx r)) as Eb by (by eapply rinv_base_unique).
    set (c1 := fc_set_rx c (cr_set_rx r rx)).
    assert (returns (Ok (complete_message (fc_set_rx c1 (cr_set_pending (fc_rx c1) true (cr_last_ack_ns (fc_rx c1)))))) (fun c' => fc_session c' = fc_session c /\ fc_tx c' = fc_tx c /\
      fc_flags c' = fc_flags c /\ conn_rx_inv (fc_rx c') acc /\ asm_view (fc_rx c') = asm_view r)) as (c' & E & F1 & F2 & F3 & F4 & F5).
    { apply returns_ok. set (c2 := fc_set_rx c1 _). destruct (complete_message_spec c2 acc) as (G1 & G2 & G3 & G4 & G5); cbn; try done; [by destruct H4 as [| []]; [left | right] |].
      split_and!; try done. rewrite G5. assert (asm_view (fc_rx c2) = asm_view r) as -> by (unfold asm_view; cbn; by rewrite Eb). unfold complete_view. cbn [asm_view av_end av_base].
      destruct (Z.eqb_spec (cr_asm_end_seq r) no_seq); [done |]. destruct H4 as [| [H4 _]]; [done |]. by destruct (Z.ltb_spec (cr_asm_end_seq r) (rs_base_seq_no (cr_rx r))); [lia |]. }
    exists c'. destruct rr; try done; cbn [res_bind]; (split; [exact E |]); split_and!; try done; exists acc; (split; [done | by left]).
  - cbn [res_bind fc_set_rx fc_rx]. set (r1 := sdk_sample _ _ _).
    assert (asm_view r1 = mkAsmView (rs_base_seq_no rx) (cr_asm_buf r) (cr_asm_end_seq r) (cr_asm_total r) (cr_inbox r) /\ cr_rx r1 = rx /\ cr_inbox_bytes r1 = cr_inbox_bytes r) as (V1 & V2 & V3)
      by (subst r1; unfold sdk_sample; by destruct (_ && _)).
    pose proof V1 as [= _ V4 V5 V6 V7]. destruct (place_block_spec r1 (dd_hdr d) body Ho ltac:(by rewrite V4)) as (r2 & -> & W1 & W2 & W3 & W4 & W5). cbn [res_bind].
    apply returns_ok. pose proof W1 as W. unfold place_view in W. set (c2 := fc_set_rx _ _).
    assert (cr_inbox r2 = cr_inbox r) as Hin by (apply (f_equal av_inbox) in W1; cbn in W1; rewrite W1, V1; unfold place_view; by destruct (_ && _)).
    destruct (complete_message_spec c2 ({[bh_seq_no (dd_hdr d)]} ∪ acc)) as (G1 & G2 & G3 & G4 & G5); cbn; rewrite ?W2, ?V2, ?W3, ?V3, ?Hin; try done; [lia | |].
    { destruct W5 as [[-> ->] | [_ Ht']]; [| by right]. rewrite V5, V6. destruct H4 as [| [_ H4]]; [by left | right]. rewrite V4 in W4. lia. }
    split_and!; try done. eexists. split; [done |]. right. split_and!; try done. exists rx. split; [done |]. rewrite G5. unfold c2. cbn [fc_set_rx fc_set_peer fc_rx].
    rewrite <- V1, <- W1. done.
Qed.

Lemma handle_data_spec c acc dg src e :
  conn_rx_inv (fc_rx c) acc -> Forall is_u8 dg -> rs_base_seq_no (cr_rx (fc_rx c)) + 1024 < 2 ^ 64 ->
  returns (handle_data_locked c dg src e) (fun c' => fc_session c' = fc_session c /\ fc_tx c' = fc_tx c /\ fc_flags c' = fc_flags c /\
    exists acc', conn_rx_inv (fc_rx c') acc' /\ rx_taken (fc_session c) (fc_rx c) (fc_rx c') acc acc' dg).
Proof.
  intros I Hb Hbase. unfold handle_data_locked.
  assert (forall st, returns (Ok (fc_set_stats c st)) (fun c' => fc_session c' = fc_session c /\ fc_tx c' = fc_tx c /\ fc_flags c' = fc_flags c /\
    exists acc', conn_rx_inv (fc_rx c') acc' /\ rx_taken (fc_session c) (fc_rx c) (fc_rx c') acc acc' dg)) as Hskip by (intros st; apply returns_ok; split_and!; try done; exists acc; split; [done | by left]).
  assert (c = fc_set_stats c (fc_stats c)) as Hc by (by destruct c).
  apply (returns_decoded DataDatagram _ dg); [done | done | | rewrite Hc at 1; apply Hskip]. intros d Ed Hd.
  destruct (Z.eqb_spec (bh_stream_id (dd_hdr d)) (cs_rx_lane (fc_session c))) as [El |]; cbn [negb]; [| rewrite Hc at 1; apply Hskip].
  destruct (open_body _ _) as [[body n] |] eqn:Eo; [| apply Hskip]. destruct (open_body_len _ _ _ _ Hd Eo) as [<- Hn].
  rewrite (yi_bytes _ _ I). destruct (Z.leb_spec kMaxInboxBytes (sumZ lenZ (cr_inbox (fc_rx c)))); [rewrite Hc at 1; apply Hskip |].
  destruct (accept_block_spec c acc d body src e I Hd Hbase ltac:(done)) as (c' & E & F1 & F2 & F3 & acc' & I' & T). exists c'. split; [done |]. split_and!; try done.
  exists acc'. split; [done |]. destruct T as [T | (T1 & T2 & rx & T3 & T4)]; [by left |]. right. by exists d, body, rx.
Qed.

End Receive.

(** ** Messages as blocks *)

(** Block [i] of a message, and its metadata. *)
Definition msg_block (m : bytes) (i : Z) : bytes := slice m (i * kBlockSize) (Z.min kBlockSize (lenZ m - i * kBlockSize)).
Definition msg_meta (m : bytes) (i : Z) : TxMeta := mkTxMeta (i * kBlockSize) (if i + 1 =? nblocks (lenZ m) then kFlagLastBlock else 0).

Lemma nblocks_spec len : 0 <= len -> 1 <= nblocks len /\ len <= nblocks len * kBlockSize /\ (nblocks len - 1) * kBlockSize <= len /\ (0 < len -> (nblocks len - 1) * kBlockSize < len) /\ nblocks len <= len + 1.
Proof. intros Hl. unfold nblocks, kBlockSize, kDefaultPayloadSize. destruct (Z.eqb_spec len 0); mlia. Qed.

Lemma msg_block_spec m i : 0 <= i < nblocks (lenZ m) ->
  0 <= i * kBlockSize <= lenZ m /\ lenZ (msg_block m i) = Z.min kBlockSize (lenZ m - i * kBlockSize) /\ 0 <= lenZ (msg_block m i) <= kBlockSize /\
  (i + 1 = nblocks (lenZ m) <-> i * kBlockSize + lenZ (msg_block m i) = lenZ m).
Proof.
  intros Hi. destruct (nblocks_spec (lenZ m) (lenZ_nonneg m)) as (H1 & H2 & H3 & H4 & H5). unfold kBlockSize, kDefaultPayloadSize in *.
  assert (0 <= i * 1200 <= lenZ m) as Hb by nia. assert (lenZ (msg_block m i) = Z.min 1200 (lenZ m - i * 1200)) as El by (unfold msg_block, kBlockSize, kDefaultPayloadSize; apply lenZ_slice; lia).
  split; [done |]. split; [done |]. split; [lia |]. rewrite El. lia.
Qed.

(** ** The pump *)

Section Pump.
Context `{B : CryptoBackend} `{!CryptoLaws B}.
Context (own : Z -> bytes -> TxMeta -> Prop) (conf : Z -> Prop).
Context (own_wf : forall q p meta, own q p meta -> is_u64 q /\ lenZ p <= kBlockSize /\ is_u64 (tm_offset meta) /\ is_u8 (tm_flags meta)).
Context (s : ConnSession) (Hs : wf_conn_session s).

(** [legit]: the datagrams that may arrive; [RX]: what is known of the message under
    reassembly when the blocks [acc] have been accepted. *)
Context (legit : bytes -> Prop) (RX : gset Z -> AsmView -> Prop).
Context (legit_bytes : forall dg, legit dg -> Forall is_u8 dg).
Context (legit_ack : forall dg a q, legit dg -> decode_ack dg = Ok a -> 0 <= q < ack_base_seq_no a -> conf q).
Context (RX_base : forall acc r, conn_rx_inv r acc -> RX acc (asm_view r) -> rs_base_seq_no (cr_rx r) + 1024 < 2 ^ 64).
Context (RX_step : forall r r' acc acc' dg, legit dg -> conn_rx_inv r acc -> conn_rx_inv r' acc' -> RX acc (asm_view r) -> rx_taken s r r' acc acc' dg -> RX acc' (asm_view r')).

Record conn_inv (c : fuse_conn) (acc : gset Z) : Prop := {
  ci_session : fc_session c = s;
  ci_tx : conn_tx_inv own conf (fc_tx c);
  ci_rx : conn_rx_inv (fc_rx c) acc;
  ci_asm : RX acc (asm_view (fc_rx c));
}.

Record pumped (c : fuse_conn) (acc : gset Z) (c' : fuse_conn) (acc' : gset Z) (out : list datagram) : Prop := {
  pm_inv : conn_inv c' acc';
  pm_acc : acc ⊆ acc';
  pm_next : ct_next_seq (fc_tx c') = ct_next_seq (fc_tx c);
  pm_base : ct_base (fc_tx c) <= ct_base (fc_tx c');
  pm_busy : ct_send_busy (fc_tx c') = ct_send_busy (fc_tx c);
  pm_flags : cf_failed (fc_flags c') = cf_failed (fc_flags c) /\ cf_closing (fc_flags c') = cf_closing (fc_flags c) /\
    (cf_peer_closed (fc_flags c) = true -> cf_peer_closed (fc_flags c') = true);
  pm_out : Forall (sent_by own s acc') (snd <$> out);
}.

Lemma pumped_trans c1 a1 c2 a2 c3 a3 out1 out2 : pumped c1 a1 c2 a2 out1 -> pumped c2 a2 c3 a3 out2 -> pumped c1 a1 c3 a3 (out1 ++ out2).
Proof.
  intros [A1 A2 A3 A4 A5 (A6 & A7 & A8) A9] [B1 B2 B3 B4 B5 (B6 & B7 & B8) B9]. split; try done; try congruence; try lia; [set_solver | split_and!; try congruence; auto |].
  rewrite fmap_app. apply Forall_app. split; [| done]. eapply Forall_impl; [exact A9 |]. intros dg. by apply sent_by_mono.
Qed.

Lemma pumped_served c acc c' out : conn_inv c acc -> tx_served own conf acc c c' out -> pumped c acc c' acc out.
Proof.
  intros [E1 E2 E3 E4] [F1 F2 F3 F4 F5 F6 F7 F8]. split; try done; [| by rewrite F3 | by rewrite <- E1]. split; rewrite ?F1, ?F2; done.
Qed.

(** Changes that only concern the peer's address, clocks and flags. *)
Lemma pumped_rx c acc c' out :
  conn_inv c acc -> fc_session c' = fc_session c -> fc_tx c' = fc_tx c -> fc_flags c' = fc_flags c -> conn_rx_inv (fc_rx c') acc -> asm_view (fc_rx c') = asm_view (fc_rx c) ->
  Forall (sent_by own s acc) (snd <$> out) -> pumped c acc c' acc out.
Proof. intros [E1 E2 E3 E4] F1 F2 F3 F4 F5 F6. split; rewrite ?F2, ?F3; try done. split; rewrite ?F1, ?F2, ?F5; done. Qed.

Lemma pump_datagram_spec c acc i :
  conn_inv c acc -> legit (in_dg i) -> returns (pump_datagram c i) (fun '(c', out, _) => exists acc', pumped c acc c' acc' out).
Proof.
  intros I Hl. pose proof I as [E1 E2 E3 E4]. pose proof (legit_bytes _ Hl) as Hb. unfold pump_datagram.
  assert (returns (Ok (c, ([] : list datagram), false)) (fun '(c', out, _) => exists acc', pumped c acc c' acc' out)) as Hskip by (apply returns_ok; exists acc; by apply pumped_rx).
  destruct (peek_msg_type _) as [| | type] eqn:Ep; cbn [try_decode]; [by apply peek_total in Ep | done |].
  destruct (type =? _); [| destruct (type =? _); [| destruct (type =? _); [| destruct (type =? _); [| done]]]].
  - destruct (handle_data_spec c acc (in_dg i) (in_src i) (in_env i) E3 Hb (RX_base _ _ E3 E4)) as (c' & -> & F1 & F2 & F3 & acc' & I' & T). cbn [res_bind]. apply returns_ok.
    exists acc'. rewrite E1 in T. split; rewrite ?F2, ?F3; try done.
    + split; rewrite ?F1, ?F2; try done. exact (RX_step _ _ _ _ _ Hl E3 I' E4 T).
    + destruct T as [[-> _] | (d & body & rx & _ & _ & _ & _ & -> & _)]; set_solver.
  - apply (returns_decoded Ack _ (in_dg i)); [done | done | | done]. intros ack Ea _. apply returns_ok. exists acc.
    apply pumped_served; [done |]. apply on_ack_served; [done |]. intros q Hq. by eapply legit_ack.
  - apply (returns_decoded Nack _ (in_dg i)); [done | done | | done]. intros nack _ _.
    eapply returns_bind; [apply (on_nack_served own conf own_wf c acc); [by rewrite E1 | done] |]. intros [c' out] V. apply returns_ok. exists acc. by apply pumped_served.
  - apply returns_ok. exists acc. by split.
Qed.

Lemma pump_batch_spec batch : forall c acc,
  conn_inv c acc -> Forall (fun i => legit (in_dg i)) batch -> returns (pump_batch c batch) (fun '(c', out, _) => exists acc', pumped c acc c' acc' out).
Proof.
  induction batch as [| i batch IH]; intros c acc I Hl; cbn [pump_batch]; [apply returns_ok; exists acc; by apply pumped_rx; destruct I |].
  apply Forall_cons_1 in Hl as [Hi Hl]. eapply returns_bind; [by apply pump_datagram_spec |]. intros [[c1 out1] got1] (acc1 & V1).
  eapply returns_bind; [apply IH; [apply V1 | done] |]. intros [[c2 out2] got2] (acc2 & V2). apply returns_ok. exists acc2. by eapply pumped_trans.
Qed.

Lemma send_ack_spec c acc now : conn_inv c acc -> returns (send_ack_locked c now) (fun '(c', out) => pumped c acc c' acc out).
Proof.
  intros I. pose proof I as [E1 E2 E3 E4]. unfold send_ack_locked.
  assert (wf_msg (sdk_ack c)) as Hw by (apply (stamped_ack_wf _ acc); try apply E3; [rewrite E1; apply Hs | done]).
  eapply returns_bind; [exact (encode_emitted Ack _ scratch Hw) |]. intros [buf n] Ho. apply returns_ok. apply pumped_rx; try done.
  - by eapply conn_rx_inv_view; [exact E3 | apply E3 | ..].
  - rewrite to_peer_dgs. destruct Ho as [-> | ->]; [done |]. constructor; [| done]. split.
    + intros d Ed. exfalso. by apply (wire_not_data Ack MsgType.Ack (sdk_ack c) d ack_type Hw) in Ed.
    + intros a q Ea Hq. assert (a = sdk_ack c) as -> by (by apply (decode_wire_eq Ack)). apply (rr_below _ _ _ (rc_ring _ _ (proj1 (yi_rx _ _ E3)))). done.
Qed.

Lemma pump_nack_spec c acc t : conn_inv c acc -> returns (pump_nack c t) (fun '(c', out) => pumped c acc c' acc out).
Proof.
  intros I. pose proof I as [E1 E2 E3 E4]. unfold pump_nack.
  destruct (collected_nack (cr_rx (fc_rx c)) acc t (reorder_ns (cr_rtt_est_ns (fc_rx c))) (renack_ns (cr_rtt_est_ns (fc_rx c))) (cs_rx_lane (fc_session c)))
    as (rx & nack & -> & I' & Er & Hwf); [apply E3 | rewrite E1; apply Hs |]. cbn [res_bind].
  assert (rs_base_seq_no rx = rs_base_seq_no (cr_rx (fc_rx c)) /\ rs_last_send_time rx = rs_last_send_time (cr_rx (fc_rx c))) as [Eb Et] by (by rewrite Er).
  destruct (_ <? _).
  - eapply returns_bind; [exact (encode_emitted Nack _ scratch Hwf) |]. intros [buf n] Ho. apply returns_ok. apply pumped_rx; try done.
    + eapply conn_rx_inv_view; [exact E3 | done | done | | done]. unfold asm_view. cbn. by rewrite Eb.
    + unfold asm_view. cbn. by rewrite Eb.
    + rewrite to_peer_dgs. destruct Ho as [-> | ->]; [done |]. constructor; [| done]. split.
      * intros d Ed. exfalso. by eapply (wire_not_data Nack MsgType.Nack _ d nack_type Hwf) in Ed.
      * intros a q Ea. exfalso. by eapply (wire_not_ack Nack MsgType.Nack _ a nack_type Hwf) in Ea.
  - apply returns_ok. apply pumped_rx; try done; [eapply conn_rx_inv_view; [exact E3 | done | done | | done] |]; unfold asm_view; cbn; by rewrite Eb.
Qed.

Lemma pump_pass_spec c acc batch e :
  conn_inv c acc -> Forall (fun i => legit (in_dg i)) batch -> returns (pump_pass c batch e) (fun '(c', out) => exists acc', pumped c acc c' acc' out).
Proof.
  intros I Hl. unfold pump_pass. eapply returns_bind; [by apply pump_batch_spec |]. intros [[c1 out1] got] (acc1 & V1). set (c2 := fc_set_tx c1 _).
  assert (pumped c1 acc1 c2 acc1 []) as V2 by (apply pumped_served; [apply V1 |]; apply tx_served_quiet; try done; apply V1).
  pose proof (pumped_trans _ _ _ _ _ _ _ _ V1 V2) as V12. rewrite app_nil_r in V12.
  assert (returns (if cr_ack_pending (fc_rx c2) || got then send_ack_locked c2 (pe_ack_ns e) else Ok (c2, [])) (fun '(c', out) => pumped c2 acc1 c' acc1 out)) as HA.
  { destruct (_ || _); [apply send_ack_spec, V2 |]. apply returns_ok. apply pumped_rx; try done; apply V2. }
  eapply returns_bind; [exact HA |]. intros [c3 out3] V3. eapply returns_bind; [apply pump_nack_spec, V3 |]. intros [c4 out4] V4.
  eapply returns_bind; [apply (pump_rto_served own conf own_wf c4 acc1); [rewrite (ci_session _ _ (pm_inv _ _ _ _ _ V4)); apply Hs | apply V4] |]. intros [c5 out5] V5.
  apply returns_ok. exists acc1. eapply pumped_trans; [exact V12 |]. eapply pumped_trans; [exact V3 |]. eapply pumped_trans; [exact V4 |]. apply pumped_served; [apply V4 | done].
Qed.

Lemma start_conn_inv peer now : RX ∅ (mkAsmView 0 [] no_seq 0 []) -> conn_inv (start_conn s peer now) ∅.
Proof.
  intros HR. split; cbn [start_conn fc_session fc_tx fc_rx]; try done.
  - split; cbn [ct_reg ct_meta ct_base ct_next_seq]; try done; try lia; try apply new_registry_wf.
    intros q sl E. exfalso. unfold lookup in E. destruct (nthZ _ _) as [sl' |] eqn:En; [| done]. apply nthZ_inv in En as [_ En]. cbn [new_registry sr_slots] in En.
    by apply lookup_replicate in En as [-> _].
  - split; cbn; try done; [apply new_receiver_inv | by left].
Qed.

(** ** The application's calls *)

(** A call of [fuse_send] between its blocks. *)
Definition call_ok (c : fuse_conn) (ph : SendPhase) : Prop :=
  match ph with
  | SendRoom call => 0 <= sc_i call < nblocks (lenZ (sc_data call)) /\ ct_next_seq (fc_tx c) + 1 < 2 ^ 64 /\
      own (ct_next_seq (fc_tx c)) (msg_block (sc_data call) (sc_i call)) (msg_meta (sc_data call) (sc_i call))
  | _ => True
  end.

(** What a call does to the sending half: nothing, or start, or send a block, or end. *)
Inductive call_moved (x : ConnTx) : SendPhase -> ConnTx -> SendPhase -> Prop :=
| moved_wait ph : call_moved x ph x ph
| moved_enter data : call_moved x (SendEnter data) x (SendBusy data)
| moved_refused ph data st : ph = SendEnter data \/ ph = SendBusy data -> call_moved x ph x (SendRefused st)
| moved_start data x' :
    ct_send_busy x = false -> same_blocks x x' -> ct_send_busy x' = true ->
    call_moved x (SendBusy data) x' (SendRoom (mkSendCall data 0 (u64 (ct_next_seq x + nblocks (lenZ data) - 1))))
| moved_block call x' :
    ct_next_seq x' = ct_next_seq x + 1 -> ct_base x' = ct_base x -> ct_send_busy x' = ct_send_busy x -> let call' := mkSendCall (sc_data call) (sc_i call + 1) (sc_last_seq call) in
    call_moved x (SendRoom call) x' (if sc_i call + 1 =? nblocks (lenZ (sc_data call)) then SendDelivered call' else SendRoom call')
| moved_failed ph st call x' :
    ph = SendRoom call \/ ph = SendDelivered call -> st <> FUSE_OK ->
    ct_next_seq x' = ct_next_seq x -> ct_base x' = ct_base x -> ct_send_busy x' = false -> call_moved x ph x' (SendDone st)
| moved_ok call x' :
    sc_last_seq call < ct_base x -> same_blocks x x' -> ct_send_busy x' = false -> call_moved x (SendDelivered call) x' (SendDone FUSE_OK).

Definition called (c : fuse_conn) (acc : gset Z) (ph : SendPhase) (c' : fuse_conn) (out : list datagram) (ph' : SendPhase) : Prop :=
  conn_inv c' acc /\ fc_rx c' = fc_rx c /\ fc_flags c' = fc_flags c /\ Forall (sent_by own s acc) (snd <$> out) /\ call_moved (fc_tx c) ph (fc_tx c') ph'.

Lemma conn_inv_blocks c acc c' : conn_inv c acc -> fc_session c' = fc_session c -> fc_rx c' = fc_rx c -> same_blocks (fc_tx c) (fc_tx c') -> conn_inv c' acc.
Proof. intros [E1 E2 E3 E4] F1 F2 F3. split; rewrite ?F1, ?F2; try done. by eapply conn_tx_inv_blocks. Qed.

Lemma wait_for_inv c ready timed_out : wait_for c ready timed_out = Some FUSE_OK -> ready = true.
Proof. unfold wait_for. destruct ready, (cf_failed (fc_flags c)), (cf_closing (fc_flags c)), timed_out; done. Qed.

Lemma send_one_spec c acc call k :
  conn_inv c acc -> call_ok c (SendRoom call) -> has_room c = true -> cf_peer_closed (fc_flags c) = false ->
  returns (send_one c call k) (fun '(c', out, ph') => called c acc (SendRoom call) c' out ph').
Proof.
  intros I (Hi & Hn & Ho) Hr Hp. pose proof I as [E1 E2 E3 E4]. pose proof (xi_bounds _ _ _ E2) as (Hb1 & Hb2 & Hb3). unfold has_room in Hr. rewrite Hp, orb_false_r in Hr.
  rewrite u64_small in Hr by (unfold is_u64; lia). assert (ct_next_seq (fc_tx c) < ct_base (fc_tx c) + kWindow) as Hw by lia.
  destruct (msg_block_spec _ _ Hi) as (M1 & M2 & M3 & M4). unfold send_one. rewrite (Z.min_l (sc_i call * kBlockSize)) by lia.
  assert (u16 (Z.min kBlockSize (lenZ (sc_data call) - sc_i call * kBlockSize)) = lenZ (msg_block (sc_data call) (sc_i call))) as ->.
  { rewrite <- M2. apply u16_small. unfold is_u16, kBlockSize, kDefaultPayloadSize in *. lia. }
  set (len := lenZ (msg_block _ _)) in *. set (last := sc_i call + 1 =? _).
  assert (take (Z.to_nat len) (drop (Z.to_nat (sc_i call * kBlockSize)) (sc_data call)) = msg_block (sc_data call) (sc_i call)) as Et by (by rewrite M2).
  eapply returns_bind; [apply (sdk_block_spec own conf own_wf c acc (sc_i call * kBlockSize) _ len last k); try done |].
  - by rewrite E1.
  - rewrite lenZ_drop by lia. lia.
  - by rewrite Et.
  - intros [[c1 out] ok] ([V1 V2 V3 V4 V5 V6 V7 V8] & Hl & Eb). rewrite E1 in V8. destruct ok; cbn [negb]; apply returns_ok.
    + split; [| split_and!; try done]. 2: { eapply moved_block; cbn [fc_tx fc_set_tx set_next_seq ct_next_seq ct_base ct_send_busy]; [rewrite V5; apply u64_small; unfold is_u64; lia | done | done]. }
      assert (conn_tx_inv own conf (fc_tx (set_next_seq c1 (u64 (ct_next_seq (fc_tx c1) + 1))))) as Ix.
      { eapply (next_seq_inv own conf (fc_tx c1)); try done; [by rewrite V5 | rewrite V5; lia | rewrite V5; lia |]. cbn. rewrite V5. apply u64_small. unfold is_u64. lia. }
      split; [by cbn; rewrite V1 | done | by cbn; rewrite V2 | by cbn; rewrite V2].
    + split; [| split_and!; try done]. 2: { by apply (moved_failed _ _ _ call); [left | ..]. }
      split; [by cbn; rewrite V1 | by apply (conn_tx_inv_blocks own conf (fc_tx c1)) | by cbn; rewrite V2 | by cbn; rewrite V2].
Qed.

Lemma called_end c acc ph st call : conn_inv c acc -> ph = SendRoom call \/ ph = SendDelivered call -> st <> FUSE_OK -> called c acc ph (set_busy c false) [] (SendDone st).
Proof. intros I Hph Hst. split; [by eapply conn_inv_blocks |]. split_and!; try done. by apply (moved_failed _ _ _ call). Qed.

Lemma fuse_send_spec c acc ph timed_out k :
  conn_inv c acc -> call_ok c ph -> returns (fuse_send c ph timed_out k) (fun '(c', out, ph') => called c acc ph c' out ph').
Proof.
  intros I Hok. assert (forall ph', call_moved (fc_tx c) ph (fc_tx c) ph' -> returns (Ok (c, ([] : list datagram), ph')) (fun '(c', out, ph') => called c acc ph c' out ph')) as Hstay
    by (intros ph' Hm; by apply returns_ok). destruct ph as [data | data | call | call | st | st]; cbn [fuse_send].
  - apply Hstay. destruct (gone c); [apply (moved_refused _ _ data); by left | apply moved_enter].
  - destruct (wait_for _ _ _) as [st |] eqn:Ew; [| apply Hstay, moved_wait]. destruct st; try (apply Hstay, (moved_refused _ _ data); by right).
    apply wait_for_inv in Ew. destruct (gone c); [apply Hstay, (moved_refused _ _ data); by right |]. rewrite orb_false_r in Ew. apply negb_true_iff in Ew. apply returns_ok.
    split; [by eapply conn_inv_blocks |]. split_and!; try done. by apply moved_start.
  - destruct (wait_for _ _ _) as [st |] eqn:Ew; [| apply Hstay, moved_wait].
    destruct st; try (apply returns_ok; by apply (called_end c acc _ _ call); [| left |]).
    apply wait_for_inv in Ew. destruct (cf_peer_closed (fc_flags c)) eqn:Ec; [apply returns_ok; by apply (called_end c acc _ _ call); [| left |] |]. by apply send_one_spec.
  - destruct (wait_for _ _ _) as [st |] eqn:Ew; [| apply Hstay, moved_wait].
    destruct st; try (apply returns_ok; by apply (called_end c acc _ _ call); [| right |]).
    destruct (Z.leb_spec (ct_base (fc_tx c)) (sc_last_seq call)); apply returns_ok; [by apply (called_end c acc _ _ call); [| right |] |].
    split; [by eapply conn_inv_blocks |]. split_and!; try done. by apply moved_ok.
  - apply Hstay, moved_wait.
  - apply Hstay, moved_wait.
Qed.

End Pump.

(** The parameters may be weakened. *)
Lemma conn_inv_mono (own own' : Z -> bytes -> TxMeta -> Prop) (conf conf' : Z -> Prop) s (RX RX' : gset Z -> AsmView -> Prop) c acc :
  (forall q p m, own q p m -> own' q p m) -> (forall q, conf q -> conf' q) -> (RX acc (asm_view (fc_rx c)) -> RX' acc (asm_view (fc_rx c))) ->
  conn_inv own conf s RX c acc -> conn_inv own' conf' s RX' c acc.
Proof.
  intros Ho Hc HR [E1 E2 E3 E4]. split; auto. destruct E2. split; auto. intros q sl El. destruct (xi_held0 q sl El) as (Hq & Hp & p & m & Em & Hm & Hrest).
  split; [done |]. split; [done |]. exists p, m. split; [done |]. split; [by apply Ho | done].
Qed.

Lemma sent_by_own `{B : CryptoBackend} (own own' : Z -> bytes -> TxMeta -> Prop) s acc dg :
  (forall q p m, own q p m -> own' q p m) -> sent_by own s acc dg -> sent_by own' s acc dg.
Proof. intros Ho [H1 H2]. split; [| done]. intros d Ed. destruct (H1 d Ed) as (Hid & p & m & Hm & Hrest). split; [done |]. exists p, m. split; [by apply Ho | done]. Qed.
