(* ===== verification/SdkSystem.v ===== *)
(** * Connections of the message API at work

    A side is a connection of SdkConn.v with the calls of its application, which take the
    connection's mutex in any order.  Here a side is on its own, fed with any datagrams at
    all; SdkLink.v joins two of them by a network. *)

From S2P Require Import Prelude Wire Control Block Bits Window Receiver Registry Setup Handshake Congestion SessionCrypto Peer Returns RecvLane RecvSafety MuxRecv SdkConn SdkInv.

(** ** A side *)

(** The connection, the calls of [fuse_send], the messages whose sending has begun and
    the messages the application has been given. *)
Record Side := mkSide {
  sd_conn : fuse_conn;
  sd_calls : list SendPhase;
  sd_sent : list bytes;
  sd_got : list bytes;
}.

Inductive SideEvent :=
| EvPump (batch : list Incoming) (e : PumpEnv)
| EvCall (data : bytes)
| EvSend (i : nat) (timed_out : bool) (k : SendClock)
| EvRecv (cap : Z) (timed_out : bool)
| EvRecvAlloc (timed_out : bool)
| EvClose.

Definition received (r : recv_return) : list bytes := match r with Some (_, _, Some m) => [m] | _ => [] end.

Definition new_side (s : ConnSession) (peer : PeerAddr) (now : Z) : Side := mkSide (start_conn s peer now) [] [] [].

Section Side.
Context `{B : CryptoBackend}.

Definition side_step (sd : Side) (ev : SideEvent) : res (Side * list datagram) :=
  let c := sd_conn sd in
  match ev with
  | EvPump batch e => res_bind (pump_pass c batch e) (fun '(c, out) => Ok (mkSide c (sd_calls sd) (sd_sent sd) (sd_got sd), out))
  | EvCall data =>
      Ok (match send_args (Some data) (lenZ data) with
          | Some _ => sd
          | None => mkSide c (sd_calls sd ++ [SendEnter data]) (sd_sent sd) (sd_got sd)
          end, [])
  | EvSend i timed_out k =>
      match sd_calls sd !! i with
      | None => Ok (sd, [])
      | Some ph =>
          res_bind (fuse_send c ph timed_out k) (fun '(c, out, ph') =>
          let sent := match ph, ph' with SendBusy data, SendRoom _ => sd_sent sd ++ [data] | _, _ => sd_sent sd end in
          Ok (mkSide c (<[i := ph']> (sd_calls sd)) sent (sd_got sd), out))
      end
  | EvRecv cap timed_out => let '(c, r) := fuse_recv c cap timed_out in Ok (mkSide c (sd_calls sd) (sd_sent sd) (sd_got sd ++ received r), [])
  | EvRecvAlloc timed_out => let '(c, r) := fuse_recv_alloc c true timed_out in Ok (mkSide c (sd_calls sd) (sd_sent sd) (sd_got sd ++ received r), [])
  | EvClose => let '(c, out) := fuse_close c in Ok (mkSide c (sd_calls sd) (sd_sent sd) (sd_got sd), out)
  end.

Fixpoint side_run (sd : Side) (evs : list SideEvent) : res (Side * list datagram) :=
  match evs with
  | [] => Ok (sd, [])
  | ev :: evs =>
      res_bind (side_step sd ev) (fun '(sd, out) =>
      res_bind (side_run sd evs) (fun '(sd, out') => Ok (sd, out ++ out')))
  end.

End Side.

(** The datagrams of an event. *)
Definition event_dgs (ev : SideEvent) : list bytes := match ev with EvPump batch _ => in_dg <$> batch | _ => [] end.

(** ** Calls *)

Definition in_progress (ph : SendPhase) : bool := match ph with SendRoom _ | SendDelivered _ => true | _ => false end.

(** [send_busy] says whether a call is under way, and then there is one. *)
Definition busy_inv (sd : Side) : Prop := length (filter (fun ph => in_progress ph = true) (sd_calls sd)) = if ct_send_busy (fc_tx (sd_conn sd)) then 1%nat else 0%nat.

Lemma filter_insert_length {A} (f : A -> bool) (l : list A) i x y :
  l !! i = Some x -> (length (filter (fun x => f x = true) (<[i := y]> l)) + Nat.b2n (f x) = length (filter (fun x => f x = true) l) + Nat.b2n (f y))%nat.
Proof.
  revert i. induction l as [| z l IH]; intros [| i] E; try done; cbn in E.
  - injection E as ->. cbn [insert list_insert]. rewrite !filter_cons. destruct (decide (f y = true)) as [-> | ->%not_true_is_false], (decide (f x = true)) as [-> | ->%not_true_is_false]; cbn; lia.
  - specialize (IH i E). change (<[S i := y]> (z :: l)) with (z :: <[i := y]> l). rewrite !filter_cons. destruct (decide (f z = true)); cbn; lia.
Qed.

(** The calls that are under way when one of them has moved. *)
Lemma busy_inv_step calls i ph ph' x x' :
  length (filter (fun ph => in_progress ph = true) calls) = (if ct_send_busy x then 1 else 0)%nat -> calls !! i = Some ph -> call_moved x ph x' ph' ->
  length (filter (fun ph => in_progress ph = true) (<[i := ph']> calls)) = (if ct_send_busy x' then 1 else 0)%nat.
Proof.
  intros Hb Ei Hm. pose proof (filter_insert_length in_progress calls i ph ph' Ei) as Hf.
  assert (in_progress ph = true -> ct_send_busy x = true) as Hone.
  { intros Hp. destruct (ct_send_busy x); [done |]. exfalso.
    assert (ph ∈ filter (fun ph => in_progress ph = true) calls) as Hin by (apply list_elem_of_filter; split; [done | by eapply list_elem_of_lookup_2]).
    destruct (filter _ calls); [by apply elem_of_nil in Hin | done]. }
  destruct Hm as [| | ph data st Hph | data x' H1 H2 H3 | call x' H1 H2 H3 | ph st call x' H1 H2 H3 H4 H5 | call x' H1 H2 H3]; cbn [in_progress] in *; cbn [in_progress Nat.b2n] in Hf; try lia.
  - destruct Hph as [-> | ->]; cbn in Hf; lia.
  - rewrite H1 in Hb. rewrite H3. cbn in Hf. lia.
  - rewrite H3. rewrite Hone in * by done. destruct (_ =? _); cbn in Hf; lia.
  - rewrite H5. destruct H1 as [-> | ->]; rewrite Hone in Hb by done; cbn in Hf; lia.
  - rewrite H3. rewrite Hone in Hb by done. cbn in Hf. lia.
Qed.

Lemma busy_inv_enter sd data : busy_inv sd -> busy_inv (mkSide (sd_conn sd) (sd_calls sd ++ [SendEnter data]) (sd_sent sd) (sd_got sd)).
Proof. unfold busy_inv. cbn [sd_calls sd_conn]. intros Hb. rewrite filter_app, length_app, Hb, filter_cons, decide_False by done. apply Nat.add_0_r. Qed.

(** ** Receiving calls *)

Definition recv_effect (c c' : fuse_conn) (r : recv_return) : Prop :=
  c' = c /\ received r = [] \/ exists m rest, cr_inbox (fc_rx c) = m :: rest /\ c' = pop_inbox c rest (lenZ m) /\ received r = [m].

Lemma fuse_recv_effect c cap timed_out c' r : fuse_recv c cap timed_out = (c', r) -> recv_effect c c' r.
Proof.
  unfold fuse_recv. destruct (wait_for _ _ _) as [st |]; [| intros [= <- <-]; by left]. destruct st; try (intros [= <- <-]; by left).
  destruct (cr_inbox (fc_rx c)) as [| m rest] eqn:Ei; [intros [= <- <-]; by left |]. destruct (_ <? _); intros [= <- <-]; [by left |]. right. by exists m, rest.
Qed.

Lemma fuse_recv_alloc_effect c timed_out c' r : fuse_recv_alloc c true timed_out = (c', r) -> recv_effect c c' r.
Proof.
  unfold fuse_recv_alloc. destruct (wait_for _ _ _) as [st |]; [| intros [= <- <-]; by left]. destruct st; try (intros [= <- <-]; by left).
  destruct (cr_inbox (fc_rx c)) as [| m rest] eqn:Ei; intros [= <- <-]; [by left |]. right. by exists m, rest.
Qed.

Lemma pop_inbox_inv c acc m rest : conn_rx_inv (fc_rx c) acc -> cr_inbox (fc_rx c) = m :: rest -> conn_rx_inv (fc_rx (pop_inbox c rest (lenZ m))) acc.
Proof.
  intros [] E. assert (sumZ lenZ (cr_inbox (fc_rx c)) = lenZ m + sumZ lenZ rest) as Hs by (by rewrite E).
  pose proof (sumZ_nonneg lenZ rest (fun x _ => lenZ_nonneg x)). pose proof (lenZ_nonneg m). unfold kMaxInboxBytes, kMaxMessage in *.
  split; cbn [pop_inbox fc_set_rx fc_rx cr_rx cr_asm_buf cr_asm_end_seq cr_asm_total cr_inbox cr_inbox_bytes]; try done.
  - rewrite yi_bytes, Hs, u64_small; [lia | unfold is_u64; lia].
  - unfold kMaxInboxBytes, kMaxMessage. lia.
Qed.

(** A closing connection only sends Close messages. *)
Lemma close_sent_by own s acc `{B : CryptoBackend} : sent_by own s acc encode_close.
Proof. split; [intros d Hd; by vm_compute in Hd | intros a q Ha; by vm_compute in Ha]. Qed.

(** ** A side on its own *)

Lemma size_list_to_set_le (l : list Z) : (size (list_to_set l : gset Z) <= length l)%nat.
Proof.
  induction l as [| x l IH]; [by rewrite list_to_set_nil, size_empty |]. rewrite list_to_set_cons, size_union_alt, size_singleton.
  pose proof (subseteq_size (list_to_set l ∖ {[x]}) (list_to_set l : gset Z) ltac:(set_solver)). cbn. lia.
Qed.

Section Alone.
Context `{B : CryptoBackend} `{!CryptoLaws B}.
Context (s : ConnSession) (Hs : wf_conn_session s) (hist : list bytes) (Hhist : Forall (Forall is_u8) hist) (Hlen : Z.of_nat (length hist) < 2 ^ 63).

Definition own_any (q : Z) (p : bytes) (m : TxMeta) : Prop := is_u64 q /\ lenZ p <= kBlockSize /\ is_u64 (tm_offset m) /\ is_u8 (tm_flags m).
Definition rx_any (acc : gset Z) (_ : AsmView) : Prop := forall q, q ∈ acc -> arrived hist (cs_rx_lane s) q.

Lemma rx_any_base acc r : conn_rx_inv r acc -> rx_any acc (asm_view r) -> rs_base_seq_no (cr_rx r) + 1024 < 2 ^ 64.
Proof.
  intros I Ha. pose proof (rinv_base_size _ _ (yi_rx _ _ I)) as Hb.
  set (seqs := (fun dg => match decode_data_datagram dg with Ok d => bh_seq_no (dd_hdr d) | _ => 0 end) <$> hist).
  assert (acc ⊆ list_to_set seqs) as Hsub.
  { intros q (dg & d & Hin & Ed & _ & Eq)%Ha. apply elem_of_list_to_set, list_elem_of_fmap. exists dg. by rewrite Ed. }
  apply subseteq_size in Hsub. pose proof (size_list_to_set_le seqs) as Hz. subst seqs. rewrite length_fmap in Hz. lia.
Qed.

(** A call's data fits a message, and its block counter the data. *)
Definition call_size (ph : SendPhase) : Prop :=
  match ph with
  | SendEnter data | SendBusy data => lenZ data <= kMaxMessage
  | SendRoom call => lenZ (sc_data call) <= kMaxMessage /\ 0 <= sc_i call < nblocks (lenZ (sc_data call))
  | _ => True
  end.

Record alone_inv (sd : Side) (acc : gset Z) : Prop := {
  ai_conn : conn_inv own_any (fun _ => True) s rx_any (sd_conn sd) acc;
  ai_busy : busy_inv sd;
  ai_calls : Forall call_size (sd_calls sd);
}.

Definition alone_legit (dg : bytes) : Prop := dg ∈ hist.

Lemma rx_any_step r r' acc acc' dg : alone_legit dg -> rx_any acc (asm_view r) -> rx_taken s r r' acc acc' dg -> rx_any acc' (asm_view r').
Proof.
  intros Hl Ha [[-> _] | (d & body & rx & Ed & Hid & _ & _ & -> & _)]; [done |]. intros q [->%elem_of_singleton | Hq]%elem_of_union; [| by apply Ha]. by exists dg, d.
Qed.

Lemma call_moved_size x ph x' ph' : call_moved x ph x' ph' -> call_size ph -> call_size ph'.
Proof.
  intros Hm Hc. destruct Hm; cbn [call_size] in *; try done.
  - split; [done |]. cbn. pose proof (nblocks_spec (lenZ data) (lenZ_nonneg data)). lia.
  - subst call'. destruct (Z.eqb_spec (sc_i call + 1) (nblocks (lenZ (sc_data call)))); cbn [call_size sc_data sc_i]; [done |]. lia.
Qed.

Lemma call_moved_next x ph x' ph' : call_moved x ph x' ph' -> ct_next_seq x' <= ct_next_seq x + 1.
Proof. intros []; try lia; unfold same_blocks in *; lia. Qed.

Lemma alone_call_ok c ph : call_size ph -> 0 <= ct_next_seq (fc_tx c) < 2 ^ 63 -> call_ok own_any c ph.
Proof.
  intros Hc Hn. destruct ph as [| | call | | |]; try done. destruct Hc as [Hd Hi]. destruct (msg_block_spec _ _ Hi) as (M1 & M2 & M3 & M4). unfold kMaxMessage in Hd.
  split; [done |]. split; [lia |]. unfold own_any, is_u64, msg_meta. cbn. split_and!; try lia; destruct (_ =? _); unfold is_u8, kFlagLastBlock; lia.
Qed.

Lemma side_step_total sd acc ev :
  alone_inv sd acc -> event_dgs ev ⊆ hist -> ct_next_seq (fc_tx (sd_conn sd)) < 2 ^ 63 ->
  returns (side_step sd ev) (fun '(sd', out) => exists acc', alone_inv sd' acc' /\ acc ⊆ acc' /\ ct_next_seq (fc_tx (sd_conn sd')) <= ct_next_seq (fc_tx (sd_conn sd)) + 1 /\
    Forall (sent_by own_any s acc') (snd <$> out)).
Proof.
  intros [I Hb Hc] Hd Hn. pose proof I as [E1 E2 E3 E4]. pose proof (xi_bounds _ _ _ E2) as (Hb1 & _).
  assert (forall c' r, recv_effect (sd_conn sd) c' r -> exists acc', alone_inv (mkSide c' (sd_calls sd) (sd_sent sd) (sd_got sd ++ received r)) acc' /\ acc ⊆ acc' /\
    ct_next_seq (fc_tx c') <= ct_next_seq (fc_tx (sd_conn sd)) + 1 /\ Forall (sent_by own_any s acc') (snd <$> ([] : list datagram))) as Hrecv.
  { intros c' r [[-> _] | (m & rest & Ei & -> & _)]; exists acc; (split; [| split_and!; [done | cbn; lia | done]]); split; try done.
    split; try done. by apply pop_inbox_inv. }
  destruct ev as [batch e | data | i timed_out k | cap timed_out | timed_out |]; cbn [side_step event_dgs] in *.
  - destruct (pump_pass_spec own_any (fun _ => True) (fun q p m H => H) s Hs alone_legit rx_any) with (c := sd_conn sd) (acc := acc) (batch := batch) (e := e) as ([c' out] & -> & acc' & V); try done.
    + intros dg Hl. by apply (proj1 (list.Forall_forall _ _) Hhist).
    + apply rx_any_base.
    + intros r r' a a' dg Hl _ _. by apply rx_any_step.
    + apply list.Forall_forall. intros i Hi. apply Hd, list_elem_of_fmap. by exists i.
    + cbn [res_bind]. apply returns_ok. exists acc'. destruct V as [V1 V2 V3 V4 V5 V6 V7]. split_and!; try done; [| cbn; lia]. split; try done. unfold busy_inv. cbn. by rewrite V5.
  - apply returns_ok. exists acc. split_and!; try done; [| destruct (send_args _ _); cbn; lia]. destruct (send_args (Some data) (lenZ data)) eqn:Ea; [done |].
    assert (lenZ data <= kMaxMessage) by (unfold send_args in Ea; by destruct (Z.ltb_spec kMaxMessage (lenZ data))).
    split; try done; [by apply busy_inv_enter |]. cbn. apply Forall_app. by split; [| constructor].
  - destruct (sd_calls sd !! i) as [ph |] eqn:Ei; [| apply returns_ok; exists acc; split_and!; try done; lia].
    pose proof (proj1 (Forall_lookup _ _) Hc i ph Ei) as Hph.
    destruct (fuse_send_spec own_any (fun _ => True) (fun q p m H => H) s Hs rx_any (sd_conn sd) acc ph timed_out k I) as ([[c' out] ph'] & -> & I' & _ & _ & Ho & Hm);
      [apply alone_call_ok; [done | lia] |]. cbn [res_bind]. apply returns_ok. exists acc. split_and!; try done; [| by apply call_moved_next in Hm]. split; try done.
    + unfold busy_inv. cbn. by eapply busy_inv_step.
    + cbn. apply Forall_insert; [done |]. by eapply call_moved_size.
  - destruct (fuse_recv _ _ _) as [c' r] eqn:Er. apply returns_ok. by eapply Hrecv, fuse_recv_effect.
  - destruct (fuse_recv_alloc _ _ _) as [c' r] eqn:Er. apply returns_ok. by eapply Hrecv, fuse_recv_alloc_effect.
  - apply returns_ok. exists acc. split; [by split |]. split; [done |]. split; [cbn; lia |]. rewrite to_peer_dgs. apply Forall_replicate, close_sent_by.
Qed.

Lemma side_run_total evs : forall sd acc,
  alone_inv sd acc -> mjoin (event_dgs <$> evs) ⊆ hist -> ct_next_seq (fc_tx (sd_conn sd)) + lenZ evs < 2 ^ 63 ->
  returns (side_run sd evs) (fun '(sd', out) => exists acc', alone_inv sd' acc' /\ acc ⊆ acc' /\ Forall (sent_by own_any s acc') (snd <$> out)).
Proof.
  induction evs as [| ev evs IH]; intros sd acc I Hd Hn; cbn [side_run]; [apply returns_ok; by exists acc |]. rewrite lenZ_cons in Hn. pose proof (lenZ_nonneg evs).
  change (mjoin (event_dgs <$> ev :: evs)) with (event_dgs ev ++ mjoin (event_dgs <$> evs)) in Hd.
  eapply returns_bind; [apply (side_step_total sd acc ev I); [set_solver | lia] |]. intros [sd1 out1] (acc1 & I1 & Ha1 & Hn1 & Ho1).
  eapply returns_bind; [apply (IH sd1 acc1 I1); [set_solver | lia] |]. intros [sd2 out2] (acc2 & I2 & Ha2 & Ho2). apply returns_ok. exists acc2. split; [done |]. split; [set_solver |].
  rewrite fmap_app. apply Forall_app. split; [| done]. eapply Forall_impl; [exact Ho1 |]. intros dg. by apply sent_by_mono.
Qed.

End Alone.

(** C15: A connection of the message API survives any datagrams.  Whatever arrives, in
    whatever batches, and however the calls of the application interleave with the pump
    (fewer than 2^63 events and datagrams, so that no sequence number reaches the end of
    its range), every handler returns without leaving a buffer.  The message under
    reassembly stays within 64 MiB and the messages that wait within 320 MiB; at most one
    call is sending; at most a window of blocks is unacknowledged and each of them is still
    in the registry, to be sent again; and an Ack claims only blocks that have arrived. *)
Theorem sdk_side_total `{B : CryptoBackend} `{!CryptoLaws B} s peer now evs :
  wf_conn_session s -> Forall (Forall is_u8) (mjoin (event_dgs <$> evs)) -> lenZ evs < 2 ^ 63 -> lenZ (mjoin (event_dgs <$> evs)) < 2 ^ 63 ->
  exists sd out, side_run (new_side s peer now) evs = Ok (sd, out) /\
    lenZ (cr_asm_buf (fc_rx (sd_conn sd))) <= kMaxMessage /\ sumZ lenZ (cr_inbox (fc_rx (sd_conn sd))) < kMaxInboxBytes + kMaxMessage /\
    (length (filter (fun ph => in_progress ph = true) (sd_calls sd)) <= 1)%nat /\
    ct_next_seq (fc_tx (sd_conn sd)) - ct_base (fc_tx (sd_conn sd)) <= kWindow /\
    (forall q, ct_base (fc_tx (sd_conn sd)) <= q < ct_next_seq (fc_tx (sd_conn sd)) -> exists sl, lookup (ct_reg (fc_tx (sd_conn sd))) q = Some sl) /\
    (forall dst dg a q, (dst, dg) ∈ out -> decode_ack dg = Ok a -> 0 <= q < ack_base_seq_no a -> arrived (mjoin (event_dgs <$> evs)) (cs_rx_lane s) q).
Proof.
  intros Hs Hb Hl1 Hl2. set (hist := mjoin (event_dgs <$> evs)) in *.
  assert (alone_inv s hist (new_side s peer now) ∅) as I0 by (split; [by apply start_conn_inv | done | constructor]).
  destruct (side_run_total s Hs hist Hb ltac:(unfold lenZ in Hl2; lia) evs (new_side s peer now) ∅ I0) as ([sd out] & E & acc & [I Hbusy _] & _ & Ho); [done | cbn; lia |].
  exists sd, out. split; [done |]. pose proof I as [_ E2 E3 E4]. split_and!; [apply E3 | apply E3 | | | apply E2 |].
  - rewrite Hbusy. destruct (ct_send_busy _); lia.
  - pose proof (xi_bounds _ _ _ E2). lia.
  - intros dst dg a q Hin Ea Hq. apply E4. eapply (proj1 (list.Forall_forall _ _) Ho dg); [| done | done]. apply list_elem_of_fmap. by exists (dst, dg).
Qed.

Definition sess_example : ConnSession := mkConnSession 0 1 false new_cipher new_cipher 1000.

(** A side fed with a datagram that is no message at all while it sends one. *)
Lemma sdk_side_total_witness :
  exists sd out, side_run (B := toy_backend) (new_side sess_example peer_example 1000)
    [EvCall [1; 2; 3]; EvSend 0 false (mkSendClock 1 1 1); EvPump [mkIncoming [2; 255; 3] peer_example (mkDgEnv 5 5 (fun _ => (5, true)))] (mkPumpEnv 6 6 (6, true))] = Ok (sd, out) /\
    sumZ lenZ (cr_inbox (fc_rx (sd_conn sd))) < kMaxInboxBytes + kMaxMessage.
Proof.
  destruct (sdk_side_total (B := toy_backend) (CryptoLaws0 := toy_laws) sess_example peer_example 1000
    [EvCall [1; 2; 3]; EvSend 0 false (mkSendClock 1 1 1); EvPump [mkIncoming [2; 255; 3] peer_example (mkDgEnv 5 5 (fun _ => (5, true)))] (mkPumpEnv 6 6 (6, true))])
    as (sd & out & E & _ & H & _); [split; unfold is_u16; cbn; lia | cbn; constructor; [all_in_range | constructor] | reflexivity | reflexivity |].
  exists sd, out. split; [exact E | exact H].
Defined.
