(* ===== verification/SdkLink.v ===== *)
(** * The two sides of a connection of the message API

    Joins two sides (SdkSystem.v) by a network that may lose, delay, reorder and
    duplicate datagrams, and that may forge any that are neither Acks nor blocks that
    authenticate.  Messages arrive whole, in order and once, as long as no [fuse_send]
    starts after one that has failed; a concrete run shows what happens otherwise. *)

From S2P Require Import Prelude Wire Control Block Bits Window Receiver Registry Setup Handshake Congestion SessionCrypto Peer Returns RecvLane RecvSafety MuxRecv SdkConn SdkInv SdkSystem.

(** ** The blocks of a sequence of messages *)

Definition blocks (msgs : list bytes) : Z := sumZ (fun m => nblocks (lenZ m)) msgs.

(** Sequence number [q] is block [i] of message [m] of [msgs]. *)
Definition planned (msgs : list bytes) (q : Z) (m : bytes) (i : Z) : Prop :=
  exists pre post, msgs = pre ++ m :: post /\ q = blocks pre + i /\ 0 <= i < nblocks (lenZ m).

Definition own_of (msgs : list bytes) (q : Z) (p : bytes) (meta : TxMeta) : Prop :=
  exists m i, planned msgs q m i /\ p = msg_block m i /\ meta = msg_meta m i.

Definition fits (m : bytes) : Prop := lenZ m <= kMaxMessage.

Lemma blocks_nonneg msgs : 0 <= blocks msgs.
Proof. apply sumZ_nonneg. intros m _. pose proof (nblocks_spec (lenZ m) (lenZ_nonneg m)). lia. Qed.

Lemma blocks_app l1 l2 : blocks (l1 ++ l2) = blocks l1 + blocks l2.
Proof. apply sumZ_app. Qed.

Lemma blocks_one m : blocks [m] = nblocks (lenZ m) /\ 1 <= nblocks (lenZ m).
Proof. split; [cbn; lia |]. apply nblocks_spec, lenZ_nonneg. Qed.

Lemma planned_mono msgs more q m i : planned msgs q m i -> planned (msgs ++ more) q m i.
Proof. intros (pre & post & -> & H). exists pre, (post ++ more). by rewrite <- app_assoc. Qed.

Lemma own_of_mono msgs more q p meta : own_of msgs q p meta -> own_of (msgs ++ more) q p meta.
Proof. intros (m & i & H & ?). exists m, i. split; [by apply planned_mono | done]. Qed.

Lemma planned_range msgs q m i : planned msgs q m i -> 0 <= q < blocks msgs.
Proof.
  intros (pre & post & -> & -> & Hi). rewrite blocks_app. change (m :: post) with ([m] ++ post). rewrite blocks_app. destruct (blocks_one m) as [-> _].
  pose proof (blocks_nonneg pre). pose proof (blocks_nonneg post). lia.
Qed.

(** The blocks of the last message. *)
Lemma planned_last pre cur q m i : planned (pre ++ [cur]) q m i -> blocks pre <= q -> m = cur /\ i = q - blocks pre.
Proof.
  intros (pre' & post & E & -> & Hi) Hq. destruct post as [| x post _] using rev_ind.
  - apply app_inj_tail in E as [<- <-]. split; [done | lia].
  - change (pre' ++ m :: post ++ [x]) with (pre' ++ (m :: post) ++ [x]) in E. rewrite app_assoc in E. apply app_inj_tail in E as [-> <-].
    exfalso. rewrite blocks_app in Hq. change (m :: post) with ([m] ++ post) in Hq. rewrite blocks_app in Hq. destruct (blocks_one m) as [Eb _]. pose proof (blocks_nonneg post). lia.
Qed.

Lemma own_of_wf msgs q p meta : Forall fits msgs -> blocks msgs < 2 ^ 63 -> own_of msgs q p meta -> is_u64 q /\ lenZ p <= kBlockSize /\ is_u64 (tm_offset meta) /\ is_u8 (tm_flags meta).
Proof.
  intros Hf Hb (m & i & Hp & -> & ->). pose proof (planned_range _ _ _ _ Hp). destruct Hp as (pre & post & -> & -> & Hi).
  apply Forall_app in Hf as [_ [Hm _]%Forall_cons_1]. unfold fits, kMaxMessage in Hm. destruct (msg_block_spec m i Hi) as (M1 & M2 & M3 & _).
  unfold is_u64, msg_meta. cbn. split_and!; try lia; destruct (_ =? _); unfold is_u8, kFlagLastBlock; lia.
Qed.

(** ** The message under reassembly *)

(** Every byte of the blocks of [cur] (numbered from [start]) that have arrived is in
    place. *)
Definition asm_part (start : Z) (cur : bytes) (acc : gset Z) (v : AsmView) : Prop :=
  start <= av_base v < start + nblocks (lenZ cur) /\ lenZ (av_buf v) <= lenZ cur /\
  (forall i (o : nat), 0 <= i < nblocks (lenZ cur) -> start + i ∈ acc -> i * kBlockSize <= Z.of_nat o < i * kBlockSize + lenZ (msg_block cur i) -> av_buf v !! o = cur !! o) /\
  (if decide (start + nblocks (lenZ cur) - 1 ∈ acc) then av_end v = start + nblocks (lenZ cur) - 1 /\ av_total v = lenZ cur else av_end v = no_seq).

(** The messages in [got] and the inbox are those sent, up to the last. *)
Definition asm_inv (sent got : list bytes) (acc : gset Z) (v : AsmView) : Prop :=
  (forall q, q ∈ acc -> 0 <= q < blocks sent) /\
  (sent = got ++ av_inbox v /\ av_base v = blocks sent /\ av_buf v = [] /\ av_end v = no_seq \/
   exists cur, sent = (got ++ av_inbox v) ++ [cur] /\ asm_part (blocks (got ++ av_inbox v)) cur acc v).

(** A new message begins once everything has arrived. *)
Lemma asm_inv_begin sent got acc v m :
  asm_inv sent got acc v -> (forall q, 0 <= q < blocks sent -> q ∈ acc) -> (av_base v ∉ acc) -> asm_inv (sent ++ [m]) got acc v.
Proof.
  intros [Hr Hs] Hall Hb. destruct (blocks_one m) as [Em Hm]. split; [intros q Hq; rewrite blocks_app, Em; specialize (Hr q Hq); lia |].
  destruct Hs as [(-> & Eb & Ebuf & Ee) | (cur & -> & (Hp & _))].
  - right. exists m. split; [done |]. split_and!; [lia | lia | rewrite Ebuf; change (lenZ (@nil Z)) with 0; apply lenZ_nonneg | |].
    + intros i o Hi Hin. apply Hr in Hin. lia.
    + rewrite decide_False; [done |]. intros Hin%Hr. lia.
  - exfalso. apply Hb, Hall. rewrite blocks_app. destruct (blocks_one cur) as [-> _]. pose proof (blocks_nonneg (got ++ av_inbox v)). lia.
Qed.

Lemma asm_inv_pop sent got acc r m rest r' :
  asm_inv sent got acc (asm_view r) -> cr_inbox r = m :: rest -> asm_view r' = mkAsmView (rs_base_seq_no (cr_rx r)) (cr_asm_buf r) (cr_asm_end_seq r) (cr_asm_total r) rest ->
  asm_inv sent (got ++ [m]) acc (asm_view r').
Proof.
  intros [Hr Hs] Ei ->. split; [done |]. cbn [asm_view av_inbox av_base av_buf av_end av_total] in *. rewrite Ei in Hs.
  rewrite <- app_assoc. exact Hs.
Qed.

Lemma last_flag m i flags :
  flags = tm_flags (msg_meta m i) \/ flags = Z.lor (tm_flags (msg_meta m i)) kFlagRetransmission -> negb (Z.land flags kFlagLastBlock =? 0) = (i + 1 =? nblocks (lenZ m)).
Proof. unfold msg_meta. cbn. by destruct (_ =? _); intros [-> | ->]. Qed.

Lemma resize_lookup l n (o : nat) x : lenZ l <= n -> l !! o = Some x -> resize l n !! o = Some x.
Proof. intros Hn E. pose proof (lookup_lt_Some _ _ _ E). unfold resize, lenZ in *. rewrite take_ge by lia. by rewrite lookup_app_l. Qed.

(** The buffer after block [i] of [cur] has been copied into it. *)
Lemma place_bytes start cur acc v i hdr :
  asm_part start cur acc v -> fits cur -> 0 <= i < nblocks (lenZ cur) -> bh_seq_no hdr = start + i -> bh_offset hdr = i * kBlockSize ->
  let v' := place_view v hdr (msg_block cur i) in
  av_base v' = av_base v /\ av_inbox v' = av_inbox v /\ lenZ (av_buf v') <= lenZ cur /\
  (av_end v', av_total v') = (if negb (Z.land (bh_flags hdr) kFlagLastBlock =? 0) then (start + i, i * kBlockSize + lenZ (msg_block cur i)) else (av_end v, av_total v)) /\
  forall j (o : nat), 0 <= j < nblocks (lenZ cur) -> start + j ∈ ({[start + i]} ∪ acc : gset Z) ->
    j * kBlockSize <= Z.of_nat o < j * kBlockSize + lenZ (msg_block cur j) -> av_buf v' !! o = cur !! o.
Proof.
  intros (_ & Hbuf & Hin & _) Hf Hi Es Eo. destruct (msg_block_spec cur i Hi) as (M1 & M2 & M3 & M4). unfold fits in Hf. unfold place_view. rewrite Eo.
  destruct (Z.leb_spec (i * kBlockSize) kMaxMessage); [| lia]. destruct (Z.leb_spec (lenZ (msg_block cur i)) (kMaxMessage - i * kBlockSize)); [| lia].
  cbn [andb av_base av_buf av_end av_total av_inbox]. set (off := i * kBlockSize) in *. set (end_ := off + lenZ (msg_block cur i)).
  set (buf := if _ <? _ then _ else _). assert (lenZ buf <= lenZ cur /\ end_ <= lenZ buf) as [Hl1 Hl2].
  { subst buf. destruct (Z.ltb_spec (lenZ (av_buf v)) end_); [rewrite lenZ_resize by lia |]; lia. }
  split; [done |]. split; [done |]. split; [rewrite splice_length by lia; done |]. split; [rewrite Es; by destruct (negb _) |].
  intros j o Hj Hacc Ho. destruct (msg_block_spec cur j Hj) as (N1 & N2 & N3 & _). rewrite splice_lookup by lia. destruct (_ && _) eqn:Ec.
  - unfold msg_block. fold off. rewrite slice_lookup by lia. f_equal. lia.
  - assert (start + j ∈ acc) as Hacc' by (apply elem_of_union in Hacc as [Hj'%elem_of_singleton | Hacc]; [| done]; replace j with i in * by lia; subst off; lia).
    assert (is_Some (cur !! o)) as [x Ex] by (apply lookup_lt_is_Some; unfold lenZ in *; lia). pose proof (Hin j o Hj Hacc' Ho) as Eb. rewrite Ex in *.
    subst buf. destruct (Z.ltb_spec (lenZ (av_buf v)) end_); [| done]. apply resize_lookup; [lia | done].
Qed.

Lemma msg_block_at m (o : nat) : (o < length m)%nat ->
  let j := Z.of_nat o / kBlockSize in 0 <= j < nblocks (lenZ m) /\ j * kBlockSize <= Z.of_nat o < j * kBlockSize + lenZ (msg_block m j).
Proof.
  intros Ho j. destruct (nblocks_spec (lenZ m) (lenZ_nonneg m)) as (H1 & H2 & _). assert (0 <= j < nblocks (lenZ m)) as Hj by (subst j; unfold lenZ, kBlockSize, kDefaultPayloadSize in *; mlia).
  split; [done |]. destruct (msg_block_spec m j Hj) as (_ & -> & _). subst j. unfold lenZ, kBlockSize, kDefaultPayloadSize in *. mlia.
Qed.

Lemma asm_take_block got acc v cur base i hdr :
  let start := blocks (got ++ av_inbox v) in
  let acc' := {[start + i]} ∪ acc in
  asm_inv ((got ++ av_inbox v) ++ [cur]) got acc v -> asm_part start cur acc v -> fits cur -> start + nblocks (lenZ cur) < 2 ^ 64 -> 0 <= i < nblocks (lenZ cur) -> start + i ∉ acc ->
  bh_seq_no hdr = start + i -> bh_offset hdr = i * kBlockSize -> negb (Z.land (bh_flags hdr) kFlagLastBlock =? 0) = (i + 1 =? nblocks (lenZ cur)) ->
  is_mex base acc' -> av_base v <= base ->
  asm_inv ((got ++ av_inbox v) ++ [cur]) got acc' (complete_view (place_view (mkAsmView base (av_buf v) (av_end v) (av_total v) (av_inbox v)) hdr (msg_block cur i))).
Proof.
  intros start acc' [Hr _] Hp Hf Hmax Hi Hn Es Eo El [Hmex Hall] Hbase. destruct (blocks_one cur) as [Ec Hc]. pose proof (blocks_nonneg (got ++ av_inbox v)) as Hst. fold start in Hst.
  assert (blocks ((got ++ av_inbox v) ++ [cur]) = start + nblocks (lenZ cur)) as Eb by (rewrite blocks_app, Ec; done).
  pose proof Hp as (Hb & Hbuf & Hin & Hend). set (n := nblocks (lenZ cur)) in *. set (w := mkAsmView base _ _ _ _).
  destruct (place_bytes start cur acc (mkAsmView (av_base v) (av_buf v) (av_end v) (av_total v) (av_inbox v)) i hdr) as (P1 & P2 & P3 & P4 & P5); [by destruct v | done .. |].
  assert (place_view w hdr (msg_block cur i) = let v' := place_view (mkAsmView (av_base v) (av_buf v) (av_end v) (av_total v) (av_inbox v)) hdr (msg_block cur i) in
    mkAsmView base (av_buf v') (av_end v') (av_total v') (av_inbox v')) as -> by (unfold place_view, w; by destruct (_ && _)).
  set (v' := place_view _ hdr _) in *. cbn [av_base av_inbox av_end av_total] in P1, P2, P4. rewrite El in P4.
  assert (forall q, q ∈ acc' -> 0 <= q < start + n) as Hr' by (intros q [->%elem_of_singleton | Hq]%elem_of_union; [lia | specialize (Hr q Hq); rewrite Eb in Hr; lia]).
  assert (base <= start + n) as Hbn by (destruct (Z.le_gt_cases base (start + n)); [done |]; assert (start + n ∈ acc') as Hx by (apply Hall; lia); apply Hr' in Hx; lia).
  assert (if decide (start + n - 1 ∈ acc') then av_end v' = start + n - 1 /\ av_total v' = lenZ cur else av_end v' = no_seq) as Hend'.
  { destruct (msg_block_spec cur i Hi) as (_ & _ & _ & M4). destruct (Z.eqb_spec (i + 1) n) as [En |].
    - injection P4 as -> ->. rewrite decide_True by (apply elem_of_union; left; apply elem_of_singleton; lia). split; [lia | by apply M4].
    - injection P4 as -> ->. destruct (decide (start + n - 1 ∈ acc)); [rewrite decide_True by (by apply elem_of_union; right) | rewrite decide_False]; try done.
      intros [?%elem_of_singleton | ?]%elem_of_union; [lia | done]. }
  unfold complete_view. cbn [av_base av_buf av_end av_total av_inbox]. split; [by rewrite Eb |]. destruct (decide (start + n - 1 ∈ acc')) as [Hl | Hl].
  - destruct Hend' as [-> Ht]. destruct (Z.eqb_spec (start + n - 1) no_seq); [unfold no_seq in *; lia |]. cbn [negb andb]. destruct (Z.ltb_spec (start + n - 1) base); cycle 1.
    { right. exists cur. cbn [av_inbox]. rewrite P2. split; [done |]. fold start. split_and!; cbn; try done; [lia | lia |]. fold n. by rewrite decide_True. }
    left. cbn [av_inbox av_base av_buf av_end]. assert (av_buf v' = cur) as Ebuf.
    { apply list_eq. intros o. destruct (Nat.lt_ge_cases o (length cur)) as [Ho | Ho]; [| rewrite !lookup_ge_None_2; [done | lia | unfold lenZ in P3; lia]].
      destruct (msg_block_at cur o Ho) as (Hj & Hjo). eapply P5; [exact Hj | | exact Hjo]. apply Hall. fold n in Hj. lia. }
    split_and!; [| lia | done | done]. rewrite P2, Ht, Ebuf, resize_take by (pose proof (lenZ_nonneg cur); lia). rewrite take_ge by (unfold lenZ; lia). by rewrite app_assoc.
  - rewrite Hend'. cbn [negb andb Z.eqb]. rewrite Z.eqb_refl. cbn [negb andb]. right. exists cur. cbn [av_inbox]. rewrite P2. split; [done |]. fold start. split_and!; cbn; try done; [lia | |].
    + destruct (Z.lt_ge_cases base (start + n)); [done |]. exfalso. apply Hl, Hall. lia.
    + fold n. by rewrite decide_False.
Qed.

(** What the application of [b] has been given, or is given next. *)
Notation given b := (sd_got b ++ cr_inbox (fc_rx (sd_conn b))) (only parsing).

Section Link.
Context `{B : CryptoBackend} `{!CryptoLaws B}.

(** A datagram that tells the receiving session nothing: no Ack, and no block that it
    would accept. *)
Definition forged (s : ConnSession) (dg : bytes) : Prop :=
  (forall a, decode_ack dg <> Ok a) /\ (forall d, decode_data_datagram dg = Ok d -> bh_stream_id (dd_hdr d) = cs_rx_lane s -> open_body s d = None).

(** What may arrive: datagrams of the other side, and forged ones. *)
Definition may_arrive (sent : list bytes) (s s' : ConnSession) (acc' : gset Z) (dg : bytes) : Prop :=
  Forall is_u8 dg /\ (sent_by (own_of sent) s' acc' dg \/ forged s dg).

Lemma asm_inv_taken sent got s s' acc_s r r' acc acc' dg :
  Forall fits sent -> blocks sent < 2 ^ 63 -> paired s' s -> may_arrive sent s s' acc_s dg ->
  conn_rx_inv r acc -> asm_inv sent got acc (asm_view r) -> rx_taken s r r' acc acc' dg -> asm_inv sent got acc' (asm_view r').
Proof.
  intros Hf Hmax Hpair [_ Hdg] I Ha [[-> ->] | (d & body & rx & Ed & Eid & Eo & Hn & -> & Irx & ->)]; [done |].
  destruct Hdg as [[Hd _] | [_ Hd]]; [| by rewrite (Hd d Ed Eid) in Eo]. destruct (Hd d Ed) as (_ & p & meta & (m & i & Hp & -> & ->) & Eoff & Efl & Hopen).
  rewrite (Hopen s Hpair) in Eo. injection Eo as <-. pose proof (planned_range _ _ _ _ Hp) as Hq. set (q := bh_seq_no (dd_hdr d)) in *.
  assert (is_mex (rs_base_seq_no rx) ({[q]} ∪ acc)) as Hmex by (split; [apply Irx | apply (rr_below _ _ _ (rc_ring _ _ (proj1 Irx)))]).
  assert (rs_base_seq_no (cr_rx r) <= rs_base_seq_no rx) as Hbase by (eapply rinv_base_grows; [apply I | exact Irx | set_solver]).
  assert (forall x, 0 <= x < rs_base_seq_no (cr_rx r) -> x ∈ acc) as Hbelow by apply (rr_below _ _ _ (rc_ring _ _ (proj1 (yi_rx _ _ I)))).
  pose proof Ha as [Hr Hs]. destruct Hs as [(_ & Eb & _) | (cur & Es & Hpart)]; [exfalso; apply Hn, Hbelow; cbn in Eb; lia |].
  cbn [asm_view av_inbox] in *. set (start := blocks (got ++ cr_inbox r)) in *. assert (start <= q) as Hsq.
  { destruct (Z.le_gt_cases start q); [done |]. exfalso. apply Hn, Hbelow. destruct Hpart as [Hb _]. cbn in Hb. lia. }
  rewrite Es in Hp. destruct (planned_last _ _ _ _ _ Hp Hsq) as [-> Ei]. fold start in Ei.
  assert (0 <= i < nblocks (lenZ cur)) as Hi by (destruct Hp as (? & ? & _ & _ & Hi); done).
  assert (fits cur) as Hfc by (rewrite Es in Hf; apply Forall_app in Hf as [_ [Hfc _]%Forall_cons_1]; done).
  destruct (blocks_one cur) as [Ec _]. rewrite Es, blocks_app, Ec in Hmax. fold start in Hmax.
  assert (bh_seq_no (dd_hdr d) = start + i) as Eseq by (fold q; lia). replace q with (start + i) in * by lia. rewrite Es. rewrite Es in Ha.
  apply (asm_take_block got acc (asm_view r) cur (rs_base_seq_no rx) i (dd_hdr d)); try done; [cbn; fold start; lia | by apply last_flag].
Qed.

(** ** The calls of the sending side *)

Definition unfailed (ph : SendPhase) : Prop := match ph with SendDone st => st = FUSE_OK | _ => True end.

Definition phase_inv (sent : list bytes) (x : ConnTx) (ph : SendPhase) : Prop :=
  match ph with
  | SendEnter data | SendBusy data => fits data
  | SendRoom call => exists pre, sent = pre ++ [sc_data call] /\ ct_next_seq x = blocks pre + sc_i call /\ 0 <= sc_i call < nblocks (lenZ (sc_data call)) /\ sc_last_seq call = blocks sent - 1
  | SendDelivered call => exists pre, sent = pre ++ [sc_data call] /\ ct_next_seq x = blocks sent /\ sc_last_seq call = blocks sent - 1
  | _ => True
  end.

Record calls_inv (sd : Side) : Prop := {
  ki_fits : Forall fits (sd_sent sd);
  ki_max : blocks (sd_sent sd) < 2 ^ 63;
  ki_next : ct_next_seq (fc_tx (sd_conn sd)) <= blocks (sd_sent sd);
  ki_prev : forall pre m, sd_sent sd = pre ++ [m] -> blocks pre <= ct_base (fc_tx (sd_conn sd));
  ki_busy : busy_inv sd;
  ki_phases : Forall (phase_inv (sd_sent sd) (fc_tx (sd_conn sd))) (sd_calls sd);
  ki_settled : ct_send_busy (fc_tx (sd_conn sd)) = false -> Forall unfailed (sd_calls sd) -> ct_base (fc_tx (sd_conn sd)) = blocks (sd_sent sd);
}.

(** When nobody is sending, nobody is between blocks. *)
Lemma idle_phases sent x x' calls :
  length (filter (fun ph => in_progress ph = true) calls) = 0%nat -> Forall (phase_inv sent x) calls -> forall sent', Forall (phase_inv sent' x') calls.
Proof.
  intros Hb Hp sent'. apply list.Forall_forall. intros ph Hin. pose proof (proj1 (list.Forall_forall _ _) Hp ph Hin) as Hph. apply nil_length_inv in Hb.
  assert (in_progress ph = true -> False) as Hno by (intros Hi; assert (ph ∈ filter (fun ph => in_progress ph = true) calls) as Hf by (by apply list_elem_of_filter); rewrite Hb in Hf; by apply elem_of_nil in Hf).
  destruct ph; try done; by destruct Hno.
Qed.

(** ... and when call [k] is, the others are not. *)
Lemma other_phases sent x x' calls k ph ph' :
  length (filter (fun ph => in_progress ph = true) calls) = 1%nat -> calls !! k = Some ph -> in_progress ph = true -> Forall (phase_inv sent x) calls ->
  phase_inv sent x' ph' -> Forall (phase_inv sent x') (<[k := ph']> calls).
Proof.
  intros Hb Hk Hi Hp Hph'. pose proof (filter_insert_length in_progress calls k ph (SendDone FUSE_OK) Hk) as Hf. rewrite Hi in Hf. cbn in Hf.
  rewrite <- (list_insert_insert_eq calls k ph' (SendDone FUSE_OK)). apply Forall_insert; [| done]. apply (idle_phases sent x); [lia |]. by apply Forall_insert.
Qed.

Lemma phase_inv_next sent x x' ph : ct_next_seq x' = ct_next_seq x -> phase_inv sent x ph -> phase_inv sent x' ph.
Proof. intros E. destruct ph; cbn; by rewrite ?E. Qed.

(** A call that sends nothing. *)
Lemma calls_inv_idle a a' k ph ph' :
  calls_inv a -> sd_calls a !! k = Some ph -> call_moved (fc_tx (sd_conn a)) ph (fc_tx (sd_conn a)) ph' -> phase_inv (sd_sent a) (fc_tx (sd_conn a)) ph' ->
  (unfailed ph' -> unfailed ph) -> fc_tx (sd_conn a') = fc_tx (sd_conn a) -> sd_sent a' = sd_sent a -> sd_calls a' = <[k := ph']> (sd_calls a) -> calls_inv a'.
Proof.
  intros [K1 K2 K3 K4 K5 K6 K7] Hk Hm Hp Hu E1 E2 E3. split; rewrite ?E1, ?E2, ?E3; try done.
  - unfold busy_inv. rewrite E1, E3. by eapply busy_inv_step.
  - by apply Forall_insert.
  - intros Hb Hall. apply K7; [done |]. rewrite <- (list_insert_id (sd_calls a) k ph Hk), <- (list_insert_insert_eq (sd_calls a) k ph ph'). apply Forall_insert; [done |].
    apply Hu. apply (proj1 (Forall_lookup _ _) Hall k). apply list_lookup_insert_eq. by eapply lookup_lt_Some.
Qed.

(** A call that starts, when no earlier one has failed. *)
Lemma calls_inv_start a a' k data ph' :
  calls_inv a -> conn_tx_inv (own_of (sd_sent a)) (fun _ => True) (fc_tx (sd_conn a)) -> sd_calls a !! k = Some (SendBusy data) -> ct_send_busy (fc_tx (sd_conn a)) = false ->
  ph' = SendRoom (mkSendCall data 0 (u64 (ct_next_seq (fc_tx (sd_conn a)) + nblocks (lenZ data) - 1))) ->
  same_blocks (fc_tx (sd_conn a)) (fc_tx (sd_conn a')) -> ct_send_busy (fc_tx (sd_conn a')) = true -> Forall unfailed (sd_calls a) -> blocks (sd_sent a ++ [data]) < 2 ^ 63 ->
  sd_sent a' = sd_sent a ++ [data] -> sd_calls a' = <[k := ph']> (sd_calls a) -> calls_inv a' /\ ct_base (fc_tx (sd_conn a)) = blocks (sd_sent a).
Proof.
  intros [K1 K2 K3 K4 K5 K6 K7] I Hk Hb -> (F1 & F2 & F3 & F4) Hb' Hu Hmax E2 E3. specialize (K7 Hb Hu). split; [| done]. pose proof (xi_bounds _ _ _ I) as (Hx & _ & _).
  assert (ct_next_seq (fc_tx (sd_conn a)) = blocks (sd_sent a)) as En by lia. destruct (blocks_one data) as [Ed Hd]. pose proof (blocks_nonneg (sd_sent a)).
  rewrite blocks_app, Ed in Hmax. split; rewrite ?E2, ?E3, ?F2, ?F3, ?blocks_app, ?Ed; try lia; try done.
  - apply Forall_app. split; [done |]. constructor; [| done]. exact (proj1 (Forall_lookup _ _) K6 k _ Hk).
  - intros pre m E. apply app_inj_tail in E as [<- _]. lia.
  - unfold busy_inv. rewrite E3. eapply busy_inv_step; [exact K5 | exact Hk |]. by apply moved_start.
  - unfold busy_inv in K5. rewrite Hb in K5. apply Forall_insert; [by apply (idle_phases (sd_sent a) (fc_tx (sd_conn a))) |]. exists (sd_sent a). cbn. split; [done |]. split; [lia |]. split; [lia |].
    rewrite u64_small by (unfold is_u64; lia). rewrite blocks_app, Ed. lia.
  - intros Hf. by rewrite Hb' in Hf.
Qed.

(** A call that is sending. *)
Lemma calls_inv_move a a' k ph ph' :
  calls_inv a -> conn_tx_inv (own_of (sd_sent a)) (fun _ => True) (fc_tx (sd_conn a)) -> sd_calls a !! k = Some ph -> in_progress ph = true ->
  call_moved (fc_tx (sd_conn a)) ph (fc_tx (sd_conn a')) ph' -> fc_tx (sd_conn a') <> fc_tx (sd_conn a) \/ ph' <> ph ->
  sd_sent a' = sd_sent a -> sd_calls a' = <[k := ph']> (sd_calls a) -> calls_inv a'.
Proof.
  intros [K1 K2 K3 K4 K5 K6 K7] I Hk Hi Hm Hne E2 E3. pose proof (xi_bounds _ _ _ I) as (Hx & _ & _). pose proof (proj1 (Forall_lookup _ _) K6 k _ Hk) as Hph.
  assert (busy_inv a') as Hb' by (unfold busy_inv; rewrite E3; by eapply busy_inv_step).
  assert (length (filter (fun ph => in_progress ph = true) (sd_calls a)) = 1%nat) as Hone.
  { unfold busy_inv in K5. destruct (ct_send_busy _); [done |]. assert (ph ∈ filter (fun ph => in_progress ph = true) (sd_calls a)) as Hin by (apply list_elem_of_filter; split; [done | by eapply list_elem_of_lookup_2]).
    apply nil_length_inv in K5. rewrite K5 in Hin. by apply elem_of_nil in Hin. }
  assert (forall x', phase_inv (sd_sent a) x' ph' -> Forall (phase_inv (sd_sent a) x') (<[k := ph']> (sd_calls a))) as Hphases by (intros x' Hp'; by apply (other_phases _ (fc_tx (sd_conn a)) _ _ k ph)).
  set (x := fc_tx (sd_conn a)) in *. set (x' := fc_tx (sd_conn a')) in *.
  assert (unfailed ph' -> ct_send_busy x' = false -> ct_base x' = blocks (sd_sent a)) as Hset.
  { intros Hu Hb. destruct Hm as [| | ? ? ? [-> | ->] | | call x' H1 H2 H3 | ? st call x' H1 H2 H3 H4 H5 | call x' H1 (_ & _ & H2 & _) H3]; try done; [by destruct Hne | | ].
    - unfold busy_inv in K5. fold x in K5. rewrite <- H3, Hb, Hone in K5. done.
    - destruct Hph as (pre & Es & En & El). lia. }
  assert (ct_base x <= ct_base x' /\ ct_next_seq x' <= blocks (sd_sent a) /\ phase_inv (sd_sent a) x' ph') as (Hbase & Hnext & Hp').
  { destruct Hm as [| | ? ? ? [-> | ->] | | call x' H1 H2 H3 | ? st call x' H1 H2 H3 H4 H5 | call x' H1 (_ & H2 & H4 & _) H3]; try done; [| split_and!; done || lia ..].
    destruct Hph as (pre & Es & En & Hc & El). destruct (blocks_one (sc_data call)) as [Ed _]. assert (blocks (sd_sent a) = blocks pre + nblocks (lenZ (sc_data call))) as Eb by (by rewrite Es, blocks_app, Ed).
    split; [lia |]. split; [lia |]. subst call'. destruct (Z.eqb_spec (sc_i call + 1) (nblocks (lenZ (sc_data call)))); exists pre; cbn [sc_data sc_i sc_last_seq]; split_and!; done || lia. }
  split; rewrite ?E2, ?E3; fold x'; try done.
  - intros pre m E. specialize (K4 pre m E). lia.
  - by apply Hphases.
  - intros Hb Hu. apply Hset; [| done]. apply (proj1 (Forall_lookup _ _) Hu k). apply list_lookup_insert_eq. by eapply lookup_lt_Some.
Qed.

(** ** One side of a connection, seen from the other *)

Notation session a := (fc_session (sd_conn a)).

Record half (a b : Side) (acc_a acc_b : gset Z) : Prop := {
  hf_wf : wf_conn_session (session a);
  hf_pair : paired (session b) (session a);
  hf_conn : conn_inv (own_of (sd_sent a)) (fun q => q ∈ acc_b) (session a) (asm_inv (sd_sent b) (sd_got a)) (sd_conn a) acc_a;
  hf_calls : calls_inv a;
}.

(** What the other side sees of a step: more blocks acknowledged, maybe a new message. *)
Lemma half_other a a' b acc_a acc_a' acc_b more :
  half b a acc_b acc_a -> acc_a ⊆ acc_a' -> session a' = session a -> sd_sent a' = sd_sent a ++ more ->
  (more <> [] -> exists m, more = [m] /\ forall q, 0 <= q < blocks (sd_sent a) -> q ∈ acc_b) -> half b a' acc_b acc_a'.
Proof.
  intros [H1 H2 H3 H4] Ha Es Em Hmore. split; try done; [by rewrite Es |]. eapply conn_inv_mono; [done | | | exact H3]; [intros q Hq; by apply Ha |].
  rewrite Em. destruct more as [| m more]; [by rewrite app_nil_r |]. intros HA. destruct (Hmore ltac:(done)) as (m' & [= -> ->] & Hall). apply asm_inv_begin; [done | done |].
  cbn. apply (yi_rx _ _ (ci_rx _ _ _ _ _ _ H3)).
Qed.

(** The rules for the events of a side: datagrams from [inbound] or forged, and no new
    message after a failed one (if [careful]). *)
Definition event_ok (careful : bool) (a : Side) (inbound : list bytes) (ev : SideEvent) : Prop :=
  match ev with
  | EvPump batch _ => Forall (fun i => Forall is_u8 (in_dg i) /\ (in_dg i ∈ inbound \/ forged (session a) (in_dg i))) batch
  | EvSend i _ _ => forall data, sd_calls a !! i = Some (SendBusy data) -> blocks (sd_sent a ++ [data]) < 2 ^ 63 /\ (careful = true -> Forall unfailed (sd_calls a))
  | _ => True
  end.

Definition stepped (a a' b : Side) (acc_a acc_b : gset Z) (out : list datagram) : Prop :=
  exists acc_a' more, half a' b acc_a' acc_b /\ half b a' acc_b acc_a' /\ acc_a ⊆ acc_a' /\ session a' = session a /\ sd_sent a' = sd_sent a ++ more /\
    Forall (sent_by (own_of (sd_sent a')) (session a) acc_a') (snd <$> out).

Lemma half_own a b acc_a acc_b q p m : half a b acc_a acc_b -> own_of (sd_sent a) q p m -> is_u64 q /\ lenZ p <= kBlockSize /\ is_u64 (tm_offset m) /\ is_u8 (tm_flags m).
Proof. intros H. apply own_of_wf; apply H. Qed.

Lemma step_pump a b acc_a acc_b batch e :
  half a b acc_a acc_b -> half b a acc_b acc_a -> Forall (fun i => may_arrive (sd_sent b) (session a) (session b) acc_b (in_dg i)) batch ->
  returns (side_step a (EvPump batch e)) (fun '(a', out) => stepped a a' b acc_a acc_b out).
Proof.
  intros H Hb Hl. pose proof H as [H1 H2 H3 H4]. cbn [side_step].
  destruct (pump_pass_spec (own_of (sd_sent a)) (fun q => q ∈ acc_b) (fun q p m => half_own a b acc_a acc_b q p m H) (session a) H1
    (may_arrive (sd_sent b) (session a) (session b) acc_b) (asm_inv (sd_sent b) (sd_got a))) with (c := sd_conn a) (acc := acc_a) (batch := batch) (e := e) as ([c' out] & -> & acc' & V); try done.
  - by intros dg [Hdg _].
  - intros dg x q [_ [[_ Hd] | [Hd _]]] Ea Hq; [by apply (Hd x) | by apply Hd in Ea].
  - intros acc r I [Hr _]. pose proof (ki_max _ (hf_calls _ _ _ _ Hb)). destruct (Z.lt_ge_cases (rs_base_seq_no (cr_rx r)) (2 ^ 63)) as [| Hge]; [lia |].
    assert (2 ^ 63 - 1 ∈ acc) as Hin by (apply (rr_below _ _ _ (rc_ring _ _ (proj1 (yi_rx _ _ I)))); lia). apply Hr in Hin. lia.
  - intros r r' acc acc' dg Hdg I _ Ha T. eapply asm_inv_taken; [apply Hb | apply Hb | exact H2 | exact Hdg | exact I | exact Ha | exact T].
  - cbn [res_bind]. apply returns_ok. destruct V as [V1 V2 V3 V4 V5 V6 V7]. pose proof (ci_session _ _ _ _ _ _ V1) as Es. exists acc', []. cbn [sd_conn sd_sent]. rewrite app_nil_r.
    pose proof (xi_bounds _ _ _ (ci_tx _ _ _ _ _ _ V1)) as (Hx & _).
    split; [| split_and!; try done]; [| eapply (half_other a _ b acc_a acc' acc_b []); try done; cbn; by rewrite app_nil_r].
    split; cbn [sd_conn sd_sent sd_got]; rewrite ?Es; try done. destruct H4 as [K1 K2 K3 K4 K5 K6 K7]. split; cbn [sd_conn sd_sent sd_calls]; try done.
    + lia.
    + intros pre m E. specialize (K4 pre m E). lia.
    + unfold busy_inv. cbn. by rewrite V5.
    + eapply Forall_impl; [exact K6 |]. intros ph. by apply phase_inv_next.
    + rewrite V5. intros Hbusy Hu. specialize (K7 Hbusy Hu). lia.
Qed.

(** Steps that leave the sending half, and so the calls, alone. *)
Lemma step_quiet a a' b acc_a acc_b :
  half a b acc_a acc_b -> half b a acc_b acc_a -> session a' = session a -> fc_tx (sd_conn a') = fc_tx (sd_conn a) -> sd_sent a' = sd_sent a -> sd_calls a' = sd_calls a ->
  conn_rx_inv (fc_rx (sd_conn a')) acc_a -> asm_inv (sd_sent b) (sd_got a') acc_a (asm_view (fc_rx (sd_conn a'))) -> stepped a a' b acc_a acc_b [].
Proof.
  intros H Hb E1 E2 E3 E4 F1 F2. pose proof H as [H1 H2 [C1 C2 C3 C4] [K1 K2 K3 K4 K5 K6 K7]]. exists acc_a, []. rewrite app_nil_r.
  split; [| split_and!; try done; eapply (half_other a _ b acc_a acc_a acc_b []); try done; by rewrite app_nil_r].
  split; rewrite ?E1; try done; [split; rewrite ?E2, ?E3; done |]. split; rewrite ?E2, ?E3, ?E4; try done. unfold busy_inv. by rewrite E2, E4.
Qed.

Lemma step_recv a b acc_a acc_b c' r :
  half a b acc_a acc_b -> half b a acc_b acc_a -> recv_effect (sd_conn a) c' r -> stepped a (mkSide c' (sd_calls a) (sd_sent a) (sd_got a ++ received r)) b acc_a acc_b [].
Proof.
  intros H Hb He. pose proof H as [H1 H2 [C1 C2 C3 C4] H4]. destruct He as [[-> ->] | (m & rest & Ei & -> & ->)].
  - apply step_quiet; try done. cbn. by rewrite app_nil_r.
  - apply step_quiet; try done; cbn [sd_conn sd_got]; [by apply pop_inbox_inv |]. by eapply asm_inv_pop.
Qed.

Lemma half_call_ok a b acc_a acc_b ph : half a b acc_a acc_b -> phase_inv (sd_sent a) (fc_tx (sd_conn a)) ph -> call_ok (own_of (sd_sent a)) (sd_conn a) ph.
Proof.
  intros H Hph. destruct ph as [| | call | | |]; try done. destruct Hph as (pre & Es & En & Hi & _). pose proof (ki_max _ (hf_calls _ _ _ _ H)) as Hmax.
  pose proof (ki_next _ (hf_calls _ _ _ _ H)). split; [done |]. split; [lia |]. exists (sc_data call), (sc_i call). split; [| done]. exists pre, []. by rewrite Es.
Qed.

Lemma step_send a b acc_a acc_b i timed_out k :
  half a b acc_a acc_b -> half b a acc_b acc_a -> event_ok true a [] (EvSend i timed_out k) ->
  returns (side_step a (EvSend i timed_out k)) (fun '(a', out) => stepped a a' b acc_a acc_b out).
Proof.
  intros H Hb Hev. pose proof H as [H1 H2 H3 H4]. cbn [side_step]. destruct (sd_calls a !! i) as [ph |] eqn:Ei; cycle 1.
  { apply returns_ok. apply step_quiet; try done; apply H3. }
  pose proof (proj1 (Forall_lookup _ _) (ki_phases _ H4) i ph Ei) as Hph.
  destruct (fuse_send_spec (own_of (sd_sent a)) (fun q => q ∈ acc_b) (fun q p m => half_own a b acc_a acc_b q p m H) (session a) H1 (asm_inv (sd_sent b) (sd_got a))
    (sd_conn a) acc_a ph timed_out k H3 (half_call_ok a b acc_a acc_b ph H Hph)) as ([[c' out] ph'] & -> & I' & Erx & Efl & Ho & Hm).
  cbn [res_bind]. apply returns_ok. pose proof (ci_session _ _ _ _ _ _ I') as Es.
  assert (conn_tx_inv (own_of (sd_sent a)) (fun _ => True) (fc_tx (sd_conn a))) as Itx by (apply (conn_inv_mono _ (own_of (sd_sent a)) _ (fun _ => True) _ _ (fun _ _ => True) _ _ ltac:(done) ltac:(done) ltac:(done) H3)).
  assert (forall sent, sent = sd_sent a -> calls_inv (mkSide c' (<[i := ph']> (sd_calls a)) (sd_sent a) (sd_got a)) ->
    stepped a (mkSide c' (<[i := ph']> (sd_calls a)) sent (sd_got a)) b acc_a acc_b out) as Hsame.
  { intros sent -> K. exists acc_a, []. cbn [sd_conn sd_sent]. rewrite app_nil_r. split; [split; cbn [sd_conn sd_sent sd_got]; rewrite ?Es; done |].
    split_and!; try done. eapply (half_other a _ b acc_a acc_a acc_b []); try done. cbn. by rewrite app_nil_r. }
  inversion Hm as [ph0 E1 E2 E3 | data E1 E2 E3 | ph0 data st Hd E1 E2 E3 | data x' Hf Hsb Ht E1 E2 E3 | call x' N1 N2 N3 call' E1 E2 E3 | ph0 st call x' Hor Hst N1 N2 N3 E1 E2 E3 | call x' N1 N2 N3 E1 E2 E3]; subst.
  - apply Hsame; [by destruct ph' |]. apply (calls_inv_idle a _ i ph' ph' H4 Ei); try done. apply moved_wait.
  - apply Hsame; [done |]. apply (calls_inv_idle a _ i _ (SendBusy data) H4 Ei); try done. apply moved_enter.
  - assert (call_moved (fc_tx (sd_conn a)) ph (fc_tx (sd_conn a)) (SendRefused st)) as Hr by (by apply (moved_refused _ _ data)).
    apply Hsame; [by destruct Hd as [-> | ->] |]. apply (calls_inv_idle a _ i _ _ H4 Ei Hr); try done. by destruct Hd as [-> | ->].
  - destruct (Hev data Ei) as [Hmax Hu]. specialize (Hu eq_refl). set (a' := mkSide c' _ _ _).
    destruct (calls_inv_start a a' i data _ H4 Itx Ei Hf eq_refl Hsb Ht Hu Hmax eq_refl eq_refl) as [K' Eb]. exists acc_a, [data]. cbn [a' sd_conn sd_sent].
    split; [split; cbn [a' sd_conn sd_sent sd_got]; rewrite ?Es; try done;
      eapply (conn_inv_mono (own_of (sd_sent a)) _ (fun q => q ∈ acc_b) _ _ (asm_inv (sd_sent b) (sd_got a)));
        [intros; by apply own_of_mono | done | done | exact I'] |].
    split_and!; try done.
    + eapply (half_other a _ b acc_a acc_a acc_b [data]); try done. intros _. exists data. split; [done |]. intros q Hq. apply (xi_conf _ _ _ (ci_tx _ _ _ _ _ _ H3)). lia.
    + eapply Forall_impl; [exact Ho |]. intros dg. apply sent_by_own. intros. by apply own_of_mono.
  - apply Hsame; [done |]. eapply (calls_inv_move a _ i _ _ H4 Itx Ei); try done. left. intros E. cbn in E. rewrite E in N1. lia.
  - apply Hsame; [by destruct Hor as [-> | ->] |]. eapply (calls_inv_move a _ i _ _ H4 Itx Ei); try done; [by destruct Hor as [-> | ->] |]. right. by destruct Hor as [-> | ->].
  - apply Hsame; [done |]. eapply (calls_inv_move a _ i _ _ H4 Itx Ei); try done. by right.
Qed.

Lemma step_call a b acc_a acc_b data :
  half a b acc_a acc_b -> half b a acc_b acc_a -> returns (side_step a (EvCall data)) (fun '(a', out) => stepped a a' b acc_a acc_b out).
Proof.
  intros H Hb. pose proof H as [H1 H2 H3 H4]. cbn [side_step]. apply returns_ok. destruct (send_args (Some data) (lenZ data)) eqn:Ea.
  { apply step_quiet; try done; apply H3. }
  exists acc_a, []. cbn [sd_sent sd_conn]. rewrite app_nil_r. split; [| split_and!; try done; eapply (half_other a _ b acc_a acc_a acc_b []); try done; cbn; by rewrite app_nil_r].
  split; try done. destruct H4 as [K1 K2 K3 K4 K5 K6 K7]. split; try done; cbn [sd_conn sd_calls sd_sent].
  - by apply busy_inv_enter.
  - apply Forall_app. split; [done |]. constructor; [| done]. cbn. unfold send_args in Ea. unfold fits. cbn in Ea. repeat case_match; try done. lia.
  - intros Hf Hall. apply Forall_app in Hall as [Hall _]. by apply K7.
Qed.

Lemma step_any a b acc_a acc_b inbound ev :
  half a b acc_a acc_b -> half b a acc_b acc_a -> Forall (sent_by (own_of (sd_sent b)) (session b) acc_b) inbound -> event_ok true a inbound ev ->
  returns (side_step a ev) (fun '(a', out) => stepped a a' b acc_a acc_b out).
Proof.
  intros H Hb Hin Hev. destruct ev as [batch e | data | i timed_out k | cap timed_out | timed_out |].
  - apply step_pump; try done. eapply Forall_impl; [exact Hev |]. intros i [Hi Hor]. split; [done |]. destruct Hor as [Hor | Hor]; [left | by right].
    by apply (proj1 (list.Forall_forall _ _) Hin).
  - by apply step_call.
  - by apply step_send.
  - cbn [side_step]. destruct (fuse_recv _ _ _) as [c' r] eqn:Er. apply returns_ok. by eapply step_recv, fuse_recv_effect.
  - cbn [side_step]. destruct (fuse_recv_alloc _ _ _) as [c' r] eqn:Er. apply returns_ok. by eapply step_recv, fuse_recv_alloc_effect.
  - cbn [side_step fuse_close]. apply returns_ok. set (a' := mkSide _ _ _ _). destruct (step_quiet a a' b acc_a acc_b H Hb) as (acc' & more & S1 & S2 & S3 & S4 & S5 & _); try done; [apply H .. |].
    exists acc', more. split_and!; try done. rewrite to_peer_dgs. apply Forall_replicate, close_sent_by.
Qed.

(** ** The network *)

(** Both sides, and every datagram sent so far in either direction: a datagram may
    arrive never, late, or any number of times. *)
Record SdkNet := mkSdkNet {
  nt_a : Side;
  nt_b : Side;
  nt_ab : list bytes;
  nt_ba : list bytes;
}.

Inductive net_step (careful : bool) : SdkNet -> SdkNet -> Prop :=
| net_step_a n ev a out :
    event_ok careful (nt_a n) (nt_ba n) ev -> side_step (nt_a n) ev = Ok (a, out) -> net_step careful n (mkSdkNet a (nt_b n) (nt_ab n ++ out.*2) (nt_ba n))
| net_step_b n ev b out :
    event_ok careful (nt_b n) (nt_ab n) ev -> side_step (nt_b n) ev = Ok (b, out) -> net_step careful n (mkSdkNet (nt_a n) b (nt_ab n) (nt_ba n ++ out.*2)).

Record net_inv (n : SdkNet) (acc_a acc_b : gset Z) : Prop := {
  ni_a : half (nt_a n) (nt_b n) acc_a acc_b;
  ni_b : half (nt_b n) (nt_a n) acc_b acc_a;
  ni_ab : Forall (sent_by (own_of (sd_sent (nt_a n))) (session (nt_a n)) acc_a) (nt_ab n);
  ni_ba : Forall (sent_by (own_of (sd_sent (nt_b n))) (session (nt_b n)) acc_b) (nt_ba n);
}.

(** Datagrams in flight after a step of their sender. *)
Lemma stepped_flight a a' acc_a acc_a' (out : list datagram) flight :
  Forall (sent_by (own_of (sd_sent a)) (session a) acc_a) flight -> acc_a ⊆ acc_a' -> session a' = session a -> (exists more, sd_sent a' = sd_sent a ++ more) ->
  Forall (sent_by (own_of (sd_sent a')) (session a) acc_a') (snd <$> out) -> Forall (sent_by (own_of (sd_sent a')) (session a') acc_a') (flight ++ out.*2).
Proof.
  intros Hf Ha Es [more Em] Ho. rewrite Es. apply Forall_app. split; [| done]. eapply Forall_impl; [exact Hf |]. intros dg Hdg. eapply sent_by_mono; [exact Ha |].
  eapply sent_by_own; [| exact Hdg]. intros. rewrite Em. by apply own_of_mono.
Qed.

Lemma net_inv_step n n' acc_a acc_b : net_inv n acc_a acc_b -> net_step true n n' -> exists acc_a' acc_b', net_inv n' acc_a' acc_b'.
Proof.
  intros [N1 N2 N3 N4] Hst. destruct Hst as [n ev a out Hev E | n ev b out Hev E].
  - destruct (step_any (nt_a n) (nt_b n) acc_a acc_b (nt_ba n) ev N1 N2 N4 Hev) as ([a' out'] & E' & acc' & more & S1 & S2 & S3 & S4 & S5 & S6). rewrite E in E'. injection E' as <- <-.
    exists acc', acc_b. split; try done. cbn. eapply (stepped_flight (nt_a n) a); try done. by exists more.
  - destruct (step_any (nt_b n) (nt_a n) acc_b acc_a (nt_ab n) ev N2 N1 N3 Hev) as ([b' out'] & E' & acc' & more & S1 & S2 & S3 & S4 & S5 & S6). rewrite E in E'. injection E' as <- <-.
    exists acc_a, acc'. split; try done. cbn. eapply (stepped_flight (nt_b n) b); try done. by exists more.
Qed.

Lemma net_inv_reach n n' : rtc (net_step true) n n' -> (exists acc_a acc_b, net_inv n acc_a acc_b) -> exists acc_a acc_b, net_inv n' acc_a acc_b.
Proof. induction 1 as [| n1 n2 n3 H1 _ IH]; [done |]. intros (acc_a & acc_b & I). apply IH. by eapply net_inv_step. Qed.

(** ** What the receiving application is given *)

Lemma half_prefix a b acc_a acc_b : half b a acc_b acc_a -> given b `prefix_of` sd_sent a.
Proof. intros [_ _ [_ _ _ [_ [(-> & _) | (cur & -> & _)]]] _]; [done | by exists [cur]]. Qed.

(** Every block of every message has been acknowledged: then every message is there. *)
Lemma half_settled a b acc_a acc_b : half a b acc_a acc_b -> half b a acc_b acc_a -> blocks (sd_sent a) <= ct_base (fc_tx (sd_conn a)) -> given b = sd_sent a.
Proof.
  intros [_ _ A _] [_ _ Hb _] Hle. destruct (ci_asm _ _ _ _ _ _ Hb) as [_ [(-> & _) | (cur & Es & (Hr & _))]]; [done |]. exfalso.
  apply (proj2 (yi_rx _ _ (ci_rx _ _ _ _ _ _ Hb))). apply (xi_conf _ _ _ (ci_tx _ _ _ _ _ _ A)). cbn in Hr. rewrite Es, blocks_app in Hle.
  destruct (blocks_one cur) as [Ec _]. pose proof (blocks_nonneg (sd_got b ++ cr_inbox (fc_rx (sd_conn b)))). cbn [asm_view av_inbox] in Hle. lia.
Qed.

Lemma send_ok_settled a b acc_a acc_b i call timed_out k a' out :
  half a b acc_a acc_b -> sd_calls a !! i = Some (SendDelivered call) -> side_step a (EvSend i timed_out k) = Ok (a', out) -> sd_calls a' !! i = Some (SendDone FUSE_OK) ->
  blocks (sd_sent a) <= ct_base (fc_tx (sd_conn a)) /\ exists pre, sd_sent a = pre ++ [sc_data call].
Proof.
  intros H Ei E Ea. pose proof H as [H1 H2 H3 H4]. pose proof (proj1 (Forall_lookup _ _) (ki_phases _ H4) i _ Ei) as Hph.
  destruct (fuse_send_spec (own_of (sd_sent a)) (fun q => q ∈ acc_b) (fun q p m => half_own a b acc_a acc_b q p m H) (session a) H1 (asm_inv (sd_sent b) (sd_got a))
    (sd_conn a) acc_a _ timed_out k H3 (half_call_ok a b acc_a acc_b _ H Hph)) as ([[c' out'] ph'] & E' & _ & _ & _ & _ & Hm).
  cbn [side_step] in E. rewrite Ei, E' in E. cbn [res_bind] in E. injection E as <- <-. cbn [sd_calls] in Ea. rewrite list_lookup_insert_eq in Ea by (by eapply lookup_lt_Some).
  injection Ea as ->. destruct Hph as (pre & Es & _ & El). split; [| by exists pre]. inversion Hm as [| | | | | ? ? ? ? [Hc | Hc] Hne | ? ? Hlt]; subst; try done. lia.
Qed.

Definition new_net (s s' : ConnSession) (pa pb : PeerAddr) (ta tb : Z) : SdkNet := mkSdkNet (new_side s pa ta) (new_side s' pb tb) [] [].

Lemma new_half s s' pa pb ta tb : wf_conn_session s -> paired s' s -> half (new_side s pa ta) (new_side s' pb tb) ∅ ∅.
Proof.
  intros Hs Hp. split; try done.
  - apply start_conn_inv. split; [intros q Hq; set_solver | by left].
  - split; try done; cbn; try lia. by intros [] m.
Qed.

Lemma new_net_inv s s' pa pb ta tb : wf_conn_session s -> wf_conn_session s' -> paired s s' -> paired s' s -> net_inv (new_net s s' pa pb ta tb) ∅ ∅.
Proof. intros. split; [by apply new_half .. | constructor | constructor]. Qed.

(** ** Executable runs *)

(** A move of the network: a side takes an event of its own, or its pump receives
    datagrams that the other side has sent, by their position. *)
Inductive NetMove :=
| Own (of_a : bool) (ev : SideEvent)
| Deliver (to_a : bool) (batch : list (nat * DgEnv)) (e : PumpEnv).

Definition unfailed_b (ph : SendPhase) : bool := match ph with SendDone FUSE_OK => true | SendDone _ => false | _ => true end.

(** The rules of [event_ok], for events that bring no datagrams. *)
Definition own_ok (careful : bool) (a : Side) (ev : SideEvent) : bool :=
  match ev with
  | EvPump batch _ => bool_decide (batch = [])
  | EvSend i _ _ =>
      match sd_calls a !! i with
      | Some (SendBusy data) => (blocks (sd_sent a ++ [data]) <? 2 ^ 63) && (negb careful || forallb unfailed_b (sd_calls a))
      | _ => true
      end
  | _ => true
  end.

Definition fetch (flight : list bytes) (from : PeerAddr) (batch : list (nat * DgEnv)) : list Incoming :=
  omap (fun '(i, e) => match flight !! i with Some dg => if forallb (fun x => (0 <=? x) && (x <? 256)) dg then Some (mkIncoming dg from e) else None | None => None end) batch.

Definition move_event (n : SdkNet) (m : NetMove) : bool * SideEvent :=
  match m with
  | Own of_a ev => (of_a, ev)
  | Deliver to_a batch e => (to_a, if to_a then EvPump (fetch (nt_ba n) (fc_peer (sd_conn (nt_a n))) batch) e else EvPump (fetch (nt_ab n) (fc_peer (sd_conn (nt_b n))) batch) e)
  end.

Definition net_move (careful : bool) (n : SdkNet) (m : NetMove) : res SdkNet :=
  let '(of_a, ev) := move_event n m in
  let sd := if of_a then nt_a n else nt_b n in
  if negb (match m with Own _ ev => own_ok careful sd ev | Deliver _ _ _ => true end) then Reject
  else res_bind (side_step sd ev) (fun '(sd, out) =>
       Ok (if of_a then mkSdkNet sd (nt_b n) (nt_ab n ++ out.*2) (nt_ba n) else mkSdkNet (nt_a n) sd (nt_ab n) (nt_ba n ++ out.*2))).

Fixpoint net_run (careful : bool) (n : SdkNet) (ms : list NetMove) : res SdkNet :=
  match ms with [] => Ok n | m :: ms => res_bind (net_move careful n m) (fun n => net_run careful n ms) end.

Lemma own_ok_event careful a inbound ev : own_ok careful a ev = true -> event_ok careful a inbound ev.
Proof.
  destruct ev as [batch e | data | i timed_out k | cap timed_out | timed_out |]; cbn; try done; [intros ->%bool_decide_eq_true; constructor |].
  intros Ho data Ei. rewrite Ei in Ho. apply andb_true_iff in Ho as [Hb Hu]. split; [lia |]. intros ->. cbn in Hu. apply list.Forall_forall. intros ph Hin.
  rewrite forallb_forall in Hu. specialize (Hu ph (proj1 (list_elem_of_In _ _) Hin)). by destruct ph as [| | | | [] |].
Qed.

Lemma fetch_ok s flight from batch : Forall (fun i => Forall is_u8 (in_dg i) /\ (in_dg i ∈ flight \/ forged s (in_dg i))) (fetch flight from batch).
Proof.
  apply list.Forall_forall. intros x ([i e] & _ & Hx)%list_elem_of_omap. destruct (flight !! i) as [dg |] eqn:Ei; [| done]. destruct (forallb _ dg) eqn:Eb; [| done].
  injection Hx as <-. cbn. split; [| left; by eapply list_elem_of_lookup_2]. apply list.Forall_forall. intros y Hy. rewrite forallb_forall in Eb.
  specialize (Eb y (proj1 (list_elem_of_In _ _) Hy)). unfold is_u8. lia.
Qed.

Lemma net_move_step careful n m n' : net_move careful n m = Ok n' -> net_step careful n n'.
Proof.
  unfold net_move. destruct m as [[] ev | [] batch e]; cbn [move_event negb]; try destruct (own_ok _ _ _) eqn:Eo; cbn [negb]; try done;
    (destruct (side_step _ _) as [| | [sd out]] eqn:Es; [done .. |]; cbn [res_bind]; intros [= <-]; (eapply net_step_a || eapply net_step_b); [| exact Es]);
    try (by apply own_ok_event); apply fetch_ok.
Qed.

Lemma net_run_reach careful ms : forall n n', net_run careful n ms = Ok n' -> rtc (net_step careful) n n'.
Proof.
  induction ms as [| m ms IH]; intros n n' E; cbn in E; [injection E as ->; apply rtc_refl |]. destruct (net_move careful n m) as [| | n1] eqn:Em; try done.
  eapply rtc_l; [by eapply net_move_step | by apply IH].
Qed.

End Link.

(** ** Examples *)

Module SdkExample.
#[local] Existing Instance toy_backend.

Definition peer_a : PeerAddr := mkPeerAddr AF_INET 4433 [10; 0; 0; 1].
Definition peer_b : PeerAddr := mkPeerAddr AF_INET 4434 [10; 0; 0; 2].
Definition key (x : Z) : LaneCipher := mkLaneCipher (Some (replicate 32 x)).
Definition sess_a : ConnSession := mkConnSession 0 1 true (key 1) (key 2) 1000.
Definition sess_b : ConnSession := mkConnSession 1 0 true (key 2) (key 1) 1000.
Definition net0 : SdkNet := new_net sess_a sess_b peer_b peer_a 1000 1000.

Definition dg_at (t : Z) : DgEnv := mkDgEnv t t (fun _ => (t, true)).
Definition pump_at (t : Z) : PumpEnv := mkPumpEnv t t (t, true).
Definition turn (i : nat) (t : Z) : NetMove := Own true (EvSend i false (mkSendClock t t t)).

(** A message of two blocks: the second arrives first, and the first twice. *)
Definition message : bytes := replicate (Z.to_nat kBlockSize) 7 ++ [8; 9].
Definition delivered : list NetMove :=
  [Own true (EvCall message); turn 0 2000; turn 0 2000; turn 0 2000; turn 0 3000;
   Deliver false [(1%nat, dg_at 4000); (0%nat, dg_at 5000); (0%nat, dg_at 5000)] (pump_at 6000);
   Deliver true [(0%nat, dg_at 7000)] (pump_at 8000)].

(** A message of one block times out; the next begins, its first block overtakes the old
    one, and both messages are completed. *)
Definition late : bytes := [1; 2; 3].
Definition mixed : list NetMove :=
  [Own true (EvCall late); turn 0 2000; turn 0 2000; turn 0 2000; Own true (EvSend 0 true (mkSendClock 3000 3000 3000));
   Own true (EvCall message); turn 1 4000; turn 1 4000; turn 1 4000; turn 1 4000;
   Deliver false [(1%nat, dg_at 5000); (0%nat, dg_at 5000); (2%nat, dg_at 5000)] (pump_at 6000);
   Deliver true [(0%nat, dg_at 7000)] (pump_at 8000); turn 1 9000].

(** What the receiver is given of [mixed]: [late], and [message] with its first block lost. *)
Definition damaged : bytes := replicate (Z.to_nat kBlockSize) 0 ++ [8; 9].

Definition finished (sd : Side) : list (option fuse_status) := (fun ph => match ph with SendDone st => Some st | _ => None end) <$> sd_calls sd.

Lemma sessions_ok : wf_conn_session sess_a /\ wf_conn_session sess_b /\ paired sess_a sess_b /\ paired sess_b sess_a.
Proof. split_and!; try done; split; unfold is_u16; cbn; lia. Qed.

(** A run that a computation confirms reaches its state. *)
Lemma run_reaches careful ms (P : SdkNet -> Prop) `{!forall n, Decision (P n)} :
  match net_run careful net0 ms with Ok n => bool_decide (P n) | _ => false end = true -> exists n, rtc (net_step careful) net0 n /\ P n.
Proof.
  destruct (net_run careful net0 ms) as [| | n] eqn:E; try done. intros HP%bool_decide_eq_true. exists n. split; [by eapply net_run_reach | done].
Qed.

End SdkExample.



(** C36: Without that care a message is damaged although its [fuse_send] returns FUSE_OK.
    A [fuse_send] of one block times out; the connection stays usable and the next message
    starts at offset 0 of the same reassembly buffer.  When the new message's first block
    overtakes the old block, completing the old message discards it, and the receiver is
    given a message that nobody sent, zeros in place of the first block. *)
Theorem send_after_timeout_damages :
  exists n, rtc (net_step (B := toy_backend) false) SdkExample.net0 n /\
    SdkExample.finished (nt_a n) = [Some FUSE_ERR_TIMEOUT; Some FUSE_OK] /\ sd_sent (nt_a n) = [SdkExample.late; SdkExample.message] /\
    given (nt_b n) = [SdkExample.late; SdkExample.damaged] /\ SdkExample.damaged <> SdkExample.message.
Proof.
  destruct (SdkExample.run_reaches false SdkExample.mixed (fun n => SdkExample.finished (nt_a n) = [Some FUSE_ERR_TIMEOUT; Some FUSE_OK] /\
    sd_sent (nt_a n) = [SdkExample.late; SdkExample.message] /\ given (nt_b n) = [SdkExample.late; SdkExample.damaged])) as (n & R & E1 & E2 & E3); [vm_compute; reflexivity |].
  exists n. by split_and!.
Qed.

(** A retransmission is sealed again, under the nonce of the first transmission but with
    other associated data: [build_aad] of this file covers the retransmission flag, which
    [build_aad] of transfer.cpp masks. *)
Theorem retransmission_reuses_nonce `{B : CryptoBackend} s key seq offset last data len :
  cs_encrypted s = true -> lc_key (cs_tx_cipher s) = Some key ->
  let flags := if (last : bool) then kFlagLastBlock else 0 in
  let again := u8 (Z.lor flags kFlagRetransmission) in
  let seal aad := gcm_encrypt key (build_nonce (cs_tx_lane s) seq) aad (take (Z.to_nat len) data) in
  let wire r := match r with Some (ct, tag) => Some (ct ++ tag, u16 (len + kAeadTagLen)) | None => None end in
  seal_body s seq offset flags data len = wire (seal (sdk_aad (cs_tx_lane s) seq offset flags)) /\
  seal_body s seq offset again data len = wire (seal (sdk_aad (cs_tx_lane s) seq offset again)) /\
  sdk_aad (cs_tx_lane s) seq offset flags <> sdk_aad (cs_tx_lane s) seq offset again /\
  build_aad (cs_tx_lane s) seq offset flags = build_aad (cs_tx_lane s) seq offset again.
Proof.
  intros He Hk flags again seal wire. unfold seal_body, cipher_seal. rewrite He, Hk. split_and!.
  - unfold wire, seal. by destruct (gcm_encrypt _ _ _ _) as [[ct tag] |].
  - unfold wire, seal. by destruct (gcm_encrypt _ _ _ _) as [[ct tag] |].
  - unfold sdk_aad. intros E. do 3 apply app_inv_head in E. by destruct last.
  - unfold build_aad. by destruct last.
Qed.

(** The Ack of one block of lane 0, as anybody can write it. *)
Definition bare_ack : bytes := match encode_ack (mkAck 0 1 (replicate (Z.to_nat kMaskWords) 0) 0 0 0) (replicate (Z.to_nat kMaxAuxDatagramSize) 0) with Ok (buf, n) => take (Z.to_nat n) buf | _ => [] end.

Definition stranger : PeerAddr := mkPeerAddr AF_INET 6666 [203; 0; 113; 9].

Definition forged_run : list SideEvent :=
  [EvCall [1; 2; 3]; EvSend 0 false (mkSendClock 1 1 1); EvSend 0 false (mkSendClock 1 1 1); EvSend 0 false (mkSendClock 1 1 1);
   EvPump [mkIncoming bare_ack stranger (SdkExample.dg_at 5)] (SdkExample.pump_at 6); EvSend 0 false (mkSendClock 7 7 7)].

(** An Ack from anywhere completes a [fuse_send] of an encrypted connection whose block has
    reached nobody, and moves the connection to where the Ack came from. *)
Theorem forged_ack_completes_send :
  exists sd out, side_run (B := toy_backend) (new_side SdkExample.sess_a SdkExample.peer_b 1000) forged_run = Ok (sd, out) /\
    SdkExample.finished sd = [Some FUSE_OK] /\ fc_peer (sd_conn sd) = stranger.
Proof.
  assert (match side_run (B := toy_backend) (new_side SdkExample.sess_a SdkExample.peer_b 1000) forged_run with
          | Ok (sd, _) => bool_decide (SdkExample.finished sd = [Some FUSE_OK] /\ fc_peer (sd_conn sd) = stranger) | _ => false end = true) as H by (vm_compute; reflexivity).
  destruct (side_run _ _) as [| | [sd out]]; [discriminate H | discriminate H |]. apply bool_decide_eq_true in H. by exists sd, out.
Qed.
