(* ===== verification/SdkEntry.v ===== *)
(** * How connections of the message API are made

    Models [fuse_listen], [fuse_accept] and [fuse_connect] of [src/src/proto/sdk.cpp]:
    the HELLO and HELLO-ACK datagrams, the listener's ring of recent handshakes, and both
    loops.  A turn of a loop is what one pass sees: the clock and the datagram that the
    socket hands over.  What the allocator, the socket calls and the random generator say
    is an argument. *)

From S2P Require Import Prelude Wire Control Block SessionCrypto Peer Returns SdkConn SdkInv SdkSystem SdkLink.

(** ** HELLO and HELLO-ACK *)

Definition kSessionSaltLen : Z := 16.
Definition kChallengeLen : Z := 8.
Definition kProofLen : Z := kChallengeLen + kAeadTagLen.

(** The arrays come with the lengths of their types. *)
Definition encode_hello (salt challenge : bytes) : bytes := [kProtocolVersion; MsgType.code MsgType.Hello] ++ salt ++ challenge.

Definition decode_hello (dg : bytes) : option (bytes * bytes) :=
  if negb (lenZ dg =? kOuterHeaderSize + kSessionSaltLen + kChallengeLen) then None
  else
    match dg with
    | b0 :: b1 :: rest =>
        if negb (b0 =? kProtocolVersion) || negb (b1 =? MsgType.code MsgType.Hello) then None
        else Some (slice rest 0 kSessionSaltLen, slice rest kSessionSaltLen kChallengeLen)
    | _ => None
    end.

Definition encode_hello_ack (server_salt proof : bytes) : bytes := [kProtocolVersion; MsgType.code MsgType.HelloAck] ++ server_salt ++ proof.

Definition decode_hello_ack (dg : bytes) : option (bytes * bytes) :=
  if negb (lenZ dg =? kOuterHeaderSize + kSessionSaltLen + kProofLen) then None
  else
    match dg with
    | b0 :: b1 :: rest =>
        if negb (b0 =? kProtocolVersion) || negb (b1 =? MsgType.code MsgType.HelloAck) then None
        else Some (slice rest 0 kSessionSaltLen, slice rest kSessionSaltLen kProofLen)
    | _ => None
    end.

(** ** Configuration *)

(** Strings without their terminator; [None] is a null pointer. *)
Record fuse_config := mkFuseConfig {
  fg_bind_address : option bytes;
  fg_host : option bytes;
  fg_port : Z;
  fg_pre_shared_key : option bytes;
  fg_timeout_ms : Z;
}.

(** "0.0.0.0" and "127.0.0.1" *)
Definition fuse_config_init : fuse_config :=
  mkFuseConfig (Some [48; 46; 48; 46; 48; 46; 48]) (Some [49; 50; 55; 46; 48; 46; 48; 46; 49]) 0 None kDefaultTimeoutMs.

Definition want_crypto (cfg : fuse_config) : bool := match fg_pre_shared_key cfg with Some (_ :: _) => true | _ => false end.
Definition key_of (cfg : fuse_config) : bytes := match fg_pre_shared_key cfg with Some k => k | None => [] end.
Definition timeout_or_default (ms : Z) : Z := if negb (ms =? 0) then ms else kDefaultTimeoutMs.

(** ** The listener *)

Record Seen := mkSeen { se_addr : PeerAddr; se_challenge : bytes; se_used : bool }.

Definition kRecent : Z := 16.

Record fuse_listener := mkListener {
  fl_psk : bytes;
  fl_timeout_ms : Z;
  fl_recent : list Seen;
  fl_recent_at : Z;
}.

Definition new_listener (psk : bytes) (timeout_ms : Z) : fuse_listener :=
  mkListener psk timeout_ms (replicate (Z.to_nat kRecent) (mkSeen no_peer (replicate (Z.to_nat kChallengeLen) 0) false)) 0.

(** [available] is [session_crypto_available]; [alloc_ok] and [open_ok] are the verdicts
    of [new] and of the socket. *)
Definition fuse_listen (cfg : option fuse_config) (available alloc_ok open_ok : bool) : fuse_status + fuse_listener :=
  match cfg with
  | None => inl FUSE_ERR_CONFIG
  | Some cfg =>
      if want_crypto cfg && negb available then inl FUSE_ERR_UNSUPPORTED
      else if negb alloc_ok then inl FUSE_ERR_INTERNAL
      else if negb open_ok then inl FUSE_ERR_SOCKET
      else inr (new_listener (if want_crypto cfg then key_of cfg else []) (timeout_or_default (fg_timeout_ms cfg)))
  end.

Definition seen_is (from : PeerAddr) (challenge : bytes) (s : Seen) : bool :=
  se_used s && peer_eqb (se_addr s) from && bool_decide (se_challenge s = challenge).

Definition is_duplicate (l : fuse_listener) (from : PeerAddr) (challenge : bytes) : fuse_listener * bool :=
  if existsb (seen_is from challenge) (fl_recent l) then (l, true)
  else (mkListener (fl_psk l) (fl_timeout_ms l) (setZ (fl_recent l) (fl_recent_at l) (mkSeen from challenge true)) ((fl_recent_at l + 1) mod kRecent), false).

Section Entry.
Context `{B : CryptoBackend}.

(** Both ciphers of a connection from one key; [None] is FUSE_ERR_UNSUPPORTED. *)
Definition conn_ciphers (psk salt server_salt : bytes) : option (LaneCipher * LaneCipher) :=
  match derive_session_key psk (salt ++ server_salt) with
  | None => None
  | Some key =>
      let '(tx, ok1) := cipher_init new_cipher key in
      if negb ok1 then None
      else let '(rx, ok2) := cipher_init new_cipher key in if negb ok2 then None else Some (tx, rx)
  end.

(** What the calls of an accepted HELLO say. *)
Record AcceptEnv := mkAcceptEnv { ae_alloc_ok : bool; ae_open_ok : bool; ae_random : option bytes; ae_now : Z }.

(** The rest of a pass of [fuse_accept] once a HELLO is new. *)
Definition answer_hello (l : fuse_listener) (from : PeerAddr) (salt challenge : bytes) (e : AcceptEnv) : fuse_status + (fuse_conn * list datagram) :=
  let start encrypted tx rx server_salt proof :=
    inr (start_conn (mkConnSession kLaneServerToClient kLaneClientToServer encrypted tx rx (timeout_or_default (fl_timeout_ms l))) from (ae_now e),
         [(from, encode_hello_ack server_salt proof)]) in
  if negb (ae_alloc_ok e) then inl FUSE_ERR_INTERNAL
  else if negb (ae_open_ok e) then inl FUSE_ERR_SOCKET
  else
    match fl_psk l with
    | [] => start false new_cipher new_cipher (replicate (Z.to_nat kSessionSaltLen) 0) (replicate (Z.to_nat kProofLen) 0)
    | psk =>
        match ae_random e with
        | None => inl FUSE_ERR_INTERNAL
        | Some server_salt =>
            match conn_ciphers psk salt server_salt with
            | None => inl FUSE_ERR_UNSUPPORTED
            | Some (tx, rx) =>
                match cipher_seal tx 65535 0 [] challenge with
                | None => inl FUSE_ERR_INTERNAL
                | Some proof => start true tx rx server_salt proof
                end
            end
        end
    end.

(** ** fuse_accept *)

(** The clock at the head of the loop and what [recv_from] returns. *)
Record AcceptTurn := mkAcceptTurn { at_now : Z; at_recv : option (bytes * PeerAddr) }.

(** [None]: the call has not returned within these turns. *)
Fixpoint accept_loop (l : fuse_listener) (timeout_ms deadline : Z) (turns : list AcceptTurn) (e : AcceptEnv) :
    fuse_listener * option (fuse_status + (fuse_conn * list datagram)) :=
  match turns with
  | [] => (l, None)
  | t :: turns =>
      let one_shot := timeout_ms =? 0 in
      if negb one_shot && (0 <? timeout_ms) && (deadline <=? at_now t) then (l, Some (inl FUSE_ERR_TIMEOUT))
      else
        match at_recv t with
        | None => if one_shot then (l, Some (inl FUSE_ERR_TIMEOUT)) else accept_loop l timeout_ms deadline turns e
        | Some (dg, from) =>
            match decode_hello (take 512 dg) with
            | None => if one_shot then (l, Some (inl FUSE_ERR_TIMEOUT)) else accept_loop l timeout_ms deadline turns e
            | Some (salt, challenge) =>
                let '(l, dup) := is_duplicate l from challenge in
                if dup then (if one_shot then (l, Some (inl FUSE_ERR_TIMEOUT)) else accept_loop l timeout_ms deadline turns e)
                else (l, Some (answer_hello l from salt challenge e))
            end
        end
  end.

Definition deadline_at (now timeout_ms : Z) : Z := now + Z.max 0 timeout_ms * 1000000.

Definition fuse_accept (l : fuse_listener) (timeout_ms now : Z) (turns : list AcceptTurn) (e : AcceptEnv) :
    fuse_listener * option (fuse_status + (fuse_conn * list datagram)) :=
  accept_loop l timeout_ms (deadline_at now timeout_ms) turns e.

(** ** fuse_connect *)

(** What the calls before the loop say: [ce_salt] and [ce_challenge] are the random bytes. *)
Record ConnectEnv := mkConnectEnv {
  ce_alloc_ok : bool;
  ce_open_ok : bool;
  ce_resolve : option PeerAddr;
  ce_salt : option bytes;
  ce_challenge : option bytes;
  ce_now_ns : Z;
  ce_start : Z;
}.

(** The clock, whether the HELLO could be sent, and the reply. *)
Record ConnectTurn := mkConnectTurn { cu_now : Z; cu_send_ok : bool; cu_recv : option (bytes * PeerAddr) }.

(** [None]: no HELLO-ACK, go on. *)
Definition take_reply (cfg : fuse_config) (salt challenge : bytes) (total_ms : Z) (dg : bytes) (from : PeerAddr) (now : Z) : option (fuse_status + fuse_conn) :=
  let start encrypted tx rx := Some (inr (start_conn (mkConnSession kLaneClientToServer kLaneServerToClient encrypted tx rx (timeout_or_default total_ms)) from now)) in
  match decode_hello_ack (take 128 dg) with
  | None => None
  | Some (server_salt, proof) =>
      if want_crypto cfg then
        match conn_ciphers (key_of cfg) salt server_salt with
        | None => Some (inl FUSE_ERR_UNSUPPORTED)
        | Some (tx, rx) =>
            match cipher_open rx 65535 0 [] proof with
            | Some opened => if bool_decide (opened = challenge) then start true tx rx else Some (inl FUSE_ERR_AUTH)
            | None => Some (inl FUSE_ERR_AUTH)
            end
        end
      else start false new_cipher new_cipher
  end.

(** With the HELLOs that have been handed to the socket. *)
Fixpoint connect_loop (cfg : fuse_config) (server : PeerAddr) (salt challenge : bytes) (total_ms deadline : Z) (turns : list ConnectTurn) (now : Z) :
    list datagram * option (fuse_status + fuse_conn) :=
  match turns with
  | [] => ([], None)
  | t :: turns =>
      if negb (cu_now t <? deadline) then ([], Some (inl FUSE_ERR_TIMEOUT))
      else
        let hello := (server, encode_hello salt challenge) in
        if negb (cu_send_ok t) then ([hello], Some (inl FUSE_ERR_SOCKET))
        else
          let go_on := let '(out, r) := connect_loop cfg server salt challenge total_ms deadline turns now in (hello :: out, r) in
          match cu_recv t with
          | None => go_on
          | Some (dg, from) =>
              match take_reply cfg salt challenge total_ms dg from now with
              | None => go_on
              | Some r => ([hello], Some r)
              end
          end
  end.

(** The bytes of a [uint64_t] in memory, least significant first. *)
Definition le64 (x : Z) : bytes := (fun i => u8 (Z.shiftr x (8 * i))) <$> seqZ 0 8.

(** The salt and the challenge of all the HELLOs of a call; [None] when the random
    generator fails. *)
Definition hello_salt (cfg : fuse_config) (e : ConnectEnv) : option bytes := if want_crypto cfg then ce_salt e else Some (replicate (Z.to_nat kSessionSaltLen) 0).
Definition hello_challenge (cfg : fuse_config) (e : ConnectEnv) : option bytes := if want_crypto cfg then ce_challenge e else Some (le64 (now_ns (ce_now_ns e))).
Definition connect_deadline (cfg : fuse_config) (e : ConnectEnv) : Z := ce_start e + timeout_or_default (fg_timeout_ms cfg) * 1000000.

Definition fuse_connect (cfg : option fuse_config) (available : bool) (e : ConnectEnv) (turns : list ConnectTurn) (now : Z) :
    list datagram * option (fuse_status + fuse_conn) :=
  let fail st := ([], Some (inl st)) in
  match cfg with
  | None => fail FUSE_ERR_CONFIG
  | Some cfg =>
      if match fg_host cfg with None => true | Some _ => false end || (fg_port cfg =? 0) then fail FUSE_ERR_CONFIG
      else if want_crypto cfg && negb available then fail FUSE_ERR_UNSUPPORTED
      else if negb (ce_alloc_ok e) then fail FUSE_ERR_INTERNAL
      else if negb (ce_open_ok e) then fail FUSE_ERR_SOCKET
      else
        match ce_resolve e with
        | None => fail FUSE_ERR_CONFIG
        | Some server =>
            match hello_salt cfg e with
            | None => fail FUSE_ERR_UNSUPPORTED
            | Some salt =>
                let total_ms := timeout_or_default (fg_timeout_ms cfg) in
                match hello_challenge cfg e with
                | None => fail FUSE_ERR_INTERNAL
                | Some challenge => connect_loop cfg server salt challenge total_ms (connect_deadline cfg e) turns now
                end
            end
        end
  end.

End Entry.

(** ** The datagrams *)

Lemma slice_halves (a b : bytes) n m : lenZ a = n -> lenZ b = m -> slice (a ++ b) 0 n = a /\ slice (a ++ b) n m = b.
Proof.
  intros <- <-. unfold slice. change (Z.to_nat 0) with 0%nat. rewrite drop_0, take_all_lenZ, drop_pre_0. split; [done |]. apply take_ge. unfold lenZ. lia.
Qed.

Lemma take_short (dg : bytes) n : lenZ dg <= Z.of_nat n -> take n dg = dg.
Proof. intros H. apply take_ge. unfold lenZ in H. lia. Qed.

Lemma decode_encode_hello salt challenge :
  lenZ salt = kSessionSaltLen -> lenZ challenge = kChallengeLen -> decode_hello (take 512 (encode_hello salt challenge)) = Some (salt, challenge).
Proof.
  intros Hs Hc. assert (lenZ (encode_hello salt challenge) = 26) as Hl by (unfold encode_hello; rewrite !lenZ_app, Hs, Hc; done).
  rewrite take_short by lia. unfold decode_hello. rewrite Hl. unfold encode_hello. cbn. by destruct (slice_halves salt challenge kSessionSaltLen kChallengeLen Hs Hc) as [-> ->].
Qed.

Lemma decode_encode_hello_ack server_salt proof :
  lenZ server_salt = kSessionSaltLen -> lenZ proof = kProofLen -> decode_hello_ack (take 128 (encode_hello_ack server_salt proof)) = Some (server_salt, proof).
Proof.
  intros Hs Hc. assert (lenZ (encode_hello_ack server_salt proof) = 42) as Hl by (unfold encode_hello_ack; rewrite !lenZ_app, Hs, Hc; done).
  rewrite take_short by lia. unfold decode_hello_ack. rewrite Hl. unfold encode_hello_ack. cbn. by destruct (slice_halves server_salt proof kSessionSaltLen kProofLen Hs Hc) as [-> ->].
Qed.

(** ** The ring of recent handshakes *)

(** The handshakes that were let through, oldest first: a new one is a duplicate when it
    is among the last sixteen. *)
Definition matches (from : PeerAddr) (challenge : bytes) (h : PeerAddr * bytes) : bool := peer_eqb (fst h) from && bool_decide (snd h = challenge).

Definition dedupe (hist : list (PeerAddr * bytes)) (from : PeerAddr) (challenge : bytes) : list (PeerAddr * bytes) * bool :=
  if existsb (matches from challenge) (drop (length hist - Z.to_nat kRecent) hist) then (hist, true) else (hist ++ [(from, challenge)], false).

Record recent_repr (l : fuse_listener) (hist : list (PeerAddr * bytes)) : Prop := {
  rp_len : length (fl_recent l) = 16%nat;
  rp_at : fl_recent_at l = Z.of_nat (length hist mod 16);
  rp_held : forall j h, hist !! j = Some h -> (length hist <= j + 16)%nat -> fl_recent l !! (j mod 16)%nat = Some (mkSeen (fst h) (snd h) true);
  rp_free : forall i s, (length hist <= i)%nat -> fl_recent l !! i = Some s -> se_used s = false;
}.

Lemma existsb_elem {A} (f : A -> bool) l : existsb f l = true <-> exists i x, l !! i = Some x /\ f x = true.
Proof.
  rewrite existsb_exists. split.
  - intros (x & Hin & Hf). apply list_elem_of_In, list_elem_of_lookup in Hin as [i Hi]. by exists i, x.
  - intros (i & x & Hi & Hf). exists x. split; [| done]. by eapply list_elem_of_In, list_elem_of_lookup_2.
Qed.

Lemma ring_index n i : (i < 16)%nat -> (i < n)%nat -> exists j, (j < n)%nat /\ (n <= j + 16)%nat /\ (j mod 16 = i)%nat.
Proof.
  intros Hi Hn. pose proof (Nat.div_mod_eq (n - 1 - i) 16). pose proof (Nat.mod_upper_bound (n - 1 - i) 16 ltac:(lia)). set (k := ((n - 1 - i) / 16)%nat) in *.
  exists (i + k * 16)%nat. split; [lia |]. split; [lia |]. rewrite Nat.Div0.mod_add. by apply Nat.mod_small.
Qed.

Lemma recent_member l hist from challenge :
  recent_repr l hist -> existsb (seen_is from challenge) (fl_recent l) = existsb (matches from challenge) (drop (length hist - Z.to_nat kRecent) hist).
Proof.
  intros [R1 R2 R3 R4]. apply eq_true_iff_eq. rewrite !existsb_elem. change (Z.to_nat kRecent) with 16%nat. split.
  - intros (i & s & Ei & Hs). apply andb_true_iff in Hs as [Hs Hc]. apply andb_true_iff in Hs as [Hu Ha]. assert (i < 16)%nat by (apply lookup_lt_Some in Ei; lia).
    destruct (Nat.le_gt_cases (length hist) i) as [Hge | Hlt]; [by rewrite (R4 i s Hge Ei) in Hu |]. destruct (ring_index (length hist) i) as (j & Hj & Hw & Em); [done | done |].
    destruct (lookup_lt_is_Some_2 hist j Hj) as [h Eh]. specialize (R3 j h Eh Hw). rewrite Em, Ei in R3. injection R3 as ->.
    exists (j - (length hist - 16))%nat, h. rewrite lookup_drop. replace (_ + _)%nat with j by lia. split; [done |]. cbn in Ha, Hc. unfold matches. by rewrite Ha, Hc.
  - intros (i & h & Ei & Hm). rewrite lookup_drop in Ei. apply lookup_lt_Some in Ei as Hlt. exists ((length hist - 16 + i) mod 16)%nat, (mkSeen (fst h) (snd h) true).
    split; [apply (R3 _ h Ei); lia |]. unfold matches in Hm. unfold seen_is. cbn. done.
Qed.

Lemma recent_push l hist from challenge :
  recent_repr l hist ->
  recent_repr (mkListener (fl_psk l) (fl_timeout_ms l) (setZ (fl_recent l) (fl_recent_at l) (mkSeen from challenge true)) ((fl_recent_at l + 1) mod kRecent)) (hist ++ [(from, challenge)]).
Proof.
  intros [R1 R2 R3 R4]. set (n := length hist) in *. pose proof (Nat.mod_upper_bound n 16 ltac:(lia)) as Hm.
  split; cbn [fl_recent fl_recent_at]; rewrite ?length_app; cbn [length]; fold n; unfold setZ; rewrite ?R2, ?Nat2Z.id.
  - by rewrite length_insert.
  - unfold kRecent. rewrite !Nat2Z.inj_mod, Nat2Z.inj_add, Zplus_mod_idemp_l. done.
  - intros j h Ej Hw. destruct (Nat.eq_dec j n) as [-> | Hj].
    + rewrite lookup_app_r in Ej by (unfold n; lia). unfold n in Ej at 1. rewrite Nat.sub_diag in Ej. injection Ej as <-. apply list_lookup_insert_eq. lia.
    + assert (j < n)%nat as Hlt by (apply lookup_lt_Some in Ej; rewrite length_app in Ej; cbn in Ej; unfold n in *; lia).
      rewrite lookup_app_l in Ej by done. rewrite list_lookup_insert_ne; [apply R3; [done | lia] |].
      intros E. pose proof (Nat.div_mod_eq n 16). pose proof (Nat.div_mod_eq j 16). lia.
  - intros i s Hi Ei. assert (i < 16)%nat as Hlt by (apply lookup_lt_Some in Ei; rewrite length_insert in Ei; lia).
    rewrite list_lookup_insert_ne in Ei by (rewrite Nat.mod_small by lia; lia). apply (R4 i); [lia | done].
Qed.

Lemma is_duplicate_refines l hist from challenge :
  recent_repr l hist -> snd (is_duplicate l from challenge) = snd (dedupe hist from challenge) /\ recent_repr (fst (is_duplicate l from challenge)) (fst (dedupe hist from challenge)).
Proof.
  intros R. unfold is_duplicate, dedupe. rewrite (recent_member l hist) by done. destruct (existsb _ _); [done |]. split; [done |]. by apply recent_push.
Qed.

(** A run of handshakes through the ring, and through the list. *)
Fixpoint ring_run (l : fuse_listener) (hs : list (PeerAddr * bytes)) : list bool :=
  match hs with [] => [] | (from, challenge) :: hs => let '(l, dup) := is_duplicate l from challenge in dup :: ring_run l hs end.

Fixpoint dedupe_run (hist : list (PeerAddr * bytes)) (hs : list (PeerAddr * bytes)) : list bool :=
  match hs with [] => [] | (from, challenge) :: hs => let '(hist, dup) := dedupe hist from challenge in dup :: dedupe_run hist hs end.

Lemma ring_run_refines hs : forall l hist, recent_repr l hist -> ring_run l hs = dedupe_run hist hs.
Proof.
  induction hs as [| [from challenge] hs IH]; intros l hist R; [done |]. cbn. destruct (is_duplicate_refines l hist from challenge R) as [E R'].
  destruct (is_duplicate l from challenge) as [l' d], (dedupe hist from challenge) as [hist' d']. cbn in E, R'. subst d'. f_equal. by apply IH.
Qed.

Lemma new_listener_repr psk ms : recent_repr (new_listener psk ms) [].
Proof. split; try done. intros i s _ Ei. by apply lookup_replicate in Ei as [-> _]. Qed.

(** ** The handshake *)

Section Handshake.
Context `{B : CryptoBackend} `{!CryptoLaws B}.

Lemma conn_ciphers_inv psk salt server_salt tx rx :
  conn_ciphers psk salt server_salt = Some (tx, rx) -> exists key, derive_session_key psk (salt ++ server_salt) = Some key /\ tx = mkLaneCipher (Some key) /\ rx = mkLaneCipher (Some key).
Proof.
  unfold conn_ciphers. destruct (derive_session_key _ _) as [key |]; [| done]. unfold cipher_init. cbn. destruct (gcm_set_key key); [| done]. intros [= <- <-]. by exists key.
Qed.

(** A connection of either end, just started. *)
Definition started (c : fuse_conn) (peer : PeerAddr) (now : Z) : Prop := c = start_conn (fc_session c) peer now.

Lemma answered_reply cfg l from salt challenge e cs out :
  fl_psk l = (if want_crypto cfg then key_of cfg else []) -> lenZ challenge = kChallengeLen -> (forall r, ae_random e = Some r -> lenZ r = kSessionSaltLen) ->
  answer_hello l from salt challenge e = inr (cs, out) ->
  exists ack, out = [(from, ack)] /\ started cs from (ae_now e) /\ cs_encrypted (fc_session cs) = want_crypto cfg /\ wf_conn_session (fc_session cs) /\
    forall ms src now, exists cc, take_reply cfg salt challenge ms ack src now = Some (inr cc) /\ started cc src now /\ wf_conn_session (fc_session cc) /\
      paired (fc_session cc) (fc_session cs) /\ paired (fc_session cs) (fc_session cc).
Proof.
  intros Hk Hc Hr. unfold answer_hello. destruct (ae_alloc_ok e); [| done]. destruct (ae_open_ok e); [| done]. cbn [negb]. rewrite Hk.
  assert (forall b tx rx ms, wf_conn_session (mkConnSession kLaneServerToClient kLaneClientToServer b tx rx ms) /\ wf_conn_session (mkConnSession kLaneClientToServer kLaneServerToClient b tx rx ms)) as Hwf
    by (intros; split; split; unfold is_u16, kLaneServerToClient, kLaneClientToServer; cbn; lia).
  destruct (want_crypto cfg) eqn:Ew.
  - destruct (key_of cfg) as [| k psk] eqn:Ek; [exfalso; revert Ew Ek; unfold want_crypto, key_of; by destruct (fg_pre_shared_key cfg) as [[|] |] |].
    destruct (ae_random e) as [server_salt |]; [| done]. specialize (Hr _ eq_refl). destruct (conn_ciphers _ salt server_salt) as [[tx rx] |] eqn:Ec; [| done].
    destruct (cipher_seal tx _ _ _ _) as [proof |] eqn:Es; [| done]. intros [= <- <-]. destruct (conn_ciphers_inv _ _ _ _ _ Ec) as (key & _ & -> & ->).
    assert (lenZ challenge + 16 < 2 ^ 16) as Hlen by (rewrite Hc; done). destruct (cipher_seal_open _ _ _ _ _ _ Hlen Es) as [Eo Hp].
    eexists. split; [done |]. split; [done |]. split; [done |]. split; [apply Hwf |]. intros ms src now. unfold take_reply.
    rewrite decode_encode_hello_ack by (done || by rewrite Hp, Hc). rewrite Ew, Ek, Ec, Eo, bool_decide_eq_true_2 by done. eexists. split; [done |]. split_and!; first [done | apply Hwf].
  - intros [= <- <-]. eexists. split; [done |]. split; [done |]. split; [done |]. split; [apply Hwf |]. intros ms src now. unfold take_reply.
    rewrite decode_encode_hello_ack by done. rewrite Ew. eexists. split; [done |]. split_and!; first [done | apply Hwf].
Qed.

(** Turns of [fuse_connect] that bring nothing, before the deadline. *)
Definition quiet_turn (deadline : Z) (t : ConnectTurn) : Prop := cu_now t < deadline /\ cu_send_ok t = true /\ cu_recv t = None.

Lemma connect_loop_reply cfg server salt challenge ms deadline pre t post now dg src r :
  Forall (quiet_turn deadline) pre -> cu_now t < deadline -> cu_send_ok t = true -> cu_recv t = Some (dg, src) -> take_reply cfg salt challenge ms dg src now = Some r ->
  connect_loop cfg server salt challenge ms deadline (pre ++ t :: post) now = (replicate (S (length pre)) (server, encode_hello salt challenge), Some r).
Proof.
  intros Hq H1 H2 H3 H4. induction Hq as [| p pre (Q1 & Q2 & Q3) _ IH]; cbn [app connect_loop].
  - apply Z.ltb_lt in H1. rewrite H1, H2, H3, H4. done.
  - apply Z.ltb_lt in Q1. rewrite Q1, Q2, Q3. cbn [negb]. by rewrite IH.
Qed.

(** The calls before the loop of [fuse_connect] succeed. *)
Record connect_ready (cfg : fuse_config) (available : bool) (e : ConnectEnv) (server : PeerAddr) (salt challenge : bytes) : Prop := {
  cy_host : is_Some (fg_host cfg);
  cy_port : fg_port cfg <> 0;
  cy_crypto : want_crypto cfg = true -> available = true;
  cy_alloc : ce_alloc_ok e = true;
  cy_open : ce_open_ok e = true;
  cy_resolve : ce_resolve e = Some server;
  cy_salt : hello_salt cfg e = Some salt /\ lenZ salt = kSessionSaltLen;
  cy_challenge : hello_challenge cfg e = Some challenge /\ lenZ challenge = kChallengeLen;
}.

Lemma connect_ready_loop cfg available e server salt challenge turns now :
  connect_ready cfg available e server salt challenge ->
  fuse_connect (Some cfg) available e turns now = connect_loop cfg server salt challenge (timeout_or_default (fg_timeout_ms cfg)) (connect_deadline cfg e) turns now.
Proof.
  intros [[h Y1] Y2 Y3 Y4 Y5 Y6 [Y7 _] [Y8 _]]. unfold fuse_connect. apply Z.eqb_neq in Y2. rewrite Y1, Y2, Y4, Y5, Y6, Y7, Y8. cbn [orb negb].
  destruct (want_crypto cfg); [rewrite Y3 by done |]; done.
Qed.

Lemma accept_one l timeout_ms now0 t ae from salt challenge l' r :
  at_recv t = Some (encode_hello salt challenge, from) -> lenZ salt = kSessionSaltLen -> lenZ challenge = kChallengeLen ->
  fuse_accept l timeout_ms now0 [t] ae = (l', Some (inr r)) -> is_duplicate l from challenge = (l', false) /\ answer_hello l' from salt challenge ae = inr r.
Proof.
  intros Ht Hs Hc. unfold fuse_accept. cbn [accept_loop]. destruct (negb (timeout_ms =? 0) && _ && _); [done |]. rewrite Ht, decode_encode_hello by done.
  destruct (is_duplicate l from challenge) as [l1 []]; [by destruct (timeout_ms =? 0) |]. intros [= -> ->]. done.
Qed.

Lemma is_duplicate_psk l from challenge : fl_psk (fst (is_duplicate l from challenge)) = fl_psk l.
Proof. unfold is_duplicate. by destruct (existsb _ _). Qed.

(** A reply that [fuse_connect] takes while it wants encryption. *)
Lemma take_reply_proves cfg salt challenge ms dg src now cc :
  want_crypto cfg = true -> take_reply cfg salt challenge ms dg src now = Some (inr cc) ->
  exists server_salt proof key ct tag, decode_hello_ack (take 128 dg) = Some (server_salt, proof) /\ derive_session_key (key_of cfg) (salt ++ server_salt) = Some key /\
    gcm_encrypt key (build_nonce 65535 0) [] challenge = Some (ct, tag) /\ proof = ct ++ tag /\
    cs_encrypted (fc_session cc) = true /\ cs_tx_cipher (fc_session cc) = mkLaneCipher (Some key) /\ cs_rx_cipher (fc_session cc) = mkLaneCipher (Some key).
Proof.
  intros Ew. unfold take_reply. destruct (decode_hello_ack _) as [[server_salt proof] |] eqn:Ed; [| done]. rewrite Ew.
  destruct (conn_ciphers _ _ _) as [[tx rx] |] eqn:Ec; [| done]. destruct (conn_ciphers_inv _ _ _ _ _ Ec) as (key & Ek & -> & ->).
  destruct (cipher_open _ _ _ _ _) as [opened |] eqn:Eo; [| done]. destruct (bool_decide (opened = challenge)) eqn:Eb; [| done]. apply bool_decide_eq_true in Eb as ->. intros [= <-].
  assert (lenZ proof = kProofLen) as Hp.
  { revert Ed. unfold decode_hello_ack. destruct (negb _) eqn:El; [done |]. destruct (take 128 dg) as [| b0 [| b1 rest]]; try done. destruct (negb _ || _); [done |]. intros [= <- <-].
    apply negb_false_iff, Z.eqb_eq in El. rewrite !lenZ_cons in El. unfold slice, lenZ in *. rewrite length_take, length_drop. unfold kSessionSaltLen, kProofLen, kChallengeLen, kAeadTagLen, kOuterHeaderSize in *. lia. }
  unfold cipher_open in Eo. cbn [lc_key] in Eo. rewrite Hp in Eo. change (u16 (kProofLen - kAeadTagLen)) with 8 in Eo. change (kProofLen <? kAeadTagLen) with false in Eo. cbv iota in Eo.
  apply gcm_authentic in Eo. exists server_salt, proof, key, (slice proof 0 8), (slice proof 8 kAeadTagLen). split_and!; try done.
  unfold slice. change (Z.to_nat 0) with 0%nat. rewrite drop_0, <- (take_drop (Z.to_nat 8) proof) at 1. f_equal. symmetry. apply take_ge. rewrite length_drop. unfold lenZ in Hp. unfold kProofLen, kChallengeLen, kAeadTagLen in *. lia.
Qed.

Lemma connect_loop_took cfg server salt challenge ms deadline turns now out cc :
  connect_loop cfg server salt challenge ms deadline turns now = (out, Some (inr cc)) ->
  exists t dg src, t ∈ turns /\ cu_now t < deadline /\ cu_recv t = Some (dg, src) /\ take_reply cfg salt challenge ms dg src now = Some (inr cc).
Proof.
  revert out. induction turns as [| t turns IH]; intros out; [done |]. cbn [connect_loop]. destruct (Z.ltb_spec (cu_now t) deadline) as [Hd | Hd]; [| done]. cbn [negb].
  destruct (cu_send_ok t); [| done]. cbn [negb]. destruct (connect_loop _ _ _ _ _ _ turns now) as [out' r] eqn:El.
  assert (r = Some (inr cc) -> exists t' dg src, t' ∈ t :: turns /\ cu_now t' < deadline /\ cu_recv t' = Some (dg, src) /\ take_reply cfg salt challenge ms dg src now = Some (inr cc)) as Hgo.
  { intros ->. destruct (IH _ eq_refl) as (t' & dg & src & Hin & H). exists t', dg, src. split; [by right | done]. }
  destruct (cu_recv t) as [[dg src] |] eqn:Er; [| intros [= <- ->]; auto]. destruct (take_reply _ _ _ _ dg src now) as [r' |] eqn:Et; [| intros [= <- ->]; auto].
  intros [= <- ->]. exists t, dg, src. split; [by left | done].
Qed.

End Handshake.

(** ** Both ends agree *)

(** C16: [fuse_connect] and [fuse_accept] agree.  When a listener with the same pre-shared key
    (or none on both sides) answers the HELLO of a [fuse_connect], it sends one HELLO-ACK to
    where the HELLO came from; and when that is the first reply that reaches the client before
    its deadline, after any number of retries, [fuse_connect] returns a connection to the
    address it came from.  The two are started as [start_conn] leaves them, the lanes of one
    are those of the other crossed, and both are encrypted with the same key exactly when a
    key is configured. *)
Theorem connect_and_accept_agree `{B : CryptoBackend} `{!CryptoLaws B} cfg available ce server salt challenge l timeout_ms now0 t0 ae from l' cs out :
  connect_ready cfg available ce server salt challenge -> fl_psk l = (if want_crypto cfg then key_of cfg else []) -> (forall r, ae_random ae = Some r -> lenZ r = kSessionSaltLen) ->
  at_recv t0 = Some (encode_hello salt challenge, from) -> fuse_accept l timeout_ms now0 [t0] ae = (l', Some (inr (cs, out))) ->
  exists ack, out = [(from, ack)] /\ started cs from (ae_now ae) /\ cs_encrypted (fc_session cs) = want_crypto cfg /\ wf_conn_session (fc_session cs) /\
    forall pre t post src now, Forall (quiet_turn (connect_deadline cfg ce)) pre -> cu_now t < connect_deadline cfg ce -> cu_send_ok t = true -> cu_recv t = Some (ack, src) ->
      exists cc, fuse_connect (Some cfg) available ce (pre ++ t :: post) now = (replicate (S (length pre)) (server, encode_hello salt challenge), Some (inr cc)) /\
        started cc src now /\ wf_conn_session (fc_session cc) /\ paired (fc_session cc) (fc_session cs) /\ paired (fc_session cs) (fc_session cc).
Proof.
  intros Y Hk Hr Ht Ha. pose proof (cy_salt _ _ _ _ _ _ Y) as [_ Hs]. pose proof (cy_challenge _ _ _ _ _ _ Y) as [_ Hc].
  destruct (accept_one _ _ _ _ _ _ _ _ _ _ Ht Hs Hc Ha) as [Ed Ean]. assert (fl_psk l' = fl_psk l) as Ek by (pose proof (is_duplicate_psk l from challenge) as E; by rewrite Ed in E).
  rewrite <- Ek in Hk. destruct (answered_reply cfg l' from salt challenge ae cs out Hk Hc Hr Ean) as (ack & -> & H1 & H2 & H3 & H4). exists ack. split_and!; try done.
  intros pre t post src now Hq Hd Hok Hrecv. destruct (H4 (timeout_or_default (fg_timeout_ms cfg)) src now) as (cc & Et & G). exists cc. split; [| done].
  rewrite (connect_ready_loop _ _ _ _ _ _ _ _ Y). by eapply connect_loop_reply.
Qed.

(** C17: With a pre-shared key [fuse_connect] never settles for less.  Whatever datagrams
    arrive during a call, a connection it returns is encrypted, under a key derived from the
    pre-shared key, the client's salt and the salt of a HELLO-ACK received before the
    deadline; and that HELLO-ACK carries the AES-GCM encryption, under that very key, of the
    challenge of this call. *)
Theorem connect_proves_key `{B : CryptoBackend} `{!CryptoLaws B} cfg available ce server salt challenge turns now out cc :
  connect_ready cfg available ce server salt challenge -> want_crypto cfg = true -> fuse_connect (Some cfg) available ce turns now = (out, Some (inr cc)) ->
  exists t dg src server_salt proof key ct tag, t ∈ turns /\ cu_now t < connect_deadline cfg ce /\ cu_recv t = Some (dg, src) /\
    decode_hello_ack (take 128 dg) = Some (server_salt, proof) /\ derive_session_key (key_of cfg) (salt ++ server_salt) = Some key /\
    gcm_encrypt key (build_nonce 65535 0) [] challenge = Some (ct, tag) /\ proof = ct ++ tag /\
    cs_encrypted (fc_session cc) = true /\ cs_tx_cipher (fc_session cc) = mkLaneCipher (Some key) /\ cs_rx_cipher (fc_session cc) = mkLaneCipher (Some key).
Proof.
  intros Y Ew E. rewrite (connect_ready_loop _ _ _ _ _ _ _ _ Y) in E. destruct (connect_loop_took _ _ _ _ _ _ _ _ _ _ E) as (t & dg & src & Hin & Hd & Hr & Et).
  destruct (take_reply_proves _ _ _ _ _ _ _ _ Ew Et) as (server_salt & proof & key & ct & tag & H). by exists t, dg, src, server_salt, proof, key, ct, tag.
Qed.

(** The listener's ring refines the list of its last sixteen handshakes.  For any
    sequence of HELLOs, [is_duplicate] over the ring of sixteen slots gives the same verdicts
    as looking the handshake up among the last sixteen that were let through. *)
Theorem recent_ring_refines psk timeout_ms hs : ring_run (new_listener psk timeout_ms) hs = dedupe_run [] hs.
Proof. apply ring_run_refines, new_listener_repr. Qed.

(** ** A HELLO-ACK that is lost *)

(** A turn that brings nothing, no HELLO, or the same HELLO again. *)
Definition retry_turn (from : PeerAddr) (challenge : bytes) (t : AcceptTurn) : Prop :=
  match at_recv t with
  | None => True
  | Some (dg, src) => match decode_hello (take 512 dg) with None => True | Some (_, c) => src = from /\ c = challenge end
  end.

Lemma dup_found l from challenge : existsb (seen_is from challenge) (fl_recent l) = true -> is_duplicate l from challenge = (l, true).
Proof. intros E. unfold is_duplicate. by rewrite E. Qed.

Lemma admitted_is_dup l from challenge l' hist :
  recent_repr l hist -> peer_eqb from from = true -> is_duplicate l from challenge = (l', false) -> is_duplicate l' from challenge = (l', true).
Proof.
  intros [R1 R2 _ _] Hp E. apply dup_found. unfold is_duplicate in E. destruct (existsb _ _); [done |]. injection E as <-. cbn [fl_recent].
  apply existsb_elem. exists (Z.to_nat (fl_recent_at l)), (mkSeen from challenge true). split.
  - apply list_lookup_insert_eq. rewrite R1, R2, Nat2Z.id. by apply Nat.mod_upper_bound.
  - unfold seen_is. cbn. by rewrite Hp, bool_decide_eq_true_2.
Qed.

Section Lost.
Context `{B : CryptoBackend}.

Lemma accept_retries l from challenge timeout_ms deadline turns e :
  is_duplicate l from challenge = (l, true) -> Forall (retry_turn from challenge) turns ->
  accept_loop l timeout_ms deadline turns e = (l, None) \/ accept_loop l timeout_ms deadline turns e = (l, Some (inl FUSE_ERR_TIMEOUT)).
Proof.
  intros Hd. induction 1 as [| t turns Ht _ IH]; cbn [accept_loop]; [by left |]. destruct (negb _ && _ && _); [by right |].
  unfold retry_turn in Ht. destruct (at_recv t) as [[dg src] |]; [| destruct (timeout_ms =? 0); [by right | done]].
  destruct (decode_hello _) as [[salt c] |]; [destruct Ht as [-> ->]; rewrite Hd |]; (destruct (timeout_ms =? 0); [by right | done]).
Qed.

End Lost.

Lemma peek_hello salt challenge : peek_msg_type (encode_hello salt challenge) = Ok (MsgType.code MsgType.Hello).
Proof.
  unfold peek_msg_type, encode_hello. rewrite lenZ_app. change (lenZ [_; _]) with 2. pose proof (lenZ_nonneg (salt ++ challenge)). split_if; [unfold kOuterHeaderSize in *; lia |]. reflexivity.
Qed.


(** ** Examples *)

Module EntryExample.
#[local] Existing Instance toy_backend.

Definition cfg : fuse_config := mkFuseConfig None (Some [104]) 4433 (Some [112; 115; 107]) 1000.
Definition salt : bytes := replicate 16 3.
Definition challenge : bytes := replicate 8 5.
Definition ce : ConnectEnv := mkConnectEnv true true (Some peer_example) (Some salt) (Some challenge) 7 1000.
Definition client : PeerAddr := mkPeerAddr AF_INET 50000 [192; 0; 2; 20].
Definition conn_port : PeerAddr := mkPeerAddr AF_INET 40000 [192; 0; 2; 10].
Definition ae : AcceptEnv := mkAcceptEnv true true (Some (replicate 16 9)) 2000.
Definition hello_turn : AcceptTurn := mkAcceptTurn 1500 (Some (encode_hello salt challenge, client)).
Definition accepted := fuse_accept (new_listener [112; 115; 107] 1000) (-1) 1000 [hello_turn] ae.
Definition proof : bytes := match cipher_seal (mkLaneCipher (derive_session_key [112; 115; 107] (salt ++ replicate 16 9))) 65535 0 [] challenge with Some p => p | None => [] end.
Definition ack : bytes := encode_hello_ack (replicate 16 9) proof.
Definition turns : list ConnectTurn := [mkConnectTurn 1100 true None; mkConnectTurn 1200 true (Some (ack, conn_port))].

Lemma ready : connect_ready cfg true ce peer_example salt challenge.
Proof. by split; try done; eexists. Qed.

Definition sent_ack (r : fuse_listener * option (fuse_status + (fuse_conn * list datagram))) : bool :=
  match r with (_, Some (inr (_, out))) => bool_decide (out = [(client, ack)]) | _ => false end.

Lemma accepted_ack : exists l' cs, accepted = (l', Some (inr (cs, [(client, ack)]))).
Proof.
  assert (sent_ack accepted = true) as H by (vm_compute; reflexivity). destruct accepted as [l' [[st | [cs out]] |]]; [discriminate H | | discriminate H].
  cbn in H. apply bool_decide_eq_true in H. subst out. by exists l', cs.
Qed.

Definition got_conn (r : list datagram * option (fuse_status + fuse_conn)) : bool :=
  match r with (out, Some (inr _)) => bool_decide (out = replicate 2 (peer_example, encode_hello salt challenge)) | _ => false end.

Lemma connected : exists cc, fuse_connect (Some cfg) true ce turns 3000 = (replicate 2 (peer_example, encode_hello salt challenge), Some (inr cc)).
Proof.
  assert (got_conn (fuse_connect (Some cfg) true ce turns 3000) = true) as H by (vm_compute; reflexivity).
  destruct (fuse_connect _ _ _ _ _) as [out [[st | cc] |]]; [discriminate H | | discriminate H]. unfold got_conn in H. apply bool_decide_eq_true in H. subst out. by exists cc.
Qed.

End EntryExample.

Lemma connect_and_accept_agree_witness :
  exists l' cs out cc, EntryExample.accepted = (l', Some (inr (cs, out))) /\
    fuse_connect (B := toy_backend) (Some EntryExample.cfg) true EntryExample.ce EntryExample.turns 3000 =
      (replicate 2 (peer_example, encode_hello EntryExample.salt EntryExample.challenge), Some (inr cc)) /\
    paired (fc_session cc) (fc_session cs).
Proof.
  destruct EntryExample.accepted_ack as (l' & cs & E).
  destruct (connect_and_accept_agree (B := toy_backend) (CryptoLaws0 := toy_laws) EntryExample.cfg true EntryExample.ce peer_example EntryExample.salt EntryExample.challenge
    (new_listener [112; 115; 107] 1000) (-1) 1000 EntryExample.hello_turn EntryExample.ae EntryExample.client l' cs _ EntryExample.ready eq_refl ltac:(by intros r [= <-]) eq_refl E)
    as (ack & Eo & _ & _ & _ & H).
  assert (ack = EntryExample.ack) as -> by congruence. clear Eo.
  destruct (H [mkConnectTurn 1100 true None] (mkConnectTurn 1200 true (Some (EntryExample.ack, EntryExample.conn_port))) [] EntryExample.conn_port 3000) as (cc & Ec & _ & _ & Hp & _);
    [constructor; [split; [vm_compute; reflexivity | split; reflexivity] | constructor] | vm_compute; reflexivity | reflexivity | reflexivity |].
  exists l', cs, [(EntryExample.client, EntryExample.ack)], cc. split; [exact E |]. split; [exact Ec | exact Hp].
Defined.

Lemma connect_proves_key_witness :
  exists cc, fuse_connect (B := toy_backend) (Some EntryExample.cfg) true EntryExample.ce EntryExample.turns 3000 =
      (replicate 2 (peer_example, encode_hello EntryExample.salt EntryExample.challenge), Some (inr cc)) /\ cs_encrypted (fc_session cc) = true.
Proof.
  destruct EntryExample.connected as (cc & E). exists cc. split; [exact E |].
  destruct (connect_proves_key (B := toy_backend) (CryptoLaws0 := toy_laws) EntryExample.cfg true EntryExample.ce peer_example EntryExample.salt EntryExample.challenge EntryExample.turns 3000 _ cc
    EntryExample.ready eq_refl E) as (t & dg & src & server_salt & proof & key & ct & tag & _ & _ & _ & _ & _ & _ & _ & H & _). exact H.
Defined.

