(* ===== verification/Http.v ===== *)
(** * HTTP over the message API

    Models [src/src/proto/http.cpp]: a request and its response are one message each, with
    a first line, header lines, a blank line and a body.  C strings are lists of their
    bytes before the terminator; the calls of the message API, the allocator and the
    handler are arguments. *)

From Stdlib Require Import String Ascii.
From S2P Require Import Prelude SdkConn.

Open Scope Z_scope.

(** ** Bytes and C strings *)

Definition CR : Z := 13.
Definition LF : Z := 10.
Definition SP : Z := 32.
Definition crlf : bytes := [CR; LF].

(** A string literal. *)
Definition lit (s : string) : bytes := (fun c => Z.of_nat (nat_of_ascii c)) <$> String.list_ascii_of_string s.

(** What [c_str] shows of a [std::string]: the bytes before the first NUL. *)
Fixpoint c_str (l : bytes) : bytes := match l with [] => [] | c :: l => if c =? 0 then [] else c :: c_str l end.

(** [memchr] and [strchr] as a position. *)
Fixpoint index_of (c : Z) (l : bytes) : option Z :=
  match l with [] => None | x :: l => if x =? c then Some 0 else Z.succ <$> index_of c l end.

Fixpoint starts_with (pat l : bytes) : bool :=
  match pat, l with
  | [], _ => true
  | p :: pat, x :: l => (p =? x) && starts_with pat l
  | _, [] => false
  end.

(** [strstr], and the search loop of [ParseMessage]. *)
Fixpoint find_sub (pat l : bytes) : option Z :=
  if starts_with pat l then Some 0 else match l with [] => None | _ :: l => Z.succ <$> find_sub pat l end.

Definition lower (c : Z) : Z := if (65 <=? c) && (c <=? 90) then c - 65 + 97 else c.

Fixpoint EqualsIgnoreCase (a b : bytes) : bool :=
  match a, b with
  | [], [] => true
  | x :: a, y :: b => (lower x =? lower y) && EqualsIgnoreCase a b
  | _, _ => false
  end.

(** ** Messages *)

Record ParsedMessage := mkParsed { pm_first_line : bytes; pm_headers : bytes; pm_body : bytes }.

(** [None] when [ok] stays false. *)
Definition ParseMessage (data : bytes) : option ParsedMessage :=
  match find_sub (crlf ++ crlf) data with
  | None => None
  | Some blank =>
      let prefix_end := blank + 2 in
      match index_of LF (take (Z.to_nat prefix_end) data) with
      | None => None
      | Some line_end =>
          if (line_end =? 0) || negb (bool_decide (nthZ data (line_end - 1) = Some CR)) then None
          else Some (mkParsed (slice data 0 (line_end - 1)) (slice data (line_end + 1) (prefix_end - (line_end + 1))) (drop (Z.to_nat (blank + 4)) data))
      end
  end.

(** A null pointer for the headers or the body is the empty list. *)
Definition AppendHeadersAndBody (out headers body : bytes) : bytes := out ++ headers ++ crlf ++ body.

Definition DefaultReason (status : Z) : bytes :=
  lit (if status =? 200 then "OK" else if status =? 201 then "Created" else if status =? 204 then "No Content"
       else if status =? 301 then "Moved Permanently" else if status =? 302 then "Found" else if status =? 304 then "Not Modified"
       else if status =? 400 then "Bad Request" else if status =? 401 then "Unauthorized" else if status =? 403 then "Forbidden"
       else if status =? 404 then "Not Found" else if status =? 405 then "Method Not Allowed" else if status =? 500 then "Internal Server Error"
       else if status =? 501 then "Not Implemented" else if status =? 503 then "Service Unavailable" else "Unknown").

(** ** Numbers *)

Fixpoint digits (fuel : nat) (n : Z) : bytes :=
  match fuel with
  | O => []
  | S fuel => if n <? 10 then [48 + n] else digits fuel (n / 10) ++ [48 + n mod 10]
  end.

(** [%d] of an [int], which has at most ten digits. *)
Definition print_int (n : Z) : bytes := if n <? 0 then 45 :: digits 10 (- n) else digits 10 n.

Definition is_space (c : Z) : bool := (c =? SP) || ((9 <=? c) && (c <=? 13)).
Definition is_digit (c : Z) : bool := (48 <=? c) && (c <=? 57).

Fixpoint skip_spaces (l : bytes) : bytes := match l with [] => [] | c :: l' => if is_space c then skip_spaces l' else l end.

Fixpoint read_digits (acc : Z) (l : bytes) : Z :=
  match l with [] => acc | c :: l => if is_digit c then read_digits (acc * 10 + (c - 48)) l else acc end.

(** [atoi]: a number that is no [int] is undefined. *)
Definition atoi (l : bytes) : res Z :=
  let l := skip_spaces l in
  let n := match l with
           | 45 :: l => - read_digits 0 l
           | 43 :: l => read_digits 0 l
           | _ => read_digits 0 l
           end in
  if (- 2 ^ 31 <=? n) && (n <? 2 ^ 31) then Ok n else Fault.

(** ** Header lookup *)

(** [memchr (p, ':', line_stop - p)] where [q] is the string from [p] and [n] the length
    asked for, as [size_t]: it may run past the terminator. *)
Definition find_colon (q : bytes) (n : Z) : res (option Z) :=
  match index_of 58 (take (Z.to_nat (Z.min n (lenZ q))) q) with
  | Some i => Ok (Some i)
  | None => if lenZ q + 1 <? n then Fault else Ok None
  end.

Fixpoint skip_sp (l : bytes) : Z := match l with [] => 0 | c :: l => if c =? SP then 1 + skip_sp l else 0 end.

(** The loop from [p], the rest [q] of the headers; position and length of the value.
    [fuel] bounds the number of lines. *)
Fixpoint header_loop (fuel : nat) (p : Z) (q name : bytes) : res (option (Z * Z)) :=
  match fuel with
  | O => Ok None
  | S fuel =>
      match q with
      | [] => Ok None
      | _ =>
          let line_end := index_of LF q in
          let line_stop := match line_end with Some i => i - 1 | None => lenZ q end in
          res_bind (find_colon q (u64 line_stop)) (fun colon =>
          let next := match line_end with Some i => header_loop fuel (p + i + 1) (drop (Z.to_nat (i + 1)) q) name | None => Ok None end in
          match colon with
          | Some k =>
              if EqualsIgnoreCase (take (Z.to_nat k) q) name then
                let val := k + 1 + skip_sp (slice q (k + 1) (line_stop - (k + 1))) in
                Ok (Some (p + val, u64 (line_stop - val)))
              else next
          | None => next
          end)
      end
  end.

Definition fuse_http_get_header (headers name : bytes) : res (option (Z * Z)) := header_loop (S (length headers)) 0 headers name.

(** ** Requests and responses *)

Record fuse_http_request := mkRequest { rq_method : bytes; rq_path : bytes; rq_headers : bytes; rq_body : bytes }.

(** [rs_reason] is [None] for a null pointer. *)
Record fuse_http_response := mkResponse { rs_status : Z; rs_reason : option bytes; rs_headers : bytes; rs_body : bytes }.

Definition fuse_http_response_init : fuse_http_response := mkResponse 0 None [] [].

Definition request_wire (req : fuse_http_request) : bytes :=
  AppendHeadersAndBody (rq_method req ++ [SP] ++ rq_path req ++ lit " HTTP/1.1" ++ crlf) (rq_headers req) (rq_body req).

Definition parse_request_line (line : bytes) : bytes * bytes :=
  match index_of SP line with
  | None => (line, [])
  | Some sp1 =>
      let rest := drop (Z.to_nat (sp1 + 1)) line in
      (take (Z.to_nat sp1) line, match find_sub (lit " HTTP/") rest with Some v => take (Z.to_nat v) rest | None => rest end)
  end.

Definition parse_request (m : ParsedMessage) : fuse_http_request :=
  let '(method, path) := parse_request_line (c_str (pm_first_line m)) in
  mkRequest method path (c_str (pm_headers m)) (pm_body m).

(** [snprintf] into 64 bytes. *)
Definition status_line (status : Z) (reason : bytes) : bytes := take 63 (lit "HTTP/1.1 " ++ print_int status ++ [SP] ++ reason ++ crlf).

Definition response_wire (resp : fuse_http_response) (alloc_ok : bool) : bytes :=
  let reason := match rs_reason resp with Some r => r | None => if alloc_ok then DefaultReason (rs_status resp) else [] end in
  AppendHeadersAndBody (status_line (rs_status resp) reason) (rs_headers resp) (rs_body resp).

(** The status and the reason of a response's first line. *)
Definition parse_status_line (line : bytes) : res (Z * bytes) :=
  match index_of SP line with
  | None => Ok (0, [])
  | Some sp1 =>
      let rest := drop (Z.to_nat (sp1 + 1)) line in
      res_bind (atoi rest) (fun status =>
      Ok (status, match index_of SP rest with None => [] | Some i => let r := drop (Z.to_nat i) rest in drop (Z.to_nat (skip_sp r)) r end))
  end.

(** What [fuse_http_fetch] makes of the message it receives. *)
Definition parse_response (raw : bytes) (alloc_ok : bool) : res (fuse_status * fuse_http_response) :=
  match ParseMessage raw with
  | None => Ok (FUSE_ERR_INTERNAL, fuse_http_response_init)
  | Some m =>
      res_bind (parse_status_line (c_str (pm_first_line m))) (fun '(status, reason) =>
      Ok (if alloc_ok then (FUSE_OK, mkResponse status (Some reason) (c_str (pm_headers m)) (pm_body m)) else (FUSE_ERR_INTERNAL, fuse_http_response_init)))
  end.

(** The arguments are what [fuse_connect], [fuse_send] and [fuse_recv_alloc] return; also
    the messages handed to [fuse_send]. *)
Definition fuse_http_fetch (req : fuse_http_request) (connect send : fuse_status) (recv : fuse_status * bytes) (alloc_ok : bool) :
    res (list bytes * (fuse_status * fuse_http_response)) :=
  if negb (bool_decide (connect = FUSE_OK)) then Ok ([], (connect, fuse_http_response_init))
  else
    let wire := request_wire req in
    if negb (bool_decide (send = FUSE_OK)) then Ok ([wire], (send, fuse_http_response_init))
    else if negb (bool_decide (fst recv = FUSE_OK)) then Ok ([wire], (fst recv, fuse_http_response_init))
    else res_bind (parse_response (snd recv) alloc_ok) (fun r => Ok ([wire], r)).

(** The request that reaches the handler and the message that is sent back. *)
Definition ServeOneConnection (recv : fuse_status * bytes) (handler : fuse_http_request -> fuse_status * fuse_http_response) (alloc_ok : bool) :
    option fuse_http_request * list bytes :=
  if negb (bool_decide (fst recv = FUSE_OK)) then (None, [])
  else
    match ParseMessage (snd recv) with
    | None => (None, [])
    | Some m =>
        let req := parse_request m in
        let '(st, resp) := handler req in
        (Some req, if bool_decide (st = FUSE_OK) then [response_wire resp alloc_ok] else [])
    end.

(** One turn of [fuse_http_serve]'s loop: the stop flag, and what [fuse_accept] returns.
    The connections served, and what the call returns; [None] while it runs. *)
Fixpoint serve_loop {conn : Type} (turns : list (bool * (fuse_status + conn))) : list conn * option fuse_status :=
  match turns with
  | [] => ([], None)
  | (stop, r) :: turns =>
      if stop then ([], Some FUSE_OK)
      else
        match r with
        | inl st => if bool_decide (st = FUSE_ERR_TIMEOUT) then serve_loop turns else ([], Some FUSE_OK)
        | inr c => let '(cs, r) := serve_loop turns in (c :: cs, r)
        end
  end.

Definition fuse_http_serve {conn : Type} (listen : fuse_status) (turns : list (bool * (fuse_status + conn))) : list conn * option fuse_status :=
  if negb (bool_decide (listen = FUSE_OK)) then ([], Some listen) else serve_loop turns.

(** ** Searching *)

Lemma index_of_app c l s : c ∉ l -> index_of c (l ++ c :: s) = Some (lenZ l).
Proof.
  induction l as [| x l IH]; intros Hn; cbn [app index_of]; [by rewrite Z.eqb_refl |]. apply not_elem_of_cons in Hn as [Hx Hn].
  destruct (Z.eqb_spec x c) as [-> |]; [done |]. rewrite (IH Hn), lenZ_cons. cbn. f_equal. lia.
Qed.

Lemma index_of_none c l : c ∉ l -> index_of c l = None.
Proof.
  induction l as [| x l IH]; intros Hn; [done |]. cbn. apply not_elem_of_cons in Hn as [Hx Hn]. destruct (Z.eqb_spec x c) as [-> |]; [done |]. by rewrite (IH Hn).
Qed.

Definition blank : bytes := crlf ++ crlf.

Lemma find_sub_cons pat x l : find_sub pat (x :: l) = if starts_with pat (x :: l) then Some 0 else Z.succ <$> find_sub pat l.
Proof. done. Qed.

(** A line without a newline in it is passed over, up to its end. *)
Lemma find_blank_line l s :
  LF ∉ l -> find_sub blank (l ++ crlf ++ s) = if starts_with crlf s then Some (lenZ l) else (fun i => lenZ l + 2 + i) <$> find_sub blank s.
Proof.
  induction l as [| x l IH]; intros Hn.
  - change ([] ++ crlf ++ s) with (CR :: LF :: s). rewrite !find_sub_cons. change (starts_with blank (CR :: LF :: s)) with (starts_with crlf s).
    change (starts_with blank (LF :: s)) with false. change (lenZ []) with 0. destruct (starts_with crlf s); [done |]. destruct (find_sub blank s); cbn; [f_equal; lia | done].
  - apply not_elem_of_cons in Hn as [Hx Hn]. cbn [app]. rewrite find_sub_cons, IH, lenZ_cons by done.
    assert (starts_with blank (x :: l ++ crlf ++ s) = false) as ->.
    { cbn [blank crlf app starts_with]. destruct (CR =? x); [| done]. cbn [andb]. destruct l as [| y l]; [done |]. apply not_elem_of_cons in Hn as [Hy _]. cbn [app].
      destruct (Z.eqb_spec LF y); [done | done]. }
    destruct (starts_with crlf s); [cbn; f_equal; lia |]. destruct (find_sub blank s); cbn; [f_equal; lia | done].
Qed.

(** ** The three parts of a message *)

(** Header lines with their ends. *)
Definition header_block (lines : list bytes) : bytes := mjoin ((fun l => l ++ crlf) <$> lines).

Definition line_ok (l : bytes) : Prop := l <> [] /\ LF ∉ l.

Lemma find_blank_lines lines : forall first body,
  LF ∉ first -> Forall line_ok lines -> find_sub blank (first ++ crlf ++ header_block lines ++ crlf ++ body) = Some (lenZ first + lenZ (header_block lines)).
Proof.
  induction lines as [| l lines IH]; intros first body Hf Hl.
  - cbn [header_block fmap list_fmap mjoin list_join app]. rewrite find_blank_line by done. change (starts_with crlf (crlf ++ body)) with true. cbv iota. change (lenZ []) with 0. f_equal. lia.
  - apply Forall_cons in Hl as [[Hne Hn] Hl]. change (header_block (l :: lines)) with ((l ++ crlf) ++ header_block lines). rewrite <- !app_assoc, find_blank_line by done.
    assert (starts_with crlf (l ++ crlf ++ header_block lines ++ crlf ++ body) = false) as ->.
    { destruct l as [| x [| y l]]; [done | |]; cbn [crlf app starts_with]; [by destruct (CR =? x) |]. apply not_elem_of_cons in Hn as [_ Hn]. apply not_elem_of_cons in Hn as [Hy _].
      destruct (CR =? x); [| done]. by destruct (Z.eqb_spec LF y). }
    rewrite IH by done. cbn [fmap option_fmap option_map]. f_equal. rewrite !lenZ_app. change (lenZ crlf) with 2. lia.
Qed.

Lemma ParseMessage_parts first lines body :
  LF ∉ first -> Forall line_ok lines -> ParseMessage (first ++ crlf ++ header_block lines ++ crlf ++ body) = Some (mkParsed first (header_block lines) body).
Proof.
  intros Hf Hl. unfold ParseMessage. change (crlf ++ crlf) with blank. rewrite find_blank_lines by done. set (h := header_block lines). pose proof (lenZ_nonneg first). pose proof (lenZ_nonneg h).
  set (data := first ++ crlf ++ h ++ crlf ++ body).
  assert (take (Z.to_nat (lenZ first + lenZ h + 2)) data = first ++ crlf ++ h) as ->.
  { unfold data. replace (first ++ crlf ++ h ++ crlf ++ body) with ((first ++ crlf ++ h) ++ crlf ++ body) by (by rewrite <- !app_assoc). rewrite take_app_length'; [done |].
    rewrite !length_app. unfold lenZ. cbn. lia. }
  change (first ++ crlf ++ h) with (first ++ [CR] ++ LF :: h). rewrite (app_assoc first), index_of_app by (rewrite elem_of_app, list_elem_of_singleton; by intros [? | ?]).
  rewrite lenZ_app. change (lenZ [CR]) with 1. replace (lenZ first + 1 - 1) with (lenZ first) by lia.
  assert (nthZ data (lenZ first) = Some CR) as -> by (unfold data; rewrite nthZ_app_r by lia; by rewrite Z.sub_diag).
  rewrite bool_decide_eq_true_2 by done. destruct (Z.eqb_spec (lenZ first + 1) 0); [lia |]. cbn [orb negb]. f_equal. f_equal.
  - unfold slice, data. change (Z.to_nat 0) with 0%nat. rewrite drop_0. apply take_all_lenZ.
  - unfold slice. replace data with ((first ++ crlf) ++ h ++ crlf ++ body) by (unfold data; by rewrite <- !app_assoc).
    rewrite drop_app_length' by (rewrite length_app; unfold lenZ; cbn; lia). rewrite take_app_length' by (unfold lenZ; lia). done.
  - replace data with ((first ++ crlf ++ h ++ crlf) ++ body) by (unfold data; by rewrite <- !app_assoc). apply drop_app_length'. rewrite !length_app. unfold lenZ. cbn. lia.
Qed.

(** ** First lines *)

Lemma c_str_id l : 0 ∉ l -> c_str l = l.
Proof. induction l as [| x l IH]; intros Hn; [done |]. apply not_elem_of_cons in Hn as [Hx Hn]. cbn. destruct (Z.eqb_spec x 0) as [-> |]; [done |]. by rewrite IH. Qed.

Lemma find_sub_skip p pat l s : p ∉ l -> find_sub (p :: pat) (l ++ s) = (fun i => lenZ l + i) <$> find_sub (p :: pat) s.
Proof.
  induction l as [| x l IH]; intros Hn; cbn [app].
  - change (lenZ []) with 0. destruct (find_sub _ s); [cbn; f_equal; lia | done].
  - apply not_elem_of_cons in Hn as [Hx Hn]. rewrite find_sub_cons, IH, lenZ_cons by done. cbn [starts_with]. destruct (Z.eqb_spec p x) as [-> |]; [done |]. cbn [andb].
    destruct (find_sub _ s); [cbn; f_equal; lia | done].
Qed.

Lemma drop_past {A} (l : list A) x s : drop (Z.to_nat (lenZ l + 1)) (l ++ x :: s) = s.
Proof. change (l ++ x :: s) with (l ++ [x] ++ s). rewrite app_assoc. apply drop_app_length'. rewrite length_app. unfold lenZ. cbn. lia. Qed.

Lemma parse_request_line_parts method path : SP ∉ method -> SP ∉ path -> parse_request_line (method ++ [SP] ++ path ++ lit " HTTP/1.1") = (method, path).
Proof.
  intros Hm Hp. unfold parse_request_line. change ([SP] ++ path ++ lit " HTTP/1.1") with (SP :: path ++ lit " HTTP/1.1").
  rewrite index_of_app, take_all_lenZ, drop_past by done.
  change (lit " HTTP/") with (SP :: lit "HTTP/"). rewrite find_sub_skip by done. change (find_sub (SP :: lit "HTTP/") (lit " HTTP/1.1")) with (Some 0). cbn [fmap option_fmap option_map].
  by rewrite Z.add_0_r, take_all_lenZ.
Qed.

Lemma digits_head f n : 0 <= n -> (0 < f)%nat -> exists c r, digits f n = c :: r /\ is_digit c = true.
Proof.
  revert n. induction f as [| f IH]; intros n Hn Hf; [lia |]. cbn [digits]. destruct (Z.ltb_spec n 10); [exists (48 + n), []; split; [done | unfold is_digit; lia] |].
  destruct f as [| f]; [exists (48 + n mod 10), []; split; [done | unfold is_digit; pose proof (Z.mod_pos_bound n 10); lia] |].
  destruct (IH (n / 10)) as (c & r & -> & Hc); [apply Z.div_pos; lia | lia |]. by exists c, (r ++ [48 + n mod 10]).
Qed.

Lemma read_digits_print f : forall n acc s, 0 <= n < 10 ^ Z.of_nat f -> (0 < f)%nat -> read_digits acc (digits f n ++ s) = read_digits (acc * 10 ^ lenZ (digits f n) + n) s.
Proof.
  induction f as [| f IH]; intros n acc s Hn Hf; [lia |]. cbn [digits]. destruct (Z.ltb_spec n 10).
  - cbn [app read_digits]. replace (is_digit (48 + n)) with true by (unfold is_digit; lia). change (lenZ [48 + n]) with 1. f_equal. lia.
  - pose proof (Z.mod_pos_bound n 10 ltac:(lia)). pose proof (Z.div_mod n 10 ltac:(lia)). rewrite Nat2Z.inj_succ, Z.pow_succ_r in Hn by lia.
    destruct f as [| f]; [cbn in Hn; lia |]. rewrite <- app_assoc, IH; [| split; [apply Z.div_pos; lia | apply Z.div_lt_upper_bound; lia] | lia].
    cbn [app read_digits]. replace (is_digit (48 + n mod 10)) with true by (unfold is_digit; lia). rewrite lenZ_app. change (lenZ [48 + n mod 10]) with 1.
    rewrite Z.pow_add_r by (pose proof (lenZ_nonneg (digits (S f) (n / 10))); lia). f_equal. lia.
Qed.

Lemma atoi_print n s : - 2 ^ 31 <= n < 2 ^ 31 -> atoi (print_int n ++ SP :: s) = Ok n.
Proof.
  intros Hn. unfold atoi, print_int.
  assert (forall m, 0 <= m < 2 ^ 32 -> read_digits 0 (digits 10 m ++ SP :: s) = m) as Hr by (intros m Hm; rewrite read_digits_print by lia; cbn [read_digits is_digit]; done).
  destruct (Z.ltb_spec n 0).
  - change (skip_spaces ((45 :: digits 10 (- n)) ++ SP :: s)) with (45 :: digits 10 (- n) ++ SP :: s). cbv iota. rewrite Hr by lia. rewrite Z.opp_involutive. by replace ((- 2 ^ 31 <=? n) && (n <? 2 ^ 31)) with true by lia.
  - destruct (digits_head 10 n ltac:(lia) ltac:(lia)) as (c & r & E & Hc). specialize (Hr n ltac:(lia)). rewrite E in *. cbn [app skip_spaces] in *.
    replace (is_space c) with false by (unfold is_space, is_digit, SP in *; lia).
    assert (match c :: r ++ SP :: s with 45 :: l => - read_digits 0 l | 43 :: l => read_digits 0 l | _ => read_digits 0 (c :: r ++ SP :: s) end = n) as ->.
    { unfold is_digit in Hc. destruct c as [| c | c]; try exact Hr. do 6 (destruct c as [c | c |]; try exact Hr; try lia). }
    by replace ((- 2 ^ 31 <=? n) && (n <? 2 ^ 31)) with true by lia.
Qed.

(** Text of a first line: no NUL and no newline. *)
Definition plain (l : bytes) : Prop := 0 ∉ l /\ LF ∉ l.

Lemma plain_app a b : plain (a ++ b) <-> plain a /\ plain b.
Proof. unfold plain. rewrite !elem_of_app. tauto. Qed.

(** The headers of a request or response are whole, non-empty lines. *)
Definition headers_ok (h : bytes) : Prop := exists lines, Forall (fun l => l <> [] /\ plain l) lines /\ h = header_block lines.

Lemma headers_ok_parts h : headers_ok h -> exists lines, Forall line_ok lines /\ h = header_block lines /\ 0 ∉ h.
Proof.
  intros (lines & Hl & ->). exists lines. split; [eapply Forall_impl; [exact Hl |]; by intros l (? & _ & ?) |]. split; [done |].
  induction Hl as [| l lines (_ & H0 & _) _ IH]; [apply not_elem_of_nil |]. change (header_block (l :: lines)) with ((l ++ crlf) ++ header_block lines). rewrite !elem_of_app.
  intros [[? | Hc] | ?]; [done | | done]. revert Hc. by apply (bool_decide_unpack _).
Qed.

Record request_ok (req : fuse_http_request) : Prop := {
  qo_method : plain (rq_method req) /\ SP ∉ rq_method req;
  qo_path : plain (rq_path req) /\ SP ∉ rq_path req;
  qo_headers : headers_ok (rq_headers req);
}.

Lemma lit_version_plain : plain (lit " HTTP/1.1").
Proof. split; by apply (bool_decide_unpack _). Qed.

Lemma space_plain : plain [SP].
Proof. split; by apply (bool_decide_unpack _). Qed.

Lemma request_parsed req : request_ok req -> exists m, ParseMessage (request_wire req) = Some m /\ parse_request m = req.
Proof.
  intros [[[M1 M2] M3] [[P1 P2] P3] Hh]. destruct (headers_ok_parts _ Hh) as (lines & Hl & Eh & H0). unfold request_wire, AppendHeadersAndBody. rewrite Eh.
  set (first := rq_method req ++ [SP] ++ rq_path req ++ lit " HTTP/1.1").
  assert (plain first) as [F1 F2].
  { unfold first. rewrite !plain_app. split; [done |]. split; [apply space_plain |]. split; [done | apply lit_version_plain]. }
  exists (mkParsed first (header_block lines) (rq_body req)). split.
  - rewrite <- (ParseMessage_parts first lines (rq_body req)) by done. unfold first. by rewrite <- !app_assoc.
  - unfold parse_request. cbn [pm_first_line pm_headers pm_body]. rewrite (c_str_id first) by done. unfold first. rewrite parse_request_line_parts by done. rewrite <- Eh, c_str_id by done. by destruct req.
Qed.

(** What the server puts in the status line. *)
Definition reason_of (resp : fuse_http_response) : bytes := match rs_reason resp with Some r => r | None => DefaultReason (rs_status resp) end.

(** The reason has no leading space, and the status line fits the buffer of 64 bytes. *)
Record response_ok (resp : fuse_http_response) : Prop := {
  po_status : - 2 ^ 31 <= rs_status resp < 2 ^ 31;
  po_reason : plain (reason_of resp) /\ head (reason_of resp) <> Some SP;
  po_fits : lenZ (print_int (rs_status resp)) + lenZ (reason_of resp) <= 51;
  po_headers : headers_ok (rs_headers resp);
}.

Lemma digits_chars f n : 0 <= n -> Forall (fun c => 48 <= c <= 57) (digits f n).
Proof.
  revert n. induction f as [| f IH]; intros n Hn; cbn [digits]; [constructor |]. destruct (Z.ltb_spec n 10); [constructor; [lia | constructor] |].
  apply Forall_app. split; [apply IH, Z.div_pos; lia |]. constructor; [| constructor]. pose proof (Z.mod_pos_bound n 10 ltac:(lia)). lia.
Qed.

Lemma print_int_chars n : Forall (fun c => 45 <= c <= 57) (print_int n).
Proof.
  unfold print_int. assert (forall m, 0 <= m -> Forall (fun c => 45 <= c <= 57) (digits 10 m)) as H by (intros m Hm; eapply Forall_impl; [by apply digits_chars |]; cbn; lia).
  destruct (Z.ltb_spec n 0); [constructor; [lia |] |]; apply H; lia.
Qed.

Lemma not_in_chars c lo hi l : Forall (fun x => lo <= x <= hi) l -> c < lo \/ hi < c -> c ∉ l.
Proof. intros Hf Hc Hin. pose proof (proj1 (list.Forall_forall _ _) Hf c Hin). cbn in *. lia. Qed.

Lemma print_int_plain n : plain (print_int n) /\ SP ∉ print_int n.
Proof. split; [split |]; (eapply not_in_chars; [apply print_int_chars | unfold LF, SP; lia]). Qed.

Lemma skip_sp_none l : head l <> Some SP -> skip_sp l = 0.
Proof. destruct l as [| x l]; [done |]. cbn. intros H. by destruct (Z.eqb_spec x SP) as [-> |]. Qed.

Lemma parse_status_line_parts n reason :
  - 2 ^ 31 <= n < 2 ^ 31 -> head reason <> Some SP -> parse_status_line (lit "HTTP/1.1 " ++ print_int n ++ [SP] ++ reason) = Ok (n, reason).
Proof.
  intros Hn Hr. unfold parse_status_line. change (lit "HTTP/1.1 " ++ print_int n ++ [SP] ++ reason) with (lit "HTTP/1.1" ++ SP :: print_int n ++ SP :: reason).
  rewrite index_of_app by (by apply (bool_decide_unpack _)). rewrite drop_past, atoi_print by done. cbn [res_bind]. rewrite index_of_app by apply print_int_plain.
  rewrite drop_pre_0. cbn [skip_sp]. rewrite Z.eqb_refl, skip_sp_none by done. done.
Qed.

Lemma response_parsed resp : response_ok resp ->
  parse_response (response_wire resp true) true = Ok (FUSE_OK, mkResponse (rs_status resp) (Some (reason_of resp)) (rs_headers resp) (rs_body resp)).
Proof.
  intros [Hs [[R1 R2] R3] Hf Hh]. destruct (headers_ok_parts _ Hh) as (lines & Hl & Eh & H0). unfold response_wire, AppendHeadersAndBody. rewrite Eh. fold (reason_of resp).
  change (match rs_reason resp with Some r => r | None => DefaultReason (rs_status resp) end) with (reason_of resp). set (reason := reason_of resp) in *.
  set (first := lit "HTTP/1.1 " ++ print_int (rs_status resp) ++ [SP] ++ reason).
  assert (status_line (rs_status resp) reason = first ++ crlf) as ->.
  { unfold status_line, first. rewrite take_ge; [by rewrite <- !app_assoc |]. rewrite !length_app. unfold lenZ in Hf. cbn. lia. }
  assert (plain first) as [F1 F2].
  { unfold first. rewrite !plain_app. split; [split; by apply (bool_decide_unpack _) |]. split; [apply print_int_plain |]. split; [apply space_plain | done]. }
  rewrite <- app_assoc. unfold parse_response. rewrite ParseMessage_parts by done. cbn [pm_first_line pm_headers pm_body]. rewrite c_str_id by done. unfold first. rewrite parse_status_line_parts by done.
  cbn [res_bind]. by rewrite <- Eh, c_str_id.
Qed.

(** C28: A request and its response survive the trip.  The method and the path have no
    spaces, the headers are whole non-empty lines, the status line fits its buffer, and
    the bodies are any bytes at all.  Then the server's handler is given exactly the request
    of [fuse_http_fetch], and the client exactly the status, headers and body of the
    handler's response, with the reason the handler chose or the default one. *)
Theorem http_exchange req handler resp :
  request_ok req -> handler req = (FUSE_OK, resp) -> response_ok resp ->
  exists wire, ServeOneConnection (FUSE_OK, request_wire req) handler true = (Some req, [wire]) /\
    fuse_http_fetch req FUSE_OK FUSE_OK (FUSE_OK, wire) true =
      Ok ([request_wire req], (FUSE_OK, mkResponse (rs_status resp) (Some (reason_of resp)) (rs_headers resp) (rs_body resp))).
Proof.
  intros Hq Hh Hp. exists (response_wire resp true). destruct (request_parsed req Hq) as (m & Em & Er). split.
  - unfold ServeOneConnection. cbn [fst snd]. rewrite bool_decide_eq_true_2 by done. cbn [negb]. by rewrite Em, Er, Hh, bool_decide_eq_true_2.
  - unfold fuse_http_fetch. cbn [fst snd]. rewrite bool_decide_eq_true_2 by done. cbn [negb]. by rewrite response_parsed.
Qed.

Definition request_example : fuse_http_request := mkRequest (lit "GET") (lit "/a") (lit "Host: b" ++ crlf) [0; 13; 10; 13; 10].
Definition not_found_example : fuse_http_response := mkResponse 404 None [] [1; 2].

Lemma http_exchange_witness :
  exists wire, ServeOneConnection (FUSE_OK, request_wire request_example) (fun _ => (FUSE_OK, not_found_example)) true = (Some request_example, [wire]) /\
    fuse_http_fetch request_example FUSE_OK FUSE_OK (FUSE_OK, wire) true = Ok ([request_wire request_example], (FUSE_OK, mkResponse 404 (Some (lit "Not Found")) [] [1; 2])).
Proof.
  refine (http_exchange request_example (fun _ => (FUSE_OK, not_found_example)) not_found_example _ eq_refl _).
  - split; [split; [split |]; by apply (bool_decide_unpack _) .. |]. exists [lit "Host: b"]. split; [| done]. constructor; [| constructor]. split; [done | split; by apply (bool_decide_unpack _)].
  - split; [cbn; lia | split; [split; by apply (bool_decide_unpack _) | done] | by vm_compute | by exists []].
Defined.

(** ** Header lookup *)

Definition field (kv : bytes * bytes) : bytes := fst kv ++ [58; SP] ++ snd kv.

(** A name has no colon, a value no leading space, and neither has a newline. *)
Definition field_ok (kv : bytes * bytes) : Prop := 58 ∉ fst kv /\ LF ∉ fst kv /\ LF ∉ snd kv /\ head (snd kv) <> Some SP.

(** The value of the first field of that name. *)
Fixpoint first_field (kvs : list (bytes * bytes)) (name : bytes) : option bytes :=
  match kvs with [] => None | (k, v) :: kvs => if EqualsIgnoreCase k name then Some v else first_field kvs name end.

(** One pass of the loop. *)
Lemma header_line fuel p k v rest name :
  field_ok (k, v) -> lenZ k + lenZ v + 4 < 2 ^ 64 ->
  header_loop (S fuel) p ((k ++ 58 :: SP :: v) ++ CR :: LF :: rest) name =
    if EqualsIgnoreCase k name then Ok (Some (p + (lenZ k + 2), lenZ v)) else header_loop fuel (p + (lenZ k + lenZ v + 4)) rest name.
Proof.
  intros (K1 & K2 & K3 & K4) Hmax. cbn [fst snd] in *. pose proof (lenZ_nonneg k). pose proof (lenZ_nonneg v). set (l := k ++ 58 :: SP :: v).
  assert (lenZ l = lenZ k + lenZ v + 2) as Hl by (unfold l; rewrite lenZ_app, !lenZ_cons; lia). set (q := l ++ CR :: LF :: rest).
  assert (q = (l ++ [CR]) ++ LF :: rest) as Eq by (unfold q; by rewrite <- app_assoc). assert (LF ∉ l ++ [CR]) as Hnl.
  { unfold l. rewrite !elem_of_app, !elem_of_cons. intros [[? | [Hc | [Hc | ?]]] | [Hc | Hc]]; done || by apply elem_of_nil in Hc. }
  assert (index_of LF q = Some (lenZ l + 1)) as Ei by (rewrite Eq, index_of_app, lenZ_app by done; done).
  assert (lenZ q = lenZ l + 2 + lenZ rest) as Hq by (unfold q; rewrite lenZ_app, !lenZ_cons; lia). pose proof (lenZ_nonneg rest).
  assert (find_colon q (u64 (lenZ l + 1 - 1)) = Ok (Some (lenZ k))) as Ec.
  { rewrite u64_small by (unfold is_u64; lia). unfold find_colon. rewrite Z.min_l by lia. replace (lenZ l + 1 - 1) with (lenZ l) by lia. unfold q. rewrite take_all_lenZ. unfold l. by rewrite index_of_app. }
  assert (take (Z.to_nat (lenZ k)) q = k) as Ek by (unfold q, l; rewrite <- app_assoc; apply take_all_lenZ).
  assert (slice q (lenZ k + 1) (lenZ l + 1 - 1 - (lenZ k + 1)) = SP :: v) as Es.
  { unfold slice, q, l. rewrite <- app_assoc. change ((58 :: SP :: v) ++ CR :: LF :: rest) with (58 :: (SP :: v) ++ CR :: LF :: rest). rewrite drop_past. apply take_app_length'. fold l. unfold lenZ in *. cbn [length]. lia. }
  assert (forall X Y : res (option (Z * Z)), match q with [] => X | _ => Y end = Y) as Hm by (intros; destruct q; [change (lenZ []) with 0 in Hq; lia | done]).
  cbn [header_loop]. rewrite Hm, Ei, Ec. cbn [res_bind]. rewrite Ek, Es. cbn [skip_sp].
  rewrite Z.eqb_refl, skip_sp_none by done. destruct (EqualsIgnoreCase k name).
  - f_equal. f_equal. f_equal; [lia |]. rewrite u64_small by (unfold is_u64; lia). lia.
  - replace (lenZ l + 1 + 1) with (lenZ (l ++ [CR]) + 1) by (rewrite lenZ_app; done). rewrite Eq, drop_past. f_equal. lia.
Qed.

Lemma header_block_field k v kvs : header_block (field <$> (k, v) :: kvs) = (k ++ 58 :: SP :: v) ++ CR :: LF :: header_block (field <$> kvs).
Proof. change (header_block (field <$> (k, v) :: kvs)) with ((field (k, v) ++ crlf) ++ header_block (field <$> kvs)). by rewrite <- app_assoc. Qed.

Lemma header_loop_fields kvs : forall fuel pre name,
  Forall field_ok kvs -> (length kvs < fuel)%nat -> lenZ (header_block (field <$> kvs)) < 2 ^ 64 ->
  exists r, header_loop fuel (lenZ pre) (header_block (field <$> kvs)) name = Ok r /\
    ((fun '(off, len) => slice (pre ++ header_block (field <$> kvs)) off len) <$> r) = first_field kvs name.
Proof.
  induction kvs as [| [k v] kvs IH]; intros fuel pre name Hk Hf Hmax; [destruct fuel; by exists None |]. apply Forall_cons in Hk as [Hkv Hk]. destruct fuel as [| fuel]; [lia |].
  rewrite header_block_field in *. set (rest := header_block (field <$> kvs)) in *. rewrite !lenZ_app, !lenZ_cons in Hmax. cbn [length] in Hf.
  pose proof (lenZ_nonneg k). pose proof (lenZ_nonneg v). pose proof (lenZ_nonneg rest). pose proof (lenZ_nonneg pre).
  rewrite header_line by (done || lia). cbn [first_field]. destruct (EqualsIgnoreCase k name).
  - eexists. split; [done |]. cbn [fmap option_fmap option_map]. f_equal. unfold slice.
    replace (pre ++ (k ++ 58 :: SP :: v) ++ CR :: LF :: rest) with ((pre ++ k ++ [58; SP]) ++ v ++ CR :: LF :: rest) by (by rewrite <- !app_assoc).
    rewrite drop_app_length' by (rewrite !length_app; unfold lenZ; cbn; lia). apply take_all_lenZ.
  - set (line := (k ++ 58 :: SP :: v) ++ [CR; LF]). destruct (IH fuel (pre ++ line) name Hk) as (r & Er & Es); [lia | lia |]. exists r.
    assert (lenZ (pre ++ line) = lenZ pre + (lenZ k + lenZ v + 4)) as El by (unfold line; rewrite !lenZ_app, !lenZ_cons; change (lenZ []) with 0; lia). rewrite El in Er. split; [done |].
    rewrite <- Es. unfold line. by rewrite <- !app_assoc.
Qed.

(** Header lookup finds the first field of a name.  In a block of well-formed fields,
    [fuse_http_get_header] returns exactly the value of the first field whose name is the
    one asked for but for the case of its letters, and null when there is none. *)
Theorem get_header_finds_first kvs name :
  Forall field_ok kvs -> lenZ (header_block (field <$> kvs)) < 2 ^ 64 ->
  exists r, fuse_http_get_header (header_block (field <$> kvs)) name = Ok r /\ ((fun '(off, len) => slice (header_block (field <$> kvs)) off len) <$> r) = first_field kvs name.
Proof.
  intros Hk Hmax. unfold fuse_http_get_header. apply (header_loop_fields kvs _ [] name Hk); [| done].
  assert (length kvs <= length (header_block (field <$> kvs)))%nat; [| lia]. clear. induction kvs as [| [k v] kvs IH]; [done |]. rewrite header_block_field, !length_app. cbn [length]. lia.
Qed.

Lemma get_header_finds_first_witness :
  exists r, fuse_http_get_header (header_block (field <$> [(lit "Host", lit "a"); (lit "ETag", lit "b: c")])) (lit "etag") = Ok r /\
    ((fun '(off, len) => slice (header_block (field <$> [(lit "Host", lit "a"); (lit "ETag", lit "b: c")])) off len) <$> r) = Some (lit "b: c").
Proof.
  apply (get_header_finds_first [(lit "Host", lit "a"); (lit "ETag", lit "b: c")] (lit "etag")); [| by vm_compute].
  repeat constructor; try (by apply (bool_decide_unpack _)); done.
Defined.

(** ** What other peers can send *)


(** A reason that does not fit the status line's buffer takes the line's end with it: a
    response without headers and body is then refused by [fuse_http_fetch]. *)
Theorem long_reason_refused status reason :
  plain reason -> 53 <= lenZ (print_int status) + lenZ reason ->
  parse_response (response_wire (mkResponse status (Some reason) [] []) true) true = Ok (FUSE_ERR_INTERNAL, fuse_http_response_init).
Proof.
  intros [_ Hr] Hlen. unfold parse_response, response_wire, AppendHeadersAndBody. cbn [rs_reason rs_status rs_headers rs_body app]. set (all := lit "HTTP/1.1 " ++ print_int status ++ [SP] ++ reason).
  assert (status_line status reason = take 63 all) as ->.
  { unfold status_line. replace (lit "HTTP/1.1 " ++ print_int status ++ [SP] ++ reason ++ crlf) with (all ++ crlf) by (unfold all; by rewrite <- !app_assoc).
    apply take_app_le. unfold all. rewrite !length_app. unfold lenZ in Hlen. cbn. lia. }
  assert (LF ∉ take 63 all) as Hn.
  { intros Hin. apply (subseteq_take 63 all) in Hin. revert Hin. unfold all. rewrite !elem_of_app. intros [Hc | [Hc | [Hc | Hc]]]; [| by apply print_int_plain in Hc | | done]; revert Hc; by apply (bool_decide_unpack _). }
  unfold ParseMessage. change (crlf ++ crlf) with blank. rewrite <- (app_nil_r crlf), find_blank_line by done. done.
Qed.
